(* ===== verification/_CoqProject ===== *)
-Q . S2P
Prelude.v
Strings.v
BTree.v
Uuid.v
Http.v
Core.v
HttpModel.v
RoutePattern.v
Router.v
Range.v
Negotiation.v
StaticPath.v
StaticFiles.v
Net.v
TrustedProxy.v
Cors.v
RateLimit.v
Json.v
RedisCache.v
JobEnvelope.v
Jobs.v
Events.v
Outbox.v
Auth.v
ApiKeyStore.v
Session.v
RedisSessions.v
JsonValue.v
Identity.v
Extract.v
Oidc.v
RedisStreams.v
RedisJobs.v
RedisDelivery.v
RedisLiveness.v
Cron.v
CronLaws.v
Effects.v
OidcLogin.v
OidcSystem.v
OidcJwks.v
OidcIntrospection.v
Kafka.v
KafkaRetry.v
KafkaDelivery.v
KafkaSystem.v
AiProtocol.v
AiTables.v
AiPipeline.v
AiLedger.v
AiAccounting.v
AiSystem.v
AiCache.v
AiCacheSystem.v
AiBatch.v
AiBatchSystem.v
AiRag.v
McpContext.v
Mcp.v
McpBudget.v
McpAnswers.v
McpSystem.v
