(* ===== verification/Prelude.v ===== *)
(** * The Rustee web framework: routing, static files, middleware, authentication,
      identity providers, sessions, jobs, outbox, recurring jobs, events over Kafka, AI
      accounting, caches, batches and retrieval, and an MCP server

    Rustee is a Rust workspace. Its HTTP side is a router in front of handlers
    ([crates/rustee-router]) with layers around it: CORS, panic boundary, compression
    and trusted proxies ([crates/rustee-middleware]), rate limiting
    ([crates/rustee-rate-limit] and its Redis store), bearer and API-key
    authentication, authorization and tenants ([crates/rustee-auth],
    [crates/rustee-tenant]), cookie sessions and CSRF protection
    ([crates/rustee-auth-session]) and static files ([crates/rustee-static]). Principals
    come from identity providers: tokens under a static key ([crates/rustee-auth-jwt]), and
    OpenID Connect ([crates/rustee-auth-oidc]) with the browser login, the provider's
    published keys and token introspection; login transactions are kept in memory or in
    Redis ([crates/rustee-auth-oidc-redis], over the helpers of [crates/rustee-redis]),
    and so are sessions ([crates/rustee-auth-session-redis]); API keys are kept in
    PostgreSQL ([crates/rustee-auth-sqlx]). Its
    durable side is a job contract ([crates/rustee-jobs]) that providers such as Redis
    Streams ([crates/rustee-jobs-redis]) deliver, a transactional outbox and inbox in
    PostgreSQL ([crates/rustee-outbox-sqlx]) that relays messages to providers, and a
    cron scheduler that stages jobs into that outbox ([crates/rustee-jobs-cron-sqlx]).
    Events ([crates/rustee-events]) are published to and consumed from Kafka
    ([crates/rustee-events-kafka]), with retries over topics or delayed through a table
    in PostgreSQL ([crates/rustee-events-kafka-sqlx]).
    The AI side is a pipeline in front of model providers ([crates/rustee-ai]) with a
    durable usage ledger and tool audit ([crates/rustee-ai-audit-sqlx]), a cache of its
    responses in memory or in Redis ([crates/rustee-ai-cache], [crates/rustee-ai-cache-redis])
    and batches whose submission and results are jobs over a ledger ([crates/rustee-ai-batch],
    [crates/rustee-ai-batch-jobs], [crates/rustee-ai-batch-sqlx]); documents are ingested into
    vector indexes and retrieved for prompts ([crates/rustee-ai-rag],
    [crates/rustee-ai-rag-advisor], [crates/rustee-ai-rag-jobs]); its tools are
    offered to other programs by an MCP server ([crates/rustee-mcp]).
    [crates/rustee-core] and [crates/rustee-json] are what all of them share.

    ** Files

    - [Prelude], [Strings]: results, machine integers, durations, tactics, the hint
      database [rustee]; the operations of [core::str] and [core::num] on byte lists.
    - [BTree]: ordered maps and sets of strings, which several components iterate over.
    - [Uuid], [Http], [HttpModel], [Net]: interfaces to the [uuid] and [http] crates
      with instances that satisfy their laws, and the address parser of [std::net].
    - [Core]: [rustee-core] bodies, requests, responses, errors, typed state.
    - [RoutePattern], [Router]: [pattern.rs]; [app.rs], [dispatch.rs], [nesting.rs],
      [handler.rs]. An application is a record of routes, nested services, state and
      fallback; building steps return a new one or an error; [dispatch] maps a request
      to the response of one endpoint.
    - [Range], [Negotiation], [StaticPath], [StaticFiles]: [range.rs]; the two
      [Accept-Encoding] readers and the compression layer; [config.rs]; validators,
      multipart answers, delivery and the layer of [rustee-static].
    - [TrustedProxy], [Cors], [RateLimit]: the middleware of the same names; the last
      with the Lua script of the Redis store.
    - [Json], [JobEnvelope], [Jobs]: the bounded writer; envelopes with their codec and
      upcasting; client, registry, handlers, retry policy, delivery observation.
    - [Events]: event envelopes with their codec and upcasting, provider messages, client,
      dispatch and delivery observation.
    - [Outbox]: messages, staging, leases, relay pass and loop, inbox.
    - [Auth], [Session]: principals, authenticators, layers and policies; cookies,
      session records, manager, in-memory store, the two middlewares.
    - [RedisCache]: the JSON helpers of [rustee-redis] with their two Lua scripts.
      [RedisSessions]: the sessions kept with them. [ApiKeyStore]: registration, rotation
      and revocation of API keys with their audit, and authentication by fingerprint.
    - [JsonValue]: values of [serde_json], their readers and their compact text.
    - [Extract]: the extractors of [rustee-core] (bodies, JSON, query, headers, path
      parameters) and its bounded JSON answers, behind the router.
    - [Identity], [Oidc]: claims and static-key verification; the trusted
      settings of OpenID Connect and its HTTP adapters.
    - [OidcLogin], [OidcSystem]: transactions, their two stores, redirects and the login
      flow; its callers on one store. [OidcJwks]: the cache of the provider's keys, its
      refreshes and the verification of tokens. [OidcIntrospection]: opaque tokens and the
      cache of their principals.
    - [RedisStreams], [RedisJobs], [RedisDelivery], [RedisLiveness]: the commands of the
      server; configuration, scripts, publisher, receiver and worker loop of the
      provider; that no job is lost; that jobs are settled.
    - [Cron], [CronLaws]: schedules, rate governor, scheduler passes, registration,
      pause and resume; their properties.
    - [Effects]: programs as trees of the calls they make, a weakest precondition against
      interference, and systems of callers; what the OpenID Connect, Kafka and AI files share.
    - [Kafka], [KafkaRetry], [KafkaDelivery], [KafkaSystem]: configuration, client settings
      and record headers; the consumer loops, routers, relay and retry table; broker and
      database as a world with the invariant that the calls keep; deployments of producers,
      consumers and relays with their theorems.
    - [AiProtocol], [AiTables], [AiPipeline], [AiLedger]: requests, responses, tools and
      the request policy; the ledger's and audit's tables and statements; completions
      and streams; the Postgres stores and the tool registry. [AiAccounting] is the
      program logic for their calls, [AiSystem] the callers of one database.
    - [AiCache], [AiCacheSystem]: the cached completion and its two stores; callers that
      share a store. [AiBatch], [AiBatchSystem]: the coordinator of submissions and
      reconciliations, its jobs and ledgers; callers that share a ledger. [AiRag]: the
      ingestion of documents, retrieval and its advisor, with the runs of each.
    - [McpContext], [Mcp]: resources and prompts with the budget their values are made
      under; settings, JSON-RPC messages and the handler of the MCP server. [McpBudget]
      compares the budget with answers made without one, [McpAnswers] says what is answered
      to which message, [McpSystem] has requests that share one audit.

    ** How the code is represented

    A [Result] is [result], an error path a value of it; a panic ([expect]) is [None]
    where its absence is a theorem. Integers are [Z] with the bound and the overflow
    behaviour written at each operation; a [usize] that counts elements is [nat].
    Strings are the lists of their bytes. Asynchronous code is sequential code over an
    explicit state (a table, a Redis server, an observer); interleaving with other
    processes is a step relation or a list of steps ([RateLimit], [Session],
    [RedisSessions], [ApiKeyStore], [RedisDelivery], [CronLaws], [OidcSystem], [OidcJwks], [OidcIntrospection], [KafkaSystem],
    [AiSystem], [AiCacheSystem], [AiBatchSystem], [McpSystem]), cancellation and lost acknowledgements are outcomes of
    their own ([Link] in [RedisJobs], [Commit] in [Cron], [Delivery] in [RedisCache]). The login flow,
    the token verifiers, Kafka clients, the AI pipeline, cache, batches and retrieval and the MCP server are
    trees of the calls they make ([Effects]), so that callers interleave between any two of them and can be dropped
    at each.

    Code outside the repository is a class of operations that the definitions take as
    an argument, with a class of laws that state its documentation: [HttpApi]/[HttpLaws],
    [UuidApi]/[UuidLaws], [FileSystem], [RedisApi]/[RedisLaws],
    [RedisCommands]/[RedisCommandLaws] with [RedisAccepts] and [RedisClock], [RedisStrings]/[RedisStringLaws],
    [ExtractApi]/[ExtractLaws], [SessionJson]/[SessionJsonLaws], [PrincipalJson]/[PrincipalJsonLaws],
    [ResponseJson]/[ResponseJsonLaws], [JwtApi]/[JwtLaws], [UrlApi]/[UrlLaws], [EncodingApi]/[EncodingLaws], [JsonText]/[JsonTextLaws] with [CompactLaws],
    [Postgres]/[PostgresLaws], [World]/[BrokerLaws], [AiApp] (whose answers are arbitrary), [CalendarApi]/[CalendarLaws], the
    serde decoders ([SerdeLaws], [EventSerdeLaws], [TemplateSerde]), HTTP dates, HMAC and the authority
    parser. [RateLimitStore]/[StoreLaws] and [SessionStore]/[SessionStoreLaws] are
    interfaces of the repository: the layers are proved against them and the Redis and
    in-memory stores implement them, and so are [AiUsageLedger]/[LedgerPromises],
    [ToolAuditSink]/[AuditPromises], [AiAdvisor]/[AdvisorPromises],
    [AiResponseCache]/[ResponseCacheLaws], [BatchLedger]/[BatchLedgerPromises],
    [AuthorizationTransactionStore]/[TransactionStoreLaws] and [KafkaFailureRouter]/[DurableRouter]. Each class of laws has an instance; the witnesses
    of the theorems compute with it.

    ** What the theorems show

    - Routing: patterns are equivalent exactly when they accept the same paths; a built
      application is well formed; dispatch returns what the specification of routing
      says, whatever the registration order; a path built from values reaches its handler
      with those values as extracted parameters.
    - Static files: request paths stay below the root and reach every name there; the
      answer depends only on files below the root; ranges are canonical and deliver
      exactly the selected bytes; no construction of an answer panics.
    - Middleware: forwarded headers count only behind trusted peers, and give exactly the
      context that they say or are refused; CORS, compression
      and rate limiting on every branch; the Redis bucket counts exactly.
    - Authentication and sessions: a handler behind a stack of layers sees exactly the
      admitted requests; an issued cookie restores its session until it expires; unsafe
      requests need the CSRF token; in every history of the stores a session in Redis is
      the one last saved, and an API key authenticates exactly while it is registered,
      unexpired and neither rotated nor revoked.
    - Identity providers: a static key admits only tokens it signed for its issuer and
      audience; a completed login used one saved transaction, once, with its verifier and
      nonce; a principal of the key verifier is signed by a key the provider published and
      the cache still vouches for, and refreshes keep their distance; a principal of an
      opaque token has a live answer of the provider behind it.
    - Jobs: envelopes round trip and stay valid; the enqueued job is the handled job; a
      failing job is delivered exactly [max_deliveries] times. On Redis Streams no
      published job is lost whatever fails, and a worker on a responsive server settles
      its backlog.
    - Outbox: a row is confirmed only after its message was published; staging and the
      inbox are exactly-once.
    - Recurring jobs: a pass is all or nothing and fires a schedule at most once; the
      tables keep their invariant; the governor is the fixed-window counter; a fired job
      decodes to the registered one; registration is idempotent.
    - Events over Kafka: a published envelope is the handled one; in every interleaving of
      producers, consumers of a group, relays, rebalances, failed requests and crashes no
      event is lost, and retries copy their event with a bounded attempt. The group has to
      start at the beginning of topics it has no offset for ([StartsAtBeginning]), has a retry
      table of its own, runs each consumer once, and records do not expire.
    - AI: the provider is called at most once per tenant and key; results are visible only
      once their usage is settled; settled usage is what the provider reported and never
      changes; tools run only under a recorded approval; the policy counts exactly the
      characters the provider receives. A cached response was run and stored for its key
      within the retention and not invalidated since, and what is stored is served; batches
      are submitted, and their results processed, at most once per reference. An ingestion
      embeds in batches within the provider's limits and writes the index once, last and
      complete, or not at all; a retrieval returns chunks only of the tenant and documents
      it was scoped to.
    - MCP: whatever a request is, tools and their approval are asked only for the call that
      it is authorized for; answers are true of the audit in every interleaving; every
      message with a plain id is answered with that id within the limits, by a result of its
      method or by an error that has its cause, and without an id only when a result is too
      large; the budget for context values
      refuses only what the limit on the answer refuses.
    - Where the code does not do what it means to, a theorem says what it does instead:
      [RateLimit.unrepresentable_window_sticks], [Outbox.relay_rejected],
      [RedisJobs.incomplete_records_pass], [Cron.exhausted_schedule_blocks],
      [second_group_loses_event], [rerun_loses_event] and [default_reset_loses_event] in
      [KafkaSystem],
      [Mcp.control_id_unanswered]. Examples show the
      smaller ones: [spaces_overestimated] in [Oidc], [unknown_key_refresh_not_spaced] in
      [OidcJwks], [cached_past_expiration] in [OidcIntrospection].

    ** Bounds and fuel

    Printing a number has fuel [print_fuel], the number of its bits, which its digits do
    not exceed ([print_fuel_enough]). The loops over external events have a list of the
    events as their argument ([iteration]s of a worker, passes of a scheduler). The Kafka
    loops take the number of records or passes after which they are dropped, and their
    theorems hold for every number. The
    relay loop [run_until] and the delivery loop of a failing job have fuel, and their
    theorems say how much reaches the end: more than [max_deliveries] deliveries settle
    a failing job, and as many rounds as deliveries are left empty a backlog.

    ** Not modelled

    [Debug] output, tracing and metrics (no decisions depend on them); the connection
    handling of [rustee-server], the encoders of compression and file descriptors (I/O);
    NATS, RabbitMQ and SQS clients and the schema registry; the AI crates
    for evaluation, OpenAI and MCP clients; the OAuth front of the MCP server; configuration loading; OpenAPI generation; macros and test support. Of
    these, configuration and OpenAPI hold logic that fits the same style
    and come next. *)

From Stdlib Require Import ZArith Lia Bool Ascii.
From stdpp Require Export base option numbers strings list.

(** ** Notations and scope *)

Declare Scope rustee_scope.
Delimit Scope rustee_scope with rustee.

(** A Rust [str] or [\[u8\]] is the list of its bytes. *)
Definition bytes : Type := list ascii.
Definition str : Type := list ascii.

Definition lit (s : string) : str := String.list_ascii_of_string s.

Notation "## s" := (lit s%string) (at level 1, s at level 0, format "## s") : rustee_scope.
Open Scope rustee_scope.

(** ** Results: Rust's [Result<A, E>] *)

Inductive result (A E : Type) : Type :=
| Ok (a : A)
| Err (e : E).
Arguments Ok {A E} a.
Arguments Err {A E} e.

Notation "'let?' x := e 'in' k" :=
  (match e with Ok x => k | Err err => Err err end)
  (at level 200, x name, e at level 100, k at level 200, right associativity) : rustee_scope.

Definition is_ok {A E} (r : result A E) : bool :=
  match r with Ok _ => true | Err _ => false end.

Definition ok_or {A E} (o : option A) (e : E) : result A E :=
  match o with Some a => Ok a | None => Err e end.

Definition map_err {A E F} (f : E -> F) (r : result A E) : result A F :=
  match r with Ok a => Ok a | Err e => Err (f e) end.

Definition is_some {A} (o : option A) : bool :=
  match o with Some _ => true | None => false end.

(** [Iterator::collect::<Result<Vec<_>, _>>]: the first error wins. *)
Fixpoint collect_results {A E} (l : list (result A E)) : result (list A) E :=
  match l with
  | [] => Ok []
  | Err e :: _ => Err e
  | Ok a :: rest => let? xs := collect_results rest in Ok (a :: xs)
  end.

(** [Option::transpose] after [map]. *)
Definition transpose {A E} (o : option (result A E)) : result (option A) E :=
  match o with
  | None => Ok None
  | Some (Ok a) => Ok (Some a)
  | Some (Err e) => Err e
  end.

Lemma collect_results_Ok {A E} (l : list (result A E)) xs :
  collect_results l = Ok xs <-> l = Ok <$> xs.
Proof.
  revert xs. induction l as [|[a|e] l IH]; intros xs; simpl.
  - split; [by intros [= <-] | by destruct xs].
  - destruct (collect_results l) as [ys|e] eqn:E'.
    + specialize (IH ys). split.
      * intros [= <-]. simpl. f_equal. by apply IH.
      * destruct xs as [|x xs]; [done|]. intros [= -> ->].
        repeat f_equal. assert (Ok (E:=E) <$> ys = Ok <$> xs) as Hm by (symmetry; by apply IH).
        clear -Hm. revert xs Hm. induction ys as [|y ys IHy]; intros [|x xs]; try done.
        simpl. intros [= -> ?]. f_equal. by apply IHy.
    + split; [done|]. destruct xs as [|x xs]; [done|]. intros [= -> Hl].
      specialize (IH xs). by apply IH in Hl.
  - split; [done|]. by destruct xs.
Qed.

Lemma collect_results_Err {A E} (l : list (result A E)) e : collect_results l = Err e -> Err e ∈ l.
Proof.
  induction l as [|[a|e'] l IH]; simpl; [done | | intros [= ->]; left].
  destruct (collect_results l); [done|]. intros [= ->]. right. by apply IH.
Qed.

(** ** Machine integers

    Unsigned integers are [Z] kept in range; each operation writes out what the
    Rust operation does at the bounds. [usize] values that count elements of a
    [Vec] are [nat]. *)

Definition u8_max : Z := 255.
Definition u16_max : Z := 65535.
Definition i32_max : Z := 2147483647.
Definition u32_max : Z := 4294967295.
Definition u64_max : Z := 18446744073709551615.
Definition i64_max : Z := 9223372036854775807.

Definition checked_add (bound a b : Z) : option Z :=
  if (a + b <=? bound)%Z then Some (a + b)%Z else None.
Definition saturating_add (bound a b : Z) : Z := Z.min (a + b) bound.
Definition saturating_sub (a b : Z) : Z := Z.max (a - b) 0.
Definition saturating_mul (bound a b : Z) : Z := Z.min (a * b) bound.

(** [std::time::Duration], in nanoseconds; the largest one is [u64::MAX] seconds
    and 999999999 nanoseconds. *)

Definition Duration : Type := Z.
Definition duration_max : Duration := (u64_max * 1000000000 + 999999999)%Z.
Definition from_millis (ms : Z) : Duration := (ms * 1000000)%Z.
Definition from_secs (s : Z) : Duration := (s * 1000000000)%Z.
Definition from_hours (h : Z) : Duration := (h * 3600000000000)%Z.
Definition as_millis (d : Duration) : Z := (d / 1000000)%Z.
Definition as_secs (d : Duration) : Z := (d / 1000000000)%Z.
Definition subsec_nanos (d : Duration) : Z := (d mod 1000000000)%Z.

(** ** Tactics *)

(** Split the innermost boolean test or match the goal or a hypothesis is stuck on. *)
Ltac split_match :=
  match goal with
  | |- context [match ?x with _ => _ end] =>
      lazymatch x with context [match _ with _ => _ end] => fail | _ => destruct x eqn:? end
  | H : context [match ?x with _ => _ end] |- _ =>
      lazymatch x with context [match _ with _ => _ end] => fail | _ => destruct x eqn:? end
  end.

(** Turn boolean connectives of the hypotheses into propositions. *)
Ltac bool_hyps :=
  repeat match goal with
  | H : (_ && _) = true |- _ => apply andb_true_iff in H as [? ?]
  | H : (_ || _) = false |- _ => apply orb_false_iff in H as [? ?]
  | H : negb _ = true |- _ => apply negb_true_iff in H
  | H : negb _ = false |- _ => apply negb_false_iff in H
  | H : bool_decide _ = true |- _ => apply bool_decide_eq_true in H
  | H : bool_decide _ = false |- _ => apply bool_decide_eq_false in H
  | H : (_ <? _)%Z = true |- _ => apply Z.ltb_lt in H
  | H : (_ <? _)%Z = false |- _ => apply Z.ltb_ge in H
  | H : (_ <=? _)%Z = true |- _ => apply Z.leb_le in H
  | H : (_ <=? _)%Z = false |- _ => apply Z.leb_gt in H
  | H : (_ =? _)%Z = true |- _ => apply Z.eqb_eq in H
  | H : (_ =? _)%Z = false |- _ => apply Z.eqb_neq in H
  | H : (_ <? _) = true |- _ => apply Nat.ltb_lt in H
  | H : (_ <? _) = false |- _ => apply Nat.ltb_ge in H
  | H : (_ <=? _) = true |- _ => apply Nat.leb_le in H
  | H : (_ <=? _) = false |- _ => apply Nat.leb_gt in H
  end.

Ltac simp := repeat (simplify_eq/=; bool_hyps); try done.

(** ** Hint database *)

Create HintDb rustee discriminated.

(** ** Lists *)

Section lists.
Context {A : Type}.
Implicit Types l : list A.

Lemma existsb_false (f : A -> bool) l :
  existsb f l = false <-> Forall (fun x => f x = false) l.
Proof.
  induction l as [|x l IH]; simpl; [by split|].
  rewrite orb_false_iff, IH. by rewrite Forall_cons.
Qed.

Lemma forallb_Forall (f : A -> bool) l :
  forallb f l = true <-> Forall (fun x => f x = true) l.
Proof.
  induction l as [|x l IH]; simpl; [by split|].
  rewrite andb_true_iff, IH. by rewrite Forall_cons.
Qed.

Lemma existsb_exists' (f : A -> bool) l :
  existsb f l = true <-> Exists (fun x => f x = true) l.
Proof.
  induction l as [|x l IH]; simpl; [by rewrite Exists_nil|].
  rewrite orb_true_iff, IH. by rewrite Exists_cons.
Qed.
End lists.

Lemma length_omap_le {A B} (f : A -> option B) l : List.length (omap f l) <= List.length l.
Proof.
  induction l as [|x l IH]; [done|]. cbn. destruct (f x); cbn; [by apply le_n_S|].
  etrans; [apply IH | lia].
Qed.
