(* ===== verification/Strings.v ===== *)
(** Rust string operations on byte lists.

    The functions of [core::str] and [core::num] that the modelled crates call:
    splitting, trimming, prefix tests, ASCII case folding, decimal and
    hexadecimal printing, unsigned parsing and UTF-8 decoding, with the lemmas
    about them that the components share. *)

From Stdlib Require Import ZArith Lia Bool Ascii.
From S2P Require Import Prelude.

Local Open Scope Z_scope.

(** ** Bytes *)

Definition code (c : ascii) : Z := Z.of_N (N_of_ascii c).
Definition byte_of (z : Z) : ascii := ascii_of_N (Z.to_N z).

Lemma code_range c : 0 <= code c < 256.
Proof.
  unfold code. pose proof (N_ascii_bounded c). lia.
Qed.

Lemma byte_of_code c : byte_of (code c) = c.
Proof. unfold byte_of, code. by rewrite N2Z.id, ascii_N_embedding. Qed.

Lemma code_byte_of z : 0 <= z < 256 -> code (byte_of z) = z.
Proof.
  intros Hz. unfold byte_of, code. rewrite N_ascii_embedding by lia. lia.
Qed.

Lemma code_inj c d : code c = code d -> c = d.
Proof. intros H. by rewrite <- (byte_of_code c), H, byte_of_code. Qed.

Definition char_eqb (c d : ascii) : bool := bool_decide (c = d).

Definition in_range (lo hi : Z) (c : ascii) : bool := (lo <=? code c) && (code c <=? hi).
Definition is_ascii_digit : ascii -> bool := in_range 48 57.
Definition is_ascii_uppercase : ascii -> bool := in_range 65 90.
Definition is_ascii_lowercase : ascii -> bool := in_range 97 122.
Definition is_ascii_alphanumeric (c : ascii) : bool :=
  is_ascii_digit c || is_ascii_uppercase c || is_ascii_lowercase c.
Definition is_ascii_hexdigit (c : ascii) : bool :=
  is_ascii_digit c || in_range 65 70 c || in_range 97 102 c.
Definition is_ascii (c : ascii) : bool := code c <? 128.
Definition is_ascii_control (c : ascii) : bool := in_range 0 31 c || (code c =? 127).

(** The ASCII characters for which [char::is_whitespace] holds. *)
Definition is_ascii_ws (c : ascii) : bool := in_range 9 13 c || (code c =? 32).

(** ** Substrings *)

Definition nonempty (s : str) : bool := match s with [] => false | _ => true end.

Fixpoint strip_prefix (p s : str) : option str :=
  match p, s with
  | [], _ => Some s
  | a :: p', b :: s' => if char_eqb a b then strip_prefix p' s' else None
  | _ :: _, [] => None
  end.
Definition starts_with (p s : str) : bool := is_some (strip_prefix p s).
Definition ends_with (p s : str) : bool := starts_with (rev p) (rev s).

Definition contains_char (c : ascii) (s : str) : bool := existsb (char_eqb c) s.
Definition contains_any (cs s : str) : bool := existsb (fun c => existsb (char_eqb c) cs) s.

Fixpoint contains_str (p s : str) : bool :=
  starts_with p s || match s with [] => false | _ :: s' => contains_str p s' end.

(** [str::split(c)]: always at least one piece. *)
Fixpoint split (c : ascii) (s : str) : list str :=
  match s with
  | [] => [[]]
  | x :: s' =>
      if char_eqb c x then [] :: split c s'
      else match split c s' with
           | [] => [[x]]
           | h :: t => (x :: h) :: t
           end
  end.

(** [str::split_once(c)]: the text before and after the first [c]. *)
Fixpoint split_once (c : ascii) (s : str) : option (str * str) :=
  match s with
  | [] => None
  | x :: s' =>
      if char_eqb c x then Some ([], s')
      else match split_once c s' with
           | Some (a, b) => Some (x :: a, b)
           | None => None
           end
  end.

(** [\[str\]::join(sep)]. *)
Fixpoint join (sep : str) (l : list str) : str :=
  match l with
  | [] => []
  | [s] => s
  | s :: rest => s ++ sep ++ join sep rest
  end.

Fixpoint drop_while (f : ascii -> bool) (s : str) : str :=
  match s with
  | [] => []
  | c :: s' => if f c then drop_while f s' else s
  end.
Definition trim_by (f : ascii -> bool) (s : str) : str :=
  rev (drop_while f (rev (drop_while f s))).

(** [str::trim_matches(c)], and [str::trim] on text whose characters are ASCII. *)
Definition trim_matches (c : ascii) : str -> str := trim_by (char_eqb c).
Definition trim : str -> str := trim_by is_ascii_ws.

Definition to_lower (c : ascii) : ascii :=
  if is_ascii_uppercase c then byte_of (code c + 32) else c.
(** [str::trim_end_matches(c)]. *)
Fixpoint trim_end_matches (c : ascii) (s : str) : str :=
  match s with
  | [] => []
  | d :: s' =>
      match trim_end_matches c s' with
      | [] => if char_eqb d c then [] else [d]
      | t => d :: t
      end
  end.

Definition to_ascii_lowercase (s : str) : str := map to_lower s.
Definition eq_ignore_ascii_case (a b : str) : bool :=
  bool_decide (to_ascii_lowercase a = to_ascii_lowercase b).
Definition str_eqb (a b : str) : bool := bool_decide (a = b).

(** ** Numbers *)

Definition digit_value (c : ascii) : option Z :=
  if is_ascii_digit c then Some (code c - 48) else None.

(** The value of a digit string, in base ten, most significant digit first. *)
Fixpoint digits_value (acc : Z) (s : str) : option Z :=
  match s with
  | [] => Some acc
  | c :: s' => match digit_value c with
               | Some d => digits_value (acc * 10 + d) s'
               | None => None
               end
  end.

(** [str::parse] for an unsigned type with maximum [bound]: an optional [+],
    at least one digit, no overflow. *)
Definition parse_unsigned (bound : Z) (s : str) : option Z :=
  let digits := match strip_prefix ##"+" s with Some d => d | None => s end in
  match digits with
  | [] => None
  | _ => match digits_value 0 digits with
         | Some v => if v <=? bound then Some v else None
         | None => None
         end
  end.

Definition digit_char (d : Z) : ascii :=
  if d <? 10 then byte_of (48 + d) else byte_of (87 + d).

(** Digits of [n] in [base], most significant first; [fuel] bounds their number. *)
Fixpoint print_digits (base : Z) (fuel : nat) (n : Z) (acc : str) : str :=
  match fuel with
  | O => acc
  | S fuel' =>
      let acc' := digit_char (n mod base) :: acc in
      if n / base =? 0 then acc' else print_digits base fuel' (n / base) acc'
  end.
Definition print_fuel (n : Z) : nat := S (Z.to_nat (Z.log2 n)).
Definition to_dec (n : Z) : str := print_digits 10 (print_fuel n) n [].
Definition to_hex (n : Z) : str := print_digits 16 (print_fuel n) n [].

(** ** UTF-8 *)

Definition is_cont (c : ascii) : bool := in_range 128 191 c.
Definition cont (c : ascii) : Z := code c - 128.

(** [core::str::from_utf8] followed by [chars]: the scalar values, or [None]
    when the bytes are not well-formed UTF-8. *)
Fixpoint utf8_chars (s : bytes) : option (list Z) :=
  match s with
  | [] => Some []
  | b0 :: r0 =>
      if code b0 <? 128 then cons (code b0) <$> utf8_chars r0
      else match r0 with
      | b1 :: r1 =>
          if in_range 194 223 b0 && is_cont b1
          then cons ((code b0 - 192) * 64 + cont b1) <$> utf8_chars r1
          else match r1 with
          | b2 :: r2 =>
              if ((code b0 =? 224) && in_range 160 191 b1
                  || (in_range 225 236 b0 || in_range 238 239 b0) && is_cont b1
                  || (code b0 =? 237) && in_range 128 159 b1) && is_cont b2
              then cons ((code b0 - 224) * 4096 + cont b1 * 64 + cont b2) <$> utf8_chars r2
              else match r2 with
              | b3 :: r3 =>
                  if ((code b0 =? 240) && in_range 144 191 b1
                      || in_range 241 243 b0 && is_cont b1
                      || (code b0 =? 244) && in_range 128 143 b1) && is_cont b2 && is_cont b3
                  then cons ((code b0 - 240) * 262144 + cont b1 * 4096 + cont b2 * 64 + cont b3)
                         <$> utf8_chars r3
                  else None
              | [] => None
              end
          | [] => None
          end
      | [] => None
      end
  end.
Definition valid_utf8 (s : bytes) : bool := is_some (utf8_chars s).

(** [char::is_whitespace]: the Unicode [White_Space] property. *)
Definition is_whitespace (c : Z) : bool :=
  ((9 <=? c) && (c <=? 13)) || (c =? 32) || (c =? 133) || (c =? 160) || (c =? 5760)
  || ((8192 <=? c) && (c <=? 8202)) || (c =? 8232) || (c =? 8233) || (c =? 8239)
  || (c =? 8287) || (c =? 12288).

(** [char::is_control]: the Unicode general category [Cc]. *)
Definition is_control (c : Z) : bool := (c <=? 31) || ((127 <=? c) && (c <=? 159)).

Definition chars (s : str) : list Z := default [] (utf8_chars s).

(** [s.trim().is_empty()]. *)
Definition is_blank (s : str) : bool := forallb is_whitespace (chars s).

Arguments split c%_char_scope s.
Arguments split_once c%_char_scope s.
Arguments trim_end_matches c%_char_scope s.
Arguments contains_char c%_char_scope s.
Arguments trim_matches c%_char_scope s.
Arguments char_eqb (c d)%_char_scope.

(** ** Lemmas: prefixes and membership *)

Lemma char_eqb_true c d : char_eqb c d = true <-> c = d.
Proof. apply bool_decide_eq_true. Qed.

Lemma char_eqb_refl c : char_eqb c c = true.
Proof. by apply char_eqb_true. Qed.

Lemma char_eqb_false c d : char_eqb c d = false <-> c <> d.
Proof. apply bool_decide_eq_false. Qed.

Lemma str_eqb_true a b : str_eqb a b = true <-> a = b.
Proof. apply bool_decide_eq_true. Qed.

Lemma strip_prefix_Some p s r : strip_prefix p s = Some r <-> s = p ++ r.
Proof.
  revert s. induction p as [|a p IH]; intros s; simpl.
  - split; congruence.
  - destruct s as [|b s]; [done|].
    destruct (char_eqb a b) eqn:E.
    + apply char_eqb_true in E as ->. rewrite IH. split; congruence.
    + apply char_eqb_false in E. split; [done|]. congruence.
Qed.

Lemma strip_prefix_app p s : strip_prefix p (p ++ s) = Some s.
Proof. by apply strip_prefix_Some. Qed.

Lemma starts_with_true p s : starts_with p s = true <-> exists r, s = p ++ r.
Proof.
  unfold starts_with. destruct (strip_prefix p s) as [r|] eqn:E; simpl.
  - apply strip_prefix_Some in E. split; eauto.
  - split; [done|]. intros [r ->]. by rewrite strip_prefix_app in E.
Qed.

Lemma contains_char_true c s : contains_char c s = true <-> c ∈ s.
Proof.
  unfold contains_char. rewrite existsb_exists. setoid_rewrite char_eqb_true.
  rewrite list_elem_of_In. firstorder congruence.
Qed.

Lemma contains_char_false c s : contains_char c s = false <-> c ∉ s.
Proof. rewrite <- contains_char_true. by destruct (contains_char c s). Qed.

Lemma contains_any_false cs s : contains_any cs s = false <-> forall c, c ∈ cs -> c ∉ s.
Proof.
  unfold contains_any. rewrite existsb_false, Forall_forall. split.
  - intros H c Hc Hs. apply H in Hs. apply existsb_false in Hs.
    rewrite Forall_forall in Hs. specialize (Hs c Hc). by rewrite char_eqb_refl in Hs.
  - intros H c Hc. apply existsb_false, Forall_forall. intros d Hd.
    apply char_eqb_false. intros ->. by apply (H d).
Qed.

Lemma contains_str_true p s : contains_str p s = true <-> exists a b, s = a ++ p ++ b.
Proof.
  induction s as [|x s IH]; simpl; rewrite orb_true_iff, starts_with_true.
  - split.
    + intros [[r Hr]|?]; [|done]. exists [], r. done.
    + intros (a & b & H). left. exists b. destruct a; naive_solver.
  - rewrite IH. split.
    + intros [[r Hr]|(a & b & Hs)]; [by exists [], r|]. exists (x :: a), b. by rewrite Hs.
    + intros ([|y a] & b & H); simplify_eq/=; eauto.
Qed.

(** ** Lemmas: splitting *)

Lemma split_nonnil c s : split c s <> [].
Proof. destruct s as [|x s]; simpl; repeat case_match; done. Qed.

Lemma split_no_sep c s : Forall (fun p => c ∉ p) (split c s).
Proof.
  induction s as [|x s IH]; simpl.
  - repeat constructor. apply not_elem_of_nil.
  - destruct (char_eqb c x) eqn:E.
    + constructor; [apply not_elem_of_nil | done].
    + apply char_eqb_false in E. destruct (split c s) as [|h t].
      * repeat constructor. by intros ->%list_elem_of_singleton.
      * inversion_clear IH. constructor; [|done]. by rewrite not_elem_of_cons.
Qed.

Lemma split_app_sep c a b : c ∉ a -> split c (a ++ c :: b) = a :: split c b.
Proof.
  induction a as [|x a IH]; intros Ha; simpl.
  - by rewrite char_eqb_refl.
  - apply not_elem_of_cons in Ha as [Hx Ha].
    rewrite (proj2 (char_eqb_false c x)) by done. by rewrite IH.
Qed.

Lemma split_no c a : c ∉ a -> split c a = [a].
Proof.
  induction a as [|x a IH]; intros Ha; simpl; [done|].
  apply not_elem_of_cons in Ha as [Hx Ha].
  rewrite (proj2 (char_eqb_false c x)) by done. by rewrite IH.
Qed.

Lemma join_cons sep s l : l <> [] -> join sep (s :: l) = s ++ sep ++ join sep l.
Proof. by destruct l. Qed.

Lemma join_split c s : join [c] (split c s) = s.
Proof.
  induction s as [|x s IH]; simpl; [done|].
  destruct (char_eqb c x) eqn:E.
  - apply char_eqb_true in E as ->. rewrite join_cons by apply split_nonnil. simpl. by rewrite IH.
  - destruct (split c s) as [|h t] eqn:Es; [by apply split_nonnil in Es|].
    destruct t; simpl in *; by rewrite IH.
Qed.

Lemma split_join c l : l <> [] -> Forall (fun p => c ∉ p) l -> split c (join [c] l) = l.
Proof.
  intros Hl HF. induction HF as [|s l Hs HF IH]; [done|].
  destruct l as [|s' l].
  - simpl. by apply split_no.
  - rewrite join_cons by done. change ([c] ++ ?x) with (c :: x).
    rewrite split_app_sep by done. f_equal. by apply IH.
Qed.

Lemma split_app c a b : split c (a ++ c :: b) = split c a ++ split c b.
Proof.
  induction a as [|x a IH]; simpl; [by rewrite char_eqb_refl|].
  rewrite IH. destruct (char_eqb c x); [done|].
  destruct (split c a) eqn:E; [by apply split_nonnil in E | done].
Qed.

Lemma split_once_Some c s a b : split_once c s = Some (a, b) <-> s = a ++ c :: b /\ c ∉ a.
Proof.
  revert a. induction s as [|x s IH]; intros a; simpl.
  - split; [done|]. intros [H _]. by destruct a.
  - destruct (char_eqb c x) eqn:E.
    + apply char_eqb_true in E as ->. split.
      * intros [= <- <-]. split; [done | apply not_elem_of_nil].
      * intros [H Ha]. destruct a as [|y a]; simplify_eq/=; [done|].
        by apply not_elem_of_cons in Ha as [? _].
    + apply char_eqb_false in E. destruct (split_once c s) as [[a' b']|] eqn:Es.
      * split.
        -- intros [= <- <-]. destruct (proj1 (IH a')) as [-> Ha]; [done|].
           split; [done|]. by rewrite not_elem_of_cons.
        -- intros [H Ha]. destruct a as [|y a]; simplify_eq/=.
           apply not_elem_of_cons in Ha as [_ Ha].
           pose proof (proj2 (IH a) (conj eq_refl Ha)). naive_solver.
      * split; [done|]. intros [H Ha]. destruct a as [|y a]; simplify_eq/=.
        apply not_elem_of_cons in Ha as [_ Ha]. by discriminate (proj2 (IH a) (conj eq_refl Ha)).
Qed.

Lemma split_once_None c s : split_once c s = None <-> c ∉ s.
Proof.
  induction s as [|x s IH]; simpl.
  - split; [intros _; apply not_elem_of_nil | done].
  - rewrite not_elem_of_cons, <- IH. destruct (char_eqb c x) eqn:E.
    + apply char_eqb_true in E as ->. naive_solver.
    + apply char_eqb_false in E. destruct (split_once c s) as [[]|]; naive_solver.
Qed.

(** ** Lemmas: the non-empty pieces of a path *)

Definition pieces (c : ascii) (s : str) : list str := List.filter nonempty (split c s).
Arguments pieces c%_char_scope s.

Lemma pieces_cons_sep c s : pieces c (c :: s) = pieces c s.
Proof. unfold pieces. simpl. by rewrite char_eqb_refl. Qed.

Lemma pieces_app c a b : pieces c (a ++ c :: b) = pieces c a ++ pieces c b.
Proof. unfold pieces. by rewrite split_app, List.filter_app. Qed.

Lemma pieces_snoc_sep c s : pieces c (s ++ [c]) = pieces c s.
Proof. rewrite pieces_app. apply app_nil_r. Qed.

Lemma pieces_no c s : c ∉ s -> pieces c s = if nonempty s then [s] else [].
Proof. intros H. unfold pieces. rewrite split_no by done. simpl. by destruct (nonempty s). Qed.

Lemma pieces_drop_while c s : pieces c (drop_while (char_eqb c) s) = pieces c s.
Proof.
  induction s as [|x s IH]; simpl; [done|].
  destruct (char_eqb c x) eqn:E; [|done].
  apply char_eqb_true in E as ->. by rewrite pieces_cons_sep.
Qed.

Lemma pieces_drop_while_end c s : pieces c (rev (drop_while (char_eqb c) (rev s))) = pieces c s.
Proof.
  induction s as [|x s IH] using rev_ind; simpl; [done|].
  rewrite rev_app_distr. simpl. destruct (char_eqb c x) eqn:E.
  - apply char_eqb_true in E as ->. by rewrite pieces_snoc_sep.
  - simpl. by rewrite rev_involutive.
Qed.

Lemma pieces_trim c s : pieces c (trim_matches c s) = pieces c s.
Proof. unfold trim_matches, trim_by. by rewrite pieces_drop_while_end, pieces_drop_while. Qed.

Lemma pieces_wf c s : Forall (fun p => nonempty p = true /\ c ∉ p) (pieces c s).
Proof.
  unfold pieces. rewrite Forall_forall. intros p Hp.
  apply list_elem_of_In, List.filter_In in Hp as [Hp Hn].
  split; [done|]. pose proof (split_no_sep c s) as H. rewrite Forall_forall in H.
  by apply H, list_elem_of_In.
Qed.

Lemma filter_nonempty_id l : Forall (fun p => nonempty p = true) l -> List.filter nonempty l = l.
Proof. induction 1 as [|p l Hp _ IH]; simpl; [done|]. by rewrite Hp, IH. Qed.

Lemma pieces_join c l :
  Forall (fun p => nonempty p = true /\ c ∉ p) l -> pieces c (join [c] l) = l.
Proof.
  intros H. destruct l as [|p l]; [done|].
  unfold pieces. rewrite split_join; [| done | by eapply Forall_impl; [exact H | intros ? []]].
  apply filter_nonempty_id. by eapply Forall_impl; [exact H | intros ? []].
Qed.

(** ** Lemmas: decimal numbers *)

Lemma digit_char_code d : 0 <= d < 10 -> code (digit_char d) = 48 + d.
Proof.
  intros H. unfold digit_char. rewrite (proj2 (Z.ltb_lt d 10)) by lia. by apply code_byte_of; lia.
Qed.

Lemma digit_value_char d : 0 <= d < 10 -> digit_value (digit_char d) = Some d.
Proof.
  intros H. unfold digit_value, is_ascii_digit, in_range. rewrite digit_char_code by done.
  rewrite (proj2 (Z.leb_le _ _)), (proj2 (Z.leb_le _ _)) by lia. simpl. f_equal. lia.
Qed.

Lemma is_digit_char d : 0 <= d < 10 -> is_ascii_digit (digit_char d) = true.
Proof.
  intros H%digit_value_char. unfold digit_value in H. by destruct (is_ascii_digit _).
Qed.

Lemma print_digits_value fuel n acc :
  0 <= n < 2 ^ Z.of_nat fuel -> (0 < fuel)%nat ->
  exists k, 0 <= k /\ forall a,
    digits_value a (print_digits 10 fuel n acc) = digits_value (a * 10 ^ k + n) acc.
Proof.
  revert n acc. induction fuel as [|fuel IH]; intros n acc Hn Hf; [lia|].
  cbn [print_digits]. rewrite Nat2Z.inj_succ, Z.pow_succ_r in Hn by lia.
  assert (Hm : 0 <= n mod 10 < 10) by (apply Z.mod_pos_bound; lia).
  assert (Hd : 0 <= n / 10 < 2 ^ Z.of_nat fuel).
  { split; [apply Z.div_pos; lia|]. apply Z.div_lt_upper_bound; [lia|].
    destruct (Z.eq_dec n 0); nia. }
  assert (Hn10 : n = 10 * (n / 10) + n mod 10) by (apply Z.div_mod; lia).
  destruct (n / 10 =? 0) eqn:E.
  - apply Z.eqb_eq in E. exists 1. split; [lia|]. intros a. cbn [digits_value].
    rewrite digit_value_char by done. f_equal. lia.
  - apply Z.eqb_neq in E.
    assert (0 < fuel)%nat.
    { destruct fuel; [|lia]. change (2 ^ Z.of_nat 0) with 1 in Hd. lia. }
    destruct (IH (n / 10) (digit_char (n mod 10) :: acc)) as (k & Hk & Ha); [done..|].
    exists (k + 1). split; [lia|]. intros a. rewrite Ha. cbn [digits_value].
    rewrite digit_value_char by done. f_equal. rewrite Z.pow_add_r by lia. lia.
Qed.

Lemma print_fuel_enough n : 0 <= n -> n < 2 ^ Z.of_nat (print_fuel n).
Proof.
  intros Hn. unfold print_fuel. rewrite Nat2Z.inj_succ, Z2Nat.id by apply Z.log2_nonneg.
  destruct (Z.eq_dec n 0) as [->|]; [done|]. apply Z.log2_spec. lia.
Qed.

Lemma digits_value_to_dec n : 0 <= n -> digits_value 0 (to_dec n) = Some n.
Proof.
  intros Hn. unfold to_dec.
  destruct (print_digits_value (print_fuel n) n []) as (k & _ & Ha).
  { split; [done | by apply print_fuel_enough]. }
  { unfold print_fuel. lia. }
  rewrite Ha. simpl. f_equal.
Qed.

Lemma print_digits_all base (P : ascii -> Prop) fuel n acc :
  1 < base -> 0 <= n -> (forall d, 0 <= d < base -> P (digit_char d)) ->
  Forall P acc -> Forall P (print_digits base fuel n acc).
Proof.
  intros Hb Hn HP. revert n acc Hn. induction fuel as [|fuel IH]; intros n acc Hn Hacc; [done|].
  cbn [print_digits]. assert (0 <= n mod base < base) by (apply Z.mod_pos_bound; lia).
  destruct (n / base =? 0); [by constructor; auto|].
  apply IH; [apply Z.div_pos; lia | by constructor; auto].
Qed.

Lemma to_dec_digits n : 0 <= n -> Forall (fun c => is_ascii_digit c = true) (to_dec n).
Proof.
  intros Hn. apply print_digits_all; [lia | done | | done]. apply is_digit_char.
Qed.

Lemma print_digits_nonnil base fuel n acc : acc <> [] -> print_digits base fuel n acc <> [].
Proof.
  revert n acc. induction fuel as [|fuel IH]; intros n acc H; [done|].
  cbn [print_digits]. destruct (n / base =? 0); [done | by apply IH].
Qed.

Lemma to_dec_nonnil n : to_dec n <> [].
Proof.
  unfold to_dec, print_fuel. cbn [print_digits].
  destruct (n / 10 =? 0); [done | by apply print_digits_nonnil].
Qed.

(** ** Lemmas: numbers in any base *)

Definition digit_of (c : ascii) : Z := if code c <? 58 then code c - 48 else code c - 87.
Definition radix_value (base acc : Z) (s : str) : Z :=
  fold_left (fun a c => a * base + digit_of c) s acc.

Lemma digit_of_char d : 0 <= d < 36 -> digit_of (digit_char d) = d.
Proof.
  intros Hd. unfold digit_of, digit_char. destruct (d <? 10) eqn:E; rewrite code_byte_of by lia.
  - rewrite (proj2 (Z.ltb_lt _ _)); lia.
  - rewrite (proj2 (Z.ltb_ge _ _)); lia.
Qed.

Lemma radix_print base fuel n acc :
  2 <= base <= 36 -> 0 <= n < 2 ^ Z.of_nat fuel -> (0 < fuel)%nat ->
  exists k, forall a,
    radix_value base a (print_digits base fuel n acc) = radix_value base (a * k + n) acc.
Proof.
  intros Hb. revert n acc. induction fuel as [|fuel IH]; intros n acc Hn Hf; [lia|].
  cbn [print_digits]. rewrite Nat2Z.inj_succ, Z.pow_succ_r in Hn by lia.
  assert (Hm : 0 <= n mod base < base) by (apply Z.mod_pos_bound; lia).
  assert (Hnb : n = base * (n / base) + n mod base) by (apply Z.div_mod; lia).
  assert (Hd : 0 <= n / base < 2 ^ Z.of_nat fuel).
  { split; [apply Z.div_pos; lia|]. apply Z.div_lt_upper_bound; [lia|].
    destruct (Z.eq_dec n 0); nia. }
  destruct (n / base =? 0) eqn:E.
  - apply Z.eqb_eq in E. exists base. intros a. unfold radix_value. cbn [fold_left].
    rewrite digit_of_char by lia. f_equal. nia.
  - apply Z.eqb_neq in E.
    assert (0 < fuel)%nat.
    { destruct fuel; [|lia]. change (2 ^ Z.of_nat 0) with 1 in Hd. lia. }
    destruct (IH (n / base) (digit_char (n mod base) :: acc)) as (k & Ha); [done..|].
    exists (k * base). intros a. rewrite Ha. unfold radix_value. cbn [fold_left].
    rewrite digit_of_char by lia. f_equal. nia.
Qed.

Lemma to_hex_inj n m : 0 <= n -> 0 <= m -> to_hex n = to_hex m -> n = m.
Proof.
  intros Hn Hm HE.
  assert (HR : forall x, 0 <= x -> radix_value 16 0 (to_hex x) = x).
  { intros x Hx. destruct (radix_print 16 (print_fuel x) x []) as (k & Ha);
      [lia | split; [done | by apply print_fuel_enough] | unfold print_fuel; lia |].
    unfold to_hex. rewrite Ha. unfold radix_value. simpl. lia. }
  rewrite <- (HR n Hn), <- (HR m Hm). by rewrite HE.
Qed.

Lemma to_hex_digits n : 0 <= n -> Forall (fun c => is_ascii_hexdigit c = true) (to_hex n).
Proof.
  intros Hn. apply print_digits_all; [lia | done | | done]. intros d Hd.
  unfold is_ascii_hexdigit, digit_char, is_ascii_digit, in_range.
  destruct (d <? 10) eqn:E; rewrite code_byte_of by lia; lia.
Qed.

Lemma parse_unsigned_digits bound s :
  s <> [] -> Forall (fun c => is_ascii_digit c = true) s ->
  parse_unsigned bound s =
    match digits_value 0 s with
    | Some v => if v <=? bound then Some v else None
    | None => None
    end.
Proof.
  intros Hs Hd. unfold parse_unsigned. destruct s as [|c s]; [done|].
  inversion_clear Hd as [|? ? Hc _].
  assert (strip_prefix ##"+" (c :: s) = None) as ->; [|done].
  unfold lit. cbn. destruct (char_eqb "+" c) eqn:E; [|done].
  apply char_eqb_true in E as <-. discriminate Hc.
Qed.

(** Printing in decimal and parsing back. *)
Lemma parse_to_dec bound n : 0 <= n <= bound -> parse_unsigned bound (to_dec n) = Some n.
Proof.
  intros Hn. rewrite parse_unsigned_digits; [| apply to_dec_nonnil | apply to_dec_digits; lia].
  rewrite digits_value_to_dec by lia. by rewrite (proj2 (Z.leb_le n bound)) by lia.
Qed.

Lemma to_dec_inj n m : 0 <= n -> 0 <= m -> to_dec n = to_dec m -> n = m.
Proof.
  intros Hn Hm H. apply (f_equal (digits_value 0)) in H.
  rewrite !digits_value_to_dec in H by done. congruence.
Qed.

Lemma print_digits_length fuel n acc k :
  0 <= n < 10 ^ Z.of_nat (S k) ->
  (List.length (print_digits 10 fuel n acc) <= S k + List.length acc)%nat.
Proof.
  revert n acc k. induction fuel as [|fuel IH]; intros n acc k Hn; cbn [print_digits]; [lia|].
  destruct (Z.eqb_spec (n / 10) 0) as [|Hq]; [simpl; lia|].
  assert (0 <= n / 10 < 10 ^ Z.of_nat k).
  { rewrite Nat2Z.inj_succ, Z.pow_succ_r in Hn by lia.
    split; [apply Z.div_pos; lia | apply Z.div_lt_upper_bound; lia]. }
  destruct k as [|k]; [change (10 ^ Z.of_nat 0) with 1 in *; lia|].
  specialize (IH (n / 10) (digit_char (n mod 10) :: acc) k ltac:(done)). simpl in IH. lia.
Qed.

Lemma to_dec_length n k : 0 <= n < 10 ^ Z.of_nat (S k) -> (List.length (to_dec n) <= S k)%nat.
Proof.
  intros Hn. pose proof (print_digits_length (print_fuel n) n [] k Hn) as HL. unfold to_dec.
  rewrite Nat.add_0_r in HL. exact HL.
Qed.

Lemma dec_no_colon n : 0 <= n -> ":"%char ∉ to_dec n.
Proof.
  intros Hn Hin. pose proof (to_dec_digits n Hn) as HF. rewrite Forall_forall in HF.
  by apply HF in Hin.
Qed.

(** A length prefix makes concatenation injective. *)
Lemma length_delimited_inj (a b x y : str) :
  to_dec (Z.of_nat (List.length a)) ++ ":"%char :: a ++ x =
  to_dec (Z.of_nat (List.length b)) ++ ":"%char :: b ++ y -> a = b /\ x = y.
Proof.
  intros HE.
  assert (HS : split_once ":" (to_dec (Z.of_nat (List.length a)) ++ ":"%char :: a ++ x) =
               split_once ":" (to_dec (Z.of_nat (List.length b)) ++ ":"%char :: b ++ y)) by congruence.
  rewrite (proj2 (split_once_Some ":" _ (to_dec (Z.of_nat (List.length a))) (a ++ x))) in HS
    by (split; [done | apply dec_no_colon; lia]).
  rewrite (proj2 (split_once_Some ":" _ (to_dec (Z.of_nat (List.length b))) (b ++ y))) in HS
    by (split; [done | apply dec_no_colon; lia]).
  injection HS as HL HA. apply to_dec_inj in HL; [|lia..].
  apply app_inj_1 in HA; [done | lia].
Qed.

Lemma digits_value_nonneg acc s v : 0 <= acc -> digits_value acc s = Some v -> 0 <= v.
Proof.
  revert acc. induction s as [|c s IH]; intros acc Ha; simpl; [congruence|].
  destruct (digit_value c) as [d|] eqn:E; [|done].
  apply IH. unfold digit_value, is_ascii_digit, in_range in E. repeat case_match; simp. lia.
Qed.

Lemma parse_unsigned_bound bound s v : parse_unsigned bound s = Some v -> 0 <= v <= bound.
Proof.
  unfold parse_unsigned. intros H.
  destruct (match strip_prefix _ s with Some d => d | None => s end) as [|c d]; [done|].
  destruct (digits_value 0 (c :: d)) as [v'|] eqn:E; [|done].
  destruct (v' <=? bound) eqn:Hb; simp. split; [|lia].
  by apply (digits_value_nonneg 0 (c :: d)).
Qed.

(** ** Lemmas: trimming and letter case *)

Lemma drop_while_all f s : Forall (fun c => f c = true) s -> drop_while f s = [].
Proof. induction 1 as [|c s Hc _ IH]; simpl; [done|]. by rewrite Hc. Qed.

Lemma drop_while_suffix f s : exists p, s = p ++ drop_while f s /\ Forall (fun c => f c = true) p.
Proof.
  induction s as [|c s (p & Hs & Hp)]; simpl; [by exists []|].
  destruct (f c) eqn:E.
  - exists (c :: p). split; [by rewrite Hs at 1 | by constructor].
  - by exists [].
Qed.

Lemma drop_while_id f s : match s with [] => True | c :: _ => f c = false end -> drop_while f s = s.
Proof. destruct s as [|c s]; simpl; [done|]. by intros ->. Qed.

(** A text with no blank at its ends is its own trimming. *)
Lemma trim_id s : Forall (fun c => is_ascii_ws c = false) s -> trim s = s.
Proof.
  intros H. unfold trim, trim_by.
  rewrite (drop_while_id _ s) by (destruct H; done).
  rewrite drop_while_id, rev_involutive; [done|].
  apply List.Forall_rev in H. destruct (rev s) as [|c r]; [done|]. by inversion H.
Qed.

Lemma eq_ignore_ascii_case_refl a : eq_ignore_ascii_case a a = true.
Proof. by apply bool_decide_eq_true. Qed.

(** ** Lemmas: paths without repeated separators *)

Section paths.
Local Open Scope char_scope.

Definition double_slash : str := ["/"; "/"].

Lemma double_slash_cons c s :
  contains_str double_slash (c :: s) =
    (char_eqb "/" c && starts_with ["/"] s) || contains_str double_slash s.
Proof. simpl. unfold starts_with. simpl. by destruct (char_eqb "/" c). Qed.

Lemma double_slash_app a s :
  "/" ∉ a -> contains_str double_slash (a ++ s) = contains_str double_slash s.
Proof.
  induction a as [|x a IH]; intros Ha; [done|].
  apply not_elem_of_cons in Ha as [Hx Ha].
  simpl app. rewrite double_slash_cons, IH by done.
  by rewrite (proj2 (char_eqb_false "/" x)) by done.
Qed.

(** The pieces a path may be made of. *)
Definition good_piece (p : str) : Prop := nonempty p = true /\ "/" ∉ p.

Lemma good_piece_head p s : good_piece p -> starts_with ["/"] (p ++ s) = false.
Proof.
  intros [Hn Hs]. destruct p as [|x p]; [done|]. apply not_elem_of_cons in Hs as [Hx _].
  simpl. unfold starts_with. simpl. by rewrite (proj2 (char_eqb_false "/" x)) by done.
Qed.

Lemma join_no_double_slash l s :
  Forall good_piece l ->
  contains_str double_slash ("/" :: s) = false -> l <> [] ->
  contains_str double_slash ("/" :: join ["/"] l ++ "/" :: s) = false.
Proof.
  intros Hl Hs. induction Hl as [|p l Hp Hl IH]; [done|]. intros _.
  destruct l as [|q l].
  - rewrite double_slash_cons. simpl join. rewrite good_piece_head by done.
    rewrite andb_false_r. simpl. by rewrite double_slash_app by apply Hp.
  - rewrite join_cons by done. rewrite <- app_assoc, double_slash_cons.
    rewrite good_piece_head, andb_false_r by done. simpl orb.
    rewrite double_slash_app by apply Hp. by apply IH.
Qed.

Lemma join_no_double_slash' l :
  Forall good_piece l -> contains_str double_slash ("/" :: join ["/"] l) = false.
Proof.
  intros Hl. destruct (rev l) as [|p r] eqn:E.
  { apply (f_equal (@rev _)) in E. rewrite rev_involutive in E. by subst. }
  assert (l = rev r ++ [p]) as ->.
  { by rewrite <- (rev_involutive l), E. }
  clear E. induction (rev r) as [|q r' IH]; simpl app in *.
  - inversion_clear Hl as [|? ? Hp]. rewrite double_slash_cons. simpl join.
    rewrite <- (app_nil_r p). rewrite good_piece_head, andb_false_r by done.
    simpl. by rewrite double_slash_app by apply Hp.
  - inversion_clear Hl as [|? ? Hq Hr]. rewrite join_cons by (by destruct r').
    rewrite double_slash_cons, good_piece_head, andb_false_r by done. simpl orb.
    rewrite double_slash_app by apply Hq. by apply IH.
Qed.

Lemma pieces_good s : Forall good_piece (pieces "/" s).
Proof. apply pieces_wf. Qed.

(** A path with a leading and no repeated separator is its pieces joined,
    with at most one trailing separator. *)
Lemma path_shape s :
  contains_str double_slash ("/" :: s) = false ->
  s = join ["/"] (pieces "/" s) \/
  pieces "/" s <> [] /\ s = join ["/"] (pieces "/" s) ++ ["/"].
Proof.
  remember (length s) as n eqn:Hn. revert s Hn.
  induction n as [n IH] using lt_wf_ind; intros s -> Hs.
  destruct (split_once "/" s) as [[a b]|] eqn:E.
  - apply split_once_Some in E as [-> Ha].
    rewrite double_slash_cons in Hs. apply orb_false_iff in Hs as [Hh Hs].
    destruct a as [|x a]; [done|].
    assert (Hb : contains_str double_slash ("/" :: b) = false).
    { etrans; [symmetry; by apply (double_slash_app (x :: a)) | exact Hs]. }
    rewrite pieces_app, (pieces_no _ (x :: a)) by done. simpl (nonempty _).
    assert (Hlt : (length b < length ((x :: a) ++ "/" :: b))%nat)
      by (rewrite length_app; simpl; lia).
    destruct (IH _ Hlt b eq_refl Hb) as [Hb'|[Hne Hb']].
    + destruct (pieces "/" b) as [|q l] eqn:Eb.
      * right. split; [done|]. simpl. by rewrite Hb'.
      * left. rewrite <- Eb in *. change ([?u] ++ ?v) with (u :: v).
        rewrite join_cons by (by rewrite Eb). by rewrite <- Hb'.
    + right. split; [done|]. change ([?u] ++ ?v) with (u :: v).
      rewrite join_cons by done. rewrite <- !app_assoc. by rewrite <- Hb'.
  - apply split_once_None in E. left. rewrite pieces_no by done. by destruct s.
Qed.
End paths.

(** ** Lemmas: text *)

Lemma utf8_chars_nonempty s l : utf8_chars s = Some l -> s <> [] -> l <> [].
Proof.
  destruct s as [|b0 r0]; [done|]. cbn [utf8_chars]. intros HU _ ->.
  repeat case_match; try done;
    match goal with H : _ <$> _ = Some [] |- _ => apply fmap_Some in H as (? & _ & ?); done end.
Qed.

Lemma utf8_chars_ascii s :
  Forall (fun c => is_ascii c = true) s -> utf8_chars s = Some (map code s).
Proof.
  induction 1 as [|c s Hc _ IH]; [done|]. cbn [utf8_chars map]. unfold is_ascii in Hc.
  rewrite Hc, IH. done.
Qed.

Lemma nonblank_text s :
  valid_utf8 s = true -> nonempty s = true -> existsb is_whitespace (chars s) = false ->
  is_blank s = false.
Proof.
  unfold valid_utf8, is_blank, chars. destruct (utf8_chars s) as [l|] eqn:HU; [|done].
  intros _ HN HW. destruct l as [|c l].
  - by destruct (utf8_chars_nonempty s [] HU); [destruct s|].
  - cbn [from_option Datatypes.id existsb forallb] in *. apply orb_false_iff in HW as [-> _]. done.
Qed.

Lemma to_dec_text n :
  0 <= n -> valid_utf8 (to_dec n) = true /\ is_blank (to_dec n) = false.
Proof.
  intros Hn. pose proof (to_dec_digits n Hn) as HF.
  assert (HA : Forall (fun c => is_ascii c = true /\ is_whitespace (code c) = false) (to_dec n)).
  { apply (Forall_impl _ _ _ HF). intros c Hc.
    destruct c as [[] [] [] [] [] [] [] []]; vm_compute in Hc |- *; done. }
  assert (HU := utf8_chars_ascii _ (Forall_impl _ _ _ HA (fun _ H => proj1 H))).
  assert (HV : valid_utf8 (to_dec n) = true) by (unfold valid_utf8; by rewrite HU).
  split; [done|]. apply nonblank_text; [done | | ].
  - pose proof (to_dec_nonnil n). by destruct (to_dec n).
  - unfold chars. rewrite HU. cbn [from_option Datatypes.id]. apply existsb_false, Forall_map.
    apply (Forall_impl _ _ _ HA). by intros c [_ ?].
Qed.
