(* ===== verification/BTree.v ===== *)
(** Ordered sets of strings, [BTreeSet<String>]: strictly ascending lists. *)

From Stdlib Require Import ZArith Lia Bool Ascii Sorted.
From stdpp Require Import gmap sorting.
From S2P Require Import Prelude Strings.

(** ** Order and insertion *)

Fixpoint str_ltb (a b : str) : bool :=
  match a, b with
  | [], [] => false
  | [], _ :: _ => true
  | _ :: _, [] => false
  | x :: a', y :: b' =>
      (code x <? code y)%Z || ((code x =? code y)%Z && str_ltb a' b')
  end.

Fixpoint btree_insert (x : str) (l : list str) : list str :=
  match l with
  | [] => [x]
  | y :: l' =>
      if str_ltb x y then x :: l
      else if str_eqb x y then l
      else y :: btree_insert x l'
  end.

(** The elements of a set in ascending order. *)
Definition btree_elements (s : gset str) : list str := foldr btree_insert [] (elements s).

(** ** Lemmas *)

Lemma str_ltb_irrefl a : str_ltb a a = false.
Proof. induction a as [|x a IH]; simpl; [done|]. by rewrite Z.ltb_irrefl, IH, andb_false_r. Qed.

Lemma str_ltb_trans a b c : str_ltb a b = true -> str_ltb b c = true -> str_ltb a c = true.
Proof.
  revert b c. induction a as [|x a IH]; intros [|y b] [|z c]; simpl; try done.
  rewrite !orb_true_iff, !andb_true_iff, !Z.ltb_lt, !Z.eqb_eq.
  intros [?|[? ?]] [?|[? ?]]; try (left; lia). right. split; [lia | by eapply IH].
Qed.

Lemma str_ltb_total a b : str_ltb a b = false -> a <> b -> str_ltb b a = true.
Proof.
  revert b. induction a as [|x a IH]; intros [|y b]; simpl; try done.
  rewrite orb_false_iff, orb_true_iff, andb_true_iff, Z.ltb_lt, Z.eqb_eq.
  intros [H1 H2] Hne. apply Z.ltb_ge in H1.
  destruct (Z.eq_dec (code x) (code y)) as [E|]; [|left; lia].
  apply code_inj in E as ->. rewrite Z.eqb_refl in H2. simpl in H2.
  right. split; [done|]. apply IH; [done | congruence].
Qed.

Lemma btree_insert_elem x y l : y ∈ btree_insert x l <-> y = x \/ y ∈ l.
Proof.
  induction l as [|z l IH]; simpl; [set_solver|].
  destruct (str_ltb x z); [set_solver|].
  destruct (str_eqb x z) eqn:E; [apply str_eqb_true in E as ->; set_solver|].
  rewrite !elem_of_cons, IH. tauto.
Qed.

Definition sorted_set (l : list str) : Prop := StronglySorted (fun a b => str_ltb a b = true) l.

Lemma btree_insert_sorted x l : sorted_set l -> sorted_set (btree_insert x l).
Proof.
  unfold sorted_set. induction 1 as [|z l Hl IH HF]; simpl; [by repeat constructor|].
  destruct (str_ltb x z) eqn:E.
  - constructor; [by constructor|]. constructor; [done|].
    eapply Forall_impl; [exact HF|]. intros y Hy. by eapply str_ltb_trans.
  - destruct (str_eqb x z) eqn:E2; [by constructor|].
    constructor; [done|]. rewrite Forall_forall in HF |- *.
    intros y [->|Hy]%btree_insert_elem; [|by apply HF].
    apply str_ltb_total; [done|]. by apply bool_decide_eq_false in E2.
Qed.

Lemma sorted_set_ext l k : sorted_set l -> sorted_set k -> (forall x, x ∈ l <-> x ∈ k) -> l = k.
Proof.
  intros Hl Hk Hext.
  assert (HN : forall l, sorted_set l -> NoDup l).
  { clear. induction 1 as [|z l Hl IH HF]; [constructor|]. constructor; [|done].
    intros Hz. rewrite Forall_forall in HF. specialize (HF _ Hz). by rewrite str_ltb_irrefl in HF. }
  apply (StronglySorted_unique_strong (fun a b => str_ltb a b = true)); [|done..|].
  - intros a b _ _ Hab Hba. pose proof (str_ltb_trans _ _ _ Hab Hba) as HC.
    by rewrite str_ltb_irrefl in HC.
  - apply NoDup_Permutation; auto.
Qed.

Lemma btree_elements_spec s : sorted_set (btree_elements s) /\ forall x, x ∈ btree_elements s <-> x ∈ s.
Proof.
  unfold btree_elements. assert (HF : forall l, sorted_set (foldr btree_insert [] l) /\
    forall x, x ∈ foldr btree_insert [] l <-> x ∈ l).
  { induction l as [|y l [IH1 IH2]]; cbn; [split; [constructor | done]|]. split; [by apply btree_insert_sorted|].
    intros x. by rewrite btree_insert_elem, IH2, elem_of_cons. }
  destruct (HF (elements s)) as [H1 H2]. split; [done|]. intros x. by rewrite H2, elem_of_elements.
Qed.
