(* ===== verification/Uuid.v ===== *)
(** The [uuid] crate, as the interface the modelled crates use.

    A UUID is its 128-bit number. [UuidApi] has the operations and [UuidLaws]
    what is documented of them; [UuidModel] instantiates both with the hyphenated
    hexadecimal form. *)

From Stdlib Require Import ZArith Lia Bool Ascii.
From S2P Require Import Prelude Strings.

Local Open Scope Z_scope.

Definition Uuid : Type := Z.
Definition is_uuid (u : Uuid) : Prop := 0 <= u < 2 ^ 128.

Class UuidApi : Type := {
  (** [Display]. *)
  uuid_to_string : Uuid -> str;
  uuid_parse_str : str -> option Uuid;
  (** [get_variant() == Variant::RFC4122 && get_version_num() == 4]. *)
  uuid_is_v4 : Uuid -> bool
}.

Class UuidLaws `{UuidApi} : Prop := {
  (** The hyphenated form has 36 hexadecimal digits and hyphens. *)
  uuid_length u : List.length (uuid_to_string u) = 36%nat;
  uuid_characters u :
    Forall (fun c => is_ascii_hexdigit c || char_eqb c "-" = true) (uuid_to_string u);
  uuid_parse_print u : is_uuid u -> uuid_parse_str (uuid_to_string u) = Some u
}.

(** ** A model *)

Module UuidModel.
Fixpoint hex_digits (n : nat) (u : Z) : str :=
  match n with
  | O => []
  | S n' => hex_digits n' (u / 16) ++ [digit_char (u mod 16)]
  end.
Definition hyphenate (d : str) : str :=
  take 8 d ++ ##"-" ++ take 4 (drop 8 d) ++ ##"-" ++ take 4 (drop 12 d) ++ ##"-"
  ++ take 4 (drop 16 d) ++ ##"-" ++ drop 20 d.

#[export] Instance uuids : UuidApi := {|
  uuid_to_string u := hyphenate (hex_digits 32 u);
  uuid_parse_str s :=
    let d := List.filter (fun c => negb (char_eqb c "-")) s in
    if (List.length d =? 32)%nat && forallb is_ascii_hexdigit d && str_eqb (hyphenate d) s
    then Some (radix_value 16 0 d) else None;
  uuid_is_v4 u := ((u / 2 ^ 76) mod 16 =? 4) && ((u / 2 ^ 62) mod 4 =? 2)
|}.

Lemma hex_digits_length n u : List.length (hex_digits n u) = n.
Proof.
  revert u. induction n as [|n IH]; intros u; [done|]. cbn [hex_digits].
  rewrite length_app, IH. simpl. lia.
Qed.

Lemma hexdigit_of_digit d : 0 <= d < 16 -> is_ascii_hexdigit (digit_char d) = true.
Proof.
  intros Hd. unfold is_ascii_hexdigit, digit_char, is_ascii_digit, in_range.
  destruct (d <? 10) eqn:E; rewrite code_byte_of by lia; lia.
Qed.

Lemma hex_digits_hex n u : Forall (fun c => is_ascii_hexdigit c = true) (hex_digits n u).
Proof.
  revert u. induction n as [|n IH]; intros u; [done|]. cbn [hex_digits].
  apply Forall_app. split; [apply IH|]. constructor; [|done].
  apply hexdigit_of_digit, Z.mod_pos_bound. lia.
Qed.

Lemma hex_digits_value n u :
  0 <= u < 16 ^ Z.of_nat n -> radix_value 16 0 (hex_digits n u) = u.
Proof.
  revert u. induction n as [|n IH]; intros u Hu.
  { change (16 ^ Z.of_nat 0) with 1 in Hu. change (0 = u). lia. }
  rewrite Nat2Z.inj_succ, Z.pow_succ_r in Hu by lia. cbn [hex_digits].
  unfold radix_value. rewrite fold_left_app. cbn [fold_left]. fold (radix_value 16 0 (hex_digits n (u / 16))).
  assert (Hm : 0 <= u mod 16 < 16) by (apply Z.mod_pos_bound; lia).
  rewrite IH, digit_of_char by (split; [apply Z.div_pos; lia | apply Z.div_lt_upper_bound; lia] || lia).
  pose proof (Z.div_mod u 16). lia.
Qed.

Lemma filter_hex s :
  Forall (fun c => is_ascii_hexdigit c = true) s ->
  List.filter (fun c => negb (char_eqb c "-")) s = s.
Proof.
  induction 1 as [|c s Hc _ IH]; [done|]. cbn [List.filter].
  assert (char_eqb c "-" = false) as ->; [|simpl; by rewrite IH].
  destruct (char_eqb c "-") eqn:E; [|done]. apply char_eqb_true in E as ->. done.
Qed.

Lemma hyphenate_digits d :
  Forall (fun c => is_ascii_hexdigit c = true) d ->
  List.filter (fun c => negb (char_eqb c "-")) (hyphenate d) = d.
Proof.
  intros HF. unfold hyphenate. rewrite !List.filter_app.
  change (List.filter _ ##"-") with (@nil ascii). cbn [app].
  rewrite !filter_hex by auto using Forall_take, Forall_drop.
  assert (HD : forall n k : nat, drop (n + k)%nat d = drop k (drop n d)) by (intros; by rewrite drop_drop).
  rewrite (HD 16 4 : drop 20 d = _)%nat, take_drop, (HD 12 4 : drop 16 d = _)%nat, take_drop,
    (HD 8 4 : drop 12 d = _)%nat, take_drop. apply take_drop.
Qed.

#[export] Instance laws : UuidLaws.
Proof.
  split.
  - intros u. cbn [uuid_to_string uuids]. unfold hyphenate.
    rewrite !length_app, !length_take, !length_drop, hex_digits_length. done.
  - intros u. cbn [uuid_to_string uuids]. unfold hyphenate.
    assert (HF : Forall (fun c => is_ascii_hexdigit c || char_eqb c "-" = true) (hex_digits 32 u)).
    { eapply Forall_impl; [apply hex_digits_hex|]. intros c Hc. cbn beta in Hc. by rewrite Hc. }
    repeat (apply Forall_app; split); auto using Forall_take, Forall_drop; by repeat constructor.
  - intros u Hu. cbn [uuid_to_string uuid_parse_str uuids]. cbv zeta.
    rewrite hyphenate_digits by apply hex_digits_hex. rewrite hex_digits_length.
    rewrite (proj2 (forallb_Forall _ _) (hex_digits_hex 32 u)), (proj2 (str_eqb_true _ _) eq_refl). cbn [Nat.eqb andb].
    f_equal. apply hex_digits_value. unfold is_uuid in Hu. change (16 ^ Z.of_nat 32) with (2 ^ 128). lia.
Qed.
End UuidModel.
