(* ===== verification/Http.v ===== *)
(** The interface of the [http], [serde_json] and [std::net] types that every
    component is written against.

    The [http] crate is not part of the repository, so its header maps, header
    values and URIs are operations of the class [HttpApi], and the documented
    behaviour the framework relies on is the class [HttpLaws]. [HttpModel]
    instantiates both. JSON encoding of one type is the class [Serialize]. *)

From Stdlib Require Import ZArith Lia Bool Ascii.
From S2P Require Import Prelude Strings.

Local Open Scope Z_scope.

(** The bytes [HeaderValue::to_str] and [HeaderValue::from_str] admit. *)
Definition visible (c : ascii) : bool := in_range 32 126 c || (code c =? 9).

(** ** Header names

    [HeaderName] constants, in their canonical lower case. *)

Definition ACCEPT_ENCODING : str := ##"accept-encoding".
Definition ACCEPT_RANGES : str := ##"accept-ranges".
Definition ACCESS_CONTROL_ALLOW_CREDENTIALS : str := ##"access-control-allow-credentials".
Definition ACCESS_CONTROL_ALLOW_HEADERS : str := ##"access-control-allow-headers".
Definition ACCESS_CONTROL_ALLOW_METHODS : str := ##"access-control-allow-methods".
Definition ACCESS_CONTROL_ALLOW_ORIGIN : str := ##"access-control-allow-origin".
Definition ACCESS_CONTROL_REQUEST_METHOD : str := ##"access-control-request-method".
Definition AUTHORIZATION : str := ##"authorization".
Definition CACHE_CONTROL : str := ##"cache-control".
Definition CONTENT_ENCODING : str := ##"content-encoding".
Definition CONTENT_LENGTH : str := ##"content-length".
Definition CONTENT_RANGE : str := ##"content-range".
Definition CONTENT_TYPE : str := ##"content-type".
Definition COOKIE : str := ##"cookie".
Definition ETAG : str := ##"etag".
Definition FORWARDED : str := ##"forwarded".
Definition HOST : str := ##"host".
Definition IF_MODIFIED_SINCE : str := ##"if-modified-since".
Definition IF_NONE_MATCH : str := ##"if-none-match".
Definition IF_RANGE : str := ##"if-range".
Definition LAST_MODIFIED : str := ##"last-modified".
Definition ORIGIN : str := ##"origin".
Definition RANGE : str := ##"range".
Definition RETRY_AFTER : str := ##"retry-after".
Definition SET_COOKIE : str := ##"set-cookie".
Definition TRANSFER_ENCODING : str := ##"transfer-encoding".
Definition VARY : str := ##"vary".
Definition WWW_AUTHENTICATE : str := ##"www-authenticate".
Definition X_CONTENT_TYPE_OPTIONS : str := ##"x-content-type-options".

(** ** Operations *)

Class HttpApi : Type := {
  HeaderValue : Type;
  HeaderMap : Type;
  Uri : Type;
  PathAndQuery : Type;
  hv_as_bytes : HeaderValue -> bytes;
  hv_to_str : HeaderValue -> option str;
  hv_from_str : str -> option HeaderValue;
  hv_from_static : str -> HeaderValue;
  (** [HeaderValue::from(u64)]. *)
  hv_from_u64 : Z -> HeaderValue;
  hm_new : HeaderMap;
  hm_get_all : str -> HeaderMap -> list HeaderValue;
  hm_insert : str -> HeaderValue -> HeaderMap -> HeaderMap;
  hm_append : str -> HeaderValue -> HeaderMap -> HeaderMap;
  hm_remove : str -> HeaderMap -> HeaderMap;
  uri_path : Uri -> str;
  uri_query : Uri -> option str;
  path_and_query_from_str : str -> option PathAndQuery;
  (** [Uri::from_parts] of the parts of a URI with [path_and_query] replaced. *)
  uri_with_path_and_query : Uri -> PathAndQuery -> option Uri
}.

(** The text [PathAndQuery::from_str] is given for a path and a query. *)
Definition path_and_query_text (path : str) (query : option str) : str :=
  match query with
  | Some q => path ++ ##"?" ++ q
  | None => path
  end.

(** ** Documented behaviour *)

Class HttpLaws `{HttpApi} : Prop := {
  hv_to_str_Some v s :
    hv_to_str v = Some s -> s = hv_as_bytes v /\ forallb visible s = true;
  hv_to_str_visible v :
    forallb visible (hv_as_bytes v) = true -> hv_to_str v = Some (hv_as_bytes v);
  hv_from_str_Some s v : hv_from_str s = Some v -> hv_as_bytes v = s;
  hv_from_str_visible s : forallb visible s = true -> is_Some (hv_from_str s);
  hv_from_static_bytes s : forallb visible s = true -> hv_as_bytes (hv_from_static s) = s;
  hv_from_u64_bytes n : 0 <= n <= u64_max -> hv_as_bytes (hv_from_u64 n) = to_dec n;
  hm_get_all_new k : hm_get_all k hm_new = [];
  hm_get_all_insert_eq k v m : hm_get_all k (hm_insert k v m) = [v];
  hm_get_all_insert_ne k k' v m : k <> k' -> hm_get_all k (hm_insert k' v m) = hm_get_all k m;
  hm_get_all_append_eq k v m : hm_get_all k (hm_append k v m) = hm_get_all k m ++ [v];
  hm_get_all_append_ne k k' v m : k <> k' -> hm_get_all k (hm_append k' v m) = hm_get_all k m;
  hm_get_all_remove_eq k m : hm_get_all k (hm_remove k m) = [];
  hm_get_all_remove_ne k k' m : k <> k' -> hm_get_all k (hm_remove k' m) = hm_get_all k m;
  uri_with_path_and_query_path u u' path query pq :
    starts_with ##"/" path = true -> contains_any ##"?#" path = false ->
    path_and_query_from_str (path_and_query_text path query) = Some pq ->
    uri_with_path_and_query u pq = Some u' -> uri_path u' = path
}.

(** Two header maps that answer every lookup alike. *)
Definition hm_equiv `{HttpApi} (m1 m2 : HeaderMap) : Prop :=
  forall k, hm_get_all k m1 = hm_get_all k m2.

Section header_maps.
Context `{HttpLaws}.

Definition hm_get (k : str) (m : HeaderMap) : option HeaderValue := head (hm_get_all k m).
Definition hm_contains_key (k : str) (m : HeaderMap) : bool :=
  match hm_get_all k m with [] => false | _ => true end.

(** [HeaderValue]'s [PartialEq] compares the bytes. *)
Definition hv_eqb (v w : HeaderValue) : bool := bool_decide (hv_as_bytes v = hv_as_bytes w).

#[global] Instance hm_equiv_equivalence : Equivalence hm_equiv.
Proof. split; repeat intro; [done | by symmetry | etrans; eauto]. Qed.

#[global] Instance hm_get_all_proper k : Proper (hm_equiv ==> eq) (hm_get_all k).
Proof. intros m1 m2 Hm. apply Hm. Qed.

#[global] Instance hm_insert_proper k v : Proper (hm_equiv ==> hm_equiv) (hm_insert k v).
Proof.
  intros m1 m2 Hm k'. destruct (decide (k' = k)) as [->|].
  - by rewrite !hm_get_all_insert_eq.
  - by rewrite !hm_get_all_insert_ne.
Qed.

#[global] Instance hm_append_proper k v : Proper (hm_equiv ==> hm_equiv) (hm_append k v).
Proof.
  intros m1 m2 Hm k'. destruct (decide (k' = k)) as [->|].
  - by rewrite !hm_get_all_append_eq, Hm.
  - by rewrite !hm_get_all_append_ne.
Qed.

Lemma hm_get_all_insert k k' v m :
  hm_get_all k (hm_insert k' v m) = if decide (k = k') then [v] else hm_get_all k m.
Proof.
  case_decide as E; [subst; apply hm_get_all_insert_eq | by apply hm_get_all_insert_ne].
Qed.

Lemma hm_get_all_append k k' v m :
  hm_get_all k (hm_append k' v m) =
    if decide (k = k') then hm_get_all k m ++ [v] else hm_get_all k m.
Proof.
  case_decide as E; [subst; apply hm_get_all_append_eq | by apply hm_get_all_append_ne].
Qed.

Lemma hm_get_all_remove k k' m :
  hm_get_all k (hm_remove k' m) = if decide (k = k') then [] else hm_get_all k m.
Proof.
  case_decide as E; [subst; apply hm_get_all_remove_eq | by apply hm_get_all_remove_ne].
Qed.

(** Text that [from_static] is given in the source is visible ASCII. *)
Lemma hv_static_to_str s :
  forallb visible s = true -> hv_to_str (hv_from_static s) = Some s.
Proof.
  intros Hs. rewrite hv_to_str_visible; rewrite hv_from_static_bytes by done; done.
Qed.
End header_maps.

#[export] Hint Rewrite @hm_get_all_insert_eq @hm_get_all_append_eq @hm_get_all_remove_eq
  @hm_get_all_new using typeclasses eauto : rustee.

(** Evaluate lookups in a chain of header updates with literal names. *)
Ltac header_lookup :=
  repeat first
    [ rewrite hm_get_all_insert_eq | rewrite hm_get_all_append_eq
    | rewrite hm_get_all_remove_eq | rewrite hm_get_all_new
    | rewrite hm_get_all_insert_ne by (vm_compute; congruence)
    | rewrite hm_get_all_append_ne by (vm_compute; congruence)
    | rewrite hm_get_all_remove_ne by (vm_compute; congruence) ].

(** ** JSON *)

(** [serde_json::to_vec] at one type; [None] is a serialization error. *)
Class Serialize (T : Type) : Type := serde_json_to_vec : T -> option bytes.
