(* ===== verification/Core.v ===== *)
(** The primitives of [crates/rustee-core] that every component shares.

    Bodies, requests and responses, request extensions, the typed state store,
    sanitized errors and their conversion into responses. *)

From Stdlib Require Import ZArith Lia Bool Ascii.
From stdpp Require Import gmap.
From S2P Require Import Prelude Strings Http.

Local Open Scope Z_scope.

(** ** Bodies

    A body is the sequence of frames it yields when it is polled to the end. *)

Inductive BoxError : Type :=
| LengthLimitError
| OtherError.

Definition Body : Type := list (bytes + BoxError).

(** [Full] yields no frame for an empty buffer. *)
Definition full_body (value : bytes) : Body :=
  match value with [] => [] | _ => [inl value] end.
Definition empty_body : Body := full_body [].
Definition stream_body (chunks : list (bytes + BoxError)) : Body := chunks.

(** [BodyExt::collect]: the concatenated data, or the first error. *)
Fixpoint collect (b : Body) : result bytes BoxError :=
  match b with
  | [] => Ok []
  | inl d :: b' => let? rest := collect b' in Ok (d ++ rest)
  | inr e :: _ => Err e
  end.

(** ** Status codes *)

Definition StatusCode : Type := Z.
Definition is_informational (s : StatusCode) : bool := (100 <=? s) && (s <? 200).
Definition status_disallows_body (s : StatusCode) : bool :=
  is_informational s || (s =? 204) || (s =? 205) || (s =? 304).

(** ** Router metadata *)

Definition RouteTemplate : Type := str.

Inductive RouteClassification : Type :=
| Matched (template : RouteTemplate)
| Fallback
| MethodNotAllowed
| NotFound.

Definition classification_as_str (c : RouteClassification) : str :=
  match c with
  | Matched t => t
  | Fallback => ##"<fallback>"
  | MethodNotAllowed => ##"<method-not-allowed>"
  | NotFound => ##"<not-found>"
  end.

Definition RouteParams : Type := list (str * str).

Fixpoint params_get (name : str) (params : RouteParams) : option str :=
  match params with
  | [] => None
  | (key, value) :: rest => if str_eqb key name then Some value else params_get name rest
  end.

Inductive IpAddr : Type :=
| V4 (address : Z)
| V6 (address : Z).
#[export] Instance IpAddr_eq_dec : EqDecision IpAddr.
Proof. solve_decision. Defined.

Record SocketAddr : Type := { sock_ip : IpAddr; sock_port : Z }.
Record ConnectionInfo : Type := { peer_addr : SocketAddr }.

Record ForwardedContext : Type := {
  client_ip : IpAddr;
  scheme : option str;
  host : option str
}.

(** [rustee_auth::Principal]; a [BTreeSet] is a finite set. *)
Record Principal : Type := {
  subject : str;
  issuer : option str;
  tenant : option str;
  scopes : gset str;
  roles : gset str;
  permissions : gset str
}.

(** [rustee_auth_session::SessionContext]; the id is a UUID, as its number. *)
Record SessionContext : Type := { context_id : Z; context_csrf_token : str }.

(** [rustee_tenant::TenantContext]. *)
Definition TenantContext : Type := str.

(** The typed slots of [http::Extensions] that the modelled crates use. *)
Record Extensions : Type := {
  ext_principal : option Principal;
  ext_session : option SessionContext;
  ext_tenant : option TenantContext;
  ext_connection_info : option ConnectionInfo;
  ext_forwarded : option ForwardedContext;
  ext_nested_prefix : option str;
  ext_template : option RouteTemplate;
  ext_classification : option RouteClassification
}.
Definition no_extensions : Extensions := {|
  ext_principal := None;
  ext_session := None;
  ext_tenant := None;
  ext_connection_info := None;
  ext_forwarded := None;
  ext_nested_prefix := None;
  ext_template := None;
  ext_classification := None
|}.

(** ** Typed state

    A value is stored by the identity of its type; the stored [Arc] is a
    handle to the shared allocation. *)

Record AnyArc : Type := { any_type : nat; any_handle : nat }.
Definition StateStore : Type := gmap nat AnyArc.

Definition state_insert (type_id handle : nat) (s : StateStore) : StateStore :=
  <[type_id := {| any_type := type_id; any_handle := handle |}]> s.

Definition downcast (type_id : nat) (a : AnyArc) : option nat :=
  if Nat.eqb (any_type a) type_id then Some (any_handle a) else None.

Definition state_get (type_id : nat) (s : StateStore) : option nat :=
  match s !! type_id with
  | Some a => downcast type_id a
  | None => None
  end.

(** ** Requests, responses and errors *)

Section messages.
Context `{HttpApi}.

Record Request : Type := {
  req_method : str;
  req_uri : Uri;
  req_headers : HeaderMap;
  req_extensions : Extensions;
  req_body : Body
}.

Record Response : Type := {
  res_status : StatusCode;
  res_headers : HeaderMap;
  res_extensions : Extensions;
  res_body : Body
}.

(** A cloned, type-erased Tower service once it is ready. *)
Definition Service : Type := Request -> Response.

Definition call_ready (service : Service) (request : Request) : Response := service request.

Definition response (status : StatusCode) (body : Body) : Response := {|
  res_status := status;
  res_headers := hm_new;
  res_extensions := no_extensions;
  res_body := if status_disallows_body status then empty_body else body
|}.

Definition with_headers (f : HeaderMap -> HeaderMap) (r : Response) : Response := {|
  res_status := res_status r;
  res_headers := f (res_headers r);
  res_extensions := res_extensions r;
  res_body := res_body r
|}.

Definition with_res_extensions (f : Extensions -> Extensions) (r : Response) : Response := {|
  res_status := res_status r;
  res_headers := res_headers r;
  res_extensions := f (res_extensions r);
  res_body := res_body r
|}.

Definition with_req_extensions (f : Extensions -> Extensions) (r : Request) : Request := {|
  req_method := req_method r;
  req_uri := req_uri r;
  req_headers := req_headers r;
  req_extensions := f (req_extensions r);
  req_body := req_body r
|}.

Definition set_template (t : RouteTemplate) (e : Extensions) : Extensions := {|
  ext_principal := ext_principal e;
  ext_session := ext_session e;
  ext_tenant := ext_tenant e;
  ext_connection_info := ext_connection_info e;
  ext_forwarded := ext_forwarded e;
  ext_nested_prefix := ext_nested_prefix e;
  ext_template := Some t;
  ext_classification := ext_classification e
|}.
Definition set_classification (c : RouteClassification) (e : Extensions) : Extensions := {|
  ext_principal := ext_principal e;
  ext_session := ext_session e;
  ext_tenant := ext_tenant e;
  ext_connection_info := ext_connection_info e;
  ext_forwarded := ext_forwarded e;
  ext_nested_prefix := ext_nested_prefix e;
  ext_template := ext_template e;
  ext_classification := Some c
|}.
Definition set_nested_prefix (p : str) (e : Extensions) : Extensions := {|
  ext_principal := ext_principal e;
  ext_session := ext_session e;
  ext_tenant := ext_tenant e;
  ext_connection_info := ext_connection_info e;
  ext_forwarded := ext_forwarded e;
  ext_nested_prefix := Some p;
  ext_template := ext_template e;
  ext_classification := ext_classification e
|}.
Definition set_forwarded (c : ForwardedContext) (e : Extensions) : Extensions := {|
  ext_principal := ext_principal e;
  ext_session := ext_session e;
  ext_tenant := ext_tenant e;
  ext_connection_info := ext_connection_info e;
  ext_forwarded := Some c;
  ext_nested_prefix := ext_nested_prefix e;
  ext_template := ext_template e;
  ext_classification := ext_classification e
|}.

Definition set_principal (x : Principal) (e : Extensions) : Extensions := {|
  ext_principal := Some x;
  ext_session := ext_session e;
  ext_tenant := ext_tenant e;
  ext_connection_info := ext_connection_info e;
  ext_forwarded := ext_forwarded e;
  ext_nested_prefix := ext_nested_prefix e;
  ext_template := ext_template e;
  ext_classification := ext_classification e
|}.
Definition set_session (x : SessionContext) (e : Extensions) : Extensions := {|
  ext_principal := ext_principal e;
  ext_session := Some x;
  ext_tenant := ext_tenant e;
  ext_connection_info := ext_connection_info e;
  ext_forwarded := ext_forwarded e;
  ext_nested_prefix := ext_nested_prefix e;
  ext_template := ext_template e;
  ext_classification := ext_classification e
|}.
Definition set_tenant (x : TenantContext) (e : Extensions) : Extensions := {|
  ext_principal := ext_principal e;
  ext_session := ext_session e;
  ext_tenant := Some x;
  ext_connection_info := ext_connection_info e;
  ext_forwarded := ext_forwarded e;
  ext_nested_prefix := ext_nested_prefix e;
  ext_template := ext_template e;
  ext_classification := ext_classification e
|}.

Record Error : Type := mk_error { err_status : StatusCode; err_code : str; err_message : str }.

Definition bad_request (message : str) : Error := mk_error 400 ##"bad_request" message.
Definition not_found (message : str) : Error := mk_error 404 ##"not_found" message.
Definition unsupported_media_type (message : str) : Error :=
  mk_error 415 ##"unsupported_media_type" message.
Definition internal : Error :=
  mk_error 500 ##"internal_error" ##"an internal server error occurred".

(** [Display for Error]. *)
Definition error_display (e : Error) : str := err_code e ++ ##": " ++ err_message e.

Record ErrorPayload : Type := { payload_code : str; payload_message : str }.
End messages.

(** ** JSON responses *)

Section conversions.
Context `{HttpApi} `{!Serialize ErrorPayload}.

Definition json_response_from_encoded (status : StatusCode) (encoded : bytes) : Response :=
  with_headers
    (hm_insert CONTENT_TYPE (hv_from_static ##"application/json; charset=utf-8"))
    (response status (full_body encoded)).

Definition json_response {T} `{!Serialize T} (status : StatusCode) (value : T) :
    result Response Error :=
  match serde_json_to_vec value with
  | Some encoded => Ok (json_response_from_encoded status encoded)
  | None => Err internal
  end.

Definition text_response (status : StatusCode) (value : bytes) : Response :=
  with_headers
    (hm_insert CONTENT_TYPE (hv_from_static ##"text/plain; charset=utf-8"))
    (response status (full_body value)).

(** The [IntoResponse] trait and its implementations. *)
Class IntoResponse (T : Type) : Type := into_response : T -> Response.

#[global] Instance response_into_response : IntoResponse Response := fun r => r.

#[global] Instance error_into_response : IntoResponse Error := fun e =>
  match json_response (err_status e)
          {| payload_code := err_code e; payload_message := err_message e |} with
  | Ok r => r
  | Err _ => response (err_status e) empty_body
  end.

Definition status_into_response (s : StatusCode) : Response := response s empty_body.

#[global] Instance unit_into_response : IntoResponse unit := fun _ => status_into_response 204.

#[global] Instance str_into_response : IntoResponse str := fun s => text_response 200 s.

Definition bytes_into_response (b : bytes) : Response := response 200 (full_body b).

#[global] Instance status_pair_into_response {T} `{!IntoResponse T} :
  IntoResponse (StatusCode * T) := fun '(status, value) =>
    let r := into_response value in
    if status_disallows_body status
    then {| res_status := status;
            res_headers := hm_remove TRANSFER_ENCODING
                             (hm_remove CONTENT_LENGTH (res_headers r));
            res_extensions := res_extensions r;
            res_body := empty_body |}
    else {| res_status := status;
            res_headers := res_headers r;
            res_extensions := res_extensions r;
            res_body := res_body r |}.

#[global] Instance result_into_response {T E} `{!IntoResponse T, !IntoResponse E} :
  IntoResponse (result T E) := fun r =>
    match r with
    | Ok value => into_response value
    | Err error => into_response error
    end.

Record Json (T : Type) : Type := mk_json { json_value : T }.

#[global] Instance json_into_response {T} `{!Serialize T} : IntoResponse (Json T) := fun j =>
  match json_response 200 (json_value _ j) with
  | Ok r => r
  | Err _ => into_response internal
  end.
End conversions.
