(* ===== verification/HttpModel.v ===== *)
(** A concrete instance of the HTTP interface.

    Header values are byte strings, header maps association lists and URIs a
    path with an optional query. The instance discharges [HttpLaws], so every
    theorem stated against the interface applies to it; the witnesses compute
    with it. *)

From Stdlib Require Import ZArith Lia Bool Ascii.
From S2P Require Import Prelude Strings Http Core.

Local Open Scope Z_scope.

Module HttpModel.
Definition headers : Type := list (str * bytes).
Record uri : Type := { u_path : str; u_query : option str }.

Definition get_all (k : str) (m : headers) : list bytes :=
  snd <$> List.filter (fun e => str_eqb k e.1) m.
Definition remove (k : str) (m : headers) : headers :=
  List.filter (fun e => negb (str_eqb k e.1)) m.
Definition checked (s : str) : option bytes := if forallb visible s then Some s else None.

(** The path ends at the first [?]; a fragment is not admitted. *)
Definition parse_path_and_query (s : str) : option uri :=
  if contains_char "#" s then None
  else match split_once "?" s with
       | Some (p, q) => Some {| u_path := p; u_query := Some q |}
       | None => Some {| u_path := s; u_query := None |}
       end.

#[export] Instance api : HttpApi := {
  HeaderValue := bytes;
  HeaderMap := headers;
  Uri := uri;
  PathAndQuery := uri;
  hv_as_bytes v := v;
  hv_to_str v := checked v;
  hv_from_str s := checked s;
  hv_from_static s := s;
  hv_from_u64 n := to_dec n;
  hm_new := [];
  hm_get_all := get_all;
  hm_insert k v m := (k, v) :: remove k m;
  hm_append k v m := m ++ [(k, v)];
  hm_remove := remove;
  uri_path := u_path;
  uri_query := u_query;
  path_and_query_from_str := parse_path_and_query;
  uri_with_path_and_query _ pq := Some pq
}.

Lemma get_all_remove_eq k m : get_all k (remove k m) = [].
Proof.
  unfold get_all, remove. induction m as [|[k' v] m IH]; simpl; [done|].
  destruct (str_eqb k k') eqn:E; simpl; [done|]. by rewrite E.
Qed.

Lemma get_all_remove_ne k k' m : k <> k' -> get_all k (remove k' m) = get_all k m.
Proof.
  intros Hne. unfold get_all, remove. induction m as [|[k'' v] m IH]; simpl; [done|].
  destruct (str_eqb k' k'') eqn:E; simpl.
  - apply str_eqb_true in E as <-.
    assert (str_eqb k k' = false) as -> by (by apply bool_decide_eq_false). done.
  - destruct (str_eqb k k''); simpl; [f_equal|]; apply IH.
Qed.

Lemma get_all_app k m1 m2 : get_all k (m1 ++ m2) = get_all k m1 ++ get_all k m2.
Proof. unfold get_all. by rewrite List.filter_app, fmap_app. Qed.

Lemma str_eqb_refl k : str_eqb k k = true.
Proof. by apply str_eqb_true. Qed.

Lemma str_eqb_ne k k' : k <> k' -> str_eqb k k' = false.
Proof. intros. by apply bool_decide_eq_false. Qed.

Lemma checked_Some s v : checked s = Some v -> v = s /\ forallb visible s = true.
Proof. unfold checked. destruct (forallb visible s) eqn:E; naive_solver. Qed.

#[export] Instance laws : HttpLaws.
Proof.
  split; simpl.
  - intros v s [-> Hv]%checked_Some. done.
  - intros v Hv. unfold checked. by rewrite Hv.
  - intros s v [-> _]%checked_Some. done.
  - intros s Hs. unfold checked. rewrite Hs. eauto.
  - done.
  - done.
  - done.
  - intros k v m. unfold get_all at 1. simpl. rewrite str_eqb_refl. simpl.
    f_equal. apply get_all_remove_eq.
  - intros k k' v m Hne. unfold get_all at 1. simpl. rewrite str_eqb_ne by done.
    by apply get_all_remove_ne.
  - intros k v m. rewrite get_all_app. unfold get_all at 2. simpl. by rewrite str_eqb_refl.
  - intros k k' v m Hne. rewrite get_all_app. unfold get_all at 2. simpl.
    rewrite str_eqb_ne by done. apply app_nil_r.
  - apply get_all_remove_eq.
  - intros. by apply get_all_remove_ne.
  - intros u u' path query pq _ Hp. unfold parse_path_and_query, path_and_query_text.
    rewrite contains_any_false in Hp.
    assert (Hq : "?"%char ∉ path) by (apply Hp; by left).
    destruct query as [q|]; intros Hpq [= <-].
    + destruct (contains_char "#" _); [done|].
      rewrite (proj2 (split_once_Some "?" _ path q)) in Hpq by done. by simplify_eq/=.
    + destruct (contains_char "#" _); [done|].
      rewrite (proj2 (split_once_None _ _)) in Hpq by done. by simplify_eq.
Qed.

(** A JSON encoder for error payloads whose texts need no escaping. *)
#[export] Instance error_json : Serialize ErrorPayload := fun p =>
  let quote s := byte_of 34 :: s ++ [byte_of 34] in
  Some (##"{" ++ quote ##"error" ++ ##":{" ++ quote ##"code" ++ ##":"
          ++ quote (payload_code p) ++ ##"," ++ quote ##"message" ++ ##":"
          ++ quote (payload_message p) ++ ##"}}").

(** A request with no header, for examples. *)
Definition request (m path : str) : Request := {|
  req_method := m;
  req_uri := {| u_path := path; u_query := None |};
  req_headers := [];
  req_extensions := no_extensions;
  req_body := empty_body
|}.
End HttpModel.
