(* ===== verification/RoutePattern.v ===== *)
(** Route patterns: [crates/rustee-router/src/pattern.rs].

    Parsing of [/users/:id] templates, matching of request paths, the
    equivalence test that detects duplicate registrations and the static
    prefixes of nested services. *)

From Stdlib Require Import ZArith Lia Bool Ascii.
From stdpp Require Import gmap.
From S2P Require Import Prelude Strings Http Core.

(** ** Data *)

Inductive Segment : Type :=
| Static (text : str)
| Param (name : str).
#[export] Instance Segment_eq_dec : EqDecision Segment.
Proof. solve_decision. Defined.

Record RoutePattern : Type := mk_pattern {
  segments : list Segment;
  static_segments : nat
}.

Record RouteError : Type := mk_route_error { message : str }.

Record NestedPrefix : Type := mk_prefix {
  value : str;
  segment_count : nat
}.

(** ** Operations *)

Definition param_name_char (c : ascii) : bool := is_ascii_alphanumeric c || char_eqb c "_".

(** The body of the loop of [RoutePattern::parse]. *)
Fixpoint parse_segments (l : list str) (static_count : nat) (names : gset str)
    (acc : list Segment) : result RoutePattern RouteError :=
  match l with
  | [] => Ok (mk_pattern acc static_count)
  | segment :: rest =>
      match strip_prefix ##":" segment with
      | Some name =>
          if negb (nonempty name) || negb (forallb param_name_char name) then
            Err (mk_route_error
              ##"route parameter names must contain only ASCII letters, digits, or underscores")
          else if bool_decide (name ∈ names) then
            Err (mk_route_error ##"route parameter names must be unique")
          else parse_segments rest static_count ({[name]} ∪ names) (acc ++ [Param name])
      | None => parse_segments rest (S static_count) names (acc ++ [Static segment])
      end
  end.

Definition path_segments (path : str) : list str :=
  List.filter nonempty (split "/" (trim_matches "/" path)).

Definition parse (path : str) : result RoutePattern RouteError :=
  if negb (starts_with ##"/" path) then
    Err (mk_route_error ##"route paths must start with '/'")
  else if contains_char "?" path || contains_char "#" path then
    Err (mk_route_error ##"route paths cannot contain a query string or fragment")
  else if contains_str ##"//" path then
    Err (mk_route_error ##"route paths cannot contain repeated '/' separators")
  else parse_segments (path_segments path) 0 ∅ [].

(** The loop of [RoutePattern::matches]. *)
Fixpoint match_segments (segs : list Segment) (incoming : list str) (params : RouteParams) :
    option RouteParams :=
  match segs with
  | [] => match incoming with [] => Some params | _ => None end
  | segment :: segs' =>
      match incoming with
      | [] => None
      | i :: incoming' =>
          match segment with
          | Static expected =>
              if str_eqb expected i then match_segments segs' incoming' params else None
          | Param name => match_segments segs' incoming' (params ++ [(name, i)])
          end
      end
  end.

Definition matches (p : RoutePattern) (path : str) : option RouteParams :=
  if contains_str ##"//" path then None
  else match_segments (segments p) (path_segments path) [].

Definition segment_equiv (a b : Segment) : bool :=
  match a, b with
  | Static l, Static r => str_eqb l r
  | Param _, Param _ => true
  | _, _ => false
  end.

Definition is_equivalent_to (p q : RoutePattern) : bool :=
  Nat.eqb (length (segments p)) (length (segments q))
  && forallb (fun '(l, r) => segment_equiv l r) (combine (segments p) (segments q)).

Definition is_static (s : Segment) : bool := match s with Static _ => true | _ => false end.
Definition segment_text (s : Segment) : str :=
  match s with Static t => t | Param n => n end.

Definition prefix_parse (path : str) : result NestedPrefix RouteError :=
  let? pattern := parse path in
  if bool_decide (segments pattern = []) then
    Err (mk_route_error ##"nest prefixes must contain at least one static path segment")
  else if negb (forallb is_static (segments pattern)) then
    Err (mk_route_error ##"nest prefixes cannot contain route parameters")
  else Ok (mk_prefix (##"/" ++ join ##"/" (map segment_text (segments pattern)))
                     (length (segments pattern))).

Definition strip (p : NestedPrefix) (path : str) : option str :=
  match strip_prefix (value p) path with
  | None => None
  | Some remaining =>
      if negb (nonempty remaining) then Some ##"/"
      else if starts_with ##"/" remaining then Some remaining
      else None
  end.

(** ** Well-formed patterns *)

Definition wf_segment (s : Segment) : Prop :=
  match s with
  | Static t => good_piece t /\ strip_prefix ##":" t = None /\ "?"%char ∉ t /\ "#"%char ∉ t
  | Param n => nonempty n = true /\ forallb param_name_char n = true
  end.

Definition param_names (l : list Segment) : list str :=
  omap (fun s => match s with Param n => Some n | Static _ => None end) l.

Definition static_count (l : list Segment) : nat := length (List.filter is_static l).

(** What every pattern built by [parse] satisfies. *)
Definition wf_pattern (p : RoutePattern) : Prop :=
  Forall wf_segment (segments p) /\
  NoDup (param_names (segments p)) /\
  static_segments p = static_count (segments p).

(** The template text of a pattern. *)
Definition render_segment (s : Segment) : str :=
  match s with Static t => t | Param n => ##":" ++ n end.
Definition render (p : RoutePattern) : str :=
  ##"/" ++ join ##"/" (map render_segment (segments p)).

(** ** Parsing *)

Lemma path_segments_pieces path : path_segments path = pieces "/" path.
Proof. apply pieces_trim. Qed.

(** What the loop of [parse] checks of one segment. *)
Definition loop_segment (s : Segment) : Prop :=
  match s with
  | Static t => strip_prefix ##":" t = None
  | Param n => nonempty n = true /\ forallb param_name_char n = true
  end.

Lemma parse_segments_Ok l n names acc p :
  parse_segments l n names acc = Ok p ->
  exists segs, p = mk_pattern (acc ++ segs) (n + static_count segs) /\
    map render_segment segs = l /\ Forall loop_segment segs /\
    NoDup (param_names segs) /\ Forall (fun x => x ∉ names) (param_names segs).
Proof.
  revert n names acc. induction l as [|s l IH]; intros n names acc; cbn [parse_segments].
  - intros [= <-]. exists []. rewrite app_nil_r, Nat.add_0_r. repeat split; constructor.
  - destruct (strip_prefix ##":" s) as [name|] eqn:E.
    + destruct (negb (nonempty name) || _) eqn:E1; [done|].
      case_bool_decide as E2; [done|]. intros Hp.
      apply IH in Hp as (segs & -> & <- & HF & HN & HD). bool_hyps.
      exists (Param name :: segs). rewrite <- app_assoc. apply strip_prefix_Some in E as ->.
      split_and!; [done | done | by constructor | | ]; simpl.
      * apply NoDup_cons. split; [|done]. intros Hin. rewrite Forall_forall in HD.
        specialize (HD _ Hin). set_solver.
      * constructor; [done|]. eapply Forall_impl; [exact HD|]. set_solver.
    + intros Hp. apply IH in Hp as (segs & -> & <- & HF & HN & HD).
      exists (Static s :: segs). rewrite <- app_assoc. unfold static_count. simpl.
      rewrite Nat.add_succ_r. repeat split; auto.
Qed.

Lemma parse_segments_render segs n names acc :
  Forall loop_segment segs -> NoDup (param_names segs) ->
  Forall (fun x => x ∉ names) (param_names segs) ->
  parse_segments (map render_segment segs) n names acc
    = Ok (mk_pattern (acc ++ segs) (n + static_count segs)).
Proof.
  intros HF. revert n names acc. induction HF as [|[t|x] segs Hs HF IH]; intros n names acc HN HD.
  - simpl. by rewrite app_nil_r, Nat.add_0_r.
  - simpl in *. rewrite Hs. rewrite IH by done. rewrite <- app_assoc.
    unfold static_count. simpl. by rewrite Nat.add_succ_r.
  - destruct Hs as [Hn Hc]. cbn [map render_segment parse_segments].
    rewrite strip_prefix_app, Hn, Hc. simpl in HN, HD.
    apply NoDup_cons in HN as [Hx HN]. apply Forall_cons in HD as [Hx' HD].
    simpl. rewrite bool_decide_eq_false_2 by done.
    rewrite IH, <- app_assoc; [done | done |].
    rewrite Forall_forall in HD |- *. intros y Hy. specialize (HD y Hy). set_solver.
Qed.

Lemma pieces_sub c s p x : p ∈ pieces c s -> x ∈ p -> x ∈ s.
Proof.
  intros Hp Hx. unfold pieces in Hp.
  apply list_elem_of_In, List.filter_In in Hp as [Hp _].
  rewrite <- (join_split c s). clear -Hp Hx.
  induction (split c s) as [|q l IH]; [done|].
  destruct l as [|q' l].
  - destruct Hp as [<-|[]]. done.
  - rewrite join_cons by done. destruct Hp as [<-|Hp]; [set_solver|].
    apply elem_of_app. right. set_solver.
Qed.

Lemma parse_Ok path p :
  parse path = Ok p <->
  (exists s, path = "/"%char :: s) /\ "?"%char ∉ path /\ "#"%char ∉ path /\
  contains_str double_slash path = false /\
  parse_segments (pieces "/" path) 0 ∅ [] = Ok p.
Proof.
  unfold parse. rewrite path_segments_pieces.
  change (lit "//") with double_slash.
  destruct (starts_with ##"/" path) eqn:E1; simpl.
  - apply starts_with_true in E1 as [r ->].
    change (lit "/" ++ r) with ("/"%char :: r).
    destruct (contains_char "?" ("/"%char :: r) || contains_char "#" ("/"%char :: r)) eqn:E2.
    + split; [done|]. intros (_ & H1 & H2 & _).
      apply contains_char_false in H1, H2. by rewrite H1, H2 in E2.
    + apply orb_false_iff in E2 as [E2 E3]. apply contains_char_false in E2, E3.
      destruct (contains_str double_slash ("/"%char :: r)) eqn:E4.
      * split; [done|]. by intros (_ & _ & _ & ? & _).
      * split; [intros Hp; split_and!; eauto | by intros (_ & _ & _ & _ & ?)].
  - split; [done|]. intros [[s ->] _]. done.
Qed.

Lemma loop_segment_wf path s :
  loop_segment s -> render_segment s ∈ pieces "/" path ->
  "?"%char ∉ path -> "#"%char ∉ path -> wf_segment s.
Proof.
  intros Hs Hin Hq Hf. destruct s as [t|n]; [|done]. simpl in *.
  pose proof (pieces_good path) as HG. rewrite Forall_forall in HG.
  repeat split; try done; try (by apply HG); intros Hx.
  - apply Hq. by eapply pieces_sub.
  - apply Hf. by eapply pieces_sub.
Qed.

Lemma parse_wf path p : parse path = Ok p -> wf_pattern p.
Proof.
  intros (_ & Hq & Hf & _ & Hp)%parse_Ok.
  apply parse_segments_Ok in Hp as (segs & -> & Hl & HF & HN & _).
  repeat split; [|done..]. simpl. rewrite Forall_forall in HF |- *. intros s Hs.
  apply (loop_segment_wf path); auto. rewrite <- Hl.
  apply list_elem_of_In, in_map. by apply list_elem_of_In.
Qed.

Lemma wf_render_good p : wf_pattern p -> Forall good_piece (map render_segment (segments p)).
Proof.
  intros (HF & _). rewrite Forall_forall in HF. apply Forall_forall. intros x Hx.
  apply list_elem_of_In, in_map_iff in Hx as (s & <- & Hs). apply list_elem_of_In in Hs.
  apply HF in Hs. destruct s as [t|n]; simpl in *; [by destruct Hs|].
  destruct Hs as [Hn Hc]. split; [done|]. unfold lit. simpl.
  rewrite not_elem_of_cons. split; [done|]. intros Hin.
  apply forallb_Forall in Hc. rewrite Forall_forall in Hc. by apply Hc in Hin.
Qed.

Lemma wf_render_no x p :
  wf_pattern p -> x = "?"%char \/ x = "#"%char -> x ∉ render p.
Proof.
  intros (HF & _) Hx. unfold render. rewrite elem_of_app.
  intros [H|H]; [unfold lit in H; set_solver|].
  assert (HA : Forall (fun s => x ∉ render_segment s) (segments p)).
  { rewrite Forall_forall in HF |- *. intros s Hs. specialize (HF s Hs).
    destruct s as [t|n]; simpl in *; [destruct Hx; subst; naive_solver|].
    destruct HF as [_ Hc]. apply forallb_Forall in Hc. rewrite Forall_forall in Hc.
    unfold lit. simpl. rewrite not_elem_of_cons. split; [by destruct Hx; subst|].
    intros Hin. specialize (Hc _ Hin). by destruct Hx; subst. }
  clear HF. revert H HA. generalize (segments p) as l.
  induction l as [|s l IH]; intros H HA; [by apply not_elem_of_nil in H|].
  apply Forall_cons in HA as [Hs HA]. cbn [map] in H.
  destruct l as [|s' l]; [done|].
  rewrite join_cons in H by done. rewrite !elem_of_app in H.
  destruct H as [?|[H|?]]; [done| |by apply IH].
  unfold lit in H. destruct Hx; subst; set_solver.
Qed.

(** Rendering a well-formed pattern and parsing the text gives it back. *)
Lemma parse_render p : wf_pattern p -> parse (render p) = Ok p.
Proof.
  intros Hwf. pose proof (wf_render_good p Hwf) as HG.
  apply parse_Ok. split_and!.
  - by eexists.
  - apply wf_render_no; auto.
  - apply wf_render_no; auto.
  - by apply join_no_double_slash'.
  - destruct Hwf as (HF & HN & HS). destruct p as [segs n]; simpl in *. subst n.
    unfold render. change (pieces "/" (lit "/" ++ ?x)) with (pieces "/" ("/"%char :: x)).
    rewrite pieces_cons_sep. rewrite pieces_join by done.
    rewrite parse_segments_render; [done | | done | ].
    + eapply Forall_impl; [exact HF|]. intros [t|x]; simpl; naive_solver.
    + apply Forall_forall. set_solver.
Qed.

(** The text of a parsed pattern is the path without a trailing separator. *)
Lemma render_parse path p :
  parse path = Ok p -> path = render p \/ path = render p ++ ##"/".
Proof.
  intros ((s & ->) & _ & _ & Hd & Hp)%parse_Ok.
  apply parse_segments_Ok in Hp as (segs & -> & Hl & _).
  unfold render. simpl. rewrite Hl, pieces_cons_sep.
  destruct (path_shape s Hd) as [Hs|[_ Hs]]; [left|right]; unfold lit; simpl; by rewrite Hs at 1.
Qed.

(** ** Matching *)

(** One pattern segment admits one path segment. *)
Definition admits (s : Segment) (i : str) : Prop :=
  match s with Static t => t = i | Param _ => True end.

(** The parameters a pattern binds, in route order. *)
Fixpoint bindings (segs : list Segment) (incoming : list str) : RouteParams :=
  match segs, incoming with
  | Param n :: segs', i :: incoming' => (n, i) :: bindings segs' incoming'
  | Static _ :: segs', _ :: incoming' => bindings segs' incoming'
  | _, _ => []
  end.

Lemma match_segments_Some segs incoming ps r :
  match_segments segs incoming ps = Some r <->
  Forall2 admits segs incoming /\ r = ps ++ bindings segs incoming.
Proof.
  revert incoming ps. induction segs as [|s segs IH]; intros [|i incoming] ps; simpl.
  - rewrite app_nil_r. split; [intros [= <-]; by split; [constructor|] | by intros [_ ->]].
  - split; [done|]. intros [H _]. by inversion H.
  - split; [done|]. intros [H _]. by inversion H.
  - rewrite Forall2_cons. destruct s as [t|n]; simpl.
    + destruct (str_eqb t i) eqn:E.
      * apply str_eqb_true in E. rewrite IH. tauto.
      * split; [done|]. intros [[<- _] _]. by rewrite (proj2 (str_eqb_true t t)) in E.
    + rewrite IH, <- app_assoc. tauto.
Qed.

Lemma matches_Some p path r :
  matches p path = Some r <->
  contains_str double_slash path = false /\
  Forall2 admits (segments p) (pieces "/" path) /\ r = bindings (segments p) (pieces "/" path).
Proof.
  unfold matches. rewrite path_segments_pieces. change (lit "//") with double_slash.
  destruct (contains_str double_slash path); [naive_solver|].
  rewrite match_segments_Some. naive_solver.
Qed.

Lemma matches_is_Some p path :
  is_Some (matches p path) <->
  contains_str double_slash path = false /\ Forall2 admits (segments p) (pieces "/" path).
Proof.
  unfold is_Some. setoid_rewrite matches_Some. naive_solver.
Qed.

(** ** Equivalence of patterns *)

Lemma is_equivalent_to_Forall2 p q :
  is_equivalent_to p q = true <->
  Forall2 (fun a b => segment_equiv a b = true) (segments p) (segments q).
Proof.
  unfold is_equivalent_to. generalize (segments p) as l, (segments q) as k. clear p q.
  induction l as [|a l IH]; intros [|b k]; simpl.
  - split; [constructor | done].
  - split; [done | intros H; by inversion H].
  - split; [done | intros H; by inversion H].
  - rewrite Forall2_cons, <- IH. rewrite !andb_true_iff. tauto.
Qed.

Lemma segment_equiv_admits a b i : segment_equiv a b = true -> admits a i -> admits b i.
Proof.
  destruct a as [t|n], b as [u|m]; simpl; try done. intros H%str_eqb_true. congruence.
Qed.

Lemma segment_equiv_sym a b : segment_equiv a b = segment_equiv b a.
Proof.
  destruct a as [t|n], b as [u|m]; simpl; try done. unfold str_eqb.
  by apply bool_decide_ext.
Qed.

Lemma is_equivalent_to_sym p q : is_equivalent_to p q = is_equivalent_to q p.
Proof.
  destruct (is_equivalent_to p q) eqn:E1, (is_equivalent_to q p) eqn:E2; try done.
  - apply is_equivalent_to_Forall2, Forall2_flip in E1.
    assert (is_equivalent_to q p = true) as E3; [|congruence].
    apply is_equivalent_to_Forall2. eapply Forall2_impl; [exact E1|].
    intros a b. simpl. by rewrite segment_equiv_sym.
  - apply is_equivalent_to_Forall2, Forall2_flip in E2.
    assert (is_equivalent_to p q = true) as E3; [|congruence].
    apply is_equivalent_to_Forall2. eapply Forall2_impl; [exact E2|].
    intros a b. simpl. by rewrite segment_equiv_sym.
Qed.

(** A request path made from a pattern by replacing every parameter. *)
Definition fill_segment (x : str) (s : Segment) : str :=
  match s with Static t => t | Param _ => x end.
Definition fill (x : str) (p : RoutePattern) : str :=
  "/"%char :: join ["/"%char] (map (fill_segment x) (segments p)).

Lemma fill_good x p :
  wf_pattern p -> good_piece x -> Forall good_piece (map (fill_segment x) (segments p)).
Proof.
  intros (HF & _) Hx. induction HF as [|s l Hs HF IH]; constructor; [|done].
  destruct s; simpl in *; [by destruct Hs | done].
Qed.

Lemma matches_fill x p q :
  wf_pattern p -> good_piece x ->
  is_Some (matches q (fill x p)) <->
  Forall2 admits (segments q) (map (fill_segment x) (segments p)).
Proof.
  intros Hp Hx. pose proof (fill_good x p Hp Hx) as HG.
  rewrite matches_is_Some. unfold fill at 2.
  rewrite pieces_cons_sep, pieces_join by done.
  split; [tauto|]. split; [|done]. by apply join_no_double_slash'.
Qed.

Lemma admits_fill x s : admits s (fill_segment x s).
Proof. by destruct s. Qed.

Lemma matches_fill_self x p : wf_pattern p -> good_piece x -> is_Some (matches p (fill x p)).
Proof.
  intros Hp Hx. apply matches_fill; [done..|]. apply Forall2_fmap_r, Forall_Forall2_diag.
  apply Forall_true. intros s. apply admits_fill.
Qed.

(** A path segment that equals no static text of a pattern. *)
Definition fresh_piece (p q : RoutePattern) : str :=
  replicate (S (list_max (map (fun s => length (segment_text s)) (segments p ++ segments q))))
    "a"%char.

Lemma fresh_piece_good p q : good_piece (fresh_piece p q).
Proof.
  split; [done|]. unfold fresh_piece. intros H. by apply elem_of_replicate in H as [? _].
Qed.

Lemma fresh_piece_ne p q t : Static t ∈ segments p ++ segments q -> t <> fresh_piece p q.
Proof.
  intros Hin ->. apply list_elem_of_In in Hin.
  apply (in_map (fun s => length (segment_text s))) in Hin. cbn [segment_text] in Hin.
  revert Hin. unfold fresh_piece. generalize (map (fun s => length (segment_text s))
    (segments p ++ segments q)) as l. intros l Hin. rewrite length_replicate in Hin.
  pose proof (proj1 (list_max_le l _) (Nat.le_refl _)) as Hmax.
  rewrite List.Forall_forall in Hmax. specialize (Hmax _ Hin). lia.
Qed.

Lemma fill_both_equiv x l k :
  (forall t, Static t ∈ l ++ k -> t <> x) ->
  Forall2 admits k (map (fill_segment x) l) -> Forall2 admits l (map (fill_segment x) k) ->
  Forall2 (fun a b => segment_equiv a b = true) l k.
Proof.
  revert k. induction l as [|a l IH]; intros [|b k] Hx H1 H2; simpl in H1, H2;
    try (by inversion H1).
  apply Forall2_cons in H1 as [Hb H1], H2 as [Ha H2]. constructor.
  - destruct a as [t|n], b as [u|m]; simpl in *; try done.
    + by apply str_eqb_true.
    + exfalso. apply (Hx t); [set_solver | done].
    + exfalso. apply (Hx u); [set_solver | done].
  - apply IH; [|done..]. intros t Ht. apply Hx. set_solver.
Qed.

(** ** Nested prefixes *)

Lemma prefix_parse_Ok path np :
  prefix_parse path = Ok np ->
  exists p, parse path = Ok p /\ segments p = map Static (pieces "/" path) /\
    pieces "/" path <> [] /\
    value np = "/"%char :: join ["/"%char] (pieces "/" path) /\
    segment_count np = length (pieces "/" path).
Proof.
  unfold prefix_parse. destruct (parse path) as [p|] eqn:E; [|done].
  case_bool_decide as Hne; [done|].
  destruct (forallb is_static (segments p)) eqn:HS; [|done]. intros [= <-].
  exists p. split; [done|].
  apply parse_Ok in E as (_ & _ & _ & _ & Hp).
  apply parse_segments_Ok in Hp as (segs & -> & <- & _). simpl in *.
  assert (Hm : map render_segment segs = map segment_text segs /\
               segs = map Static (map segment_text segs)).
  { clear Hne. induction segs as [|[t|n] segs IH]; [done| |done].
    simpl in *. destruct (IH HS) as [-> <-]. done. }
  destruct Hm as [-> Hm]. split_and!.
  - done.
  - by destruct segs.
  - done.
  - by rewrite length_map.
Qed.

Lemma strip_Some np path rest :
  strip np path = Some rest <->
  path = value np /\ rest = ##"/" \/ (exists s, rest = "/"%char :: s) /\ path = value np ++ rest.
Proof.
  unfold strip. destruct (strip_prefix (value np) path) as [r|] eqn:E.
  - apply strip_prefix_Some in E as ->. destruct r as [|c r]; cbn [nonempty negb].
    + rewrite app_nil_r. split; [intros [= <-]; by left|].
      intros [[_ ->]|[[s ->] H]]; [done|].
      apply (f_equal length) in H. rewrite length_app in H. simpl in H. lia.
    + split.
      * destruct (starts_with ##"/" (c :: r)) eqn:E; [|done]. intros [= <-].
        apply starts_with_true in E as [s E]. right. split; [by exists s | done].
      * intros [[H _]|[[s ->] H]].
        -- apply (f_equal length) in H. rewrite length_app in H. simpl in H. lia.
        -- apply app_inv_head in H. by rewrite H.
  - split; [done|]. intros [[-> _]|[_ ->]].
    + pose proof (strip_prefix_app (value np) []) as E'. rewrite app_nil_r in E'. congruence.
    + by rewrite strip_prefix_app in E.
Qed.

Lemma pieces_lead s : pieces "/" (##"/" ++ s) = pieces "/" s.
Proof. apply pieces_cons_sep. Qed.

(** Stripping removes exactly the segments of the prefix. *)
Lemma strip_pieces prefix np path rest :
  prefix_parse prefix = Ok np -> strip np path = Some rest ->
  pieces "/" path = pieces "/" prefix ++ pieces "/" rest.
Proof.
  intros (p & _ & _ & Hne & Hv & _)%prefix_parse_Ok Hs.
  pose proof (pieces_good prefix) as HG.
  apply strip_Some in Hs as [[-> ->]|[[s ->] ->]]; rewrite Hv.
  - rewrite pieces_cons_sep, pieces_join by done. by rewrite app_nil_r.
  - rewrite <- app_comm_cons, pieces_cons_sep, pieces_app, pieces_join by done.
    by rewrite pieces_cons_sep.
Qed.

Lemma strip_complete prefix np path k :
  prefix_parse prefix = Ok np -> starts_with ##"/" path = true ->
  contains_str double_slash path = false ->
  pieces "/" path = pieces "/" prefix ++ k -> is_Some (strip np path).
Proof.
  intros (p & _ & _ & Hne & Hv & _)%prefix_parse_Ok Hh Hd Hk.
  apply starts_with_true in Hh as [s ->]. change (lit "/" ++ s) with ("/"%char :: s) in *.
  rewrite pieces_cons_sep in Hk.
  assert (HJ : exists t, "/"%char :: join ["/"%char] (pieces "/" s) = value np ++ t /\
                 (t = [] \/ exists u, t = "/"%char :: u)).
  { rewrite Hk, Hv. destruct k as [|x k].
    - exists []. rewrite !app_nil_r. eauto.
    - exists ("/"%char :: join ["/"%char] (x :: k)). split; [|eauto].
      rewrite <- app_comm_cons. f_equal. clear -Hne.
      induction (pieces "/" prefix) as [|q l IH]; [done|].
      destruct l as [|q' l]; [done|].
      rewrite <- app_comm_cons, !join_cons by done. rewrite <- !app_assoc. f_equal. simpl.
      f_equal. by apply IH. }
  destruct HJ as (t & HJ & Ht).
  assert (HP : exists u, "/"%char :: s = value np ++ u /\ (u = [] \/ exists w, u = "/"%char :: w)).
  { destruct (path_shape s Hd) as [E|[_ E]]; rewrite E.
    - eauto.
    - exists (t ++ ["/"%char]). rewrite app_comm_cons, HJ, <- app_assoc. split; [done|].
      destruct Ht as [->|[w ->]]; simpl; eauto. }
  destruct HP as (u & HP & [->|[w ->]]).
  - exists ##"/". apply strip_Some. left. by rewrite HP, app_nil_r.
  - exists ("/"%char :: w). apply strip_Some. right. split; [eauto | done].
Qed.

(** ** Properties *)

(** A parsed route pattern is recovered exactly by parsing its template text
    again, and that text is the configured path up to one trailing separator:
    parsing loses nothing but a trailing [/]. *)
Theorem parse_render_roundtrip path p :
  parse path = Ok p ->
  parse (render p) = Ok p /\ (path = render p \/ path = render p ++ ##"/").
Proof. intros Hp. split; [by eapply parse_render, parse_wf | by apply render_parse]. Qed.

Lemma parse_render_roundtrip_witness :
  exists p, parse ##"/users/:id/" = Ok p /\ parse (render p) = Ok p.
Proof.
  eexists. split; [vm_compute; reflexivity|].
  apply (parse_render_roundtrip ##"/users/:id/"). vm_compute. reflexivity.
Defined.

(** Matching is segment-wise. A path is accepted exactly when it has no
    repeated separator and its non-empty segments agree one by one with the
    pattern, and the parameters returned are the path segments at the
    parameter positions, in route order. *)
Theorem matches_segmentwise p path params :
  matches p path = Some params <->
  contains_str ##"//" path = false /\
  Forall2 admits (segments p) (path_segments path) /\
  params = bindings (segments p) (path_segments path).
Proof. rewrite path_segments_pieces. apply matches_Some. Qed.

(** C28: two registered patterns are reported equivalent exactly when they accept
    the same set of request paths, so the duplicate check of [try_route] is
    neither too strict nor too lax. *)
Theorem equivalent_iff_same_paths path1 path2 p q :
  parse path1 = Ok p -> parse path2 = Ok q ->
  (is_equivalent_to p q = true <->
   forall path, is_Some (matches p path) <-> is_Some (matches q path)).
Proof.
  intros Hp%parse_wf Hq%parse_wf. rewrite is_equivalent_to_Forall2. split.
  - intros HE path. rewrite !matches_is_Some. generalize (pieces "/" path) as l. intros l.
    assert (Forall2 admits (segments p) l <-> Forall2 admits (segments q) l); [|tauto].
    clear Hp Hq. revert l. induction HE as [|a b ps qs Hab HE IH]; intros [|i l].
    + done.
    + split; intros H; by inversion H.
    + split; intros H; by inversion H.
    + rewrite !Forall2_cons, IH. assert (Hba : segment_equiv b a = true)
        by (by rewrite segment_equiv_sym).
      split; intros [Ha ?]; (split; [by eapply segment_equiv_admits | done]).
  - intros HP. pose proof (fresh_piece_good p q) as HG.
    apply (fill_both_equiv (fresh_piece p q)); [intros t; apply fresh_piece_ne | | ].
    + apply matches_fill; [done..|]. by apply HP, matches_fill_self.
    + apply matches_fill; [done..|]. by apply HP, matches_fill_self.
Qed.

Lemma equivalent_iff_same_paths_witness :
  exists p q, parse ##"/users/:id" = Ok p /\ parse ##"/users/:user_id" = Ok q /\
    forall path, is_Some (matches p path) <-> is_Some (matches q path).
Proof.
  eexists _, _. split; [vm_compute; reflexivity|]. split; [vm_compute; reflexivity|].
  apply (equivalent_iff_same_paths ##"/users/:id" ##"/users/:user_id"); vm_compute; reflexivity.
Defined.

(** a nested prefix takes over exactly the paths whose leading segments are
    the prefix's segments, never a path that merely continues the last segment's
    text, and what it passes on is an absolute path with the remaining segments. *)
Theorem nested_prefix_strips_segments prefix np path :
  prefix_parse prefix = Ok np -> starts_with ##"/" path = true ->
  contains_str ##"//" path = false ->
  (is_Some (strip np path) <-> path_segments prefix `prefix_of` path_segments path) /\
  (forall rest, strip np path = Some rest ->
     path_segments path = path_segments prefix ++ path_segments rest /\
     starts_with ##"/" rest = true).
Proof.
  intros Hp Hh Hd. rewrite !path_segments_pieces. split; [split|].
  - intros [rest Hr]. exists (pieces "/" rest). by eapply strip_pieces.
  - intros [k Hk]. by eapply strip_complete.
  - intros rest Hr. rewrite path_segments_pieces. split; [by eapply strip_pieces|].
    apply strip_Some in Hr as [[_ ->]|[[s ->] _]]; [done|]. by apply starts_with_true; exists s.
Qed.

Lemma nested_prefix_strips_segments_witness :
  exists np, prefix_parse ##"/api/v1" = Ok np /\
    is_Some (strip np ##"/api/v1/users/42") /\ strip np ##"/api/v10" = None.
Proof.
  eexists. split; [vm_compute; reflexivity|]. split; [|vm_compute; reflexivity].
  apply (nested_prefix_strips_segments ##"/api/v1"); [vm_compute; reflexivity..|].
  exists (path_segments ##"/users/42"). vm_compute. reflexivity.
Defined.
