(* ===== verification/Router.v ===== *)
(** The application router: [crates/rustee-router/src/app.rs], [dispatch.rs],
    [nesting.rs] and [handler.rs].

    An [App] is a table of routes, a table of nested services, a typed state
    store and an optional fallback. Building steps add to it; [dispatch] selects
    one endpoint for a request. *)

From Stdlib Require Import ZArith Lia Bool Ascii Sorted.
From stdpp Require Import gmap sorting.
From S2P Require Import Prelude Strings BTree Http Core HttpModel RoutePattern.

(** ** Handlers

    An extractor may consume the request body, so it returns the request. *)

Section router.
Context `{HttpApi} `{!Serialize ErrorPayload}.

Definition Endpoint : Type := Request -> RouteParams -> StateStore -> Response.

Definition FromRequest (A : Type) : Type :=
  Request -> RouteParams -> StateStore -> Request * result A Error.

(** One extractor of [impl_handler]: its error answers the request, otherwise
    the rest of the handler runs on the request it leaves. *)
Definition extract_then {A} (extract : FromRequest A) (k : A -> Endpoint) : Endpoint :=
  fun request params state =>
    match extract request params state with
    | (request', Ok value) => k value request' params state
    | (_, Err error) => into_response error
    end.

Definition handler0 {O} `{!IntoResponse O} (f : O) : Endpoint :=
  fun _ _ _ => into_response f.
Definition handler1 {A O} `{!IntoResponse O} (ea : FromRequest A) (f : A -> O) : Endpoint :=
  extract_then ea (fun a => handler0 (f a)).
Definition handler2 {A B O} `{!IntoResponse O} (ea : FromRequest A) (eb : FromRequest B)
    (f : A -> B -> O) : Endpoint :=
  extract_then ea (fun a => handler1 eb (f a)).
Definition handler3 {A B C O} `{!IntoResponse O} (ea : FromRequest A) (eb : FromRequest B)
    (ec : FromRequest C) (f : A -> B -> C -> O) : Endpoint :=
  extract_then ea (fun a => handler2 eb ec (f a)).

(** ** Data *)

Record Route : Type := {
  method : str;
  pattern : RoutePattern;
  template : RouteTemplate;
  endpoint : Endpoint;
  order : nat
}.

(** The mounted service sits behind a mutex, which a panic may poison. *)
Record NestedRoute : Type := {
  prefix : NestedPrefix;
  service : Service;
  poisoned : bool;
  nested_order : nat
}.

Record App : Type := mk_app {
  routes : list Route;
  nested_routes : list NestedRoute;
  state : StateStore;
  app_fallback : option Endpoint
}.

(** ** Building an application *)

Definition app_new : App := mk_app [] [] ∅ None.

Definition with_state (type_id handle : nat) (app : App) : App :=
  mk_app (routes app) (nested_routes app) (state_insert type_id handle (state app))
    (app_fallback app).

Definition try_route (m path : str) (handler : Endpoint) (app : App) : result App RouteError :=
  let? p := parse path in
  if existsb (fun r => str_eqb (method r) m && is_equivalent_to (pattern r) p) (routes app) then
    Err (mk_route_error ##"a route for this method and path pattern is already registered")
  else
    Ok (mk_app
      (routes app ++ [{| method := m; pattern := p; template := path; endpoint := handler;
                         order := length (routes app) |}])
      (nested_routes app) (state app) (app_fallback app)).

(** [App::route] panics on an error: no application results. *)
Definition route (m path : str) (handler : Endpoint) (app : App) : option App :=
  match try_route m path handler app with Ok app' => Some app' | Err _ => None end.

Definition GET : str := ##"GET".
Definition POST : str := ##"POST".
Definition PUT : str := ##"PUT".
Definition PATCH : str := ##"PATCH".
Definition DELETE : str := ##"DELETE".
Definition app_get := route GET.
Definition app_post := route POST.
Definition app_put := route PUT.
Definition app_patch := route PATCH.
Definition app_delete := route DELETE.

Definition try_nest (path : str) (s : Service) (app : App) : result App RouteError :=
  let? np := prefix_parse path in
  Ok (mk_app (routes app)
    (nested_routes app ++ [{| prefix := np; service := s; poisoned := false;
                              nested_order := length (nested_routes app) |}])
    (state app) (app_fallback app)).

Definition nest (path : str) (s : Service) (app : App) : option App :=
  match try_nest path s app with Ok app' => Some app' | Err _ => None end.

Definition set_fallback (handler : Endpoint) (app : App) : App :=
  mk_app (routes app) (nested_routes app) (state app) (Some handler).

(** ** Route selection *)

Definition compare_routes (l r : Route) : comparison :=
  match Nat.compare (static_segments (pattern l)) (static_segments (pattern r)) with
  | Eq => Nat.compare (order r) (order l)
  | c => c
  end.

Inductive DirectRouteSelection : Type :=
| SelMatched (r : Route) (params : RouteParams)
| SelMethodNotAllowed (allowed : list str)
| SelNoMatch.

Fixpoint select_loop (rs : list Route) (path m : str) (allowed : list str)
    (candidate : option (Route * RouteParams)) : DirectRouteSelection :=
  match rs with
  | [] =>
      match candidate with
      | Some (r, params) => SelMatched r params
      | None => match allowed with [] => SelNoMatch | _ => SelMethodNotAllowed allowed end
      end
  | r :: rs' =>
      match matches (pattern r) path with
      | None => select_loop rs' path m allowed candidate
      | Some params =>
          let allowed' := btree_insert (method r) allowed in
          if negb (str_eqb (method r) m) then select_loop rs' path m allowed' candidate
          else
            let replace := match candidate with
                           | None => true
                           | Some (current, _) =>
                               match compare_routes r current with Gt => true | _ => false end
                           end in
            select_loop rs' path m allowed' (if replace then Some (r, params) else candidate)
      end
  end.

Definition select_direct_route (rs : list Route) (path m : str) : DirectRouteSelection :=
  select_loop rs path m [] None.

Definition nested_matches (r : NestedRoute) (path : str) : bool := is_some (strip (prefix r) path).

Definition is_more_specific_than (a b : NestedRoute) : bool :=
  match Nat.compare (segment_count (prefix a)) (segment_count (prefix b)) with
  | Eq => match Nat.compare (nested_order b) (nested_order a) with Gt => true | _ => false end
  | Gt => true
  | Lt => false
  end.

Fixpoint select_nested_loop (rs : list NestedRoute) (path : str)
    (candidate : option NestedRoute) : option NestedRoute :=
  match rs with
  | [] => candidate
  | r :: rs' =>
      if negb (nested_matches r path) then select_nested_loop rs' path candidate
      else
        let replace := match candidate with
                       | None => true
                       | Some current => is_more_specific_than r current
                       end in
        select_nested_loop rs' path (if replace then Some r else candidate)
  end.

Definition select_nested_route (rs : list NestedRoute) (path : str) : option NestedRoute :=
  select_nested_loop rs path None.

(** ** Nested calls *)

Definition join_route_paths (pre path : str) : str :=
  if str_eqb pre ##"/" then path
  else if str_eqb path ##"/" then pre
  else pre ++ path.

Definition route_template_for_request (request : Request) (t : RouteTemplate) : RouteTemplate :=
  match ext_nested_prefix (req_extensions request) with
  | None => t
  | Some pre => join_route_paths pre t
  end.

Definition with_uri (u : Uri) (r : Request) : Request := {|
  req_method := req_method r;
  req_uri := u;
  req_headers := req_headers r;
  req_extensions := req_extensions r;
  req_body := req_body r
|}.

Definition replace_request_path (request : Request) (path : str) : option Request :=
  match path_and_query_from_str (path_and_query_text path (uri_query (req_uri request))) with
  | None => None
  | Some pq =>
      match uri_with_path_and_query (req_uri request) pq with
      | None => None
      | Some u => Some (with_uri u request)
      end
  end.

Definition route_not_found : Error := not_found ##"the requested route was not found".

Definition nested_call (r : NestedRoute) (request : Request) : Response :=
  match strip (prefix r) (uri_path (req_uri request)) with
  | None => into_response route_not_found
  | Some path =>
      let visible_prefix :=
        match ext_nested_prefix (req_extensions request) with
        | None => value (prefix r)
        | Some parent => join_route_paths parent (value (prefix r))
        end in
      let request := with_req_extensions (set_nested_prefix visible_prefix) request in
      match replace_request_path request path with
      | None => into_response route_not_found
      | Some request' =>
          if poisoned r then
            into_response (mk_error 500%Z ##"nested_service_unavailable"
                              ##"the nested service is unavailable")
          else call_ready (service r) request'
      end
  end.

(** ** Dispatch *)

Definition ALLOW : str := ##"allow".

Definition method_not_allowed_response (allowed : list str) : Response :=
  let r := into_response (mk_error 405%Z ##"method_not_allowed"
             ##"the route does not support this HTTP method") in
  let r := match hv_from_str (join ##", " allowed) with
           | Some v => with_headers (hm_insert ALLOW v) r
           | None => r
           end in
  with_res_extensions (set_classification MethodNotAllowed) r.

Definition dispatch (app : App) (request : Request) : Response :=
  let path := uri_path (req_uri request) in
  let m := req_method request in
  match select_direct_route (routes app) path m with
  | SelMatched r params =>
      let t := route_template_for_request request (template r) in
      let request := with_req_extensions (set_template t) request in
      let res := endpoint r request params (state app) in
      with_res_extensions (fun e => set_classification (Matched t) (set_template t e)) res
  | SelMethodNotAllowed allowed => method_not_allowed_response allowed
  | SelNoMatch =>
      match select_nested_route (nested_routes app) path with
      | Some nested => nested_call nested request
      | None =>
          match app_fallback app with
          | Some fb =>
              with_res_extensions (set_classification Fallback) (fb request [] (state app))
          | None =>
              with_res_extensions (set_classification NotFound) (into_response route_not_found)
          end
      end
  end.

(** An [App] is itself a service, so it can be nested. *)
Definition app_service (app : App) : Service := dispatch app.
End router.

(** ** Selection of a direct route *)

Section selection.
Context `{HttpApi}.
Implicit Types r : Route.

(** [r] has the method and accepts the path. *)
Definition candidate_for (path m : str) (r : Route) : Prop :=
  method r = m /\ is_Some (matches (pattern r) path).

(** [r'] does not take precedence over [r]: more static segments win, then the
    earlier registration. *)
Definition precedes (r r' : Route) : Prop :=
  static_segments (pattern r') < static_segments (pattern r) \/
  static_segments (pattern r') = static_segments (pattern r) /\ order r <= order r'.

Lemma compare_routes_Gt r r' :
  (match compare_routes r' r with Gt => true | _ => false end) = false <-> precedes r r'.
Proof.
  unfold compare_routes, precedes.
  destruct (Nat.compare_spec (static_segments (pattern r')) (static_segments (pattern r)));
    [|split; [lia | done]..|split; [done | lia]].
  destruct (Nat.compare_spec (order r) (order r')); split; try done; lia.
Qed.

Lemma precedes_trans r1 r2 r3 : precedes r1 r2 -> precedes r2 r3 -> precedes r1 r3.
Proof. unfold precedes. lia. Qed.

Lemma precedes_total r r' : ~ precedes r r' -> precedes r' r.
Proof. unfold precedes. lia. Qed.

(** [r] is selected for the method and path among [rs]. *)
Definition best_route (rs : list Route) (path m : str) (r : Route) : Prop :=
  r ∈ rs /\ candidate_for path m r /\
  forall r', r' ∈ rs -> candidate_for path m r' -> precedes r r'.

Definition allowed_methods (rs : list Route) (path : str) (l : list str) : Prop :=
  sorted_set l /\
  forall x, x ∈ l <-> exists r, r ∈ rs /\ method r = x /\ is_Some (matches (pattern r) path).

(** What each result of the selection says of the route table. *)
Definition selection_spec (rs : list Route) (path m : str) (s : DirectRouteSelection) : Prop :=
  match s with
  | SelMatched r params => best_route rs path m r /\ matches (pattern r) path = Some params
  | SelMethodNotAllowed l => allowed_methods rs path l /\ l <> [] /\ m ∉ l
  | SelNoMatch => forall r, r ∈ rs -> matches (pattern r) path = None
  end.

Definition candidate_spec (seen : list Route) (path m : str)
    (c : option (Route * RouteParams)) : Prop :=
  match c with
  | Some (r, params) => best_route seen path m r /\ matches (pattern r) path = Some params
  | None => forall r, r ∈ seen -> ~ candidate_for path m r
  end.

Lemma allowed_skip seen r path l :
  matches (pattern r) path = None -> allowed_methods seen path l ->
  allowed_methods (seen ++ [r]) path l.
Proof.
  intros Hr [HS Hl]. split; [done|]. intros x. rewrite Hl. split.
  - intros (r' & ? & ?). exists r'. set_solver.
  - intros (r' & [?| ->%list_elem_of_singleton]%elem_of_app & ? & Hs); [by exists r'|].
    rewrite Hr in Hs. by destruct Hs.
Qed.

Lemma allowed_add seen r path l ps :
  matches (pattern r) path = Some ps -> allowed_methods seen path l ->
  allowed_methods (seen ++ [r]) path (btree_insert (method r) l).
Proof.
  intros Hr [HS Hl]. split; [by apply btree_insert_sorted|].
  intros x. rewrite btree_insert_elem, Hl. split.
  - intros [->|(r' & ? & ?)]; [|exists r'; set_solver].
    exists r. split; [set_solver|]. rewrite Hr. eauto.
  - intros (r' & [?| ->%list_elem_of_singleton]%elem_of_app & <- & ?); [right; by exists r'|by left].
Qed.

Lemma best_route_snoc seen path m r r' :
  best_route seen path m r -> (candidate_for path m r' -> precedes r r') ->
  best_route (seen ++ [r']) path m r.
Proof.
  intros (Hin & Hc & HB) Hp. split_and!; [set_solver | done |].
  intros x [?| ->%list_elem_of_singleton]%elem_of_app Hx; auto.
Qed.

Lemma candidate_skip seen path m r c :
  ~ candidate_for path m r -> candidate_spec seen path m c ->
  candidate_spec (seen ++ [r]) path m c.
Proof.
  intros Hr. destruct c as [[x ps]|]; simpl.
  - intros [HB Hm]. split; [|done]. by apply best_route_snoc.
  - intros HN x [?| ->%list_elem_of_singleton]%elem_of_app; auto.
Qed.

(** One round of the loop on a route that has the method and accepts the path. *)
Lemma candidate_step seen path m r ps c :
  method r = m -> matches (pattern r) path = Some ps -> candidate_spec seen path m c ->
  candidate_spec (seen ++ [r]) path m
    (if match c with
        | None => true
        | Some (current, _) => match compare_routes r current with Gt => true | _ => false end
        end
     then Some (r, ps) else c).
Proof.
  intros Hm Hr HC.
  assert (Hcand : candidate_for path m r) by (split; [done | by rewrite Hr]).
  destruct c as [[x xs]|]; simpl in *.
  - destruct HC as [HB Hx]. destruct (match compare_routes r x with Gt => _ | _ => _ end) eqn:E.
    + split; [|done]. split_and!; [set_solver | done |].
      assert (Hrx : precedes r x).
      { apply precedes_total. intros Hp%compare_routes_Gt. congruence. }
      intros y [Hy| ->%list_elem_of_singleton]%elem_of_app Hcy; [|unfold precedes; lia].
      eapply precedes_trans; [done|]. by apply HB.
    + split; [|done]. apply best_route_snoc; [done|]. intros _. by apply compare_routes_Gt.
  - split; [|done]. split_and!; [set_solver | done |].
    intros y [Hy| ->%list_elem_of_singleton]%elem_of_app Hcy; [by apply HC in Hcy|].
    unfold precedes. lia.
Qed.

Lemma selection_done rs path m l c :
  allowed_methods rs path l -> candidate_spec rs path m c ->
  selection_spec rs path m (select_loop [] path m l c).
Proof.
  intros HA HC. destruct c as [[r ps]|]; simpl in *; [done|].
  destruct HA as [HS Hl]. destruct l as [|x l].
  - intros r Hr. destruct (matches (pattern r) path) eqn:E; [|done].
    exfalso. apply (not_elem_of_nil (method r)). apply Hl. exists r. rewrite E. eauto.
  - split; [done|]. split; [done|]. intros Hm. apply Hl in Hm as (r & Hr & Hm & ?).
    by apply (HC r).
Qed.

Lemma select_loop_spec rs seen path m l c :
  allowed_methods seen path l -> candidate_spec seen path m c ->
  selection_spec (seen ++ rs) path m (select_loop rs path m l c).
Proof.
  revert seen l c. induction rs as [|r rs IH]; intros seen l c HA HC.
  { rewrite app_nil_r. by apply selection_done. }
  rewrite (cons_middle r seen rs), app_assoc. cbn [select_loop].
  destruct (matches (pattern r) path) as [ps|] eqn:E.
  - destruct (str_eqb (method r) m) eqn:Em; simpl negb; cbv iota.
    + apply str_eqb_true in Em. apply IH; [by eapply allowed_add | by apply candidate_step].
    + apply bool_decide_eq_false in Em. apply IH; [by eapply allowed_add|].
      apply candidate_skip; [|done]. by intros [? _].
  - apply IH; [by apply allowed_skip|]. apply candidate_skip; [|done].
    intros [_ Hs]. rewrite E in Hs. by destruct Hs.
Qed.

Lemma select_direct_route_meets rs path m :
  selection_spec rs path m (select_direct_route rs path m).
Proof.
  apply (select_loop_spec rs []).
  - split; [constructor|]. intros x. split; [by intros ?%not_elem_of_nil|].
    by intros (r & ?%not_elem_of_nil & _).
  - intros r Hr. by apply not_elem_of_nil in Hr.
Qed.

Lemma select_no_match rs path m :
  (forall r, r ∈ rs -> matches (pattern r) path = None) ->
  select_direct_route rs path m = SelNoMatch.
Proof.
  unfold select_direct_route. induction rs as [|r rs IH]; intros Hno; [done|].
  cbn [select_loop]. rewrite Hno by (by left). apply IH. intros x Hx. apply Hno. by right.
Qed.

(** With distinct registration numbers the specification has one solution. *)
Lemma selection_spec_unique rs path m s1 s2 :
  (forall r r', r ∈ rs -> r' ∈ rs -> order r = order r' -> r = r') ->
  selection_spec rs path m s1 -> selection_spec rs path m s2 -> s1 = s2.
Proof.
  intros Hinj H1 H2.
  assert (HX : forall l r ps, allowed_methods rs path l /\ l <> [] /\ m ∉ l ->
            best_route rs path m r /\ matches (pattern r) path = Some ps -> False).
  { intros l r ps ([_ Hl] & _ & Hm) [(Hin & (<- & ?) & _) _]. apply Hm, Hl. eauto. }
  assert (HN : forall r ps, (forall x, x ∈ rs -> matches (pattern x) path = None) ->
            best_route rs path m r /\ matches (pattern r) path = Some ps -> False).
  { intros r ps Hno [(Hin & _) Hs]. by rewrite Hno in Hs. }
  assert (HL : forall l, allowed_methods rs path l /\ l <> [] /\ m ∉ l ->
            (forall x, x ∈ rs -> matches (pattern x) path = None) -> False).
  { intros l ([_ Hl] & Hne & _) Hno. destruct l as [|x l]; [done|].
    destruct (proj1 (Hl x)) as (r & Hr & _ & Hs); [by left|]. rewrite Hno in Hs by done.
    by destruct Hs. }
  destruct s1 as [r1 p1|l1|], s2 as [r2 p2|l2|]; simpl in *;
    try (exfalso; by eauto); try done.
  - destruct H1 as [(I1 & C1 & B1) M1], H2 as [(I2 & C2 & B2) M2].
    assert (r1 = r2) as ->; [|congruence]. apply Hinj; [done..|].
    specialize (B1 _ I2 C2). specialize (B2 _ I1 C1). unfold precedes in *. lia.
  - destruct H1 as [[S1 L1] _], H2 as [[S2 L2] _]. f_equal.
    apply sorted_set_ext; [done..|]. intros x. by rewrite L1, L2.
Qed.
End selection.

(** ** Selection of a nested service *)

Section nested_selection.
Context `{HttpApi}.
Implicit Types r : NestedRoute.

Definition nested_precedes (r r' : NestedRoute) : Prop :=
  segment_count (prefix r') < segment_count (prefix r) \/
  segment_count (prefix r') = segment_count (prefix r) /\ nested_order r <= nested_order r'.

Lemma is_more_specific_than_false r r' :
  is_more_specific_than r' r = false <-> nested_precedes r r'.
Proof.
  unfold is_more_specific_than, nested_precedes.
  destruct (Nat.compare_spec (segment_count (prefix r')) (segment_count (prefix r)));
    [|split; [lia | done]|split; [done | lia]].
  destruct (Nat.compare_spec (nested_order r) (nested_order r')); split; try done; lia.
Qed.

Definition best_nested (rs : list NestedRoute) (path : str) (r : NestedRoute) : Prop :=
  r ∈ rs /\ nested_matches r path = true /\
  forall r', r' ∈ rs -> nested_matches r' path = true -> nested_precedes r r'.

Definition nested_spec (rs : list NestedRoute) (path : str) (o : option NestedRoute) : Prop :=
  match o with
  | Some r => best_nested rs path r
  | None => forall r, r ∈ rs -> nested_matches r path = false
  end.

Lemma nested_step seen path r c :
  nested_spec seen path c -> nested_matches r path = true ->
  nested_spec (seen ++ [r]) path
    (if match c with None => true | Some current => is_more_specific_than r current end
     then Some r else c).
Proof.
  intros HC Hr. destruct c as [x|]; simpl in *.
  - destruct HC as (Hin & Hm & HB). destruct (is_more_specific_than r x) eqn:E; simpl.
    + split_and!; [set_solver | done |].
      assert (Hrx : ~ nested_precedes x r) by (by intros ?%is_more_specific_than_false; congruence).
      intros y [Hy| ->%list_elem_of_singleton]%elem_of_app Hmy;
        [specialize (HB _ Hy Hmy)|]; unfold nested_precedes in *; lia.
    + split_and!; [set_solver | done |]. apply is_more_specific_than_false in E.
      intros y [Hy| ->%list_elem_of_singleton]%elem_of_app Hmy; auto.
  - split_and!; [set_solver | done |].
    intros y [Hy| ->%list_elem_of_singleton]%elem_of_app Hmy.
    + by rewrite HC in Hmy.
    + unfold nested_precedes. lia.
Qed.

Lemma nested_skip seen path r c :
  nested_spec seen path c -> nested_matches r path = false -> nested_spec (seen ++ [r]) path c.
Proof.
  intros HC Hr. destruct c as [x|]; simpl in *.
  - destruct HC as (Hin & Hm & HB). split_and!; [set_solver | done |].
    intros y [Hy| ->%list_elem_of_singleton]%elem_of_app Hmy; [auto | congruence].
  - intros y [Hy| ->%list_elem_of_singleton]%elem_of_app; auto.
Qed.

Lemma select_nested_loop_spec rs seen path c :
  nested_spec seen path c -> nested_spec (seen ++ rs) path (select_nested_loop rs path c).
Proof.
  revert seen c. induction rs as [|r rs IH]; intros seen c HC; [by rewrite app_nil_r|].
  rewrite (cons_middle r seen rs), app_assoc. cbn [select_nested_loop].
  destruct (nested_matches r path) eqn:E; simpl negb; cbv iota.
  - apply IH. by apply nested_step.
  - apply IH. by apply nested_skip.
Qed.

Lemma select_nested_route_meets rs path : nested_spec rs path (select_nested_route rs path).
Proof. apply (select_nested_loop_spec rs []). intros r Hr. by apply not_elem_of_nil in Hr. Qed.

Lemma nested_spec_unique rs path o1 o2 :
  (forall r r', r ∈ rs -> r' ∈ rs -> nested_order r = nested_order r' -> r = r') ->
  nested_spec rs path o1 -> nested_spec rs path o2 -> o1 = o2.
Proof.
  intros Hinj H1 H2. destruct o1 as [r1|], o2 as [r2|]; simpl in *; [|exfalso..|done].
  - destruct H1 as (I1 & M1 & B1), H2 as (I2 & M2 & B2). f_equal. apply Hinj; [done..|].
    specialize (B1 _ I2 M2). specialize (B2 _ I1 M1). unfold nested_precedes in *. lia.
  - destruct H1 as (I1 & M1 & _). by rewrite H2 in M1.
  - destruct H2 as (I2 & M2 & _). by rewrite H1 in M2.
Qed.
End nested_selection.

(** ** Applications that can be built *)

Section reachability.
Context `{HttpApi}.

Inductive app_step : App -> App -> Prop :=
| step_state type_id handle app : app_step app (with_state type_id handle app)
| step_route m path handler app app' :
    try_route m path handler app = Ok app' -> app_step app app'
| step_nest path s app app' : try_nest path s app = Ok app' -> app_step app app'
| step_fallback handler app : app_step app (set_fallback handler app).

Inductive reachable : App -> Prop :=
| reach_new : reachable app_new
| reach_step app app' : reachable app -> app_step app app' -> reachable app'.

(** The route table of a built application: routes are numbered in
    registration order, each pattern is the one its template parses to, and no
    two routes for a method accept the same paths. *)
Definition wf_routes (rs : list Route) : Prop :=
  (forall i r, rs !! i = Some r -> order r = i) /\
  (forall r, r ∈ rs -> parse (template r) = Ok (pattern r)) /\
  (forall i j r r', rs !! i = Some r -> rs !! j = Some r' -> i <> j -> method r = method r' ->
     is_equivalent_to (pattern r) (pattern r') = false).

Definition wf_nested (rs : list NestedRoute) : Prop :=
  (forall i r, rs !! i = Some r -> nested_order r = i) /\
  (forall r, r ∈ rs -> exists path, prefix_parse path = Ok (prefix r)).

Definition wf_app (app : App) : Prop := wf_routes (routes app) /\ wf_nested (nested_routes app).

Lemma lookup_snoc_cases {A} (l : list A) x i y :
  (l ++ [x]) !! i = Some y -> l !! i = Some y \/ i = length l /\ y = x.
Proof.
  intros [Hy|[Hle Hy]]%lookup_app_Some; [by left|].
  apply list_lookup_singleton_Some in Hy as [? ->]. right. split; [lia | done].
Qed.

Lemma try_route_wf m path handler app app' :
  wf_app app -> try_route m path handler app = Ok app' -> wf_app app'.
Proof.
  intros [(HO & HT & HE) HN]. unfold try_route.
  destruct (parse path) as [p|] eqn:Ep; [|done].
  destruct (existsb _ (routes app)) eqn:Ex; [done|]. intros [= <-].
  apply existsb_false in Ex. rewrite Forall_forall in Ex.
  assert (Hnew : forall i r, routes app !! i = Some r -> method r = m ->
            is_equivalent_to (pattern r) p = false).
  { intros i r Hi Hm. apply list_elem_of_lookup_2, Ex in Hi.
    rewrite (proj2 (str_eqb_true (method r) m)) in Hi by done. done. }
  split; [|done]. simpl. split_and!.
  - intros i r [Hi|[-> ->]]%lookup_snoc_cases; [by apply HO | done].
  - intros r [Hr| ->%list_elem_of_singleton]%elem_of_app; [by apply HT | done].
  - intros i j r r' [Hi|[-> ->]]%lookup_snoc_cases [Hj|[-> ->]]%lookup_snoc_cases Hne Hm;
      simpl in *; [by eapply HE | by eapply Hnew | | done].
    rewrite is_equivalent_to_sym. by eapply Hnew.
Qed.

Lemma try_nest_wf path s app app' : wf_app app -> try_nest path s app = Ok app' -> wf_app app'.
Proof.
  intros [HR [HO HP]]. unfold try_nest.
  destruct (prefix_parse path) as [np|] eqn:Ep; [|done]. intros [= <-].
  split; [done|]. simpl. split.
  - intros i r [Hi|[-> ->]]%lookup_snoc_cases; [by apply HO | done].
  - intros r [Hr| ->%list_elem_of_singleton]%elem_of_app; [by apply HP | by exists path].
Qed.

Lemma reachable_wf app : reachable app -> wf_app app.
Proof.
  induction 1 as [|app app' _ IH Hs]; [by split; split_and!; intros; set_solver|].
  destruct Hs; [done | by eapply try_route_wf | by eapply try_nest_wf | done].
Qed.

Lemma wf_routes_inj rs r r' :
  wf_routes rs -> r ∈ rs -> r' ∈ rs -> order r = order r' -> r = r'.
Proof.
  intros (HO & _) [i Hi]%list_elem_of_lookup_1 [j Hj]%list_elem_of_lookup_1 He.
  rewrite (HO _ _ Hi), (HO _ _ Hj) in He. congruence.
Qed.

Lemma wf_nested_inj rs r r' :
  wf_nested rs -> r ∈ rs -> r' ∈ rs -> nested_order r = nested_order r' -> r = r'.
Proof.
  intros (HO & _) [i Hi]%list_elem_of_lookup_1 [j Hj]%list_elem_of_lookup_1 He.
  rewrite (HO _ _ Hi), (HO _ _ Hj) in He. congruence.
Qed.
End reachability.

(** ** Abstract behaviour of an application *)

Section dispatch_spec.
Context `{HttpApi} `{!Serialize ErrorPayload}.

(** What a request to an application may be answered with, stated on the
    tables and not on the selection loops. *)
Inductive answers (app : App) (request : Request) : Response -> Prop :=
| answer_matched r params t :
    best_route (routes app) (uri_path (req_uri request)) (req_method request) r ->
    matches (pattern r) (uri_path (req_uri request)) = Some params ->
    t = route_template_for_request request (template r) ->
    answers app request
      (with_res_extensions (fun e => set_classification (Matched t) (set_template t e))
         (endpoint r (with_req_extensions (set_template t) request) params (state app)))
| answer_method_not_allowed l :
    (forall r, r ∈ routes app ->
       ~ candidate_for (uri_path (req_uri request)) (req_method request) r) ->
    (exists r, r ∈ routes app /\ is_Some (matches (pattern r) (uri_path (req_uri request)))) ->
    allowed_methods (routes app) (uri_path (req_uri request)) l ->
    answers app request (method_not_allowed_response l)
| answer_nested r :
    (forall r, r ∈ routes app -> matches (pattern r) (uri_path (req_uri request)) = None) ->
    best_nested (nested_routes app) (uri_path (req_uri request)) r ->
    answers app request (nested_call r request)
| answer_fallback fb :
    (forall r, r ∈ routes app -> matches (pattern r) (uri_path (req_uri request)) = None) ->
    (forall r, r ∈ nested_routes app -> nested_matches r (uri_path (req_uri request)) = false) ->
    app_fallback app = Some fb ->
    answers app request
      (with_res_extensions (set_classification Fallback) (fb request [] (state app)))
| answer_not_found :
    (forall r, r ∈ routes app -> matches (pattern r) (uri_path (req_uri request)) = None) ->
    (forall r, r ∈ nested_routes app -> nested_matches r (uri_path (req_uri request)) = false) ->
    app_fallback app = None ->
    answers app request
      (with_res_extensions (set_classification NotFound) (into_response route_not_found)).

Lemma dispatch_answers app request : answers app request (dispatch app request).
Proof.
  unfold dispatch.
  pose proof (select_direct_route_meets (routes app) (uri_path (req_uri request))
                (req_method request)) as HS.
  destruct (select_direct_route _ _ _) as [r ps|l|]; simpl in HS.
  - destruct HS as [HB HM]. by eapply answer_matched.
  - destruct HS as ([HSo HL] & Hne & Hm). apply answer_method_not_allowed; [| | done].
    + intros r Hr [Hm' Hs]. apply Hm, HL. eauto.
    + destruct l as [|x l]; [done|]. destruct (proj1 (HL x)) as (r & ? & _ & ?); [by left|]. eauto.
  - pose proof (select_nested_route_meets (nested_routes app) (uri_path (req_uri request))) as HN.
    destruct (select_nested_route _ _) as [nr|]; simpl in HN; [by apply answer_nested|].
    destruct (app_fallback app) eqn:E; [by apply answer_fallback | by apply answer_not_found].
Qed.

(** A built application answers in no other way. *)
Lemma answers_dispatch app request res :
  wf_app app -> answers app request res -> res = dispatch app request.
Proof.
  intros [HR HN] Ha. unfold dispatch.
  pose proof (select_direct_route_meets (routes app) (uri_path (req_uri request))
                (req_method request)) as HS.
  assert (HU : forall s, selection_spec (routes app) (uri_path (req_uri request))
                 (req_method request) s ->
               select_direct_route (routes app) (uri_path (req_uri request))
                 (req_method request) = s).
  { intros s Hs. eapply selection_spec_unique; [|exact HS|exact Hs].
    intros r r'. by apply wf_routes_inj. }
  pose proof (select_nested_route_meets (nested_routes app) (uri_path (req_uri request))) as HV.
  assert (HW : forall o, nested_spec (nested_routes app) (uri_path (req_uri request)) o ->
               select_nested_route (nested_routes app) (uri_path (req_uri request)) = o).
  { intros o Ho. eapply nested_spec_unique; [|exact HV|exact Ho].
    intros r r'. by apply wf_nested_inj. }
  destruct Ha as [r ps t HB HM -> | l HC (x & Hx & Hs) [HSo HL] | r Hno HB | fb Hno Hnn Hf
                 | Hno Hnn Hf].
  - by rewrite (HU (SelMatched r ps)).
  - assert (method x ∈ l) as Hl by (apply HL; eauto).
    rewrite (HU (SelMethodNotAllowed l)); [done|]. split; [done|]. split.
    + intros ->. by apply not_elem_of_nil in Hl.
    + intros (y & Hy & Hm & ?)%HL. by apply (HC y).
  - rewrite (HU SelNoMatch) by done. by rewrite (HW (Some r)).
  - rewrite (HU SelNoMatch) by done. rewrite (HW None) by done. by rewrite Hf.
  - rewrite (HU SelNoMatch) by done. rewrite (HW None) by done. by rewrite Hf.
Qed.
End dispatch_spec.

(** ** Nested templates *)

Section nested_templates.
Context `{HttpLaws} `{!Serialize ErrorPayload}.

Lemma join_route_paths_assoc a b c :
  join_route_paths (join_route_paths a b) c = join_route_paths a (join_route_paths b c).
Proof.
  assert (Hne : forall a b : str, a <> ##"/" -> b <> ##"/" -> a ++ b <> ##"/").
  { intros x y Hx Hy E. change (lit "/") with ["/"%char] in *.
    apply app_eq_unit in E as [[_ ?]|[? _]]; done. }
  unfold join_route_paths, str_eqb.
  destruct (decide (a = ##"/")) as [->|Ha];
    [by rewrite !(bool_decide_eq_true_2 (lit "/" = lit "/")) by done|].
  rewrite (bool_decide_eq_false_2 (a = _)) by done.
  destruct (decide (b = ##"/")) as [->|Hb].
  { rewrite !(bool_decide_eq_true_2 (lit "/" = lit "/")) by done.
    by rewrite (bool_decide_eq_false_2 (a = _)). }
  rewrite !(bool_decide_eq_false_2 (b = _)) by done.
  rewrite (bool_decide_eq_false_2 (a ++ b = _)) by (by apply Hne).
  destruct (decide (c = ##"/")) as [->|Hc].
  { rewrite !(bool_decide_eq_true_2 (lit "/" = lit "/")) by done.
    by rewrite (bool_decide_eq_false_2 (b = _)). }
  rewrite !(bool_decide_eq_false_2 (c = _)) by done.
  rewrite (bool_decide_eq_false_2 (b ++ c = _)) by (by apply Hne). by rewrite app_assoc.
Qed.

Lemma dispatch_matched_template app request r ps :
  select_direct_route (routes app) (uri_path (req_uri request)) (req_method request)
    = SelMatched r ps ->
  let t := route_template_for_request request (template r) in
  ext_template (res_extensions (dispatch app request)) = Some t /\
  ext_classification (res_extensions (dispatch app request)) = Some (Matched t).
Proof. intros Hs. unfold dispatch. by rewrite Hs. Qed.

(** The request a nested service receives. *)
Lemma nested_call_request nr request rest pq u :
  strip (prefix nr) (uri_path (req_uri request)) = Some rest ->
  path_and_query_from_str (path_and_query_text rest (uri_query (req_uri request))) = Some pq ->
  uri_with_path_and_query (req_uri request) pq = Some u ->
  poisoned nr = false ->
  nested_call nr request =
    service nr (with_uri u (with_req_extensions
      (set_nested_prefix (route_template_for_request request (value (prefix nr)))) request)).
Proof.
  intros Hs Hpq Hu Hp. unfold nested_call, replace_request_path. rewrite Hs. simpl.
  by rewrite Hpq, Hu, Hp.
Qed.
End nested_templates.

(** ** Properties *)

Section properties.
Context `{HttpApi} `{!Serialize ErrorPayload}.

(** C1: dispatch refines the abstract behaviour of an application. For every
    application that can be built, the response to a request is the one and only
    response the route table, the nested services and the fallback allow:
    the most specific route for the method, else 405 when another method
    accepts the path, else the longest nested prefix, else the fallback, else
    404. *)
Theorem dispatch_refines_answers app request res :
  reachable app -> (answers app request res <-> res = dispatch app request).
Proof.
  intros Hr%reachable_wf. split; [by apply answers_dispatch|]. intros ->. apply dispatch_answers.
Qed.

(** Every application that building steps can reach has a consistent table:
    registration numbers are positions, patterns are what the templates parse
    to, nested prefixes are valid, and no two routes of one method accept the
    same paths. *)
Theorem built_app_wf app : reachable app -> wf_app app.
Proof. apply reachable_wf. Qed.

(** The selected route does not depend on the order in which the table is
    scanned: any permutation of a built application's routes selects the same
    route, the same parameters or the same list of allowed methods. *)
Theorem selection_order_independent app rs path m :
  reachable app -> routes app ≡ₚ rs ->
  select_direct_route rs path m = select_direct_route (routes app) path m.
Proof.
  intros [HR _]%reachable_wf HP.
  pose proof (select_direct_route_meets rs path m) as H1.
  eapply (selection_spec_unique rs).
  - intros r r' Hr Hr'. rewrite <- HP in Hr, Hr'. by apply (wf_routes_inj (routes app)).
  - exact H1.
  - pose proof (select_direct_route_meets (routes app) path m) as H2.
    destruct (select_direct_route (routes app) path m); simpl in *.
    + destruct H2 as [(Hi & Hc & HB) Hm]. split; [|done]. split_and!; [by rewrite <- HP | done |].
      intros r' Hr'. rewrite <- HP in Hr'. by apply HB.
    + destruct H2 as ([HS HL] & Hne & Hm). split_and!; [|done..]. split; [done|].
      intros x. rewrite HL. setoid_rewrite HP. done.
    + intros r Hr. rewrite <- HP in Hr. by apply H2.
Qed.
End properties.

(** A route of a nested application is reported under the externally visible
    template. When a parent passes a request to a child application mounted
    under a prefix, and the child matches a route, the response carries the
    prefix joined with the child's template, itself joined with whatever prefix
    the parent was reached through. *)
Theorem nested_template_composes `{HttpLaws} `{!Serialize ErrorPayload}
    (parent child : App) nr request rest pq u cr ps :
  (forall r, r ∈ routes parent -> matches (pattern r) (uri_path (req_uri request)) = None) ->
  select_nested_route (nested_routes parent) (uri_path (req_uri request)) = Some nr ->
  service nr = app_service child -> poisoned nr = false ->
  strip (prefix nr) (uri_path (req_uri request)) = Some rest ->
  contains_any ##"?#" rest = false ->
  path_and_query_from_str (path_and_query_text rest (uri_query (req_uri request))) = Some pq ->
  uri_with_path_and_query (req_uri request) pq = Some u ->
  select_direct_route (routes child) rest (req_method request) = SelMatched cr ps ->
  let t := route_template_for_request request
             (join_route_paths (value (prefix nr)) (template cr)) in
  ext_template (res_extensions (dispatch parent request)) = Some t /\
  ext_classification (res_extensions (dispatch parent request)) = Some (Matched t).
Proof.
  intros Hno Hsel Hsvc Hpoi Hstrip Hclean Hpq Hu Hchild t.
  assert (Hrest : starts_with ##"/" rest = true).
  { apply strip_Some in Hstrip as [[_ ->]|[[s ->] _]]; [done|]. apply starts_with_true. by exists s. }
  assert (HD : dispatch parent request = nested_call nr request).
  { unfold dispatch. by rewrite (select_no_match _ _ _ Hno), Hsel. }
  rewrite HD, (nested_call_request nr request rest pq u), Hsvc by done.
  assert (Hpath : uri_path u = rest) by (by eapply uri_with_path_and_query_path).
  match goal with |- context [app_service child ?q] =>
    pose proof (dispatch_matched_template child q cr ps) as HM end.
  simpl in HM. rewrite Hpath in HM. specialize (HM Hchild).
  assert (Ht : route_template_for_request
                 (with_uri u (with_req_extensions (set_nested_prefix
                    (route_template_for_request request (value (prefix nr)))) request))
                 (template cr) = t).
  { subst t. unfold route_template_for_request at 1. simpl. unfold route_template_for_request.
    destruct (ext_nested_prefix (req_extensions request)); [by rewrite join_route_paths_assoc | done]. }
  by rewrite Ht in HM.
Qed.

(** ** Witnesses *)

Module RouterExamples.
Import HttpModel.

Definition hello : Endpoint := handler0 (##"hello" : str).

Definition user_route : Route := {|
  method := GET;
  pattern := mk_pattern [Static ##"users"; Param ##"id"] 1;
  template := ##"/users/:id";
  endpoint := hello;
  order := 0
|}.
Definition child : App := mk_app [user_route] [] ∅ None.

Definition api_mount : NestedRoute := {|
  prefix := mk_prefix ##"/api" 1;
  service := app_service child;
  poisoned := false;
  nested_order := 0
|}.
Definition parent : App := mk_app [] [api_mount] ∅ None.

Lemma child_reachable : reachable child.
Proof.
  eapply reach_step; [apply reach_new|]. apply (step_route GET ##"/users/:id" hello).
  unfold try_route.
  assert (parse ##"/users/:id" = Ok (pattern user_route)) as -> by (vm_compute; reflexivity).
  reflexivity.
Qed.

Lemma parent_reachable : reachable parent.
Proof.
  eapply reach_step; [apply reach_new|]. apply (step_nest ##"/api" (app_service child)).
  unfold try_nest.
  assert (prefix_parse ##"/api" = Ok (prefix api_mount)) as -> by (vm_compute; reflexivity).
  reflexivity.
Qed.
Lemma dispatch_refines_answers_witness :
  answers child (HttpModel.request POST ##"/users/7")
    (method_not_allowed_response [GET]).
Proof.
  apply (dispatch_refines_answers child _ _ child_reachable).
  vm_compute. reflexivity.
Defined.

Lemma built_app_wf_witness : wf_app parent.
Proof. apply (built_app_wf parent), parent_reachable. Defined.

Lemma selection_order_independent_witness :
  select_direct_route (rev (routes child)) ##"/users/7" GET
  = select_direct_route (routes child) ##"/users/7" GET.
Proof.
  apply (selection_order_independent child);
    [apply child_reachable | reflexivity].
Defined.

Lemma nested_template_composes_witness :
  ext_classification (res_extensions
    (dispatch parent (HttpModel.request GET ##"/api/users/7")))
  = Some (Matched ##"/api/users/:id").
Proof.
  destruct (nested_template_composes parent child
    api_mount (HttpModel.request GET ##"/api/users/7") ##"/users/7"
    {| HttpModel.u_path := ##"/users/7"; HttpModel.u_query := None |}
    {| HttpModel.u_path := ##"/users/7"; HttpModel.u_query := None |}
    user_route [(##"id", ##"7")]) as [_ HC];
    [intros r Hr; by apply not_elem_of_nil in Hr | reflexivity.. | exact HC].
Defined.
End RouterExamples.
