(* ===== verification/Range.v ===== *)
(** Byte ranges: [crates/rustee-static/src/range.rs].

    Parsing of a [Range] header into bounded members, the normalization of a
    range set and the [If-Range] precondition. *)

From Stdlib Require Import ZArith Lia Bool Ascii Sorted.
From stdpp Require Import sets sorting.
From S2P Require Import Prelude Strings Http Core.

Local Open Scope Z_scope.

(** ** Data *)

Definition MAX_MULTIPART_RANGES : nat := 16.
Definition MAX_RANGE_MEMBERS : nat := 64.

Record ByteRange : Type := mk_range { start : Z; end_ : Z }.
#[export] Instance ByteRange_eq_dec : EqDecision ByteRange.
Proof. solve_decision. Defined.

Definition wrap_u64 (z : Z) : Z := z mod (u64_max + 1).

(** [ByteRange::len], with the wrap-around of [u64]. *)
Definition range_len (r : ByteRange) : Z := wrap_u64 (wrap_u64 (end_ r - start r) + 1).

Inductive RequestedRange : Type :=
| Full
| Partial (r : ByteRange)
| Multipart (rs : list ByteRange)
| Unsatisfiable.

(** ** One member *)

Definition parse_u64 : str -> option Z := parse_unsigned u64_max.

Definition parse_range_member (specifier : str) (length : Z) : result (option ByteRange) unit :=
  match split_once "-" specifier with
  | None => Err tt
  | Some (s, e) =>
      if negb (nonempty s) then
        match parse_u64 e with
        | None => Err tt
        | Some suffix_length =>
            if (suffix_length =? 0) || (length =? 0) then Ok None
            else Ok (Some (mk_range (saturating_sub length suffix_length) (length - 1)))
        end
      else
        match parse_u64 s with
        | None => Err tt
        | Some s =>
            if length <=? s then Ok None
            else
              let? e :=
                (if negb (nonempty e) then Ok (length - 1)
                 else match parse_u64 e with
                      | None => Err tt
                      | Some e => Ok (Z.min e (length - 1))
                      end) in
              if e <? s then Err tt else Ok (Some (mk_range s e))
        end
  end.

(** ** The set *)

(** The first loop: at most [MAX_RANGE_MEMBERS] members, all well formed. *)
Fixpoint parse_members (index : nat) (members : list str) (length : Z)
    (ranges : list ByteRange) : option (list ByteRange) :=
  match members with
  | [] => Some ranges
  | m :: rest =>
      if (MAX_RANGE_MEMBERS <=? index)%nat then None
      else match parse_range_member (trim m) length with
           | Ok (Some r) => parse_members (S index) rest length (ranges ++ [r])
           | Ok None => parse_members (S index) rest length ranges
           | Err _ => None
           end
  end.

(** The sort key [(start, end)]. *)
Definition range_le (a b : ByteRange) : Prop :=
  start a < start b \/ start a = start b /\ end_ a <= end_ b.
#[export] Instance range_le_dec : RelDecision range_le.
Proof. intros a b. unfold range_le. apply _. Defined.
#[export] Instance range_le_total : Total range_le.
Proof. intros a b. unfold range_le. lia. Qed.
#[export] Instance range_le_trans : Transitive range_le.
Proof. intros a b c. unfold range_le. lia. Qed.

(** The second loop: merge a range into the last one when they touch. *)
Fixpoint normalize (ranges normalized : list ByteRange) : list ByteRange :=
  match ranges with
  | [] => normalized
  | r :: rest =>
      match last normalized with
      | Some previous =>
          if start r <=? saturating_add u64_max (end_ previous) 1
          then normalize rest (removelast normalized
                 ++ [mk_range (start previous) (Z.max (end_ previous) (end_ r))])
          else normalize rest (normalized ++ [r])
      | None => normalize rest (normalized ++ [r])
      end
  end.

Definition parse_range_set (specifier : str) (length : Z) : RequestedRange :=
  match parse_members 0 (split "," specifier) length [] with
  | None => Unsatisfiable
  | Some [] => Unsatisfiable
  | Some ranges =>
      let normalized := normalize (merge_sort range_le ranges) [] in
      if (MAX_MULTIPART_RANGES <? List.length normalized)%nat then Unsatisfiable
      else match normalized with
           | [r] => Partial r
           | _ => Multipart normalized
           end
  end.

(** ** Preconditions and headers *)

(** Instants are nanoseconds from the Unix epoch. *)
Definition SystemTime : Type := Z.
Definition nanos_per_second : Z := 1000000000.

Definition truncate_to_seconds (t : SystemTime) : option SystemTime :=
  if t <? 0 then None else Some (t / nanos_per_second * nanos_per_second).

Section requests.
Context `{HttpApi}.
(** [httpdate::parse_http_date]. *)
Context (parse_http_date : str -> option SystemTime).

Record CacheValidators : Type := {
  etag : HeaderValue;
  last_modified : HeaderValue;
  modified : SystemTime
}.

Definition if_range_matches (headers : HeaderMap) (validators : option CacheValidators) : bool :=
  match hm_get_all IF_RANGE headers with
  | [] => true
  | _ :: _ :: _ => false
  | [v] =>
      match validators with
      | None => false
      | Some validators =>
          match hv_to_str v with
          | None => false
          | Some text =>
              match parse_http_date text with
              | None => false
              | Some date =>
                  match truncate_to_seconds (modified validators) with
                  | Some m => m <=? date
                  | None => false
                  end
              end
          end
      end
  end.

Definition requested_range (headers : HeaderMap) (length : Z)
    (validators : option CacheValidators) : RequestedRange :=
  match hm_get_all RANGE headers with
  | [] => Full
  | _ :: _ :: _ => Unsatisfiable
  | [v] =>
      match hv_to_str v with
      | None => Unsatisfiable
      | Some text =>
          match split_once "=" (trim text) with
          | None => Unsatisfiable
          | Some (unit, specifier) =>
              if negb (eq_ignore_ascii_case unit ##"bytes") then Full
              else if negb (if_range_matches headers validators) then Full
              else parse_range_set (trim specifier) length
          end
      end
  end.

(** The [expect] of [from_str] is [None] here; [content_range_header_total] shows
    that it never fires. *)
Definition content_range_header (r : ByteRange) (length : Z) : option HeaderValue :=
  hv_from_str (##"bytes " ++ to_dec (start r) ++ ##"-" ++ to_dec (end_ r) ++ ##"/" ++ to_dec length).

Definition unsatisfied_content_range_header (length : Z) : option HeaderValue :=
  hv_from_str (##"bytes */" ++ to_dec length).
End requests.

(** ** Lemmas: members *)

(** A range inside a representation of the given length. *)
Definition in_bounds (length : Z) (r : ByteRange) : Prop :=
  0 <= start r /\ start r <= end_ r /\ end_ r < length.

(** The positions a range selects. *)
Definition selects (r : ByteRange) (i : Z) : Prop := start r <= i <= end_ r.

Lemma parse_range_member_bounds s length r :
  0 <= length <= u64_max -> parse_range_member s length = Ok (Some r) -> in_bounds length r.
Proof.
  intros Hl HP. unfold parse_range_member, in_bounds, saturating_sub in *.
  destruct (split_once "-" s) as [[a b]|]; [|done].
  destruct (negb (nonempty a)).
  - destruct (parse_u64 b) as [n|] eqn:En; [|done].
    apply parse_unsigned_bound in En. destruct (n =? 0) eqn:E1, (length =? 0) eqn:E2; simp. lia.
  - destruct (parse_u64 a) as [x|] eqn:Ex; [|done]. apply parse_unsigned_bound in Ex.
    destruct (length <=? x) eqn:E1; [done|].
    destruct (negb (nonempty b)).
    + destruct (length - 1 <? x) eqn:E2; simp. lia.
    + destruct (parse_u64 b) as [y|] eqn:Ey; [|done].
      destruct (Z.min y (length - 1) <? x) eqn:E2; simp. lia.
Qed.

Lemma parse_members_Some index ms length acc ranges :
  parse_members index ms length acc = Some ranges ->
  exists found, ranges = acc ++ found /\
    (index + List.length ms <= MAX_RANGE_MEMBERS \/ ms = [])%nat /\
    (forall m, m ∈ ms -> is_ok (parse_range_member (trim m) length) = true) /\
    (forall r, r ∈ found <-> exists m, m ∈ ms /\ parse_range_member (trim m) length = Ok (Some r)).
Proof.
  revert index acc. induction ms as [|m ms IH]; intros index acc; cbn [parse_members].
  - intros [= <-]. exists []. rewrite app_nil_r. split_and!; [done | by right | set_solver |].
    intros r. split; [by intros ?%not_elem_of_nil | by intros (? & ?%not_elem_of_nil & _)].
  - destruct (MAX_RANGE_MEMBERS <=? index)%nat eqn:Ei; [done|]. apply Nat.leb_gt in Ei.
    destruct (parse_range_member (trim m) length) as [[r|]|] eqn:Em; [| |done]; intros Hp;
      apply IH in Hp as (found & -> & Hlen & Hok & Hf).
    + exists (r :: found). rewrite <- app_assoc. split_and!; [done | | |].
      * left. destruct Hlen as [?| ->]; simpl; lia.
      * intros x [->|Hx]%elem_of_cons; [by rewrite Em | auto].
      * intros x. rewrite elem_of_cons, Hf. split.
        -- intros [->|(y & ? & ?)]; [exists m | exists y]; (split; [|done]); by (left || right).
        -- intros (y & [->|?]%elem_of_cons & ?); [left; congruence | right; eauto].
    + exists found. split_and!; [done | | |].
      * left. destruct Hlen as [?| ->]; simpl; lia.
      * intros x [->|Hx]%elem_of_cons; [by rewrite Em | auto].
      * intros x. rewrite Hf. split.
        -- intros (y & ? & ?). exists y. split; [by right | done].
        -- intros (y & [->|?]%elem_of_cons & ?); [congruence | eauto].
Qed.

(** ** Lemmas: normalization *)

(** The merge loop with the last range held apart. *)
Fixpoint merge_from (previous : ByteRange) (ranges : list ByteRange) : list ByteRange :=
  match ranges with
  | [] => [previous]
  | r :: rest =>
      if start r <=? saturating_add u64_max (end_ previous) 1
      then merge_from (mk_range (start previous) (Z.max (end_ previous) (end_ r))) rest
      else previous :: merge_from r rest
  end.

Lemma normalize_merge_from ranges acc previous :
  normalize ranges (acc ++ [previous]) = acc ++ merge_from previous ranges.
Proof.
  revert acc previous. induction ranges as [|r rest IH]; intros acc previous; simpl; [done|].
  rewrite last_snoc. destruct (start r <=? _).
  - rewrite removelast_last. apply IH.
  - rewrite IH, <- app_assoc. done.
Qed.

Lemma normalize_cons r rest : normalize (r :: rest) [] = merge_from r rest.
Proof. simpl. apply (normalize_merge_from rest [] r). Qed.

(** Strictly ascending ranges with a gap between neighbours. *)
Definition separated (l : list ByteRange) : Prop :=
  StronglySorted (fun a b => end_ a + 1 < start b) l.

Lemma merge_from_bounds length previous ranges :
  in_bounds length previous -> Forall (in_bounds length) ranges ->
  Forall (in_bounds length) (merge_from previous ranges).
Proof.
  intros Hp Hr. revert previous Hp. induction Hr as [|r rest Hr _ IH]; intros previous Hp; simpl.
  - by constructor.
  - destruct (start r <=? _); [|by constructor; auto]. apply IH.
    unfold in_bounds in *. simpl. lia.
Qed.

Lemma merge_from_separated length previous ranges :
  length <= u64_max -> in_bounds length previous -> Forall (in_bounds length) ranges ->
  StronglySorted (fun a b => start a <= start b) (previous :: ranges) ->
  separated (merge_from previous ranges) /\
  Forall (fun x => start previous <= start x) (merge_from previous ranges).
Proof.
  intros Hl. revert previous. induction ranges as [|r rest IH]; intros previous Hp Hr HS; simpl.
  { split; repeat constructor. lia. }
  apply StronglySorted_inv in HS as [HS HF]. apply Forall_cons in HF as [Hpr HF].
  apply Forall_cons in Hr as [Hb Hr].
  destruct (start r <=? saturating_add u64_max (end_ previous) 1) eqn:E.
  - apply (IH (mk_range (start previous) (Z.max (end_ previous) (end_ r)))).
    + unfold in_bounds in *. simpl. lia.
    + done.
    + apply StronglySorted_inv in HS as [HS _]. constructor; done.
  - destruct (IH r Hb Hr HS) as [H1 H2]. apply Z.leb_gt in E. unfold saturating_add in E.
    unfold in_bounds in *. split.
    + constructor; [done|]. eapply Forall_impl; [exact H2|]. simpl. lia.
    + constructor; [lia|]. eapply Forall_impl; [exact H2|]. simpl. lia.
Qed.

Lemma merge_from_selects length previous ranges i :
  length <= u64_max -> in_bounds length previous -> Forall (in_bounds length) ranges ->
  StronglySorted (fun a b => start a <= start b) (previous :: ranges) ->
  Exists (fun r => selects r i) (merge_from previous ranges) <->
  Exists (fun r => selects r i) (previous :: ranges).
Proof.
  intros Hl. revert previous. induction ranges as [|r rest IH]; intros previous Hp Hr HS; simpl;
    [done|].
  apply StronglySorted_inv in HS as [HS HF]. apply Forall_cons in HF as [Hpr HF].
  apply Forall_cons in Hr as [Hb Hr].
  destruct (start r <=? saturating_add u64_max (end_ previous) 1) eqn:E.
  - rewrite IH.
    + rewrite !Exists_cons. unfold selects at 1 3 4. simpl. apply Z.leb_le in E.
      unfold saturating_add, in_bounds in *.
      assert (start previous <= i <= Z.max (end_ previous) (end_ r) <->
              start previous <= i <= end_ previous \/ start r <= i <= end_ r) by lia.
      tauto.
    + unfold in_bounds in *. simpl. lia.
    + done.
    + apply StronglySorted_inv in HS as [HS _]. constructor; done.
  - rewrite !(Exists_cons _ previous), IH by done. done.
Qed.

(** ** Lemmas: the canonical form of a set of positions *)

Lemma separated_above a l i :
  separated (a :: l) -> Exists (fun r => selects r i) l -> end_ a + 1 < i.
Proof.
  intros [_ HF]%StronglySorted_inv (r & Hr & Hi)%list.Exists_exists.
  rewrite Forall_forall in HF. specialize (HF r Hr). unfold selects in Hi. simpl in HF. lia.
Qed.

Lemma separated_head_min a b l k length :
  separated (b :: k) -> in_bounds length a ->
  (forall i, Exists (fun r => selects r i) (a :: l) -> Exists (fun r => selects r i) (b :: k)) ->
  Forall (in_bounds length) (b :: k) -> start b <= start a.
Proof.
  intros HS Ha Hsub HB.
  assert (HE : Exists (fun r => selects r (start a)) (b :: k)).
  { apply Hsub. left. unfold selects. unfold in_bounds in Ha. lia. }
  apply Exists_cons in HE as [HE|HE]; [unfold selects in HE; lia|].
  apply (separated_above b) in HE; [|done]. apply Forall_cons in HB as [HB _].
  unfold in_bounds in HB. lia.
Qed.

(** Two separated lists that select the same positions are equal. *)
Lemma separated_unique length l k :
  separated l -> separated k -> Forall (in_bounds length) l -> Forall (in_bounds length) k ->
  (forall i, Exists (fun r => selects r i) l <-> Exists (fun r => selects r i) k) -> l = k.
Proof.
  revert k. induction l as [|a l IH]; intros [|b k] Hl Hk Bl Bk Hext.
  - done.
  - exfalso. apply Forall_cons in Bk as [Bb _]. apply (Exists_nil (fun r => selects r (start b))).
    apply Hext. left. unfold in_bounds, selects in *. lia.
  - exfalso. apply Forall_cons in Bl as [Ba _]. apply (Exists_nil (fun r => selects r (start a))).
    apply Hext. left. unfold in_bounds, selects in *. lia.
  - pose proof (separated_head_min a b l k length Hk) as M1.
    pose proof (separated_head_min b a k l length Hl) as M2.
    apply Forall_cons in Bl as Bl', Bk as Bk'. destruct Bl' as [Ba Bl'], Bk' as [Bb Bk'].
    specialize (M1 Ba (fun i => proj1 (Hext i)) Bk). specialize (M2 Bb (fun i => proj2 (Hext i)) Bl).
    assert (HE : forall x y m n, start x = start y -> in_bounds length x -> in_bounds length y ->
              separated (x :: m) ->
              (forall i, Exists (fun r => selects r i) (y :: n) ->
                 Exists (fun r => selects r i) (x :: m)) -> end_ y <= end_ x).
    { clear. intros x y m n Hxy Hx Hy HS Hsub. destruct (Z.le_gt_cases (end_ y) (end_ x)); [done|].
      assert (Hi : Exists (fun r => selects r (end_ x + 1)) (x :: m)).
      { apply Hsub. left. unfold selects, in_bounds in *. lia. }
      apply Exists_cons in Hi as [Hi|Hi]; [unfold selects in Hi; lia|].
      apply (separated_above x) in Hi; [lia | done]. }
    assert (a = b) as ->.
    { assert (Hs : start a = start b) by lia.
      pose proof (HE a b l k Hs Ba Bb Hl (fun i => proj2 (Hext i))).
      pose proof (HE b a k l (eq_sym Hs) Bb Ba Hk (fun i => proj1 (Hext i))).
      destruct a, b; simpl in *. f_equal; lia. }
    f_equal. apply IH; [by apply StronglySorted_inv in Hl as [? _]
                       | by apply StronglySorted_inv in Hk as [? _] | done | done |].
    intros i. split; intros Hi.
    + pose proof (separated_above _ _ _ Hl Hi) as Ha. apply (Exists_cons_tl b), Hext in Hi.
      apply Exists_cons in Hi as [Hi|Hi]; [unfold selects in Hi; lia | done].
    + pose proof (separated_above _ _ _ Hk Hi) as Ha. apply (Exists_cons_tl b), Hext in Hi.
      apply Exists_cons in Hi as [Hi|Hi]; [unfold selects in Hi; lia | done].
Qed.

(** ** Lemmas: the whole set *)

(** Position [i] is asked for by some member of the specifier. *)
Definition requested (specifier : str) (length i : Z) : Prop :=
  exists m r, m ∈ split "," specifier /\
    parse_range_member (trim m) length = Ok (Some r) /\ selects r i.

(** The response a canonical list of ranges stands for. *)
Definition of_ranges (l : list ByteRange) : RequestedRange :=
  match l with [] => Unsatisfiable | [r] => Partial r | _ => Multipart l end.

Lemma sort_starts l :
  StronglySorted (fun a b => start a <= start b) (merge_sort range_le l).
Proof.
  induction (StronglySorted_merge_sort range_le l) as [|a k _ IH HF]; constructor; [done|].
  eapply Forall_impl; [exact HF|]. intros b. unfold range_le. lia.
Qed.

Lemma normalize_sorted length ranges :
  length <= u64_max -> Forall (in_bounds length) ranges -> ranges <> [] ->
  let l := normalize (merge_sort range_le ranges) [] in
  l <> [] /\ separated l /\ Forall (in_bounds length) l /\
  forall i, Exists (fun r => selects r i) l <-> Exists (fun r => selects r i) ranges.
Proof.
  intros Hl HB Hne. pose proof (merge_sort_Permutation range_le ranges) as HP.
  pose proof (sort_starts ranges) as HS.
  rewrite <- HP in HB. destruct (merge_sort range_le ranges) as [|r rest] eqn:E.
  { by apply Permutation_nil_l in HP. }
  rewrite normalize_cons. apply Forall_cons in HB as [Hr HB].
  destruct (merge_from_separated length r rest Hl Hr HB HS) as [H1 _].
  simpl. split_and!; [| done | by apply merge_from_bounds |].
  - destruct rest; simpl; [done|]. clear. destruct (start b <=? _); [|done].
    generalize (mk_range (start r) (Z.max (end_ r) (end_ b))). induction rest as [|c rest IH];
      intros p; simpl; [done|]. destruct (start c <=? _); [apply IH | done].
  - intros i. rewrite (merge_from_selects length) by done. rewrite HP. done.
Qed.

Lemma parse_range_set_cases s length :
  0 <= length <= u64_max ->
  parse_range_set s length = Unsatisfiable \/
  exists l, parse_range_set s length = of_ranges l /\ l <> [] /\
    (List.length l <= MAX_MULTIPART_RANGES)%nat /\ separated l /\ Forall (in_bounds length) l /\
    forall i, Exists (fun r => selects r i) l <-> requested s length i.
Proof.
  intros Hl. unfold parse_range_set.
  destruct (parse_members 0 (split "," s) length []) as [ranges|] eqn:E; [|by left].
  apply parse_members_Some in E as (found & -> & _ & _ & Hf). simpl app.
  destruct found as [|r0 found'] eqn:Ef; [by left|]. rewrite <- Ef in *.
  assert (HB : Forall (in_bounds length) found).
  { apply Forall_forall. intros r (m & _ & Hm)%Hf. by eapply parse_range_member_bounds. }
  destruct (normalize_sorted length found) as (Hne & HS & HBl & Hsel); [lia | done | by subst |].
  destruct (MAX_MULTIPART_RANGES <? _)%nat eqn:En; [by left|]. apply Nat.ltb_ge in En.
  right. exists (normalize (merge_sort range_le found) []).
  split; [by destruct (normalize _ _) as [|? []]|].
  split_and!; [done..|]. intros i. rewrite Hsel, list.Exists_exists. unfold requested.
  setoid_rewrite Hf. naive_solver.
Qed.

Lemma parse_members_total index ms length acc :
  (index + List.length ms <= MAX_RANGE_MEMBERS)%nat ->
  (forall m, m ∈ ms -> is_ok (parse_range_member (trim m) length) = true) ->
  is_Some (parse_members index ms length acc).
Proof.
  revert index acc. induction ms as [|m ms IH]; intros index acc Hlen Hok; cbn [parse_members];
    [eauto|]. simpl in Hlen. rewrite (proj2 (Nat.leb_gt _ _)) by lia.
  specialize (Hok m ltac:(by left)) as Hm.
  destruct (parse_range_member (trim m) length) as [[r|]|]; [| |done];
    (apply IH; [lia|]); intros x Hx; apply Hok; by right.
Qed.

(** The [u64] arithmetic of [len] never wraps on a bounded range. *)
Lemma range_len_bounded length r :
  length <= u64_max -> in_bounds length r -> range_len r = end_ r - start r + 1.
Proof.
  intros Hl Hb. unfold in_bounds, range_len, wrap_u64 in *.
  rewrite (Z.mod_small (end_ r - start r)) by lia. apply Z.mod_small. lia.
Qed.

Lemma to_dec_no c n : 0 <= n -> is_ascii_digit c = false -> c ∉ to_dec n.
Proof.
  intros Hn Hc Hin. pose proof (to_dec_digits n Hn) as HF. rewrite Forall_forall in HF.
  apply HF in Hin. congruence.
Qed.

Lemma split_once_dec n rest : 0 <= n -> split_once "-" (to_dec n ++ ##"-" ++ rest) = Some (to_dec n, rest).
Proof. intros Hn. apply split_once_Some. split; [done|]. by apply to_dec_no. Qed.

Lemma nonempty_to_dec n : nonempty (to_dec n) = true.
Proof. pose proof (to_dec_nonnil n). by destruct (to_dec n). Qed.

Lemma content_range_visible r length :
  0 <= start r -> 0 <= end_ r -> 0 <= length ->
  forallb visible (##"bytes " ++ to_dec (start r) ++ ##"-" ++ to_dec (end_ r) ++ ##"/" ++ to_dec length)
    = true.
Proof.
  intros H1 H2 H3.
  assert (HD : forall n, 0 <= n -> forallb visible (to_dec n) = true).
  { intros n Hn. apply forallb_Forall. eapply Forall_impl; [by apply to_dec_digits|].
    intros c. unfold is_ascii_digit, visible, in_range. simpl. lia. }
  rewrite !forallb_app, !HD by done. reflexivity.
Qed.

(** The header of a bounded range is always a valid header value. *)
Lemma content_range_header_total `{HttpLaws} r length :
  in_bounds length r ->
  exists v, content_range_header r length = Some v /\
    hv_as_bytes v = ##"bytes " ++ to_dec (start r) ++ ##"-" ++ to_dec (end_ r) ++ ##"/" ++ to_dec length.
Proof.
  intros Hb. unfold in_bounds in Hb.
  destruct (hv_from_str_visible _ (content_range_visible r length ltac:(lia) ltac:(lia) ltac:(lia)))
    as [v Hv].
  exists v. split; [done | by apply hv_from_str_Some].
Qed.

(** ** Properties *)

(** A satisfiable range set is answered in canonical form. The ranges lie inside
    the representation, ascend with a gap between neighbours (so none overlap or
    touch), number at most sixteen, are a single part exactly when one remains,
    and select exactly the positions the members of the header ask for. *)
Theorem range_set_canonical s length :
  0 <= length <= u64_max ->
  match parse_range_set s length with
  | Full => False
  | Unsatisfiable => True
  | Partial r => in_bounds length r /\ forall i, selects r i <-> requested s length i
  | Multipart l =>
      (2 <= List.length l <= 16)%nat /\ separated l /\ Forall (in_bounds length) l /\
      forall i, Exists (fun r => selects r i) l <-> requested s length i
  end.
Proof.
  intros Hl. destruct (parse_range_set_cases s length Hl) as [->|(l & -> & Hne & Hlen & HS & HB & Hi)];
    [done|].
  destruct l as [|r [|r' l]]; simpl in *; [done| |].
  - split; [by apply Forall_cons in HB as [? _]|]. intros i. rewrite <- Hi, Exists_cons, Exists_nil.
    tauto.
  - unfold MAX_MULTIPART_RANGES in Hlen. split_and!; [lia | lia | done..].
Qed.

Lemma range_set_canonical_witness :
  exists l, parse_range_set ##"0-1, 4-5 ,2-2,-2" 10 = Multipart l /\ separated l.
Proof.
  pose proof (range_set_canonical ##"0-1, 4-5 ,2-2,-2" 10 ltac:(unfold u64_max; lia)) as HC.
  destruct (parse_range_set ##"0-1, 4-5 ,2-2,-2" 10) as [|r|l|] eqn:E;
    [done | vm_compute in E; discriminate | | vm_compute in E; discriminate].
  exists l. split; [done | apply HC].
Defined.

(** the answer is determined by the positions asked for. When a header has at
    most 64 members, all well formed, and the requested positions are those of a
    non-empty gap-separated list of at most sixteen ranges, that list is the
    answer: a satisfiable request is never refused, whatever the order, overlap
    or duplication of its members. *)
Theorem range_set_complete s length l :
  0 <= length <= u64_max ->
  (List.length (split "," s) <= 64)%nat ->
  (forall m, m ∈ split "," s -> is_ok (parse_range_member (trim m) length) = true) ->
  l <> [] -> (List.length l <= 16)%nat -> separated l -> Forall (in_bounds length) l ->
  (forall i, Exists (fun r => selects r i) l <-> requested s length i) ->
  parse_range_set s length = of_ranges l.
Proof.
  intros Hl Hms Hok Hne Hlen HS HB Hi.
  destruct (parse_members_total 0 (split "," s) length [] Hms Hok) as [ranges E].
  unfold parse_range_set. rewrite E. apply parse_members_Some in E as (found & -> & _ & _ & Hf).
  simpl app.
  assert (HBf : Forall (in_bounds length) found).
  { apply Forall_forall. intros r (m & _ & Hm)%Hf. by eapply parse_range_member_bounds. }
  assert (Hreq : forall i, Exists (fun r => selects r i) found <-> requested s length i).
  { intros i. rewrite list.Exists_exists. unfold requested. setoid_rewrite Hf. naive_solver. }
  assert (Hfne : found <> []).
  { intros ->. destruct l as [|r l]; [done|]. apply Forall_cons in HB as [Hr _].
    apply (Exists_nil (fun x => selects x (start r))), Hreq, Hi. left. unfold selects, in_bounds in *. lia. }
  destruct (normalize_sorted length found) as (_ & HSn & HBn & Hn); [lia | done.. |].
  assert (normalize (merge_sort range_le found) [] = l) as ->.
  { apply (separated_unique length); [done..|]. intros i. by rewrite Hn, Hreq, Hi. }
  destruct found as [|f found]; [done|].
  rewrite (proj2 (Nat.ltb_ge _ _)) by (unfold MAX_MULTIPART_RANGES; lia). by destruct l as [|? []].
Qed.

Lemma range_set_complete_witness :
  parse_range_set ##"5-7,0-2,1-3" 10 = of_ranges [mk_range 0 3; mk_range 5 7].
Proof.
  apply range_set_complete; [unfold u64_max; lia | vm_compute; lia | | done | simpl; lia | | |].
  - intros m Hm. vm_compute in Hm. repeat (apply elem_of_cons in Hm as [->|Hm]; [reflexivity|]).
    by apply not_elem_of_nil in Hm.
  - repeat constructor.
  - repeat constructor; simpl; lia.
  - intros i. unfold requested.
    assert (HE : split "," ##"5-7,0-2,1-3" = [##"5-7"; ##"0-2"; ##"1-3"]) by reflexivity.
    rewrite HE, !Exists_cons, Exists_nil. unfold selects. cbn [start end_]. split.
    + intros [Hi|[Hi|[]]].
      * destruct (decide (i <= 2)); [exists ##"0-2", (mk_range 0 2) | exists ##"1-3", (mk_range 1 3)];
          (split; [by repeat constructor | split; [reflexivity | simpl; lia]]).
      * exists ##"5-7", (mk_range 5 7).
        split; [by repeat constructor | split; [reflexivity | simpl; lia]].
    + intros (m & r & Hm & Hr & Hi). repeat (apply elem_of_cons in Hm as [->|Hm];
        [vm_compute in Hr; injection Hr as <-; simpl in Hi; lia|]).
      by apply not_elem_of_nil in Hm.
Defined.

(** the three member forms mean what RFC 9110 says. [a-b] selects the positions
    from [a] to [b] that exist, [a-] those from [a] on, [-n] the last [n]; a
    reversed [a-b] whose first position exists is an error, a member that starts
    at or after the end selects nothing. *)
Theorem range_member_meaning length a b :
  0 <= length <= u64_max -> 0 <= a <= u64_max -> 0 <= b <= u64_max ->
  parse_range_member (to_dec a ++ ##"-" ++ to_dec b) length =
    (if length <=? a then Ok None
     else if b <? a then Err tt else Ok (Some (mk_range a (Z.min b (length - 1))))) /\
  parse_range_member (to_dec a ++ ##"-") length =
    (if length <=? a then Ok None else Ok (Some (mk_range a (length - 1)))) /\
  parse_range_member (##"-" ++ to_dec b) length =
    (if (b =? 0) || (length =? 0) then Ok None
     else Ok (Some (mk_range (Z.max 0 (length - b)) (length - 1)))).
Proof.
  intros Hl Ha Hb. unfold parse_range_member, parse_u64. split_and!.
  - rewrite split_once_dec by lia. rewrite !nonempty_to_dec. simpl negb. cbn iota.
    rewrite !parse_to_dec by lia. destruct (length <=? a) eqn:E1; [done|].
    destruct (b <? a) eqn:E2, (Z.min b (length - 1) <? a) eqn:E3; try done; lia.
  - pose proof (split_once_dec a [] ltac:(lia)) as HS. rewrite app_nil_r in HS. rewrite HS, !nonempty_to_dec. simpl negb. cbn iota.
    rewrite !parse_to_dec by lia. destruct (length <=? a) eqn:E1; [done|].
    simpl. destruct (length - 1 <? a) eqn:E3; [lia|done].
  - assert (HS : split_once "-" (##"-" ++ to_dec b) = Some ([], to_dec b)) by reflexivity.
    rewrite HS. simpl negb. cbn iota. rewrite parse_to_dec by lia.
    unfold saturating_sub. destruct ((b =? 0) || (length =? 0)); [done|].
    by rewrite Z.max_comm.
Qed.

Lemma range_member_meaning_witness :
  parse_range_member (to_dec 3 ++ ##"-" ++ to_dec 90) 10 = Ok (Some (mk_range 3 9)).
Proof.
  rewrite (proj1 (range_member_meaning 10 3 90 ltac:(unfold u64_max; lia) ltac:(unfold u64_max; lia)
    ltac:(unfold u64_max; lia))).
  reflexivity.
Defined.
