(* ===== verification/Negotiation.v ===== *)
(** Content-coding negotiation:
    [crates/rustee-middleware/src/compression/negotiation.rs],
    [crates/rustee-middleware/src/compression.rs] and the selection half of
    [crates/rustee-static/src/encoding.rs].

    Both crates read [Accept-Encoding] with the same loop; the theorems relate
    that loop to the set of weighted items a client sent and show that the
    compression layer chooses a best acceptable coding. *)

From Stdlib Require Import ZArith Lia Bool Ascii.
From stdpp Require Import sets.
From S2P Require Import Prelude Strings Http Core HttpModel.

Local Open Scope Z_scope.

Inductive ContentCoding : Type := Brotli | Gzip.
#[export] Instance ContentCoding_eq_dec : EqDecision ContentCoding.
Proof. solve_decision. Defined.

Definition token (c : ContentCoding) : str :=
  match c with Brotli => ##"br" | Gzip => ##"gzip" end.

(** ** Weights *)

Definition digits (s : str) : bool := forallb is_ascii_digit s.

Definition parse_quality (value : str) : option Z :=
  if str_eqb value ##"0" || str_eqb value ##"0." then Some 0
  else if str_eqb value ##"1" || str_eqb value ##"1." then Some 1000
  else match split_once "." value with
       | None => None
       | Some (whole, fraction) =>
           if (3 <? List.length fraction)%nat || negb (digits fraction) then None
           else if str_eqb whole ##"0" then
             match parse_unsigned u16_max fraction with
             | None => None
             | Some parsed =>
                 match List.length fraction with
                 | 1%nat => Some (parsed * 100 mod (u16_max + 1))
                 | 2%nat => Some (parsed * 10 mod (u16_max + 1))
                 | 3%nat => Some (parsed * 1 mod (u16_max + 1))
                 | _ => None
                 end
             end
           else if str_eqb whole ##"1" && forallb (char_eqb "0") fraction then Some 1000
           else None
       end.

(** [parameters.find_map(..)]: the first parameter named [q]. *)
Fixpoint find_q (parameters : list str) : option str :=
  match parameters with
  | [] => None
  | p :: rest =>
      match split_once "=" (trim p) with
      | Some (name, value) =>
          if eq_ignore_ascii_case (trim name) ##"q" then Some (trim value) else find_q rest
      | None => find_q rest
      end
  end.

(** The token and the weight of one list item. *)
Definition item_token (item : str) : str := trim (default [] (head (split ";" item))).
Definition item_quality (item : str) : Z :=
  default 0 (match find_q (tail (split ";" item)) with
             | None => Some 1000
             | Some q => parse_quality q
             end).

(** The state of the negotiation loop. *)
Record Scan : Type := { explicit : option Z; wildcard : option Z; found : bool }.
Definition scan_start : Scan := {| explicit := None; wildcard := None; found := false |}.

Definition scan_item (name : str) (st : Scan) (item : str) : Scan :=
  let quality := item_quality item in
  if eq_ignore_ascii_case (item_token item) name
  then {| explicit := Some (Z.max (default 0 (explicit st)) quality);
          wildcard := wildcard st; found := found st |}
  else if str_eqb (item_token item) ##"*"
  then {| explicit := explicit st;
          wildcard := Some (Z.max (default 0 (wildcard st)) quality); found := found st |}
  else st.

Section negotiation.
Context `{HttpApi}.

Definition scan_value (name : str) (st : Scan) (value : HeaderValue) : Scan :=
  match hv_to_str value with
  | None => st
  | Some text =>
      fold_left (scan_item name) (split "," text)
        {| explicit := explicit st; wildcard := wildcard st; found := true |}
  end.

Definition scan_headers (name : str) (headers : HeaderMap) : Scan :=
  fold_left (scan_value name) (hm_get_all ACCEPT_ENCODING headers) scan_start.

(** [explicit.or(wildcard).filter(|quality| *quality > 0)]. *)
Definition scan_result (st : Scan) : option Z :=
  match match explicit st with Some q => Some q | None => wildcard st end with
  | Some q => if 0 <? q then Some q else None
  | None => None
  end.

Definition quality_for (headers : HeaderMap) (coding : ContentCoding) : option Z :=
  let st := scan_headers (token coding) headers in
  if negb (found st) then None else scan_result st.

Definition select_coding (brotli_enabled gzip_enabled : bool) (headers : HeaderMap) :
    option ContentCoding :=
  let brotli := if brotli_enabled then quality_for headers Brotli else None in
  let gzip := if gzip_enabled then quality_for headers Gzip else None in
  match brotli, gzip with
  | Some b, Some g => if g <=? b then Some Brotli else Some Gzip
  | None, Some _ => Some Gzip
  | Some _, None => Some Brotli
  | None, None => None
  end.

(** *** The same negotiation for precompressed files *)

(** [rustee_static::encoding::encoding_quality]; the loop is the one above. *)
Definition encoding_quality (headers : HeaderMap) (encoding : ContentCoding) : option Z :=
  let st := scan_headers (token encoding) headers in
  if found st then scan_result st else None.

Definition preferred_precompressed_encodings (headers : HeaderMap) : list ContentCoding :=
  match encoding_quality headers Brotli, encoding_quality headers Gzip with
  | Some b, Some g => if g <=? b then [Brotli; Gzip] else [Gzip; Brotli]
  | Some _, None => [Brotli]
  | None, Some _ => [Gzip]
  | None, None => []
  end.

(** *** Vary *)

Definition varies_on (field : str) (value : HeaderValue) : bool :=
  match hv_to_str value with
  | None => false
  | Some text =>
      existsb (fun f => str_eqb f ##"*" || eq_ignore_ascii_case f field) (map trim (split "," text))
  end.

Definition already_varies (field : str) (headers : HeaderMap) : bool :=
  existsb (varies_on field) (hm_get_all VARY headers).

Definition add_vary_accept_encoding (headers : HeaderMap) : HeaderMap :=
  if already_varies ACCEPT_ENCODING headers then headers
  else hm_append VARY (hv_from_static ##"Accept-Encoding") headers.

(** *** Eligibility *)

Definition cache_control_no_transform (headers : HeaderMap) : bool :=
  existsb (fun value =>
      match hv_to_str value with
      | None => false
      | Some text =>
          existsb (fun d => eq_ignore_ascii_case d ##"no-transform") (map trim (split "," text))
      end)
    (hm_get_all CACHE_CONTROL headers).

Definition structured_types : list str :=
  [##"application/javascript"; ##"application/json"; ##"application/ld+json";
   ##"application/manifest+json"; ##"application/xhtml+xml"; ##"application/xml";
   ##"application/rss+xml"; ##"application/atom+xml"; ##"image/svg+xml"].

Definition is_compressible_content_type (value : str) : bool :=
  let media_type := to_ascii_lowercase (trim (default [] (head (split ";" value)))) in
  starts_with ##"text/" media_type
  || existsb (str_eqb media_type) structured_types
  || ends_with ##"+json" media_type
  || ends_with ##"+xml" media_type.

Definition header_text (name : str) (headers : HeaderMap) : option str :=
  match hm_get name headers with
  | Some v => hv_to_str v
  | None => None
  end.

Definition is_compressible_response (r : Response) : bool :=
  if is_informational (res_status r)
     || (res_status r =? 204) || (res_status r =? 304)
     || hm_contains_key CONTENT_ENCODING (res_headers r)
     || hm_contains_key CONTENT_RANGE (res_headers r)
     || cache_control_no_transform (res_headers r)
  then false
  else if match header_text CONTENT_LENGTH (res_headers r) with
          | Some text => str_eqb (trim text) ##"0"
          | None => false
          end
  then false
  else match header_text CONTENT_TYPE (res_headers r) with
       | Some text => is_compressible_content_type text
       | None => false
       end.

(** *** The layer *)

Record CompressionLayer : Type := { brotli : bool; gzip : bool }.
Definition compression_new : CompressionLayer := {| brotli := true; gzip := true |}.
Definition with_brotli (enabled : bool) (l : CompressionLayer) : CompressionLayer :=
  {| brotli := enabled; gzip := gzip l |}.
Definition with_gzip (enabled : bool) (l : CompressionLayer) : CompressionLayer :=
  {| brotli := brotli l; gzip := enabled |}.
Definition layer_select_coding (l : CompressionLayer) (headers : HeaderMap) : option ContentCoding :=
  select_coding (brotli l) (gzip l) headers.

(** The encoders of [async_compression], from body frames to body frames. *)
Context (compressed_body : Body -> ContentCoding -> Body).

Definition compress_response (r : Response) (coding : ContentCoding) : Response := {|
  res_status := res_status r;
  res_headers :=
    add_vary_accept_encoding
      (hm_insert CONTENT_ENCODING (hv_from_static (token coding))
         (hm_remove CONTENT_LENGTH (res_headers r)));
  res_extensions := res_extensions r;
  res_body := compressed_body (res_body r) coding
|}.

Definition vary_identity_response (r : Response) : Response :=
  with_headers add_vary_accept_encoding r.

Definition compression_call (layer : CompressionLayer) (inner : Service) (request : Request) :
    Response :=
  let may_transform :=
    negb (str_eqb (req_method request) ##"HEAD")
    && negb (hm_contains_key RANGE (req_headers request)) in
  let coding := if may_transform then layer_select_coding layer (req_headers request) else None in
  let r := call_ready inner request in
  if may_transform && is_compressible_response r then
    match coding with
    | Some coding => compress_response r coding
    | None => vary_identity_response r
    end
  else r.
End negotiation.

(** ** Lemmas: weights *)

(** The value of at most three fraction digits, in thousandths. *)
Definition thousandths (ds : str) : Z :=
  default 0 (digits_value 0 ds) * 10 ^ (3 - Z.of_nat (List.length ds)).

(** The [qvalue] grammar of RFC 9110, section 12.4.2, with its value. *)
Inductive qvalue : str -> Z -> Prop :=
| q_zero : qvalue ##"0" 0
| q_zero_fraction ds :
    digits ds = true -> (List.length ds <= 3)%nat -> qvalue (##"0." ++ ds) (thousandths ds)
| q_one : qvalue ##"1" 1000
| q_one_fraction zs :
    forallb (char_eqb "0") zs = true -> (List.length zs <= 3)%nat -> qvalue (##"1." ++ zs) 1000.

Lemma digit_value_range c v : digit_value c = Some v -> 0 <= v <= 9.
Proof.
  unfold digit_value, is_ascii_digit, in_range.
  destruct (_ && _) eqn:E; [|done]. intros [= <-]. lia.
Qed.

Lemma digits_value_bound acc ds v :
  0 <= acc -> digits_value acc ds = Some v -> v < (acc + 1) * 10 ^ Z.of_nat (List.length ds).
Proof.
  revert acc. induction ds as [|d ds IH]; intros acc Ha; cbn [digits_value List.length].
  - intros [= <-]. rewrite Z.pow_0_r. lia.
  - destruct (digit_value d) as [x|] eqn:Ed; [|done]. intros Hv.
    pose proof (digit_value_range d x Ed). apply IH in Hv; [|lia].
    rewrite Nat2Z.inj_succ, Z.pow_succ_r by lia. nia.
Qed.

Lemma digits_value_digits acc ds :
  digits ds = true -> is_Some (digits_value acc ds).
Proof.
  revert acc. induction ds as [|d ds IH]; intros acc; simpl; [eauto|].
  unfold digit_value. intros [-> Hd]%andb_true_iff. auto.
Qed.

Lemma zeros_digits zs : forallb (char_eqb "0") zs = true -> digits zs = true.
Proof.
  unfold digits. rewrite !forallb_Forall. intros Hz. eapply Forall_impl; [exact Hz|].
  intros c <-%char_eqb_true. done.
Qed.

Lemma thousandths_range ds :
  digits ds = true -> (List.length ds <= 3)%nat -> 0 <= thousandths ds < 1000.
Proof.
  intros Hd Hl. unfold thousandths. destruct (digits_value_digits 0 ds Hd) as [v Hv].
  rewrite Hv. simpl. pose proof (digits_value_nonneg 0 ds v ltac:(lia) Hv).
  pose proof (digits_value_bound 0 ds v ltac:(lia) Hv) as Hb.
  assert (HP : 10 ^ Z.of_nat (List.length ds) * 10 ^ (3 - Z.of_nat (List.length ds)) = 1000).
  { rewrite <- Z.pow_add_r by lia. change 1000 with (10 ^ 3). f_equal. lia. }
  assert (0 < 10 ^ (3 - Z.of_nat (List.length ds))) by (apply Z.pow_pos_nonneg; lia).
  split; [nia|]. rewrite <- HP. nia.
Qed.

Lemma qvalue_range v q : qvalue v q -> 0 <= q <= 1000.
Proof.
  destruct 1 as [|ds Hd Hl| |]; [lia | | lia | lia]. pose proof (thousandths_range ds Hd Hl). lia.
Qed.

(** A weight that the loop adds is never negative. *)
Lemma find_parse_range v q : parse_quality v = Some q -> 0 <= q.
Proof.
  unfold parse_quality. intros Hq. repeat split_match; simp; try lia.
  all: apply Z.mod_pos_bound; unfold u16_max; lia.
Qed.

Lemma item_quality_nonneg item : 0 <= item_quality item.
Proof.
  unfold item_quality. destruct (find_q _) as [v|]; simpl; [|lia].
  destruct (parse_quality v) eqn:E; simpl; [by eapply find_parse_range | lia].
Qed.

Lemma split_once_cons c x rest :
  x <> c -> split_once c (x :: c :: rest) = Some ([x], rest).
Proof. intros Hne. apply split_once_Some. split; [done|]. set_solver. Qed.

(** The part of [parse_quality] after the four short forms. *)
Definition parse_fraction (whole fraction : str) : option Z :=
  if (3 <? List.length fraction)%nat || negb (digits fraction) then None
  else if str_eqb whole ##"0" then
    match fraction with [] => None | _ => Some (thousandths fraction) end
  else if str_eqb whole ##"1" && forallb (char_eqb "0") fraction then Some 1000
  else None.

Lemma fraction_scaled ds parsed :
  digits ds = true -> (List.length ds <= 3)%nat -> digits_value 0 ds = Some parsed -> ds <> [] ->
  match List.length ds with
  | 1%nat => Some (parsed * 100 mod (u16_max + 1))
  | 2%nat => Some (parsed * 10 mod (u16_max + 1))
  | 3%nat => Some (parsed * 1 mod (u16_max + 1))
  | _ => None
  end = Some (thousandths ds).
Proof.
  intros Hd Hl Hv Hne. pose proof (thousandths_range ds Hd Hl) as Hr. unfold thousandths in *.
  rewrite Hv in *. simpl default in *. unfold u16_max.
  destruct ds as [|a [|b [|c [|]]]]; [done| | | | simpl in Hl; lia]; simpl in *;
    f_equal; apply Z.mod_small; lia.
Qed.

Lemma parse_quality_fraction value whole fraction :
  split_once "." value = Some (whole, fraction) ->
  parse_quality value =
    match fraction with
    | [] => if str_eqb whole ##"0" then Some 0 else if str_eqb whole ##"1" then Some 1000 else None
    | _ => parse_fraction whole fraction
    end.
Proof.
  intros HS. unfold parse_quality. rewrite HS. apply split_once_Some in HS as [-> Hw].
  destruct fraction as [|f fs].
  - destruct (str_eqb whole ##"0") eqn:E0; [by apply str_eqb_true in E0 as -> |].
    destruct (str_eqb whole ##"1") eqn:E1; [by apply str_eqb_true in E1 as -> |].
    assert (Hs : forall c, c <> "."%char -> str_eqb whole [c] = false -> str_eqb (whole ++ ##".") [c] = false
                        /\ str_eqb (whole ++ ##".") (c :: ##".") = false).
    { intros c Hdot Hc. apply bool_decide_eq_false in Hc. split; apply bool_decide_eq_false; intros E.
      - destruct whole as [|x [|]]; simplify_eq/=.
      - apply Hc. change (c :: ##".") with ([c] ++ ##".") in E. by apply app_inv_tail in E. }
    destruct (Hs "0"%char ltac:(done) E0) as [H1 H2], (Hs "1"%char ltac:(done) E1) as [H3 H4].
    unfold lit in *. cbn [String.list_ascii_of_string] in *. rewrite H1, H2, H3, H4. done.
  - assert (Hs : forall c t, c <> "."%char -> (List.length t <= 1)%nat ->
              str_eqb (whole ++ "."%char :: f :: fs) (c :: t) = false).
    { intros c t Hdot Ht. apply bool_decide_eq_false. intros E.
      destruct whole as [|w ws]; [injection E as E _; by symmetry in E|]. apply (f_equal List.length) in E. simpl in E. rewrite length_app in E.
      simpl in E. lia. }
    unfold lit. cbn [String.list_ascii_of_string]. rewrite !Hs by (done || (simpl; lia)).
    cbn [orb].
    unfold parse_fraction. destruct (3 <? _)%nat eqn:El; [done|].
    destruct (digits (f :: fs)) eqn:Ed; [|done]. cbn [negb orb].
    destruct (str_eqb whole _) eqn:E0; [|done].
    apply Nat.ltb_ge in El. destruct (digits_value_digits 0 _ Ed) as [v Hv].
    rewrite parse_unsigned_digits; [| done | by apply forallb_Forall].
    rewrite Hv. pose proof (digits_value_bound 0 _ v ltac:(lia) Hv) as Hb.
    assert (10 ^ Z.of_nat (List.length (f :: fs)) <= 10 ^ 3) by (apply Z.pow_le_mono_r; lia).
    rewrite (proj2 (Z.leb_le _ _)) by (unfold u16_max; lia).
    by apply fraction_scaled.
Qed.

(** ** Properties: weights *)

(** [parse_quality] accepts exactly the weights of RFC 9110's [qvalue] grammar,
    with their value in thousandths; the [u16] multiplication never wraps. *)
Theorem parse_quality_grammar value q : parse_quality value = Some q <-> qvalue value q.
Proof.
  split.
  - intros HP. destruct (split_once "." value) as [[whole fraction]|] eqn:HS.
    + rewrite (parse_quality_fraction _ _ _ HS) in HP. apply split_once_Some in HS as [-> _].
      destruct fraction as [|f fs].
      * destruct (str_eqb whole ##"0") eqn:E0; [|destruct (str_eqb whole ##"1") eqn:E1; [|done]];
          [apply str_eqb_true in E0 as -> | apply str_eqb_true in E1 as ->]; injection HP as <-.
        -- by apply (q_zero_fraction []); simpl; [|lia].
        -- by apply (q_one_fraction []); simpl; [|lia].
      * unfold parse_fraction in HP. destruct (3 <? _)%nat eqn:El; [done|]. apply Nat.ltb_ge in El.
        destruct (digits (f :: fs)) eqn:Ed; [|done]. cbn [negb orb] in HP.
        destruct (str_eqb whole ##"0") eqn:E0.
        -- apply str_eqb_true in E0 as ->. injection HP as <-. by apply (q_zero_fraction (f :: fs)).
        -- destruct (str_eqb whole ##"1") eqn:E1; [|done]. apply str_eqb_true in E1 as ->.
           destruct (forallb (char_eqb "0") (f :: fs)) eqn:Ez; [|done].
           injection HP as <-. by apply (q_one_fraction (f :: fs)).
    + unfold parse_quality in HP. rewrite HS in HP.
      destruct (decide (value = ##"0")) as [->|N0]; [injection HP as <-; exact q_zero|].
      destruct (decide (value = ##"1")) as [->|N1]; [injection HP as <-; exact q_one|].
      destruct (decide (value = ##"0.")) as [->|N2]; [discriminate HS|].
      destruct (decide (value = ##"1.")) as [->|N3]; [discriminate HS|].
      unfold str_eqb in HP. by rewrite !bool_decide_eq_false_2 in HP.
  - destruct 1 as [|ds Hd Hl| |zs Hz Hl]; [done| |done|].
    + rewrite (parse_quality_fraction _ ##"0" ds); [|apply split_once_Some; split; [done|set_solver]].
      destruct ds as [|d ds]; [done|]. unfold parse_fraction.
      rewrite (proj2 (Nat.ltb_ge _ _)), Hd by lia. done.
    + rewrite (parse_quality_fraction _ ##"1" zs); [|apply split_once_Some; split; [done|set_solver]].
      destruct zs as [|z zs]; [done|]. unfold parse_fraction.
      rewrite (proj2 (Nat.ltb_ge _ _)), (zeros_digits _ Hz), Hz by lia. done.
Qed.

(** ** Lemmas: the negotiation loop *)

(** The largest weight among the items a test selects, if there is one. *)
Definition heaviest (p : str -> bool) (items : list str) (q : Z) : Prop :=
  (exists it, it ∈ items /\ p it = true /\ item_quality it = q) /\
  (forall it, it ∈ items -> p it = true -> item_quality it <= q).

Definition names (name it : str) : bool := eq_ignore_ascii_case (item_token it) name.
Definition is_wildcard (it : str) : bool := str_eqb (item_token it) ##"*".

(** The maximum that the loop keeps in one of its accumulators. *)
Fixpoint maximum (p : str -> bool) (items : list str) (acc : option Z) : option Z :=
  match items with
  | [] => acc
  | it :: rest =>
      maximum p rest (if p it then Some (Z.max (default 0 acc) (item_quality it)) else acc)
  end.

Definition unnamed (name it : str) : bool := negb (names name it) && is_wildcard it.

Lemma scan_items name items st :
  fold_left (scan_item name) items st =
    {| explicit := maximum (names name) items (explicit st);
       wildcard := maximum (unnamed name) items (wildcard st);
       found := found st |}.
Proof.
  revert st. induction items as [|it items IH]; intros st; simpl; [by destruct st|].
  rewrite IH. unfold scan_item, unnamed. fold (names name it) (is_wildcard it).
  destruct (names name it); [done|]. by destruct (is_wildcard it).
Qed.

Lemma maximum_app p l1 l2 acc : maximum p (l1 ++ l2) acc = maximum p l2 (maximum p l1 acc).
Proof. revert acc. induction l1; intros acc; simpl; auto. Qed.

Lemma maximum_some p items a :
  0 <= a ->
  exists q, maximum p items (Some a) = Some q /\ a <= q /\
    (q = a \/ exists it, it ∈ items /\ p it = true /\ item_quality it = q) /\
    (forall it, it ∈ items -> p it = true -> item_quality it <= q).
Proof.
  revert a. induction items as [|it items IH]; intros a Ha; simpl.
  { exists a. split_and!; [done | lia | by left | set_solver]. }
  destruct (p it) eqn:Ep; simpl.
  - destruct (IH (Z.max a (item_quality it))) as (q & -> & Hq & Hin & Hall); [lia|].
    exists q. split_and!; [done | lia | |].
    + destruct Hin as [->|(x & ? & ? & ?)]; [|right; exists x; set_solver].
      destruct (Z.max_spec a (item_quality it)) as [[? ->]|[? ->]]; [|by left].
      right. exists it. set_solver.
    + intros x [->|Hx]%elem_of_cons Hp; [lia | by apply Hall].
  - destruct (IH a Ha) as (q & -> & Hq & Hin & Hall). exists q. split_and!; [done | lia | |].
    + destruct Hin as [->|(x & ? & ? & ?)]; [by left | right; exists x; set_solver].
    + intros x [->|Hx]%elem_of_cons Hp; [congruence | by apply Hall].
Qed.

Lemma maximum_spec p items :
  match maximum p items None with
  | Some q => heaviest p items q
  | None => forall it, it ∈ items -> p it = false
  end.
Proof.
  induction items as [|it items IH]; simpl; [set_solver|].
  destruct (p it) eqn:Ep; simpl.
  - pose proof (item_quality_nonneg it).
    destruct (maximum_some p items (Z.max 0 (item_quality it))) as (q & -> & Hq & Hin & Hall); [lia|].
    split.
    + destruct Hin as [->|(x & ? & ? & ?)]; [exists it | exists x]; split_and!;
        [by left | done | lia | by right | done | done].
    + intros x [->|Hx]%elem_of_cons Hp; [lia | by apply Hall].
  - destruct (maximum p items None) as [q|].
    + destruct IH as [(x & ? & ? & ?) Hall]. split; [exists x; set_solver|].
      intros y [->|Hy]%elem_of_cons Hp; [congruence | by apply Hall].
    + intros x [->|Hx]%elem_of_cons; [done | by apply IH].
Qed.

Lemma heaviest_unique p items q q' : heaviest p items q -> heaviest p items q' -> q = q'.
Proof. intros [(a & ? & ? & <-) M1] [(b & ? & ? & <-) M2]. apply Z.le_antisymm; auto. Qed.

Lemma heaviest_ext p p' items q :
  (forall it, it ∈ items -> p it = p' it) -> heaviest p items q -> heaviest p' items q.
Proof.
  intros HE [(a & ? & Hp & ?) Hall]. split.
  - exists a. rewrite <- HE by done. done.
  - intros it Hin Hp'. apply Hall; [done|]. by rewrite HE.
Qed.

Section loop.
Context `{HttpLaws}.

(** The list items of every [Accept-Encoding] value that is text. *)
Definition accept_items (headers : HeaderMap) : list str :=
  hm_get_all ACCEPT_ENCODING headers ≫= fun v =>
    match hv_to_str v with Some text => split "," text | None => [] end.

(** What a client accepts: the weight [q > 0] of a coding is the largest weight
    of the items that name it, and the wildcard's where none does. *)
Definition accepts (headers : HeaderMap) (coding : ContentCoding) (q : Z) : Prop :=
  0 < q /\
  (heaviest (names (token coding)) (accept_items headers) q \/
   (forall it, it ∈ accept_items headers -> names (token coding) it = false) /\
   heaviest is_wildcard (accept_items headers) q).

Lemma scan_values name vs st :
  fold_left (scan_value name) vs st =
    let items := vs ≫= fun v => match hv_to_str v with Some t => split "," t | None => [] end in
    {| explicit := maximum (names name) items (explicit st);
       wildcard := maximum (unnamed name) items (wildcard st);
       found := found st || existsb (fun v => is_some (hv_to_str v)) vs |}.
Proof.
  revert st. induction vs as [|v vs IH]; intros st; simpl.
  { rewrite orb_false_r. by destruct st. }
  rewrite IH. unfold scan_value. destruct (hv_to_str v) as [t|]; simpl.
  - rewrite scan_items. simpl. rewrite !maximum_app. by rewrite orb_true_r.
  - done.
Qed.

Lemma scan_headers_eq name headers :
  scan_headers name headers =
    {| explicit := maximum (names name) (accept_items headers) None;
       wildcard := maximum (unnamed name) (accept_items headers) None;
       found := existsb (fun v => is_some (hv_to_str v)) (hm_get_all ACCEPT_ENCODING headers) |}.
Proof. unfold scan_headers. by rewrite scan_values. Qed.

(** No text, no items: the [found] flag only short-cuts the answer. *)
Lemma not_found_no_items headers :
  existsb (fun v => is_some (hv_to_str v)) (hm_get_all ACCEPT_ENCODING headers) = false ->
  accept_items headers = [].
Proof.
  unfold accept_items. induction (hm_get_all ACCEPT_ENCODING headers) as [|v vs IH]; [done|].
  cbn [existsb]. rewrite orb_false_iff. intros [Hv Hvs]. rewrite bind_cons, IH by done.
  by destruct (hv_to_str v).
Qed.

Lemma quality_for_accepts headers coding q :
  quality_for headers coding = Some q <-> accepts headers coding q.
Proof.
  unfold quality_for, scan_result, accepts. rewrite scan_headers_eq. cbn [explicit wildcard found].
  destruct (existsb _ _) eqn:Ef; cbn [negb].
  - pose proof (maximum_spec (names (token coding)) (accept_items headers)) as HN.
    pose proof (maximum_spec (unnamed (token coding)) (accept_items headers)) as HW.
    destruct (maximum (names _) _ None) as [e|].
    + split.
      * destruct (0 <? e) eqn:E0; [|done]. intros [= <-]. split; [lia | by left].
      * intros [Hq [Hh|[Hno _]]].
        -- rewrite (heaviest_unique _ _ _ _ HN Hh). by rewrite (proj2 (Z.ltb_lt _ _)).
        -- destruct HN as [(x & Hx & Hp & _) _]. by rewrite Hno in Hp.
    + assert (HE : forall it, it ∈ accept_items headers ->
                 unnamed (token coding) it = is_wildcard it).
      { intros it Hit. unfold unnamed. by rewrite HN. }
      destruct (maximum (unnamed _) _ None) as [w|].
      * apply (heaviest_ext _ is_wildcard) in HW; [|done]. split.
        -- destruct (0 <? w) eqn:E0; [|done]. intros [= <-]. split; [lia | by right].
        -- intros [Hq [[(x & Hx & Hp & _) _]|[_ Hh]]]; [by rewrite HN in Hp|].
           rewrite (heaviest_unique _ _ _ _ HW Hh). by rewrite (proj2 (Z.ltb_lt _ _)).
      * split; [done|]. intros [_ [[(x & Hx & Hp & _) _]|[_ [(x & Hx & Hp & _) _]]]].
        -- by rewrite HN in Hp.
        -- rewrite <- HE, HW in Hp by done. done.
  - rewrite (not_found_no_items _ Ef). split; [done|].
    intros [_ [[(x & Hx & _) _]|[_ [(x & Hx & _) _]]]]; by apply not_elem_of_nil in Hx.
Qed.

Definition enabled (brotli_enabled gzip_enabled : bool) (coding : ContentCoding) : bool :=
  match coding with Brotli => brotli_enabled | Gzip => gzip_enabled end.
End loop.

(** ** Properties: selection *)

(** The compression layer picks a best coding. A chosen coding is enabled and
    accepted by the client, no enabled coding the client accepts has a larger
    weight, Brotli wins a tie; nothing is chosen exactly when the client
    accepts no enabled coding. *)
Theorem select_coding_best `{HttpLaws} b g headers :
  match select_coding b g headers with
  | Some c =>
      enabled b g c = true /\
      exists q, accepts headers c q /\
        forall c' q', enabled b g c' = true -> accepts headers c' q' ->
          q' <= q /\ (q' = q -> c = Brotli \/ c' = c)
  | None => forall c q, enabled b g c = true -> ~ accepts headers c q
  end.
Proof.
  unfold select_coding.
  assert (HB : forall q, accepts headers Brotli q <-> quality_for headers Brotli = Some q)
    by (intros; by rewrite quality_for_accepts).
  assert (HG : forall q, accepts headers Gzip q <-> quality_for headers Gzip = Some q)
    by (intros; by rewrite quality_for_accepts).
  destruct b, g; [destruct (quality_for headers Brotli) as [x|], (quality_for headers Gzip) as [y|];
                    [destruct (y <=? x) eqn:E| | |]
                 | destruct (quality_for headers Brotli) as [x|]
                 | destruct (quality_for headers Gzip) as [y|] | ].
  all: try (split; [done|]; eexists; split; [by first [apply HB | apply HG]|];
            intros [|] q'; simpl; intros He Ha; try discriminate He;
            first [apply HB in Ha | apply HG in Ha]; simplify_eq; (split; [lia|]);
            intros; subst; first [by left | by right | exfalso; lia]).
  all: intros [|] q He Ha; simpl in He; try discriminate He; first [apply HB in Ha | apply HG in Ha];
    discriminate Ha.
Qed.

(** precompressed siblings are tried in order of preference. The list holds
    exactly the codings the client accepts, each once, best first, Brotli
    first on a tie; this is the order the compression layer would choose in. *)
Theorem preferred_encodings_sorted `{HttpLaws} headers :
  let l := preferred_precompressed_encodings headers in
  NoDup l /\
  (forall c, c ∈ l <-> exists q, accepts headers c q) /\
  (forall c c' q q', l = [c; c'] -> accepts headers c q -> accepts headers c' q' ->
     q' < q \/ q' = q /\ c = Brotli) /\
  head l = select_coding true true headers.
Proof.
  unfold preferred_precompressed_encodings, select_coding.
  assert (HE : forall c, encoding_quality headers c = quality_for headers c).
  { intros c. unfold encoding_quality, quality_for. by destruct (found _). }
  assert (HB : forall c q, accepts headers c q <-> quality_for headers c = Some q)
    by (intros; by rewrite quality_for_accepts).
  rewrite !HE. setoid_rewrite HB.
  destruct (quality_for headers Brotli) as [x|] eqn:Ex, (quality_for headers Gzip) as [y|] eqn:Ey;
    [destruct (y <=? x) eqn:E| | |]; simpl; split_and!; try done.
  all: try (repeat constructor; set_solver).
  all: try (intros c c' q q' [= <- <-]; rewrite ?Ex, ?Ey; intros [= <-] [= <-];
            (destruct (decide (y = x)); [first [by right | exfalso; lia] | left; lia])).
  all: intros [|]; rewrite ?Ex, ?Ey; (split; [|intros [? [=]]]); set_solver.
Qed.

Section vary.
Context `{HttpLaws}.

Lemma add_vary_varies headers :
  already_varies ACCEPT_ENCODING (add_vary_accept_encoding headers) = true.
Proof.
  unfold add_vary_accept_encoding. destruct (already_varies _ headers) eqn:E; [done|].
  unfold already_varies. rewrite hm_get_all_append_eq, existsb_app. apply orb_true_iff. right.
  cbn [existsb]. unfold varies_on. rewrite hv_static_to_str by reflexivity. reflexivity.
Qed.

Lemma add_vary_other headers k :
  k <> VARY -> hm_get_all k (add_vary_accept_encoding headers) = hm_get_all k headers.
Proof.
  intros Hk. unfold add_vary_accept_encoding. destruct (already_varies _ headers); [done|].
  by apply hm_get_all_append_ne.
Qed.

Lemma add_vary_keeps headers v :
  v ∈ hm_get_all VARY headers -> v ∈ hm_get_all VARY (add_vary_accept_encoding headers).
Proof.
  intros Hv. unfold add_vary_accept_encoding. destruct (already_varies _ headers); [done|].
  rewrite hm_get_all_append_eq. set_solver.
Qed.
End vary.

Section layer.
Context `{HttpLaws} (encode : Body -> ContentCoding -> Body).

Lemma compression_call_eq layer inner request :
  compression_call encode layer inner request =
    if negb (str_eqb (req_method request) ##"HEAD")
       && negb (hm_contains_key RANGE (req_headers request))
       && is_compressible_response (inner request)
    then match select_coding (brotli layer) (gzip layer) (req_headers request) with
         | Some coding => compress_response encode (inner request) coding
         | None => vary_identity_response (inner request)
         end
    else inner request.
Proof.
  unfold compression_call, call_ready, layer_select_coding.
  by destruct (negb (str_eqb _ _) && negb _).
Qed.

Lemma compress_encoding r coding :
  hm_get_all CONTENT_ENCODING (res_headers (compress_response encode r coding)) =
    [hv_from_static (token coding)].
Proof.
  unfold compress_response. cbn [res_headers]. rewrite add_vary_other by done. by header_lookup.
Qed.

(** [Content-Encoding] marks the response as already coded. *)
Lemma compressed_not_compressible r coding :
  is_compressible_response (compress_response encode r coding) = false.
Proof.
  unfold is_compressible_response, hm_contains_key. rewrite compress_encoding.
  by rewrite orb_true_r.
Qed.
End layer.

(** The compression layer on every branch. A [HEAD] or range request, or a
    response that may not be transformed, passes through unchanged. Otherwise
    the response varies on [Accept-Encoding] and keeps its status, its
    extensions and every other header: with a coding it carries exactly that
    [Content-Encoding], no [Content-Length] and the encoded body; without one
    the body is untouched. A compressed response is never compressed again by
    an outer layer. *)
Theorem compression_call_contract `{HttpLaws} encode layer inner request :
  let r := inner request in
  let out := compression_call encode layer inner request in
  if str_eqb (req_method request) ##"HEAD" || hm_contains_key RANGE (req_headers request)
     || negb (is_compressible_response r)
  then out = r
  else
    res_status out = res_status r /\
    res_extensions out = res_extensions r /\
    already_varies ACCEPT_ENCODING (res_headers out) = true /\
    match select_coding (brotli layer) (gzip layer) (req_headers request) with
    | None =>
        res_body out = res_body r /\
        forall k, k <> VARY -> hm_get_all k (res_headers out) = hm_get_all k (res_headers r)
    | Some coding =>
        res_body out = encode (res_body r) coding /\
        hm_get_all CONTENT_ENCODING (res_headers out) = [hv_from_static (token coding)] /\
        hm_get_all CONTENT_LENGTH (res_headers out) = [] /\
        (forall k, k ∉ [VARY; CONTENT_ENCODING; CONTENT_LENGTH] ->
           hm_get_all k (res_headers out) = hm_get_all k (res_headers r)) /\
        forall outer, compression_call encode outer (fun _ => out) request = out
    end.
Proof.
  cbn zeta.
  destruct (str_eqb (req_method request) ##"HEAD") eqn:Eh, (hm_contains_key RANGE (req_headers request))
    eqn:Er, (is_compressible_response (inner request)) eqn:Ec; cbn [orb negb];
    rewrite (compression_call_eq _ _ _ _), ?Eh, ?Er, ?Ec; try done.
  destruct (select_coding _ _ _) as [coding|]; cbn [andb negb].
  - split_and!; [done | done | apply add_vary_varies | done | | | |].
    + apply compress_encoding.
    + unfold compress_response. cbn [res_headers]. rewrite add_vary_other by done. by header_lookup.
    + intros k Hk. unfold compress_response. cbn [res_headers].
      rewrite add_vary_other by set_solver.
      rewrite hm_get_all_insert_ne, hm_get_all_remove_ne by set_solver. done.
    + intros outer. rewrite compression_call_eq, Eh, Er. cbn [andb negb].
      by rewrite compressed_not_compressible.
  - split_and!; [done | done | apply add_vary_varies | done |].
    intros k Hk. by apply add_vary_other.
Qed.

(** ** Examples *)

Module NegotiationExamples.
Import HttpModel.

Definition accept : HeaderMap := [(ACCEPT_ENCODING, ##"gzip;q=0.8, br;q=0.8, *;q=0")].
Definition plain (_ : Request) : Response :=
  with_headers (hm_insert CONTENT_TYPE ##"text/plain") (response 200 (full_body ##"hello")).
Definition tagged (b : Body) (_ : ContentCoding) : Body := inl ##"coded" :: b.

Lemma select_coding_best_witness :
  select_coding true true accept = Some Brotli /\ exists q, accepts accept Brotli q.
Proof.
  split; [vm_compute; reflexivity|].
  pose proof (select_coding_best true true accept) as HC.
  assert (HE : select_coding true true accept = Some Brotli) by (vm_compute; reflexivity).
  rewrite HE in HC. destruct HC as (_ & q & Hq & _). by exists q.
Defined.

Lemma preferred_encodings_sorted_witness :
  preferred_precompressed_encodings accept = [Brotli; Gzip] /\
  NoDup (preferred_precompressed_encodings accept).
Proof. split; [vm_compute; reflexivity | apply (preferred_encodings_sorted accept)]. Defined.

Definition fetch : Request := {|
  req_method := ##"GET";
  req_uri := {| u_path := ##"/"; u_query := None |};
  req_headers := accept;
  req_extensions := no_extensions;
  req_body := empty_body
|}.

Lemma compression_call_contract_witness :
  res_body (compression_call tagged compression_new plain fetch) = [inl ##"coded"; inl ##"hello"] /\
  hm_get_all CONTENT_ENCODING (res_headers (compression_call tagged compression_new plain fetch))
    = [##"br"].
Proof.
  pose proof (compression_call_contract tagged compression_new plain fetch) as HC.
  cbn zeta in HC.
  destruct (_ || _ || _) eqn:E in HC; [vm_compute in E; discriminate E|].
  destruct HC as (_ & _ & _ & HC).
  destruct (select_coding _ _ _) as [c|] eqn:Es in HC; [|vm_compute in Es; discriminate Es].
  vm_compute in Es. injection Es as <-. destruct HC as (Hb & He & _). by rewrite Hb, He.
Defined.
End NegotiationExamples.
