(* ===== verification/StaticPath.v ===== *)
(** Static file configuration and request paths:
    [crates/rustee-static/src/config.rs].

    The file system is not part of the repository: its operations are the class
    [FileSystem], and what a theorem relies on is a hypothesis about it. A
    [Path] is its text; [push] and [components] are those of [std::path] on
    Unix. *)

From Stdlib Require Import ZArith Lia Bool Ascii.
From stdpp Require Import sets.
From S2P Require Import Prelude Strings Http Core HttpModel Range.

Local Open Scope Z_scope.

(** ** Paths *)

Definition Path : Type := str.

(** [PathBuf::push]. *)
Definition push (base segment : Path) : Path :=
  if starts_with ##"/" segment then segment
  else if nonempty base && negb (ends_with ##"/" base) then base ++ ##"/" ++ segment
  else base ++ segment.

(** [Path::components]: [.] is dropped except at the start of a relative path. *)
Definition components (p : Path) : list str :=
  let proper := List.filter (fun s => negb (str_eqb s ##".")) in
  if starts_with ##"/" p then ##"/" :: proper (pieces "/" p)
  else match pieces "/" p with
       | [] => []
       | first :: rest => first :: proper rest
       end.

Fixpoint is_prefix (p l : list str) : bool :=
  match p, l with
  | [], _ => true
  | a :: p', b :: l' => str_eqb a b && is_prefix p' l'
  | _, [] => false
  end.

(** [Path::starts_with] compares whole components. *)
Definition path_starts_with (base p : Path) : bool := is_prefix (components base) (components p).

(** ** The file system *)

Record Metadata : Type := { is_file : bool; meta_len : Z; meta_modified : option SystemTime }.

Class FileSystem : Type := {
  fs_canonicalize : Path -> option Path;
  fs_is_dir : Path -> bool;
  fs_metadata : Path -> option Metadata;
  (** [tokio::fs::read]. *)
  fs_read : Path -> option bytes;
  (** [File::open] and [seek(SeekFrom::Start(offset))] both succeed. *)
  fs_open_at : Path -> Z -> bool;
  (** [read_exact] of [length] bytes after such an open and seek. *)
  fs_read_exact : Path -> Z -> Z -> option bytes;
  (** The frames of [ReaderStream::with_capacity(file.take(length), _)]. *)
  fs_stream : Path -> Z -> Z -> list (bytes + BoxError)
}.

(** ** Configuration *)

Inductive StaticFilesError : Type :=
| RootCanonicalization
| RootNotDirectory
| InvalidMountPath
| ZeroMaxFileBytes
| ZeroStreamingThreshold.

Definition DEFAULT_MAX_FILE_BYTES : Z := 8 * 1024 * 1024.

Definition valid_mount_segment (segment : str) : bool :=
  nonempty segment
  && negb (str_eqb segment ##"." || str_eqb segment ##"..")
  && negb (contains_any [byte_of 92; byte_of 0] segment).

Definition valid_mount_path (path : str) : bool :=
  if negb (starts_with ##"/" path)
     || contains_any ##"?#%" path
     || contains_str ##"//" path
     || ((1 <? List.length path)%nat && ends_with ##"/" path)
  then false
  else str_eqb path ##"/" || forallb valid_mount_segment (tail (split "/" path)).

Section config.
Context `{HttpApi}.

Record StaticFiles : Type := {
  root : Path;
  mount_path : str;
  max_file_bytes : Z;
  streaming_threshold : option Z;
  cache_control : HeaderValue;
  precompressed_variants : bool
}.

Definition static_new `{FileSystem} (configured : Path) : result StaticFiles StaticFilesError :=
  match fs_canonicalize configured with
  | None => Err RootCanonicalization
  | Some canonical =>
      if negb (fs_is_dir canonical) then Err RootNotDirectory
      else Ok {| root := canonical;
                 mount_path := ##"/static";
                 max_file_bytes := DEFAULT_MAX_FILE_BYTES;
                 streaming_threshold := None;
                 cache_control := hv_from_static ##"no-store";
                 precompressed_variants := false |}
  end.

(** [StaticFiles::at]. *)
Definition at_mount (mount : str) (files : StaticFiles) : result StaticFiles StaticFilesError :=
  if negb (valid_mount_path mount) then Err InvalidMountPath
  else Ok {| root := root files;
             mount_path := mount;
             max_file_bytes := max_file_bytes files;
             streaming_threshold := streaming_threshold files;
             cache_control := cache_control files;
             precompressed_variants := precompressed_variants files |}.

Definition with_max_file_bytes (n : Z) (files : StaticFiles) :
    result StaticFiles StaticFilesError :=
  if n =? 0 then Err ZeroMaxFileBytes
  else Ok {| root := root files;
             mount_path := mount_path files;
             max_file_bytes := n;
             streaming_threshold := streaming_threshold files;
             cache_control := cache_control files;
             precompressed_variants := precompressed_variants files |}.

Definition with_streaming_threshold (threshold : Z) (files : StaticFiles) :
    result StaticFiles StaticFilesError :=
  if threshold =? 0 then Err ZeroStreamingThreshold
  else Ok {| root := root files;
             mount_path := mount_path files;
             max_file_bytes := max_file_bytes files;
             streaming_threshold := Some threshold;
             cache_control := cache_control files;
             precompressed_variants := precompressed_variants files |}.

Definition with_cache_control (value : HeaderValue) (files : StaticFiles) : StaticFiles :=
  {| root := root files;
     mount_path := mount_path files;
     max_file_bytes := max_file_bytes files;
     streaming_threshold := streaming_threshold files;
     cache_control := value;
     precompressed_variants := precompressed_variants files |}.

Definition with_precompressed_variants (enabled : bool) (files : StaticFiles) : StaticFiles :=
  {| root := root files;
     mount_path := mount_path files;
     max_file_bytes := max_file_bytes files;
     streaming_threshold := streaming_threshold files;
     cache_control := cache_control files;
     precompressed_variants := enabled |}.

(** ** Percent decoding *)

Definition hex_value (c : ascii) : result Z unit :=
  if in_range 48 57 c then Ok (code c - 48)
  else if in_range 97 102 c then Ok (code c - 97 + 10)
  else if in_range 65 70 c then Ok (code c - 65 + 10)
  else Err tt.

(** The decoding loop. *)
Fixpoint percent_decode (bytes : bytes) : result Prelude.bytes unit :=
  match bytes with
  | [] => Ok []
  | c :: rest =>
      if char_eqb "%" c then
        match rest with
        | high :: low :: rest' =>
            let? h := hex_value high in
            let? l := hex_value low in
            let? decoded := percent_decode rest' in
            Ok (byte_of (Z.lor (Z.shiftl h 4) l) :: decoded)
        | _ => Err tt
        end
      else
        let? decoded := percent_decode rest in
        Ok (c :: decoded)
  end.

Definition percent_decode_segment (segment : str) : result str unit :=
  if negb (nonempty segment) then Err tt
  else
    let? decoded := percent_decode segment in
    if negb (valid_utf8 decoded) then Err tt
    else if negb (valid_mount_segment decoded) || contains_char "/" decoded then Err tt
    else Ok decoded.

(** The loop of [relative_path] over the segments. *)
Fixpoint push_segments (local : Path) (segments : list str) : result Path unit :=
  match segments with
  | [] => Ok local
  | s :: rest =>
      let? decoded := percent_decode_segment s in
      push_segments (push local decoded) rest
  end.

Definition relative_path (files : StaticFiles) (path : str) : result (option Path) unit :=
  let relative :=
    if str_eqb (mount_path files) ##"/" then
      match strip_prefix ##"/" path with Some r => Ok (Some r) | None => Err tt end
    else if str_eqb path (mount_path files) then Ok (Some [])
    else
      match strip_prefix (mount_path files) path with
      | Some suffix => Ok (strip_prefix ##"/" suffix)
      | None => Ok None
      end in
  match relative with
  | Err e => Err e
  | Ok None => Ok None
  | Ok (Some relative) =>
      if negb (nonempty relative) then Ok (Some [])
      else let? local := push_segments [] (split "/" relative) in Ok (Some local)
  end.
End config.

(** ** Lemmas: segments *)

(** A decoded segment that names one entry of a directory. *)
Definition safe_segment (s : str) : Prop :=
  valid_utf8 s = true /\ valid_mount_segment s = true /\ "/"%char ∉ s.

Lemma percent_decode_segment_Ok s d :
  percent_decode_segment s = Ok d <-> percent_decode s = Ok d /\ safe_segment d.
Proof.
  unfold percent_decode_segment, safe_segment. split.
  - destruct s as [|c s]; [done|]. cbn [nonempty negb].
    destruct (percent_decode (c :: s)) as [x|]; [|done].
    destruct (valid_utf8 x) eqn:Eu; [|done]. destruct (valid_mount_segment x) eqn:Em; [|done].
    destruct (contains_char "/" x) eqn:Es; [done|]. apply contains_char_false in Es.
    intros [= <-]. done.
  - intros (HD & Hu & Hm & Hs). destruct s as [|c s].
    { injection HD as <-. discriminate Hm. }
    cbn [nonempty negb]. rewrite HD, Hu, Hm. apply contains_char_false in Hs. by rewrite Hs.
Qed.

Lemma safe_nonempty s : safe_segment s -> nonempty s = true.
Proof. intros (_ & Hm & _). unfold valid_mount_segment in Hm. by simp. Qed.

Lemma safe_good s : safe_segment s -> good_piece s.
Proof. intros Hs. split; [by apply safe_nonempty | apply Hs]. Qed.

Lemma safe_not_dots s : safe_segment s -> s <> ##"." /\ s <> ##"..".
Proof. intros (_ & Hm & _). split; intros ->; discriminate Hm. Qed.

Lemma safe_no_slash_start s t : safe_segment s -> starts_with ##"/" (s ++ t) = false.
Proof. intros Hs. by apply good_piece_head, safe_good. Qed.

Lemma ends_with_snoc c s x : ends_with [c] (s ++ [x]) = char_eqb c x.
Proof.
  unfold ends_with, starts_with. rewrite rev_app_distr. simpl. by destruct (char_eqb c x).
Qed.

Lemma safe_no_slash_end a s : safe_segment s -> ends_with ##"/" (a ++ s) = false.
Proof.
  intros Hs. pose proof (safe_nonempty s Hs) as Hn. destruct Hs as (_ & _ & Hs).
  destruct s as [|x s] using rev_ind; [done|]. rewrite app_assoc.
  unfold lit. cbn [String.list_ascii_of_string]. rewrite ends_with_snoc.
  apply char_eqb_false. intros <-. set_solver.
Qed.

Lemma push_safe base s :
  safe_segment s ->
  push base s = if nonempty base && negb (ends_with ##"/" base) then base ++ ##"/" ++ s else base ++ s.
Proof.
  intros Hs. unfold push. pose proof (safe_no_slash_start s [] Hs) as H. rewrite app_nil_r in H.
  by rewrite H.
Qed.

Lemma join_snoc sep l s : l <> [] -> join sep (l ++ [s]) = join sep l ++ sep ++ s.
Proof.
  induction l as [|a l IH]; intros Hl; [done|]. destruct l as [|b l]; [done|].
  change ((a :: b :: l) ++ [s]) with (a :: (b :: l) ++ [s]).
  rewrite (join_cons sep a ((b :: l) ++ [s])) by (by destruct l).
  rewrite IH by done. rewrite (join_cons sep a (b :: l)) by done. by rewrite <- !app_assoc.
Qed.

Lemma nonempty_app_r a b : nonempty b = true -> nonempty (a ++ b) = true.
Proof. by destruct a, b. Qed.

Lemma push_join done s :
  Forall safe_segment done -> safe_segment s ->
  push (join ##"/" done) s = join ##"/" (done ++ [s]).
Proof.
  intros HF Hs. rewrite push_safe by done. destruct (decide (done = [])) as [->|Hne]; [done|].
  rewrite join_snoc by done. destruct done as [|d done] using rev_ind; [done|].
  apply Forall_app in HF as [_ [Hd _]%Forall_cons].
  assert (HJ : exists a, join ##"/" (done ++ [d]) = a ++ d).
  { destruct (decide (done = [])) as [->|]; [by exists []|].
    rewrite join_snoc by done. eexists. by rewrite app_assoc. }
  destruct HJ as [a ->]. rewrite safe_no_slash_end by done.
  by rewrite nonempty_app_r by by apply safe_nonempty.
Qed.

Lemma push_segments_Ok done raws p :
  Forall safe_segment done ->
  push_segments (join ##"/" done) raws = Ok p <->
  exists segs, Forall2 (fun raw d => percent_decode raw = Ok d) raws segs /\
    Forall safe_segment segs /\ p = join ##"/" (done ++ segs).
Proof.
  revert done. induction raws as [|raw raws IH]; intros done HF; cbn [push_segments].
  - split.
    + intros [= <-]. exists []. rewrite app_nil_r. split_and!; constructor.
    + intros (segs & HD & _ & ->). inversion HD; subst. by rewrite app_nil_r.
  - destruct (percent_decode_segment raw) as [d|] eqn:Ed.
    + apply percent_decode_segment_Ok in Ed as [Hd Hs]. rewrite push_join by done.
      rewrite IH by (apply Forall_app; split; [done | by constructor]). split.
      * intros (segs & HD & HS & ->). exists (d :: segs). rewrite <- app_assoc.
        split_and!; [by constructor | by constructor | done].
      * intros (segs & HD & HS & ->). inversion HD as [|? d' ? segs' Hd' HD']; subst.
        apply Forall_cons in HS as [_ HS]. exists segs'. rewrite <- app_assoc.
        replace d' with d by congruence. done.
    + split; [done|]. intros (segs & HD & HS & _).
      inversion HD as [|? d' ? segs' Hd' HD']; subst. apply Forall_cons in HS as [Hs _].
      assert (HP : percent_decode_segment raw = Ok d') by (by apply percent_decode_segment_Ok).
      congruence.
Qed.

Lemma push_segments_Err raws base e :
  push_segments base raws = Err e ->
  exists raw, raw ∈ raws /\ forall d, safe_segment d -> percent_decode raw <> Ok d.
Proof.
  revert base. induction raws as [|raw raws IH]; intros base; cbn [push_segments]; [done|].
  destruct (percent_decode_segment raw) as [d|] eqn:Ed.
  - intros (r & ? & ?)%IH. exists r. split; [by right | done].
  - intros _. exists raw. split; [by left|]. intros d Hd HP.
    assert (percent_decode_segment raw = Ok d) by (by apply percent_decode_segment_Ok). congruence.
Qed.

(** Joining safe segments below an absolute root appends them as components. *)
Lemma components_join_safe r segs :
  starts_with ##"/" r = true -> Forall safe_segment segs ->
  components (push r (join ##"/" segs)) = components r ++ segs.
Proof.
  intros Hr HF.
  assert (HJ : starts_with ##"/" (join ##"/" segs) = false).
  { destruct segs as [|s [|s' segs]]; [done| |].
    - rewrite <- (app_nil_r (join _ _)). by apply safe_no_slash_start, (Forall_inv HF).
    - rewrite join_cons by done. apply safe_no_slash_start, (Forall_inv HF). }
  assert (HP : exists q, push r (join ##"/" segs) = r ++ q /\ pieces "/" (r ++ q) = pieces "/" r ++ segs).
  { assert (Hpj : pieces "/" (join ##"/" segs) = segs).
    { destruct (decide (segs = [])) as [->|]; [done|]. apply (pieces_join "/").
      eapply Forall_impl; [exact HF|]. intros s Hs. by apply safe_good. }
    apply starts_with_true in Hr as [r' ->].
    unfold push. rewrite HJ. cbn [nonempty app andb]. destruct (ends_with _ _) eqn:Ee; cbn [negb].
    - exists (join ##"/" segs). split; [done|].
      unfold ends_with in Ee. apply starts_with_true in Ee as [z Hz].
      apply (f_equal (@rev ascii)) in Hz. rewrite rev_involutive, rev_app_distr in Hz.
      change (rev (rev ##"/")) with ["/"%char] in Hz. rewrite Hz, <- app_assoc. cbn [app].
      rewrite pieces_app, Hpj. by rewrite pieces_snoc_sep.
    - exists (##"/" ++ join ##"/" segs). split; [done|].
      change (##"/" ++ join ##"/" segs) with ("/"%char :: join ##"/" segs).
      by rewrite pieces_app, Hpj. }
  destruct HP as (q & -> & HP). unfold components. rewrite HP.
  assert (starts_with ##"/" (r ++ q) = true) as ->.
  { apply starts_with_true in Hr as [r' ->]. apply starts_with_true. exists (r' ++ q).
    by rewrite app_assoc. }
  rewrite Hr, List.filter_app. cbn [app]. f_equal. f_equal.
  clear -HF. induction HF as [|s segs Hs _ IH]; [done|]. cbn [List.filter].
  destruct (str_eqb s ##".") eqn:E; [|cbn [negb]; by f_equal].
  apply str_eqb_true in E. by destruct (safe_not_dots s Hs).
Qed.

(** ** Lemmas: percent encoding *)

Definition hex_digit (d : Z) : ascii := if d <? 10 then byte_of (48 + d) else byte_of (55 + d).

(** Every byte as [%XX]. *)
Definition percent_encode (s : str) : str :=
  s ≫= fun c => ["%"%char; hex_digit (code c / 16); hex_digit (code c mod 16)].

Lemma hex_value_digit d : 0 <= d < 16 -> hex_value (hex_digit d) = Ok d.
Proof.
  intros Hd. unfold hex_value, hex_digit, in_range.
  destruct (d <? 10) eqn:E; rewrite code_byte_of by lia.
  - rewrite (proj2 (Z.leb_le 48 _)), (proj2 (Z.leb_le _ 57)) by lia. cbn [andb]. f_equal. lia.
  - rewrite (proj2 (Z.leb_gt (55 + d) 57)) by lia. rewrite andb_false_r.
    rewrite (proj2 (Z.leb_gt 97 _)) by lia. cbn [andb].
    rewrite (proj2 (Z.leb_le 65 _)), (proj2 (Z.leb_le _ 70)) by lia. cbn [andb]. f_equal. lia.
Qed.

Lemma nibbles c : Z.lor (Z.shiftl (code c / 16) 4) (code c mod 16) = code c.
Proof.
  change 16 with (2 ^ 4). rewrite <- Z.land_ones, <- Z.shiftr_div_pow2 by lia.
  apply Z.bits_inj'. intros n Hn. rewrite Z.lor_spec, Z.land_spec, Z.shiftl_spec by lia.
  rewrite Z.testbit_ones_nonneg by lia. destruct (Z.ltb_spec n 4).
  - rewrite Z.testbit_neg_r, andb_true_r by lia. done.
  - rewrite Z.shiftr_spec, andb_false_r, orb_false_r by lia. f_equal. lia.
Qed.

Lemma percent_decode_encode s : percent_decode (percent_encode s) = Ok s.
Proof.
  induction s as [|c s IH]; [done|]. unfold percent_encode in *. rewrite bind_cons. cbn [app].
  cbn [percent_decode]. rewrite char_eqb_refl. pose proof (code_range c).
  assert (0 <= code c / 16 < 16) by (split; [apply Z.div_pos | apply Z.div_lt_upper_bound]; lia).
  rewrite !hex_value_digit by (done || apply Z.mod_pos_bound; lia).
  rewrite IH, nibbles. by rewrite byte_of_code.
Qed.

Lemma hex_digit_not_slash d : 0 <= d < 16 -> hex_digit d <> "/"%char.
Proof.
  intros Hd HE. apply (f_equal code) in HE. unfold hex_digit in HE. change (code "/") with 47 in HE.
  destruct (d <? 10); rewrite code_byte_of in HE by lia; lia.
Qed.

Lemma percent_encode_no_slash s : "/"%char ∉ percent_encode s.
Proof.
  unfold percent_encode. rewrite list_elem_of_bind. intros (c & Hin & _).
  pose proof (code_range c).
  assert (0 <= code c / 16 < 16) by (split; [apply Z.div_pos | apply Z.div_lt_upper_bound]; lia).
  rewrite !elem_of_cons in Hin. destruct Hin as [?|[HE|[HE|?%not_elem_of_nil]]]; try done;
    symmetry in HE; revert HE; apply hex_digit_not_slash; [done | apply Z.mod_pos_bound; lia].
Qed.

(** ** Properties *)

Section paths.
Context `{HttpApi}.

(** The request path lies at or below the mount, with [rest] behind it. *)
Definition below (files : StaticFiles) (path rest : str) : Prop :=
  if str_eqb (mount_path files) ##"/" then path = ##"/" ++ rest
  else path = mount_path files ++ ##"/" ++ rest \/ path = mount_path files /\ rest = [].

(** The raw segments the loop decodes. *)
Definition raw_segments (rest : str) : list str := if nonempty rest then split "/" rest else [].

(** The prefix handling of [relative_path], by itself. *)
Lemma relative_path_below files path rest :
  below files path rest ->
  relative_path files path = (let? local := push_segments [] (raw_segments rest) in Ok (Some local)).
Proof.
  unfold below, relative_path, raw_segments. intros HB.
  destruct (str_eqb (mount_path files) ##"/").
  - subst. rewrite strip_prefix_app. by destruct rest.
  - destruct (str_eqb path (mount_path files)) eqn:Ep.
    + apply str_eqb_true in Ep. destruct HB as [HB|[_ ->]]; [|done].
      apply (f_equal List.length) in HB. rewrite Ep, length_app in HB. simpl in HB. lia.
    + destruct HB as [-> |[-> _]].
      * rewrite !strip_prefix_app. by destruct rest.
      * by rewrite (proj2 (str_eqb_true _ _)) in Ep.
Qed.

Lemma relative_path_not_below files path :
  (forall rest, ~ below files path rest) ->
  relative_path files path = if str_eqb (mount_path files) ##"/" then Err tt else Ok None.
Proof.
  unfold below, relative_path. intros HB. destruct (str_eqb (mount_path files) ##"/").
  - destruct (strip_prefix ##"/" path) eqn:E; [|done]. apply strip_prefix_Some in E. naive_solver.
  - destruct (str_eqb path (mount_path files)) eqn:Ep.
    { apply str_eqb_true in Ep. exfalso. apply (HB []). by right. }
    destruct (strip_prefix (mount_path files) path) as [t|] eqn:E; [|done].
    apply strip_prefix_Some in E. destruct (strip_prefix ##"/" t) as [r|] eqn:E'; [|done].
    apply strip_prefix_Some in E'. subst. exfalso. apply (HB r). by left.
Qed.

Lemma below_dec files path : (exists rest, below files path rest) \/ forall rest, ~ below files path rest.
Proof.
  unfold below. destruct (str_eqb (mount_path files) ##"/").
  - destruct (strip_prefix ##"/" path) eqn:E.
    + apply strip_prefix_Some in E. left; eauto.
    + right. intros rest ->. by rewrite strip_prefix_app in E.
  - destruct (decide (path = mount_path files)) as [->|Hne]; [left; exists []; by right|].
    destruct (strip_prefix (mount_path files ++ ##"/") path) as [r|] eqn:E.
    + apply strip_prefix_Some in E as ->. left. exists r. left. by rewrite <- app_assoc.
    + right. intros rest [->|[-> _]]; [|done]. rewrite app_assoc, strip_prefix_app in E. done.
Qed.
End paths.

(** Request paths never leave the root. A path is handed to the inner service
    exactly when it is not at or below the mount. A path that is served decodes,
    segment by segment, to entries that are no [.] or [..], hold no separator,
    backslash or NUL and are valid UTF-8, and the looked-up path is the root
    followed by exactly these components. Everything else is rejected, and only
    because some segment has no such decoding. *)
Theorem relative_path_confined `{HttpApi} files path :
  starts_with ##"/" (root files) = true ->
  match relative_path files path with
  | Ok (Some local) =>
      exists rest segs, below files path rest /\
        Forall2 (fun raw d => percent_decode raw = Ok d) (raw_segments rest) segs /\
        Forall safe_segment segs /\
        components (push (root files) local) = components (root files) ++ segs
  | Ok None => mount_path files <> ##"/" /\ forall rest, ~ below files path rest
  | Err _ =>
      mount_path files = ##"/" /\ (forall rest, ~ below files path rest) \/
      exists rest raw, below files path rest /\ raw ∈ raw_segments rest /\
        forall d, safe_segment d -> percent_decode raw <> Ok d
  end.
Proof.
  intros Hr. destruct (below_dec files path) as [[rest HB]|HB].
  - rewrite (relative_path_below _ _ _ HB).
    destruct (push_segments [] (raw_segments rest)) as [local|e] eqn:E.
    + apply (push_segments_Ok []) in E as (segs & HD & HS & ->); [|constructor].
      exists rest, segs. split_and!; [done..|]. by apply components_join_safe.
    + apply push_segments_Err in E as (raw & Hin & Hno). right. eauto.
  - rewrite (relative_path_not_below _ _ HB). destruct (str_eqb _ _) eqn:E.
    + apply str_eqb_true in E. by left.
    + by apply bool_decide_eq_false in E.
Qed.

(** Every file below the root can be asked for. For every non-empty list of
    valid entry names, the request path that percent-encodes them below the
    mount is resolved to exactly that path. *)
Theorem relative_path_reaches `{HttpApi} files segs :
  segs <> [] -> Forall safe_segment segs ->
  let mount := if str_eqb (mount_path files) ##"/" then [] else mount_path files in
  relative_path files (mount ++ ##"/" ++ join ##"/" (percent_encode <$> segs)) =
    Ok (Some (join ##"/" segs)).
Proof.
  intros Hne HF. set (rest := join ##"/" (percent_encode <$> segs)). cbn zeta.
  rewrite (relative_path_below _ _ rest); last first.
  { unfold below. destruct (str_eqb _ _); [done | by left]. }
  assert (HN : nonempty rest = true).
  { unfold rest. destruct segs as [|s segs]; [done|]. apply Forall_inv, safe_nonempty in HF.
    destruct s as [|c s]; [done|]. by destruct segs. }
  assert (HR : raw_segments rest = percent_encode <$> segs).
  { unfold raw_segments. rewrite HN. apply (split_join "/"); [by destruct segs|].
    apply Forall_fmap, Forall_forall. intros s _. apply percent_encode_no_slash. }
  rewrite HR. assert (push_segments [] (percent_encode <$> segs) = Ok (join ##"/" segs)) as ->; [|done].
  apply (push_segments_Ok []); [constructor|]. exists segs. split_and!; [|done|done].
  clear. induction segs as [|s segs IH]; constructor; [apply percent_decode_encode | done].
Qed.

(** ** Configuration *)

(** Sizes and thresholds are positive and the mount is a normalized path. *)
Definition files_wf `{HttpApi} (files : StaticFiles) : Prop :=
  valid_mount_path (mount_path files) = true /\ max_file_bytes files <> 0 /\
  streaming_threshold files <> Some 0.

Inductive built `{HttpApi, FileSystem} : StaticFiles -> Prop :=
| built_new p files : static_new p = Ok files -> built files
| built_at m files files' : built files -> at_mount m files = Ok files' -> built files'
| built_max n files files' : built files -> with_max_file_bytes n files = Ok files' -> built files'
| built_threshold n files files' :
    built files -> with_streaming_threshold n files = Ok files' -> built files'
| built_cache v files : built files -> built (with_cache_control v files)
| built_precompressed b files : built files -> built (with_precompressed_variants b files).

(** every configuration that can be built is well formed, and its root is a
    canonical directory: each setter rejects exactly the values that would break
    the invariant. *)
Theorem built_files_wf `{HttpApi, FileSystem} files :
  built files ->
  files_wf files /\ fs_is_dir (root files) = true /\ exists p, fs_canonicalize p = Some (root files).
Proof.
  unfold files_wf. induction 1 as [p files E|m files files' _ IH E|n files files' _ IH E
    |n files files' _ IH E|v files _ IH|b files _ IH]; try done.
  - unfold static_new in E. destruct (fs_canonicalize p) as [c|] eqn:Ec; [|done].
    destruct (fs_is_dir c) eqn:Ed; [|done]. injection E as <-. simpl.
    split_and!; [reflexivity | done | done | done | eauto].
  - unfold at_mount in E. destruct (valid_mount_path m) eqn:Em; [|done]. injection E as <-.
    simpl. tauto.
  - unfold with_max_file_bytes in E. destruct (n =? 0) eqn:En; [done|]. injection E as <-.
    simpl. apply Z.eqb_neq in En. tauto.
  - unfold with_streaming_threshold in E. destruct (n =? 0) eqn:En; [done|]. injection E as <-.
    simpl. apply Z.eqb_neq in En. split_and!; try tauto. congruence.
Qed.

(** ** Examples *)

Module StaticPathExamples.
Import HttpModel.

(** A directory [/srv] with one file [/srv/a b.txt] of ten bytes; every path is canonical. *)
Definition content : bytes := ##"0123456789".
#[export] Instance memory_fs : FileSystem := {
  fs_canonicalize p := Some p;
  fs_is_dir p := str_eqb p ##"/srv";
  fs_metadata p :=
    if str_eqb p ##"/srv/a b.txt"
    then Some {| is_file := true; meta_len := 10; meta_modified := Some 1500000000 |} else None;
  fs_read p := if str_eqb p ##"/srv/a b.txt" then Some content else None;
  fs_open_at p _ := str_eqb p ##"/srv/a b.txt";
  fs_read_exact p o n :=
    if o + n <=? 10 then Some (firstn (Z.to_nat n) (skipn (Z.to_nat o) content)) else None;
  fs_stream p o n := [inl (firstn (Z.to_nat n) (skipn (Z.to_nat o) content))]
}.

Definition files : StaticFiles := {|
  root := ##"/srv"; mount_path := ##"/static"; max_file_bytes := DEFAULT_MAX_FILE_BYTES;
  streaming_threshold := None; cache_control := ##"no-store"; precompressed_variants := false
|}.

Lemma relative_path_confined_witness :
  exists segs, Forall safe_segment segs /\
    components (push (root files) ##"a b.txt") = components (root files) ++ segs.
Proof.
  pose proof (relative_path_confined files ##"/static/a%20b.txt" eq_refl) as HC.
  destruct (relative_path files ##"/static/a%20b.txt") as [[p|]|] eqn:E;
    vm_compute in E; try discriminate E.
  injection E as <-. destruct HC as (rest & segs & _ & _ & HS & HE). eauto.
Defined.

Lemma relative_path_reaches_witness :
  relative_path files ##"/static/%61%20%62" = Ok (Some ##"a b").
Proof.
  assert (HS : Forall safe_segment [##"a b"]).
  { repeat constructor; try reflexivity. vm_compute. intros Hin.
    repeat (apply elem_of_cons in Hin as [Hin|Hin]; [discriminate Hin|]).
    by apply not_elem_of_nil in Hin. }
  exact (relative_path_reaches files [##"a b"] ltac:(done) HS).
Defined.

Lemma built_files_wf_witness : files_wf files /\ fs_is_dir (root files) = true.
Proof.
  destruct (built_files_wf files) as (HW & HD & _); [|done].
  by apply (built_new ##"/srv").
Defined.
End StaticPathExamples.
