(* ===== verification/StaticFiles.v ===== *)
(** Static file delivery: [crates/rustee-static/src/encoding.rs], [response.rs],
    [response/multipart.rs], [delivery.rs] and [layer.rs].

    [expect] failures are [None], so that their absence is a theorem. The clock
    and the process-wide boundary counter are threaded explicitly. *)

From Stdlib Require Import ZArith Lia Bool Ascii.
From stdpp Require Import sets.
From S2P Require Import Prelude Strings Http Core HttpModel Range Negotiation StaticPath.

Local Open Scope Z_scope.

(** ** Representations *)

Definition suffix (c : ContentCoding) : str :=
  match c with Brotli => ##".br" | Gzip => ##".gz" end.
Definition variant_path (target : Path) (encoding : ContentCoding) : Path :=
  target ++ suffix encoding.

Record StaticRepresentation : Type := {
  target : Path;
  metadata : Metadata;
  content_encoding : option ContentCoding
}.

(** [Path::file_name] and [Path::extension]. *)
Definition file_name (p : Path) : option str :=
  match last (components p) with
  | Some s => if str_eqb s ##"/" || str_eqb s ##"." || str_eqb s ##".." then None else Some s
  | None => None
  end.
Definition rsplit_once (c : ascii) (s : str) : option (str * str) :=
  match split_once c (rev s) with
  | Some (a, b) => Some (rev b, rev a)
  | None => None
  end.
Definition extension (p : Path) : option str :=
  match file_name p with
  | None => None
  | Some name =>
      match rsplit_once "." name with
      | Some ([], _) | None => None
      | Some (_, ext) => Some ext
      end
  end.

(** The [match] of [content_type], by the lower-case extension. *)
Definition content_type_text (ext : option str) : str :=
  match ext with
  | None => ##"application/octet-stream"
  | Some e =>
      if str_eqb e ##"css" then ##"text/css; charset=utf-8"
      else if str_eqb e ##"gif" then ##"image/gif"
      else if str_eqb e ##"htm" || str_eqb e ##"html" then ##"text/html; charset=utf-8"
      else if str_eqb e ##"ico" then ##"image/x-icon"
      else if str_eqb e ##"jpeg" || str_eqb e ##"jpg" then ##"image/jpeg"
      else if str_eqb e ##"js" || str_eqb e ##"mjs" then ##"text/javascript; charset=utf-8"
      else if str_eqb e ##"json" || str_eqb e ##"map" then ##"application/json; charset=utf-8"
      else if str_eqb e ##"png" then ##"image/png"
      else if str_eqb e ##"svg" then ##"image/svg+xml"
      else if str_eqb e ##"txt" then ##"text/plain; charset=utf-8"
      else if str_eqb e ##"wasm" then ##"application/wasm"
      else if str_eqb e ##"webp" then ##"image/webp"
      else ##"application/octet-stream"
  end.

(** ** Multipart framing *)

Definition crlf : bytes := [byte_of 13; byte_of 10].
Definition quote : ascii := byte_of 34.

(** [from_utf8] is the identity on the ASCII content types of [content_type]. *)
Definition multipart_part_header (boundary : str) (content_type : bytes) (r : ByteRange)
    (full_length : Z) : bytes :=
  ##"--" ++ boundary ++ crlf ++ ##"Content-Type: " ++ content_type ++ crlf
    ++ ##"Content-Range: bytes " ++ to_dec (start r) ++ ##"-" ++ to_dec (end_ r) ++ ##"/"
    ++ to_dec full_length ++ crlf ++ crlf.

Definition multipart_closing_boundary (boundary : str) : bytes :=
  ##"--" ++ boundary ++ ##"--" ++ crlf.

(** The boundary and the next value of [NEXT_MULTIPART_BOUNDARY]. *)
Definition multipart_boundary (timestamp counter : Z) : str * Z :=
  (##"rustee-" ++ to_hex timestamp ++ ##"-" ++ to_hex counter, wrap_u64 (counter + 1)).

Definition checked_add_u64 : Z -> Z -> option Z := checked_add u64_max.

Fixpoint multipart_parts_length (boundary : str) (content_type : bytes) (ranges : list ByteRange)
    (full_length length : Z) : option Z :=
  match ranges with
  | [] => Some length
  | r :: rest =>
      let header := multipart_part_header boundary content_type r full_length in
      length ← checked_add_u64 length (Z.of_nat (List.length header));
      length ← checked_add_u64 length (range_len r);
      length ← checked_add_u64 length 2;
      multipart_parts_length boundary content_type rest full_length length
  end.

Definition multipart_content_length (boundary : str) (content_type : bytes)
    (ranges : list ByteRange) (full_length : Z) : option Z :=
  length ← multipart_parts_length boundary content_type ranges full_length 0;
  checked_add_u64 length (Z.of_nat (List.length (multipart_closing_boundary boundary))).

Fixpoint multipart_file_body `{FileSystem} (path : Path) (content_type : bytes) (boundary : str)
    (ranges : list ByteRange) (full_length : Z) : Body :=
  match ranges with
  | [] => [inl (multipart_closing_boundary boundary)]
  | r :: rest =>
      inl (multipart_part_header boundary content_type r full_length) ::
      if fs_open_at path (start r) then
        fs_stream path (start r) (range_len r) ++
        inl crlf :: multipart_file_body path content_type boundary rest full_length
      else [inr OtherError]
  end.

(** ** Bodies *)

Definition streaming_file_body `{FileSystem} (path : Path) (offset length : Z) : option Body :=
  if fs_open_at path offset then Some (stream_body (fs_stream path offset length)) else None.

Definition read_file_range `{FileSystem} (path : Path) (offset length : Z) : option bytes :=
  if fs_open_at path offset then fs_read_exact path offset length else None.

Definition static_file_body `{FileSystem} (path : Path) (offset length : Z)
    (streaming_threshold : option Z) (full_representation : bool) : option Body :=
  if match streaming_threshold with Some t => t <=? length | None => false end
  then streaming_file_body path offset length
  else if full_representation then
    data ← fs_read path;
    if Z.of_nat (List.length data) =? length then Some (full_body data) else None
  else full_body <$> read_file_range path offset length.

Definition read_static_body `{FileSystem} (rep : StaticRepresentation) (range : RequestedRange)
    (head : bool) (streaming_threshold : option Z) :
    option (StatusCode * option ByteRange * Body) :=
  match range with
  | Full =>
      body ← (if head then Some empty_body
              else static_file_body (target rep) 0 (meta_len (metadata rep)) streaming_threshold true);
      Some (200, None, body)
  | Partial r =>
      body ← (if head then Some empty_body
              else static_file_body (target rep) (start r) (range_len r) streaming_threshold false);
      Some (206, Some r, body)
  | Multipart _ | Unsatisfiable => None
  end.

(** ** Conditional requests *)

Definition is_ascii_whitespace (c : ascii) : bool := (code c =? 32) || in_range 9 13 c && negb (code c =? 11).
Definition trim_ascii : bytes -> bytes := trim_by is_ascii_whitespace.

Definition strip_weak_prefix (value : str) : str :=
  match strip_prefix ##"W/" (trim value) with Some v => v | None => trim value end.
Definition weak_etag_matches (candidate current : str) : bool :=
  str_eqb (strip_weak_prefix candidate) (strip_weak_prefix current).

Section delivery.
Context `{HttpApi} `{!Serialize ErrorPayload} `{FileSystem}.
(** [httpdate::parse_http_date] and [httpdate::fmt_http_date]. *)
Context (parse_http_date : str -> option SystemTime) (fmt_http_date : SystemTime -> str).

Definition content_type (p : Path) : HeaderValue :=
  let ext := match extension p with
             | Some e => if valid_utf8 e then Some (to_ascii_lowercase e) else None
             | None => None
             end in
  hv_from_static (content_type_text ext).

(** The first acceptable sibling that exists below the root and is small enough. *)
Fixpoint select_variant (files : StaticFiles) (path : Path) (encodings : list ContentCoding) :
    option StaticRepresentation :=
  match encodings with
  | [] => None
  | encoding :: rest =>
      match fs_canonicalize (variant_path path encoding) with
      | None => select_variant files path rest
      | Some found =>
          if negb (path_starts_with (root files) found) then select_variant files path rest
          else match fs_metadata found with
               | None => select_variant files path rest
               | Some m =>
                   if is_file m && (meta_len m <=? max_file_bytes files)
                   then Some {| target := found; metadata := m; content_encoding := Some encoding |}
                   else select_variant files path rest
               end
      end
  end.

Definition select_precompressed_variant (files : StaticFiles) (path : Path) (headers : HeaderMap) :
    option StaticRepresentation :=
  select_variant files path (preferred_precompressed_encodings headers).

(** The text of the entity tag: size, seconds and nanoseconds in hexadecimal. *)
Definition etag_text (m : Metadata) (modified : SystemTime) : str :=
  ##"W/" ++ [quote] ++ to_hex (meta_len m) ++ ##"-" ++ to_hex (modified / nanos_per_second)
    ++ ##"-" ++ to_hex (modified mod nanos_per_second) ++ [quote].

Definition cache_validators (m : Metadata) : option CacheValidators :=
  modified ← meta_modified m;
  if modified <? 0 then None
  else
    tag ← hv_from_str (etag_text m modified);
    date ← hv_from_str (fmt_http_date modified);
    Some {| etag := tag; last_modified := date; modified := modified |}.

Definition if_none_match (headers : HeaderMap) (validators : option CacheValidators) :
    option bool :=
  match hm_get_all IF_NONE_MATCH headers with
  | [] => None
  | values =>
      match validators with
      | None => Some (existsb (fun v => str_eqb (trim_ascii (hv_as_bytes v)) ##"*") values)
      | Some validators =>
          match hv_to_str (etag validators) with
          | None => Some false
          | Some current =>
              Some (existsb (fun v =>
                match hv_to_str v with
                | None => false
                | Some text =>
                    existsb (fun c => str_eqb c ##"*" || weak_etag_matches c current)
                      (map trim (split "," text))
                end) values)
          end
      end
  end.

Definition if_modified_since (headers : HeaderMap) (modified : SystemTime) : bool :=
  match hm_get_all IF_MODIFIED_SINCE headers with
  | [v] =>
      match hv_to_str v with
      | None => false
      | Some text =>
          match parse_http_date text with
          | None => false
          | Some since =>
              match truncate_to_seconds modified with
              | Some m => m <=? since
              | None => false
              end
          end
      end
  | _ => false
  end.

Definition is_not_modified (headers : HeaderMap) (validators : option CacheValidators) : bool :=
  match if_none_match headers validators with
  | Some matches => matches
  | None =>
      match validators with
      | Some validators => if_modified_since headers (modified validators)
      | None => false
      end
  end.

(** ** Responses *)

Definition insert_validators (validators : option CacheValidators) (headers : HeaderMap) :
    HeaderMap :=
  match validators with
  | Some v => hm_insert LAST_MODIFIED (last_modified v) (hm_insert ETAG (etag v) headers)
  | None => headers
  end.

Definition apply_representation_headers (encoding : option ContentCoding) (varies : bool)
    (headers : HeaderMap) : HeaderMap :=
  let headers := match encoding with
                 | Some c => hm_insert CONTENT_ENCODING (hv_from_static (token c)) headers
                 | None => headers
                 end in
  if varies then add_vary_accept_encoding headers else headers.

Record StaticResponseContext : Type := {
  ctx_files : StaticFiles;
  representation : StaticRepresentation;
  ctx_validators : option CacheValidators;
  content_type_target : Path;
  varies_by_encoding : bool
}.

(** The headers common to complete, partial and multipart responses. *)
Definition delivery_headers (ctx : StaticResponseContext) (ctype : HeaderValue) (length : Z)
    (headers : HeaderMap) : HeaderMap :=
  hm_insert ACCEPT_RANGES (hv_from_static ##"bytes")
    (hm_insert X_CONTENT_TYPE_OPTIONS (hv_from_static ##"nosniff")
      (hm_insert CACHE_CONTROL (cache_control (ctx_files ctx))
        (hm_insert CONTENT_LENGTH (hv_from_u64 length)
          (hm_insert CONTENT_TYPE ctype headers)))).

Definition static_success_response (ctx : StaticResponseContext) (status : StatusCode) (body : Body)
    (length : Z) (range : option ByteRange) : option Response :=
  let base := response status body in
  let headers := delivery_headers ctx (content_type (content_type_target ctx)) length
                   (res_headers base) in
  headers ←
    match range with
    | Some r =>
        value ← content_range_header r (meta_len (metadata (representation ctx)));
        Some (hm_insert CONTENT_RANGE value headers)
    | None => Some headers
    end;
  Some (with_headers (fun _ =>
    apply_representation_headers (content_encoding (representation ctx)) (varies_by_encoding ctx)
      (insert_validators (ctx_validators ctx) headers)) base).

Definition static_multipart_response (ctx : StaticResponseContext) (body : Body) (length : Z)
    (boundary : str) : option Response :=
  let base := response 206 body in
  ctype ← hv_from_str (##"multipart/byteranges; boundary=" ++ boundary);
  Some (with_headers (fun headers =>
    insert_validators (ctx_validators ctx) (delivery_headers ctx ctype length headers)) base).

Definition static_not_modified (files : StaticFiles) (validators : option CacheValidators)
    (encoding : option ContentCoding) (varies : bool) : Response :=
  with_headers (fun headers =>
    apply_representation_headers encoding varies
      (insert_validators validators
        (hm_insert ACCEPT_RANGES (hv_from_static ##"bytes")
          (hm_insert CACHE_CONTROL (cache_control files) headers))))
    (response 304 empty_body).

Definition static_range_not_satisfiable (files : StaticFiles) (validators : option CacheValidators)
    (length : Z) : option Response :=
  value ← unsatisfied_content_range_header length;
  Some (with_headers (fun headers =>
    insert_validators validators
      (hm_insert CONTENT_RANGE value
        (hm_insert ACCEPT_RANGES (hv_from_static ##"bytes")
          (hm_insert CACHE_CONTROL (cache_control files) headers))))
    (response 416 empty_body)).

Definition static_not_found : Response :=
  into_response (not_found ##"the requested static resource was not found").

(** *** One file

    [resolve] is [serve_file] up to the choice of the representation: the
    canonical target, the representation and whether it varies. *)
Definition resolve (files : StaticFiles) (relative : Path) (headers : HeaderMap) :
    option (Path * StaticRepresentation * bool) :=
  if negb (nonempty relative) then None
  else
    canonical ← fs_canonicalize (push (root files) relative);
    if negb (path_starts_with (root files) canonical) then None
    else
      m ← fs_metadata canonical;
      if negb (is_file m && (meta_len m <=? max_file_bytes files)) then None
      else
        let varies := precompressed_variants files && negb (hm_contains_key RANGE headers) in
        let identity := {| target := canonical; metadata := m; content_encoding := None |} in
        let rep := if varies
                   then default identity (select_precompressed_variant files canonical headers)
                   else identity in
        Some (canonical, rep, varies).

(** The rest of [serve_file]; [now] and [counter] feed the multipart boundary. *)
Definition deliver (files : StaticFiles) (ctarget : Path) (rep : StaticRepresentation)
    (varies : bool) (head : bool) (headers : HeaderMap) (now counter : Z) :
    option Response * Z :=
  let validators := cache_validators (metadata rep) in
  let full_length := meta_len (metadata rep) in
  if is_not_modified headers validators
  then (Some (static_not_modified files validators (content_encoding rep) varies), counter)
  else
    let ctx := {| ctx_files := files; representation := rep; ctx_validators := validators;
                  content_type_target := ctarget; varies_by_encoding := varies |} in
    match requested_range parse_http_date headers full_length validators with
    | Unsatisfiable => (static_range_not_satisfiable files validators full_length, counter)
    | Multipart ranges =>
        let '(boundary, counter) := multipart_boundary now counter in
        let part_type := hv_as_bytes (content_type ctarget) in
        match multipart_content_length boundary part_type ranges full_length with
        | None => (static_range_not_satisfiable files validators full_length, counter)
        | Some length =>
            let body := if head then empty_body
                        else multipart_file_body (target rep) part_type boundary ranges full_length in
            (static_multipart_response ctx body length boundary, counter)
        end
    | range =>
        match read_static_body rep range head (streaming_threshold files) with
        | None => (Some static_not_found, counter)
        | Some (status, range, body) =>
            let length := match range with Some r => range_len r | None => full_length end in
            (static_success_response ctx status body length range, counter)
        end
    end.

Definition serve_file (files : StaticFiles) (relative : Path) (head : bool) (headers : HeaderMap)
    (now counter : Z) : option Response * Z :=
  match resolve files relative headers with
  | None => (Some static_not_found, counter)
  | Some (ctarget, rep, varies) => deliver files ctarget rep varies head headers now counter
  end.

(** [Service for StaticFilesService]. *)
Definition static_call (files : StaticFiles) (inner : Service) (request : Request)
    (now counter : Z) : option Response * Z :=
  let is_head := str_eqb (req_method request) ##"HEAD" in
  if negb (str_eqb (req_method request) ##"GET" || is_head)
  then (Some (call_ready inner request), counter)
  else match relative_path files (uri_path (req_uri request)) with
       | Ok None => (Some (call_ready inner request), counter)
       | Err _ => (Some static_not_found, counter)
       | Ok (Some relative) =>
           serve_file files relative is_head (req_headers request) now counter
       end.
End delivery.

(** ** Confinement *)

(** Two file systems that agree on canonical names and, below a root, on everything. *)
Record agree_below (r : Path) (fs1 fs2 : FileSystem) : Prop := {
  agree_canonicalize p : @fs_canonicalize fs1 p = @fs_canonicalize fs2 p;
  agree_metadata p : path_starts_with r p = true -> @fs_metadata fs1 p = @fs_metadata fs2 p;
  agree_read p : path_starts_with r p = true -> @fs_read fs1 p = @fs_read fs2 p;
  agree_open p o : path_starts_with r p = true -> @fs_open_at fs1 p o = @fs_open_at fs2 p o;
  agree_exact p o n :
    path_starts_with r p = true -> @fs_read_exact fs1 p o n = @fs_read_exact fs2 p o n;
  agree_stream p o n :
    path_starts_with r p = true -> @fs_stream fs1 p o n = @fs_stream fs2 p o n
}.

Section confinement.
Context `{HttpApi} `{!Serialize ErrorPayload}.
Context (parse_http_date : str -> option SystemTime) (fmt_http_date : SystemTime -> str).
Context (files : StaticFiles) (fs1 fs2 : FileSystem) (Hagree : agree_below (root files) fs1 fs2).

Lemma select_variant_agree path encodings :
  select_variant (H0 := fs1) files path encodings = select_variant (H0 := fs2) files path encodings.
Proof.
  induction encodings as [|e rest IH]; cbn [select_variant]; [done|].
  rewrite (agree_canonicalize _ _ _ Hagree).
  destruct (fs_canonicalize (variant_path path e)) as [p|]; [|done].
  destruct (path_starts_with (root files) p) eqn:Ep; [|done]. cbn [negb].
  rewrite (agree_metadata _ _ _ Hagree) by done.
  by rewrite IH.
Qed.

(** A resolved representation always lies below the root. *)
Lemma select_variant_below `{FileSystem} path encodings rep :
  select_variant files path encodings = Some rep ->
  path_starts_with (root files) (target rep) = true /\
  fs_metadata (target rep) = Some (metadata rep) /\
  is_file (metadata rep) = true /\ meta_len (metadata rep) <= max_file_bytes files.
Proof.
  induction encodings as [|e rest IH]; cbn [select_variant]; [done|].
  destruct (fs_canonicalize _) as [p|]; [|done].
  destruct (path_starts_with (root files) p) eqn:Ep; [|done]. cbn [negb].
  destruct (fs_metadata p) as [m|] eqn:Em; [|done].
  destruct (is_file m && (meta_len m <=? max_file_bytes files)) eqn:E; [|done].
  intros [= <-]. simpl. split_and!; [done | done | |]; by simp.
Qed.

Lemma resolve_below `{FileSystem} relative headers ctarget rep varies :
  resolve files relative headers = Some (ctarget, rep, varies) ->
  path_starts_with (root files) (target rep) = true /\
  fs_metadata (target rep) = Some (metadata rep) /\
  is_file (metadata rep) = true /\ meta_len (metadata rep) <= max_file_bytes files.
Proof.
  unfold resolve. destruct (nonempty relative); [|done]. cbn [negb].
  destruct (fs_canonicalize _) as [p|]; [|done]. simpl.
  destruct (path_starts_with (root files) p) eqn:Ep; [|done]. cbn [negb].
  destruct (fs_metadata p) as [m|] eqn:Em; [|done]. simpl.
  destruct (is_file m && (meta_len m <=? max_file_bytes files)) eqn:E; [|done]. cbn [negb].
  intros [= <- <- _].
  destruct (precompressed_variants files && _); [|by simp].
  destruct (select_precompressed_variant files p headers) as [v|] eqn:Ev; [|by simp].
  by apply (select_variant_below p) in Ev.
Qed.

Lemma resolve_agree relative headers :
  @resolve _ fs1 files relative headers = @resolve _ fs2 files relative headers.
Proof.
  unfold resolve, select_precompressed_variant. rewrite (agree_canonicalize _ _ _ Hagree).
  destruct (negb (nonempty relative)); [done|].
  destruct (fs_canonicalize _) as [p|]; [|done]. simpl.
  destruct (path_starts_with (root files) p) eqn:Ep; [|done]. cbn [negb].
  rewrite (agree_metadata _ _ _ Hagree) by done.
  destruct (fs_metadata p) as [m|]; [|done]. simpl. by rewrite select_variant_agree.
Qed.

Lemma multipart_file_body_agree p ctype boundary ranges full_length :
  path_starts_with (root files) p = true ->
  @multipart_file_body fs1 p ctype boundary ranges full_length =
  @multipart_file_body fs2 p ctype boundary ranges full_length.
Proof.
  intros Hp. induction ranges as [|r rest IH]; cbn [multipart_file_body]; [done|].
  rewrite (agree_open _ _ _ Hagree), (agree_stream _ _ _ Hagree) by done. by rewrite IH.
Qed.

Lemma static_file_body_agree p o n threshold full :
  path_starts_with (root files) p = true ->
  @static_file_body fs1 p o n threshold full = @static_file_body fs2 p o n threshold full.
Proof.
  intros Hp. unfold static_file_body, streaming_file_body, read_file_range.
  rewrite (agree_open _ _ _ Hagree), (agree_stream _ _ _ Hagree), (agree_read _ _ _ Hagree),
    (agree_exact _ _ _ Hagree) by done. done.
Qed.

Lemma deliver_agree ctarget rep varies head headers now counter :
  path_starts_with (root files) (target rep) = true ->
  @deliver _ _ fs1 parse_http_date fmt_http_date files ctarget rep varies head headers now counter =
  @deliver _ _ fs2 parse_http_date fmt_http_date files ctarget rep varies head headers now counter.
Proof.
  intros Hp. unfold deliver, read_static_body.
  rewrite !static_file_body_agree by done.
  destruct (is_not_modified _ _ _); [done|].
  destruct (requested_range _ _ _ _) as [|r|rs|]; try done.
  - by rewrite static_file_body_agree.
  - destruct (multipart_boundary now counter) as [boundary counter'].
    by rewrite multipart_file_body_agree.
Qed.
End confinement.

(** ** Lemmas: ranges of a request *)

Section ranges.
Context `{HttpLaws} (parse_http_date : str -> option SystemTime).

Lemma requested_range_bounds headers length validators :
  0 <= length <= u64_max ->
  match requested_range parse_http_date headers length validators with
  | Partial r => in_bounds length r
  | Multipart rs => Forall (in_bounds length) rs
  | Full | Unsatisfiable => True
  end.
Proof.
  intros Hl. unfold requested_range.
  destruct (hm_get_all RANGE headers) as [|v [|]]; [done| |done].
  destruct (hv_to_str v) as [text|]; [|done].
  destruct (split_once "=" (trim text)) as [[unit spec]|]; [|done].
  destruct (negb _); [done|]. destruct (negb _); [done|].
  destruct (parse_range_set_cases (trim spec) length Hl) as [->|(l & -> & _ & _ & _ & HB & _)]; [done|].
  destruct l as [|r [|r' l]]; [done | by apply Forall_inv in HB | done].
Qed.

Lemma hex_visible n : 0 <= n -> forallb visible (to_hex n) = true.
Proof.
  intros Hn. apply forallb_Forall. eapply Forall_impl; [by apply to_hex_digits|].
  intros c. unfold is_ascii_hexdigit, is_ascii_digit, visible, in_range. lia.
Qed.

Lemma dec_visible n : 0 <= n -> forallb visible (to_dec n) = true.
Proof.
  intros Hn. apply forallb_Forall. eapply Forall_impl; [by apply to_dec_digits|].
  intros c. unfold is_ascii_digit, visible, in_range. lia.
Qed.

Lemma boundary_visible now counter :
  0 <= now -> 0 <= counter -> forallb visible (multipart_boundary now counter).1 = true.
Proof.
  intros Hn Hc. unfold multipart_boundary. cbn [fst].
  rewrite !forallb_app, !hex_visible by done. reflexivity.
Qed.

Lemma unsatisfied_total length :
  0 <= length ->
  exists v, unsatisfied_content_range_header length = Some v /\
    hv_as_bytes v = ##"bytes */" ++ to_dec length.
Proof.
  intros Hl. unfold unsatisfied_content_range_header.
  destruct (hv_from_str_visible (##"bytes */" ++ to_dec length)) as [v Hv].
  { rewrite forallb_app, dec_visible by done. reflexivity. }
  exists v. split; [done | by apply hv_from_str_Some].
Qed.

Lemma multipart_type_total now counter :
  0 <= now -> 0 <= counter ->
  is_Some (hv_from_str (##"multipart/byteranges; boundary=" ++ (multipart_boundary now counter).1)).
Proof.
  intros Hn Hc. apply hv_from_str_visible. rewrite forallb_app, boundary_visible by done. reflexivity.
Qed.
End ranges.

(** ** Lemmas: the length of a multipart body *)

(** The bytes [o .. o + n] of a file. *)
Definition slice (o n : Z) (c : bytes) : bytes := firstn (Z.to_nat n) (skipn (Z.to_nat o) c).
Definition range_slice (r : ByteRange) (c : bytes) : bytes :=
  slice (start r) (end_ r - start r + 1) c.

(** The multipart representation of some ranges of a file. *)
Definition framed_parts (boundary : str) (ctype : bytes) (rs : list ByteRange) (c : bytes) : bytes :=
  rs ≫= fun r => multipart_part_header boundary ctype r (Z.of_nat (List.length c)) ++ range_slice r c ++ crlf.
Definition framed (boundary : str) (ctype : bytes) (rs : list ByteRange) (c : bytes) : bytes :=
  framed_parts boundary ctype rs c ++ multipart_closing_boundary boundary.

Lemma slice_length o n c :
  0 <= o -> 0 <= n -> o + n <= Z.of_nat (List.length c) -> Z.of_nat (List.length (slice o n c)) = n.
Proof. intros Ho Hn Hb. unfold slice. rewrite length_firstn, length_skipn. lia. Qed.

Lemma range_slice_length r c :
  in_bounds (Z.of_nat (List.length c)) r ->
  Z.of_nat (List.length (range_slice r c)) = end_ r - start r + 1.
Proof. unfold in_bounds, range_slice. intros Hb. apply slice_length; lia. Qed.

Lemma checked_add_u64_eq a b :
  checked_add_u64 a b = if a + b <=? u64_max then Some (a + b) else None.
Proof. done. Qed.

Lemma multipart_parts_length_eq boundary ctype rs c acc :
  Z.of_nat (List.length c) <= u64_max -> Forall (in_bounds (Z.of_nat (List.length c))) rs ->
  0 <= acc <= u64_max ->
  multipart_parts_length boundary ctype rs (Z.of_nat (List.length c)) acc =
    let total := acc + Z.of_nat (List.length (framed_parts boundary ctype rs c)) in
    if total <=? u64_max then Some total else None.
Proof.
  intros Hc HB. revert acc. induction HB as [|r rs Hr HB IH]; intros acc Ha; cbn zeta.
  - simpl. rewrite (proj2 (Z.leb_le _ _)) by lia. f_equal. lia.
  - unfold framed_parts in *. rewrite bind_cons. cbn [multipart_parts_length].
    rewrite !length_app, !Nat2Z.inj_add, (range_slice_length r c Hr).
    rewrite (range_len_bounded _ r Hc Hr). change (Z.of_nat (List.length crlf)) with 2.
    set (h := Z.of_nat (List.length (multipart_part_header _ _ _ _))).
    assert (0 <= h) by lia. unfold in_bounds in Hr.
    rewrite checked_add_u64_eq. destruct (acc + h <=? u64_max) eqn:E1; cbn [mbind option_bind].
    2:{ rewrite (proj2 (Z.leb_gt _ _)) by lia. done. }
    rewrite checked_add_u64_eq. destruct (acc + h + _ <=? u64_max) eqn:E2; cbn [mbind option_bind].
    2:{ rewrite (proj2 (Z.leb_gt _ _)) by lia. done. }
    rewrite checked_add_u64_eq. destruct (acc + h + _ + 2 <=? u64_max) eqn:E3; cbn [mbind option_bind].
    2:{ rewrite (proj2 (Z.leb_gt _ _)) by lia. done. }
    rewrite IH by lia. cbn zeta.
    match goal with |- (if ?a <=? _ then _ else _) = (if ?b <=? _ then _ else _) =>
      replace b with a by lia end. done.
Qed.

Lemma multipart_content_length_eq boundary ctype rs c :
  Z.of_nat (List.length c) <= u64_max -> Forall (in_bounds (Z.of_nat (List.length c))) rs ->
  multipart_content_length boundary ctype rs (Z.of_nat (List.length c)) =
    let total := Z.of_nat (List.length (framed boundary ctype rs c)) in
    if total <=? u64_max then Some total else None.
Proof.
  intros Hc HB. unfold multipart_content_length, framed.
  rewrite multipart_parts_length_eq by (done || unfold u64_max; lia). cbn zeta.
  rewrite Z.add_0_l, length_app, Nat2Z.inj_add.
  destruct (_ <=? u64_max) eqn:E; cbn [mbind option_bind]; [done|].
  rewrite (proj2 (Z.leb_gt _ _)) by lia. done.
Qed.

(** ** Lemmas: bodies of a file that does not change *)

(** Every way of reading the file at [p] sees the content [c]. *)
Record holds `{FileSystem} (p : Path) (c : bytes) : Prop := {
  holds_read : fs_read p = Some c;
  holds_open o : fs_open_at p o = true;
  holds_exact o n :
    0 <= o -> 0 <= n -> o + n <= Z.of_nat (List.length c) -> fs_read_exact p o n = Some (slice o n c);
  holds_stream o n :
    0 <= o -> 0 <= n -> o + n <= Z.of_nat (List.length c) -> collect (fs_stream p o n) = Ok (slice o n c)
}.

Lemma collect_full_body d : collect (full_body d) = Ok d.
Proof. destruct d; simpl; [done|]. by rewrite app_nil_r. Qed.

Lemma collect_app b1 b2 d1 :
  collect b1 = Ok d1 -> collect (b1 ++ b2) = let? d2 := collect b2 in Ok (d1 ++ d2).
Proof.
  revert d1. induction b1 as [|[d|e] b1 IH]; intros d1; simpl; [| |done].
  - intros [= <-]. by destruct (collect b2).
  - destruct (collect b1) as [x|]; [|done]. intros [= <-]. rewrite (IH x) by done.
    destruct (collect b2); [by rewrite app_assoc | done].
Qed.

Section stable.
Context `{FileSystem} (p : Path) (c : bytes) (Hc : holds p c).

Lemma static_file_body_holds o n threshold full :
  0 <= o -> 0 <= n -> o + n <= Z.of_nat (List.length c) ->
  (full = true -> o = 0 /\ n = Z.of_nat (List.length c)) ->
  exists body, static_file_body p o n threshold full = Some body /\ collect body = Ok (slice o n c).
Proof.
  intros Ho Hn Hb Hfull. unfold static_file_body, streaming_file_body, read_file_range.
  destruct (match threshold with Some t => t <=? n | None => false end).
  - rewrite (holds_open _ _ Hc). eexists. split; [done|]. by apply (holds_stream _ _ Hc).
  - destruct full.
    + destruct Hfull as [-> ->]; [done|]. rewrite (holds_read _ _ Hc). cbn [mbind option_bind].
      rewrite Z.eqb_refl. eexists. split; [done|]. rewrite collect_full_body. unfold slice.
      rewrite Nat2Z.id. simpl. by rewrite firstn_all.
    + rewrite (holds_open _ _ Hc), (holds_exact _ _ Hc) by done. eexists. split; [done|].
      apply collect_full_body.
Qed.

Lemma multipart_body_holds ctype boundary rs :
  Z.of_nat (List.length c) <= u64_max -> Forall (in_bounds (Z.of_nat (List.length c))) rs ->
  collect (multipart_file_body p ctype boundary rs (Z.of_nat (List.length c))) =
    Ok (framed boundary ctype rs c).
Proof.
  intros Hl HB. unfold framed, framed_parts. induction HB as [|r rs Hr HB IH].
  { cbn [multipart_file_body collect]. by rewrite app_nil_r. }
  cbn [multipart_file_body]. rewrite bind_cons, (holds_open _ _ Hc). cbn [collect].
  rewrite (range_len_bounded _ r Hl Hr). unfold in_bounds in Hr.
  rewrite (collect_app _ _ (range_slice r c)); [|apply (holds_stream _ _ Hc); lia].
  cbn [collect]. rewrite IH. by rewrite <- !app_assoc.
Qed.
End stable.

(** ** Properties *)

(** C16: the files outside the root are invisible. Whatever the request, the answer
    of the static file service is the same on any two file systems that resolve
    names alike and agree on the files below the root; sizes, times and contents
    elsewhere never influence it. *)
Theorem static_call_confined `{HttpApi} `{!Serialize ErrorPayload} parse_http_date fmt_http_date
    files fs1 fs2 inner request now counter :
  agree_below (root files) fs1 fs2 ->
  @static_call _ _ fs1 parse_http_date fmt_http_date files inner request now counter =
  @static_call _ _ fs2 parse_http_date fmt_http_date files inner request now counter.
Proof.
  intros Hagree. unfold static_call, serve_file.
  destruct (negb _); [done|]. destruct (relative_path _ _) as [[relative|]|]; [|done..].
  rewrite (resolve_agree files fs1 fs2 Hagree).
  destruct (resolve files relative (req_headers request)) as [[[ctarget rep] varies]|] eqn:ER; [|done].
  apply deliver_agree; [done|]. by eapply resolve_below.
Qed.

Section responses.
Context `{HttpLaws} `{!Serialize ErrorPayload} `{FileSystem}.
Context (parse_http_date : str -> option SystemTime) (fmt_http_date : SystemTime -> str).

Lemma success_total ctx status body length range :
  match range with
  | Some r => in_bounds (meta_len (metadata (representation ctx))) r
  | None => True
  end ->
  is_Some (static_success_response ctx status body length range).
Proof.
  intros Hr. unfold static_success_response. destruct range as [r|]; [|by eexists].
  destruct (content_range_header_total r (meta_len (metadata (representation ctx))) Hr) as (v & -> & _).
  by eexists.
Qed.

Lemma deliver_total files ctarget rep varies head headers now counter :
  0 <= meta_len (metadata rep) <= u64_max -> 0 <= now -> 0 <= counter ->
  is_Some (deliver parse_http_date fmt_http_date files ctarget rep varies head headers now counter).1.
Proof.
  intros Hl Hn Hc. unfold deliver. destruct (is_not_modified _ _ _); [by eexists|].
  set (vs := cache_validators fmt_http_date (metadata rep)).
  assert (HU : is_Some (static_range_not_satisfiable files vs (meta_len (metadata rep)))).
  { unfold static_range_not_satisfiable.
    destruct (unsatisfied_total (meta_len (metadata rep))) as (v & -> & _); [lia | by eexists]. }
  pose proof (requested_range_bounds parse_http_date headers (meta_len (metadata rep)) vs Hl) as HB.
  destruct (requested_range _ _ _ _) as [|r|rs|] eqn:ER; [| | |done].
  - destruct (read_static_body rep Full head _) as [[[status range] body]|] eqn:EB; [|by eexists].
    apply success_total. unfold read_static_body in EB.
    destruct (if head then _ else _); by simplify_eq/=.
  - destruct (read_static_body rep (Partial r) head _) as [[[status range] body]|] eqn:EB; [|by eexists].
    apply success_total. unfold read_static_body in EB.
    destruct (if head then _ else _); by simplify_eq/=.
  - destruct (multipart_boundary now counter) as [boundary counter'] eqn:Eb.
    destruct (multipart_content_length _ _ _ _); [|done].
    unfold static_multipart_response. pose proof (multipart_type_total now counter Hn Hc) as [v Hv].
    rewrite Eb in Hv. cbn [fst] in Hv. rewrite Hv. by eexists.
Qed.
End responses.

(** The static file service always answers. None of the [expect]s in response
    construction can fail, whatever the request, the files and their sizes. *)
Theorem static_call_total `{HttpLaws} `{!Serialize ErrorPayload} `{FileSystem}
    parse_http_date fmt_http_date files inner request now counter :
  (forall p m, fs_metadata p = Some m -> 0 <= meta_len m <= u64_max) ->
  0 <= now -> 0 <= counter ->
  is_Some (static_call parse_http_date fmt_http_date files inner request now counter).1.
Proof.
  intros Hm Hn Hc. unfold static_call, serve_file.
  destruct (negb _); [by eexists|]. destruct (relative_path _ _) as [[relative|]|]; [|by eexists..].
  destruct (resolve files relative (req_headers request)) as [[[ctarget rep] varies]|] eqn:ER;
    [|by eexists].
  apply deliver_total; [|done..]. eapply Hm. by eapply resolve_below.
Qed.

Section lookups.
Context `{HttpLaws}.

(** The validators and the representation headers leave the framing headers alone. *)
Lemma validators_keep k v headers :
  k <> ETAG -> k <> LAST_MODIFIED ->
  hm_get_all k (insert_validators v headers) = hm_get_all k headers.
Proof. intros Hk Hl. unfold insert_validators. destruct v; [|done]. by rewrite !hm_get_all_insert_ne. Qed.

Lemma representation_keep k e varies headers :
  k <> CONTENT_ENCODING -> k <> VARY ->
  hm_get_all k (apply_representation_headers e varies headers) = hm_get_all k headers.
Proof.
  intros Hk Hv. unfold apply_representation_headers. destruct varies.
  - rewrite add_vary_other by done. destruct e; [by rewrite hm_get_all_insert_ne | done].
  - destruct e; [by rewrite hm_get_all_insert_ne | done].
Qed.

Lemma delivery_length ctx ctype n headers :
  hm_get_all CONTENT_LENGTH (delivery_headers ctx ctype n headers) = [hv_from_u64 n].
Proof. unfold delivery_headers. by header_lookup. Qed.
End lookups.

(** What a [GET] for a file with content [c] has to deliver, by its [Range] header:
    the status, exactly the selected bytes, and their length and position. *)
Definition delivered `{HttpApi} (parse_http_date : str -> option SystemTime) (ctarget : Path)
    (c : bytes) (headers : HeaderMap) (validators : option CacheValidators) (boundary : str)
    (resp : Response) : Prop :=
  match requested_range parse_http_date headers (Z.of_nat (List.length c)) validators with
  | Full =>
      res_status resp = 200 /\ collect (res_body resp) = Ok c /\
      hm_get_all CONTENT_LENGTH (res_headers resp) = [hv_from_u64 (Z.of_nat (List.length c))]
  | Partial r =>
      res_status resp = 206 /\ collect (res_body resp) = Ok (range_slice r c) /\
      hm_get_all CONTENT_LENGTH (res_headers resp) =
        [hv_from_u64 (Z.of_nat (List.length (range_slice r c)))] /\
      hv_as_bytes <$> hm_get_all CONTENT_RANGE (res_headers resp) =
        [##"bytes " ++ to_dec (start r) ++ ##"-" ++ to_dec (end_ r) ++ ##"/"
           ++ to_dec (Z.of_nat (List.length c))]
  | Multipart rs =>
      let body := framed boundary (hv_as_bytes (content_type ctarget)) rs c in
      if Z.of_nat (List.length body) <=? u64_max
      then res_status resp = 206 /\ collect (res_body resp) = Ok body /\
           hm_get_all CONTENT_LENGTH (res_headers resp) =
             [hv_from_u64 (Z.of_nat (List.length body))]
      else res_status resp = 416
  | Unsatisfiable =>
      res_status resp = 416 /\ res_body resp = empty_body /\
      hv_as_bytes <$> hm_get_all CONTENT_RANGE (res_headers resp) =
        [##"bytes */" ++ to_dec (Z.of_nat (List.length c))]
  end.

Section content.
Context `{HttpLaws} `{!Serialize ErrorPayload} `{FileSystem}.
Context (parse_http_date : str -> option SystemTime) (fmt_http_date : SystemTime -> str).
Context (files : StaticFiles) (ctarget : Path) (rep : StaticRepresentation) (varies : bool).
Context (c : bytes) (Hc : holds (target rep) c).
Context (Hlen : meta_len (metadata rep) = Z.of_nat (List.length c)).
Context (Hmax : Z.of_nat (List.length c) <= u64_max).

Let ctx := {| ctx_files := files; representation := rep;
              ctx_validators := cache_validators fmt_http_date (metadata rep);
              content_type_target := ctarget; varies_by_encoding := varies |}.

Lemma success_response_full body n :
  exists resp, static_success_response ctx 200 body n None = Some resp /\
    res_status resp = 200 /\ res_body resp = body /\
    hm_get_all CONTENT_LENGTH (res_headers resp) = [hv_from_u64 n].
Proof.
  eexists. split; [reflexivity|]. split_and!; [done | done |]. cbn [with_headers res_headers].
  rewrite representation_keep, validators_keep by (vm_compute; congruence). apply delivery_length.
Qed.

Lemma success_response_partial body n r :
  in_bounds (Z.of_nat (List.length c)) r ->
  exists resp v, static_success_response ctx 206 body n (Some r) = Some resp /\
    res_status resp = 206 /\ res_body resp = body /\
    hm_get_all CONTENT_LENGTH (res_headers resp) = [hv_from_u64 n] /\
    hm_get_all CONTENT_RANGE (res_headers resp) = [v] /\
    hv_as_bytes v = ##"bytes " ++ to_dec (start r) ++ ##"-" ++ to_dec (end_ r) ++ ##"/"
                      ++ to_dec (Z.of_nat (List.length c)).
Proof.
  intros Hr. destruct (content_range_header_total r _ Hr) as (v & Hv & Hb).
  unfold static_success_response. cbn [ctx representation]. rewrite Hlen, Hv. cbn [mbind option_bind].
  eexists _, v. split; [reflexivity|]. cbn [with_headers res_headers res_status res_body].
  split_and!; [done | done | | | done].
  - rewrite representation_keep, validators_keep by (vm_compute; congruence).
    rewrite hm_get_all_insert_ne by (vm_compute; congruence). apply delivery_length.
  - rewrite representation_keep, validators_keep by (vm_compute; congruence). by header_lookup.
Qed.

Lemma multipart_response_lookup body n now counter :
  0 <= now -> 0 <= counter ->
  exists resp, static_multipart_response ctx body n (multipart_boundary now counter).1 = Some resp /\
    res_status resp = 206 /\ res_body resp = body /\
    hm_get_all CONTENT_LENGTH (res_headers resp) = [hv_from_u64 n].
Proof.
  intros Hn Hctr. unfold static_multipart_response.
  destruct (multipart_type_total now counter Hn Hctr) as [v ->]. cbn [mbind option_bind].
  eexists. split; [reflexivity|]. split_and!; [done | done |]. cbn [with_headers res_headers].
  rewrite validators_keep by (vm_compute; congruence). apply delivery_length.
Qed.

Lemma unsatisfied_lookup v :
  exists resp w, static_range_not_satisfiable files v (Z.of_nat (List.length c)) = Some resp /\
    res_status resp = 416 /\ res_body resp = empty_body /\
    hm_get_all CONTENT_RANGE (res_headers resp) = [w] /\
    hv_as_bytes w = ##"bytes */" ++ to_dec (Z.of_nat (List.length c)).
Proof.
  destruct (unsatisfied_total (Z.of_nat (List.length c))) as (w & Hw & Hb); [lia|].
  unfold static_range_not_satisfiable. rewrite Hw. cbn [mbind option_bind].
  eexists _, w. split; [reflexivity|]. split_and!; [done | done | | done].
  cbn [with_headers res_headers]. rewrite validators_keep by (vm_compute; congruence). by header_lookup.
Qed.

Definition served head headers now counter : option Response :=
  (deliver parse_http_date fmt_http_date files ctarget rep varies head headers now counter).1.

Lemma deliver_content headers now counter :
  0 <= now -> 0 <= counter ->
  is_not_modified parse_http_date headers (ctx_validators ctx) = false ->
  exists resp, served false headers now counter = Some resp /\
    delivered parse_http_date ctarget c headers (ctx_validators ctx)
      (multipart_boundary now counter).1 resp.
Proof.
  intros Hn Hctr Hnm. unfold served, deliver, delivered. cbn [ctx ctx_validators] in *. rewrite Hnm, Hlen.
  pose proof (requested_range_bounds parse_http_date headers (Z.of_nat (List.length c))
    (cache_validators fmt_http_date (metadata rep)) ltac:(lia)) as HB.
  destruct (requested_range _ _ _ _) as [|r|rs|].
  - unfold read_static_body. rewrite Hlen.
    destruct (static_file_body_holds _ c Hc 0 (Z.of_nat (List.length c)) (streaming_threshold files) true)
      as (body & -> & Hb); [lia..|done|]. cbn [mbind option_bind].
    destruct (success_response_full body (Z.of_nat (List.length c))) as (resp & HR & ? & HE & ?).
    exists resp. split; [done|]. rewrite HE, Hb. unfold slice. rewrite Nat2Z.id. simpl.
    by rewrite firstn_all.
  - unfold read_static_body. rewrite (range_len_bounded _ r Hmax HB).
    pose proof HB as HB'. unfold in_bounds in HB'.
    destruct (static_file_body_holds _ c Hc (start r) (end_ r - start r + 1) (streaming_threshold files) false)
      as (body & -> & Hb); [lia..|done|]. cbn [mbind option_bind].
    rewrite (range_len_bounded _ r Hmax HB).
    destruct (success_response_partial body (end_ r - start r + 1) r HB) as (resp & v & HR & ? & HE & ? & HV & Hv).
    exists resp. split; [done|]. rewrite HE, Hb, HV, (range_slice_length r c HB). simpl. by rewrite Hv.
  - change (multipart_boundary now counter) with
      ((multipart_boundary now counter).1, (multipart_boundary now counter).2).
    cbv iota beta. rewrite multipart_content_length_eq by done. cbn zeta.
    destruct (_ <=? u64_max) eqn:E; cbn [fst].
    + destruct (multipart_response_lookup (multipart_file_body (target rep)
        (hv_as_bytes (content_type ctarget)) (multipart_boundary now counter).1 rs
        (Z.of_nat (List.length c)))
        (Z.of_nat (List.length (framed (multipart_boundary now counter).1
          (hv_as_bytes (content_type ctarget)) rs c))) now counter Hn Hctr) as (resp & HR & ? & HE & ?).
      exists resp. split; [done|]. rewrite HE. split_and!; [done | | done].
      by apply multipart_body_holds.
    + destruct (unsatisfied_lookup (cache_validators fmt_http_date (metadata rep)))
        as (resp & w & HR & ? & _). by exists resp.
  - destruct (unsatisfied_lookup (cache_validators fmt_http_date (metadata rep)))
      as (resp & w & HR & ? & ? & HW & Hw). exists resp. split; [done|].
    rewrite HW. simpl. by rewrite Hw.
Qed.
End content.

Section head.
Context `{HttpLaws} `{!Serialize ErrorPayload} `{FileSystem}.
Context (parse_http_date : str -> option SystemTime) (fmt_http_date : SystemTime -> str).

Definition without_body (r : Response) : Response := {|
  res_status := res_status r;
  res_headers := res_headers r;
  res_extensions := res_extensions r;
  res_body := empty_body
|}.

Lemma success_without_body ctx status body length range :
  static_success_response ctx status empty_body length range =
    without_body <$> static_success_response ctx status body length range.
Proof.
  unfold static_success_response. destruct (match range with Some _ => _ | None => _ end); [|done].
  simpl. unfold without_body, with_headers, response. simpl. by destruct (status_disallows_body status).
Qed.

Lemma multipart_without_body ctx body length boundary :
  static_multipart_response ctx empty_body length boundary =
    without_body <$> static_multipart_response ctx body length boundary.
Proof. unfold static_multipart_response. by destruct (hv_from_str _). Qed.

Lemma unsatisfied_without_body files v length :
  without_body <$> static_range_not_satisfiable files v length =
    static_range_not_satisfiable files v length.
Proof. unfold static_range_not_satisfiable. by destruct (unsatisfied_content_range_header length). Qed.

Lemma deliver_head files ctarget rep varies c headers now counter :
  holds (target rep) c -> meta_len (metadata rep) = Z.of_nat (List.length c) ->
  Z.of_nat (List.length c) <= u64_max ->
  served parse_http_date fmt_http_date files ctarget rep varies true headers now counter =
    without_body <$>
      served parse_http_date fmt_http_date files ctarget rep varies false headers now counter.
Proof.
  intros Hc Hlen Hmax. unfold served, deliver. destruct (is_not_modified _ _ _); [done|].
  pose proof (requested_range_bounds parse_http_date headers (Z.of_nat (List.length c))
    (cache_validators fmt_http_date (metadata rep)) ltac:(lia)) as HB.
  rewrite Hlen. destruct (requested_range _ _ _ _) as [|r|rs|].
  - unfold read_static_body. rewrite Hlen.
    destruct (static_file_body_holds _ c Hc 0 (Z.of_nat (List.length c)) (streaming_threshold files) true)
      as (body & -> & Hb); [lia..|done|]. apply success_without_body.
  - unfold read_static_body. rewrite (range_len_bounded _ r Hmax HB).
    pose proof HB as HB'. unfold in_bounds in HB'.
    destruct (static_file_body_holds _ c Hc (start r) (end_ r - start r + 1) (streaming_threshold files) false)
      as (body & -> & Hb); [lia..|done|]. apply success_without_body.
  - destruct (multipart_boundary now counter) as [boundary counter'].
    destruct (multipart_content_length _ _ _ _); [apply multipart_without_body|].
    symmetry. apply unsatisfied_without_body.
  - symmetry. apply unsatisfied_without_body.
Qed.
End head.

(** C17: a served file is delivered exactly. When a request resolves to a file whose
    content does not change and no validator matches, a [GET] is answered with the
    whole content, with exactly the selected range and its [Content-Range], with a
    multipart body that frames every range, or with 416; [Content-Length] is in
    every case the length of the body that follows, buffered or streamed. *)
Theorem serve_file_content `{HttpLaws} `{!Serialize ErrorPayload} `{FileSystem}
    parse_http_date fmt_http_date files relative headers now counter ctarget rep varies c :
  resolve files relative headers = Some (ctarget, rep, varies) ->
  holds (target rep) c -> meta_len (metadata rep) = Z.of_nat (List.length c) ->
  Z.of_nat (List.length c) <= u64_max -> 0 <= now -> 0 <= counter ->
  let validators := cache_validators fmt_http_date (metadata rep) in
  is_not_modified parse_http_date headers validators = false ->
  exists resp,
    (serve_file parse_http_date fmt_http_date files relative false headers now counter).1 = Some resp /\
    delivered parse_http_date ctarget c headers validators (multipart_boundary now counter).1 resp.
Proof.
  intros HR Hc Hlen Hmax Hn Hctr validators Hnm. unfold serve_file. rewrite HR.
  exact (deliver_content parse_http_date fmt_http_date files ctarget rep varies c Hc Hlen Hmax
           headers now counter Hn Hctr Hnm).
Qed.

(** [HEAD] mirrors [GET]. For a file that does not change, the answer to [HEAD]
    is the answer to [GET] with the same status and headers, [Content-Length]
    included, and an empty body. *)
Theorem head_mirrors_get `{HttpLaws} `{!Serialize ErrorPayload} `{FileSystem}
    parse_http_date fmt_http_date files relative headers now counter ctarget rep varies c :
  resolve files relative headers = Some (ctarget, rep, varies) ->
  holds (target rep) c -> meta_len (metadata rep) = Z.of_nat (List.length c) ->
  Z.of_nat (List.length c) <= u64_max ->
  (serve_file parse_http_date fmt_http_date files relative true headers now counter).1 =
    without_body <$>
      (serve_file parse_http_date fmt_http_date files relative false headers now counter).1.
Proof.
  intros HR Hc Hlen Hmax. unfold serve_file. rewrite HR.
  exact (deliver_head parse_http_date fmt_http_date files ctarget rep varies c headers now counter
           Hc Hlen Hmax).
Qed.

(** ** Entity tags *)

Lemma hex_lacks c n : 0 <= n -> is_ascii_hexdigit c = false -> c ∉ to_hex n.
Proof.
  intros Hn Hc Hin. pose proof (to_hex_digits n Hn) as HF. rewrite Forall_forall in HF.
  apply HF in Hin. congruence.
Qed.

(** A separator that neither prefix holds splits two texts alike. *)
Lemma app_sep_inj (c : ascii) (a b x y : str) :
  c ∉ a -> c ∉ b -> a ++ c :: x = b ++ c :: y -> a = b /\ x = y.
Proof.
  intros Ha Hb HE. assert (HS : split_once c (a ++ c :: x) = split_once c (b ++ c :: y)) by congruence.
  rewrite (proj2 (split_once_Some c _ a x)), (proj2 (split_once_Some c _ b y)) in HS by done.
  by simplify_eq.
Qed.

(** The part of the tag that weak comparison looks at. *)
Definition opaque_tag (m : Metadata) (modified : SystemTime) : str :=
  [quote] ++ to_hex (meta_len m) ++ ##"-" ++ to_hex (modified / nanos_per_second)
    ++ ##"-" ++ to_hex (modified mod nanos_per_second) ++ [quote].

Lemma opaque_tag_inj m1 m2 t1 t2 :
  0 <= meta_len m1 -> 0 <= meta_len m2 -> 0 <= t1 -> 0 <= t2 ->
  opaque_tag m1 t1 = opaque_tag m2 t2 -> meta_len m1 = meta_len m2 /\ t1 = t2.
Proof.
  intros H1 H2 H3 H4 HE. unfold opaque_tag in HE. cbn [app] in HE. injection HE as HE.
  assert (Hd : forall t, 0 <= t -> 0 <= t / nanos_per_second) by (intros; by apply Z.div_pos).
  assert (Hm : forall t, 0 <= t mod nanos_per_second) by (intros; by apply Z.mod_pos_bound).
  apply app_sep_inj in HE as [HL HE]; [| by apply hex_lacks..].
  apply app_sep_inj in HE as [HQ HE]; [| by apply hex_lacks; auto..].
  apply app_inv_tail in HE. apply to_hex_inj in HL, HQ, HE; auto. split; [done|].
  rewrite (Z.div_mod t1 nanos_per_second), (Z.div_mod t2 nanos_per_second) by done. congruence.
Qed.

Lemma etag_chars m t c :
  0 <= meta_len m -> 0 <= t -> c ∈ etag_text m t ->
  is_ascii_hexdigit c = true \/ c ∈ ##"W/-" \/ c = quote.
Proof.
  intros Hl Ht. unfold etag_text.
  assert (Hd : 0 <= t / nanos_per_second) by (by apply Z.div_pos).
  assert (Hm : 0 <= t mod nanos_per_second) by (by apply Z.mod_pos_bound).
  assert (HX : forall n, 0 <= n -> c ∈ to_hex n -> is_ascii_hexdigit c = true).
  { intros n Hn Hin. pose proof (to_hex_digits n Hn) as HF. rewrite Forall_forall in HF. auto. }
  rewrite !elem_of_app. unfold lit. cbn [String.list_ascii_of_string].
  rewrite !elem_of_cons. intros Hin.
  repeat match goal with HO : _ \/ _ |- _ => destruct HO as [Hin|Hin] end;
    first [ left; eapply HX; [|exact Hin]; assumption | by apply not_elem_of_nil in Hin | subst c; tauto ].
Qed.

Lemma etag_trimmed m t : 0 <= meta_len m -> 0 <= t -> trim (etag_text m t) = etag_text m t.
Proof.
  intros Hl Ht. apply trim_id, Forall_forall. intros c Hin.
  apply etag_chars in Hin as [Hx|[Hx| ->]]; [| |done|done|done].
  - unfold is_ascii_hexdigit, is_ascii_digit, is_ascii_ws, in_range in *. lia.
  - unfold lit in Hx. cbn [String.list_ascii_of_string] in Hx.
    repeat (apply elem_of_cons in Hx as [->|Hx]; [done|]). by apply not_elem_of_nil in Hx.
Qed.

Lemma etag_no_comma m t : 0 <= meta_len m -> 0 <= t -> ","%char ∉ etag_text m t.
Proof.
  intros Hl Ht Hin. apply etag_chars in Hin as [Hx|[Hx|Hx]]; [done | | done | done | done].
  unfold lit in Hx. cbn [String.list_ascii_of_string] in Hx.
  repeat (apply elem_of_cons in Hx as [Hx|Hx]; [done|]). by apply not_elem_of_nil in Hx.
Qed.

Lemma etag_weak m t :
  0 <= meta_len m -> 0 <= t -> strip_weak_prefix (etag_text m t) = opaque_tag m t.
Proof. intros Hl Ht. unfold strip_weak_prefix. by rewrite etag_trimmed. Qed.

(** Entity tags identify a representation. When a client repeats in
    [If-None-Match] the tag it was given for one version of a file, the answer is
    304 exactly when the current version has the same size and modification
    time, to the nanosecond. *)
Theorem etag_revalidates `{HttpLaws} parse_http_date fmt_http_date m1 m2 v1 v2 headers :
  0 <= meta_len m1 -> 0 <= meta_len m2 ->
  cache_validators fmt_http_date m1 = Some v1 -> cache_validators fmt_http_date m2 = Some v2 ->
  hm_get_all IF_NONE_MATCH headers = [etag v1] ->
  is_not_modified parse_http_date headers (Some v2) = true <->
  meta_len m1 = meta_len m2 /\ meta_modified m1 = meta_modified m2.
Proof.
  intros Hl1 Hl2 HV1 HV2 Hh.
  assert (HV : forall m v, 0 <= meta_len m -> cache_validators fmt_http_date m = Some v ->
            exists t, meta_modified m = Some t /\ 0 <= t /\ hv_to_str (etag v) = Some (etag_text m t)).
  { intros m v Hl. unfold cache_validators. destruct (meta_modified m) as [t|]; [|done]. simpl.
    destruct (t <? 0) eqn:Et; [done|]. destruct (hv_from_str (etag_text m t)) as [tag|] eqn:Eg; [|done].
    simpl. destruct (hv_from_str (fmt_http_date t)) as [d|]; [|done]. intros [= <-].
    exists t. split_and!; [done | lia |]. apply hv_from_str_Some in Eg. simpl.
    rewrite hv_to_str_visible; rewrite Eg; [done|]. apply forallb_Forall, Forall_forall. intros c Hin.
    apply etag_chars in Hin as [Hx|[Hx| ->]]; [| |done|done|lia].
    - unfold is_ascii_hexdigit, is_ascii_digit, visible, in_range in *. lia.
    - unfold lit in Hx. cbn [String.list_ascii_of_string] in Hx.
      repeat (apply elem_of_cons in Hx as [->|Hx]; [done|]). by apply not_elem_of_nil in Hx. }
  destruct (HV m1 v1 Hl1 HV1) as (t1 & -> & Ht1 & HS1), (HV m2 v2 Hl2 HV2) as (t2 & -> & Ht2 & HS2).
  unfold is_not_modified, if_none_match. rewrite Hh, HS2. cbn [existsb]. rewrite HS1.
  rewrite split_no by by apply etag_no_comma. cbn [map existsb]. rewrite !orb_false_r.
  rewrite etag_trimmed by done. unfold weak_etag_matches. rewrite !etag_weak by done.
  assert (str_eqb (etag_text m1 t1) ##"*" = false) as -> by done. cbn [orb].
  rewrite str_eqb_true. split.
  - intros HE. apply opaque_tag_inj in HE as [? ->]; done.
  - intros [HE [= ->]]. unfold opaque_tag. by rewrite HE.
Qed.

(** ** Examples *)

Module StaticFilesExamples.
Import HttpModel StaticPathExamples.

Definition no_date (_ : str) : option SystemTime := None.
Definition some_date (_ : SystemTime) : str := ##"Thu, 01 Jan 1970 00:00:01 GMT".
Definition missing (_ : Request) : Response := response 404 empty_body.

(** [memory_fs] with a second file outside the root. *)
Definition other_fs : FileSystem := {|
  fs_canonicalize := @fs_canonicalize memory_fs;
  fs_is_dir := @fs_is_dir memory_fs;
  fs_metadata p :=
    if str_eqb p ##"/etc/passwd"
    then Some {| is_file := true; meta_len := 4; meta_modified := None |}
    else @fs_metadata memory_fs p;
  fs_read p := if str_eqb p ##"/etc/passwd" then Some ##"root" else @fs_read memory_fs p;
  fs_open_at := @fs_open_at memory_fs;
  fs_read_exact := @fs_read_exact memory_fs;
  fs_stream := @fs_stream memory_fs
|}.

Lemma outside p : path_starts_with ##"/srv" p = true -> str_eqb p ##"/etc/passwd" = false.
Proof. intros Hp. apply bool_decide_eq_false. intros ->. vm_compute in Hp. discriminate Hp. Qed.

Lemma static_call_confined_witness :
  static_call (H0 := memory_fs) no_date some_date files missing (request ##"GET" ##"/static/a%20b.txt") 0 0 =
  static_call (H0 := other_fs) no_date some_date files missing (request ##"GET" ##"/static/a%20b.txt") 0 0.
Proof.
  apply static_call_confined. split; try done.
  - intros p Hp. cbn [fs_metadata other_fs]. by rewrite (outside p Hp).
  - intros p Hp. cbn [fs_read other_fs]. by rewrite (outside p Hp).
Defined.

Lemma memory_holds : holds ##"/srv/a b.txt" content.
Proof.
  split; try done; intros o n Ho Hn Hb.
  - cbn [fs_read_exact memory_fs]. change (Z.of_nat (List.length content)) with 10 in Hb.
    by rewrite (proj2 (Z.leb_le _ _)).
  - cbn [fs_stream memory_fs collect]. by rewrite app_nil_r.
Qed.

Lemma static_call_total_witness :
  is_Some (static_call no_date some_date files missing (request ##"GET" ##"/static/x") 5 7).1.
Proof.
  apply static_call_total; [|lia..]. intros p m. cbn [fs_metadata memory_fs].
  destruct (str_eqb p _); [|done]. intros [= <-]. simpl. unfold u64_max. lia.
Defined.

Definition ranged : HeaderMap := [(RANGE, ##"bytes=2-4")].
Definition rep : StaticRepresentation := {|
  target := ##"/srv/a b.txt";
  metadata := {| is_file := true; meta_len := 10; meta_modified := Some 1500000000 |};
  content_encoding := None
|}.

Lemma resolve_ranged : resolve files ##"a b.txt" ranged = Some (##"/srv/a b.txt", rep, false).
Proof. vm_compute. reflexivity. Qed.

Lemma serve_file_content_witness :
  exists resp, (serve_file no_date some_date files ##"a b.txt" false ranged 5 7).1 = Some resp /\
    collect (res_body resp) = Ok ##"234".
Proof.
  destruct (serve_file_content no_date some_date files ##"a b.txt" ranged 5 7 _ _ _ content
    resolve_ranged memory_holds eq_refl ltac:(vm_compute; congruence) ltac:(lia) ltac:(lia)
    ltac:(vm_compute; reflexivity)) as (resp & HR & HD).
  exists resp. split; [done|]. unfold delivered in HD.
  destruct (requested_range _ _ _ _) as [|r|rs|] eqn:E in HD; vm_compute in E; try discriminate E.
  injection E as <-. destruct HD as (_ & -> & _). reflexivity.
Defined.

Lemma head_mirrors_get_witness :
  (serve_file no_date some_date files ##"a b.txt" true ranged 5 7).1 =
    without_body <$> (serve_file no_date some_date files ##"a b.txt" false ranged 5 7).1.
Proof.
  exact (head_mirrors_get no_date some_date files ##"a b.txt" ranged 5 7 _ _ _ content
    resolve_ranged memory_holds eq_refl ltac:(vm_compute; congruence)).
Defined.

Definition version (n : Z) : Metadata :=
  {| is_file := true; meta_len := 10; meta_modified := Some n |}.
Definition tag_of (n : Z) : HeaderValue := etag_text (version n) n.
Definition validators_of (n : Z) : CacheValidators :=
  {| etag := tag_of n; last_modified := some_date n; modified := n |}.

Lemma etag_revalidates_witness :
  is_not_modified no_date [(IF_NONE_MATCH, tag_of 2500000001)] (Some (validators_of 2500000000)) <> true.
Proof.
  intros HN.
  apply (etag_revalidates no_date some_date (version 2500000001) (version 2500000000)
    (validators_of 2500000001) (validators_of 2500000000)) in HN;
    [by destruct HN | vm_compute; congruence | vm_compute; congruence | vm_compute; reflexivity
    | vm_compute; reflexivity | vm_compute; reflexivity].
Defined.
End StaticFilesExamples.
