(* ===== verification/Net.v ===== *)
(** [std::net]: parsing of IP addresses, as the forwarded-header code uses it.

    A parser takes the rest of the text and returns a value with what is left;
    a failed parser leaves the text alone, as [read_atomically] does. *)

From Stdlib Require Import ZArith Lia Bool Ascii.
From S2P Require Import Prelude Strings Http Core.

Local Open Scope Z_scope.

Definition parser (A : Type) : Type := str -> option (A * str).

(** [char::to_digit]. *)
Definition to_digit (radix : Z) (c : ascii) : option Z :=
  let d := if in_range 48 57 c then code c - 48
           else if in_range 97 122 c then code c - 87
           else if in_range 65 90 c then code c - 55
           else 36 in
  if d <? radix then Some d else None.

Fixpoint read_digits (radix : Z) (acc : Z) (count : nat) (s : str) : Z * nat * str :=
  match s with
  | [] => (acc, count, [])
  | c :: s' =>
      match to_digit radix c with
      | Some d => read_digits radix (acc * radix + d) (S count) s'
      | None => (acc, count, s)
      end
  end.

(** [read_number] with a digit limit, for a type with maximum [bound]. *)
Definition read_number (radix : Z) (max_digits : nat) (allow_zero_prefix : bool) (bound : Z) :
    parser Z := fun s =>
  let has_leading_zero := starts_with ##"0" s in
  let '(v, count, rest) := read_digits radix 0 0 s in
  if (max_digits <? count)%nat then None
  else if bound <? v then None
  else if (count =? 0)%nat then None
  else if negb allow_zero_prefix && has_leading_zero && (1 <? count)%nat then None
  else Some (v, rest).

Definition read_given_char (c : ascii) (s : str) : option str := strip_prefix [c] s.

(** [read_separator]: the separator comes before every item but the first. *)
Definition read_separator {A} (sep : ascii) (index : nat) (inner : parser A) : parser A := fun s =>
  if (0 <? index)%nat then
    match read_given_char sep s with Some s' => inner s' | None => None end
  else inner s.

Definition read_octet (index : nat) : parser Z :=
  read_separator "." index (read_number 10 3 false 255).

Definition read_ipv4_addr : parser Z := fun s =>
  match read_octet 0 s with
  | None => None
  | Some (a, s) =>
      match read_octet 1 s with
      | None => None
      | Some (b, s) =>
          match read_octet 2 s with
          | None => None
          | Some (c, s) =>
              match read_octet 3 s with
              | None => None
              | Some (d, s) => Some (((a * 256 + b) * 256 + c) * 256 + d, s)
              end
          end
      end
  end.

(** [read_groups]: at most [limit] groups from index [i]; the groups, whether an
    embedded IPv4 address ended them, and the rest. *)
Fixpoint read_groups (limit i : nat) (s : str) : list Z * bool * str :=
  match limit with
  | O => ([], false, s)
  | S limit' =>
      match (match limit' with
             | O => None
             | S _ => read_separator ":" i read_ipv4_addr s
             end) with
      | Some (v4, s') => ([v4 / 65536; v4 mod 65536], true, s')
      | None =>
          match read_separator ":" i (read_number 16 4 true 65535) s with
          | Some (g, s') =>
              let '(gs, v4, rest) := read_groups limit' (S i) s' in (g :: gs, v4, rest)
          | None => ([], false, s)
          end
      end
  end.

Definition groups_value (gs : list Z) : Z := fold_left (fun a g => a * 65536 + g) gs 0.

Definition read_ipv6_addr : parser Z := fun s =>
  let '(head, head_ipv4, s) := read_groups 8 0 s in
  if (List.length head =? 8)%nat then Some (groups_value head, s)
  else if head_ipv4 then None
  else
    match read_given_char ":" s with
    | None => None
    | Some s =>
        match read_given_char ":" s with
        | None => None
        | Some s =>
            let '(tail, _, s) := read_groups (8 - (List.length head + 1)) 0 s in
            let zeros := List.repeat 0 (8 - List.length head - List.length tail) in
            Some (groups_value (head ++ zeros ++ tail), s)
        end
    end.

Definition read_ip_addr : parser IpAddr := fun s =>
  match read_ipv4_addr s with
  | Some (a, rest) => Some (V4 a, rest)
  | None =>
      match read_ipv6_addr s with
      | Some (a, rest) => Some (V6 a, rest)
      | None => None
      end
  end.

(** [IpAddr::from_str]: the whole text is one address. *)
Definition parse_ip (s : str) : option IpAddr :=
  match read_ip_addr s with
  | Some (a, []) => Some a
  | _ => None
  end.

(** ** Range of parsed addresses *)

Definition ip_wf (a : IpAddr) : Prop :=
  match a with V4 x => 0 <= x < 2 ^ 32 | V6 x => 0 <= x < 2 ^ 128 end.

Lemma to_digit_nonneg radix c d : to_digit radix c = Some d -> 0 <= d.
Proof.
  unfold to_digit, in_range. pose proof (code_range c).
  destruct ((48 <=? code c) && (code c <=? 57)) eqn:E1;
    [|destruct ((97 <=? code c) && (code c <=? 122)) eqn:E2;
      [|destruct ((65 <=? code c) && (code c <=? 90)) eqn:E3]];
    match goal with |- context [if ?b then _ else _] => destruct b; [|done] end;
    intros [= <-]; lia.
Qed.

Lemma read_digits_nonneg radix acc count s v n rest :
  0 <= radix -> 0 <= acc -> read_digits radix acc count s = (v, n, rest) -> 0 <= v.
Proof.
  intros Hr. revert acc count. induction s as [|c s IH]; intros acc count Ha; simpl; [by intros [= <-]|].
  destruct (to_digit radix c) as [d|] eqn:E; [|by intros [= <-]].
  apply to_digit_nonneg in E. apply IH. nia.
Qed.

Lemma read_number_bound radix m z bound s v rest :
  0 <= radix -> read_number radix m z bound s = Some (v, rest) -> 0 <= v <= bound.
Proof.
  intros Hr. unfold read_number. destruct (read_digits radix 0 0 s) as [[x n] r] eqn:E.
  apply read_digits_nonneg in E; [|lia..].
  destruct (m <? n)%nat; [done|]. destruct (bound <? x) eqn:Eb; [done|].
  destruct (n =? 0)%nat; [done|]. destruct (negb z && _ && _); [done|]. intros [= <- _]. lia.
Qed.

Lemma read_separator_bound sep i radix m z bound s v rest :
  0 <= radix -> read_separator sep i (read_number radix m z bound) s = Some (v, rest) -> 0 <= v <= bound.
Proof.
  intros Hr. unfold read_separator. destruct (0 <? i)%nat; [destruct (read_given_char sep s); [|done]|];
    by apply read_number_bound.
Qed.

Lemma read_ipv4_bound s v rest : read_ipv4_addr s = Some (v, rest) -> 0 <= v < 2 ^ 32.
Proof.
  unfold read_ipv4_addr, read_octet.
  destruct (read_separator _ 0 _ _) as [[a s1]|] eqn:E1; [|done].
  destruct (read_separator _ 1 _ _) as [[b s2]|] eqn:E2; [|done].
  destruct (read_separator _ 2 _ _) as [[c s3]|] eqn:E3; [|done].
  destruct (read_separator _ 3 _ _) as [[d s4]|] eqn:E4; [|done].
  apply read_separator_bound in E1, E2, E3, E4; [|lia..]. intros [= <- _].
  change (2 ^ 32) with 4294967296. lia.
Qed.

Lemma read_groups_bound limit i s gs v4 rest :
  read_groups limit i s = (gs, v4, rest) ->
  (List.length gs <= limit)%nat /\ Forall (fun g => 0 <= g < 65536) gs.
Proof.
  revert i s gs v4 rest. induction limit as [|limit IH]; intros i s gs v4 rest; cbn [read_groups].
  { intros [= <- _ _]. by split. }
  destruct (match limit with O => None | S _ => _ end) as [[a s']|] eqn:E.
  - destruct limit; [done|]. intros [= <- _ _].
    assert (Ha : 0 <= a < 2 ^ 32).
    { unfold read_separator in E. destruct (0 <? i)%nat; [destruct (read_given_char ":" s); [|done]|];
        by apply read_ipv4_bound in E. }
    change (2 ^ 32) with (65536 * 65536) in Ha. split; [simpl; lia|].
    repeat constructor; try (apply Z.mod_pos_bound; lia).
    + apply Z.div_pos; lia.
    + apply Z.div_lt_upper_bound; lia.
  - destruct (read_separator ":" i (read_number 16 4 true 65535) s) as [[g s']|] eqn:E'.
    + destruct (read_groups limit (S i) s') as [[gs' v4'] rest'] eqn:ER. intros HE. simplify_eq.
      apply IH in ER as [? ?]. apply read_separator_bound in E'; [|lia].
      split; [simpl; lia|]. constructor; [lia | done].
    + intros [= <- _ _]. split; [simpl; lia | done].
Qed.

Lemma groups_value_bound gs a :
  0 <= a -> Forall (fun g => 0 <= g < 65536) gs ->
  0 <= fold_left (fun a g => a * 65536 + g) gs a < (a + 1) * 65536 ^ Z.of_nat (List.length gs).
Proof.
  intros Ha HF. revert a Ha. induction HF as [|g gs Hg _ IH]; intros a Ha; cbn [fold_left List.length].
  { rewrite Z.pow_0_r. lia. }
  specialize (IH (a * 65536 + g) ltac:(lia)). rewrite Nat2Z.inj_succ, Z.pow_succ_r by lia. nia.
Qed.

Lemma read_ipv6_bound s v rest : read_ipv6_addr s = Some (v, rest) -> 0 <= v < 2 ^ 128.
Proof.
  unfold read_ipv6_addr. destruct (read_groups 8 0 s) as [[head v4] s1] eqn:E.
  apply read_groups_bound in E as [Hl HF].
  assert (HV : forall gs, List.length gs = 8%nat -> Forall (fun g => 0 <= g < 65536) gs ->
            0 <= groups_value gs < 2 ^ 128).
  { intros gs Hgs HG. pose proof (groups_value_bound gs 0 ltac:(lia) HG) as HB. rewrite Hgs in HB.
    exact HB. }
  destruct (List.length head =? 8)%nat eqn:E8.
  - intros [= <- _]. apply Nat.eqb_eq in E8. by apply HV.
  - apply Nat.eqb_neq in E8. destruct v4; [done|].
    destruct (read_given_char ":" s1) as [s2|]; [|done].
    destruct (read_given_char ":" s2) as [s3|]; [|done].
    destruct (read_groups (8 - (List.length head + 1)) 0 s3) as [[tail ?] s4] eqn:ET.
    apply read_groups_bound in ET as [Ht HT]. intros [= <- _]. apply HV.
    + rewrite !length_app, List.repeat_length. lia.
    + apply Forall_app. split; [done|]. apply Forall_app. split; [|done].
      apply Forall_forall. intros x Hx. apply list_elem_of_In, List.repeat_spec in Hx. lia.
Qed.

(** A parsed address is an address of its family. *)
Lemma parse_ip_wf s a : parse_ip s = Some a -> ip_wf a.
Proof.
  unfold parse_ip, read_ip_addr. destruct (read_ipv4_addr s) as [[x r]|] eqn:E4.
  - destruct r; [|done]. intros [= <-]. by apply read_ipv4_bound in E4.
  - destruct (read_ipv6_addr s) as [[x r]|] eqn:E6; [|done].
    destruct r; [|done]. intros [= <-]. by apply read_ipv6_bound in E6.
Qed.

Example parse_ip_v4 : parse_ip ##"192.168.0.1" = Some (V4 3232235521).
Proof. reflexivity. Qed.
Example parse_ip_v6 : parse_ip ##"2001:db8::1:ffff:1.2.3.4" = Some (V6 42540766411282592856904547897329189636).
Proof. vm_compute. reflexivity. Qed.
Example parse_ip_leading_zero : parse_ip ##"192.168.00.1" = None.
Proof. reflexivity. Qed.
