(* ===== verification/TrustedProxy.v ===== *)
(** Trusted reverse proxies: [crates/rustee-middleware/src/trusted_proxy/].

    CIDR networks and the policy ([policy.rs]), the bounded decoding of
    [Forwarded] and [X-Forwarded-*] ([forwarded.rs]) and the layer that injects
    a verified [ForwardedContext] ([layer.rs]). *)

From Stdlib Require Import ZArith Lia Bool Ascii.
From stdpp Require Import sets.
From S2P Require Import Prelude Strings Http Core HttpModel Net.

Local Open Scope Z_scope.

(** ** Networks and policy *)

Definition MAX_FORWARDED_CHAIN_HOPS : nat := 16.
Definition MAX_TRUSTED_PROXY_NETWORKS : nat := 64.
Definition MAX_FORWARDED_HEADER_BYTES : nat := 2048.

Inductive TrustedProxyError : Type :=
| InvalidPrefixLength
| EmptyNetworkAllowlist
| NetworkAllowlistLimit
| InvalidForwardedChainHops.

Record TrustedProxyNetwork : Type := mk_network { network : IpAddr; prefix_length : Z }.
#[export] Instance TrustedProxyNetwork_eq_dec : EqDecision TrustedProxyNetwork.
Proof. solve_decision. Defined.

Definition normalize_ip (address : IpAddr) (prefix : Z) : IpAddr :=
  match address with
  | V4 a => let shift := 32 - prefix in V4 (Z.shiftl (Z.shiftr a shift) shift)
  | V6 a => let shift := 128 - prefix in V6 (Z.shiftl (Z.shiftr a shift) shift)
  end.

Definition width (a : IpAddr) : Z := match a with V4 _ => 32 | V6 _ => 128 end.

Definition network_new (address : IpAddr) (prefix : Z) :
    result TrustedProxyNetwork TrustedProxyError :=
  if (prefix =? 0) || (width address <? prefix) then Err InvalidPrefixLength
  else Ok (mk_network (normalize_ip address prefix) prefix).

Definition contains (n : TrustedProxyNetwork) (address : IpAddr) : bool :=
  match network n, address with
  | V4 net, V4 a => let shift := 32 - prefix_length n in Z.shiftr net shift =? Z.shiftr a shift
  | V6 net, V6 a => let shift := 128 - prefix_length n in Z.shiftr net shift =? Z.shiftr a shift
  | _, _ => false
  end.

Record TrustedProxyPolicy : Type := {
  networks : list TrustedProxyNetwork;
  forwarded_chain_hops : nat
}.

(** The collecting loop of [TrustedProxyPolicy::new]. *)
Fixpoint collect_networks (collected networks : list TrustedProxyNetwork) :
    result (list TrustedProxyNetwork) TrustedProxyError :=
  match networks with
  | [] => Ok collected
  | n :: rest =>
      if bool_decide (n ∈ collected) then collect_networks collected rest
      else if (List.length collected =? MAX_TRUSTED_PROXY_NETWORKS)%nat then Err NetworkAllowlistLimit
      else collect_networks (collected ++ [n]) rest
  end.

Definition policy_new (ns : list TrustedProxyNetwork) :
    result TrustedProxyPolicy TrustedProxyError :=
  let? collected := collect_networks [] ns in
  match collected with
  | [] => Err EmptyNetworkAllowlist
  | _ => Ok {| networks := collected; forwarded_chain_hops := 0 |}
  end.

Definition with_forwarded_chain_hops (hops : nat) (p : TrustedProxyPolicy) :
    result TrustedProxyPolicy TrustedProxyError :=
  if (hops =? 0)%nat || (MAX_FORWARDED_CHAIN_HOPS <? hops)%nat then Err InvalidForwardedChainHops
  else Ok {| networks := networks p; forwarded_chain_hops := hops |}.

Definition trusts (p : TrustedProxyPolicy) (address : IpAddr) : bool :=
  existsb (fun n => contains n address) (networks p).

(** ** Forwarded headers *)

Definition X_FORWARDED_FOR : str := ##"x-forwarded-for".
Definition X_FORWARDED_HOST : str := ##"x-forwarded-host".
Definition X_FORWARDED_PROTO : str := ##"x-forwarded-proto".

Record ForwardedElement : Type := {
  el_client_ip : IpAddr;
  el_scheme : option str;
  el_host : option str
}.

Section forwarded.
(** [value.parse::<http::uri::Authority>().is_ok()]. *)
Context (is_authority : str -> bool).

(** The loop of [parse_forwarded_element] over the pairs. *)
Fixpoint parse_pairs (items : list str) (client_ip : option IpAddr) (scheme host : option str) :
    result (option IpAddr * option str * option str) unit :=
  match items with
  | [] => Ok (client_ip, scheme, host)
  | item :: rest =>
      match split_once "=" (trim item) with
      | None => Err tt
      | Some (name, value) =>
          if negb (nonempty value) || contains_any [" "%char; byte_of 34] value then Err tt
          else
            let name := to_ascii_lowercase name in
            if str_eqb name ##"for" && negb (is_some client_ip) then
              match parse_ip value with
              | Some ip => parse_pairs rest (Some ip) scheme host
              | None => Err tt
              end
            else if str_eqb name ##"proto" && negb (is_some scheme)
                    && (str_eqb value ##"http" || str_eqb value ##"https") then
              parse_pairs rest client_ip (Some value) host
            else if str_eqb name ##"host" && negb (is_some host)
                    && negb (contains_char "@" value) && is_authority value then
              parse_pairs rest client_ip scheme (Some value)
            else Err tt
      end
  end.

Definition parse_forwarded_element (value : str) : result ForwardedElement unit :=
  match parse_pairs (split ";" value) None None None with
  | Err e => Err e
  | Ok (None, _, _) => Err tt
  | Ok (Some ip, scheme, host) =>
      Ok {| el_client_ip := ip; el_scheme := scheme; el_host := host |}
  end.

(** The scan from the right: skip at most [hops] trusted addresses. *)
Fixpoint select_from_right (p : TrustedProxyPolicy) (trusted_hops : nat) (rev_clients : list IpAddr) :
    result IpAddr unit :=
  match rev_clients with
  | [] => Err tt
  | c :: rest =>
      if (trusted_hops <? forwarded_chain_hops p)%nat && trusts p c
      then select_from_right p (S trusted_hops) rest
      else Ok c
  end.

Definition select_client_ip (clients : list IpAddr) (p : TrustedProxyPolicy) : result IpAddr unit :=
  select_from_right p 0 (rev clients).

(** The same scan over elements, in [parse_forwarded]. *)
Fixpoint select_element (p : TrustedProxyPolicy) (trusted_hops : nat) (edge : ForwardedElement)
    (rev_elements : list ForwardedElement) : result ForwardedContext unit :=
  match rev_elements with
  | [] => Err tt
  | e :: rest =>
      if (trusted_hops <? forwarded_chain_hops p)%nat && trusts p (el_client_ip e)
      then select_element p (S trusted_hops) edge rest
      else Ok {| client_ip := el_client_ip e; scheme := el_scheme edge; host := el_host edge |}
  end.

Context `{HttpApi}.

Definition bounded_header_text (value : HeaderValue) : result str unit :=
  match hv_to_str value with
  | None => Err tt
  | Some text =>
      if (List.length text <=? MAX_FORWARDED_HEADER_BYTES)%nat then Ok text else Err tt
  end.

Definition single_header (headers : HeaderMap) (name : str) : result (option HeaderValue) unit :=
  match hm_get_all name headers with
  | [] => Ok None
  | [v] => Ok (Some v)
  | _ => Err tt
  end.

Definition parse_forwarded (value : HeaderValue) (p : TrustedProxyPolicy) :
    result ForwardedContext unit :=
  let? text := bounded_header_text value in
  let? elements := collect_results (map (fun e => parse_forwarded_element (trim e)) (split "," text)) in
  if negb (0 <? List.length elements)%nat
     || (forwarded_chain_hops p + 1 <? List.length elements)%nat then Err tt
  else if existsb (fun e => is_some (el_scheme e) || is_some (el_host e)) (removelast elements)
  then Err tt
  else match last elements with
       | None => Err tt
       | Some edge => select_element p 0 edge (rev elements)
       end.

Definition parse_forwarded_headers (headers : HeaderMap) (p : TrustedProxyPolicy) :
    result (option ForwardedContext) unit :=
  let? value := single_header headers FORWARDED in
  transpose (option_map (fun v => parse_forwarded v p) value).

Definition parse_x_forwarded_scheme (value : HeaderValue) : result str unit :=
  let? text := bounded_header_text value in
  if str_eqb text ##"http" || str_eqb text ##"https" then Ok text else Err tt.

Definition parse_x_forwarded_host (value : HeaderValue) : result str unit :=
  let? text := bounded_header_text value in
  if negb (contains_any [","%char; " "%char; byte_of 34; "@"%char] text) && is_authority text
  then Ok text else Err tt.

Definition parse_x_forwarded_headers (headers : HeaderMap) (p : TrustedProxyPolicy) :
    result (option ForwardedContext) unit :=
  let? client := single_header headers X_FORWARDED_FOR in
  let? scheme := single_header headers X_FORWARDED_PROTO in
  let? host := single_header headers X_FORWARDED_HOST in
  match client with
  | None => if negb (is_some scheme) && negb (is_some host) then Ok None else Err tt
  | Some client =>
      let? text := bounded_header_text client in
      let? clients := collect_results (map (fun v => ok_or (parse_ip v) tt) (map trim (split "," text))) in
      if negb (0 <? List.length clients)%nat
         || (forwarded_chain_hops p + 1 <? List.length clients)%nat then Err tt
      else
        let? client_ip := select_client_ip clients p in
        let? scheme := transpose (option_map parse_x_forwarded_scheme scheme) in
        let? host := transpose (option_map parse_x_forwarded_host host) in
        Ok (Some {| client_ip := client_ip; scheme := scheme; host := host |})
  end.

(** ** The layer *)

Inductive TrustedProxyHeaderFamily : Type := Forwarded | XForwarded.

Record TrustedProxyLayer : Type := {
  policy : TrustedProxyPolicy;
  header_family : TrustedProxyHeaderFamily
}.
Definition proxy_layer_new (p : TrustedProxyPolicy) : TrustedProxyLayer :=
  {| policy := p; header_family := Forwarded |}.
Definition with_x_forwarded (l : TrustedProxyLayer) : TrustedProxyLayer :=
  {| policy := policy l; header_family := XForwarded |}.

Context `{!Serialize ErrorPayload}.

Definition connection_info_missing : Error :=
  mk_error 500 ##"connection_info_missing" ##"transport connection metadata is required".
Definition invalid_forwarded_header : Error :=
  mk_error 400 ##"invalid_forwarded_header" ##"the trusted proxy forwarded header is invalid".

Definition proxy_call (l : TrustedProxyLayer) (inner : Service) (request : Request) : Response :=
  match ext_connection_info (req_extensions request) with
  | None => into_response connection_info_missing
  | Some peer =>
      if trusts (policy l) (sock_ip (peer_addr peer)) then
        let context :=
          match header_family l with
          | Forwarded => parse_forwarded_headers (req_headers request) (policy l)
          | XForwarded => parse_x_forwarded_headers (req_headers request) (policy l)
          end in
        match context with
        | Ok (Some context) => call_ready inner (with_req_extensions (set_forwarded context) request)
        | Ok None => call_ready inner request
        | Err _ => into_response invalid_forwarded_header
        end
      else call_ready inner request
  end.

(** [FromRequest for ForwardedContext]. *)
Definition forwarded_from_request (request : Request) : result ForwardedContext Error :=
  match ext_forwarded (req_extensions request) with
  | Some c => Ok c
  | None => Err (mk_error 500 ##"forwarded_context_missing" ##"trusted proxy context is required")
  end.
End forwarded.

(** ** Lemmas: networks *)

Definition ip_bits (a : IpAddr) : Z := match a with V4 x => x | V6 x => x end.

(** Equal after a right shift: equal from that bit on. *)
Lemma shiftr_eq_bits a b s :
  0 <= s -> Z.shiftr a s = Z.shiftr b s <-> forall i, s <= i -> Z.testbit a i = Z.testbit b i.
Proof.
  intros Hs. split.
  - intros HE i Hi. replace i with (i - s + s) by lia. rewrite <- !Z.shiftr_spec by lia. by rewrite HE.
  - intros HB. apply Z.bits_inj'. intros n Hn. rewrite !Z.shiftr_spec by lia. apply HB. lia.
Qed.

Lemma bits_above x w i : 0 <= x < 2 ^ w -> w <= i -> Z.testbit x i = false.
Proof.
  intros Hx Hi. destruct (Z.eq_dec x 0) as [->|]; [apply Z.bits_0|].
  apply Z.bits_above_log2; [lia|]. assert (Z.log2 x < w) by (apply Z.log2_lt_pow2; lia). lia.
Qed.

Lemma shiftr_eq_prefix a b w s :
  0 <= s -> 0 <= a < 2 ^ w -> 0 <= b < 2 ^ w ->
  Z.shiftr a s = Z.shiftr b s <-> forall i, s <= i < w -> Z.testbit a i = Z.testbit b i.
Proof.
  intros Hs Ha Hb. rewrite shiftr_eq_bits by done. split; [intros HB i Hi; apply HB; lia|].
  intros HB i Hi. destruct (Z.lt_ge_cases i w); [by apply HB|].
  by rewrite !(bits_above _ w) by done.
Qed.

Lemma shift_round a s : 0 <= s -> Z.shiftr (Z.shiftl (Z.shiftr a s) s) s = Z.shiftr a s.
Proof. intros Hs. rewrite Z.shiftr_shiftl_l by done. by rewrite Z.sub_diag, Z.shiftl_0_r. Qed.

(** ** Lemmas: the allowlist *)

Lemma collect_networks_Ok collected ns r :
  collect_networks collected ns = Ok r -> NoDup collected ->
  (List.length collected <= MAX_TRUSTED_PROXY_NETWORKS)%nat ->
  NoDup r /\ (List.length r <= MAX_TRUSTED_PROXY_NETWORKS)%nat /\
  forall n, n ∈ r <-> n ∈ collected \/ n ∈ ns.
Proof.
  revert collected. induction ns as [|n ns IH]; intros collected; cbn [collect_networks].
  { intros [= <-] HN Hl. split_and!; [done | done | set_solver]. }
  case_bool_decide as Hin.
  - intros Hr HN Hl. apply IH in Hr as (? & ? & Hm); [|done..]. split_and!; [done | done |].
    intros x. rewrite Hm. set_solver.
  - destruct (_ =? _)%nat eqn:E; [done|]. apply Nat.eqb_neq in E. intros Hr HN Hl.
    apply IH in Hr as (? & ? & Hm).
    + split_and!; [done | done |]. intros x. rewrite Hm. set_solver.
    + apply NoDup_app. split_and!; [done | set_solver | apply NoDup_singleton].
    + rewrite length_app. simpl. lia.
Qed.

Lemma collect_networks_Err collected ns e :
  collect_networks collected ns = Err e -> NoDup collected ->
  e = NetworkAllowlistLimit /\
  exists l, NoDup l /\ (List.length l = S MAX_TRUSTED_PROXY_NETWORKS)%nat /\ l ⊆ collected ++ ns.
Proof.
  revert collected. induction ns as [|n ns IH]; intros collected; cbn [collect_networks]; [done|].
  case_bool_decide as Hin.
  - intros Hr HN. apply IH in Hr as (-> & l & ? & ? & Hl); [|done]. split; [done|].
    exists l. split_and!; [done | done | set_solver].
  - destruct (_ =? _)%nat eqn:E.
    + apply Nat.eqb_eq in E. intros [= <-] HN. split; [done|]. exists (n :: collected).
      split_and!; [by constructor | simpl; lia | set_solver].
    + intros Hr HN. apply IH in Hr as (-> & l & ? & ? & Hl).
      * split; [done|]. exists l. split_and!; [done | done | set_solver].
      * apply NoDup_app. split_and!; [done | set_solver | apply NoDup_singleton].
Qed.

(** ** Lemmas: the client of a chain *)

(** [ip] is the client of a chain of addresses, oldest first: the addresses to its
    right are trusted proxies, at most [hops] of them, and the scan could not go
    on because the budget is used up or [ip] itself is not trusted. *)
Definition client_of (p : TrustedProxyPolicy) (chain : list IpAddr) (ip : IpAddr) : Prop :=
  exists left right, chain = left ++ ip :: right /\
    Forall (fun a => trusts p a = true) right /\
    (List.length right <= forwarded_chain_hops p)%nat /\
    (List.length right = forwarded_chain_hops p \/ trusts p ip = false).

Lemma select_from_right_Ok p k l ip :
  (k <= forwarded_chain_hops p)%nat ->
  select_from_right p k l = Ok ip <->
  exists near far, l = near ++ ip :: far /\
    Forall (fun a => trusts p a = true) near /\
    (k + List.length near <= forwarded_chain_hops p)%nat /\
    ((k + List.length near = forwarded_chain_hops p)%nat \/ trusts p ip = false).
Proof.
  revert k. induction l as [|c l IH]; intros k Hk; cbn [select_from_right].
  { split; [done|]. intros (near & far & HE & _). by destruct near. }
  destruct ((k <? forwarded_chain_hops p)%nat && trusts p c) eqn:E.
  - apply andb_true_iff in E as [Ek Et]. apply Nat.ltb_lt in Ek. rewrite IH by lia. split.
    + intros (near & far & -> & HF & Hl & Hs). exists (c :: near), far.
      split_and!; [done | by constructor | simpl; lia |]. simpl. rewrite Nat.add_succ_r. exact Hs.
    + intros (near & far & HE & HF & Hl & Hs). destruct near as [|x near].
      * injection HE as -> ->. destruct Hs as [Hs|Hs]; [simpl in Hs; lia | congruence].
      * injection HE as -> ->. apply Forall_cons in HF as [_ HF]. exists near, far.
        simpl in *. rewrite Nat.add_succ_r in Hl, Hs. done.
  - split.
    + intros [= ->]. exists [], l. split_and!; [done | constructor | simpl; lia |].
      apply andb_false_iff in E as [E|E]; [left | by right]. apply Nat.ltb_ge in E. simpl. lia.
    + intros (near & far & HE & HF & Hl & Hs). destruct near as [|x near]; [by injection HE as ->|].
      injection HE as -> ->. apply Forall_cons in HF as [Hx _]. simpl in Hl.
      rewrite Hx, (proj2 (Nat.ltb_lt _ _)) in E by lia. done.
Qed.

Lemma select_client_ip_Ok p chain ip : select_client_ip chain p = Ok ip <-> client_of p chain ip.
Proof.
  unfold select_client_ip, client_of. rewrite select_from_right_Ok by lia. split.
  - intros (near & far & HE & HF & Hl & Hs). exists (rev far), (rev near).
    rewrite length_rev. split_and!; [| by apply Forall_rev | lia | done].
    rewrite <- (rev_involutive chain), HE, rev_app_distr. simpl. by rewrite <- app_assoc.
  - intros (left & right & -> & HF & Hl & Hs). exists (rev right), (rev left).
    rewrite length_rev. split_and!; [| by apply Forall_rev | simpl; lia | done].
    rewrite rev_app_distr. simpl. by rewrite <- app_assoc.
Qed.

(** The scan over [Forwarded] elements is the scan over their addresses. *)
Lemma select_element_eq p k edge l :
  select_element p k edge l =
    let? ip := select_from_right p k (map el_client_ip l) in
    Ok {| client_ip := ip; scheme := el_scheme edge; host := el_host edge |}.
Proof.
  revert k. induction l as [|e l IH]; intros k; simpl; [done|].
  destruct (_ && _); [apply IH | done].
Qed.

(** ** Lemmas: the contexts that headers yield *)

Section contexts.
Context (is_authority : str -> bool).

(** *** What a [Forwarded] element says *)

(** A parameter [name=value]; names are compared in lower case. *)
Definition parameter_of (item : str) : option (str * str) :=
  '(name, value) ← split_once "=" (trim item); Some (to_ascii_lowercase name, value).
Definition http_scheme (s : str) : Prop := s = ##"http" \/ s = ##"https".
(** An authority without user information. *)
Definition plain_host (h : str) : Prop := "@"%char ∉ h /\ is_authority h = true.
Definition allowed_parameter (q : str * str) : Prop :=
  (q.2 <> [] /\ " "%char ∉ q.2 /\ byte_of 34 ∉ q.2) /\
  (q.1 = ##"for" /\ is_some (parse_ip q.2) = true \/ q.1 = ##"proto" /\ http_scheme q.2 \/ q.1 = ##"host" /\ plain_host q.2).
Fixpoint value_of (name : str) (qs : list (str * str)) : option str :=
  match qs with
  | [] => None
  | q :: qs => if str_eqb q.1 name then Some q.2 else value_of name qs
  end.

(** The element is a list of allowed parameters, none of them twice, that names an address. *)
Definition element_says (text : str) (e : ForwardedElement) : Prop :=
  exists qs, Forall2 (fun item q => parameter_of item = Some q) (split ";" text) qs /\
    Forall allowed_parameter qs /\ NoDup (map fst qs) /\
    value_of ##"for" qs ≫= parse_ip = Some (el_client_ip e) /\
    el_scheme e = value_of ##"proto" qs /\ el_host e = value_of ##"host" qs.

(** One turn of the loop. *)
Definition next_pair (c : option IpAddr) (s h : option str) (q : str * str) : option (option IpAddr * option str * option str) :=
  let '(name, value) := q in
  if negb (nonempty value) || contains_any [" "%char; byte_of 34] value then None
  else if str_eqb name ##"for" && negb (is_some c) then ip ← parse_ip value; Some (Some ip, s, h)
  else if str_eqb name ##"proto" && negb (is_some s) && (str_eqb value ##"http" || str_eqb value ##"https")
  then Some (c, Some value, h)
  else if str_eqb name ##"host" && negb (is_some h) && negb (contains_char "@" value) && is_authority value
  then Some (c, s, Some value)
  else None.
Lemma parse_pairs_cons item items c s h :
  parse_pairs is_authority (item :: items) c s h =
  match parameter_of item ≫= next_pair c s h with
  | Some (c, s, h) => parse_pairs is_authority items c s h
  | None => Err tt
  end.
Proof.
  cbn [parse_pairs]. unfold parameter_of, next_pair. destruct (split_once "=" (trim item)) as [[name value]|]; [|done]. cbn [mbind option_bind].
  destruct (negb _ || _); [done|]. destruct (_ && negb (is_some c)); [by destruct (parse_ip value)|].
  destruct (_ && (str_eqb value _ || _)); [done|]. by destruct (_ && is_authority value).
Qed.

Lemma plain_value value :
  negb (nonempty value) || contains_any [" "%char; byte_of 34] value = false <->
  value <> [] /\ " "%char ∉ value /\ byte_of 34 ∉ value.
Proof.
  rewrite orb_false_iff, negb_false_iff, contains_any_false. split.
  - intros [HN HC]. split_and!; [by intros -> | apply HC; set_solver..].
  - intros (HN & H1 & H2). split; [by destruct value|]. intros x. rewrite !elem_of_cons, elem_of_nil. naive_solver.
Qed.
Lemma http_scheme_true v : str_eqb v ##"http" || str_eqb v ##"https" = true <-> http_scheme v.
Proof. unfold http_scheme. by rewrite orb_true_iff, !str_eqb_true. Qed.

Lemma next_pair_Some c s h q st :
  next_pair c s h q = Some st <->
  allowed_parameter q /\
  (q.1 = ##"for" /\ c = None /\ st = (parse_ip q.2, s, h) \/
   q.1 = ##"proto" /\ s = None /\ st = (c, Some q.2, h) \/
   q.1 = ##"host" /\ h = None /\ st = (c, s, Some q.2)).
Proof.
  destruct q as [name value]. unfold next_pair, allowed_parameter. cbn [fst snd]. rewrite <- plain_value.
  destruct (negb (nonempty value) || _); [naive_solver|].
  destruct (str_eqb name ##"for") eqn:HF.
  { apply str_eqb_true in HF as ->. change (str_eqb ##"for" ##"proto") with false. change (str_eqb ##"for" ##"host") with false.
    destruct c; cbn [is_some negb andb]; [naive_solver|]. destruct (parse_ip value); cbn; naive_solver. }
  destruct (str_eqb name ##"proto") eqn:HP.
  { apply str_eqb_true in HP as ->. change (str_eqb ##"proto" ##"host") with false. rewrite <- http_scheme_true.
    destruct s; cbn [is_some negb andb]; [naive_solver|]. destruct (_ || _); naive_solver. }
  destruct (str_eqb name ##"host") eqn:HH.
  { apply str_eqb_true in HH as ->. unfold plain_host. rewrite <- contains_char_false.
    destruct h; cbn [is_some negb andb]; [naive_solver|]. destruct (contains_char _ _), (is_authority value); naive_solver. }
  cbn [andb]. assert (name <> ##"for" /\ name <> ##"proto" /\ name <> ##"host"); [|naive_solver].
  apply bool_decide_eq_false in HF, HP, HH. done.
Qed.

Definition or_else {A} (o o' : option A) : option A := match o with Some _ => o | None => o' end.
Definition unset {A} (o : option A) (name : str) (qs : list (str * str)) : Prop := is_some o = true -> name ∉ map fst qs.

Definition parsed_pairs (items : list str) (c0 : option IpAddr) (s0 h0 : option str) (qs : list (str * str)) : Prop :=
  Forall2 (fun item q => parameter_of item = Some q) items qs /\ Forall allowed_parameter qs /\ NoDup (map fst qs) /\
  (unset c0 ##"for" qs /\ unset s0 ##"proto" qs /\ unset h0 ##"host" qs).
Definition results_in (c0 : option IpAddr) (s0 h0 : option str) (qs : list (str * str)) : option IpAddr * option str * option str :=
  (or_else c0 (value_of ##"for" qs ≫= parse_ip), or_else s0 (value_of ##"proto" qs), or_else h0 (value_of ##"host" qs)).

Lemma unset_cons {A} (o : option A) name q qs : unset o name (q :: qs) <-> unset o name qs /\ (o = None \/ name <> q.1).
Proof.
  unfold unset. cbn [map]. rewrite not_elem_of_cons. destruct o as [x|]; cbn [is_some]; [|naive_solver]. split.
  - intros HU. destruct (HU eq_refl). split; [done | by right].
  - intros [HU [?|?]] _; [done|]. split; [done | by apply HU].
Qed.

(** The accumulators after a turn stand for the parameter that was read. *)
Lemma next_pair_step c0 s0 h0 q st qs :
  next_pair c0 s0 h0 q = Some st ->
  let '(c1, s1, h1) := st in
  ((unset c1 ##"for" qs /\ unset s1 ##"proto" qs /\ unset h1 ##"host" qs) <->
   q.1 ∉ map fst qs /\ unset c0 ##"for" (q :: qs) /\ unset s0 ##"proto" (q :: qs) /\ unset h0 ##"host" (q :: qs)) /\
  results_in c1 s1 h1 qs = results_in c0 s0 h0 (q :: qs).
Proof.
  destruct st as [[c1 s1] h1]. intros [[_ HA] HS]%next_pair_Some. destruct q as [name value]. cbn [fst snd] in *. rewrite (unset_cons c0), (unset_cons s0), (unset_cons h0). cbn [fst].
  destruct HS as [(-> & -> & [= -> -> ->])|[(-> & -> & [= -> -> ->])|(-> & -> & [= -> -> ->])]]; unfold results_in; cbn [value_of fst snd].
  - assert (is_some (parse_ip value) = true) as HI by naive_solver.
    change (str_eqb ##"for" ##"for") with true. change (str_eqb ##"for" ##"proto") with false.
    change (str_eqb ##"for" ##"host") with false. cbn [mbind option_bind or_else].
    destruct (parse_ip value) as [ip|]; [|done]. split; [|done]. unfold unset at 1 4. cbn [is_some]. naive_solver.
  - change (str_eqb ##"proto" ##"for") with false. change (str_eqb ##"proto" ##"proto") with true.
    change (str_eqb ##"proto" ##"host") with false. split; [|done]. unfold unset at 2 5. cbn [is_some]. naive_solver.
  - change (str_eqb ##"host" ##"for") with false. change (str_eqb ##"host" ##"proto") with false.
    change (str_eqb ##"host" ##"host") with true. split; [|done]. unfold unset at 3 6. cbn [is_some]. naive_solver.
Qed.

Lemma next_pair_allowed c0 s0 h0 q qs :
  allowed_parameter q -> unset c0 ##"for" (q :: qs) -> unset s0 ##"proto" (q :: qs) -> unset h0 ##"host" (q :: qs) ->
  exists st, next_pair c0 s0 h0 q = Some st.
Proof.
  rewrite (unset_cons c0), (unset_cons s0), (unset_cons h0). intros HA HC HS HH. pose proof HA as [_ HQ].
  destruct HQ as [[E _]|[[E _]|[E _]]]; (eexists; apply next_pair_Some; split; [done|]); naive_solver.
Qed.

Lemma parse_pairs_Ok items c0 s0 h0 r :
  parse_pairs is_authority items c0 s0 h0 = Ok r <-> exists qs, parsed_pairs items c0 s0 h0 qs /\ r = results_in c0 s0 h0 qs.
Proof.
  revert c0 s0 h0. induction items as [|item items IH]; intros c0 s0 h0.
  { assert (HR : results_in c0 s0 h0 [] = (c0, s0, h0)) by (by destruct c0, s0, h0). cbn [parse_pairs]. split.
    - intros [= <-]. exists []. rewrite HR. split; [|done].
      split_and!; try constructor; intros ?; apply not_elem_of_nil.
    - intros (qs & [HF _] & ->). inversion HF; subst. by rewrite HR. }
  rewrite parse_pairs_cons. split.
  - destruct (parameter_of item) as [q|] eqn:HQ; cbn [mbind option_bind]; [|done].
    destruct (next_pair c0 s0 h0 q) as [[[c1 s1] h1]|] eqn:HS; [|done]. intros (qs & (H1 & H2 & H3 & HU) & ->)%IH.
    destruct (next_pair_step _ _ _ _ _ qs HS) as [HI HR]. apply HI in HU as [HN HU]. exists (q :: qs). split; [|done].
    apply next_pair_Some in HS as [HA _]. split_and!; [by constructor | by constructor | by constructor | apply HU..].
  - intros (qs & (H1 & H2 & H3 & HU) & ->). inversion H1 as [|? q ? qs' HQ H1']; subst. rewrite HQ. cbn [mbind option_bind].
    apply Forall_cons in H2 as [HA H2]. apply NoDup_cons in H3 as [HN H3].
    destruct (next_pair_allowed c0 s0 h0 q qs' HA) as [[[c1 s1] h1] HS]; [apply HU..|]. rewrite HS. apply IH.
    destruct (next_pair_step _ _ _ _ _ qs' HS) as [HI HR]. exists qs'. split; [|done].
    split_and!; [done | done | done | apply HI; by split..].
Qed.

Lemma parse_forwarded_element_Ok text e : parse_forwarded_element is_authority text = Ok e <-> element_says text e.
Proof.
  unfold parse_forwarded_element, element_says. split.
  - destruct (parse_pairs _ _ _ _ _) as [[[[ip|] s] h]|] eqn:HP; [|done..]. intros [= <-].
    apply parse_pairs_Ok in HP as (qs & (H1 & H2 & H3 & _) & [= HC HS HH]). by exists qs.
  - intros (qs & H1 & H2 & H3 & HC & HS & HH).
    rewrite (proj2 (parse_pairs_Ok (split ";" text) None None None (results_in None None None qs))).
    + unfold results_in. cbn [or_else]. rewrite HC, <- HS, <- HH. by destruct e.
    + exists qs. split; [|done]. by split_and!.
Qed.

(** *** What the headers say *)

Context `{HttpLaws}.

Definition header_text (value : HeaderValue) (text : str) : Prop :=
  hv_to_str value = Some text /\ (List.length text <= MAX_FORWARDED_HEADER_BYTES)%nat.

(** One [Forwarded] header of at most [hops + 1] elements, the client found among their
    addresses; scheme and host are those of the last element, the only one that may have them. *)
Definition forwarded_says (headers : HeaderMap) (p : TrustedProxyPolicy) (ctx : ForwardedContext) : Prop :=
  exists value text elements edge,
    hm_get_all FORWARDED headers = [value] /\ header_text value text /\
    Forall2 (fun piece e => element_says (trim piece) e) (split "," text) elements /\
    (List.length elements <= forwarded_chain_hops p + 1)%nat /\
    Forall (fun e => el_scheme e = None /\ el_host e = None) (removelast elements) /\ last elements = Some edge /\
    client_of p (map el_client_ip elements) (client_ip ctx) /\ scheme ctx = el_scheme edge /\ host ctx = el_host edge.

Definition optional_says (headers : HeaderMap) (name : str) (ok : str -> Prop) (o : option str) : Prop :=
  match o with
  | None => hm_get_all name headers = []
  | Some text => exists value, hm_get_all name headers = [value] /\ header_text value text /\ ok text
  end.
Definition header_host (h : str) : Prop := ","%char ∉ h /\ " "%char ∉ h /\ byte_of 34 ∉ h /\ plain_host h.

(** One [X-Forwarded-For] header of at most [hops + 1] addresses, the client found among them,
    with at most one scheme and one host. *)
Definition x_forwarded_says (headers : HeaderMap) (p : TrustedProxyPolicy) (ctx : ForwardedContext) : Prop :=
  exists value text chain,
    hm_get_all X_FORWARDED_FOR headers = [value] /\ header_text value text /\
    Forall2 (fun piece ip => parse_ip (trim piece) = Some ip) (split "," text) chain /\
    (List.length chain <= forwarded_chain_hops p + 1)%nat /\ client_of p chain (client_ip ctx) /\
    optional_says headers X_FORWARDED_PROTO http_scheme (scheme ctx) /\
    optional_says headers X_FORWARDED_HOST header_host (host ctx).

Definition headers_say (f : TrustedProxyHeaderFamily) : HeaderMap -> TrustedProxyPolicy -> ForwardedContext -> Prop :=
  match f with Forwarded => forwarded_says | XForwarded => x_forwarded_says end.

Lemma bounded_header_text_Ok value text : bounded_header_text value = Ok text <-> header_text value text.
Proof.
  unfold bounded_header_text, header_text. destruct (hv_to_str value) as [t|]; [|naive_solver].
  destruct (Nat.leb_spec (List.length t) MAX_FORWARDED_HEADER_BYTES); split; intros HB; try done.
  - by injection HB as <-.
  - destruct HB as [[= <-] _]. done.
  - destruct HB as [[= <-] ?]. lia.
Qed.
Lemma single_header_None headers name : single_header headers name = Ok None <-> hm_get_all name headers = [].
Proof. unfold single_header. by destruct (hm_get_all name headers) as [|? [|]]. Qed.
Lemma single_header_Some headers name value : single_header headers name = Ok (Some value) <-> hm_get_all name headers = [value].
Proof. unfold single_header. destruct (hm_get_all name headers) as [|? [|]]; naive_solver. Qed.

Lemma collect_map_Ok {A B} (f : A -> result B unit) l xs :
  collect_results (map f l) = Ok xs <-> Forall2 (fun x y => f x = Ok y) l xs.
Proof.
  rewrite collect_results_Ok. revert xs. induction l as [|x l IH]; intros [|y xs]; cbn [map fmap list_fmap].
  - by split.
  - split; [done | inversion 1].
  - split; [done | inversion 1].
  - rewrite Forall2_cons. rewrite <- IH. split; [by intros [= ? ?] | by intros [-> ->]].
Qed.
Lemma ok_or_Ok {A} (o : option A) x : ok_or o tt = Ok x <-> o = Some x.
Proof. destruct o; cbn; naive_solver. Qed.

Lemma no_metadata elements :
  existsb (fun e => is_some (el_scheme e) || is_some (el_host e)) elements = false <->
  Forall (fun e => el_scheme e = None /\ el_host e = None) elements.
Proof.
  rewrite existsb_false. split; intros HF; (eapply Forall_impl; [exact HF|]); intros e; cbn;
    destruct (el_scheme e), (el_host e); cbn; naive_solver.
Qed.

Lemma parse_forwarded_headers_Ok headers p ctx :
  parse_forwarded_headers is_authority headers p = Ok (Some ctx) <-> forwarded_says headers p ctx.
Proof.
  unfold parse_forwarded_headers. split.
  - destruct (single_header headers FORWARDED) as [[value|]|] eqn:HV; [|done..]. apply single_header_Some in HV.
    cbn [option_map transpose]. destruct (parse_forwarded _ value p) as [ctx'|] eqn:HP; [|done]. intros [= ->].
    unfold parse_forwarded in HP. destruct (bounded_header_text value) as [text|] eqn:HT; [|done].
    destruct (collect_results _) as [elements|] eqn:HC; [|done]. destruct (negb _ || _) eqn:HL; [done|].
    destruct (existsb _ _) eqn:HM; [done|]. destruct (last elements) as [edge|] eqn:HE; [|done].
    rewrite select_element_eq, map_rev in HP. destruct (select_from_right _ _ _) as [ip|] eqn:HS; [|done]. injection HP as <-.
    apply orb_false_iff in HL as [_ HL]. apply Nat.ltb_ge in HL. apply collect_map_Ok in HC.
    exists value, text, elements, edge. split_and!; [done | by apply bounded_header_text_Ok | | done | by apply no_metadata | done | | done..].
    + eapply Forall2_impl; [exact HC|]. intros piece e. apply parse_forwarded_element_Ok.
    + by apply select_client_ip_Ok.
  - intros (value & text & elements & edge & HV & HT & HC & HL & HM & HE & HS & H1 & H2).
    apply single_header_Some in HV as ->. cbn [option_map transpose]. unfold parse_forwarded.
    apply bounded_header_text_Ok in HT as ->. rewrite (proj2 (collect_map_Ok _ _ elements)).
    2:{ eapply Forall2_impl; [exact HC|]. intros piece e. apply parse_forwarded_element_Ok. }
    rewrite (proj2 (Nat.ltb_ge _ _) HL), (proj2 (no_metadata _) HM), HE.
    rewrite (proj2 (Nat.ltb_lt 0 (List.length elements))) by (destruct elements; [done | cbn; lia]). cbn [negb orb].
    rewrite select_element_eq, map_rev. apply select_client_ip_Ok in HS. unfold select_client_ip in HS. rewrite HS.
    rewrite <- H1, <- H2. by destruct ctx.
Qed.

Lemma optional_header_Ok (parse : HeaderValue -> result str unit) ok headers name o :
  (forall value text, parse value = Ok text <-> header_text value text /\ ok text) ->
  (exists found, single_header headers name = Ok found /\ transpose (option_map parse found) = Ok o) <->
  optional_says headers name ok o.
Proof.
  intros HP. split.
  - intros ([value|] & HV & HT); cbn [option_map transpose] in HT.
    + apply single_header_Some in HV. destruct (parse value) as [text|] eqn:HE; [|done]. injection HT as <-.
      apply HP in HE. by exists value.
    + injection HT as <-. by apply single_header_None.
  - destruct o as [text|]; cbn [optional_says].
    + intros (value & HV & HB). exists (Some value). split; [by apply single_header_Some|]. cbn [option_map transpose].
      by rewrite (proj2 (HP _ _) HB).
    + intros HV. exists None. split; [by apply single_header_None | done].
Qed.

Lemma parse_x_forwarded_scheme_Ok value text :
  parse_x_forwarded_scheme value = Ok text <-> header_text value text /\ http_scheme text.
Proof.
  unfold parse_x_forwarded_scheme. rewrite <- bounded_header_text_Ok, <- http_scheme_true.
  destruct (bounded_header_text value) as [t|]; [|by split; [|intros [? _]]].
  destruct (str_eqb t _ || _) eqn:HE; split; [by intros [= <-] | by intros [? _] | done |].
  intros [[= <-] HT]. by rewrite HE in HT.
Qed.
Lemma parse_x_forwarded_host_Ok value text :
  parse_x_forwarded_host is_authority value = Ok text <-> header_text value text /\ header_host text.
Proof.
  assert (HH : header_host text <-> contains_any [","%char; " "%char; byte_of 34; "@"%char] text = false /\ is_authority text = true).
  { unfold header_host, plain_host. rewrite contains_any_false. split; [|intros [HC HA]; repeat split; [apply HC; set_solver.. | exact HA]].
    intros (?&?&?&?&?). split; [|done]. intros x. rewrite !elem_of_cons, elem_of_nil. naive_solver. }
  unfold parse_x_forwarded_host. rewrite <- bounded_header_text_Ok, HH.
  destruct (bounded_header_text value) as [t|]; [|by split; [|intros [? _]]].
  destruct (negb (contains_any _ t) && is_authority t) eqn:HE; split; [intros [= <-] | by intros [? _] | done |].
  - apply andb_true_iff in HE as [HC%negb_true_iff HA]. done.
  - intros [[= <-] [HC HA]]. by rewrite HC, HA in HE.
Qed.

Lemma parse_x_forwarded_headers_Ok headers p ctx :
  parse_x_forwarded_headers is_authority headers p = Ok (Some ctx) <-> x_forwarded_says headers p ctx.
Proof.
  unfold parse_x_forwarded_headers, x_forwarded_says.
  setoid_rewrite <- (optional_header_Ok _ _ _ _ _ parse_x_forwarded_scheme_Ok).
  setoid_rewrite <- (optional_header_Ok _ _ _ _ _ parse_x_forwarded_host_Ok).
  setoid_rewrite <- single_header_Some. setoid_rewrite <- bounded_header_text_Ok. setoid_rewrite <- select_client_ip_Ok.
  assert (HC : forall text chain, Forall2 (fun piece ip => parse_ip (trim piece) = Some ip) (split "," text) chain <->
    collect_results (map (fun v => ok_or (parse_ip v) tt) (map trim (split "," text))) = Ok chain).
  { intros text chain. rewrite map_map, collect_map_Ok.
    split; intros HF; (eapply Forall2_impl; [exact HF|]); intros piece ip; apply ok_or_Ok. }
  setoid_rewrite HC. clear HC. split.
  - destruct (single_header headers X_FORWARDED_FOR) as [client|] eqn:H1; [|done].
    destruct (single_header headers X_FORWARDED_PROTO) as [sv|] eqn:H2; [|done].
    destruct (single_header headers X_FORWARDED_HOST) as [hv|] eqn:H3; [|done].
    destruct client as [client|]; [|by destruct (negb _ && _)].
    destruct (bounded_header_text client) as [text|] eqn:H4; [|done].
    destruct (collect_results _) as [chain|] eqn:H5; [|done].
    destruct (negb _ || _) eqn:HL; [done|]. apply orb_false_iff in HL as [_ HL]. apply Nat.ltb_ge in HL.
    destruct (select_client_ip chain p) as [ip|] eqn:H6; [|done].
    destruct (transpose (option_map parse_x_forwarded_scheme sv)) as [s|] eqn:H7; [|done].
    destruct (transpose (option_map _ hv)) as [h|] eqn:H8; [|done]. intros [= <-]. by exists client, text, chain; split_and!; eauto.
  - intros (client & text & chain & -> & HT & HC & HL & HS & (sv & -> & Hs) & (hv & -> & Hh)). rewrite HT, HC.
    assert (0 < List.length chain)%nat as HN by (destruct chain; [done | cbn; lia]).
    rewrite (proj2 (Nat.ltb_lt _ _) HN), (proj2 (Nat.ltb_ge _ _) HL). cbn [negb orb]. rewrite HS, Hs, Hh. by destruct ctx.
Qed.

(** No header of the selected family is present. *)
Definition family_absent (f : TrustedProxyHeaderFamily) (headers : HeaderMap) : Prop :=
  match f with
  | Forwarded => hm_get_all FORWARDED headers = []
  | XForwarded =>
      hm_get_all X_FORWARDED_FOR headers = [] /\ hm_get_all X_FORWARDED_PROTO headers = [] /\
      hm_get_all X_FORWARDED_HOST headers = []
  end.

Lemma parse_none_absent f headers p :
  match f with
  | Forwarded => parse_forwarded_headers is_authority headers p
  | XForwarded => parse_x_forwarded_headers is_authority headers p
  end = Ok None <-> family_absent f headers.
Proof.
  destruct f; unfold family_absent.
  - unfold parse_forwarded_headers. rewrite <- single_header_None.
    destruct (single_header headers FORWARDED) as [[v|]|]; simpl; [|done|done].
    destruct (parse_forwarded _ v p); by split.
  - unfold parse_x_forwarded_headers. rewrite <- !single_header_None.
    destruct (single_header headers X_FORWARDED_FOR) as [[c|]|]; [| |by split; [|intros [? _]]].
    + split; [|by intros [? _]]. intros HP.
      destruct (single_header headers X_FORWARDED_PROTO) as [sv|]; [|done].
      destruct (single_header headers X_FORWARDED_HOST) as [hv|]; [|done].
      destruct (bounded_header_text c) as [text|]; [|done].
      destruct (collect_results _) as [cs|]; [|done]. destruct (negb _ || _); [done|].
      destruct (select_client_ip cs p); [|done].
      destruct (transpose (option_map parse_x_forwarded_scheme sv)); [|done].
      by destruct (transpose (option_map _ hv)).
    + destruct (single_header headers X_FORWARDED_PROTO) as [[sv|]|],
        (single_header headers X_FORWARDED_HOST) as [[hv|]|]; simpl; naive_solver.
Qed.
Lemma parse_Some_says f headers p ctx :
  match f with
  | Forwarded => parse_forwarded_headers is_authority headers p
  | XForwarded => parse_x_forwarded_headers is_authority headers p
  end = Ok (Some ctx) <-> headers_say f headers p ctx.
Proof. destruct f; [apply parse_forwarded_headers_Ok | apply parse_x_forwarded_headers_Ok]. Qed.
End contexts.

(** ** Properties *)

(** a trusted network is a CIDR block. [TrustedProxyNetwork::new] rejects [/0] and
    prefixes wider than the family; otherwise the network contains exactly the
    addresses of the same family that share the first [prefix] bits. *)
Theorem network_contains_prefix address prefix a :
  ip_wf address -> ip_wf a -> 0 <= prefix <= 255 ->
  match network_new address prefix with
  | Err e => e = InvalidPrefixLength /\ (prefix = 0 \/ width address < prefix)
  | Ok n =>
      contains n a = true <->
      width a = width address /\
      forall i, width address - prefix <= i < width address ->
        Z.testbit (ip_bits a) i = Z.testbit (ip_bits address) i
  end.
Proof.
  intros Hw Ha Hp. unfold network_new.
  destruct ((prefix =? 0) || (width address <? prefix)) eqn:E.
  { split; [done|]. lia. }
  unfold contains, normalize_ip. cbn [network prefix_length].
  destruct address as [x|x], a as [y|y]; cbn [width ip_bits ip_wf] in *; try (split; [done | by intros [? _]]).
  - rewrite Z.eqb_eq, shift_round by lia. rewrite (shiftr_eq_prefix x y 32) by lia.
    split; [intros HB; split; [done|]; intros; by rewrite HB | intros [_ HB] i Hi; by rewrite HB].
  - rewrite Z.eqb_eq, shift_round by lia. rewrite (shiftr_eq_prefix x y 128) by lia.
    split; [intros HB; split; [done|]; intros; by rewrite HB | intros [_ HB] i Hi; by rewrite HB].
Qed.

(** the allowlist. A policy holds each distinct network once, between one and
    64 of them, and trusts exactly the addresses some supplied network contains;
    construction fails only for an empty list or for more than 64 distinct
    networks. *)
Theorem policy_new_allowlist ns :
  match policy_new ns with
  | Ok p =>
      NoDup (networks p) /\ (1 <= List.length (networks p) <= 64)%nat /\
      forwarded_chain_hops p = 0%nat /\
      forall a, trusts p a = existsb (fun n => contains n a) ns
  | Err EmptyNetworkAllowlist => ns = []
  | Err NetworkAllowlistLimit => exists l, NoDup l /\ List.length l = 65%nat /\ l ⊆ ns
  | Err _ => False
  end.
Proof.
  unfold policy_new. destruct (collect_networks [] ns) as [r|e] eqn:E.
  - apply collect_networks_Ok in E as (HN & Hl & Hm); [|constructor | simpl; lia].
    destruct r as [|n r].
    + destruct ns as [|n ns]; [done|]. assert (n ∈ []) by (apply Hm; set_solver). set_solver.
    + cbn [networks forwarded_chain_hops]. split_and!; [done | simpl; lia | done | done |].
      intros a. unfold trusts. cbn [networks]. apply eq_iff_eq_true. rewrite !existsb_exists.
      split; intros (x & Hx & Hc); exists x; (split; [|done]);
        apply list_elem_of_In in Hx; apply list_elem_of_In; apply Hm in Hx || apply Hm; set_solver.
  - apply collect_networks_Err in E as (-> & l & HN & Hl & Hs); [|constructor]. eauto.
Qed.

(** the client of a forwarded chain. From the right, trusted proxies are skipped
    up to the configured number of hops; the first address that is not skipped is
    the client, and an address further left never is. No client is found exactly
    when the whole chain is within the budget and trusted. *)
Theorem select_client_ip_spec p chain :
  match select_client_ip chain p with
  | Ok ip => client_of p chain ip /\ forall ip', client_of p chain ip' -> ip' = ip
  | Err _ =>
      Forall (fun a => trusts p a = true) chain /\
      (List.length chain <= forwarded_chain_hops p)%nat
  end.
Proof.
  destruct (select_client_ip chain p) as [ip|[]] eqn:E.
  - split; [by apply select_client_ip_Ok|]. intros ip' Hc%select_client_ip_Ok. congruence.
  - unfold select_client_ip in E.
    assert (HG : forall l k, (k <= forwarded_chain_hops p)%nat -> select_from_right p k l = Err tt ->
              Forall (fun a => trusts p a = true) l /\
              (k + List.length l <= forwarded_chain_hops p)%nat).
    { clear. induction l as [|c l IH]; intros k Hk; simpl; [split; [constructor | lia]|].
      destruct ((k <? forwarded_chain_hops p)%nat && trusts p c) eqn:E; [|done].
      apply andb_true_iff in E as [Ek Et]. apply Nat.ltb_lt in Ek.
      intros [HF Hl]%IH; [|lia]. split; [by constructor | lia]. }
    apply HG in E as [HF Hl]; [|lia]. apply Forall_rev in HF. rewrite rev_involutive in HF.
    rewrite length_rev in Hl. split; [done | lia].
Qed.

(** C18: forwarded headers count only behind a trusted peer, and exactly as far as they can be
    trusted. Without transport metadata the answer is 500. An untrusted peer's request reaches
    the service exactly as it came, whatever headers it carries. A trusted peer's request
    passes unchanged when the selected header family is absent. Otherwise it carries the
    context that its headers say: the client is the first address from the right of the
    header's own chain that is not a trusted proxy within the configured number of hops, the
    scheme is [http] or [https] and the host an authority without user information, those of
    the last element. When the headers say nothing in this sense the answer is 400. *)
Theorem proxy_call_contract `{HttpLaws} `{!Serialize ErrorPayload} is_authority layer inner request :
  let out := proxy_call is_authority layer inner request in
  let headers := req_headers request in
  match ext_connection_info (req_extensions request) with
  | None => out = into_response connection_info_missing
  | Some peer =>
      if negb (trusts (policy layer) (sock_ip (peer_addr peer))) then out = inner request
      else
        family_absent (header_family layer) headers /\ out = inner request \/
        (exists ctx, headers_say is_authority (header_family layer) headers (policy layer) ctx /\
           out = inner (with_req_extensions (set_forwarded ctx) request)) \/
        ~ family_absent (header_family layer) headers /\
        (forall ctx, ~ headers_say is_authority (header_family layer) headers (policy layer) ctx) /\
        out = into_response invalid_forwarded_header
  end.
Proof.
  cbn zeta. unfold proxy_call, call_ready.
  destruct (ext_connection_info _) as [peer|]; [|done].
  destruct (trusts _ _); cbn [negb]; [|done].
  pose proof (parse_none_absent is_authority (header_family layer) (req_headers request) (policy layer)) as HA.
  pose proof (parse_Some_says is_authority (header_family layer) (req_headers request) (policy layer)) as HS.
  destruct (match header_family layer with Forwarded => _ | XForwarded => _ end) as [[ctx|]|[]].
  - right; left. exists ctx. split; [by apply HS | done].
  - left. split; [by apply HA | done].
  - right; right. split_and!; [by rewrite <- HA | | done]. intros ctx. by rewrite <- HS.
Qed.

(** ** Examples *)

Module TrustedProxyExamples.
Import HttpModel.

Definition office : TrustedProxyPolicy := {|
  networks := [mk_network (V4 167772160) 8];
  forwarded_chain_hops := 1
|}.
Definition via (peer : IpAddr) (forwarded : str) : Request := {|
  req_method := ##"GET";
  req_uri := {| u_path := ##"/"; u_query := None |};
  req_headers := [(FORWARDED, forwarded)];
  req_extensions := {|
    ext_principal := None; ext_session := None; ext_tenant := None;
    ext_connection_info := Some {| peer_addr := {| sock_ip := peer; sock_port := 443 |} |};
    ext_forwarded := None; ext_nested_prefix := None; ext_template := None;
    ext_classification := None |};
  req_body := empty_body
|}.
Definition echo (r : Request) : Response :=
  response (if is_some (ext_forwarded (req_extensions r)) then 200 else 202) empty_body.

Lemma network_contains_prefix_witness :
  contains (mk_network (V4 167772160) 8) (V4 167837953) = true.
Proof.
  pose proof (network_contains_prefix (V4 167776002) 8 (V4 167837953)
    ltac:(vm_compute; intuition congruence) ltac:(vm_compute; intuition congruence) ltac:(lia)) as HC.
  assert (HE : network_new (V4 167776002) 8 = Ok (mk_network (V4 167772160) 8)) by reflexivity.
  rewrite HE in HC. apply HC. split; [reflexivity|]. cbn [width ip_bits]. intros i Hi.
  assert (HI : i ∈ seqZ 24 8) by (apply elem_of_seqZ; lia). vm_compute in HI.
  repeat (apply elem_of_cons in HI as [->|HI]; [reflexivity|]). by apply not_elem_of_nil in HI.
Defined.

(** A spoofed address to the left of the one that the trusted proxy saw is not the client,
    and a chain that is longer than the configured hops allow is refused. *)
Definition client_seen (forwarded : str) : result (option ForwardedContext) unit :=
  parse_forwarded_headers (fun _ => true) (req_headers (via (V4 167772161) forwarded)) office.
Example spoofed_not_client :
  client_seen ##"for=6.6.6.6, for=203.0.113.9;proto=https" =
    Ok (Some {| client_ip := V4 3405803785; scheme := Some ##"https"; host := None |}) /\
  client_seen ##"for=203.0.113.9, for=10.0.0.2" = Ok (Some {| client_ip := V4 3405803785; scheme := None; host := None |}) /\
  client_seen ##"for=6.6.6.6, for=203.0.113.9, for=10.0.0.2" = Err tt.
Proof. vm_compute. by split_and!. Qed.

(** The same header from a trusted and from an untrusted peer. *)
Lemma proxy_call_contract_witness :
  res_status (proxy_call (fun _ => true) (proxy_layer_new office) echo
    (via (V4 167772161) ##"for=203.0.113.9;proto=https")) = 200 /\
  proxy_call (fun _ => true) (proxy_layer_new office) echo
    (via (V4 3405803777) ##"for=203.0.113.9;proto=https") =
  echo (via (V4 3405803777) ##"for=203.0.113.9;proto=https").
Proof.
  split; [vm_compute; reflexivity|].
  exact (proxy_call_contract (fun _ => true) (proxy_layer_new office) echo
    (via (V4 3405803777) ##"for=203.0.113.9;proto=https")).
Defined.
End TrustedProxyExamples.
