(* ===== verification/Cors.v ===== *)
(** CORS and the panic boundary: [crates/rustee-middleware/src/cors.rs] and
    [crates/rustee-middleware/src/panic.rs]. *)

From Stdlib Require Import ZArith Lia Bool Ascii.
From stdpp Require Import sets.
From S2P Require Import Prelude Strings Http Core HttpModel Negotiation.

Local Open Scope Z_scope.

(** ** CORS *)

Inductive CorsRequest : Type := NoCors | Actual | Preflight.

Section cors.
Context `{HttpApi}.

Record CorsLayer : Type := {
  allowed_origin : HeaderValue;
  allowed_methods : HeaderValue;
  allowed_headers : HeaderValue;
  allow_credentials : bool
}.

Definition cors_new (origin : HeaderValue) : CorsLayer := {|
  allowed_origin := origin;
  allowed_methods := hv_from_static ##"GET, POST, PUT, PATCH, DELETE, OPTIONS";
  allowed_headers := hv_from_static ##"content-type, authorization";
  allow_credentials := false
|}.
Definition allow_methods (methods : HeaderValue) (c : CorsLayer) : CorsLayer := {|
  allowed_origin := allowed_origin c; allowed_methods := methods;
  allowed_headers := allowed_headers c; allow_credentials := allow_credentials c
|}.
Definition allow_headers (headers : HeaderValue) (c : CorsLayer) : CorsLayer := {|
  allowed_origin := allowed_origin c; allowed_methods := allowed_methods c;
  allowed_headers := headers; allow_credentials := allow_credentials c
|}.
Definition set_allow_credentials (allow : bool) (c : CorsLayer) : CorsLayer := {|
  allowed_origin := allowed_origin c; allowed_methods := allowed_methods c;
  allowed_headers := allowed_headers c; allow_credentials := allow
|}.

Definition accepts_origin (c : CorsLayer) (headers : HeaderMap) : bool :=
  match hm_get_all ORIGIN headers with
  | [origin] => hv_eqb origin (allowed_origin c)
  | _ => false
  end.

Definition add_vary_origin (headers : HeaderMap) : HeaderMap :=
  if already_varies ORIGIN headers then headers
  else hm_append VARY (hv_from_static ##"Origin") headers.

Definition apply_origin (c : CorsLayer) (headers : HeaderMap) : HeaderMap :=
  let headers :=
    add_vary_origin (hm_insert ACCESS_CONTROL_ALLOW_ORIGIN (allowed_origin c) headers) in
  if allow_credentials c
  then hm_insert ACCESS_CONTROL_ALLOW_CREDENTIALS (hv_from_static ##"true") headers
  else headers.

Definition apply_actual (c : CorsLayer) (r : Response) : Response := with_headers (apply_origin c) r.

Definition apply_preflight (c : CorsLayer) (r : Response) : Response :=
  with_headers (fun headers =>
    hm_insert ACCESS_CONTROL_ALLOW_HEADERS (allowed_headers c)
      (hm_insert ACCESS_CONTROL_ALLOW_METHODS (allowed_methods c) (apply_origin c headers))) r.

Definition has_one_header (headers : HeaderMap) (name : str) : bool :=
  match hm_get_all name headers with [_] => true | _ => false end.

Definition classify_request (request : Request) (c : CorsLayer) : CorsRequest :=
  if negb (accepts_origin c (req_headers request)) then NoCors
  else if str_eqb (req_method request) ##"OPTIONS"
          && hm_contains_key ACCESS_CONTROL_REQUEST_METHOD (req_headers request)
  then if has_one_header (req_headers request) ACCESS_CONTROL_REQUEST_METHOD
       then Preflight else NoCors
  else Actual.

Definition cors_call (c : CorsLayer) (inner : Service) (request : Request) : Response :=
  match classify_request request c with
  | Preflight => apply_preflight c (response 204 empty_body)
  | Actual => apply_actual c (call_ready inner request)
  | NoCors => call_ready inner request
  end.

(** ** The panic boundary

    A call that unwinds is [None]. *)
Context `{!Serialize ErrorPayload}.
Definition panic_call (inner : Request -> option Response) (request : Request) : Response :=
  match inner request with
  | Some r => r
  | None => into_response internal
  end.
End cors.

(** ** Lemmas *)

Section lemmas.
Context `{HttpLaws}.

Lemma add_vary_origin_varies headers : already_varies ORIGIN (add_vary_origin headers) = true.
Proof.
  unfold add_vary_origin. destruct (already_varies _ headers) eqn:E; [done|].
  unfold already_varies. rewrite hm_get_all_append_eq, existsb_app. apply orb_true_iff. right.
  cbn [existsb]. unfold varies_on. rewrite hv_static_to_str by reflexivity. reflexivity.
Qed.

Lemma add_vary_origin_other headers k :
  k <> VARY -> hm_get_all k (add_vary_origin headers) = hm_get_all k headers.
Proof.
  intros Hk. unfold add_vary_origin. destruct (already_varies _ headers); [done|].
  by apply hm_get_all_append_ne.
Qed.

Lemma already_varies_ext f h1 h2 :
  hm_get_all VARY h1 = hm_get_all VARY h2 -> already_varies f h1 = already_varies f h2.
Proof. unfold already_varies. by intros ->. Qed.

(** The header changes of an accepted request, in one place. *)
Definition cors_applied (c : CorsLayer) (before after : HeaderMap) (touched : list str) : Prop :=
  hm_get_all ACCESS_CONTROL_ALLOW_ORIGIN after = [allowed_origin c] /\
  already_varies ORIGIN after = true /\
  (if allow_credentials c
   then hm_get_all ACCESS_CONTROL_ALLOW_CREDENTIALS after = [hv_from_static ##"true"]
   else hm_get_all ACCESS_CONTROL_ALLOW_CREDENTIALS after =
        hm_get_all ACCESS_CONTROL_ALLOW_CREDENTIALS before) /\
  forall k, k ∉ touched -> hm_get_all k after = hm_get_all k before.

Lemma apply_origin_applied c headers :
  cors_applied c headers (apply_origin c headers)
    [ACCESS_CONTROL_ALLOW_ORIGIN; ACCESS_CONTROL_ALLOW_CREDENTIALS; VARY].
Proof.
  unfold cors_applied, apply_origin.
  destruct (allow_credentials c); split_and!; try (header_lookup; rewrite ?add_vary_origin_other by done;
    by header_lookup).
  - erewrite already_varies_ext; [apply add_vary_origin_varies|]. by header_lookup.
  - intros k Hk. rewrite hm_get_all_insert_ne, add_vary_origin_other, hm_get_all_insert_ne by set_solver.
    done.
  - apply add_vary_origin_varies.
  - intros k Hk. rewrite add_vary_origin_other, hm_get_all_insert_ne by set_solver. done.
Qed.

(** A header of the preflight answer leaves the lookups of the others alone. *)
Lemma cors_applied_insert c before after k v touched :
  cors_applied c before after touched ->
  k ∉ [ACCESS_CONTROL_ALLOW_ORIGIN; ACCESS_CONTROL_ALLOW_CREDENTIALS; VARY] ->
  cors_applied c before (hm_insert k v after) (k :: touched).
Proof.
  intros (H1 & H2 & H3 & H4) Hk. unfold cors_applied.
  rewrite !hm_get_all_insert_ne by set_solver. split_and!; [done | | done |].
  - erewrite already_varies_ext; [exact H2|]. by rewrite hm_get_all_insert_ne by set_solver.
  - intros k' Hk'. rewrite hm_get_all_insert_ne by set_solver. apply H4. set_solver.
Qed.
End lemmas.

(** ** Properties *)

(** CORS headers only for the configured origin. A request that does not carry
    exactly one [Origin], equal to the configured one, is answered by the inner
    service alone. A preflight of the configured origin is answered with an empty
    204 without calling the service; any other request of that origin gets the
    service's status and body with the origin headers added. [Vary: Origin] is
    always present then, and no header outside the CORS ones changes. *)
Theorem cors_call_contract `{HttpLaws} c inner request :
  let out := cors_call c inner request in
  let headers := req_headers request in
  let own := exists v, hm_get_all ORIGIN headers = [v] /\
               hv_as_bytes v = hv_as_bytes (allowed_origin c) in
  let asks := hm_get_all ACCESS_CONTROL_REQUEST_METHOD headers in
  (~ own -> out = inner request) /\
  (own -> req_method request = ##"OPTIONS" -> List.length asks = 1%nat ->
     res_status out = 204 /\ res_body out = empty_body /\
     hm_get_all ACCESS_CONTROL_ALLOW_METHODS (res_headers out) = [allowed_methods c] /\
     hm_get_all ACCESS_CONTROL_ALLOW_HEADERS (res_headers out) = [allowed_headers c] /\
     cors_applied c hm_new (res_headers out)
       [ACCESS_CONTROL_ALLOW_HEADERS; ACCESS_CONTROL_ALLOW_METHODS;
        ACCESS_CONTROL_ALLOW_ORIGIN; ACCESS_CONTROL_ALLOW_CREDENTIALS; VARY]) /\
  (own -> req_method request = ##"OPTIONS" -> (2 <= List.length asks)%nat -> out = inner request) /\
  (own -> req_method request <> ##"OPTIONS" \/ asks = [] ->
     res_status out = res_status (inner request) /\ res_body out = res_body (inner request) /\
     cors_applied c (res_headers (inner request)) (res_headers out)
       [ACCESS_CONTROL_ALLOW_ORIGIN; ACCESS_CONTROL_ALLOW_CREDENTIALS; VARY]).
Proof.
  cbn zeta. unfold cors_call, classify_request, call_ready, has_one_header, hm_contains_key.
  assert (HO : accepts_origin c (req_headers request) = true <->
            exists v, hm_get_all ORIGIN (req_headers request) = [v] /\
              hv_as_bytes v = hv_as_bytes (allowed_origin c)).
  { unfold accepts_origin, hv_eqb. destruct (hm_get_all ORIGIN _) as [|v [|]].
    - naive_solver.
    - rewrite bool_decide_eq_true. naive_solver.
    - naive_solver. }
  rewrite <- HO. destruct (accepts_origin c (req_headers request)); cbn [negb].
  - split_and!; [done | | |].
    + intros _ -> Ha. destruct (hm_get_all ACCESS_CONTROL_REQUEST_METHOD _) as [|a [|]]; try done.
      assert (str_eqb ##"OPTIONS" ##"OPTIONS" = true) as -> by reflexivity.
      unfold apply_preflight. cbn [andb with_headers response res_headers res_status res_body].
      split_and!; [done | done | | |].
      * by header_lookup.
      * by header_lookup.
      * apply cors_applied_insert; [|set_solver]. apply cors_applied_insert; [|set_solver].
        apply apply_origin_applied.
    + intros _ -> Ha. by destruct (hm_get_all ACCESS_CONTROL_REQUEST_METHOD _) as [|a [|]]; simpl in Ha; try lia.
    + intros _ Hor.
      assert (HE : str_eqb (req_method request) ##"OPTIONS" &&
                match hm_get_all ACCESS_CONTROL_REQUEST_METHOD (req_headers request) with
                | [] => false | _ => true end = false).
      { destruct Hor as [Hm| ->]; [|by rewrite andb_false_r].
        unfold str_eqb. by rewrite bool_decide_eq_false_2. }
      rewrite HE. split_and!; [done | done | apply apply_origin_applied].
  - split_and!; [done | by intros ? | by intros ? | by intros ?].
Qed.

Module CorsExamples.
Import HttpModel.

Definition site : CorsLayer := set_allow_credentials true (cors_new ##"https://app.example").
Definition from (origin : str) : Request := {|
  req_method := ##"GET";
  req_uri := {| u_path := ##"/"; u_query := None |};
  req_headers := [(ORIGIN, origin)];
  req_extensions := no_extensions;
  req_body := empty_body
|}.
Definition ok (_ : Request) : Response := response 200 (full_body ##"ok").

Lemma cors_call_contract_witness :
  cors_call site ok (from ##"https://evil.example") = ok (from ##"https://evil.example") /\
  hm_get_all ACCESS_CONTROL_ALLOW_ORIGIN
    (res_headers (cors_call site ok (from ##"https://app.example"))) = [##"https://app.example"].
Proof.
  split.
  - apply (proj1 (cors_call_contract site ok (from ##"https://evil.example"))).
    intros (v & Hv & Hb). vm_compute in Hv. injection Hv as <-. vm_compute in Hb. discriminate Hb.
  - apply (cors_call_contract site ok (from ##"https://app.example")).
    + exists ##"https://app.example". split; vm_compute; reflexivity.
    + left. vm_compute. congruence.
Defined.
End CorsExamples.
