(* ===== verification/RateLimit.v ===== *)
(** Rate limiting: [crates/rustee-rate-limit] and [crates/rustee-rate-limit-redis].

    The policy and the middleware are proved against the interface
    [RateLimitStore]; the Redis adapter implements it on a Redis server, whose
    documented commands are the class [RedisApi] with the laws [RedisLaws].
    Durations are nanoseconds, Redis times milliseconds. *)

From Stdlib Require Import ZArith Lia Bool Ascii.
From stdpp Require Import gmap sets.
From S2P Require Import Prelude Strings Http Core HttpModel.

Local Open Scope Z_scope.

(** ** Policy *)

Inductive RateLimitConfigError : Type := ZeroLimit | InvalidWindow | InvalidKey.

Definition MAX_KEY_BYTES : nat := 256.
Definition RateLimitKey : Type := str.

Definition key_new (value : str) : result RateLimitKey RateLimitConfigError :=
  if is_blank value || (MAX_KEY_BYTES <? List.length value)%nat || existsb is_control (chars value)
  then Err InvalidKey
  else Ok value.

Record FixedWindow : Type := { limit : Z; window : Duration; window_millis : Z }.

Definition window_new (lim : Z) (win : Duration) : result FixedWindow RateLimitConfigError :=
  if lim =? 0 then Err ZeroLimit
  else if u64_max <? as_millis win then Err InvalidWindow
  else if (as_millis win =? 0) || negb (subsec_nanos win mod 1000000 =? 0)
          || (i64_max <? as_millis win)
  then Err InvalidWindow
  else Ok {| limit := lim; window := win; window_millis := as_millis win |}.

Record RateLimitDecision : Type := {
  allowed : bool;
  d_limit : Z;
  remaining : Z;
  reset_after : Duration
}.

Definition decision_allowed (policy : FixedWindow) (left : Z) (reset : Duration) : RateLimitDecision :=
  {| allowed := true; d_limit := limit policy; remaining := Z.min left (limit policy);
     reset_after := reset |}.
Definition decision_denied (policy : FixedWindow) (reset : Duration) : RateLimitDecision :=
  {| allowed := false; d_limit := limit policy; remaining := 0; reset_after := reset |}.

Inductive StoreFailurePolicy : Type := FailClosed | FailOpen.

(** The storage trait: a check at time [now] of the shared state [St]. *)
Class RateLimitStore (St Err : Type) : Type :=
  check : RateLimitKey -> FixedWindow -> Z -> St -> result RateLimitDecision Err * St.

(** ** Middleware *)

Definition RATE_LIMIT_LIMIT : str := ##"ratelimit-limit".
Definition RATE_LIMIT_REMAINING : str := ##"ratelimit-remaining".
Definition RATE_LIMIT_RESET : str := ##"ratelimit-reset".

Definition rounded_seconds (d : Duration) : Z :=
  saturating_add u64_max (as_secs d) (if subsec_nanos d =? 0 then 0 else 1).

Section middleware.
Context `{HttpApi} `{!Serialize ErrorPayload}.

(** An [expect] that fails is [None]. *)
Definition with_rate_limit_headers (r : Response) (d : RateLimitDecision) (include_retry_after : bool) :
    option Response :=
  let reset_seconds := rounded_seconds (reset_after d) in
  l ← hv_from_str (to_dec (d_limit d));
  rem ← hv_from_str (to_dec (remaining d));
  reset ← hv_from_str (to_dec reset_seconds);
  let insert_common headers :=
    hm_insert RATE_LIMIT_RESET reset
      (hm_insert RATE_LIMIT_REMAINING rem (hm_insert RATE_LIMIT_LIMIT l headers)) in
  if include_retry_after then
    retry ← hv_from_str (to_dec reset_seconds);
    Some (with_headers (fun headers => hm_insert RETRY_AFTER retry (insert_common headers)) r)
  else Some (with_headers insert_common r).

Definition rate_limit_key_missing : Error :=
  mk_error 400 ##"rate_limit_key_missing" ##"a rate-limit key is required".
Definition rate_limit_exceeded : Error :=
  mk_error 429 ##"rate_limit_exceeded" ##"request rate limit exceeded".
Definition rate_limit_unavailable : Error :=
  mk_error 503 ##"rate_limit_unavailable" ##"rate limiting is unavailable".

Record RateLimitLayer : Type := {
  policy : FixedWindow;
  resolver : Request -> option RateLimitKey;
  failure_policy : StoreFailurePolicy
}.

Definition rate_limit_call {St Err} `{!RateLimitStore St Err} (l : RateLimitLayer) (inner : Service)
    (request : Request) (now : Z) (st : St) : option Response * St :=
  match resolver l request with
  | None => (Some (into_response rate_limit_key_missing), st)
  | Some key =>
      let '(r, st) := check key (policy l) now st in
      match r with
      | Ok decision =>
          if allowed decision
          then (with_rate_limit_headers (call_ready inner request) decision false, st)
          else (with_rate_limit_headers (into_response rate_limit_exceeded) decision true, st)
      | Err _ =>
          match failure_policy l with
          | FailOpen => (Some (call_ready inner request), st)
          | FailClosed => (Some (into_response rate_limit_unavailable), st)
          end
      end
  end.
End middleware.

(** ** Redis *)

Inductive RedisError : Type := CommandFailed | UnexpectedReturnType.

(** The commands of the script. [None] is an error reply, which ends the script
    and keeps the effects of the commands before it. *)
Class RedisApi : Type := {
  Db : Type;
  redis_incr : Z -> str -> Db -> option Z * Db;
  redis_pexpire : Z -> str -> Z -> Db -> option bool * Db;
  redis_pttl : Z -> str -> Db -> Z
}.

(** What a key holds: an integer and the time after which it expires. *)
Definition Entry : Type := (Z * option Z)%type.
Definition live (now : Z) (e : option Entry) : option Entry :=
  match e with
  | Some (v, Some deadline) => if now <=? deadline then e else None
  | _ => e
  end.

Class RedisLaws `{RedisApi} : Type := {
  stored : str -> Db -> option Entry;
  (** [INCR] starts at one, keeps the expiry and fails at the largest [i64]. *)
  incr_reply now k db :
    fst (redis_incr now k db) =
      match live now (stored k db) with
      | None => Some 1
      | Some (v, _) => if v <? i64_max then Some (v + 1) else None
      end;
  incr_stored now k db :
    stored k (snd (redis_incr now k db)) =
      match live now (stored k db) with
      | None => Some (1, None)
      | Some (v, d) => Some (if v <? i64_max then v + 1 else v, d)
      end;
  incr_other now k k' db : k <> k' -> stored k' (snd (redis_incr now k db)) = stored k' db;
  (** [PEXPIRE] with a time to live sets the deadline, and fails when that does not fit an
      [i64]. (It deletes the key for a time that is not positive.) *)
  pexpire_sets now k ms db v d :
    live now (stored k db) = Some (v, d) -> 0 < ms -> now + ms <= i64_max ->
    fst (redis_pexpire now k ms db) = Some true /\ stored k (snd (redis_pexpire now k ms db)) = Some (v, Some (now + ms));
  pexpire_fails now k ms db v d :
    live now (stored k db) = Some (v, d) -> i64_max < now + ms ->
    fst (redis_pexpire now k ms db) = None /\ stored k (snd (redis_pexpire now k ms db)) = Some (v, d);
  pexpire_other now k k' ms db :
    k <> k' -> stored k' (snd (redis_pexpire now k ms db)) = stored k' db;
  (** [PTTL]: the time left, [-1] without expiry, [-2] without key. *)
  pttl_reply now k db :
    redis_pttl now k db =
      match live now (stored k db) with
      | None => -2
      | Some (_, None) => -1
      | Some (_, Some deadline) => deadline - now
      end
}.

Section redis.
Context `{RedisApi}.

(** [FIXED_WINDOW_SCRIPT], run atomically. *)
Definition fixed_window_script (now : Z) (key : str) (window : Z) (db : Db) :
    result (Z * Z) RedisError * Db :=
  let '(count, db) := redis_incr now key db in
  match count with
  | None => (Err CommandFailed, db)
  | Some count =>
      if count =? 1 then
        let '(reply, db) := redis_pexpire now key window db in
        match reply with
        | None => (Err CommandFailed, db)
        | Some _ => (Ok (count, redis_pttl now key db), db)
        end
      else (Ok (count, redis_pttl now key db), db)
  end.

Definition STORAGE_KEY_NAMESPACE : str := ##"rustee:rate-limit:v1".

Definition storage_key (namespace : str) (key : RateLimitKey) : str :=
  STORAGE_KEY_NAMESPACE ++ ##":" ++ to_dec (Z.of_nat (List.length namespace)) ++ ##":" ++ namespace
    ++ ##":" ++ to_dec (Z.of_nat (List.length key)) ++ ##":" ++ key.

Definition reset_after_ttl (ttl : Z) : result Duration RedisError :=
  if ttl <? 0 then Err UnexpectedReturnType else Ok (from_millis ttl).

(** [u32::try_from(count).unwrap_or(u32::MAX)]. *)
Definition clamp_u32 (count : Z) : Z := if count <=? u32_max then count else u32_max.

Definition redis_check (namespace : str) : RateLimitStore Db RedisError :=
  fun key policy now db =>
    let '(reply, db) := fixed_window_script now (storage_key namespace key) (window_millis policy) db in
    (let? r := reply in
     let? reset := reset_after_ttl (snd r) in
     Ok (if fst r <=? limit policy
         then decision_allowed policy (saturating_sub (limit policy) (clamp_u32 (fst r))) reset
         else decision_denied policy reset), db).
End redis.

(** *** Namespaces: [crates/rustee-redis/src/namespace.rs] *)

Definition MAX_KEY_NAMESPACE_BYTES : nat := 128.
Definition is_valid_key_namespace (namespace : str) : bool :=
  nonempty namespace
  && (List.length namespace <=? MAX_KEY_NAMESPACE_BYTES)%nat
  && forallb (fun c => is_ascii_alphanumeric c || existsb (char_eqb c) ##":_-.") namespace.

Inductive RedisRateLimitConfigError : Type := InvalidNamespace.

(** The connection is the database the checks run on. *)
Definition redis_store_new `{RedisApi} (namespace : str) :
    result (RateLimitStore Db RedisError) RedisRateLimitConfigError :=
  if is_valid_key_namespace namespace then Ok (redis_check namespace) else Err InvalidNamespace.

(** ** Lemmas: storage keys *)

Lemma storage_key_inj ns ns' k k' : storage_key ns k = storage_key ns' k' -> ns = ns' /\ k = k'.
Proof.
  unfold storage_key. intros HE. apply app_inv_head, app_inv_head in HE.
  destruct (length_delimited_inj ns ns' _ _ HE) as [-> HE']. split; [done|].
  apply app_inv_head in HE'. destruct (length_delimited_inj k k' [] []) as [? _]; [|done]. by rewrite !app_nil_r.
Qed.

(** ** Lemmas: the script *)

Section script.
Context `{RedisLaws}.

Lemma script_fresh now k win db :
  live now (stored k db) = None -> now + win <= i64_max -> 0 < win ->
  exists db', fixed_window_script now k win db = (Ok (1, win), db') /\
    stored k db' = Some (1, Some (now + win)).
Proof.
  intros Hl Hw Hp. unfold fixed_window_script.
  pose proof (incr_reply now k db) as HR. pose proof (incr_stored now k db) as HS.
  rewrite Hl in HR, HS. destruct (redis_incr now k db) as [count db1]. simpl in HR, HS. subst count.
  rewrite Z.eqb_refl.
  destruct (pexpire_sets now k win db1 1 None) as [HP HQ]; [by rewrite HS | lia | lia|].
  destruct (redis_pexpire now k win db1) as [reply db2]. simpl in HP, HQ. subst reply.
  eexists. split; [|exact HQ]. rewrite pttl_reply, HQ. simpl live.
  rewrite (proj2 (Z.leb_le _ _)) by lia. repeat f_equal. lia.
Qed.

Lemma script_next now k win db v d :
  stored k db = Some (v, Some d) -> now <= d -> 1 <= v < i64_max ->
  exists db', fixed_window_script now k win db = (Ok (v + 1, d - now), db') /\
    stored k db' = Some (v + 1, Some d).
Proof.
  intros Hs Hd Hv. unfold fixed_window_script.
  assert (Hl : live now (stored k db) = Some (v, Some d)).
  { rewrite Hs. simpl. by rewrite (proj2 (Z.leb_le _ _)). }
  pose proof (incr_reply now k db) as HR. pose proof (incr_stored now k db) as HS.
  rewrite Hl, (proj2 (Z.ltb_lt _ _)) in HR, HS by lia.
  destruct (redis_incr now k db) as [count db1]. simpl in HR, HS. subst count.
  rewrite (proj2 (Z.eqb_neq _ _)) by lia. eexists. split; [|exact HS].
  rewrite pttl_reply, HS. simpl live. by rewrite (proj2 (Z.leb_le _ _)).
Qed.

(** A deadline out of range: the counter is left without expiry. *)
Lemma script_overflow now k win db :
  live now (stored k db) = None -> i64_max < now + win ->
  exists db', fixed_window_script now k win db = (Err CommandFailed, db') /\
    stored k db' = Some (1, None).
Proof.
  intros Hl Hw. unfold fixed_window_script.
  pose proof (incr_reply now k db) as HR. pose proof (incr_stored now k db) as HS.
  rewrite Hl in HR, HS. destruct (redis_incr now k db) as [count db1]. simpl in HR, HS. subst count.
  rewrite Z.eqb_refl.
  destruct (pexpire_fails now k win db1 1 None) as [HP HQ]; [by rewrite HS | lia|].
  destruct (redis_pexpire now k win db1) as [reply db2]. simpl in HP, HQ. subst reply. eauto.
Qed.

Lemma script_stuck now k win db v :
  stored k db = Some (v, None) -> 1 <= v < i64_max ->
  exists db', fixed_window_script now k win db = (Ok (v + 1, -1), db') /\
    stored k db' = Some (v + 1, None).
Proof.
  intros Hs Hv. unfold fixed_window_script.
  pose proof (incr_reply now k db) as HR. pose proof (incr_stored now k db) as HS.
  assert (Hl : live now (stored k db) = Some (v, None)) by (by rewrite Hs).
  rewrite Hl, (proj2 (Z.ltb_lt _ _)) in HR, HS by lia.
  destruct (redis_incr now k db) as [count db1]. simpl in HR, HS. subst count.
  rewrite (proj2 (Z.eqb_neq _ _)) by lia. eexists. split; [|exact HS].
  by rewrite pttl_reply, HS.
Qed.

Lemma script_other now k k' win db :
  k <> k' -> stored k' (snd (fixed_window_script now k win db)) = stored k' db.
Proof.
  intros Hk. unfold fixed_window_script. pose proof (incr_other now k k' db Hk) as HS.
  destruct (redis_incr now k db) as [[count|] db1]; simpl in *; [|done].
  destruct (count =? 1); [|done]. pose proof (pexpire_other now k k' win db1 Hk) as HQ.
  destruct (redis_pexpire now k win db1) as [[|] db2]; simpl in *; congruence.
Qed.
End script.

(** ** Lemmas: a window *)

(** One check of the shared server, by any deployment and for any key. *)
Record Check : Type := { at_ : Z; namespace : str; key : RateLimitKey; with_policy : FixedWindow }.
Definition same_bucket (c d : Check) : bool :=
  str_eqb (namespace c) (namespace d) && str_eqb (key c) (key d).

Section window.
Context `{RedisLaws}.

Definition run_check (c : Check) (db : Db) : result RateLimitDecision RedisError * Db :=
  redis_check (namespace c) (key c) (with_policy c) (at_ c) db.

(** Interleaved checks, each with its answer. *)
Fixpoint run_checks (cs : list Check) (db : Db) :
    list (Check * result RateLimitDecision RedisError) :=
  match cs with
  | [] => []
  | c :: rest => let '(r, db) := run_check c db in (c, r) :: run_checks rest db
  end.

(** The answer to the [i]-th check of a bucket whose window ends at [deadline]. *)
Definition expected (c : Check) (i deadline : Z) : result RateLimitDecision RedisError :=
  let reset := from_millis (deadline - at_ c) in
  Ok (if i <=? limit (with_policy c)
      then {| allowed := true; d_limit := limit (with_policy c);
              remaining := limit (with_policy c) - i; reset_after := reset |}
      else {| allowed := false; d_limit := limit (with_policy c); remaining := 0;
              reset_after := reset |}).

Definition bucket (c : Check) (rs : list (Check * result RateLimitDecision RedisError)) :=
  List.filter (fun r => same_bucket c r.1) rs.

Lemma same_bucket_key c d :
  same_bucket c d = false -> storage_key (namespace d) (key d) <> storage_key (namespace c) (key c).
Proof.
  intros Hb HE. apply storage_key_inj in HE as [H1 H2]. unfold same_bucket in Hb.
  rewrite !(proj2 (str_eqb_true _ _)) in Hb by done. done.
Qed.

Lemma decision_expected c i ttl :
  0 <= limit (with_policy c) <= u32_max -> 1 <= i -> 0 <= ttl ->
  (let? reset := reset_after_ttl ttl in
   Ok (if i <=? limit (with_policy c)
       then decision_allowed (with_policy c) (saturating_sub (limit (with_policy c)) (clamp_u32 i)) reset
       else decision_denied (with_policy c) reset)) = expected c i (ttl + at_ c).
Proof.
  intros Hl Hi Ht. unfold reset_after_ttl, expected. rewrite (proj2 (Z.ltb_ge _ _)) by lia.
  replace (ttl + at_ c - at_ c) with ttl by lia.
  destruct (i <=? limit (with_policy c)) eqn:E; [|done].
  unfold decision_allowed, saturating_sub, clamp_u32. rewrite (proj2 (Z.leb_le i u32_max)) by lia.
  do 2 f_equal. lia.
Qed.

Lemma run_window c cs db v deadline :
  stored (storage_key (namespace c) (key c)) db = Some (v, Some deadline) ->
  1 <= v -> v + Z.of_nat (List.length cs) <= i64_max ->
  Forall (fun d => at_ d <= deadline /\ 0 <= limit (with_policy d) <= u32_max) cs ->
  bucket c (run_checks cs db) =
    imap (fun i d => (d, expected d (v + 1 + Z.of_nat i) deadline))
      (List.filter (same_bucket c) cs).
Proof.
  revert db v. induction cs as [|d cs IH]; intros db v Hs Hv Hn HF; [done|].
  apply Forall_cons in HF as [[Hd Hlim] HF]. cbn [run_checks List.length] in *.
  unfold run_check, redis_check. destruct (same_bucket c d) eqn:Eb.
  - assert (HK : storage_key (namespace d) (key d) = storage_key (namespace c) (key c)).
    { unfold same_bucket in Eb. apply andb_true_iff in Eb as [->%str_eqb_true ->%str_eqb_true]. done. }
    rewrite HK.
    destruct (script_next (at_ d) _ (window_millis (with_policy d)) db v deadline Hs Hd ltac:(lia))
      as (db' & -> & Hs'). cbn [fst snd]. rewrite decision_expected by lia.
    unfold bucket in *. cbn [List.filter fst]. rewrite Eb. cbn [imap].
    rewrite (IH db' (v + 1) Hs' ltac:(lia) ltac:(lia) HF). f_equal.
    + f_equal. f_equal; lia.
    + apply imap_ext. intros i x _. simpl. f_equal. f_equal. lia.
  - pose proof (script_other (at_ d) (storage_key (namespace d) (key d))
      (storage_key (namespace c) (key c)) (window_millis (with_policy d)) db (same_bucket_key _ _ Eb)) as Ho.
    destruct (fixed_window_script _ _ _ db) as [reply db']. cbn [snd] in Ho.
    unfold bucket in *. cbn [List.filter fst]. rewrite Eb.
    apply IH; [congruence | lia | lia | done].
Qed.
End window.

(** ** The store interface *)

(** What the middleware relies on: decisions quote the policy's limit and never
    promise more than it, and the reset time is not in the past. *)
Class StoreLaws {St Err} `{!RateLimitStore St Err} : Prop :=
  check_wf k p now st d st' :
    0 <= limit p -> check k p now st = (Ok d, st') ->
    d_limit d = limit p /\ 0 <= remaining d <= limit p /\ 0 <= reset_after d.

(** The Redis adapter discharges it, whatever the server replies. *)
#[export] Instance redis_store_laws `{RedisApi} ns : @StoreLaws Db RedisError (redis_check ns).
Proof.
  intros k p now db d db' Hl. unfold check, redis_check.
  destruct (fixed_window_script _ _ _ db) as [[[count ttl]|] db1]; [|done]. cbn [fst snd].
  unfold reset_after_ttl. destruct (ttl <? 0) eqn:Et; [done|].
  intros [= <- _]. unfold from_millis.
  destruct (count <=? limit p); unfold decision_allowed, decision_denied, saturating_sub; simpl; lia.
Qed.

(** ** Lemmas: headers *)

(** The whole seconds that cover a duration. *)
Lemma rounded_seconds_ceil d :
  0 <= d <= u64_max * 1000000000 ->
  d <= rounded_seconds d * 1000000000 < d + 1000000000.
Proof.
  intros Hd. unfold rounded_seconds, as_secs, subsec_nanos, saturating_add.
  pose proof (Z.div_mod d 1000000000 ltac:(lia)). pose proof (Z.mod_pos_bound d 1000000000 ltac:(lia)).
  assert (d / 1000000000 <= u64_max) by (apply Z.div_le_upper_bound; lia).
  destruct (d mod 1000000000 =? 0) eqn:E; nia.
Qed.

Section headers.
Context `{HttpLaws}.

Lemma dec_header n : 0 <= n -> exists v, hv_from_str (to_dec n) = Some v /\ hv_as_bytes v = to_dec n.
Proof.
  intros Hn. destruct (hv_from_str_visible (to_dec n)) as [v Hv].
  - apply forallb_Forall. eapply Forall_impl; [by apply to_dec_digits|].
    intros c. unfold is_ascii_digit, visible, in_range. lia.
  - exists v. split; [done | by apply hv_from_str_Some].
Qed.

(** The rate-limit fields of an answer. *)
Definition announces (d : RateLimitDecision) (retry : bool) (before after : Response) : Prop :=
  let text name := hv_as_bytes <$> hm_get_all name (res_headers after) in
  let reset := to_dec (rounded_seconds (reset_after d)) in
  res_status after = res_status before /\ res_body after = res_body before /\
  res_extensions after = res_extensions before /\
  text RATE_LIMIT_LIMIT = [to_dec (d_limit d)] /\
  text RATE_LIMIT_REMAINING = [to_dec (remaining d)] /\
  text RATE_LIMIT_RESET = [reset] /\
  (if retry then text RETRY_AFTER = [reset]
   else hm_get_all RETRY_AFTER (res_headers after) = hm_get_all RETRY_AFTER (res_headers before)) /\
  forall k, k ∉ [RATE_LIMIT_LIMIT; RATE_LIMIT_REMAINING; RATE_LIMIT_RESET; RETRY_AFTER] ->
    hm_get_all k (res_headers after) = hm_get_all k (res_headers before).

Lemma with_rate_limit_headers_total r d retry :
  0 <= d_limit d -> 0 <= remaining d -> 0 <= reset_after d ->
  exists resp, with_rate_limit_headers r d retry = Some resp /\ announces d retry r resp.
Proof.
  intros Hl Hr Ht. unfold with_rate_limit_headers.
  assert (Hs : 0 <= rounded_seconds (reset_after d)).
  { unfold rounded_seconds, saturating_add, as_secs.
    assert (0 <= reset_after d / 1000000000) by (by apply Z.div_pos).
    destruct (_ =? 0); unfold u64_max; lia. }
  destruct (dec_header _ Hl) as (v1 & -> & E1), (dec_header _ Hr) as (v2 & -> & E2),
    (dec_header _ Hs) as (v3 & HV3 & E3). cbn [mbind option_bind]. rewrite HV3. cbn [mbind option_bind].
  destruct retry; (eexists; split; [reflexivity|]); unfold announces; cbn [with_headers res_status
    res_body res_extensions res_headers]; split_and!; try done;
    try (header_lookup; by rewrite ?list_fmap_singleton, ?E1, ?E2, ?E3).
  - intros k Hk. rewrite !hm_get_all_insert_ne by set_solver. done.
  - intros k Hk. rewrite !hm_get_all_insert_ne by set_solver. done.
Qed.
End headers.

(** ** Properties *)

(** C19: the fixed window is exact. From the first check of a bucket that is not live
    until its window has passed, the checks of that bucket are counted without
    loss or leakage, however they interleave with checks of other keys, other
    deployments or other policies on the same server: the first [limit] are
    allowed with [limit - i] remaining, all later ones are denied, and each answer
    reports the time left until the window ends. *)
Theorem fixed_window_exact `{RedisLaws} c cs db :
  let deadline := at_ c + window_millis (with_policy c) in
  live (at_ c) (stored (storage_key (namespace c) (key c)) db) = None ->
  0 < window_millis (with_policy c) -> deadline <= i64_max ->
  1 + Z.of_nat (List.length cs) <= i64_max ->
  Forall (fun d => at_ d <= deadline /\ 0 <= limit (with_policy d) <= u32_max) (c :: cs) ->
  bucket c (run_checks (c :: cs) db) =
    imap (fun i d => (d, expected d (1 + Z.of_nat i) deadline))
      (List.filter (same_bucket c) (c :: cs)).
Proof.
  intros deadline Hl Hw Hd Hn HF. apply Forall_cons in HF as [[_ Hlim] HF].
  cbn [run_checks]. unfold run_check, redis_check.
  destruct (script_fresh (at_ c) _ (window_millis (with_policy c)) db Hl Hd Hw) as (db' & -> & Hs).
  cbn [fst snd]. rewrite decision_expected by lia.
  assert (Eb : same_bucket c c = true).
  { unfold same_bucket. by rewrite !(proj2 (str_eqb_true _ _)). }
  pose proof (run_window c cs db' 1 deadline Hs ltac:(lia) ltac:(lia) HF) as HR.
  unfold bucket in *. cbn [List.filter fst]. rewrite Eb. cbn [imap]. rewrite HR. f_equal.
  - f_equal. f_equal; unfold deadline; lia.
  - apply imap_ext. intros i x _. simpl. f_equal. f_equal. lia.
Qed.

(** The rate-limit layer on every branch, against any store that keeps its
    promises. No key means 400 without touching the store. An allowed request
    gets the service's answer, a denied one 429 without calling the service, both
    with the limit, the remaining requests and the reset time in whole seconds,
    rounded up; a denied one also says when to retry. A failed store means 503 or
    the bare service, as configured. Header construction never fails. *)
Theorem rate_limit_call_contract `{HttpLaws} `{!Serialize ErrorPayload} {St Err}
    `{!RateLimitStore St Err} `{!StoreLaws} l inner request now st :
  0 <= limit (policy l) ->
  let '(out, st') := rate_limit_call l inner request now st in
  match resolver l request with
  | None => out = Some (into_response rate_limit_key_missing) /\ st' = st
  | Some k =>
      let '(r, st1) := check k (policy l) now st in
      st' = st1 /\
      match r with
      | Ok d =>
          let before := if allowed d then inner request else into_response rate_limit_exceeded in
          exists resp, out = Some resp /\ announces d (negb (allowed d)) before resp
      | Err _ =>
          out = Some (match failure_policy l with
                      | FailOpen => inner request
                      | FailClosed => into_response rate_limit_unavailable
                      end)
      end
  end.
Proof.
  intros Hl. unfold rate_limit_call, call_ready. destruct (resolver l request) as [k|]; [|done].
  destruct (check k (policy l) now st) as [[d|e] st1] eqn:EC.
  - destruct (check_wf _ _ _ _ _ _ Hl EC) as (HE & Hr & Ht).
    destruct (allowed d); cbn [negb]; (split; [done|]); cbn zeta;
      (edestruct with_rate_limit_headers_total as (resp & HR & HA); [| | |exists resp; split; [exact HR | exact HA]]);
      lia.
  - by destruct (failure_policy l).
Qed.

(** buckets never collide. Namespaces and keys that differ are stored under
    different Redis keys, whatever separators they contain. *)
Theorem storage_key_injective ns ns' k k' :
  storage_key ns k = storage_key ns' k' -> ns = ns' /\ k = k'.
Proof. apply storage_key_inj. Qed.

(** C31: a window that the server cannot represent disables the bucket for good. When
    the deadline of the first check does not fit a signed 64-bit number of
    milliseconds, although [FixedWindow::new] admits the window, [PEXPIRE] fails
    after [INCR] has taken effect: that check fails, and so does every later one,
    at any time, because the counter is left without expiry. *)
Theorem unrepresentable_window_sticks `{RedisLaws} c cs db win :
  window_new (limit (with_policy c)) win = Ok (with_policy c) ->
  live (at_ c) (stored (storage_key (namespace c) (key c)) db) = None ->
  i64_max < at_ c + window_millis (with_policy c) ->
  1 + Z.of_nat (List.length cs) <= i64_max ->
  Forall (fun r => is_ok r.2 = false) (bucket c (run_checks (c :: cs) db)).
Proof.
  intros _ Hl Hd Hn.
  assert (HG : forall cs db v, stored (storage_key (namespace c) (key c)) db = Some (v, None) ->
            1 <= v -> v + Z.of_nat (List.length cs) <= i64_max ->
            Forall (fun r => is_ok r.2 = false) (bucket c (run_checks cs db))).
  { clear. induction cs as [|d cs IH]; intros db v Hs Hv Hn; [constructor|].
    cbn [run_checks List.length] in *. unfold run_check, redis_check.
    destruct (same_bucket c d) eqn:Eb.
    - assert (HK : storage_key (namespace d) (key d) = storage_key (namespace c) (key c)).
      { unfold same_bucket in Eb. apply andb_true_iff in Eb as [->%str_eqb_true ->%str_eqb_true]. done. }
      rewrite HK.
      destruct (script_stuck (at_ d) _ (window_millis (with_policy d)) db v Hs ltac:(lia)) as (db' & -> & Hs').
      unfold bucket in *. cbn [List.filter fst]. rewrite Eb. constructor; [done|].
      apply (IH db' (v + 1)); [done | lia | lia].
    - pose proof (script_other (at_ d) (storage_key (namespace d) (key d))
        (storage_key (namespace c) (key c)) (window_millis (with_policy d)) db (same_bucket_key _ _ Eb)) as Ho.
      destruct (fixed_window_script _ _ _ db) as [reply db']. cbn [snd] in Ho.
      unfold bucket in *. cbn [List.filter fst]. rewrite Eb. apply (IH db' v); [congruence | lia | lia]. }
  cbn [run_checks]. unfold run_check, redis_check.
  destruct (script_overflow (at_ c) _ (window_millis (with_policy c)) db Hl Hd) as (db' & -> & Hs).
  assert (Eb : same_bucket c c = true).
  { unfold same_bucket. by rewrite !(proj2 (str_eqb_true _ _)). }
  unfold bucket. cbn [List.filter fst]. rewrite Eb. constructor; [done|].
  by apply (HG cs db' 1); [done | lia | lia].
Qed.

(** ** A Redis server *)

Module RedisModel.
Definition db : Type := gmap str Entry.

#[export] Instance redis_api : RedisApi := {
  Db := db;
  redis_incr now k d :=
    match live now (d !! k) with
    | None => (Some 1, <[k := (1, None)]> d)
    | Some (v, e) => if v <? i64_max then (Some (v + 1), <[k := (v + 1, e)]> d) else (None, d)
    end;
  redis_pexpire now k ms d :=
    match live now (d !! k) with
    | None => (Some false, d)
    | Some (v, _) =>
        if i64_max <? now + ms then (None, d)
        else if ms <=? 0 then (Some true, delete k d)
        else (Some true, <[k := (v, Some (now + ms))]> d)
    end;
  redis_pttl now k d :=
    match live now (d !! k) with
    | None => -2
    | Some (_, None) => -1
    | Some (_, Some deadline) => deadline - now
    end
}.

Lemma live_stored now e x : live now e = Some x -> e = Some x.
Proof. unfold live. destruct e as [[v [d|]]|]; [destruct (now <=? d)|..]; congruence. Qed.

#[export] Instance redis_laws : RedisLaws.
Proof.
  refine {| stored k d := (d : db) !! k |}; simpl.
  - intros now k d. destruct (live now (d !! k)) as [[v e]|]; [|done]. by destruct (v <? i64_max).
  - intros now k d. destruct (live now (d !! k)) as [[v e]|] eqn:E; simpl; [|apply lookup_insert_eq].
    destruct (v <? i64_max); simpl; [apply lookup_insert_eq | by apply live_stored in E].
  - intros now k k' d Hk. destruct (live now (d !! k)) as [[v e]|]; simpl; [|by apply lookup_insert_ne].
    destruct (v <? i64_max); simpl; [by apply lookup_insert_ne | done].
  - intros now k ms d v e -> Hm Hd. rewrite (proj2 (Z.ltb_ge _ _) Hd), (proj2 (Z.leb_gt _ _) Hm). simpl.
    split; [done | apply lookup_insert_eq].
  - intros now k ms d v e HE Hd. rewrite HE, (proj2 (Z.ltb_lt _ _) Hd). simpl. split; [done | by apply live_stored in HE].
  - intros now k k' ms d Hk. destruct (live now (d !! k)) as [[v e]|]; simpl; [|done].
    destruct (_ <? _); [done|]. destruct (ms <=? 0); simpl; [by apply lookup_delete_ne | by apply lookup_insert_ne].
  - done.
Defined.
End RedisModel.

(** ** Examples *)

Module RateLimitExamples.
Import HttpModel RedisModel.

Definition empty_db : @Db redis_api := (∅ : gmap str Entry).
Definition twice : FixedWindow := {| limit := 2; window := from_millis 1000; window_millis := 1000 |}.
Definition from (k : str) (t : Z) : Check :=
  {| at_ := t; namespace := ##"app"; key := k; with_policy := twice |}.
Definition trace : list Check := [from ##"b" 3; from ##"a" 5; from ##"a" 700].

Lemma fixed_window_exact_witness :
  allowed <$> omap (fun r => match r.2 with Ok d => Some d | Err _ => None end)
    (bucket (from ##"a" 0) (run_checks (from ##"a" 0 :: trace) empty_db)) = [true; true; false].
Proof.
  rewrite (fixed_window_exact (from ##"a" 0) trace empty_db);
    [vm_compute; reflexivity | reflexivity | simpl; lia | vm_compute; congruence
    | vm_compute; congruence |].
  repeat constructor; vm_compute; congruence.
Defined.

Definition limited : RateLimitLayer :=
  {| policy := twice; resolver := fun _ => Some ##"a"; failure_policy := FailClosed |}.
Definition hello (_ : Request) : Response := response 200 (full_body ##"hi").

Lemma rate_limit_call_contract_witness :
  let out := rate_limit_call (RateLimitStore0 := redis_check ##"app") limited hello
               (request ##"GET" ##"/") 0 empty_db in
  exists resp, out.1 = Some resp /\ res_status resp = 200.
Proof.
  pose proof (rate_limit_call_contract (RateLimitStore0 := redis_check ##"app")
    limited hello (request ##"GET" ##"/") 0 empty_db ltac:(simpl; lia)) as HC.
  cbn zeta. destruct (rate_limit_call _ _ _ _ _) as [out st]. cbn [resolver limited] in HC.
  destruct (check _ _ _ _) as [r st1] eqn:EC. destruct HC as [_ HC].
  assert (HA : exists d, r = Ok d /\ allowed d = true).
  { apply (f_equal fst) in EC. cbn [fst] in EC. rewrite <- EC. eexists.
    split; vm_compute; reflexivity. }
  destruct HA as (d & -> & Ha). cbn zeta in HC. rewrite Ha in HC. destruct HC as (resp & -> & HS & _).
  exists resp. split; [reflexivity|]. rewrite HS. reflexivity.
Defined.

Lemma storage_key_injective_witness :
  storage_key ##"rate" ##"tenant:client" <> storage_key ##"rate:tenant" ##"client".
Proof. intros HE. apply storage_key_injective in HE as [HE _]. discriminate HE. Defined.

Definition forever : FixedWindow :=
  {| limit := 2; window := from_millis i64_max; window_millis := i64_max |}.
Definition stuck (t : Z) : Check :=
  {| at_ := t; namespace := ##"app"; key := ##"a"; with_policy := forever |}.

Lemma unrepresentable_window_sticks_witness :
  Forall (fun r => is_ok r.2 = false)
    (bucket (stuck 1) (run_checks [stuck 1; stuck 2; stuck 100000] empty_db)).
Proof.
  apply (unrepresentable_window_sticks (stuck 1) [stuck 2; stuck 100000] empty_db
    (from_millis i64_max)); [vm_compute; reflexivity | reflexivity | vm_compute; reflexivity
    | vm_compute; congruence].
Defined.
End RateLimitExamples.
