(* ===== verification/Json.v ===== *)
(** Bounded JSON output: [crates/rustee-json/src/lib.rs].

    [serde_json::to_writer] hands its output to the writer in pieces; which
    pieces it writes for a value, and whether it fails after them, is the class
    [JsonWriter]. *)

From Stdlib Require Import ZArith Lia Bool Ascii.
From S2P Require Import Prelude Strings.

(** The pieces written for a value, and whether serialization then fails. *)
Class JsonWriter (T : Type) : Type := {
  json_writes : T -> list bytes;
  json_fails : T -> bool
}.

Inductive BoundedJsonError : Type := TooLarge | SerializeError.

Record BoundedJsonBuffer : Type := { buffered : bytes; max_bytes : nat; exceeded : bool }.

Definition buffer_new (max : nat) : BoundedJsonBuffer :=
  {| buffered := []; max_bytes := max; exceeded := false |}.

(** [Write for BoundedJsonBuffer]; [false] is the write error. *)
Definition buffer_write (b : BoundedJsonBuffer) (data : bytes) : bool * BoundedJsonBuffer :=
  if (max_bytes b - List.length (buffered b) <? List.length data)%nat
  then (false, {| buffered := buffered b; max_bytes := max_bytes b; exceeded := true |})
  else (true, {| buffered := buffered b ++ data; max_bytes := max_bytes b; exceeded := exceeded b |}).

(** [write_all] for each piece; an empty piece is not written. *)
Fixpoint write_pieces (b : BoundedJsonBuffer) (pieces : list bytes) : bool * BoundedJsonBuffer :=
  match pieces with
  | [] => (true, b)
  | [] :: rest => write_pieces b rest
  | data :: rest =>
      match buffer_write b data with
      | (true, b) => write_pieces b rest
      | (false, b) => (false, b)
      end
  end.

Definition to_writer {T} `{!JsonWriter T} (b : BoundedJsonBuffer) (value : T) :
    bool * BoundedJsonBuffer :=
  match write_pieces b (json_writes value) with
  | (true, b) => (negb (json_fails value), b)
  | (false, b) => (false, b)
  end.

Definition to_vec_bounded {T} `{!JsonWriter T} (value : T) (max : nat) :
    result bytes BoundedJsonError :=
  match to_writer (buffer_new max) value with
  | (true, b) => Ok (buffered b)
  | (false, b) => if exceeded b then Err TooLarge else Err SerializeError
  end.

(** ** Lemmas *)

Lemma write_pieces_spec b pieces :
  (List.length (buffered b) <= max_bytes b)%nat -> exceeded b = false ->
  let '(ok, b') := write_pieces b pieces in
  (List.length (buffered b') <= max_bytes b)%nat /\ max_bytes b' = max_bytes b /\
  if (List.length (buffered b) + List.length (concat pieces) <=? max_bytes b)%nat
  then ok = true /\ buffered b' = buffered b ++ concat pieces /\ exceeded b' = false
  else ok = false /\ exceeded b' = true.
Proof.
  revert b. induction pieces as [|data pieces IH]; intros b Hb He; cbn [write_pieces concat].
  - rewrite Nat.add_0_r, app_nil_r, (proj2 (Nat.leb_le _ _)) by lia. done.
  - destruct data as [|c data]; [by apply IH|].
    unfold buffer_write. rewrite length_app.
    destruct (max_bytes b - List.length (buffered b) <? List.length (c :: data))%nat eqn:E.
    + apply Nat.ltb_lt in E. rewrite (proj2 (Nat.leb_gt _ _)) by lia. done.
    + apply Nat.ltb_ge in E.
      specialize (IH {| buffered := buffered b ++ c :: data; max_bytes := max_bytes b;
                        exceeded := exceeded b |}). cbn [buffered max_bytes exceeded] in IH.
      rewrite length_app in IH. specialize (IH ltac:(lia) He).
      destruct (write_pieces _ pieces) as [ok b']. rewrite <- app_assoc, Nat.add_assoc in *.
      exact IH.
Qed.

Lemma to_vec_bounded_facts {T} `{!JsonWriter T} (value : T) max :
  let output := concat (json_writes value) in
  to_vec_bounded value max =
    (if (List.length output <=? max)%nat
     then if json_fails value then Err SerializeError else Ok output
     else Err TooLarge) /\
  (List.length (buffered (to_writer (buffer_new max) value).2) <= max)%nat.
Proof.
  cbn zeta. unfold to_vec_bounded, to_writer.
  pose proof (write_pieces_spec (buffer_new max) (json_writes value) ltac:(simpl; lia) eq_refl) as HW.
  destruct (write_pieces _ _) as [ok b]. cbn [buffered max_bytes buffer_new List.length app] in HW.
  destruct HW as (Hb & _ & HW). rewrite Nat.add_0_l in HW.
  destruct (_ <=? max)%nat.
  - destruct HW as (-> & HB & He). destruct (json_fails value); cbn [negb snd]; rewrite ?He, ?HB; (split; [done|]);
      by rewrite HB in Hb.
  - destruct HW as (-> & He). cbn [snd]. by rewrite He.
Qed.

(** ** Properties *)

(** Bounded encoding is encoding with a limit. The result is the complete output
    when it has at most [max] bytes, the serializer's error if it fails within the
    limit, and [TooLarge] exactly when the output would pass the limit; the buffer
    never holds more than [max] bytes on the way. *)
Theorem to_vec_bounded_spec {T} `{!JsonWriter T} (value : T) max :
  let output := concat (json_writes value) in
  to_vec_bounded value max =
    (if (List.length output <=? max)%nat
     then if json_fails value then Err SerializeError else Ok output
     else Err TooLarge) /\
  (List.length (buffered (to_writer (buffer_new max) value).2) <= max)%nat.
Proof. apply to_vec_bounded_facts. Qed.

(** ** A codec for examples: a value as one binary number *)

Module BitCodec.
Fixpoint bits (p : positive) : bytes :=
  match p with
  | xH => []
  | xO p' => "0"%char :: bits p'
  | xI p' => "1"%char :: bits p'
  end.
Fixpoint of_bits (s : bytes) : positive :=
  match s with
  | [] => xH
  | c :: s' => if char_eqb c "0" then xO (of_bits s') else xI (of_bits s')
  end.
Lemma of_bits_bits p : of_bits (bits p) = p.
Proof. by induction p as [p IH|p IH|]; simpl; rewrite ?IH. Qed.
End BitCodec.
