(* ===== verification/RedisCache.v ===== *)
(** JSON values in Redis: [crates/rustee-redis], [cache.rs] with [cache/read.rs],
    [cache/write.rs] and [cache/bounded.rs], [config.rs] and [readiness.rs].

    The string commands of the server are the interface [RedisStrings]; [RedisStringLaws]
    states their documentation on the values that are live at a time of the server's clock
    (milliseconds). The two Lua scripts are written out over the commands they call. What
    happens to a request on its way is a [Delivery]. *)

From Stdlib Require Import ZArith Lia Bool Ascii.
From stdpp Require Import gmap.
From S2P Require Import Prelude Strings Json.

Local Open Scope Z_scope.

(** ** The server *)

Class RedisStrings : Type := {
  KvServer : Type;
  kv_set_ex : Z -> str -> bytes -> Z -> KvServer -> KvServer;
  (** [SET key value NX EX ttl]; [false] is the nil reply. *)
  kv_set_nx_ex : Z -> str -> bytes -> Z -> KvServer -> bool * KvServer;
  kv_get : Z -> str -> KvServer -> option bytes;
  kv_strlen : Z -> str -> KvServer -> Z;
  kv_exists : Z -> str -> KvServer -> Z;
  kv_del : Z -> str -> KvServer -> KvServer;
  kv_getdel : Z -> str -> KvServer -> option bytes * KvServer
}.

Class RedisStringLaws `{RedisStrings} : Prop := {
  (** A value is live until its deadline, or until it is deleted. *)
  get_expires now now' k s v : now <= now' -> kv_get now' k s = Some v -> kv_get now k s = Some v;
  set_ex_get now k v ttl s now' k' :
    now <= now' ->
    kv_get now' k' (kv_set_ex now k v ttl s) =
      if decide (k' = k) then (if now' <? now + ttl * 1000 then Some v else None) else kv_get now' k' s;
  set_nx_reply now k v ttl s : fst (kv_set_nx_ex now k v ttl s) = negb (is_some (kv_get now k s));
  set_nx_get now k v ttl s now' k' :
    now <= now' ->
    kv_get now' k' (snd (kv_set_nx_ex now k v ttl s)) =
      if decide (k' = k /\ kv_get now k s = None)
      then (if now' <? now + ttl * 1000 then Some v else None)
      else kv_get now' k' s;
  strlen_get now k s : kv_strlen now k s = Z.of_nat (List.length (default [] (kv_get now k s)));
  exists_get now k s : kv_exists now k s = if is_some (kv_get now k s) then 1 else 0;
  del_get now k s now' k' :
    now <= now' -> kv_get now' k' (kv_del now k s) = if decide (k' = k) then None else kv_get now' k' s;
  getdel_reply now k s : fst (kv_getdel now k s) = kv_get now k s;
  getdel_get now k s now' k' :
    now <= now' -> kv_get now' k' (snd (kv_getdel now k s)) = if decide (k' = k) then None else kv_get now' k' s
}.

(** A request is executed and answered, is executed and its answer lost, or never arrives. *)
Inductive Delivery : Type := Answered | AnswerLost | NotSent.

(** ** Cache helpers *)

Definition MAX_REDIS_TTL_SECONDS : Z := 9000000000000000.

Inductive CacheError : Type :=
| CacheZeroTtl
| CacheTtlOutOfRange
| CacheEntryExists
| CacheRedis
| CacheJson
| CacheValueTooLarge
| CacheUnexpectedResponse.

Definition validate_ttl_seconds (ttl_seconds : Z) : result unit CacheError :=
  if ttl_seconds =? 0 then Err CacheZeroTtl
  else if MAX_REDIS_TTL_SECONDS <? ttl_seconds then Err CacheTtlOutOfRange
  else Ok tt.

Definition encode_json_bounded {T} `{!JsonWriter T} (value : T) (max_bytes : nat) : result bytes CacheError :=
  match to_vec_bounded value max_bytes with
  | Ok encoded => Ok encoded
  | Err TooLarge => Err CacheValueTooLarge
  | Err SerializeError => Err CacheJson
  end.

(** [serde_json::to_string]. *)
Definition encode_json {T} `{!JsonWriter T} (value : T) : result bytes CacheError :=
  if json_fails value then Err CacheJson else Ok (concat (json_writes value)).

Section helpers.
Context `{RedisStrings}.

(** A command on its way: [d] is what happens to it, [now] the server's clock. *)
Definition request {A} (d : Delivery) (command : KvServer -> A * KvServer) (s : KvServer) :
    result A CacheError * KvServer :=
  match d with
  | Answered => let '(a, s) := command s in (Ok a, s)
  | AnswerLost => (Err CacheRedis, snd (command s))
  | NotSent => (Err CacheRedis, s)
  end.

(** *** Writes: [cache/write.rs] *)

Definition store_ex (key : str) (encoded : result bytes CacheError) (ttl_seconds : Z) (d : Delivery) (now : Z)
    (s : KvServer) : result unit CacheError * KvServer :=
  match validate_ttl_seconds ttl_seconds, encoded with
  | Err e, _ => (Err e, s)
  | Ok _, Err e => (Err e, s)
  | Ok _, Ok encoded => request d (fun s => (tt, kv_set_ex now key encoded ttl_seconds s)) s
  end.

Definition store_nx (key : str) (encoded : result bytes CacheError) (ttl_seconds : Z) (d : Delivery) (now : Z)
    (s : KvServer) : result unit CacheError * KvServer :=
  match validate_ttl_seconds ttl_seconds, encoded with
  | Err e, _ => (Err e, s)
  | Ok _, Err e => (Err e, s)
  | Ok _, Ok encoded =>
      let '(r, s) := request d (kv_set_nx_ex now key encoded ttl_seconds) s in
      (let? created := r in if created then Ok tt else Err CacheEntryExists, s)
  end.

Definition set_json {T} `{!JsonWriter T} (key : str) (value : T) (ttl_seconds : Z) :=
  store_ex key (encode_json value) ttl_seconds.
Definition set_json_if_absent {T} `{!JsonWriter T} (key : str) (value : T) (ttl_seconds : Z) :=
  store_nx key (encode_json value) ttl_seconds.
Definition set_json_bounded_if_absent {T} `{!JsonWriter T} (key : str) (value : T) (ttl_seconds : Z) (max_bytes : nat) :=
  store_nx key (encode_json_bounded value max_bytes) ttl_seconds.
Definition set_json_bounded {T} `{!JsonWriter T} (key : str) (value : T) (ttl_seconds : Z) (max_bytes : nat) :=
  store_ex key (encode_json_bounded value max_bytes) ttl_seconds.

(** *** Reads: [cache/read.rs]. [from_slice] is the decoder of the value's type; a reply that is
    not UTF-8 does not convert to a [String]. *)

Definition decode_text {T} (from_slice : bytes -> option T) (value : option bytes) : result (option T) CacheError :=
  match value with
  | None => Ok None
  | Some v => if negb (valid_utf8 v) then Err CacheRedis else transpose (Some (ok_or (from_slice v) CacheJson))
  end.

Definition get_json {T} (from_slice : bytes -> option T) (key : str) (d : Delivery) (now : Z) (s : KvServer) :
    result (option T) CacheError * KvServer :=
  let '(r, s) := request d (fun s => (kv_get now key s, s)) s in
  (let? value := r in decode_text from_slice value, s).

Definition take_json {T} (from_slice : bytes -> option T) (key : str) (d : Delivery) (now : Z) (s : KvServer) :
    result (option T) CacheError * KvServer :=
  let '(r, s) := request d (kv_getdel now key) s in
  (let? value := r in decode_text from_slice value, s).

Definition cache_delete (key : str) (d : Delivery) (now : Z) (s : KvServer) : result unit CacheError * KvServer :=
  request d (fun s => (tt, kv_del now key s)) s.

(** *** Bounded reads: [cache/bounded.rs] *)

(** The two scripts: a status and a value. *)
Definition BOUNDED_TAKE_SCRIPT (now : Z) (key : str) (limit : Z) (s : KvServer) : (Z * bytes) * KvServer :=
  let length := kv_strlen now key s in
  if (length =? 0) && (kv_exists now key s =? 0) then ((0, []), s)
  else if limit <? length then ((2, []), s)
  else
    let value := default [] (kv_get now key s) in
    ((1, value), kv_del now key s).

Definition BOUNDED_READ_SCRIPT (now : Z) (key : str) (limit : Z) (s : KvServer) : (Z * bytes) * KvServer :=
  let length := kv_strlen now key s in
  if (length =? 0) && (kv_exists now key s =? 0) then ((0, []), s)
  else if limit <? length then ((2, []), s)
  else ((1, default [] (kv_get now key s)), s).

Definition decode_json_bounded {T} (from_slice : bytes -> option T) (value : option bytes) (max_bytes : nat) :
    result (option T) CacheError :=
  transpose (option_map (fun v =>
    if (max_bytes <? List.length v)%nat then Err CacheValueTooLarge else ok_or (from_slice v) CacheJson) value).

Definition decode_bounded_response {T} (from_slice : bytes -> option T) (status : Z) (value : bytes) (max_bytes : nat) :
    result (option T) CacheError :=
  if status =? 0 then Ok None
  else if status =? 1 then decode_json_bounded from_slice (Some value) max_bytes
  else if status =? 2 then Err CacheValueTooLarge
  else Err CacheUnexpectedResponse.

Definition run_bounded {T} (script : Z -> str -> Z -> KvServer -> (Z * bytes) * KvServer)
    (from_slice : bytes -> option T) (key : str) (max_bytes : nat) (d : Delivery) (now : Z) (s : KvServer) :
    result (option T) CacheError * KvServer :=
  if i64_max <? Z.of_nat max_bytes then (Err CacheValueTooLarge, s)
  else
    let '(r, s) := request d (script now key (Z.of_nat max_bytes)) s in
    (let? reply := r in decode_bounded_response from_slice (fst reply) (snd reply) max_bytes, s).

Definition get_json_bounded {T} (from_slice : bytes -> option T) :=
  run_bounded BOUNDED_READ_SCRIPT from_slice.
Definition take_json_bounded {T} (from_slice : bytes -> option T) :=
  run_bounded BOUNDED_TAKE_SCRIPT from_slice.
End helpers.

(** ** Connections: [config.rs] and [readiness.rs] *)

Definition DEFAULT_CONNECT_TIMEOUT : Duration := from_secs 5.
Record RedisConfig : Type := { redis_url : str; connect_timeout : Duration }.
Inductive RedisConfigError : Type := ZeroConnectTimeout.
Inductive RedisConnectError : Type := ConnectionFailed.

Definition redis_config_new (url : str) : RedisConfig :=
  {| redis_url := url; connect_timeout := DEFAULT_CONNECT_TIMEOUT |}.
Definition with_connect_timeout (timeout : Duration) (c : RedisConfig) : result RedisConfig RedisConfigError :=
  if timeout =? 0 then Err ZeroConnectTimeout else Ok {| redis_url := redis_url c; connect_timeout := timeout |}.

(** [open] is [Client::open]; [connection] is the answer of the server, [None] when the
    deadline passes first. *)
Definition redis_client {C} (open : str -> option C) (c : RedisConfig) : result C RedisConnectError :=
  ok_or (open (redis_url c)) ConnectionFailed.
Definition connect {C M} (open : str -> option C) (connection : C -> option (option M)) (c : RedisConfig) :
    result M RedisConnectError :=
  let? client := redis_client open c in
  let? answered := ok_or (connection client) ConnectionFailed in
  ok_or answered ConnectionFailed.

Inductive RedisReadinessError : Type := ReadyZeroTimeout | ReadyTimeout (timeout : Duration) | ReadyRedis.
Definition validate_readiness_timeout (timeout : Duration) : result unit RedisReadinessError :=
  if timeout =? 0 then Err ReadyZeroTimeout else Ok tt.
(** [ping] is the answer to [PING], [None] when the deadline passes first. *)
Definition readiness (timeout : Duration) (ping : option bool) : result unit RedisReadinessError :=
  let? _ := validate_readiness_timeout timeout in
  let? answered := ok_or ping (ReadyTimeout timeout) in
  if answered then Ok tt else Err ReadyRedis.

(** ** Lemmas *)

Section laws.
Context `{RedisStringLaws}.

(** What a create-only write leaves: the values that were there, and the new one if the key
    was free. *)
Lemma store_nx_get key encoded ttl d now s r s' now' k v :
  store_nx key encoded ttl d now s = (r, s') -> now <= now' -> kv_get now' k s' = Some v ->
  kv_get now' k s = Some v \/ (k = key /\ encoded = Ok v /\ kv_get now key s = None).
Proof.
  unfold store_nx. destruct (validate_ttl_seconds ttl); [|intros [= <- <-]; by left].
  destruct encoded as [b|]; [|intros [= <- <-]; by left]. intros HE Hn.
  assert (HS : s' = s \/ s' = snd (kv_set_nx_ex now key b ttl s)).
  { revert HE. unfold request. destruct d; [destruct (kv_set_nx_ex now key b ttl s)|..]; intros [= _ <-]; auto. }
  destruct HS as [->| ->]; [by left|]. rewrite set_nx_get by done.
  destruct (decide _) as [[-> HN]|_]; [|by left]. destruct (_ <? _); [|done]. intros [= <-]. by right.
Qed.

Lemma store_nx_created key encoded ttl d now s s' :
  store_nx key encoded ttl d now s = (Ok tt, s') ->
  exists b, encoded = Ok b /\ kv_get now key s = None /\ s' = snd (kv_set_nx_ex now key b ttl s).
Proof.
  unfold store_nx. destruct (validate_ttl_seconds ttl); [|done]. destruct encoded as [b|]; [|done].
  unfold request. destruct d; [|done..]. pose proof (set_nx_reply now key b ttl s) as HR.
  destruct (kv_set_nx_ex now key b ttl s) as [c s1] eqn:HK. cbn in *. destruct c; [|done]. intros [= <-].
  exists b. rewrite HK. split_and!; [done | by destruct (kv_get now key s) | done].
Qed.

Lemma bounded_take_script now key limit s :
  BOUNDED_TAKE_SCRIPT now key limit s =
  match kv_get now key s with
  | None => ((0, []), s)
  | Some v => if limit <? Z.of_nat (List.length v) then ((2, []), s) else ((1, v), kv_del now key s)
  end.
Proof.
  unfold BOUNDED_TAKE_SCRIPT. rewrite strlen_get, exists_get. destruct (kv_get now key s) as [v|]; cbn; [|done].
  by rewrite andb_false_r.
Qed.

Lemma bounded_read_script now key limit s :
  BOUNDED_READ_SCRIPT now key limit s =
  (match kv_get now key s with
   | None => (0, [])
   | Some v => if limit <? Z.of_nat (List.length v) then (2, []) else (1, v)
   end, s).
Proof.
  unfold BOUNDED_READ_SCRIPT. rewrite strlen_get, exists_get. destruct (kv_get now key s) as [v|]; cbn; [|done].
  rewrite andb_false_r. by destruct (_ <? _).
Qed.

(** Reading changes nothing, and an answered read returns what is there. *)
Lemma get_json_bounded_server {T} (from_slice : bytes -> option T) key max d now s :
  snd (get_json_bounded from_slice key max d now s) = s.
Proof.
  unfold get_json_bounded, run_bounded. destruct (_ <? _); [done|]. unfold request.
  rewrite bounded_read_script. by destruct d.
Qed.
Lemma get_json_bounded_answered {T} (from_slice : bytes -> option T) key max now s :
  Z.of_nat max <= i64_max ->
  fst (get_json_bounded from_slice key max Answered now s) =
  match kv_get now key s with
  | None => Ok None
  | Some v =>
      if (max <? List.length v)%nat then Err CacheValueTooLarge
      else match from_slice v with Some x => Ok (Some x) | None => Err CacheJson end
  end.
Proof.
  intros HM. unfold get_json_bounded, run_bounded. rewrite (proj2 (Z.ltb_ge _ _)) by done.
  unfold request. rewrite bounded_read_script. destruct (kv_get now key s) as [v|]; [|done].
  destruct (Z.ltb_spec (Z.of_nat max) (Z.of_nat (List.length v))) as [HL|HL].
  { by rewrite (proj2 (Nat.ltb_lt _ _)) by lia. }
  rewrite (proj2 (Nat.ltb_ge _ _)) by lia. cbn [fst snd].
  change (decode_bounded_response from_slice 1 v max) with (decode_json_bounded from_slice (Some v) max).
  unfold decode_json_bounded. cbn [option_map transpose]. rewrite (proj2 (Nat.ltb_ge _ _)) by lia.
  by destruct (from_slice v).
Qed.

(** Taking a value: what was returned was live and is gone; every other value stays. *)
Lemma take_json_bounded_get {T} (from_slice : bytes -> option T) key max d now s r s' now' k :
  take_json_bounded from_slice key max d now s = (r, s') -> now <= now' ->
  (k <> key -> kv_get now' k s' = kv_get now' k s) /\
  (kv_get now' key s' = kv_get now' key s \/ kv_get now' key s' = None) /\
  match r with
  | Ok (Some x) => kv_get now' key s' = None /\ exists v, kv_get now key s = Some v /\ from_slice v = Some x /\ (List.length v <= max)%nat
  | Ok None => kv_get now key s = None
  | Err _ => True
  end.
Proof.
  unfold take_json_bounded, run_bounded. destruct (_ <? _); [intros [= <- <-] ?; auto|].
  unfold request. intros HE Hn. destruct d.
  - rewrite bounded_take_script in HE. destruct (kv_get now key s) as [v|] eqn:HV; [|injection HE as <- <-; cbn; auto].
    destruct (Z.of_nat max <? Z.of_nat (List.length v)) eqn:HL; injection HE as <- <-; [cbn; auto|].
    rewrite !(del_get now key s) by done. rewrite (decide_True (P:=key = key)) by done.
    split; [intros Hk; by rewrite decide_False|]. split; [by right|].
    apply Z.ltb_ge in HL. cbn [fst snd]. change (decode_bounded_response from_slice 1 v max) with (decode_json_bounded from_slice (Some v) max).
    unfold decode_json_bounded. cbn [option_map transpose]. rewrite (proj2 (Nat.ltb_ge _ _)) by lia.
    destruct (from_slice v) as [x|] eqn:HX; cbn; [|done].
    split; [done|]. exists v. split_and!; [done..|lia].
  - injection HE as <- <-. rewrite bounded_take_script. destruct (kv_get now key s) as [v|]; [|auto].
    destruct (_ <? _); [auto|]. cbn [snd]. rewrite !(del_get now key s) by done.
    rewrite (decide_True (P:=key = key)) by done. split_and!; [intros Hk; by rewrite decide_False | by right | done].
  - injection HE as <- <-. auto.
Qed.

(** A value that was created is taken exactly once: the first take before its deadline
    returns it, the second finds nothing. *)
Lemma created_then_taken {T} (from_slice : bytes -> option T) key encoded ttl max d now s s1 now1 x v :
  store_nx key encoded ttl d now s = (Ok tt, s1) -> encoded = Ok v -> from_slice v = Some x ->
  (List.length v <= max)%nat -> Z.of_nat max <= i64_max -> now <= now1 < now + ttl * 1000 ->
  exists s2, take_json_bounded from_slice key max Answered now1 s1 = (Ok (Some x), s2) /\
    forall d2 now2, now1 <= now2 -> d2 = Answered -> (take_json_bounded from_slice key max d2 now2 s2).1 = Ok None.
Proof.
  intros (b & HE & HN & ->)%store_nx_created -> HX HL HM Hnow. injection HE as <-.
  assert (HG : kv_get now1 key (snd (kv_set_nx_ex now key v ttl s)) = Some v).
  { rewrite set_nx_get by lia. rewrite decide_True by done. by rewrite (proj2 (Z.ltb_lt _ _)) by lia. }
  unfold take_json_bounded, run_bounded. rewrite (proj2 (Z.ltb_ge _ _)) by done. cbn [request].
  rewrite bounded_take_script, HG, (proj2 (Z.ltb_ge _ _)) by lia.
  eexists. split.
  { cbn [fst snd]. change (decode_bounded_response from_slice 1 v max) with (decode_json_bounded from_slice (Some v) max).
    unfold decode_json_bounded. cbn [option_map transpose]. rewrite (proj2 (Nat.ltb_ge _ _)) by lia. by rewrite HX. }
  intros d2 now2 H2 ->. cbn [request]. rewrite bounded_take_script, del_get by done. by rewrite decide_True.
Qed.
End laws.

(** ** A model of the server *)

Module RedisModel.
Notation server := (gmap str (bytes * Z)).
Definition get (now : Z) (k : str) (s : server) : option bytes :=
  match s !! k with Some (v, deadline) => if now <? deadline then Some v else None | None => None end.

#[export] Instance strings : RedisStrings := {|
  KvServer := server;
  kv_set_ex now k v ttl s := <[k := (v, now + ttl * 1000)]> s;
  kv_set_nx_ex now k v ttl s := if is_some (get now k s) then (false, s) else (true, <[k := (v, now + ttl * 1000)]> s);
  kv_get := get;
  kv_strlen now k s := Z.of_nat (List.length (default [] (get now k s)));
  kv_exists now k s := if is_some (get now k s) then 1 else 0;
  kv_del now k s := delete k s;
  kv_getdel now k s := (get now k s, delete k s)
|}.

Lemma get_insert now k v dl s k' :
  get now k' (<[k := (v, dl)]> s) = if decide (k' = k) then (if now <? dl then Some v else None) else get now k' s.
Proof.
  unfold get. destruct (decide (k' = k)) as [->|Hk]; [by rewrite lookup_insert_eq | by rewrite lookup_insert_ne].
Qed.
Lemma get_delete now k s k' : get now k' (delete k s) = if decide (k' = k) then None else get now k' s.
Proof.
  unfold get. destruct (decide (k' = k)) as [->|Hk]; [by rewrite lookup_delete_eq | by rewrite lookup_delete_ne].
Qed.

#[export] Instance laws : RedisStringLaws.
Proof.
  split; cbn.
  - intros now now' k s v Hn. unfold get. destruct (s !! k) as [[w dl]|]; [|done].
    destruct (now' <? dl) eqn:E; [|done]. apply Z.ltb_lt in E. by rewrite (proj2 (Z.ltb_lt _ _)) by lia.
  - intros. by rewrite get_insert.
  - intros now k v ttl s. by destruct (get now k s).
  - intros now k v ttl s now' k' Hn. destruct (get now k s) as [w|] eqn:HG; cbn [is_some fst snd].
    + by rewrite decide_False by naive_solver.
    + rewrite get_insert. destruct (decide (k' = k)) as [->|Hk]; [by rewrite decide_True | by rewrite decide_False by naive_solver].
  - done.
  - done.
  - intros. by rewrite get_delete.
  - done.
  - intros. by rewrite get_delete.
Qed.
End RedisModel.
