(* ===== verification/JobEnvelope.v ===== *)
(** Durable job envelopes: [crates/rustee-jobs/src/envelope.rs], its submodules
    [codec.rs], [compatibility.rs] and [trace.rs], and the provider message of
    [publisher.rs].

    The serde-derived decoders of the envelope records are parameters of the
    section; [SerdeLaws] states what the derives document. *)

From Stdlib Require Import ZArith Lia Bool Ascii.
From stdpp Require countable.
From S2P Require Import Prelude Strings Json.

Local Open Scope Z_scope.

Definition MAX_JOB_ENVELOPE_BYTES : nat := 1024 * 1024.
Definition MAX_JOB_NAME_BYTES : nat := 255.
Definition MAX_JOB_IDEMPOTENCY_KEY_BYTES : nat := 255.
Definition MAX_TRACEPARENT_LEN : nat := 512.
Definition MAX_TRACESTATE_LEN : nat := 512.

(** A UUID, as its 128-bit number. *)
Definition JobId : Type := Z.

(** The [Job] trait: the stable name and the payload version of a type. *)
Class Job (J : Type) : Type := { NAME : str; VERSION : Z }.

Inductive EnvelopeError : Type :=
| Serialize
| Deserialize
| TooLarge
| InvalidJobName
| UnexpectedJobName (expected actual : str)
| UnsupportedVersion (expected actual : Z)
| InvalidAttempt
| AttemptOverflow
| BlankIdempotencyKey
| IdempotencyKeyTooLarge
| InvalidTraceContext.

(** ** Trace contexts *)

Record JobTraceContext : Type := { traceparent : str; tracestate : option str }.

Definition trace_validate (t : JobTraceContext) : result unit EnvelopeError :=
  if is_blank (traceparent t)
     || negb (forallb is_ascii (traceparent t))
     || (MAX_TRACEPARENT_LEN <? List.length (traceparent t))%nat
     || match tracestate t with
        | None => false
        | Some v =>
            is_blank v || negb (forallb is_ascii v) || (MAX_TRACESTATE_LEN <? List.length v)%nat
        end
  then Err InvalidTraceContext
  else Ok tt.

Definition trace_new (parent : str) (state : option str) : result JobTraceContext EnvelopeError :=
  let context := {| traceparent := parent; tracestate := state |} in
  let? _ := trace_validate context in
  Ok context.

(** [SerializedJobTraceContext] has the same fields. *)
Definition trace_from_serialized (t : JobTraceContext) : result JobTraceContext EnvelopeError :=
  trace_new (traceparent t) (tracestate t).

(** ** Names and metadata *)

Definition is_valid_job_name (name : str) : bool :=
  nonempty name
  && (List.length name <=? MAX_JOB_NAME_BYTES)%nat
  && negb (contains_char (byte_of 0) name)
  && negb (existsb is_whitespace (chars name)).

Definition validate_optional_bounded_identifier (value : option str)
    (blank_error too_large_error : EnvelopeError) : result unit EnvelopeError :=
  match value with
  | None => Ok tt
  | Some v =>
      if is_blank v then Err blank_error
      else if (MAX_JOB_IDEMPOTENCY_KEY_BYTES <? List.length v)%nat then Err too_large_error
      else Ok tt
  end.

Definition validate_metadata (J : Type) `{!Job J} (name : str) (idempotency_key : option str)
    (attempt : Z) (trace_context : option JobTraceContext) : result unit EnvelopeError :=
  if negb (is_valid_job_name (NAME (J:=J))) || negb (is_valid_job_name name) then Err InvalidJobName
  else if negb (str_eqb name (NAME (J:=J))) then Err (UnexpectedJobName (NAME (J:=J)) name)
  else if attempt =? 0 then Err InvalidAttempt
  else
    let? _ := validate_optional_bounded_identifier idempotency_key BlankIdempotencyKey
                IdempotencyKeyTooLarge in
    match trace_context with
    | Some t => trace_validate t
    | None => Ok tt
    end.

(** ** Envelopes

    [JobEnvelope<J>]; [SerializedJobEnvelope<J>] and [RawJobEnvelope] are the same
    record, the latter with the payload still a JSON value. *)

Record JobEnvelope (J : Type) : Type := {
  id : JobId;
  name : str;
  version : Z;
  payload : J;
  idempotency_key : option str;
  enqueued_at_unix_ms : Z;
  attempt : Z;
  trace_context : option JobTraceContext
}.
Arguments id {J}. Arguments name {J}. Arguments version {J}. Arguments payload {J}.
Arguments idempotency_key {J}. Arguments enqueued_at_unix_ms {J}. Arguments attempt {J}.
Arguments trace_context {J}.

Definition map_payload {J K} (f : J -> K) (e : JobEnvelope J) : JobEnvelope K := {|
  id := id e; name := name e; version := version e; payload := f (payload e);
  idempotency_key := idempotency_key e; enqueued_at_unix_ms := enqueued_at_unix_ms e;
  attempt := attempt e; trace_context := trace_context e
|}.

Definition set_trace {J} (t : option JobTraceContext) (e : JobEnvelope J) : JobEnvelope J := {|
  id := id e; name := name e; version := version e; payload := payload e;
  idempotency_key := idempotency_key e; enqueued_at_unix_ms := enqueued_at_unix_ms e;
  attempt := attempt e; trace_context := t
|}.

Definition set_attempt {J} (n : Z) (e : JobEnvelope J) : JobEnvelope J := {|
  id := id e; name := name e; version := version e; payload := payload e;
  idempotency_key := idempotency_key e; enqueued_at_unix_ms := enqueued_at_unix_ms e;
  attempt := n; trace_context := trace_context e
|}.

(** [JobMessage]. *)
Record JobMessage : Type := {
  msg_id : JobId;
  msg_name : str;
  msg_version : Z;
  msg_attempt : Z;
  msg_payload : bytes
}.

Inductive JobMessageError : Type :=
| BlankName
| InvalidName
| MessageInvalidAttempt
| EmptyPayload
| PayloadTooLarge.

Definition message_from_parts (i : JobId) (n : str) (v a : Z) (body : bytes) :
    result JobMessage JobMessageError :=
  if is_blank n then Err BlankName
  else if negb (is_valid_job_name n) then Err InvalidName
  else if a =? 0 then Err MessageInvalidAttempt
  else if negb (nonempty body) then Err EmptyPayload
  else if (MAX_JOB_ENVELOPE_BYTES <? List.length body)%nat then Err PayloadTooLarge
  else Ok {| msg_id := i; msg_name := n; msg_version := v; msg_attempt := a; msg_payload := body |}.

Section envelope.
Context {J : Type} `{!Job J}.

Definition with_metadata (i : JobId) (p : J) (enqueued : Z) : JobEnvelope J := {|
  id := i; name := NAME (J:=J); version := VERSION (J:=J); payload := p; idempotency_key := None;
  enqueued_at_unix_ms := enqueued; attempt := 1; trace_context := None
|}.

Definition with_idempotency_key (key : str) (e : JobEnvelope J) :
    result (JobEnvelope J) EnvelopeError :=
  let? _ := validate_optional_bounded_identifier (Some key) BlankIdempotencyKey
              IdempotencyKeyTooLarge in
  Ok {| id := id e; name := name e; version := version e; payload := payload e;
        idempotency_key := Some key; enqueued_at_unix_ms := enqueued_at_unix_ms e;
        attempt := attempt e; trace_context := trace_context e |}.

Definition with_trace_context (t : JobTraceContext) (e : JobEnvelope J) : JobEnvelope J :=
  set_trace (Some t) e.

Definition next_attempt (e : JobEnvelope J) : result (JobEnvelope J) EnvelopeError :=
  match checked_add u16_max (attempt e) 1 with
  | Some n => Ok (set_attempt n e)
  | None => Err AttemptOverflow
  end.

Definition with_attempt (n : Z) (e : JobEnvelope J) : result (JobEnvelope J) EnvelopeError :=
  if n =? 0 then Err InvalidAttempt else Ok (set_attempt n e).

Definition validate (e : JobEnvelope J) : result unit EnvelopeError :=
  let? _ := validate_metadata J (name e) (idempotency_key e) (attempt e) (trace_context e) in
  if negb (version e =? VERSION (J:=J))
  then Err (UnsupportedVersion (VERSION (J:=J)) (version e))
  else Ok tt.

Definition from_serialized (s : JobEnvelope J) : result (JobEnvelope J) EnvelopeError :=
  let? t := transpose (option_map trace_from_serialized (trace_context s)) in
  let envelope := set_trace t s in
  let? _ := validate envelope in
  Ok envelope.

Definition validate_envelope_bytes (body : bytes) : result unit EnvelopeError :=
  if (MAX_JOB_ENVELOPE_BYTES <? List.length body)%nat then Err TooLarge else Ok tt.

(** [codec::encode]. *)
Definition codec_encode {T} `{!JsonWriter T} (value : T) : result bytes EnvelopeError :=
  match to_vec_bounded value MAX_JOB_ENVELOPE_BYTES with
  | Ok encoded => Ok encoded
  | Err Json.TooLarge => Err TooLarge
  | Err SerializeError => Err Serialize
  end.

Definition encode `{!JsonWriter (JobEnvelope J)} (e : JobEnvelope J) : result bytes EnvelopeError :=
  let? _ := validate e in
  codec_encode e.

Definition message `{!JsonWriter (JobEnvelope J)} (e : JobEnvelope J) : result JobMessage EnvelopeError :=
  let? body := encode e in
  Ok {| msg_id := id e; msg_name := name e; msg_version := version e; msg_attempt := attempt e;
        msg_payload := body |}.

(** [serde_json::from_slice] at the two record types and [from_value] at the payload. *)
Context {Value : Type}.
Context (from_slice_typed : bytes -> option (JobEnvelope J)).
Context (from_slice_raw : bytes -> option (JobEnvelope Value)).
Context (from_value : Value -> option J).

Definition decode (body : bytes) : result (JobEnvelope J) EnvelopeError :=
  let? _ := validate_envelope_bytes body in
  match from_slice_typed body with
  | None => Err Deserialize
  | Some s => from_serialized s
  end.

Inductive CompatibleDecodeError (E : Type) : Type :=
| Envelope (e : EnvelopeError)
| Payload
| Upcaster (e : E).
Arguments Envelope {E}. Arguments Payload {E}. Arguments Upcaster {E}.

Definition decode_compatible {E : Type} (body : bytes) (upcast : Z -> Value -> result J E) :
    result (JobEnvelope J) (CompatibleDecodeError E) :=
  let? _ := map_err Envelope (validate_envelope_bytes body) in
  match from_slice_raw body with
  | None => Err (Envelope Deserialize)
  | Some raw =>
      let? t := map_err Envelope (transpose (option_map trace_from_serialized (trace_context raw))) in
      let? _ := map_err Envelope (validate_metadata J (name raw) (idempotency_key raw) (attempt raw) t) in
      if VERSION (J:=J) <? version raw
      then Err (Envelope (UnsupportedVersion (VERSION (J:=J)) (version raw)))
      else
        let? p := (if version raw =? VERSION (J:=J)
                   then ok_or (from_value (payload raw)) Payload
                   else map_err Upcaster (upcast (version raw) (payload raw))) in
        Ok {| id := id raw; name := name raw; version := VERSION (J:=J); payload := p;
              idempotency_key := idempotency_key raw;
              enqueued_at_unix_ms := enqueued_at_unix_ms raw;
              attempt := attempt raw; trace_context := t |}
  end.
End envelope.
Arguments Envelope {E}. Arguments Payload {E}. Arguments Upcaster {E}.

(** ** Documented serde behaviour *)

(** The typed decoder reads back what the derived encoder writes; what it accepts,
    the untyped decoder accepts with the same metadata and a payload value that
    converts. *)
Class SerdeLaws {J Value : Type} `{!JsonWriter (JobEnvelope J)}
    (from_slice_typed : bytes -> option (JobEnvelope J))
    (from_slice_raw : bytes -> option (JobEnvelope Value))
    (from_value : Value -> option J) : Prop := {
  typed_roundtrip e :
    json_fails e = false -> from_slice_typed (concat (json_writes e)) = Some e;
  typed_raw body s :
    from_slice_typed body = Some s ->
    exists raw, from_slice_raw body = Some raw /\
      from_value (payload raw) = Some (payload s) /\ map_payload (fun _ => payload s) raw = s
}.

(** ** Lemmas: validation *)

Definition valid_trace (t : JobTraceContext) : Prop := trace_validate t = Ok tt.

Lemma trace_from_serialized_Ok t t' : trace_from_serialized t = Ok t' <-> t' = t /\ valid_trace t.
Proof.
  unfold trace_from_serialized, trace_new, valid_trace. destruct t as [p s]. simpl.
  destruct (trace_validate _) as [[]|]; naive_solver.
Qed.

Lemma trace_option_Ok o t :
  transpose (option_map trace_from_serialized o) = Ok t <->
  t = o /\ match o with Some x => valid_trace x | None => True end.
Proof.
  destruct o as [x|]; simpl; [|naive_solver].
  destruct (trace_from_serialized x) as [y|e] eqn:E.
  - apply trace_from_serialized_Ok in E as [-> Hv]. naive_solver.
  - split; [done|]. intros [_ Hv].
    assert (trace_from_serialized x = Ok x) by (by apply trace_from_serialized_Ok). congruence.
Qed.

Section validity.
Context {J : Type} `{!Job J}.

(** What every admitted envelope satisfies. *)
Record valid_envelope (e : JobEnvelope J) : Prop := {
  valid_name : name e = NAME (J:=J) /\ is_valid_job_name (name e) = true;
  valid_version : version e = VERSION (J:=J);
  valid_attempt : attempt e <> 0;
  valid_key : match idempotency_key e with
              | Some k => is_blank k = false /\ (List.length k <= MAX_JOB_IDEMPOTENCY_KEY_BYTES)%nat
              | None => True
              end;
  valid_context : match trace_context e with Some t => valid_trace t | None => True end
}.

Lemma validate_identifier_Ok k a b :
  validate_optional_bounded_identifier k a b = Ok tt <->
  match k with
  | Some v => is_blank v = false /\ (List.length v <= MAX_JOB_IDEMPOTENCY_KEY_BYTES)%nat
  | None => True
  end.
Proof.
  unfold validate_optional_bounded_identifier. destruct k as [v|]; [|done].
  destruct (is_blank v); [naive_solver|].
  destruct (_ <? _)%nat eqn:E; [apply Nat.ltb_lt in E | apply Nat.ltb_ge in E].
  - split; [done | intros [_ ?]; lia].
  - done.
Qed.

Lemma validate_metadata_Ok n k a t :
  validate_metadata J n k a t = Ok tt <->
  (n = NAME (J:=J) /\ is_valid_job_name n = true) /\ a <> 0 /\
  match k with
  | Some v => is_blank v = false /\ (List.length v <= MAX_JOB_IDEMPOTENCY_KEY_BYTES)%nat
  | None => True
  end /\
  match t with Some x => valid_trace x | None => True end.
Proof.
  unfold validate_metadata.
  destruct (is_valid_job_name (NAME (J:=J))) eqn:EN; cbn [negb orb].
  2:{ split; [done|]. intros [[-> ?] _]. congruence. }
  destruct (is_valid_job_name n) eqn:En; cbn [negb]; [|naive_solver].
  destruct (str_eqb n (NAME (J:=J))) eqn:Es; cbn [negb].
  2:{ apply bool_decide_eq_false in Es. naive_solver. }
  apply str_eqb_true in Es. destruct (a =? 0) eqn:Ea.
  { apply Z.eqb_eq in Ea. naive_solver. }
  apply Z.eqb_neq in Ea.
  pose proof (validate_identifier_Ok k BlankIdempotencyKey IdempotencyKeyTooLarge) as HK.
  destruct (validate_optional_bounded_identifier k _ _) as [[]|].
  - assert (HK' := proj1 HK eq_refl). destruct t; unfold valid_trace; naive_solver.
  - split; [done|]. intros (_ & _ & HK' & _). apply HK in HK'. done.
Qed.

Lemma validate_Ok e : validate e = Ok tt <-> valid_envelope e.
Proof.
  unfold validate.
  pose proof (validate_metadata_Ok (name e) (idempotency_key e) (attempt e) (trace_context e)) as HM.
  destruct (validate_metadata J _ _ _ _) as [[]|].
  - assert (HM' := proj1 HM eq_refl). destruct (version e =? VERSION (J:=J)) eqn:Ev; cbn [negb].
    + apply Z.eqb_eq in Ev. split; [intros _; split; tauto | done].
    + apply Z.eqb_neq in Ev. split; [done|]. by intros [].
  - split; [done|]. intros [].
    assert (HX : Err e0 = Ok (E:=EnvelopeError) tt) by (apply HM; tauto). done.
Qed.

Lemma from_serialized_Ok s e : from_serialized s = Ok e <-> e = s /\ valid_envelope s.
Proof.
  unfold from_serialized.
  destruct (transpose (option_map trace_from_serialized (trace_context s))) as [t|x] eqn:E.
  - apply trace_option_Ok in E as [-> Ht].
    assert (set_trace (trace_context s) s = s) as -> by (by destruct s).
    rewrite <- validate_Ok. destruct (validate s) as [[]|]; naive_solver.
  - split; [done|]. intros [_ Hv].
    assert (transpose (option_map trace_from_serialized (trace_context s)) = Ok (trace_context s))
      by (apply trace_option_Ok; split; [done | apply Hv]).
    congruence.
Qed.

Context `{!JsonWriter (JobEnvelope J)}.

Lemma encode_Ok e body :
  encode e = Ok body <->
  valid_envelope e /\ json_fails e = false /\ body = concat (json_writes e) /\
  (List.length body <= MAX_JOB_ENVELOPE_BYTES)%nat.
Proof.
  unfold encode, codec_encode. rewrite (proj1 (to_vec_bounded_facts e MAX_JOB_ENVELOPE_BYTES)).
  rewrite <- validate_Ok. destruct (validate e) as [[]|]; [|naive_solver].
  destruct (_ <=? MAX_JOB_ENVELOPE_BYTES)%nat eqn:El; [apply Nat.leb_le in El | apply Nat.leb_gt in El].
  - destruct (json_fails e); [naive_solver|]. split; [intros [= <-]; done | naive_solver].
  - split; [done|]. intros (_ & _ & -> & ?). lia.
Qed.
End validity.

(** ** Properties *)

Section properties.
Context {J Value : Type} `{!Job J} `{!JsonWriter (JobEnvelope J)}.
Context (from_slice_typed : bytes -> option (JobEnvelope J)).
Context (from_slice_raw : bytes -> option (JobEnvelope Value)).
Context (from_value : Value -> option J).

Lemma decode_Ok body e :
  decode from_slice_typed body = Ok e <->
  (List.length body <= MAX_JOB_ENVELOPE_BYTES)%nat /\ from_slice_typed body = Some e /\ valid_envelope e.
Proof.
  clear from_slice_raw from_value. unfold decode, validate_envelope_bytes.
  destruct (_ <? _)%nat eqn:El; [apply Nat.ltb_lt in El | apply Nat.ltb_ge in El].
  { split; [done|]. intros [? _]. lia. }
  destruct (from_slice_typed body) as [s|]; [|naive_solver]. rewrite from_serialized_Ok. naive_solver.
Qed.

(** The envelopes a producer or a worker can hold. *)
Inductive reachable : JobEnvelope J -> Prop :=
| reach_new i p t : is_valid_job_name (NAME (J:=J)) = true -> reachable (with_metadata i p t)
| reach_decode body e : decode from_slice_typed body = Ok e -> reachable e
| reach_decode_compatible E (up : Z -> Value -> result J E) body e :
    decode_compatible from_slice_raw from_value body up = Ok e -> reachable e
| reach_key k e e' : reachable e -> with_idempotency_key k e = Ok e' -> reachable e'
| reach_trace p s t e : reachable e -> trace_new p s = Ok t -> reachable (with_trace_context t e)
| reach_next e e' : reachable e -> 0 <= attempt e <= u16_max -> next_attempt e = Ok e' -> reachable e'
| reach_attempt n e e' : reachable e -> with_attempt n e = Ok e' -> reachable e'.

(** What an accepted compatible decoding rests on. *)
Lemma decode_compatible_Ok E (up : Z -> Value -> result J E) body e :
  decode_compatible from_slice_raw from_value body up = Ok e ->
  valid_envelope e /\ (List.length body <= MAX_JOB_ENVELOPE_BYTES)%nat /\
  exists raw, from_slice_raw body = Some raw /\ version raw <= VERSION (J:=J) /\
    (version raw = VERSION (J:=J) -> from_value (payload raw) = Some (payload e)) /\
    (version raw < VERSION (J:=J) -> up (version raw) (payload raw) = Ok (payload e)) /\
    id e = id raw /\ attempt e = attempt raw /\ idempotency_key e = idempotency_key raw /\
    trace_context e = trace_context raw.
Proof.
  unfold decode_compatible, validate_envelope_bytes.
  destruct (_ <? List.length body)%nat eqn:El; [done|]. apply Nat.ltb_ge in El. cbn [map_err].
  destruct (from_slice_raw body) as [raw|] eqn:ER; [|done].
  destruct (transpose _) as [t|] eqn:Et; [|done]. apply trace_option_Ok in Et as [-> Ht]. cbn [map_err].
  destruct (validate_metadata J _ _ _ _) as [[]|] eqn:Em; [|done]. apply validate_metadata_Ok in Em.
  cbn [map_err]. destruct (VERSION (J:=J) <? version raw) eqn:Ev; [done|]. apply Z.ltb_ge in Ev.
  destruct (version raw =? VERSION (J:=J)) eqn:Eq.
  - apply Z.eqb_eq in Eq. destruct (from_value (payload raw)) as [p|] eqn:Ep; [|done]. intros [= <-].
    split; [split; simpl; tauto|]. split; [done|]. exists raw. simpl. split_and!; try done. lia.
  - apply Z.eqb_neq in Eq. destruct (up (version raw) (payload raw)) as [p|] eqn:Ep; [|done].
    intros [= <-]. split; [split; simpl; tauto|]. split; [done|]. exists raw. simpl. split_and!; done.
Qed.

Lemma reachable_valid e : reachable e -> valid_envelope e.
Proof.
  induction 1 as [i p t Hn|body e HD|E up body e HD|k e e' _ IH HK|p s t e _ IH HT|e e' _ IH Ha HN
                 |n e e' _ IH HN].
  - split; simpl; try done.
  - by apply decode_Ok in HD as (_ & _ & ?).
  - by apply decode_compatible_Ok in HD as [? _].
  - unfold with_idempotency_key in HK. destruct (validate_optional_bounded_identifier _ _ _) as [[]|] eqn:E;
      [|done]. apply validate_identifier_Ok in E. injection HK as <-. destruct IH. by split.
  - unfold trace_new in HT. destruct (trace_validate _) as [[]|] eqn:E; [|done]. injection HT as <-.
    destruct IH. by split.
  - unfold next_attempt, checked_add in HN. destruct (attempt e + 1 <=? u16_max); [|done].
    injection HN as <-. destruct IH. split; simpl; try done. lia.
  - unfold with_attempt in HN. destruct (n =? 0) eqn:E; [done|]. apply Z.eqb_neq in E.
    injection HN as <-. destruct IH. by split.
Qed.

(** Every envelope that can be built, decoded or upcast is valid. The name is the
    handler's, the version its current one, the attempt at least one, the
    idempotency key and the trace context within their bounds; so encoding it can
    fail only in the serializer or because the body is too large. *)
Theorem reachable_envelopes_valid e :
  reachable e ->
  valid_envelope e /\
  match encode e with
  | Ok body => (List.length body <= MAX_JOB_ENVELOPE_BYTES)%nat
  | Err er => er = Serialize \/ er = TooLarge
  end.
Proof.
  intros HV%reachable_valid. split; [done|]. destruct (encode e) as [body|er] eqn:E.
  - by apply encode_Ok in E as (_ & _ & _ & ?).
  - unfold encode, codec_encode in E. apply validate_Ok in HV. rewrite HV in E.
    destruct (to_vec_bounded _ _) as [|[]]; naive_solver.
Qed.

Context `{!SerdeLaws from_slice_typed from_slice_raw from_value}.

Lemma decode_compatible_strict E (up : Z -> Value -> result J E) body e :
  decode from_slice_typed body = Ok e ->
  decode_compatible from_slice_raw from_value body up = Ok e.
Proof.
  intros (El & Hs & HV)%decode_Ok.
  destruct (typed_raw body e Hs) as (raw & HR & Hp & He).
  unfold decode_compatible, validate_envelope_bytes. rewrite (proj2 (Nat.ltb_ge _ _)) by lia.
  cbn [map_err]. rewrite HR.
  assert (HT : transpose (option_map trace_from_serialized (trace_context raw)) = Ok (trace_context e)).
  { apply trace_option_Ok. rewrite <- He. split; [done|]. destruct HV. by rewrite <- He in *. }
  rewrite HT. cbn [map_err].
  assert (HM : validate_metadata J (name raw) (idempotency_key raw) (attempt raw) (trace_context e) = Ok tt).
  { apply validate_metadata_Ok. destruct HV. rewrite <- He in *. simpl in *. tauto. }
  rewrite HM. cbn [map_err].
  assert (Hv : version raw = VERSION (J:=J)).
  { destruct HV. rewrite <- He in *. done. }
  rewrite Hv, Z.ltb_irrefl, Z.eqb_refl, Hp. cbn [ok_or]. f_equal.
  transitivity (map_payload (fun _ => payload e) raw); [|done].
  unfold map_payload. rewrite Hv. f_equal. by rewrite <- He.
Qed.

Lemma envelope_decodes e body : encode e = Ok body -> decode from_slice_typed body = Ok e.
Proof.
  intros (HV & Hf & -> & Hl)%encode_Ok. apply decode_Ok.
  split_and!; [done | by apply typed_roundtrip | done].
Qed.

(** Encoding round-trips. A body that [encode] produces is within the size limit
    and decodes to the very envelope it was made from, metadata included, on the
    strict path and, whatever the upcaster, on the compatible one. *)
Theorem envelope_roundtrip e body E (up : Z -> Value -> result J E) :
  encode e = Ok body ->
  decode from_slice_typed body = Ok e /\
  decode_compatible from_slice_raw from_value body up = Ok e.
Proof.
  intros HD%envelope_decodes. split; [done | by apply decode_compatible_strict].
Qed.

(** compatible decoding extends strict decoding and nothing more. What the strict
    decoder accepts it accepts with the same result, without consulting the
    upcaster. What it accepts beyond that has a lower producer version, and its
    payload is what the upcaster made of the older one; a newer version is always
    rejected, and the identity, attempt, key and trace context are never the
    upcaster's. *)
Theorem decode_compatible_extends E (up : Z -> Value -> result J E) body :
  (forall e, decode from_slice_typed body = Ok e ->
     decode_compatible from_slice_raw from_value body up = Ok e) /\
  (forall e, decode_compatible from_slice_raw from_value body up = Ok e ->
     valid_envelope e /\
     exists raw, from_slice_raw body = Some raw /\ version raw <= VERSION (J:=J) /\
       (version raw < VERSION (J:=J) -> up (version raw) (payload raw) = Ok (payload e)) /\
       id e = id raw /\ attempt e = attempt raw /\ idempotency_key e = idempotency_key raw /\
       trace_context e = trace_context raw).
Proof.
  split; [intros e; apply decode_compatible_strict|].
  intros e (HV & _ & raw & ? & ? & _ & ? & ? & ? & ? & ?)%decode_compatible_Ok. eauto 10.
Qed.
End properties.

(** ** Examples

    A job with a number as payload, and a codec that writes the fields as one
    binary number. *)

Module JobExamples.
Export BitCodec.
#[export] Instance resize : Job Z := {| NAME := ##"image.resize"; VERSION := 2 |}.

Definition fields : Type :=
  (Z * str * Z * Z * option str * Z * Z * option (str * option str))%type.
Definition to_fields (e : JobEnvelope Z) : fields :=
  (id e, name e, version e, payload e, idempotency_key e, enqueued_at_unix_ms e, attempt e,
   option_map (fun t => (traceparent t, tracestate t)) (trace_context e)).
Definition of_fields (f : fields) : JobEnvelope Z :=
  let '(i, n, v, p, k, q, a, t) := f in
  {| id := i; name := n; version := v; payload := p; idempotency_key := k;
     enqueued_at_unix_ms := q; attempt := a;
     trace_context := option_map (fun '(x, y) => {| traceparent := x; tracestate := y |}) t |}.

#[export] Instance envelope_writer : JsonWriter (JobEnvelope Z) := {|
  json_writes e := [bits (countable.encode (to_fields e))];
  json_fails _ := false
|}.
Definition read (body : bytes) : option (JobEnvelope Z) :=
  option_map of_fields (countable.decode (A := fields) (of_bits body)).

Lemma of_to_fields e : of_fields (to_fields e) = e.
Proof. destruct e as [i n v p k q a [[x y]|]]; reflexivity. Qed.

#[export] Instance laws : SerdeLaws read read Some.
Proof.
  split.
  - intros e _. unfold read. cbn [json_writes envelope_writer concat]. rewrite app_nil_r.
    rewrite of_bits_bits, countable.decode_encode. simpl. f_equal. apply of_to_fields.
  - intros body s Hs. exists s. split_and!; [done | done | by destruct s].
Qed.

Definition first : JobEnvelope Z := with_metadata 7 640 1700000000000.
Definition older (_ : Z) (v : Z) : result Z unit := Ok (v * 2).

Lemma first_encodes : exists body, encode first = Ok body.
Proof.
  eexists. apply encode_Ok. split_and!; [|reflexivity|reflexivity|].
  - by split.
  - apply Nat.leb_le. vm_compute. reflexivity.
Qed.

Lemma reachable_envelopes_valid_witness : valid_envelope first.
Proof.
  apply (reachable_envelopes_valid read read Some first). apply reach_new. vm_compute. reflexivity.
Defined.

Lemma envelope_roundtrip_witness : exists body, decode read body = Ok first.
Proof.
  destruct first_encodes as [body HE]. exists body.
  exact (proj1 (envelope_roundtrip read read Some first body unit older HE)).
Defined.

Lemma decode_compatible_extends_witness :
  exists body, decode_compatible read Some body older = Ok first.
Proof.
  destruct first_encodes as [body HE]. exists body.
  apply (decode_compatible_extends read read Some unit older body).
  apply (proj2 (decode_Ok read _ _)).
  apply encode_Ok in HE as (HV & _ & -> & Hl). split_and!; [done | | done].
  by apply (typed_roundtrip (SerdeLaws := laws)).
Defined.
End JobExamples.
