(* ===== verification/Jobs.v ===== *)
(** Job delivery: [crates/rustee-jobs/src/delivery/retry.rs],
    [delivery/observation.rs], [handler.rs], [registry.rs] and the client of
    [publisher.rs]. *)

From Stdlib Require Import ZArith Lia Bool Ascii.
From stdpp Require Import gmap sets.
From S2P Require Import Prelude Strings Json JobEnvelope.

Local Open Scope Z_scope.

(** ** Retry policy *)

Record RetryPolicy : Type := {
  max_deliveries : Z;
  initial_backoff : Duration;
  max_backoff : Duration
}.
Definition retry_default : RetryPolicy := {|
  max_deliveries := 5;
  initial_backoff := 1000000000;
  max_backoff := 300 * 1000000000
|}.

Inductive DeliveryAction : Type :=
| Acknowledge
| Retry (next_attempt : Z) (delay : Duration)
| DeadLetter.

Definition retry_is_valid (p : RetryPolicy) : bool :=
  negb (max_deliveries p =? 0) && negb (initial_backoff p =? 0)
  && (initial_backoff p <=? max_backoff p).

(** [2_u32.saturating_pow]. *)
Definition saturating_pow2 (exponent : Z) : Z := Z.min (2 ^ exponent) u32_max.

Definition after_failure (p : RetryPolicy) (attempt : Z) : DeliveryAction :=
  if negb (retry_is_valid p) || (attempt =? 0) || (max_deliveries p <=? attempt) then DeadLetter
  else
    let exponent := saturating_sub attempt 1 in
    let multiplier := saturating_pow2 exponent in
    let delay := Z.min (saturating_mul duration_max (initial_backoff p) multiplier) (max_backoff p) in
    Retry (saturating_add u16_max attempt 1) delay.

(** A job that keeps failing: the delays between its deliveries, until it is
    dead-lettered. *)
Fixpoint failing_job (fuel : nat) (p : RetryPolicy) (attempt : Z) : option (list Duration) :=
  match fuel with
  | O => None
  | S fuel' =>
      match after_failure p attempt with
      | Retry next delay => option_map (cons delay) (failing_job fuel' p next)
      | DeadLetter => Some []
      | Acknowledge => None
      end
  end.

(** ** Delivery observation *)

Inductive JobDeliveryOutcome : Type := Acknowledged | Retried | DeadLettered | Unsettled.
Definition outcome_as_str (o : JobDeliveryOutcome) : str :=
  match o with
  | Acknowledged => ##"acknowledged"
  | Retried => ##"retried"
  | DeadLettered => ##"dead_lettered"
  | Unsettled => ##"unsettled"
  end.

Inductive ObserverEvent : Type :=
| JobDeliveryStarted (provider : str)
| JobDeliveryFinished (provider : str) (attempt : option Z) (outcome : JobDeliveryOutcome)
    (duration : Duration).

Record JobDeliveryObservation : Type := {
  provider : str;
  started_at : Z;
  finished : bool
}.

Section observation.
(** An observer records an event or panics ([None]); a panic is caught and the
    observer keeps the state it had. *)
Context {St : Type} (observe : ObserverEvent -> St -> option St).

Definition notify (e : ObserverEvent) (st : St) : St := default st (observe e st).

Definition observation_start (p : str) (now : Z) (st : St) : JobDeliveryObservation * St :=
  ({| provider := p; started_at := now; finished := false |}, notify (JobDeliveryStarted p) st).

Definition observation_drop (o : JobDeliveryObservation) (now : Z) (st : St) : St :=
  if finished o then st
  else notify (JobDeliveryFinished (provider o) None Unsettled (now - started_at o)) st.

(** [finish] consumes the observation, so [drop] runs at its end. *)
Definition observation_finish (o : JobDeliveryObservation) (attempt : option Z)
    (outcome : JobDeliveryOutcome) (now : Z) (st : St) : St :=
  let o := {| provider := provider o; started_at := started_at o; finished := true |} in
  let st := notify (JobDeliveryFinished (provider o) attempt outcome (now - started_at o)) st in
  observation_drop o now st.
End observation.

(** ** Handlers *)

Record JobContext : Type := {
  ctx_id : JobId;
  ctx_name : str;
  ctx_version : Z;
  ctx_idempotency_key : option str;
  ctx_attempt : Z;
  ctx_trace_context : option JobTraceContext
}.
Definition context_from_envelope {J} (e : JobEnvelope J) : JobContext := {|
  ctx_id := id e; ctx_name := name e; ctx_version := version e;
  ctx_idempotency_key := idempotency_key e; ctx_attempt := attempt e;
  ctx_trace_context := trace_context e
|}.

(** A handler acts on the state of the application, [St]. *)
Definition JobHandler (St J E : Type) : Type := J -> JobContext -> St -> result unit E * St.

Definition dispatch_job {St J E} (e : JobEnvelope J) (handler : JobHandler St J E) (st : St) :
    result DeliveryAction E * St :=
  let context := context_from_envelope e in
  let '(r, st) := handler (payload e) context st in
  (let? _ := r in Ok Acknowledge, st).

(** ** The registry *)

Inductive JobRegistryRegistrationError : Type := RegistrationInvalidJobName | DuplicateJobName.

Inductive JobRegistryError : Type :=
| InvalidEnvelope
| RegistryInvalidAttempt
| UnknownJob
| HandlerFailed (i : JobId) (n : str).

(** A type-erased registered handler. *)
Definition RegisteredJobHandler (St : Type) : Type :=
  bytes -> Z -> St -> result DeliveryAction JobRegistryError * St.

Section registered.
Context {St J Value E : Type} `{!Job J}.
Context (from_slice_typed : bytes -> option (JobEnvelope J)).
Context (from_slice_raw : bytes -> option (JobEnvelope Value)).
Context (from_value : Value -> option J).
Context (handler : JobHandler St J E).

(** The common end of both [dispatch] implementations. *)
Definition dispatch_envelope (envelope : result (JobEnvelope J) JobRegistryError) (attempt : Z) (st : St) :
    result DeliveryAction JobRegistryError * St :=
  match (let? e := envelope in map_err (fun _ => RegistryInvalidAttempt) (with_attempt attempt e)) with
  | Err e => (Err e, st)
  | Ok e =>
      let '(r, st) := dispatch_job e handler st in
      (map_err (fun _ => HandlerFailed (id e) (name e)) r, st)
  end.

Definition strict_handler : RegisteredJobHandler St := fun body attempt st =>
  dispatch_envelope (map_err (fun _ => InvalidEnvelope) (decode from_slice_typed body)) attempt st.

Definition compatible_handler {F} (upcast : Z -> Value -> result J F) : RegisteredJobHandler St :=
  fun body attempt st =>
    dispatch_envelope
      (map_err (fun _ => InvalidEnvelope) (decode_compatible from_slice_raw from_value body upcast))
      attempt st.
End registered.

(** [JobRegistry]: the handlers by stable name. *)
Notation JobRegistry St := (gmap str (RegisteredJobHandler St)).

Section registry.
Context {St : Type}.
(** [serde_json::from_slice::<RegistryEnvelopeIdentity>]: the [name] field. *)
Context (from_slice_identity : bytes -> option str).

Definition registry_new : JobRegistry St := ∅.

Definition insert_handler (job_name : str) (h : RegisteredJobHandler St) (r : JobRegistry St) :
    result (JobRegistry St) JobRegistryRegistrationError :=
  if negb (is_valid_job_name job_name) then Err RegistrationInvalidJobName
  else if is_some (r !! job_name) then Err DuplicateJobName
  else Ok (<[job_name := h]> r).

Definition registry_dispatch (r : JobRegistry St) (body : bytes) (attempt : Z) (st : St) :
    result DeliveryAction JobRegistryError * St :=
  if attempt =? 0 then (Err RegistryInvalidAttempt, st)
  else if negb (nonempty body) || (MAX_JOB_ENVELOPE_BYTES <? List.length body)%nat
  then (Err InvalidEnvelope, st)
  else match from_slice_identity body with
       | None => (Err InvalidEnvelope, st)
       | Some job_name =>
           match r !! job_name with
           | None => (Err UnknownJob, st)
           | Some h => h body attempt st
           end
       end.
End registry.

(** ** The client *)

Inductive EnqueueError (E : Type) : Type :=
| EnqueueEnvelope (e : EnvelopeError)
| EnqueueProvider (e : E).
Arguments EnqueueEnvelope {E}. Arguments EnqueueProvider {E}.

Definition enqueue {J E St} `{!Job J, !JsonWriter (JobEnvelope J)}
    (publish : JobMessage -> St -> result unit E * St) (e : JobEnvelope J) (st : St) :
    result unit (EnqueueError E) * St :=
  match message e with
  | Err x => (Err (EnqueueEnvelope x), st)
  | Ok m => let '(r, st) := publish m st in (map_err EnqueueProvider r, st)
  end.

(** ** Lemmas: retries *)

(** The values a [RetryPolicy] can hold. *)
Definition policy_in_range (p : RetryPolicy) : Prop :=
  0 <= max_deliveries p <= u16_max /\ 0 <= initial_backoff p <= duration_max /\
  0 <= max_backoff p <= duration_max.

(** The delay before retry number [i], counted from zero. *)
Definition backoff (p : RetryPolicy) (i : Z) : Duration :=
  Z.min (initial_backoff p * Z.min (2 ^ i) u32_max) (max_backoff p).

Lemma after_failure_retry p a :
  policy_in_range p -> retry_is_valid p = true -> 1 <= a < max_deliveries p ->
  after_failure p a = Retry (a + 1) (backoff p (a - 1)).
Proof.
  intros Hr Hv Ha. unfold after_failure, backoff, saturating_pow2, saturating_mul, saturating_sub,
    saturating_add, policy_in_range in *.
  rewrite Hv, (proj2 (Z.eqb_neq a 0)), (proj2 (Z.leb_gt _ _)) by lia. cbn [negb orb].
  f_equal; [lia|]. rewrite Z.max_l by lia. lia.
Qed.

Lemma after_failure_dead p a : max_deliveries p <= a -> after_failure p a = DeadLetter.
Proof.
  intros Ha. unfold after_failure. rewrite (proj2 (Z.leb_le _ _)) by lia. by rewrite orb_true_r.
Qed.

Lemma backoff_bounds p i :
  0 <= initial_backoff p <= max_backoff p -> 0 <= i -> initial_backoff p <= backoff p i <= max_backoff p.
Proof.
  intros Hp Hi. unfold backoff.
  assert (1 <= 2 ^ i) by (apply (Z.pow_le_mono_r 2 0); lia).
  assert (1 <= Z.min (2 ^ i) u32_max) by (unfold u32_max; lia). nia.
Qed.

Lemma backoff_mono p i j : 0 <= initial_backoff p -> 0 <= i <= j -> backoff p i <= backoff p j.
Proof.
  intros Hp Hij. unfold backoff.
  assert (2 ^ i <= 2 ^ j) by (apply Z.pow_le_mono_r; lia).
  assert (initial_backoff p * Z.min (2 ^ i) u32_max <= initial_backoff p * Z.min (2 ^ j) u32_max)
    by (apply Z.mul_le_mono_nonneg_l; lia). lia.
Qed.

Lemma failing_job_run p fuel a :
  policy_in_range p -> retry_is_valid p = true -> 1 <= a <= max_deliveries p ->
  (Z.to_nat (max_deliveries p - a) < fuel)%nat ->
  failing_job fuel p a = Some (backoff p <$> seqZ (a - 1) (max_deliveries p - a)).
Proof.
  intros Hr Hv. revert a. induction fuel as [|fuel IH]; intros a Ha Hf; [lia|].
  cbn [failing_job]. destruct (decide (a = max_deliveries p)) as [->|Hne].
  - rewrite after_failure_dead by lia. by rewrite Z.sub_diag, seqZ_nil by lia.
  - rewrite after_failure_retry by (done || lia). rewrite IH by lia. simpl.
    rewrite (seqZ_cons (a - 1)) by lia. simpl. do 4 f_equal; lia.
Qed.

(** ** Properties: retries *)

(** C30: retries are bounded. A job that fails every time is delivered exactly
    [max_deliveries] times and then dead-lettered; the delay before its [i]-th
    retry is [initial_backoff * 2^i], the factor capped at [u32::MAX] and the delay
    at [max_backoff], so delays never shrink and stay between the two bounds. An
    invalid policy never retries. *)
Theorem retry_schedule p fuel :
  policy_in_range p -> (Z.to_nat (max_deliveries p) < fuel)%nat ->
  exists delays, failing_job fuel p 1 = Some delays /\
    if retry_is_valid p then
      Z.of_nat (List.length delays) = max_deliveries p - 1 /\
      forall (i : nat) d, delays !! i = Some d ->
        d = Z.min (initial_backoff p * Z.min (2 ^ Z.of_nat i) u32_max) (max_backoff p) /\
        initial_backoff p <= d <= max_backoff p /\
        forall (j : nat) d', (i <= j)%nat -> delays !! j = Some d' -> d <= d'
    else delays = [].
Proof.
  intros Hr Hf. destruct (retry_is_valid p) eqn:Hv.
  - assert (Hm : 1 <= max_deliveries p /\ 0 <= initial_backoff p <= max_backoff p).
    { unfold retry_is_valid, policy_in_range in *. lia. }
    destruct Hm as [Hm Hb]. eexists. split; [apply failing_job_run; [done..|lia]|].
    rewrite length_fmap, length_seqZ. split; [lia|].
    assert (HL : forall (i : nat) d, (backoff p <$> seqZ (1 - 1) (max_deliveries p - 1)) !! i = Some d ->
              d = backoff p (Z.of_nat i)).
    { intros i d HE. rewrite list_lookup_fmap in HE. apply fmap_Some in HE as (x & HE & ->).
      by apply lookup_seqZ in HE as [-> _]. }
    intros i d ->%HL. split_and!; [done | apply backoff_bounds; lia.. |].
    intros j d' Hij ->%HL. apply backoff_mono; lia.
  - destruct fuel as [|fuel]; [lia|]. exists []. split; [|done]. cbn [failing_job].
    unfold after_failure. by rewrite Hv.
Qed.

(** ** Lemmas: registration *)

Section registration.
Context {St : Type}.
Implicit Types (regs : list (str * RegisteredJobHandler St)) (r : gmap str (RegisteredJobHandler St)).

(** A startup that registers handlers one after the other. *)
Fixpoint register_all regs r : result (JobRegistry St) JobRegistryRegistrationError :=
  match regs with
  | [] => Ok r
  | (n, h) :: rest => let? r := insert_handler n h r in register_all rest r
  end.

Lemma insert_handler_Ok n h r r' :
  insert_handler n h r = Ok r' <->
  is_valid_job_name n = true /\ r !! n = None /\ r' = <[n := h]> r.
Proof.
  unfold insert_handler. destruct (is_valid_job_name n); cbn [negb]; [|naive_solver].
  destruct (r !! n); cbn [is_some].
  - split; [done | by intros (_ & ? & _)].
  - split; [by intros [= <-] | by intros (_ & _ & ->)].
Qed.

Lemma register_all_Ok regs r r' :
  register_all regs r = Ok r' <->
  Forall (fun x => is_valid_job_name x.1 = true /\ r !! x.1 = None) regs /\ NoDup regs.*1 /\
  r' = (list_to_map regs ∪ r : gmap str (RegisteredJobHandler St)).
Proof.
  revert r. induction regs as [|[n h] regs IH]; intros r; cbn [register_all].
  - split.
    + intros [= <-]. split; [by apply Forall_nil|]. split; [by apply NoDup_nil|].
      simpl. by rewrite (left_id_L ∅ (∪)).
    + intros (_ & _ & ->). simpl. by rewrite (left_id_L ∅ (∪)).
  - rewrite fmap_cons, NoDup_cons, Forall_cons. cbn [fst list_to_map foldr uncurry].
    destruct (insert_handler n h r) as [r1|e] eqn:E.
    + apply insert_handler_Ok in E as (Hv & Hn & ->). rewrite IH, !Forall_forall.
      assert (HM : list_to_map regs ∪ <[n:=h]> r = (<[n:=h]> (list_to_map regs) : gmap _ _) ∪ r
                   \/ n ∈ regs.*1).
      { destruct (decide (n ∈ regs.*1)) as [|Hni]; [by right|left].
        rewrite <- insert_union_r by (by apply not_elem_of_list_to_map_1).
        by rewrite insert_union_l. }
      split.
      * intros (HF & HD & ->).
        assert (Hni : n ∉ regs.*1).
        { intros (x & -> & Hx)%list_elem_of_fmap. destruct (HF x Hx) as [_ HF'].
          by rewrite lookup_insert_eq in HF'. }
        destruct HM as [HM|]; [|done]. split_and!; [done | done | | done | done | done].
        intros x Hx. destruct (HF x Hx) as [? HF']. split; [done|].
        by rewrite lookup_insert_None in HF'; destruct HF'.
      * intros ([_ HF] & [Hni HD] & ->). destruct HM as [HM|]; [|done]. split_and!; [| done | done].
        intros x Hx. destruct (HF x Hx) as [? ?]. split; [done|]. apply lookup_insert_None.
        split; [done|]. intros ->. apply Hni. apply list_elem_of_fmap. eauto.
    + split; [done|]. intros ([[Hv Hn] _] & _ & _).
      assert (HX : insert_handler n h r = Ok (<[n:=h]> r)) by (by apply insert_handler_Ok). congruence.
Qed.
End registration.

(** ** Lemmas: typed dispatch *)

Section typed.
Context {St J Value E : Type} `{!Job J}.
Context (from_slice_typed : bytes -> option (JobEnvelope J)).
Context (from_slice_raw : bytes -> option (JobEnvelope Value)).
Context (from_value : Value -> option J).
Context (handler : JobHandler St J E).

(** The handler runs once, on the decoded payload, with the provider's attempt. *)
Definition handled (e : JobEnvelope J) (attempt : Z) (st : St) :
    result DeliveryAction JobRegistryError * St :=
  let '(r, st') := handler (payload e) (context_from_envelope (set_attempt attempt e)) st in
  (match r with Ok _ => Ok Acknowledge | Err _ => Err (HandlerFailed (id e) (name e)) end, st').

Lemma dispatch_envelope_eq e n st :
  n <> 0 -> dispatch_envelope handler (Ok e) n st = handled e n st.
Proof.
  intros Hn. unfold dispatch_envelope, with_attempt, handled, dispatch_job.
  rewrite (proj2 (Z.eqb_neq _ _)) by done. cbn [map_err]. change (payload (set_attempt n e)) with (payload e).
  destruct (handler _ _ _) as [[?|?] st']; done.
Qed.

(** Either decoder's handler, on every branch. *)
Lemma strict_handler_eq body n st :
  n <> 0 ->
  strict_handler from_slice_typed handler body n st =
    match decode from_slice_typed body with
    | Ok e => handled e n st
    | Err _ => (Err InvalidEnvelope, st)
    end.
Proof.
  intros Hn. unfold strict_handler. destruct (decode from_slice_typed body); [|done].
  by apply dispatch_envelope_eq.
Qed.

Lemma compatible_handler_eq {F} (up : Z -> Value -> result J F) body n st :
  n <> 0 ->
  compatible_handler from_slice_raw from_value handler up body n st =
    match decode_compatible from_slice_raw from_value body up with
    | Ok e => handled e n st
    | Err _ => (Err InvalidEnvelope, st)
    end.
Proof.
  intros Hn. unfold compatible_handler. destruct (decode_compatible _ _ _ _); [|done].
  by apply dispatch_envelope_eq.
Qed.

(** Acknowledged means handled: the worker acknowledges only a valid envelope whose
    handler returned success on it. *)
Lemma strict_acknowledged body n st a st' :
  n <> 0 -> strict_handler from_slice_typed handler body n st = (Ok a, st') ->
  a = Acknowledge /\
  exists e, decode from_slice_typed body = Ok e /\ valid_envelope e /\
    handler (payload e) (context_from_envelope (set_attempt n e)) st = (Ok tt, st').
Proof.
  intros Hn. rewrite strict_handler_eq by done.
  destruct (decode from_slice_typed body) as [e|] eqn:ED; [|done]. unfold handled.
  destruct (handler _ _ _) as [[[]|] st1] eqn:EH; [|done]. intros [= <- <-]. split; [done|].
  exists e. split_and!; [done | by apply decode_Ok in ED as (_ & _ & ?) | done].
Qed.
End typed.

(** ** Properties: registry *)

(** Registration is order independent and dispatch is exact. Handlers register
    successfully in one order exactly when they do in every order, with the same
    registry; their names are then valid and distinct. A delivery is rejected
    without touching any handler when its attempt is zero or its body is empty,
    over the size limit or without a name; otherwise the one handler registered
    under the body's name gets it, and with no such handler it is unknown. *)
Theorem registry_exact {St} (from_slice_identity : bytes -> option str)
    (regs : list (str * RegisteredJobHandler St)) r :
  register_all regs registry_new = Ok r ->
  (forall regs', regs' ≡ₚ regs -> register_all regs' registry_new = Ok r) /\
  Forall (fun x => is_valid_job_name x.1 = true) regs /\ NoDup regs.*1 /\
  forall body n st,
    registry_dispatch from_slice_identity r body n st =
      if n =? 0 then (Err RegistryInvalidAttempt, st)
      else if negb (nonempty body) || (MAX_JOB_ENVELOPE_BYTES <? List.length body)%nat
      then (Err InvalidEnvelope, st)
      else match from_slice_identity body with
           | None => (Err InvalidEnvelope, st)
           | Some job_name =>
               match List.find (fun x => str_eqb x.1 job_name) regs with
               | Some (_, h) => h body n st
               | None => (Err UnknownJob, st)
               end
           end.
Proof.
  intros HR. apply register_all_Ok in HR as (HF & HD & ->).
  split_and!.
  - intros regs' HP. apply register_all_Ok. split_and!.
    + by rewrite HP.
    + by rewrite HP.
    + f_equal. symmetry. apply list_to_map_proper; [|done]. by rewrite HP.
  - eapply Forall_impl; [exact HF|]. by intros x [? _].
  - done.
  - intros body n st. unfold registry_dispatch, registry_new. rewrite (right_id_L ∅ (∪)).
    destruct (n =? 0); [done|]. destruct (negb _ || _); [done|].
    destruct (from_slice_identity body) as [job_name|]; [|done].
    destruct (List.find _ regs) as [[x h]|] eqn:EF.
    + apply List.find_some in EF as [Hin Hx]. apply str_eqb_true in Hx as <-. cbn [fst].
      rewrite (elem_of_list_to_map_1 regs x h); [done | done | by apply list_elem_of_In].
    + rewrite (not_elem_of_list_to_map_1 regs job_name); [done|].
      intros ([x h] & -> & Hin)%list_elem_of_fmap. apply list_elem_of_In in Hin.
      eapply List.find_none in EF; [|exact Hin]. cbn [fst] in EF.
      by rewrite (proj2 (str_eqb_true _ _)) in EF.
Qed.

(** A job that was enqueued is the job that is handled. Whatever body the client
    hands to the provider, a worker whose registry holds the strict handler of
    that job type runs exactly that handler, once, on the original payload, with
    the producer's metadata and the provider's attempt number, and acknowledges
    exactly when it succeeds. *)
Theorem enqueued_job_is_handled {St J Value E F Q : Type} `{!Job J, !JsonWriter (JobEnvelope J)}
    (from_slice_typed : bytes -> option (JobEnvelope J))
    (from_slice_raw : bytes -> option (JobEnvelope Value)) (from_value : Value -> option J)
    (from_slice_identity : bytes -> option str)
    `{!SerdeLaws from_slice_typed from_slice_raw from_value}
    (handler : JobHandler St J E) (r : gmap str (RegisteredJobHandler St))
    (publish : JobMessage -> Q -> result unit F * Q) (e : JobEnvelope J) q q' n st :
  (forall x, json_fails x = false -> from_slice_identity (concat (json_writes x)) = Some (name x)) ->
  concat (json_writes e) <> [] ->
  r !! NAME (J:=J) = Some (strict_handler from_slice_typed handler) -> n <> 0 ->
  enqueue publish e q = (Ok tt, q') ->
  exists m, message e = Ok m /\ msg_id m = id e /\ publish m q = (Ok tt, q') /\
    registry_dispatch from_slice_identity r (msg_payload m) n st = handled handler e n st.
Proof.
  intros HI Hw Hr Hn. unfold enqueue, message.
  destruct (encode e) as [body|] eqn:EE; [|done].
  destruct (publish _ q) as [[[]|] q1] eqn:EP; [|done]. intros [= <-].
  eexists. split; [reflexivity|]. split; [done|]. split; [done|]. cbn [msg_payload].
  pose proof (envelope_decodes from_slice_typed from_slice_raw from_value e body EE) as HD.
  apply encode_Ok in EE as (HV & Hf & -> & Hl).
  unfold registry_dispatch. rewrite (proj2 (Z.eqb_neq _ _)) by done.
  assert (nonempty (concat (json_writes e)) = true) as ->.
  { by destruct (concat (json_writes e)). }
  rewrite (proj2 (Nat.ltb_ge _ _)) by lia. cbn [negb orb]. rewrite HI by done.
  rewrite (proj1 (valid_name e HV)). unfold RegisteredJobHandler in *. rewrite Hr.
  rewrite strict_handler_eq by done. by rewrite HD.
Qed.

(** ** Examples *)

Module JobsExamples.
Import JobExamples.

Lemma retry_schedule_witness :
  exists delays, failing_job 6 retry_default 1 = Some delays /\ Z.of_nat (List.length delays) = 4.
Proof.
  destruct (retry_schedule retry_default 6) as (delays & HE & HS);
    [unfold policy_in_range, duration_max, u64_max, u16_max; simpl; lia
    | cbn [max_deliveries retry_default]; lia |].
  assert (HV : retry_is_valid retry_default = true) by reflexivity. rewrite HV in HS.
  destruct HS as [HL _]. exists delays. split; [exact HE|]. rewrite HL. reflexivity.
Defined.

(** The application counts the pixels it has produced. *)
Definition count (p : Z) (c : JobContext) (st : Z) : result unit unit * Z := (Ok tt, st + p * ctx_attempt c).
Definition strict : RegisteredJobHandler Z := strict_handler read count.
Definition identity (b : bytes) : option str := option_map name (read b).

Lemma registry_exact_witness :
  register_all [(##"b", strict); (##"a", strict)] registry_new =
  register_all [(##"a", strict); (##"b", strict)] registry_new.
Proof.
  destruct (register_all [(##"a", strict); (##"b", strict)] registry_new) as [r|e] eqn:E.
  - apply (proj1 (registry_exact identity _ r E)). apply perm_swap.
  - exfalso.
    assert (HX : exists r, register_all [(##"a", strict); (##"b", strict)] registry_new = Ok r); last first.
    { destruct HX as [r HX]. rewrite HX in E. discriminate E. }
    eexists. apply register_all_Ok. split_and!; [| | reflexivity].
    + repeat constructor; vm_compute; reflexivity.
    + repeat constructor; set_solver.
Defined.

Definition queue (m : JobMessage) (q : list JobMessage) : result unit unit * list JobMessage :=
  (Ok tt, m :: q).

Lemma first_nonempty : concat (json_writes first) <> [].
Proof.
  assert (HN : nonempty (concat (json_writes first)) = true) by (vm_compute; reflexivity).
  intros HC. by rewrite HC in HN.
Qed.

Lemma enqueued_job_is_handled_witness :
  exists m, message first = Ok m /\
    registry_dispatch identity (<[##"image.resize" := strict]> ∅) (msg_payload m) 3 0 =
      (Ok Acknowledge, 1920).
Proof.
  destruct first_encodes as [body HE].
  destruct (enqueued_job_is_handled read read Some identity count
    (<[##"image.resize" := strict]> ∅) queue first [] [
      {| msg_id := id first; msg_name := name first; msg_version := version first;
         msg_attempt := attempt first; msg_payload := body |}] 3 0) as (m & HM & _ & _ & HD).
  - intros x Hx. unfold identity. by rewrite (typed_roundtrip (SerdeLaws := laws)).
  - exact first_nonempty.
  - apply lookup_insert_eq.
  - lia.
  - unfold enqueue, message. by rewrite HE.
  - exists m. split; [done|]. rewrite HD. vm_compute. reflexivity.
Defined.
End JobsExamples.
