(* ===== verification/Events.v ===== *)
(** Versioned event envelopes: [crates/rustee-events/src/envelope.rs], its submodules
    [codec.rs], [compatibility.rs] and [trace.rs], the provider message and client of
    [publisher.rs], [handler.rs] and the delivery observation of [delivery.rs].

    The serde-derived decoders of the envelope records are parameters of the section;
    [EventSerdeLaws] states what the derives document. *)

From Stdlib Require Import ZArith Lia Bool Ascii.
From stdpp Require countable.
From S2P Require Import Prelude Strings Uuid Json.

Local Open Scope Z_scope.

(** ** Event messages: [crates/rustee-events/src/publisher.rs] *)

Definition MAX_EVENT_ENVELOPE_BYTES : nat := 1024 * 1024.
Definition MAX_EVENT_PARTITION_KEY_BYTES : nat := MAX_EVENT_ENVELOPE_BYTES.
Definition MAX_EVENT_TYPE_BYTES : nat := 255.
Definition NUL : ascii := byte_of 0.

Definition is_valid_event_type (event_type : str) : bool :=
  negb (is_blank event_type)
  && (List.length event_type <=? MAX_EVENT_TYPE_BYTES)%nat
  && negb (contains_char NUL event_type).

Record EventMessage : Type := {
  ev_id : Uuid;
  ev_type : str;
  ev_version : Z;
  ev_key : str;
  ev_payload : bytes
}.

Inductive EventMessageError : Type :=
| BlankEventType
| EventTypeTooLarge
| InvalidEventType
| BlankKey
| KeyTooLarge
| EventEmptyPayload
| EventPayloadTooLarge.

Definition event_from_parts (i : Uuid) (event_type : str) (v : Z) (key : str) (body : bytes) :
    result EventMessage EventMessageError :=
  if negb (is_valid_event_type event_type) then
    if is_blank event_type then Err BlankEventType
    else if (MAX_EVENT_TYPE_BYTES <? List.length event_type)%nat then Err EventTypeTooLarge
    else Err InvalidEventType
  else if is_blank key then Err BlankKey
  else if (MAX_EVENT_PARTITION_KEY_BYTES <? List.length key)%nat then Err KeyTooLarge
  else if negb (nonempty body) then Err EventEmptyPayload
  else if (MAX_EVENT_ENVELOPE_BYTES <? List.length body)%nat then Err EventPayloadTooLarge
  else Ok {| ev_id := i; ev_type := event_type; ev_version := v; ev_key := key; ev_payload := body |}.

(** ** The event trait and its errors *)

(** The stable type and the schema version of an event. *)
Class Event (E : Type) : Type := { TYPE : str; EVENT_VERSION : Z }.

Definition MAX_EVENT_METADATA_ID_BYTES : nat := 255.
Definition MAX_EVENT_TRACEPARENT_LEN : nat := 512.
Definition MAX_EVENT_TRACESTATE_LEN : nat := 512.

Inductive EventEnvelopeError : Type :=
| EventSerialize
| EventDeserialize
| EventTooLarge
| UnexpectedEventType (expected actual : str)
| EnvelopeInvalidEventType
| EventUnsupportedVersion (expected actual : Z)
| EnvelopeBlankKey
| EnvelopeKeyTooLarge
| BlankCorrelationId
| CorrelationIdTooLarge
| BlankCausationId
| CausationIdTooLarge
| EventInvalidTraceContext.

(** ** Trace contexts: [envelope/trace.rs] *)

Record EventTraceContext : Type := { event_traceparent : str; event_tracestate : option str }.

Definition event_trace_validate (t : EventTraceContext) : result unit EventEnvelopeError :=
  if is_blank (event_traceparent t)
     || negb (forallb is_ascii (event_traceparent t))
     || (MAX_EVENT_TRACEPARENT_LEN <? List.length (event_traceparent t))%nat
     || match event_tracestate t with
        | None => false
        | Some v =>
            is_blank v || negb (forallb is_ascii v) || (MAX_EVENT_TRACESTATE_LEN <? List.length v)%nat
        end
  then Err EventInvalidTraceContext
  else Ok tt.

Definition event_trace_new (parent : str) (state : option str) : result EventTraceContext EventEnvelopeError :=
  let context := {| event_traceparent := parent; event_tracestate := state |} in
  let? _ := event_trace_validate context in
  Ok context.

(** [SerializedEventTraceContext] has the same fields. *)
Definition event_trace_from_serialized (t : EventTraceContext) : result EventTraceContext EventEnvelopeError :=
  event_trace_new (event_traceparent t) (event_tracestate t).

(** ** Metadata: [envelope.rs] *)

Definition event_identifier (value : option str) (blank_error too_large_error : EventEnvelopeError) :
    result unit EventEnvelopeError :=
  match value with
  | None => Ok tt
  | Some v =>
      if is_blank v then Err blank_error
      else if (MAX_EVENT_METADATA_ID_BYTES <? List.length v)%nat then Err too_large_error
      else Ok tt
  end.

Definition validate_partition_key (key : str) : result unit EventEnvelopeError :=
  if is_blank key then Err EnvelopeBlankKey
  else if (MAX_EVENT_PARTITION_KEY_BYTES <? List.length key)%nat then Err EnvelopeKeyTooLarge
  else Ok tt.

Definition validate_event_type (event_type : str) : result unit EventEnvelopeError :=
  if negb (is_valid_event_type event_type) then Err EnvelopeInvalidEventType else Ok tt.

Definition event_validate_metadata (E : Type) `{!Event E} (event_type key : str)
    (correlation_id causation_id : option str) (trace_context : option EventTraceContext) :
    result unit EventEnvelopeError :=
  if negb (str_eqb event_type (TYPE (E:=E))) then Err (UnexpectedEventType (TYPE (E:=E)) event_type)
  else
    let? _ := validate_event_type event_type in
    let? _ := validate_partition_key key in
    let? _ := event_identifier correlation_id BlankCorrelationId CorrelationIdTooLarge in
    let? _ := event_identifier causation_id BlankCausationId CausationIdTooLarge in
    match trace_context with
    | Some t => event_trace_validate t
    | None => Ok tt
    end.

(** ** Envelopes

    [EventEnvelope<E>]; [SerializedEventEnvelope<E>] and [RawEventEnvelope] are the same
    record, the latter with the payload still a JSON value. *)

Record EventEnvelope (E : Type) : Type := {
  ee_id : Uuid;
  ee_type : str;
  ee_version : Z;
  ee_key : str;
  ee_payload : E;
  occurred_at_unix_ms : Z;
  correlation_id : option str;
  causation_id : option str;
  ee_trace : option EventTraceContext
}.
Arguments ee_id {E}. Arguments ee_type {E}. Arguments ee_version {E}. Arguments ee_key {E}.
Arguments ee_payload {E}. Arguments occurred_at_unix_ms {E}. Arguments correlation_id {E}.
Arguments causation_id {E}. Arguments ee_trace {E}.

Section envelope.
Context {E : Type} `{!Event E}.

Definition event_with_metadata (i : Uuid) (p : E) (key : str) (occurred : Z) :
    result (EventEnvelope E) EventEnvelopeError :=
  let? _ := validate_event_type (TYPE (E:=E)) in
  let? _ := validate_partition_key key in
  Ok {| ee_id := i; ee_type := TYPE (E:=E); ee_version := EVENT_VERSION (E:=E); ee_key := key; ee_payload := p;
        occurred_at_unix_ms := occurred; correlation_id := None; causation_id := None; ee_trace := None |}.

(** [new]: the random identifier and the clock are given. *)
Definition event_new (fresh : Uuid) (now : Z) (p : E) (key : str) : result (EventEnvelope E) EventEnvelopeError :=
  event_with_metadata fresh p key now.

Definition set_metadata (corr caus : option str) (t : option EventTraceContext) (e : EventEnvelope E) :
    EventEnvelope E :=
  {| ee_id := ee_id e; ee_type := ee_type e; ee_version := ee_version e; ee_key := ee_key e;
     ee_payload := ee_payload e; occurred_at_unix_ms := occurred_at_unix_ms e; correlation_id := corr;
     causation_id := caus; ee_trace := t |}.

Definition with_correlation_id (c : str) (e : EventEnvelope E) : result (EventEnvelope E) EventEnvelopeError :=
  let? _ := event_identifier (Some c) BlankCorrelationId CorrelationIdTooLarge in
  Ok (set_metadata (Some c) (causation_id e) (ee_trace e) e).
Definition with_causation_id (c : str) (e : EventEnvelope E) : result (EventEnvelope E) EventEnvelopeError :=
  let? _ := event_identifier (Some c) BlankCausationId CausationIdTooLarge in
  Ok (set_metadata (correlation_id e) (Some c) (ee_trace e) e).
Definition event_with_trace_context (t : EventTraceContext) (e : EventEnvelope E) : EventEnvelope E :=
  set_metadata (correlation_id e) (causation_id e) (Some t) e.

Definition event_validate (e : EventEnvelope E) : result unit EventEnvelopeError :=
  let? _ := event_validate_metadata E (ee_type e) (ee_key e) (correlation_id e) (causation_id e) (ee_trace e) in
  if negb (ee_version e =? EVENT_VERSION (E:=E))
  then Err (EventUnsupportedVersion (EVENT_VERSION (E:=E)) (ee_version e))
  else Ok tt.

Definition event_from_serialized (s : EventEnvelope E) : result (EventEnvelope E) EventEnvelopeError :=
  let? t := transpose (option_map event_trace_from_serialized (ee_trace s)) in
  let envelope := set_metadata (correlation_id s) (causation_id s) t s in
  let? _ := event_validate envelope in
  Ok envelope.

(** [codec.rs]. *)
Definition event_codec_encode {T} `{!JsonWriter T} (value : T) : result bytes EventEnvelopeError :=
  match to_vec_bounded value MAX_EVENT_ENVELOPE_BYTES with
  | Ok encoded => Ok encoded
  | Err Json.TooLarge => Err EventTooLarge
  | Err SerializeError => Err EventSerialize
  end.
Definition validate_event_bytes (body : bytes) : result unit EventEnvelopeError :=
  if (MAX_EVENT_ENVELOPE_BYTES <? List.length body)%nat then Err EventTooLarge else Ok tt.

Definition event_encode `{!JsonWriter (EventEnvelope E)} (e : EventEnvelope E) : result bytes EventEnvelopeError :=
  event_codec_encode e.

Definition event_message `{!JsonWriter (EventEnvelope E)} (e : EventEnvelope E) :
    result EventMessage EventEnvelopeError :=
  let? body := event_encode e in
  Ok {| ev_id := ee_id e; ev_type := ee_type e; ev_version := ee_version e; ev_key := ee_key e; ev_payload := body |}.

(** [serde_json::from_slice] at the two record types and [from_value] at the payload. *)
Context {Value : Type}.
Context (from_slice_typed : bytes -> option (EventEnvelope E)).
Context (from_slice_raw : bytes -> option (EventEnvelope Value)).
Context (from_value : Value -> option E).

Definition event_decode (body : bytes) : result (EventEnvelope E) EventEnvelopeError :=
  let? _ := validate_event_bytes body in
  match from_slice_typed body with
  | None => Err EventDeserialize
  | Some s => event_from_serialized s
  end.

(** [compatibility.rs]. *)
Inductive EventCompatibleDecodeError (UE : Type) : Type :=
| EventEnvelopeFailed (e : EventEnvelopeError)
| EventPayloadFailed
| EventUpcasterFailed (e : UE).
Arguments EventEnvelopeFailed {UE}. Arguments EventPayloadFailed {UE}. Arguments EventUpcasterFailed {UE}.

Definition event_decode_compatible {UE : Type} (body : bytes) (upcast : Z -> Value -> result E UE) :
    result (EventEnvelope E) (EventCompatibleDecodeError UE) :=
  let? _ := map_err EventEnvelopeFailed (validate_event_bytes body) in
  match from_slice_raw body with
  | None => Err (EventEnvelopeFailed EventDeserialize)
  | Some raw =>
      let? t := map_err EventEnvelopeFailed (transpose (option_map event_trace_from_serialized (ee_trace raw))) in
      let? _ := map_err EventEnvelopeFailed
                  (event_validate_metadata E (ee_type raw) (ee_key raw) (correlation_id raw) (causation_id raw) t) in
      if EVENT_VERSION (E:=E) <? ee_version raw
      then Err (EventEnvelopeFailed (EventUnsupportedVersion (EVENT_VERSION (E:=E)) (ee_version raw)))
      else
        let? p := (if ee_version raw =? EVENT_VERSION (E:=E)
                   then ok_or (from_value (ee_payload raw)) EventPayloadFailed
                   else map_err EventUpcasterFailed (upcast (ee_version raw) (ee_payload raw))) in
        Ok {| ee_id := ee_id raw; ee_type := ee_type raw; ee_version := EVENT_VERSION (E:=E); ee_key := ee_key raw;
              ee_payload := p; occurred_at_unix_ms := occurred_at_unix_ms raw;
              correlation_id := correlation_id raw; causation_id := causation_id raw; ee_trace := t |}
  end.

(** ** Clients and handlers: [publisher.rs], [handler.rs] *)

Inductive PublishError (PE : Type) : Type :=
| PublishEnvelope (e : EventEnvelopeError)
| PublishProvider (e : PE).
Arguments PublishEnvelope {PE}. Arguments PublishProvider {PE}.

(** [EventClient::publish] with a provider over a state. *)
Definition client_publish {S PE} `{!JsonWriter (EventEnvelope E)} (publish : EventMessage -> S -> result unit PE * S)
    (e : EventEnvelope E) (s : S) : result unit (PublishError PE) * S :=
  match event_message e with
  | Err er => (Err (PublishEnvelope er), s)
  | Ok m => let '(r, s) := publish m s in (map_err PublishProvider r, s)
  end.

Record EventContext : Type := {
  ec_id : Uuid;
  ec_type : str;
  ec_version : Z;
  ec_key : str;
  ec_correlation_id : option str;
  ec_causation_id : option str;
  ec_trace : option EventTraceContext
}.
Definition context_from_envelope (e : EventEnvelope E) : EventContext :=
  {| ec_id := ee_id e; ec_type := ee_type e; ec_version := ee_version e; ec_key := ee_key e;
     ec_correlation_id := correlation_id e; ec_causation_id := causation_id e; ec_trace := ee_trace e |}.

(** [dispatch] with a handler over a state. *)
Definition event_dispatch {S HE} (handler : E -> EventContext -> S -> result unit HE * S)
    (e : EventEnvelope E) : S -> result unit HE * S :=
  handler (ee_payload e) (context_from_envelope e).
End envelope.
Arguments EventEnvelopeFailed {UE}. Arguments EventPayloadFailed {UE}. Arguments EventUpcasterFailed {UE}.
Arguments PublishEnvelope {PE}. Arguments PublishProvider {PE}.

(** ** Delivery observation: [delivery.rs] *)

Inductive EventDeliveryOutcome : Type := Acknowledged | Retried | DeadLettered | Unsettled.
Definition event_outcome_as_str (o : EventDeliveryOutcome) : str :=
  match o with
  | Acknowledged => ##"acknowledged"
  | Retried => ##"retried"
  | DeadLettered => ##"dead_lettered"
  | Unsettled => ##"unsettled"
  end.

(** What an observer is told; panics of an observer are caught and durations left out. *)
Inductive EventObservation : Type :=
| EventDeliveryStarted (provider : str)
| EventDeliveryFinished (provider : str) (attempt : option Z) (outcome : EventDeliveryOutcome).

(** [start], then [finish] or, when it is dropped without one, [Drop]. *)
Definition observe_delivery (provider : str) (finished : option (option Z * EventDeliveryOutcome)) :
    list EventObservation :=
  [EventDeliveryStarted provider;
   match finished with
   | Some (attempt, outcome) => EventDeliveryFinished provider attempt outcome
   | None => EventDeliveryFinished provider None Unsettled
   end].

(** ** Documented serde behaviour *)

(** The typed decoder reads back what the derived encoder writes and nothing from an empty
    body; what it accepts, the untyped decoder accepts with the same metadata and a payload
    value that converts. *)
Class EventSerdeLaws {E Value : Type} `{!JsonWriter (EventEnvelope E)}
    (from_slice_typed : bytes -> option (EventEnvelope E))
    (from_slice_raw : bytes -> option (EventEnvelope Value))
    (from_value : Value -> option E) : Prop := {
  event_typed_roundtrip e :
    json_fails e = false -> from_slice_typed (concat (json_writes e)) = Some e;
  event_empty_rejected : from_slice_typed [] = None;
  event_typed_raw body s :
    from_slice_typed body = Some s ->
    exists raw, from_slice_raw body = Some raw /\ from_value (ee_payload raw) = Some (ee_payload s) /\
      ee_id raw = ee_id s /\ ee_type raw = ee_type s /\ ee_version raw = ee_version s /\ ee_key raw = ee_key s /\
      occurred_at_unix_ms raw = occurred_at_unix_ms s /\ correlation_id raw = correlation_id s /\
      causation_id raw = causation_id s /\ ee_trace raw = ee_trace s
}.

(** ** Lemmas: validation *)

Definition bounded_identifier (v : option str) : Prop :=
  match v with
  | Some v => is_blank v = false /\ (List.length v <= MAX_EVENT_METADATA_ID_BYTES)%nat
  | None => True
  end.
Definition valid_event_trace (t : option EventTraceContext) : Prop :=
  match t with Some t => event_trace_validate t = Ok tt | None => True end.

Lemma event_identifier_Ok v a b : event_identifier v a b = Ok tt <-> bounded_identifier v.
Proof.
  unfold event_identifier, bounded_identifier. destruct v as [v|]; [|done].
  destruct (is_blank v); [naive_solver|].
  destruct (Nat.ltb_spec MAX_EVENT_METADATA_ID_BYTES (List.length v)); [|done].
  split; [done | intros [_ ?]; lia].
Qed.

Lemma validate_event_type_Ok t : validate_event_type t = Ok tt <-> is_valid_event_type t = true.
Proof. unfold validate_event_type. by destruct (is_valid_event_type t). Qed.

Definition valid_key (key : str) : Prop :=
  is_blank key = false /\ (List.length key <= MAX_EVENT_PARTITION_KEY_BYTES)%nat.
Lemma validate_partition_key_Ok key : validate_partition_key key = Ok tt <-> valid_key key.
Proof.
  unfold validate_partition_key, valid_key. destruct (is_blank key); [naive_solver|].
  destruct (Nat.ltb_spec MAX_EVENT_PARTITION_KEY_BYTES (List.length key)); [|done].
  split; [done | intros [_ ?]; lia].
Qed.

Lemma event_trace_transpose o t :
  transpose (option_map event_trace_from_serialized o) = Ok t <-> t = o /\ valid_event_trace o.
Proof.
  destruct o as [[p st]|]; simpl; [|naive_solver]. unfold event_trace_from_serialized, event_trace_new. simpl.
  destruct (event_trace_validate _) as [[]|]; naive_solver.
Qed.

Lemma result_unit_Ok {X} (r : result unit X) (P : Prop) : (r = Ok tt <-> P) -> r = Ok tt /\ P \/ (exists e, r = Err e) /\ ~ P.
Proof. destruct r as [[]|e]; naive_solver. Qed.

Section validity.
Context {E : Type} `{!Event E}.

(** What every admitted envelope satisfies. *)
Record valid_event (e : EventEnvelope E) : Prop := {
  ve_type : ee_type e = TYPE (E:=E) /\ is_valid_event_type (ee_type e) = true;
  ve_version : ee_version e = EVENT_VERSION (E:=E);
  ve_key : valid_key (ee_key e);
  ve_correlation : bounded_identifier (correlation_id e);
  ve_causation : bounded_identifier (causation_id e);
  ve_trace : valid_event_trace (ee_trace e)
}.

Lemma event_validate_metadata_Ok t k c d tr :
  event_validate_metadata E t k c d tr = Ok tt <->
  (t = TYPE (E:=E) /\ is_valid_event_type t = true) /\ valid_key k /\ bounded_identifier c /\
  bounded_identifier d /\ valid_event_trace tr.
Proof.
  unfold event_validate_metadata. destruct (str_eqb t (TYPE (E:=E))) eqn:Et; cbn [negb].
  2:{ apply bool_decide_eq_false in Et. naive_solver. }
  apply str_eqb_true in Et.
  destruct (result_unit_Ok _ _ (validate_event_type_Ok t)) as [[-> ?]|[[? ->] ?]]; [|naive_solver].
  destruct (result_unit_Ok _ _ (validate_partition_key_Ok k)) as [[-> ?]|[[? ->] ?]]; [|naive_solver].
  destruct (result_unit_Ok _ _ (event_identifier_Ok c BlankCorrelationId CorrelationIdTooLarge))
    as [[-> ?]|[[? ->] ?]]; [|naive_solver].
  destruct (result_unit_Ok _ _ (event_identifier_Ok d BlankCausationId CausationIdTooLarge))
    as [[-> ?]|[[? ->] ?]]; [|naive_solver].
  destruct tr; unfold valid_event_trace; naive_solver.
Qed.

Lemma event_validate_Ok e : event_validate e = Ok tt <-> valid_event e.
Proof.
  unfold event_validate.
  destruct (result_unit_Ok _ _ (event_validate_metadata_Ok (ee_type e) (ee_key e) (correlation_id e)
    (causation_id e) (ee_trace e))) as [[-> HM]|[[? ->] HM]].
  - destruct (Z.eqb_spec (ee_version e) (EVENT_VERSION (E:=E))); cbn [negb].
    + split; [intros _; split; tauto | done].
    + split; [done|]. by intros [].
  - split; [done|]. intros []. tauto.
Qed.

Lemma event_from_serialized_Ok s e : event_from_serialized s = Ok e <-> e = s /\ valid_event s.
Proof.
  unfold event_from_serialized.
  destruct (transpose (option_map event_trace_from_serialized (ee_trace s))) as [t|x] eqn:ET.
  - apply event_trace_transpose in ET as [-> Ht].
    assert (set_metadata (correlation_id s) (causation_id s) (ee_trace s) s = s) as -> by (by destruct s).
    rewrite <- event_validate_Ok. destruct (event_validate s) as [[]|]; naive_solver.
  - split; [done|]. intros [_ Hv].
    assert (transpose (option_map event_trace_from_serialized (ee_trace s)) = Ok (ee_trace s))
      by (apply event_trace_transpose; split; [done | apply Hv]).
    congruence.
Qed.

Lemma event_encode_Ok `{!JsonWriter (EventEnvelope E)} e body :
  event_encode e = Ok body <->
  json_fails e = false /\ body = concat (json_writes e) /\ (List.length body <= MAX_EVENT_ENVELOPE_BYTES)%nat.
Proof.
  unfold event_encode, event_codec_encode. rewrite (proj1 (to_vec_bounded_facts e MAX_EVENT_ENVELOPE_BYTES)).
  destruct (_ <=? MAX_EVENT_ENVELOPE_BYTES)%nat eqn:El; [apply Nat.leb_le in El | apply Nat.leb_gt in El].
  - destruct (json_fails e); [naive_solver|]. split; [intros [= <-]; done | naive_solver].
  - split; [done|]. intros (_ & -> & ?). lia.
Qed.

Context {Value : Type}.
Context (from_slice_typed : bytes -> option (EventEnvelope E)).
Context (from_slice_raw : bytes -> option (EventEnvelope Value)).
Context (from_value : Value -> option E).

Lemma event_decode_Ok body e :
  event_decode from_slice_typed body = Ok e <->
  (List.length body <= MAX_EVENT_ENVELOPE_BYTES)%nat /\ from_slice_typed body = Some e /\ valid_event e.
Proof.
  clear from_slice_raw from_value. unfold event_decode, validate_event_bytes.
  destruct (Nat.ltb_spec MAX_EVENT_ENVELOPE_BYTES (List.length body)).
  { split; [done|]. intros [? _]. lia. }
  destruct (from_slice_typed body) as [s|]; [|naive_solver]. rewrite event_from_serialized_Ok. naive_solver.
Qed.

(** What an accepted compatible decoding rests on. *)
Lemma event_decode_compatible_Ok {UE} (up : Z -> Value -> result E UE) body e :
  event_decode_compatible from_slice_raw from_value body up = Ok e ->
  valid_event e /\
  exists raw, from_slice_raw body = Some raw /\ ee_version raw <= EVENT_VERSION (E:=E) /\
    (ee_version raw < EVENT_VERSION (E:=E) -> up (ee_version raw) (ee_payload raw) = Ok (ee_payload e)) /\
    ee_id e = ee_id raw /\ ee_key e = ee_key raw /\ correlation_id e = correlation_id raw /\
    causation_id e = causation_id raw /\ ee_trace e = ee_trace raw.
Proof.
  unfold event_decode_compatible. destruct (validate_event_bytes body); [|done]. cbn [map_err].
  destruct (from_slice_raw body) as [raw|] eqn:ER; [|done].
  destruct (transpose _) as [t|] eqn:Et; [|done]. apply event_trace_transpose in Et as [-> Ht]. cbn [map_err].
  destruct (event_validate_metadata E _ _ _ _ _) as [[]|] eqn:Em; [|done].
  apply event_validate_metadata_Ok in Em. cbn [map_err].
  destruct (Z.ltb_spec (EVENT_VERSION (E:=E)) (ee_version raw)); [done|].
  destruct (Z.eqb_spec (ee_version raw) (EVENT_VERSION (E:=E))).
  - destruct (from_value (ee_payload raw)) as [p|] eqn:Ep; [|done]. intros [= <-].
    split; [split; simpl; tauto|]. exists raw. simpl. split_and!; try done. lia.
  - destruct (up (ee_version raw) (ee_payload raw)) as [p|] eqn:Ep; [|done].
    intros [= <-]. split; [split; simpl; tauto|]. exists raw. simpl. split_and!; done.
Qed.

(** ** Envelopes that can be held *)

Inductive event_reachable : EventEnvelope E -> Prop :=
| er_new i p key t e : event_with_metadata i p key t = Ok e -> event_reachable e
| er_decode body e : event_decode from_slice_typed body = Ok e -> event_reachable e
| er_decode_compatible UE (up : Z -> Value -> result E UE) body e :
    event_decode_compatible from_slice_raw from_value body up = Ok e -> event_reachable e
| er_correlation c e e' : event_reachable e -> with_correlation_id c e = Ok e' -> event_reachable e'
| er_causation c e e' : event_reachable e -> with_causation_id c e = Ok e' -> event_reachable e'
| er_trace p st t e : event_reachable e -> event_trace_new p st = Ok t -> event_reachable (event_with_trace_context t e).

Lemma event_reachable_valid e : event_reachable e -> valid_event e.
Proof.
  induction 1 as [i p key t e HE|body e HD|UE up body e HD|c e e' _ IH HE|c e e' _ IH HE|p st t e _ IH HT].
  - unfold event_with_metadata in HE.
    destruct (result_unit_Ok _ _ (validate_event_type_Ok (TYPE (E:=E)))) as [[HT ?]|[[? HT] ?]]; rewrite HT in HE; [|done].
    destruct (result_unit_Ok _ _ (validate_partition_key_Ok key)) as [[HK ?]|[[? HK] ?]]; rewrite HK in HE; [|done].
    injection HE as <-. by split.
  - by apply event_decode_Ok in HD as (_ & _ & ?).
  - by apply event_decode_compatible_Ok in HD as [? _].
  - unfold with_correlation_id in HE.
    destruct (result_unit_Ok _ _ (event_identifier_Ok (Some c) BlankCorrelationId CorrelationIdTooLarge))
      as [[HI ?]|[[? HI] ?]]; rewrite HI in HE; [|done]. injection HE as <-. destruct IH. by split.
  - unfold with_causation_id in HE.
    destruct (result_unit_Ok _ _ (event_identifier_Ok (Some c) BlankCausationId CausationIdTooLarge))
      as [[HI ?]|[[? HI] ?]]; rewrite HI in HE; [|done]. injection HE as <-. destruct IH. by split.
  - unfold event_trace_new in HT. destruct (event_trace_validate _) as [[]|] eqn:EV; [|done].
    injection HT as <-. destruct IH. by split.
Qed.

Context `{!JsonWriter (EventEnvelope E)} `{!EventSerdeLaws from_slice_typed from_slice_raw from_value}.

Lemma event_roundtrip e body : event_reachable e -> event_encode e = Ok body -> event_decode from_slice_typed body = Ok e.
Proof.
  intros HR (Hf & -> & Hl)%event_encode_Ok. apply event_decode_Ok.
  split_and!; [done | by apply event_typed_roundtrip | by apply event_reachable_valid].
Qed.

Lemma event_decode_compatible_strict {UE} (up : Z -> Value -> result E UE) body e :
  event_decode from_slice_typed body = Ok e ->
  event_decode_compatible from_slice_raw from_value body up = Ok e.
Proof.
  intros (El & Hs & HV)%event_decode_Ok.
  destruct (event_typed_raw body e Hs) as (raw & HR & Hp & H1' & H2' & H3' & H4' & H5' & H6' & H7' & H8').
  unfold event_decode_compatible, validate_event_bytes. rewrite (proj2 (Nat.ltb_ge _ _)) by lia.
  cbn [map_err]. rewrite HR, H8'.
  assert (HT : transpose (option_map event_trace_from_serialized (ee_trace e)) = Ok (ee_trace e))
    by (apply event_trace_transpose; split; [done | apply HV]).
  rewrite HT. cbn [map_err]. rewrite H2', H4', H6', H7'.
  assert (HM : event_validate_metadata E (ee_type e) (ee_key e) (correlation_id e) (causation_id e) (ee_trace e) = Ok tt)
    by (apply event_validate_metadata_Ok; destruct HV; tauto).
  rewrite HM. cbn [map_err].
  rewrite H3', (ve_version e HV), Z.ltb_irrefl, Z.eqb_refl, Hp, H1', H5'. cbn [ok_or].
  destruct e; simpl in *. do 2 f_equal. symmetry. apply HV.
Qed.

Lemma event_parts_Ok m :
  is_valid_event_type (ev_type m) = true -> valid_key (ev_key m) -> ev_payload m <> [] ->
  (List.length (ev_payload m) <= MAX_EVENT_ENVELOPE_BYTES)%nat ->
  event_from_parts (ev_id m) (ev_type m) (ev_version m) (ev_key m) (ev_payload m) = Ok m.
Proof.
  intros HT [HB HK] HN HL. unfold event_from_parts. rewrite HT, HB. cbn [negb].
  rewrite (proj2 (Nat.ltb_ge _ _)) by lia. destruct m as [i t v k [|b p]]; [done|]. cbn [nonempty negb ev_payload] in *.
  by rewrite (proj2 (Nat.ltb_ge _ _)) by lia.
Qed.

(** An event that was published is the event that is handled. Whatever envelope was
    built, decoded or upcast and then published, its message passes the checks of durable
    relays, and its body decodes, strictly and compatibly, to that very envelope, so that
    the handler receives the same payload with the same identity, key, correlation and
    trace. Publishing fails only in the serializer, on size or in the provider. *)
Theorem published_event_is_handled {S PE UE HE T} (publish : EventMessage -> S -> result unit PE * S)
    (up : Z -> Value -> result E UE) (handler : E -> EventContext -> T -> result unit HE * T) e s s' r :
  event_reachable e -> client_publish publish e s = (r, s') ->
  match r with
  | Err (PublishEnvelope er) => s' = s /\ (er = EventSerialize \/ er = EventTooLarge)
  | Err (PublishProvider pe) => exists m, publish m s = (Err pe, s')
  | Ok _ => exists m, publish m s = (Ok tt, s') /\
      event_from_parts (ev_id m) (ev_type m) (ev_version m) (ev_key m) (ev_payload m) = Ok m /\
      ev_id m = ee_id e /\ ev_key m = ee_key e /\
      event_decode from_slice_typed (ev_payload m) = Ok e /\
      event_decode_compatible from_slice_raw from_value (ev_payload m) up = Ok e /\
      (forall t, option_map (fun d => event_dispatch handler d t)
                   (match event_decode from_slice_typed (ev_payload m) with Ok d => Some d | Err _ => None end)
                 = Some (handler (ee_payload e) (context_from_envelope e) t))
  end.
Proof.
  intros HR. unfold client_publish, event_message.
  destruct (event_encode e) as [body|er] eqn:EB; cbn.
  2:{ intros [= <- <-]. split; [done|]. unfold event_encode, event_codec_encode in EB.
      destruct (to_vec_bounded _ _) as [|[]]; naive_solver. }
  set (m := {| ev_id := _ |}). destruct (publish m s) as [[[]|pe] s1] eqn:EP; cbn; intros [= <- <-]; [|by exists m].
  pose proof (event_roundtrip e body HR EB) as HD. destruct (event_reachable_valid e HR).
  apply event_encode_Ok in EB as (Hf & Hb & Hl). exists m. split_and!; try done.
  - apply event_parts_Ok; [apply ve_type0 | done | | done]. cbn. intros ->.
    apply event_decode_Ok in HD as (_ & HD & _). by rewrite event_empty_rejected in HD.
  - by apply event_decode_compatible_strict.
  - intros t. cbn [ev_payload m]. by rewrite HD.
Qed.
End validity.

(** ** Examples *)

Module EventExamples.
Import BitCodec.
#[export] Instance paid : Event Z := { TYPE := ##"order.paid"; EVENT_VERSION := 1 }.

Definition fields : Type :=
  (Z * str * Z * str * Z * Z * option str * option str * option (str * option str))%type.
Definition to_fields (e : EventEnvelope Z) : fields :=
  (ee_id e, ee_type e, ee_version e, ee_key e, ee_payload e, occurred_at_unix_ms e, correlation_id e, causation_id e,
   option_map (fun t => (event_traceparent t, event_tracestate t)) (ee_trace e)).
Definition of_fields (f : fields) : EventEnvelope Z :=
  let '(i, n, v, k, p, q, a, b, t) := f in
  {| ee_id := i; ee_type := n; ee_version := v; ee_key := k; ee_payload := p; occurred_at_unix_ms := q;
     correlation_id := a; causation_id := b;
     ee_trace := option_map (fun '(x, y) => {| event_traceparent := x; event_tracestate := y |}) t |}.

#[export] Instance event_writer : JsonWriter (EventEnvelope Z) := {|
  json_writes e := [ ##"{"; bits (countable.encode (to_fields e))];
  json_fails _ := false
|}.
Definition read (body : bytes) : option (EventEnvelope Z) :=
  match body with
  | [] => None
  | _ :: body => option_map of_fields (countable.decode (A := fields) (of_bits body))
  end.

Lemma event_of_to_fields e : of_fields (to_fields e) = e.
Proof. by destruct e as [i n v k p q a b [[x y]|]]. Qed.

#[export] Instance event_laws : EventSerdeLaws read read Some.
Proof.
  split; [|done|].
  - intros e _. unfold read. cbn [json_writes event_writer concat lit app]. change (##"{" ++ ?x) with ("{"%char :: x).
    cbv match. rewrite app_nil_r, of_bits_bits, countable.decode_encode. simpl. f_equal. apply event_of_to_fields.
  - intros body s Hs. exists s. by split_and!.
Qed.

Definition first : EventEnvelope Z :=
  {| ee_id := 7; ee_type := ##"order.paid"; ee_version := 1; ee_key := ##"customer"; ee_payload := 640;
     occurred_at_unix_ms := 1700000000000; correlation_id := None; causation_id := None; ee_trace := None |}.
Lemma event_first_reachable : event_reachable read read Some first.
Proof. apply (er_new _ _ _ 7 640 ##"customer" 1700000000000). reflexivity. Qed.

Definition record (m : EventMessage) (sent : list EventMessage) : result unit unit * list EventMessage :=
  (Ok tt, sent ++ [m]).
Definition older (_ : Z) (v : Z) : result Z unit := Ok (v * 2).
Definition handle (p : Z) (_ : EventContext) (seen : list Z) : result unit unit * list Z := (Ok tt, seen ++ [p]).

Lemma published_event_is_handled_witness :
  exists m, record m [] = (Ok tt, [m]) /\ event_decode read (ev_payload m) = Ok first.
Proof.
  destruct (client_publish record first []) as [r s] eqn:EC.
  assert (HR : r = Ok tt) by (change r with (r, s).1; rewrite <- EC; vm_compute; reflexivity).
  pose proof (published_event_is_handled read read Some record older handle first [] s r event_first_reachable EC) as HP.
  rewrite HR in HP. destruct HP as (m & _ & _ & _ & _ & HD & _). by exists m.
Defined.
End EventExamples.
