(* ===== verification/Outbox.v ===== *)
(** The transactional outbox and inbox: [crates/rustee-outbox-sqlx].

    The two tables are the ones of the crate's migrations. A statement is its
    text, which the server has to accept, and its meaning, which is what the SQL
    of the source says; the server is the class [Postgres]. Instants are
    microseconds and a statement reads the clock once. *)

From Stdlib Require Import ZArith Lia Bool Ascii.
From stdpp Require Import gmap sets sorting.
From S2P Require Import Prelude Strings Uuid Json JobEnvelope Events.

Local Open Scope Z_scope.

(** ** Outbox messages: [message/model.rs] and [message/staging.rs] *)

Definition MAX_DESTINATION_BYTES : nat := 255.
Definition MAX_MESSAGE_ID_BYTES : nat := 255.
Definition MAX_MESSAGE_TYPE_BYTES : nat := 255.
Definition MAX_ORDERING_KEY_BYTES : nat := 512.
Definition MAX_PAYLOAD_BYTES : nat := 1024 * 1024.

Inductive OutboxMessageError : Type :=
| InvalidDestination
| InvalidMessageId
| InvalidMessageType
| InvalidOrderingKey
| InvalidDeliveryAttempt
| InvalidPayload.

Definition validate_text (value : str) (max_bytes : nat) (error : OutboxMessageError) :
    result unit OutboxMessageError :=
  if is_blank value || contains_char NUL value || (max_bytes <? List.length value)%nat
  then Err error
  else Ok tt.

Definition OutboxDestination : Type := str.
Definition destination_new (destination : str) : result OutboxDestination OutboxMessageError :=
  let? _ := validate_text destination MAX_DESTINATION_BYTES InvalidDestination in
  Ok destination.

Inductive OutboxKind : Type := Event | Job.
Definition kind_as_str (k : OutboxKind) : str :=
  match k with Event => ##"event" | Job => ##"job" end.

Record OutboxMessage : Type := {
  om_id : Uuid;
  om_kind : OutboxKind;
  om_destination : OutboxDestination;
  om_message_id : str;
  om_message_type : str;
  om_schema_version : Z;
  om_ordering_key : str;
  om_delivery_attempt : Z;
  om_priority : Z;
  om_payload : bytes
}.

Definition validate_durable_message_fields (message_id message_type ordering_key : str)
    (delivery_attempt : Z) (body : bytes) : result unit OutboxMessageError :=
  let? _ := validate_text message_id MAX_MESSAGE_ID_BYTES InvalidMessageId in
  let? _ := validate_text message_type MAX_MESSAGE_TYPE_BYTES InvalidMessageType in
  let? _ := validate_text ordering_key MAX_ORDERING_KEY_BYTES InvalidOrderingKey in
  if delivery_attempt =? 0 then Err InvalidDeliveryAttempt
  else if negb (nonempty body) || (MAX_PAYLOAD_BYTES <? List.length body)%nat then Err InvalidPayload
  else Ok tt.

(** [OutboxMessage::new]; [row_id] is the fresh [OutboxId]. *)
Definition outbox_message_new (row_id : Uuid) (kind : OutboxKind) (destination : OutboxDestination)
    (message_id message_type : str) (schema_version : Z) (ordering_key : str) (delivery_attempt : Z)
    (body : bytes) : result OutboxMessage OutboxMessageError :=
  let? _ := validate_durable_message_fields message_id message_type ordering_key delivery_attempt body in
  Ok {| om_id := row_id; om_kind := kind; om_destination := destination;
        om_message_id := message_id; om_message_type := message_type;
        om_schema_version := schema_version; om_ordering_key := ordering_key;
        om_delivery_attempt := delivery_attempt; om_priority := 0; om_payload := body |}.

Definition with_priority (priority : Z) (m : OutboxMessage) : OutboxMessage :=
  {| om_id := om_id m; om_kind := om_kind m; om_destination := om_destination m;
     om_message_id := om_message_id m; om_message_type := om_message_type m;
     om_schema_version := om_schema_version m; om_ordering_key := om_ordering_key m;
     om_delivery_attempt := om_delivery_attempt m; om_priority := priority;
     om_payload := om_payload m |}.

Inductive StageJobError : Type :=
| StageEnvelope (e : EnvelopeError)
| StageOutbox (e : OutboxMessageError).

Inductive StageEventError : Type :=
| StageEventEnvelope (e : EventEnvelopeError)
| StageEventOutbox (e : OutboxMessageError).

Section staging_messages.
Context `{UuidApi}.

Definition from_event_message (row_id : Uuid) (destination : OutboxDestination) (m : EventMessage) :
    result OutboxMessage OutboxMessageError :=
  outbox_message_new row_id Event destination (uuid_to_string (ev_id m)) (ev_type m) (ev_version m)
    (ev_key m) 1 (ev_payload m).

Definition from_job_message (row_id : Uuid) (destination : OutboxDestination) (m : JobMessage) :
    result OutboxMessage OutboxMessageError :=
  let i := uuid_to_string (msg_id m) in
  outbox_message_new row_id Job destination i (msg_name m) (msg_version m) i (msg_attempt m)
    (msg_payload m).

(** [OutboxMessage::event]. *)
Definition outbox_event {E} `{!Events.Event E, !JsonWriter (EventEnvelope E)} (row_id : Uuid)
    (destination : OutboxDestination) (envelope : EventEnvelope E) : result OutboxMessage StageEventError :=
  let? m := map_err StageEventEnvelope (event_message envelope) in
  map_err StageEventOutbox (from_event_message row_id destination m).

(** [OutboxMessage::job]. *)
Definition outbox_job {J} `{!JobEnvelope.Job J, !JsonWriter (JobEnvelope J)} (row_id : Uuid)
    (destination : OutboxDestination) (envelope : JobEnvelope J) : result OutboxMessage StageJobError :=
  let? m := map_err StageEnvelope (message envelope) in
  map_err StageOutbox (from_job_message row_id destination m).
End staging_messages.

(** ** Timing: [timing.rs] *)

Definition MAX_BATCH_SIZE : Z := 1000.
Definition MIN_POSTGRES_INTERVAL : Duration := from_millis 1.
Definition MAX_LEASE_DURATION : Duration := from_hours 1.
Definition MAX_JOB_SCHEDULE_DELAY : Duration := from_hours 8784.

Inductive ScheduleError : Type := ZeroDelay | DelayTooLong.

(** [JobSchedule::after] and [EventSchedule::after]. *)
Definition schedule_after (delay : Duration) : result Duration ScheduleError :=
  if delay <? MIN_POSTGRES_INTERVAL then Err ZeroDelay
  else if MAX_JOB_SCHEDULE_DELAY <? delay then Err DelayTooLong
  else Ok delay.

Record LeaseConfig : Type := { batch_size : Z; lease_duration : Duration }.
Inductive LeaseConfigError : Type := BatchTooLarge | InvalidLeaseDuration.

(** [batch] is a [NonZeroUsize]. *)
Definition lease_config_new (batch : Z) (duration : Duration) : result LeaseConfig LeaseConfigError :=
  if MAX_BATCH_SIZE <? batch then Err BatchTooLarge
  else if (duration <? MIN_POSTGRES_INTERVAL) || (MAX_LEASE_DURATION <? duration)
  then Err InvalidLeaseDuration
  else Ok {| batch_size := batch; lease_duration := duration |}.

Inductive LeaseOutcome : Type := Applied | Lost.

(** ** The server *)

Inductive SqlxError : Type := StatementRejected | ConstraintViolated | NumberOutOfRange.

(** What the server's scanner and grammar say of a statement's text. *)
Class Postgres : Type := accepts : str -> bool.

(** Characters that, outside quotation marks, belong to names, numbers,
    parentheses and white space only. *)
Definition is_plain (c : ascii) : bool :=
  is_ascii_alphanumeric c || existsb (char_eqb c) ##" _()".

(** Outside quoted text a backslash starts no token of PostgreSQL's language. *)
Class PostgresLaws `{Postgres} : Prop :=
  backslash_rejected : forall plain rest,
    forallb is_plain plain = true -> accepts (plain ++ byte_of 92 :: rest) = false.

(** [query(text).execute(..)]: a failed statement leaves the tables alone. *)
Definition execute `{Postgres} {T R} (text : str) (statement : T -> result (R * T) SqlxError)
    (tables : T) : result R SqlxError * T :=
  if accepts text then
    match statement tables with
    | Ok (r, tables') => (Ok r, tables')
    | Err e => (Err e, tables)
    end
  else (Err StatementRejected, tables).

(** ** The outbox table: [migrations/0001_rustee_outbox.sql] and [0003_rustee_outbox_priority.sql] *)

Record Row : Type := {
  r_id : Uuid;
  r_kind : str;
  r_destination : str;
  r_message_id : str;
  r_message_type : str;
  r_schema_version : Z;
  r_ordering_key : str;
  r_delivery_attempt : Z;
  r_payload : bytes;
  r_priority : Z;
  r_relay_attempt : Z;
  r_available_at : Z;
  r_leased_until : option Z;
  r_lease_token : option Uuid;
  r_published_at : option Z;
  r_last_failure_kind : option str;
  r_created_at : Z
}.

(** The [CHECK] constraints. *)
Definition row_checks (r : Row) : bool :=
  (str_eqb (r_kind r) ##"event" || str_eqb (r_kind r) ##"job")
  && ((0 <=? r_schema_version r) && (r_schema_version r <=? 65535))
  && ((1 <=? r_delivery_attempt r) && (r_delivery_attempt r <=? 65535))
  && nonempty (r_payload r)
  && (0 <=? r_relay_attempt r)
  && Bool.eqb (is_some (r_lease_token r)) (is_some (r_leased_until r))
  && ((0 <=? r_priority r) && (r_priority r <=? 255)).

(** The [UNIQUE (kind, destination, message_id)] key. *)
Definition source_key (r : Row) : str * str * str := (r_kind r, r_destination r, r_message_id r).

(** [INSERT .. ON CONFLICT (kind, destination, message_id) DO NOTHING]: the rows
    affected. A repeated primary key is not the named conflict. *)
Definition insert_row (r : Row) (table : list Row) : result (Z * list Row) SqlxError :=
  if negb (row_checks r) then Err ConstraintViolated
  else if existsb (fun r' => bool_decide (source_key r' = source_key r)) table then Ok (0, table)
  else if existsb (fun r' => r_id r' =? r_id r) table then Err ConstraintViolated
  else Ok (1, table ++ [r]).

(** The columns [bind_message] binds, the others at their defaults. *)
Definition bind_message (m : OutboxMessage) (available now : Z) : Row := {|
  r_id := om_id m;
  r_kind := kind_as_str (om_kind m);
  r_destination := om_destination m;
  r_message_id := om_message_id m;
  r_message_type := om_message_type m;
  r_schema_version := om_schema_version m;
  r_ordering_key := om_ordering_key m;
  r_delivery_attempt := om_delivery_attempt m;
  r_payload := om_payload m;
  r_priority := om_priority m;
  r_relay_attempt := 0;
  r_available_at := available;
  r_leased_until := None;
  r_lease_token := None;
  r_published_at := None;
  r_last_failure_kind := None;
  r_created_at := now
|}.

(** ** Staging: [stage.rs] *)

Inductive StageOutcome : Type := Inserted (id : Uuid) | AlreadyPresent.

Definition stage_sql : str :=
  ##"INSERT INTO rustee_outbox (id, kind, destination, message_id, message_type, schema_version, ordering_key, delivery_attempt, priority, payload) VALUES ($1, $2, $3, $4, $5, $6, $7, $8, $9, $10) ON CONFLICT (kind, destination, message_id) DO NOTHING".

Definition stage_after_sql : str :=
  ##"INSERT INTO rustee_outbox (id, kind, destination, message_id, message_type, schema_version, ordering_key, delivery_attempt, priority, payload, available_at) VALUES ($1, $2, $3, $4, $5, $6, $7, $8, $9, $10, clock_timestamp() + ($11::bigint * INTERVAL '1 millisecond')) ON CONFLICT (kind, destination, message_id) DO NOTHING".

Inductive ScheduleKindError : Type :=
| NotThisKind
| ScheduleDatabase (e : SqlxError).

Section staging.
Context `{Postgres}.

Definition stage_outcome (m : OutboxMessage) (rows_affected : Z) : StageOutcome :=
  if rows_affected =? 1 then Inserted (om_id m) else AlreadyPresent.

Definition stage (m : OutboxMessage) (now : Z) (table : list Row) :
    result StageOutcome SqlxError * list Row :=
  let '(r, table) := execute stage_sql (insert_row (bind_message m now now)) table in
  ((let? rows_affected := r in Ok (stage_outcome m rows_affected)), table).

Definition stage_after (m : OutboxMessage) (delay_millis now : Z) (table : list Row) :
    result StageOutcome SqlxError * list Row :=
  let '(r, table) :=
    execute stage_after_sql (insert_row (bind_message m (now + delay_millis * 1000) now)) table in
  ((let? rows_affected := r in Ok (stage_outcome m rows_affected)), table).

(** [stage_job_after] at [Job] and [stage_event_after] at [Event]. *)
Definition stage_kind_after (kind : OutboxKind) (m : OutboxMessage) (schedule : Duration) (now : Z)
    (table : list Row) : result StageOutcome ScheduleKindError * list Row :=
  match kind, om_kind m with
  | Event, Event | Job, Job =>
      let '(r, table) := stage_after m (as_millis schedule) now table in
      (map_err ScheduleDatabase r, table)
  | _, _ => (Err NotThisKind, table)
  end.
End staging.

(** ** Leases: [lease/storage.rs] and [lease/record.rs] *)

(** The texts as the string literals denote them: in these three literals the line
    ends are written with two backslashes, which denote a backslash. *)
Definition lease_sql : str :=
  ##"WITH candidates AS ( \
               SELECT id \
               FROM rustee_outbox \
               WHERE published_at IS NULL \
                 AND kind = $1 \
                 AND destination = $2 \
                 AND available_at <= clock_timestamp() \
                 AND (leased_until IS NULL OR leased_until <= clock_timestamp()) \
               ORDER BY priority DESC, created_at, id \
               FOR UPDATE SKIP LOCKED \
               LIMIT $3 \
             ), claimed AS ( \
               UPDATE rustee_outbox AS outbox \
               SET lease_token = $4, \
                   leased_until = clock_timestamp() + ($5::bigint * INTERVAL '1 millisecond'), \
                   relay_attempt = outbox.relay_attempt + 1 \
               FROM candidates \
               WHERE outbox.id = candidates.id \
               RETURNING outbox.id, outbox.message_id, outbox.message_type, \
                         outbox.schema_version, outbox.ordering_key, outbox.delivery_attempt, \
                         outbox.payload, outbox.relay_attempt, outbox.priority, outbox.created_at \
             ) \
             SELECT id, message_id, message_type, schema_version, ordering_key, delivery_attempt, \
                    payload, relay_attempt \
             FROM claimed \
             ORDER BY priority DESC, created_at, id".

Definition acknowledge_sql : str :=
  ##"UPDATE rustee_outbox \
             SET published_at = clock_timestamp(), lease_token = NULL, leased_until = NULL, \
                 last_failure_kind = NULL \
             WHERE id = $1 AND lease_token = $2 AND published_at IS NULL".

Definition retry_sql : str :=
  ##"UPDATE rustee_outbox \
             SET available_at = clock_timestamp() + ($3::bigint * INTERVAL '1 millisecond'), \
                 lease_token = NULL, leased_until = NULL, last_failure_kind = 'publish_failed' \
             WHERE id = $1 AND lease_token = $2 AND published_at IS NULL".

Inductive OutboxError : Type :=
| Database (e : SqlxError)
| InvalidDuration
| StoredEvent
| StoredJob.

Record Lease : Type := { lease_id : Uuid; lease_token : Uuid; lease_relay_attempt : Z }.

Record StoredLease : Type := {
  sl_lease : Lease;
  sl_destination : OutboxDestination;
  sl_message_id : str;
  sl_message_type : str;
  sl_schema_version : Z;
  sl_ordering_key : str;
  sl_delivery_attempt : Z;
  sl_payload : bytes
}.

(** [LeasedEvent] and [LeasedJob]. *)
Record Leased (M : Type) : Type := {
  leased_lease : Lease;
  leased_destination : OutboxDestination;
  leased_message : M
}.
Arguments leased_lease {M}. Arguments leased_destination {M}. Arguments leased_message {M}.
Arguments Build_Leased {M}.

Definition duration_millis (d : Duration) : result Z OutboxError :=
  if (negb (d =? 0) && (d <? MIN_POSTGRES_INTERVAL)) || (MAX_LEASE_DURATION <? d)
  then Err InvalidDuration
  else if i64_max <? as_millis d then Err InvalidDuration
  else Ok (as_millis d).

Definition outcome (rows_affected : Z) : LeaseOutcome :=
  if rows_affected =? 1 then Applied else Lost.

Definition claimable (kind destination : str) (now : Z) (locked : Uuid -> bool) (r : Row) : bool :=
  negb (is_some (r_published_at r))
  && str_eqb (r_kind r) kind
  && str_eqb (r_destination r) destination
  && (r_available_at r <=? now)
  && match r_leased_until r with None => true | Some u => u <=? now end
  && negb (locked (r_id r)).

(** [ORDER BY priority DESC, created_at, id]. *)
Definition row_le (a b : Row) : Prop :=
  r_priority b < r_priority a
  \/ r_priority a = r_priority b
     /\ (r_created_at a < r_created_at b
         \/ r_created_at a = r_created_at b /\ r_id a <= r_id b).
#[export] Instance row_le_dec : RelDecision row_le.
Proof. intros a b. unfold row_le. apply _. Defined.

Definition claim_row (token : Uuid) (until : Z) (r : Row) : Row := {|
  r_id := r_id r; r_kind := r_kind r; r_destination := r_destination r;
  r_message_id := r_message_id r; r_message_type := r_message_type r;
  r_schema_version := r_schema_version r; r_ordering_key := r_ordering_key r;
  r_delivery_attempt := r_delivery_attempt r; r_payload := r_payload r; r_priority := r_priority r;
  r_relay_attempt := r_relay_attempt r + 1; r_available_at := r_available_at r;
  r_leased_until := Some until; r_lease_token := Some token; r_published_at := r_published_at r;
  r_last_failure_kind := r_last_failure_kind r; r_created_at := r_created_at r
|}.

(** The claiming statement; [relay_attempt] is a 32-bit [integer]. *)
Definition claim (kind destination : str) (batch : Z) (token : Uuid) (millis now : Z)
    (locked : Uuid -> bool) (table : list Row) : result (list Row * list Row) SqlxError :=
  let candidates :=
    take (Z.to_nat batch)
      (merge_sort row_le (filter (fun r => claimable kind destination now locked r = true) table)) in
  if existsb (fun r => i32_max <=? r_relay_attempt r) candidates then Err NumberOutOfRange
  else
    let claim_row := claim_row token (now + millis * 1000) in
    Ok (merge_sort row_le (map claim_row candidates),
        map (fun r => if existsb (fun c => r_id c =? r_id r) candidates then claim_row r else r) table).

Definition confirm_row (now : Z) (r : Row) : Row := {|
  r_id := r_id r; r_kind := r_kind r; r_destination := r_destination r;
  r_message_id := r_message_id r; r_message_type := r_message_type r;
  r_schema_version := r_schema_version r; r_ordering_key := r_ordering_key r;
  r_delivery_attempt := r_delivery_attempt r; r_payload := r_payload r; r_priority := r_priority r;
  r_relay_attempt := r_relay_attempt r; r_available_at := r_available_at r;
  r_leased_until := None; r_lease_token := None; r_published_at := Some now;
  r_last_failure_kind := None; r_created_at := r_created_at r
|}.

Definition release_row (available : Z) (r : Row) : Row := {|
  r_id := r_id r; r_kind := r_kind r; r_destination := r_destination r;
  r_message_id := r_message_id r; r_message_type := r_message_type r;
  r_schema_version := r_schema_version r; r_ordering_key := r_ordering_key r;
  r_delivery_attempt := r_delivery_attempt r; r_payload := r_payload r; r_priority := r_priority r;
  r_relay_attempt := r_relay_attempt r; r_available_at := available;
  r_leased_until := None; r_lease_token := None; r_published_at := r_published_at r;
  r_last_failure_kind := Some ##"publish_failed"; r_created_at := r_created_at r
|}.

(** [WHERE id = $1 AND lease_token = $2 AND published_at IS NULL]. *)
Definition owned_by (l : Lease) (r : Row) : bool :=
  (r_id r =? lease_id l)
  && match r_lease_token r with Some token => token =? lease_token l | None => false end
  && negb (is_some (r_published_at r)).

Definition update_where (p : Row -> bool) (f : Row -> Row) (table : list Row) :
    result (Z * list Row) SqlxError :=
  Ok (Z.of_nat (List.length (List.filter p table)), map (fun r => if p r then f r else r) table).

Definition stored_error (kind : OutboxKind) : OutboxError :=
  match kind with Event => StoredEvent | Job => StoredJob end.

Definition try_from (max : Z) (e : OutboxError) (n : Z) : result Z OutboxError :=
  if (0 <=? n) && (n <=? max) then Ok n else Err e.

(** The closure that reads one returned row. *)
Definition stored_lease (kind : OutboxKind) (destination : OutboxDestination) (token : Uuid) (r : Row) :
    result StoredLease OutboxError :=
  let? version := try_from u16_max (stored_error kind) (r_schema_version r) in
  let? delivery_attempt := try_from u16_max (stored_error kind) (r_delivery_attempt r) in
  let? relay_attempt := try_from u32_max (stored_error kind) (r_relay_attempt r) in
  Ok {| sl_lease := {| lease_id := r_id r; lease_token := token; lease_relay_attempt := relay_attempt |};
        sl_destination := destination; sl_message_id := r_message_id r;
        sl_message_type := r_message_type r; sl_schema_version := version;
        sl_ordering_key := r_ordering_key r; sl_delivery_attempt := delivery_attempt;
        sl_payload := r_payload r |}.

(** What surrounds a relay: the server's clock and row locks, fresh identifiers
    and the caller's shutdown future. *)
Class World (W : Type) : Type := {
  clock : W -> Z;
  row_locked : W -> Uuid -> bool;
  new_v4 : W -> Uuid * W;
  shutdown_resolved : W -> bool * W;
  (** [select!] of the shutdown and a timer: whether the shutdown came first. *)
  shutdown_within : Duration -> W -> bool * W
}.

Section leases.
Context `{Postgres, UuidApi} {W : Type} `{!World W}.

(** The tables and the world. *)
Notation St := (list Row * W)%type.

Definition lease (kind : OutboxKind) (destination : OutboxDestination) (config : LeaseConfig)
    (st : St) : result (list StoredLease) OutboxError * St :=
  let '(table, w) := st in
  match duration_millis (lease_duration config) with
  | Err e => (Err e, st)
  | Ok lease_millis =>
      let '(token, w) := new_v4 w in
      let '(rows, table) :=
        execute lease_sql
          (claim (kind_as_str kind) destination (batch_size config) token lease_millis (clock w)
             (row_locked w)) table in
      ((let? rows := map_err Database rows in
        collect_results (map (stored_lease kind destination token) rows)), (table, w))
  end.

Definition event_try_from_record (record : StoredLease) : result (Leased EventMessage) OutboxError :=
  let? _ := map_err (fun _ => StoredEvent)
              (validate_durable_message_fields (sl_message_id record) (sl_message_type record)
                 (sl_ordering_key record) (sl_delivery_attempt record) (sl_payload record)) in
  let? i := ok_or (uuid_parse_str (sl_message_id record)) StoredEvent in
  let? m := map_err (fun _ => StoredEvent)
              (event_from_parts i (sl_message_type record) (sl_schema_version record)
                 (sl_ordering_key record) (sl_payload record)) in
  Ok {| leased_lease := sl_lease record; leased_destination := sl_destination record;
        leased_message := m |}.

Definition job_try_from_record (record : StoredLease) : result (Leased JobMessage) OutboxError :=
  let? _ := map_err (fun _ => StoredJob)
              (validate_durable_message_fields (sl_message_id record) (sl_message_type record)
                 (sl_ordering_key record) (sl_delivery_attempt record) (sl_payload record)) in
  let? i := ok_or (uuid_parse_str (sl_message_id record)) StoredJob in
  let? m := map_err (fun _ => StoredJob)
              (message_from_parts i (sl_message_type record) (sl_schema_version record)
                 (sl_delivery_attempt record) (sl_payload record)) in
  Ok {| leased_lease := sl_lease record; leased_destination := sl_destination record;
        leased_message := m |}.

(** [lease_events] and [lease_jobs], by the record conversion. *)
Definition lease_records {M} (kind : OutboxKind)
    (try_from_record : StoredLease -> result (Leased M) OutboxError)
    (destination : OutboxDestination) (config : LeaseConfig) (st : St) :
    result (list (Leased M)) OutboxError * St :=
  let '(records, st) := lease kind destination config st in
  ((let? records := records in collect_results (map try_from_record records)), st).

Definition acknowledge (l : Lease) (st : St) : result LeaseOutcome OutboxError * St :=
  let '(table, w) := st in
  let '(r, table) := execute acknowledge_sql (update_where (owned_by l) (confirm_row (clock w))) table in
  ((let? n := map_err Database r in Ok (outcome n)), (table, w)).

Definition retry (l : Lease) (delay : Duration) (st : St) : result LeaseOutcome OutboxError * St :=
  let '(table, w) := st in
  match duration_millis delay with
  | Err e => (Err e, st)
  | Ok delay_millis =>
      let '(r, table) :=
        execute retry_sql (update_where (owned_by l) (release_row (clock w + delay_millis * 1000))) table in
      ((let? n := map_err Database r in Ok (outcome n)), (table, w))
  end.
End leases.

(** ** The relay: [relay/config.rs], [relay/executor.rs], [relay/kind.rs] and [relay/observation.rs] *)

Record RelayConfig : Type := { rc_lease : LeaseConfig; retry_delay : Duration }.

(** [RelayConfig::new]; [None] is [InvalidRetryDelay]. *)
Definition relay_config_new (l : LeaseConfig) (delay : Duration) : option RelayConfig :=
  if (negb (delay =? 0) && (delay <? MIN_POSTGRES_INTERVAL)) || (MAX_LEASE_DURATION <? delay)
  then None
  else Some {| rc_lease := l; retry_delay := delay |}.

Record RelayReport : Type := {
  claimed : nat;
  published : nat;
  retry_scheduled : nat;
  lease_lost : nat
}.

Record RelayLoopReport : Type := {
  passes : Z;
  total_claimed : Z;
  total_published : Z;
  total_retry_scheduled : Z;
  total_lease_lost : Z
}.
Definition loop_report_default : RelayLoopReport :=
  {| passes := 0; total_claimed := 0; total_published := 0; total_retry_scheduled := 0;
     total_lease_lost := 0 |}.

(** [usize] has 64 bits. *)
Definition loop_record (total : RelayLoopReport) (r : RelayReport) : RelayLoopReport :=
  {| passes := saturating_add u64_max (passes total) 1;
     total_claimed := saturating_add u64_max (total_claimed total) (Z.of_nat (claimed r));
     total_published := saturating_add u64_max (total_published total) (Z.of_nat (published r));
     total_retry_scheduled :=
       saturating_add u64_max (total_retry_scheduled total) (Z.of_nat (retry_scheduled r));
     total_lease_lost := saturating_add u64_max (total_lease_lost total) (Z.of_nat (lease_lost r)) |}.

Inductive RelayError (E : Type) : Type :=
| Outbox (e : OutboxError)
| Publisher (source : E) (report : RelayReport).
Arguments Outbox {E}. Arguments Publisher {E}.

Inductive RelayPassOutcome : Type := Succeeded | Failed | Abandoned.
Inductive RelayEvent : Type :=
| RelayPassStarted (kind : OutboxKind)
| RelayPassFinished (kind : OutboxKind) (outcome : RelayPassOutcome) (report : option RelayReport).

Section relay.
Context `{Postgres, UuidApi} {W : Type} `{!World W}.
Notation St := (list Row * W)%type.

(** [RelayKind]: the record conversion of one kind and its publisher. *)
Context {M E : Type} (kind : OutboxKind)
  (try_from_record : StoredLease -> result (Leased M) OutboxError)
  (publish : M -> W -> result unit E * W).
Context (destination : OutboxDestination) (config : RelayConfig).

Definition count_published (r : RelayReport) : RelayReport :=
  {| claimed := claimed r; published := S (published r); retry_scheduled := retry_scheduled r;
     lease_lost := lease_lost r |}.
Definition count_retry (r : RelayReport) : RelayReport :=
  {| claimed := claimed r; published := published r; retry_scheduled := S (retry_scheduled r);
     lease_lost := lease_lost r |}.
Definition count_lost (r : RelayReport) : RelayReport :=
  {| claimed := claimed r; published := published r; retry_scheduled := retry_scheduled r;
     lease_lost := S (lease_lost r) |}.

(** The [for] loop of [relay_once_inner]. *)
Fixpoint relay_leases (leases : list (Leased M)) (report : RelayReport) (st : St) :
    result RelayReport (RelayError E) * St :=
  match leases with
  | [] => (Ok report, st)
  | l :: rest =>
      let '(sent, w) := publish (leased_message l) (snd st) in
      let st := (fst st, w) in
      match sent with
      | Ok _ =>
          let '(r, st) := acknowledge (leased_lease l) st in
          match r with
          | Err e => (Err (Outbox e), st)
          | Ok Applied => relay_leases rest (count_published report) st
          | Ok Lost => relay_leases rest (count_lost report) st
          end
      | Err source =>
          let '(r, st) := retry (leased_lease l) (retry_delay config) st in
          match r with
          | Err e => (Err (Outbox e), st)
          | Ok Applied => (Err (Publisher source (count_retry report)), st)
          | Ok Lost => (Err (Publisher source (count_lost report)), st)
          end
      end
  end.

Definition relay_once_inner (st : St) : result RelayReport (RelayError E) * St :=
  let '(leases, st) := lease_records kind try_from_record destination (rc_lease config) st in
  match leases with
  | Err e => (Err (Outbox e), st)
  | Ok leases =>
      relay_leases leases
        {| claimed := List.length leases; published := 0; retry_scheduled := 0; lease_lost := 0 |} st
  end.

(** [relay_once], with what the observer is told. *)
Definition relay_once (st : St) : result RelayReport (RelayError E) * list RelayEvent * St :=
  let '(r, st) := relay_once_inner st in
  let finished :=
    match r with
    | Ok report => RelayPassFinished kind Succeeded (Some report)
    | Err (Outbox _) => RelayPassFinished kind Failed None
    | Err (Publisher _ report) => RelayPassFinished kind Failed (Some report)
    end in
  (r, [RelayPassStarted kind; finished], st).

(** [run_until]: [None] when the fuel ends before the loop does. *)
Fixpoint run_until (fuel : nat) (idle_delay : Duration) (total : RelayLoopReport) (st : St) :
    option (result RelayLoopReport (RelayError E) * St) :=
  match fuel with
  | O => None
  | S fuel' =>
      let '(stop, w) := shutdown_resolved (snd st) in
      if stop then Some (Ok total, (fst st, w))
      else
        let '(r, _, st) := relay_once (fst st, w) in
        match r with
        | Err e => Some (Err e, st)
        | Ok report =>
            let total := loop_record total report in
            if (claimed report =? 0)%nat then
              let '(stop, w) := shutdown_within idle_delay (snd st) in
              if stop then Some (Ok total, (fst st, w))
              else run_until fuel' idle_delay total (fst st, w)
            else run_until fuel' idle_delay total st
        end
  end.
End relay.

(** ** The inbox: [inbox.rs] and [migrations/0002_rustee_inbox.sql] *)

Inductive InboxError : Type := InvalidConsumer | InvalidInboxMessageId.

Definition validate_inbox_text (value : str) (error : InboxError) : result unit InboxError :=
  if is_blank value || contains_char NUL value || (MAX_MESSAGE_ID_BYTES <? List.length value)%nat
  then Err error
  else Ok tt.

Definition InboxConsumer : Type := str.
Definition consumer_new (consumer : str) : result InboxConsumer InboxError :=
  let? _ := validate_inbox_text consumer InvalidConsumer in
  Ok consumer.

Definition InboxMessageId : Type := str.
Definition inbox_message_id_new (message_id : str) : result InboxMessageId InboxError :=
  let? _ := validate_inbox_text message_id InvalidInboxMessageId in
  Ok message_id.
Definition inbox_id_of_uuid `{UuidApi} (i : Uuid) : InboxMessageId := uuid_to_string i.

Inductive InboxDecision : Type := FirstDelivery | Duplicate.

Definition register_sql : str :=
  ##"INSERT INTO rustee_inbox (consumer, message_id) VALUES ($1, $2) ON CONFLICT (consumer, message_id) DO NOTHING".

(** The rows of [rustee_inbox], by primary key. *)
Notation Receipts := (gset (InboxConsumer * InboxMessageId)).

Section inbox.
Context `{Postgres}.

Definition insert_receipt (key : InboxConsumer * InboxMessageId) (receipts : Receipts) :
    result (Z * Receipts) SqlxError :=
  if bool_decide (key ∈ receipts) then Ok (0, receipts) else Ok (1, {[key]} ∪ receipts).

Definition register (consumer : InboxConsumer) (message_id : InboxMessageId) (receipts : Receipts) :
    result InboxDecision SqlxError * Receipts :=
  let '(r, receipts) := execute register_sql (insert_receipt (consumer, message_id)) receipts in
  ((let? rows_affected := r in Ok (if rows_affected =? 1 then FirstDelivery else Duplicate)), receipts).

(** One delivery to a consumer, which is application code that follows the contract that
    [inbox.rs] documents for [register]: on a first delivery the effect is part of the transaction, on a duplicate it is skipped;
    [commit] is how the transaction ends. The effect adds the key to a log. *)
Record Delivery : Type := { to_consumer : InboxConsumer; source_id : InboxMessageId; commit : bool }.
Definition delivery_key (d : Delivery) : InboxConsumer * InboxMessageId := (to_consumer d, source_id d).

Definition deliver (d : Delivery) (st : Receipts * list (InboxConsumer * InboxMessageId)) :
    Receipts * list (InboxConsumer * InboxMessageId) :=
  let '(receipts, effects) := st in
  let '(r, receipts') := register (to_consumer d) (source_id d) receipts in
  match r with
  | Ok FirstDelivery => if commit d then (receipts', effects ++ [delivery_key d]) else st
  | Ok Duplicate | Err _ => st
  end.
End inbox.

(** ** Lemmas: rejected statements *)

(** The texts of [lease/storage.rs] start with plain characters and a backslash. *)
Lemma lease_texts_rejected `{PostgresLaws} :
  accepts lease_sql = false /\ accepts acknowledge_sql = false /\ accepts retry_sql = false.
Proof.
  split_and!;
    [ apply (backslash_rejected ##"WITH candidates AS ( " (drop 22 lease_sql))
    | apply (backslash_rejected ##"UPDATE rustee_outbox " (drop 22 acknowledge_sql))
    | apply (backslash_rejected ##"UPDATE rustee_outbox " (drop 22 retry_sql)) ];
    vm_compute; reflexivity.
Qed.

Lemma execute_rejected `{Postgres} {T R} text (statement : T -> result (R * T) SqlxError) t :
  accepts text = false -> execute text statement t = (Err StatementRejected, t).
Proof. intros HA. unfold execute. by rewrite HA. Qed.

Lemma lease_config_millis b d c :
  lease_config_new b d = Ok c -> exists n, duration_millis (lease_duration c) = Ok n.
Proof.
  unfold lease_config_new. intros HC. repeat case_match; simp. bool_hyps.
  unfold duration_millis, as_millis, MAX_LEASE_DURATION, from_hours, MIN_POSTGRES_INTERVAL, from_millis, i64_max in *.
  rewrite (proj2 (Z.ltb_ge d _)), (proj2 (Z.ltb_ge _ d)), andb_false_r by lia. cbn [orb].
  rewrite (proj2 (Z.ltb_ge _ _)); [by eexists|]. apply Z.div_le_upper_bound; lia.
Qed.

(** ** Lemmas: the outbox table *)

Record wf_table (t : list Row) : Prop := {
  wf_checks : Forall (fun r => row_checks r = true) t;
  wf_keys : NoDup (source_key <$> t);
  wf_ids : NoDup (r_id <$> t)
}.

(** What a staged message satisfies. *)
Record valid_message (m : OutboxMessage) : Prop := {
  vm_fields : validate_durable_message_fields (om_message_id m) (om_message_type m)
                (om_ordering_key m) (om_delivery_attempt m) (om_payload m) = Ok tt;
  vm_version : 0 <= om_schema_version m <= u16_max;
  vm_attempt : 0 <= om_delivery_attempt m <= u16_max;
  vm_priority : 0 <= om_priority m <= u8_max
}.

Lemma bind_message_checks m available now :
  valid_message m -> row_checks (bind_message m available now) = true.
Proof.
  intros [HF HV HA HP]. unfold validate_durable_message_fields in HF.
  repeat case_match; simp. bool_hyps.
  unfold row_checks, u16_max, u8_max in *. cbn [bind_message r_kind r_schema_version r_delivery_attempt
    r_payload r_relay_attempt r_lease_token r_leased_until r_priority is_some].
  assert (str_eqb (kind_as_str (om_kind m)) ##"event" || str_eqb (kind_as_str (om_kind m)) ##"job" = true)
    as -> by (by destruct (om_kind m)).
  repeat (apply andb_true_iff; split); try done; apply Z.leb_le; lia.
Qed.

Definition source_key_of (m : OutboxMessage) : str * str * str :=
  (kind_as_str (om_kind m), om_destination m, om_message_id m).

Lemma NoDup_snoc {A} (l : list A) x : NoDup l -> x ∉ l -> NoDup (l ++ [x]).
Proof.
  intros HL Hx. apply NoDup_app. split_and!; [done | | apply NoDup_singleton].
  intros y Hy ->%list_elem_of_singleton. done.
Qed.

Lemma insert_row_cases m available now t :
  valid_message m -> wf_table t -> om_id m ∉ r_id <$> t ->
  (source_key_of m ∈ source_key <$> t
   /\ insert_row (bind_message m available now) t = Ok (0, t))
  \/ (source_key_of m ∉ source_key <$> t
      /\ insert_row (bind_message m available now) t = Ok (1, t ++ [bind_message m available now])
      /\ wf_table (t ++ [bind_message m available now])).
Proof.
  intros HM [HC HK HI] Hid. unfold insert_row. rewrite bind_message_checks by done. cbn [negb].
  change (source_key (bind_message m available now)) with (source_key_of m).
  destruct (existsb _ t) eqn:HE.
  - left. apply existsb_exists in HE as (r & Hr & HE). apply bool_decide_eq_true in HE.
    split; [|done]. rewrite <- HE. apply list_elem_of_fmap. exists r. split; [done|]. by apply list_elem_of_In.
  - right. assert (Hk : source_key_of m ∉ source_key <$> t).
    { intros (r & Hr & Hin)%list_elem_of_fmap. apply existsb_false in HE. rewrite Forall_forall in HE.
      apply HE, bool_decide_eq_false in Hin. congruence. }
    assert (existsb (fun r' => r_id r' =? r_id (bind_message m available now)) t = false) as ->.
    { apply existsb_false, Forall_forall. intros r Hr. apply Z.eqb_neq. cbn [bind_message r_id].
      intros HE'. apply Hid, list_elem_of_fmap. by exists r. }
    split_and!; [done | done |]. split; rewrite ?fmap_app.
    + apply Forall_app. split; [done|]. constructor; [|done]. by apply bind_message_checks.
    + by apply NoDup_snoc.
    + by apply NoDup_snoc.
Qed.

(** ** Lemmas: text *)

Lemma uuid_text `{UuidLaws} u max e :
  (36 <= max)%nat -> validate_text (uuid_to_string u) max e = Ok tt.
Proof.
  intros Hm. pose proof (uuid_length u) as Hl. pose proof (uuid_characters u) as HF. unfold validate_text.
  assert (HA : Forall (fun c => (is_ascii c = true /\ is_whitespace (code c) = false)
                               /\ char_eqb NUL c = false) (uuid_to_string u)).
  { apply (Forall_impl _ _ _ HF). intros c Hc.
    destruct c as [[] [] [] [] [] [] [] []]; vm_compute in Hc |- *; done. }
  assert (HU := utf8_chars_ascii (uuid_to_string u)
                  (Forall_impl _ _ _ HA (fun _ H => proj1 (proj1 H)))).
  rewrite nonblank_text.
  - assert (contains_char NUL (uuid_to_string u) = false) as ->.
    { apply existsb_false, (Forall_impl _ _ _ HA). by intros c [_ ?]. }
    rewrite Hl, (proj2 (Nat.ltb_ge _ _)) by lia. done.
  - unfold valid_utf8. by rewrite HU.
  - by destruct (uuid_to_string u).
  - unfold chars. rewrite HU. cbn [from_option]. unfold Datatypes.id. apply existsb_false, Forall_map.
    apply (Forall_impl _ _ _ HA). by intros c [[_ ?] _].
Qed.

(** A message of an admitted envelope meets the outbox's bounds. *)
Lemma job_message_admitted `{UuidLaws} {J} `{!JobEnvelope.Job J, !JsonWriter (JobEnvelope J)}
    row_id destination (e : JobEnvelope J) body :
  encode e = Ok body -> valid_utf8 (name e) = true -> nonempty body = true ->
  0 <= version e <= u16_max -> 0 <= attempt e <= u16_max ->
  exists m, outbox_job row_id destination e = Ok m /\ valid_message m
            /\ om_id m = row_id /\ om_kind m = Job /\ om_destination m = destination
            /\ om_message_id m = uuid_to_string (id e) /\ om_message_type m = name e
            /\ om_payload m = body.
Proof.
  intros HE HU HB HV HA. pose proof (proj1 (encode_Ok e body) HE) as ([[_ HN] _ Ha _ _] & _ & _ & Hl).
  unfold outbox_job, message. rewrite HE. cbn [map_err].
  unfold from_job_message, outbox_message_new. cbn [msg_id msg_name msg_version msg_attempt msg_payload].
  assert (HF : validate_durable_message_fields (uuid_to_string (id e)) (name e) (uuid_to_string (id e))
                 (attempt e) body = Ok tt).
  { unfold validate_durable_message_fields. rewrite !uuid_text by (unfold MAX_MESSAGE_ID_BYTES, MAX_ORDERING_KEY_BYTES; lia).
    unfold is_valid_job_name in HN.
    repeat rewrite andb_true_iff in HN. rewrite !negb_true_iff, Nat.leb_le in HN.
    destruct HN as [[[HN1 HN2] HN3] HN4]. unfold validate_text.
    rewrite nonblank_text by done. unfold NUL. rewrite HN3.
    unfold MAX_JOB_NAME_BYTES, MAX_JOB_ENVELOPE_BYTES in *.
    rewrite (proj2 (Nat.ltb_ge _ _)) by (unfold MAX_MESSAGE_TYPE_BYTES; lia). cbn [orb].
    rewrite (proj2 (Z.eqb_neq _ _)) by done. rewrite HB. cbn [negb orb].
    rewrite (proj2 (Nat.ltb_ge _ _)) by (unfold MAX_PAYLOAD_BYTES; lia). done. }
  rewrite HF. cbn [map_err]. eexists. split; [reflexivity|].
  split_and!; [|done..]. split; cbn [om_message_id om_message_type om_ordering_key om_delivery_attempt
    om_payload om_schema_version om_priority]; [done | done | done | unfold u8_max; lia].
Qed.

(** ** Lemmas: what a relay does to the rows *)

(** The columns no statement of a relay writes. *)
Definition same_message (a b : Row) : Prop :=
  r_id a = r_id b /\ source_key a = source_key b /\ r_message_type a = r_message_type b
  /\ r_schema_version a = r_schema_version b /\ r_ordering_key a = r_ordering_key b
  /\ r_delivery_attempt a = r_delivery_attempt b /\ r_payload a = r_payload b
  /\ r_priority a = r_priority b /\ r_created_at a = r_created_at b.

#[export] Instance same_message_equivalence : Equivalence same_message.
Proof.
  split.
  - intros a. done.
  - intros a b. unfold same_message.
    intros (? & ? & ? & ? & ? & ? & ? & ? & ?). split_and!; by symmetry.
  - intros a b c. unfold same_message.
    intros (? & ? & ? & ? & ? & ? & ? & ? & ?) (? & ? & ? & ? & ? & ? & ? & ? & ?).
    split_and!; by etrans.
Qed.

(** A broker: what it has accepted, which never shrinks. *)
Class BrokerLaws {W M E} `{!World W} (publish : M -> W -> result unit E * W)
    (accepted : W -> list M) : Prop := {
  publish_accepts : forall m w w', publish m w = (Ok tt, w') -> m ∈ accepted w';
  publish_keeps : forall m w, accepted w ⊆ accepted (snd (publish m w));
  new_v4_keeps : forall w, accepted w ⊆ accepted (snd (new_v4 w))
}.

(** Reading a record keeps its lease. *)
Class KeepsLease {M} (try_from_record : StoredLease -> result (Leased M) OutboxError) : Prop :=
  keeps_lease : forall record l, try_from_record record = Ok l -> leased_lease l = sl_lease record.

#[export] Instance event_keeps_lease `{UuidApi} : KeepsLease event_try_from_record.
Proof. intros record l. unfold event_try_from_record. intros. repeat case_match; simp. Qed.
#[export] Instance job_keeps_lease `{UuidApi} : KeepsLease job_try_from_record.
Proof. intros record l. unfold job_try_from_record. intros. repeat case_match; simp. Qed.

Definition is_published (r : Row) : Prop := is_some (r_published_at r) = true.

Section safety.
Context `{Postgres, UuidApi} {W : Type} `{!World W}.
Context {M E : Type} (kind : OutboxKind)
  (try_from_record : StoredLease -> result (Leased M) OutboxError)
  (publish : M -> W -> result unit E * W) (accepted : W -> list M).
Context (destination : OutboxDestination) (config : RelayConfig).
Context `{!BrokerLaws publish accepted, !KeepsLease try_from_record}.

(** [m] is the message stored in the row. *)
Definition carries (m : M) (r : Row) : Prop :=
  exists token record l,
    stored_lease kind destination token r = Ok record
    /\ try_from_record record = Ok l /\ leased_message l = m.

(** How a row may change while [w] is reached: the message stays, a published row
    is final, and a row is only marked published once the broker has its message. *)
Definition kept (w : W) (a b : Row) : Prop :=
  same_message a b
  /\ (is_published a -> b = a)
  /\ (is_published b -> is_published a \/ exists m r, m ∈ accepted w /\ carries m r /\ same_message a r).

Lemma kept_refl w a : kept w a a.
Proof. split_and!; [done | done | tauto]. Qed.

Lemma kept_mono w w' a b : accepted w ⊆ accepted w' -> kept w a b -> kept w' a b.
Proof.
  intros HS (HM & HF & HP). split_and!; [done | done |]. intros Hb.
  destruct (HP Hb) as [?|(m & r & Hm & ?)]; [tauto|]. right. exists m, r. split; [by apply HS | done].
Qed.

Definition rows_kept (w : W) (t t' : list Row) : Prop := Forall2 (kept w) t t'.

Lemma rows_kept_refl w t : rows_kept w t t.
Proof. induction t; constructor; [apply kept_refl | done]. Qed.

Lemma rows_kept_mono w w' t t' : accepted w ⊆ accepted w' -> rows_kept w t t' -> rows_kept w' t t'.
Proof. intros HS HT. apply (Forall2_impl _ _ _ _ HT). intros a b. by apply kept_mono. Qed.

(** A statement that changes each row in a permitted way. *)
Lemma rows_kept_map w t t' f :
  rows_kept w t t' -> (forall a b, a ∈ t -> b ∈ t' -> kept w a b -> kept w a (f b)) ->
  rows_kept w t (map f t').
Proof.
  unfold rows_kept. induction 1 as [|a b t t' Hab HT IH]; intros Hf; [done|]. constructor.
  - apply Hf; [set_solver..|done].
  - apply IH. intros. apply Hf; set_solver.
Qed.

Lemma execute_cases {T R} text (statement : T -> result (R * T) SqlxError) t :
  (exists e, execute text statement t = (Err e, t))
  \/ exists r t', statement t = Ok (r, t') /\ execute text statement t = (Ok r, t').
Proof.
  unfold execute. destruct (accepts text); [|by left; eexists].
  destruct (statement t) as [[r t']|e]; [right; by eexists _, _ | left; by eexists].
Qed.

Lemma unique_row t a b : NoDup (r_id <$> t) -> a ∈ t -> b ∈ t -> r_id a = r_id b -> a = b.
Proof.
  intros HN (i & Ha)%list_elem_of_lookup (j & Hb)%list_elem_of_lookup HE.
  assert (i = j) as ->; [|congruence]. eapply (NoDup_lookup (r_id <$> t)); [done|..].
  - by rewrite list_lookup_fmap, Ha.
  - by rewrite list_lookup_fmap, Hb, HE.
Qed.

Lemma kept_ids w t t' : rows_kept w t t' -> r_id <$> t' = r_id <$> t.
Proof. induction 1 as [|a b t t' [[HE _] _] _ IH]; [done|]. rewrite !fmap_cons, IH. by rewrite HE. Qed.

Definition candidates (batch now : Z) (locked : Uuid -> bool) (t : list Row) : list Row :=
  take (Z.to_nat batch)
    (merge_sort row_le
       (filter (fun r => claimable (kind_as_str kind) destination now locked r = true) t)).

Lemma candidates_spec batch now locked t r :
  r ∈ candidates batch now locked t ->
  r ∈ t /\ claimable (kind_as_str kind) destination now locked r = true.
Proof.
  intros (i & Hi)%list_elem_of_lookup. unfold candidates in Hi.
  apply lookup_take_Some in Hi as [Hi _]. apply list_elem_of_lookup_2 in Hi.
  rewrite merge_sort_Permutation, list_elem_of_filter in Hi. tauto.
Qed.

Lemma claimable_open k d now locked r : claimable k d now locked r = true -> ~ is_published r.
Proof. unfold claimable, is_published. intros H1 H2. bool_hyps. congruence. Qed.

(** The claiming statement leaves every message where it is. *)
Lemma claim_kept w batch token millis now locked t rows t' :
  NoDup (r_id <$> t) ->
  claim (kind_as_str kind) destination batch token millis now locked t = Ok (rows, t') ->
  rows_kept w t t' /\ Forall (fun r => exists a, a ∈ t /\ same_message a r) rows.
Proof.
  intros HN. unfold claim. fold (candidates batch now locked t). destruct (existsb _ _); [done|].
  intros [= <- <-]. split.
  - apply rows_kept_map; [apply rows_kept_refl|]. intros a b Ha Hb HK.
    destruct (existsb _ _) eqn:HE; [|done].
    apply existsb_exists in HE as (c & Hc & HE). apply list_elem_of_In, candidates_spec in Hc as [Hc HC].
    apply Z.eqb_eq in HE. pose proof (unique_row t c b HN Hc Hb HE) as ->.
    pose proof (claimable_open _ _ _ _ _ HC) as Ho. destruct HK as (HM & HF & HP).
    split_and!; [done | | by intros ?%Ho]. intros Hp. exfalso. apply Ho. by rewrite (HF Hp).
  - apply Forall_forall. intros r. rewrite merge_sort_Permutation.
    intros (c & -> & [Hc _]%candidates_spec)%list_elem_of_fmap. by exists c.
Qed.

(** A lease belongs to a row of the table and carries its message. *)
Definition lease_of (t : list Row) (l : Leased M) : Prop :=
  exists a r, a ∈ t /\ same_message a r /\ carries (leased_message l) r
              /\ lease_id (leased_lease l) = r_id a.

Lemma lease_records_kept st r st' :
  NoDup (r_id <$> fst st) ->
  lease_records kind try_from_record destination (rc_lease config) st = (r, st') ->
  rows_kept (snd st') (fst st) (fst st')
  /\ match r with Ok leases => Forall (lease_of (fst st)) leases | Err _ => True end.
Proof.
  destruct st as [t w]. cbn [fst snd]. intros HN. unfold lease_records, lease.
  destruct (duration_millis _) as [millis|e].
  2:{ intros [= <- <-]. split; [apply rows_kept_refl | done]. }
  destruct (new_v4 w) as [token w'].
  destruct (execute_cases lease_sql
              (claim (kind_as_str kind) destination (batch_size (rc_lease config)) token millis
                 (clock w') (row_locked w')) t) as [(e & ->) | (rows & t' & HC & ->)].
  { intros [= <- <-]. split; [apply rows_kept_refl | done]. }
  apply (claim_kept w') in HC as [HK HR]; [|done]. cbn [map_err].
  destruct (collect_results (map (stored_lease kind destination token) rows)) as [records|e] eqn:HS.
  2:{ intros [= <- <-]. done. }
  destruct (collect_results (map try_from_record records)) as [leases|e] eqn:HL; intros [= <- <-];
    [|done]. split; [done|].
  apply collect_results_Ok in HS, HL. apply Forall_forall. intros l Hl.
  assert (Hrec : Ok l ∈ map try_from_record records) by (rewrite HL; by apply list_elem_of_fmap_2).
  apply list_elem_of_fmap in Hrec as (record & HE & Hrec).
  assert (Hrow : Ok record ∈ map (stored_lease kind destination token) rows)
    by (rewrite HS; by apply list_elem_of_fmap_2).
  apply list_elem_of_fmap in Hrow as (row & HE' & Hrow).
  rewrite Forall_forall in HR. destruct (HR row Hrow) as (a & Ha & HM). exists a, row.
  split_and!; [done | done | by exists token, record, l |].
  rewrite (keeps_lease _ _ (eq_sym HE)). destruct HM as [-> _].
  revert HE'. unfold stored_lease. intros. repeat case_match; simp.
Qed.

Lemma settle_kept t0 w t l text f r t' :
  (forall a b, a ∈ t0 -> kept w a b -> owned_by l b = true -> kept w a (f b)) ->
  rows_kept w t0 t -> execute text (update_where (owned_by l) f) t = (r, t') -> rows_kept w t0 t'.
Proof.
  intros Hf HK HE.
  destruct (execute_cases text (update_where (owned_by l) f) t) as [(e & HE') | (n & t'' & HU & HE')];
    rewrite HE' in HE; injection HE as <- <-; [done|].
  injection HU as <- <-. apply rows_kept_map; [done|]. intros a b Ha _ Hab.
  destruct (owned_by l b) eqn:HO; [by apply Hf | done].
Qed.

Lemma owned_open l b : owned_by l b = true -> ~ is_published b.
Proof. unfold owned_by, is_published. intros HO HP. bool_hyps. congruence. Qed.

Lemma acknowledge_kept t0 t w l r st' :
  NoDup (r_id <$> t0) -> rows_kept w t0 t -> lease_of t0 l -> leased_message l ∈ accepted w ->
  acknowledge (leased_lease l) (t, w) = (r, st') -> snd st' = w /\ rows_kept w t0 (fst st').
Proof.
  intros HN HK (a' & r' & Ha' & HM' & HC & Hid) HA. unfold acknowledge.
  destruct (execute _ _ t) as [n t'] eqn:HE. intros [= <- <-]. split; [done|].
  eapply settle_kept; [|done|done]. intros a b Ha (HM & HF & _) HO.
  assert (a = a') as ->.
  { apply (unique_row t0); [done..|]. rewrite <- Hid, (proj1 HM). unfold owned_by in HO. by bool_hyps. }
  split_and!; [done | | intros _; right; by exists (leased_message l), r'].
  intros Hp. destruct (owned_open _ _ HO). by rewrite (HF Hp).
Qed.

Lemma retry_kept t0 t w l delay r st' :
  rows_kept w t0 t -> retry l delay (t, w) = (r, st') -> snd st' = w /\ rows_kept w t0 (fst st').
Proof.
  intros HK. unfold retry. destruct (duration_millis delay) as [n|e]; [|by intros [= <- <-]].
  destruct (execute _ _ t) as [n' t'] eqn:HE. intros [= <- <-]. split; [done|].
  eapply settle_kept; [|done|done]. intros a b Ha (HM & HF & HP) HO.
  split_and!; [done | | by intros ?%(owned_open _ _ HO)].
  intros Hp. destruct (owned_open _ _ HO). by rewrite (HF Hp).
Qed.

Lemma relay_leases_kept t0 leases report st r st' :
  NoDup (r_id <$> t0) -> rows_kept (snd st) t0 (fst st) -> Forall (lease_of t0) leases ->
  relay_leases publish config leases report st = (r, st') -> rows_kept (snd st') t0 (fst st').
Proof.
  intros HN. revert report st. induction leases as [|l leases IH]; intros report [t w] HK HL.
  { by intros [= <- <-]. }
  apply Forall_cons in HL as [Hl HL]. cbn [relay_leases fst snd] in *.
  pose proof (publish_keeps (BrokerLaws := BrokerLaws0) (leased_message l) w) as HS.
  destruct (publish (leased_message l) w) as [sent w'] eqn:HP. cbn [snd] in HS.
  apply (rows_kept_mono w w') in HK; [|done]. destruct sent as [[]|source].
  - destruct (acknowledge _ _) as [o st1] eqn:HA.
    apply (acknowledge_kept t0 t w' l) in HA as [Hw HK']; [|done|done|done|by eapply publish_accepts].
    rewrite <- Hw in HK'. destruct o as [[]|e]; [by apply IH.. | by intros [= <- <-]].
  - destruct (retry _ _ _) as [o st1] eqn:HR.
    apply (retry_kept t0) in HR as [Hw HK']; [|done]. rewrite <- Hw in HK'.
    destruct o as [[]|e]; by intros [= <- <-].
Qed.
End safety.

(** ** Lemmas: the inbox *)

Section inbox_lemmas.
Context `{Postgres}.
Context (HA : accepts register_sql = true).

Lemma deliver_eq d receipts effects :
  deliver d (receipts, effects) =
    if bool_decide (delivery_key d ∈ receipts) then (receipts, effects)
    else if commit d then ({[delivery_key d]} ∪ receipts, effects ++ [delivery_key d])
    else (receipts, effects).
Proof.
  unfold deliver, register, execute. rewrite HA. unfold insert_receipt, delivery_key.
  by destruct (bool_decide _).
Qed.

(** The receipts are the effects, each once. *)
Lemma deliver_inv ds st :
  NoDup (snd st) -> (forall k, k ∈ snd st <-> k ∈ fst st) ->
  let st' := foldl (fun st d => deliver d st) st ds in
  NoDup (snd st') /\ (forall k, k ∈ snd st' <-> k ∈ fst st')
  /\ forall k, k ∈ snd st' <-> k ∈ snd st \/ exists d, d ∈ ds /\ delivery_key d = k /\ commit d = true.
Proof.
  revert st. induction ds as [|d ds IH]; intros [receipts effects]; cbn [fst snd foldl]; intros HN HE.
  { split_and!; [done | done |]. intros k. set_solver. }
  rewrite deliver_eq. destruct (bool_decide _) eqn:HD.
  - apply bool_decide_eq_true in HD. destruct (IH (receipts, effects) HN HE) as (H1 & H2 & H3).
    split_and!; [done | done |]. intros k. rewrite H3. cbn [snd]. split; [set_solver|].
    intros [?|(d' & Hd & <- & HC)]; [tauto|].
    apply elem_of_cons in Hd as [->|Hd]; [left; by apply HE | right; by exists d'].
  - apply bool_decide_eq_false in HD. destruct (commit d) eqn:HC.
    + destruct (IH ({[delivery_key d]} ∪ receipts, effects ++ [delivery_key d])) as (H1 & H2 & H3).
      { apply NoDup_snoc; [done|]. by rewrite HE. }
      { cbn [fst snd]. intros k. rewrite elem_of_app, HE. set_solver. }
      split_and!; [done | done |]. intros k. rewrite H3. cbn [snd]. rewrite elem_of_app. set_solver.
    + destruct (IH (receipts, effects) HN HE) as (H1 & H2 & H3).
      split_and!; [done | done |]. intros k. rewrite H3. cbn [snd]. split; [set_solver|].
      intros [?|(d' & Hd & <- & HC')]; [tauto|]. right. exists d'.
      apply elem_of_cons in Hd as [->|Hd]; [congruence | done].
Qed.
End inbox_lemmas.

(** ** Properties *)

(** C32: No relay pass gets past its first statement. The three statements of
    [lease/storage.rs] end their lines with an escaped backslash, so the server
    is sent a backslash outside quotes and rejects them: for every table, kind,
    publisher and valid lease configuration [relay_once] reports a database error
    and a failed pass, publishes nothing and leaves the table as it was, and
    [run_until] stops with that error in its first pass; confirming or releasing
    a lease fails the same way. *)
Theorem relay_rejected `{PostgresLaws, UuidApi} {W M E} `{!World W} kind
    (try_from_record : StoredLease -> result (Leased M) OutboxError)
    (publish : M -> W -> result unit E * W) destination config table w batch duration :
  lease_config_new batch duration = Ok (rc_lease config) ->
  let failure := Outbox (Database StatementRejected) in
  relay_once kind try_from_record publish destination config (table, w) =
    (Err failure, [RelayPassStarted kind; RelayPassFinished kind Failed None], (table, snd (new_v4 w)))
  /\ (forall fuel idle total w',
        shutdown_resolved w = (false, w') ->
        run_until kind try_from_record publish destination config (S fuel) idle total (table, w) =
          Some (Err failure, (table, snd (new_v4 w'))))
  /\ forall l, acknowledge l (table, w) = (Err (Database StatementRejected), (table, w))
               /\ exists e, retry l (retry_delay config) (table, w) = (Err e, (table, w)).
Proof.
  intros HC failure. destruct lease_texts_rejected as (HL & HA & HR).
  destruct (lease_config_millis _ _ _ HC) as [n Hn].
  assert (HO : forall w, relay_once kind try_from_record publish destination config (table, w) =
    (Err failure, [RelayPassStarted kind; RelayPassFinished kind Failed None], (table, snd (new_v4 w)))).
  { intros v. unfold relay_once, relay_once_inner, lease_records, lease. rewrite Hn.
    destruct (new_v4 v). by rewrite execute_rejected. }
  split_and!; [apply HO | |].
  - intros fuel idle total w' HS. cbn [run_until snd fst]. by rewrite HS, HO.
  - intros l. unfold acknowledge, retry. rewrite !execute_rejected by done.
    split; [done|]. destruct (duration_millis (retry_delay config)); rewrite ?execute_rejected by done; by eexists.
Qed.

(** Staging a job. An envelope that encodes is never refused by the outbox's
    bounds: it becomes a message whose row carries its id, name and body, and
    staging it inserts exactly that row, available now, when no row has its
    destination and id, and otherwise leaves the table, and so the first staged
    row, alone. The table's constraints hold afterwards. *)
Theorem job_staged_once `{Postgres} `{UuidLaws} {J} `{!JobEnvelope.Job J, !JsonWriter (JobEnvelope J)}
    row_id destination (e : JobEnvelope J) body now table :
  accepts stage_sql = true -> encode e = Ok body -> valid_utf8 (name e) = true ->
  nonempty body = true -> 0 <= version e <= u16_max -> 0 <= attempt e <= u16_max ->
  wf_table table -> row_id ∉ r_id <$> table ->
  exists m,
    outbox_job row_id destination e = Ok m
    /\ om_message_type m = name e /\ om_payload m = body
    /\ let key := (##"job", destination, uuid_to_string (id e)) in
       let '(r, table') := stage m now table in
       wf_table table'
       /\ (key ∈ source_key <$> table -> r = Ok AlreadyPresent /\ table' = table)
       /\ (key ∉ source_key <$> table ->
           r = Ok (Inserted row_id) /\ table' = table ++ [bind_message m now now]).
Proof.
  intros HA HE HU HB HV Ha HT Hid.
  destruct (job_message_admitted row_id destination e body HE HU HB HV Ha)
    as (m & -> & HM & Hi & Hk & Hd & Hm & Ht & Hp).
  exists m. split_and!; [done..|]. unfold stage, execute. rewrite HA.
  assert (source_key_of m = (##"job", destination, uuid_to_string (id e))) as <-.
  { unfold source_key_of. by rewrite Hk, Hd, Hm. }
  rewrite <- Hi in Hid |- *.
  destruct (insert_row_cases m now now table HM HT Hid) as [[Hin ->] | (Hin & -> & HT')].
  - split_and!; [done | done | tauto].
  - split_and!; [done | tauto | done].
Qed.

(** C27: A relay pass keeps every row. Whatever the server, the publisher and the
    stored records do, a pass of [relay_once] on a table with unique ids neither
    adds nor loses a row, changes no message column and no published row, and
    marks a row as published only when the broker has accepted the message the
    row carries. *)
Theorem confirmed_after_publish `{Postgres, UuidApi} {W M E} `{!World W} kind
    (try_from_record : StoredLease -> result (Leased M) OutboxError)
    (publish : M -> W -> result unit E * W) (accepted : W -> list M)
    `{!BrokerLaws publish accepted, !KeepsLease try_from_record} destination config st :
  NoDup (r_id <$> fst st) ->
  let st' := snd (relay_once kind try_from_record publish destination config st) in
  rows_kept kind try_from_record accepted destination (snd st') (fst st) (fst st').
Proof.
  intros HN. unfold relay_once, relay_once_inner.
  destruct (lease_records _ _ _ _ st) as [[leases|e] st1] eqn:HL.
  - apply (lease_records_kept kind try_from_record publish accepted _ _ _ _ _ HN) in HL as [HK HL].
    destruct (relay_leases _ _ _ _ _) as [r st'] eqn:HR. cbn [snd].
    by eapply (relay_leases_kept kind try_from_record publish accepted).
  - by apply (lease_records_kept kind try_from_record publish accepted _ _ _ _ _ HN) in HL as [HK _].
Qed.

(** C33: Effects behind the inbox happen once. For every sequence of deliveries,
    repeated, to several consumers and with transactions that commit or roll
    back, to consumers that follow the contract of [register], each consumer and
    source id has its effect exactly once when some delivery of it committed and
    never otherwise. *)
Theorem inbox_exactly_once `{Postgres} (ds : list Delivery) :
  accepts register_sql = true ->
  let effects := snd (foldl (fun st d => deliver d st) (∅, []) ds) in
  NoDup effects
  /\ forall k, k ∈ effects <-> exists d, d ∈ ds /\ delivery_key d = k /\ commit d = true.
Proof.
  intros HA. destruct (deliver_inv HA ds (∅, [])) as (HN & _ & HE).
  - apply NoDup_nil_2.
  - set_solver.
  - split; [done|]. intros k. rewrite HE. set_solver.
Qed.

(** ** Examples *)

Module OutboxExamples.
Import UuidModel.

(** A server that accepts any text without a backslash. *)
Definition server : Postgres := fun text => negb (contains_char (byte_of 92) text).
Lemma server_laws : PostgresLaws (H := server).
Proof.
  intros plain rest _. unfold accepts, server, contains_char. rewrite existsb_app. cbn [existsb].
  by rewrite orb_true_r.
Qed.

(** A world with a clock, a counter for identifiers and a broker's log. *)
Record Shop : Type := { time : Z; next_uuid : Z; log : list EventMessage }.
#[export] Instance shop : World Shop := {|
  clock := time;
  row_locked _ _ := false;
  new_v4 w := (next_uuid w, {| time := time w; next_uuid := next_uuid w + 1; log := log w |});
  shutdown_resolved w := (false, w);
  shutdown_within _ w := (false, w)
|}.
Definition append (m : EventMessage) (w : Shop) : result unit unit * Shop :=
  (Ok tt, {| time := time w + 1; next_uuid := next_uuid w; log := log w ++ [m] |}).

#[export] Instance append_laws : BrokerLaws append log.
Proof. split; [intros m w w' [= <-] | intros m w | intros w]; simpl; set_solver. Qed.

Definition paid : EventMessage := {|
  ev_id := 7; ev_type := ##"orders.paid"; ev_version := 1; ev_key := ##"acct-7"; ev_payload := ##"{}"
|}.
Definition paid_row : Row :=
  match from_event_message 1 ##"orders.events" paid with
  | Ok m => bind_message m 100 100
  | Err _ => bind_message {| om_id := 0; om_kind := Event; om_destination := []; om_message_id := [];
      om_message_type := []; om_schema_version := 0; om_ordering_key := []; om_delivery_attempt := 0;
      om_priority := 0; om_payload := [] |} 0 0
  end.
Definition config : RelayConfig :=
  {| rc_lease := {| batch_size := 10; lease_duration := from_millis 30000 |};
     retry_delay := from_millis 1000 |}.
Definition start : list Row * Shop := ([paid_row], {| time := 200; next_uuid := 50; log := [] |}).

(** On a server that accepts every statement, the pass publishes and confirms. *)
Example pass_publishes :
  relay_once (H := fun _ => true) Event event_try_from_record append ##"orders.events" config start =
    (Ok {| claimed := 1; published := 1; retry_scheduled := 0; lease_lost := 0 |},
     [RelayPassStarted Event;
      RelayPassFinished Event Succeeded
        (Some {| claimed := 1; published := 1; retry_scheduled := 0; lease_lost := 0 |})],
     ([confirm_row 201 (claim_row 50 30000200 paid_row)], {| time := 201; next_uuid := 51; log := [paid] |})).
Proof. vm_compute. reflexivity. Qed.

Lemma relay_rejected_witness :
  fst (fst (relay_once (H := server) Event event_try_from_record append ##"orders.events" config start))
  = Err (Outbox (Database StatementRejected)).
Proof.
  rewrite (proj1 (relay_rejected (H := server) (H0 := server_laws) Event event_try_from_record append
                    ##"orders.events" config (fst start) (snd start) 10 (from_millis 30000) eq_refl)).
  reflexivity.
Defined.

Lemma confirmed_after_publish_witness :
  rows_kept Event event_try_from_record log ##"orders.events" {| time := 201; next_uuid := 51; log := [paid] |}
    [paid_row] [confirm_row 201 (claim_row 50 30000200 paid_row)].
Proof.
  pose proof (confirmed_after_publish (H := fun _ => true) Event event_try_from_record append log
                ##"orders.events" config start (NoDup_singleton 1)) as HK.
  rewrite pass_publishes in HK. exact HK.
Defined.

#[local] Existing Instance JobExamples.resize.
#[local] Existing Instance JobExamples.envelope_writer.
Definition first : JobEnvelope Z := JobExamples.first.

Lemma job_staged_once_witness :
  exists m, outbox_job 9 ##"jobs" first = Ok m /\
    stage (H := server) m 5 [] = (Ok (Inserted 9), [bind_message m 5 5]).
Proof.
  destruct JobExamples.first_encodes as [body HE].
  destruct (job_staged_once (H := server) 9 ##"jobs" first body 5 []) as (m & HO & _ & _ & HS).
  - vm_compute. reflexivity.
  - exact HE.
  - vm_compute. reflexivity.
  - apply encode_Ok in HE as (_ & _ & -> & _). vm_compute. reflexivity.
  - by split.
  - by split.
  - split; [constructor | apply NoDup_nil_2..].
  - apply not_elem_of_nil.
  - exists m. split; [exact HO|]. destruct (stage m 5 []) as [r t].
    destruct HS as (_ & _ & HS). destruct HS as [-> ->]; [apply not_elem_of_nil | reflexivity].
Defined.

Definition twice : list Delivery :=
  [ {| to_consumer := ##"mail"; source_id := ##"1"; commit := false |};
    {| to_consumer := ##"mail"; source_id := ##"1"; commit := true |};
    {| to_consumer := ##"mail"; source_id := ##"1"; commit := true |} ].
Lemma inbox_exactly_once_witness :
  NoDup (snd (foldl (fun st d => deliver (H := server) d st) (∅, []) twice)).
Proof. apply (inbox_exactly_once (H := server) twice). vm_compute. reflexivity. Defined.
End OutboxExamples.
