(* ===== verification/Auth.v ===== *)
(** Authentication and authorization: [crates/rustee-auth] and
    [crates/rustee-tenant].

    Principals and their admission, bearer and API-key authentication, scope and
    permission policies and tenant isolation. Verifiers and stores are functions
    the layers are given. A stack of layers is a list of [Guard]s; the theorems
    say which requests reach the handler behind one. *)

From Stdlib Require Import ZArith Lia Bool Ascii.
From stdpp Require Import gmap sets.
From S2P Require Import Prelude Strings Http Core HttpModel.

Local Open Scope Z_scope.

(** ** Principals: [principal/admission.rs] and [principal/model.rs] *)

Definition MAX_PRINCIPAL_IDENTIFIER_BYTES : nat := 1024.
Definition MAX_PRINCIPAL_AUTHORIZATION_VALUE_BYTES : nat := 256.
Definition MAX_PRINCIPAL_AUTHORIZATION_VALUES : nat := 64.

Inductive PrincipalError : Type :=
| BlankField (field : str)
| ValueTooLong (field : str) (max_bytes : nat)
| TooManyValues (field : str) (max_values : nat).

Definition ensure_not_blank (value field : str) : result unit PrincipalError :=
  if is_blank value then Err (BlankField field) else Ok tt.

Definition ensure_within_byte_limit (value field : str) (max_bytes : nat) : result unit PrincipalError :=
  if (max_bytes <? List.length value)%nat then Err (ValueTooLong field max_bytes) else Ok tt.

Definition validate_identifier (value field : str) : result unit PrincipalError :=
  let? _ := ensure_not_blank value field in
  ensure_within_byte_limit value field MAX_PRINCIPAL_IDENTIFIER_BYTES.

Definition insert_authorization_value (values : gset str) (value field : str) :
    result (gset str) PrincipalError :=
  let? _ := ensure_not_blank value field in
  let? _ := ensure_within_byte_limit value field MAX_PRINCIPAL_AUTHORIZATION_VALUE_BYTES in
  if negb (bool_decide (value ∈ values)) && (size values =? MAX_PRINCIPAL_AUTHORIZATION_VALUES)%nat
  then Err (TooManyValues field MAX_PRINCIPAL_AUTHORIZATION_VALUES)
  else Ok ({[value]} ∪ values).

Definition principal_new (sub : str) : result Principal PrincipalError :=
  let? _ := validate_identifier sub ##"subject" in
  Ok {| subject := sub; issuer := None; tenant := None; scopes := ∅; roles := ∅; permissions := ∅ |}.

Definition with_issuer (iss : str) (p : Principal) : result Principal PrincipalError :=
  let? _ := validate_identifier iss ##"issuer" in
  Ok {| subject := subject p; issuer := Some iss; tenant := tenant p; scopes := scopes p;
        roles := roles p; permissions := permissions p |}.

Definition with_tenant (t : str) (p : Principal) : result Principal PrincipalError :=
  let? _ := validate_identifier t ##"tenant" in
  Ok {| subject := subject p; issuer := issuer p; tenant := Some t; scopes := scopes p;
        roles := roles p; permissions := permissions p |}.

Definition with_scope (p : Principal) (scope : str) : result Principal PrincipalError :=
  let? values := insert_authorization_value (scopes p) scope ##"scopes" in
  Ok {| subject := subject p; issuer := issuer p; tenant := tenant p; scopes := values;
        roles := roles p; permissions := permissions p |}.

Definition with_role (p : Principal) (role : str) : result Principal PrincipalError :=
  let? values := insert_authorization_value (roles p) role ##"roles" in
  Ok {| subject := subject p; issuer := issuer p; tenant := tenant p; scopes := scopes p;
        roles := values; permissions := permissions p |}.

Definition with_permission (p : Principal) (permission : str) : result Principal PrincipalError :=
  let? values := insert_authorization_value (permissions p) permission ##"permissions" in
  Ok {| subject := subject p; issuer := issuer p; tenant := tenant p; scopes := scopes p;
        roles := roles p; permissions := values |}.

(** [for x in l { a = f(a, x)?; }]. *)
Fixpoint try_fold {A B E} (f : A -> B -> result A E) (l : list B) (a : A) : result A E :=
  match l with
  | [] => Ok a
  | x :: l' => let? a := f a x in try_fold f l' a
  end.

Definition from_verified_claims (sub iss : str) (ten : option str) (sc ro pe : list str) :
    result Principal PrincipalError :=
  let? p := principal_new sub in
  let? p := with_issuer iss p in
  let? p := match ten with Some t => with_tenant t p | None => Ok p end in
  let? p := try_fold with_scope sc p in
  let? p := try_fold with_role ro p in
  try_fold with_permission pe p.

(** [Principal::from_serialized]; the sets are read in ascending order. *)
Definition principal_from_serialized (sub : str) (iss ten : option str) (sc ro pe : list str) :
    result Principal PrincipalError :=
  let? p := principal_new sub in
  let? p := match iss with Some i => with_issuer i p | None => Ok p end in
  let? p := match ten with Some t => with_tenant t p | None => Ok p end in
  let? p := try_fold with_scope sc p in
  let? p := try_fold with_role ro p in
  try_fold with_permission pe p.

Definition has_scope (p : Principal) (scope : str) : bool := bool_decide (scope ∈ scopes p).
Definition has_permission (p : Principal) (x : str) : bool := bool_decide (x ∈ permissions p).

(** Principals compare and count by their parts. *)
Definition principal_parts (p : Principal) := (subject p, issuer p, tenant p, scopes p, roles p, permissions p).
Definition principal_of_parts '((s, i, t, sc, r, p) : str * option str * option str * gset str * gset str * gset str) : Principal :=
  {| subject := s; issuer := i; tenant := t; scopes := sc; roles := r; permissions := p |}.
#[export] Instance Principal_eq_dec : EqDecision Principal.
Proof. solve_decision. Defined.
#[export] Instance Principal_countable : Countable Principal.
Proof. apply (inj_countable' principal_parts principal_of_parts). by intros []. Defined.

(** ** Bearer credentials: [bearer/token.rs], [bearer/authenticator.rs] and [bearer/http.rs] *)

Definition MAX_BEARER_TOKEN_BYTES : nat := 16 * 1024.

Inductive AuthError : Type :=
| MissingBearerToken
| InvalidBearerToken
| RejectedBearerToken
| AuthProviderUnavailable.

Definition is_bearer_token_character (c : ascii) : bool :=
  is_ascii_alphanumeric c || existsb (char_eqb c) ##"-._~+/".

Definition is_valid_bearer_token (token : str) : bool :=
  let credential := trim_end_matches "=" token in
  nonempty credential
  && (List.length token <=? MAX_BEARER_TOKEN_BYTES)%nat
  && forallb is_bearer_token_character credential.

(** [StaticTokenAuthenticator]. *)
Notation StaticTokens := (gmap str Principal).
Inductive StaticTokenError : Type := BlankToken | InvalidToken | DuplicateToken.

Definition static_insert (token : str) (p : Principal) (tokens : StaticTokens) :
    result StaticTokens StaticTokenError :=
  if is_blank token then Err BlankToken
  else if negb (is_valid_bearer_token token) then Err InvalidToken
  else if is_some (tokens !! token) then Err DuplicateToken
  else Ok (<[token := p]> tokens).

Definition static_authenticate (tokens : StaticTokens) (token : str) : result Principal AuthError :=
  ok_or (tokens !! token) RejectedBearerToken.

(** ** API keys: [api_key/authenticator.rs], [api_key/pepper.rs] and [api_key/http.rs] *)

Definition MAX_API_KEY_BYTES : nat := 4 * 1024.
Definition MAX_RETIRED_API_KEY_PEPPERS : nat := 2.

Inductive ApiKeyError : Type :=
| MissingApiKey
| InvalidApiKey
| RejectedApiKey
| ApiKeyProviderUnavailable.

Definition is_valid_api_key_value (value : str) : bool :=
  nonempty value
  && (List.length value <=? MAX_API_KEY_BYTES)%nat
  && forallb (in_range 33 126) value.

(** 32 bytes of secret material. *)
Definition ApiKeyPepper : Type := bytes.
Definition ApiKeyFingerprint : Type := bytes.

(** [ApiKeyPepper::new]; [None] is [AllZero]. *)
Definition pepper_new (material : bytes) : option ApiKeyPepper :=
  if forallb (fun b => code b =? 0) material then None else Some material.

Record ApiKeyPepperRing : Type := { active : ApiKeyPepper; retired : list ApiKeyPepper }.
Inductive ApiKeyPepperRingError : Type := TooManyRetired | DuplicatePepper.

Definition retain_pepper (act : ApiKeyPepper) (retained : list ApiKeyPepper) (candidate : ApiKeyPepper) :
    result (list ApiKeyPepper) ApiKeyPepperRingError :=
  if (List.length retained =? MAX_RETIRED_API_KEY_PEPPERS)%nat then Err TooManyRetired
  else if str_eqb candidate act || existsb (str_eqb candidate) retained then Err DuplicatePepper
  else Ok (retained ++ [candidate]).

Definition ring_with_retired (act : ApiKeyPepper) (ret : list ApiKeyPepper) :
    result ApiKeyPepperRing ApiKeyPepperRingError :=
  let? retained := try_fold (retain_pepper act) ret [] in
  Ok {| active := act; retired := retained |}.

Section keyed.
(** HMAC-SHA-256 of a message under a key; [None] when the key is not usable. *)
Context (hmac_sha256 : bytes -> bytes -> option bytes).
(** [ApiKeyFingerprintStore::authenticate]. *)
Context {St : Type} (store : ApiKeyFingerprint -> St -> result Principal ApiKeyError * St).

Definition fingerprint_valid_api_key (pepper : ApiKeyPepper) (api_key : str) :
    result ApiKeyFingerprint ApiKeyError :=
  ok_or (hmac_sha256 pepper api_key) ApiKeyProviderUnavailable.

Definition fingerprint (pepper : ApiKeyPepper) (api_key : str) : result ApiKeyFingerprint ApiKeyError :=
  if negb (is_valid_api_key_value api_key) then Err InvalidApiKey
  else fingerprint_valid_api_key pepper api_key.

Definition fingerprints (ring : ApiKeyPepperRing) (api_key : str) :
    result (list ApiKeyFingerprint) ApiKeyError :=
  if negb (is_valid_api_key_value api_key) then Err InvalidApiKey
  else
    let? first := fingerprint_valid_api_key (active ring) api_key in
    let? rest := collect_results (map (fun p => fingerprint_valid_api_key p api_key) (retired ring)) in
    Ok (first :: rest).

(** [KeyedApiKeyAuthenticator]. *)
Definition keyed_authenticate (pepper : ApiKeyPepper) (api_key : str) (st : St) :
    result Principal ApiKeyError * St :=
  match fingerprint pepper api_key with
  | Err e => (Err e, st)
  | Ok f => store f st
  end.

Fixpoint lookup_fingerprints (fs : list ApiKeyFingerprint) (st : St) :
    result Principal ApiKeyError * St :=
  match fs with
  | [] => (Err RejectedApiKey, st)
  | f :: rest =>
      let '(r, st) := store f st in
      match r with
      | Ok p => (Ok p, st)
      | Err RejectedApiKey => lookup_fingerprints rest st
      | Err e => (Err e, st)
      end
  end.

(** [RotatingKeyedApiKeyAuthenticator]. *)
Definition rotating_authenticate (ring : ApiKeyPepperRing) (api_key : str) (st : St) :
    result Principal ApiKeyError * St :=
  match fingerprints ring api_key with
  | Err e => (Err e, st)
  | Ok fs => lookup_fingerprints fs st
  end.
End keyed.

(** ** Policies: [policy/permission.rs] and [policy/scope.rs] *)

Definition exceeds_principal_authorization_value_limit (value : str) : bool :=
  (MAX_PRINCIPAL_AUTHORIZATION_VALUE_BYTES <? List.length value)%nat.

(** [RolePolicy]: the permissions granted to a role. *)
Notation RolePolicy := (gmap str (gset str)).

Inductive RolePolicyError : Type :=
| BlankRole
| EmptyPermissions
| BlankPermission
| RoleTooLong (max_bytes : nat)
| PermissionTooLong (max_bytes : nat).

(** [any] over a [BTreeSet]. *)
Definition set_any (f : str -> bool) (s : gset str) : bool := existsb f (elements s).
Definition set_all (f : str -> bool) (s : gset str) : bool := forallb f (elements s).

Definition grant (role : str) (granted : list str) (policy : RolePolicy) :
    result RolePolicy RolePolicyError :=
  if is_blank role then Err BlankRole
  else if exceeds_principal_authorization_value_limit role
  then Err (RoleTooLong MAX_PRINCIPAL_AUTHORIZATION_VALUE_BYTES)
  else
    let granted : gset str := list_to_set granted in
    if bool_decide (granted = ∅) then Err EmptyPermissions
    else if set_any is_blank granted then Err BlankPermission
    else if set_any exceeds_principal_authorization_value_limit granted
    then Err (PermissionTooLong MAX_PRINCIPAL_AUTHORIZATION_VALUE_BYTES)
    else Ok (<[role := default ∅ (policy !! role) ∪ granted]> policy).

Definition permits (policy : RolePolicy) (p : Principal) (permission : str) : bool :=
  has_permission p permission
  || set_any (fun role =>
       match policy !! role with
       | Some granted => bool_decide (permission ∈ granted)
       | None => false
       end) (roles p).

Record RequirePermissionsLayer : Type := { required_permissions : gset str; role_policy : RolePolicy }.
Inductive PermissionPolicyError : Type :=
| PermEmptyRequirement
| PermBlank
| PermTooLong (max_bytes : nat).

Definition require_permissions_new (required : list str) (policy : RolePolicy) :
    result RequirePermissionsLayer PermissionPolicyError :=
  let required : gset str := list_to_set required in
  if bool_decide (required = ∅) then Err PermEmptyRequirement
  else if set_any is_blank required then Err PermBlank
  else if set_any exceeds_principal_authorization_value_limit required
  then Err (PermTooLong MAX_PRINCIPAL_AUTHORIZATION_VALUE_BYTES)
  else Ok {| required_permissions := required; role_policy := policy |}.

Record RequireScopesLayer : Type := { required_scopes : gset str }.
Inductive ScopePolicyError : Type :=
| EmptyRequirement
| BlankScope
| ScopeTooLong (max_bytes : nat)
| TooManyScopes (max_values : nat).

Definition add_required_scope (required : gset str) (scope : str) : result (gset str) ScopePolicyError :=
  if negb (bool_decide (scope ∈ required)) && (size required =? MAX_PRINCIPAL_AUTHORIZATION_VALUES)%nat
  then Err (TooManyScopes MAX_PRINCIPAL_AUTHORIZATION_VALUES)
  else Ok ({[scope]} ∪ required).

Definition require_scopes_new (requested : list str) : result RequireScopesLayer ScopePolicyError :=
  let? required := try_fold add_required_scope requested ∅ in
  if bool_decide (required = ∅) then Err EmptyRequirement
  else if set_any is_blank required then Err BlankScope
  else if set_any exceeds_principal_authorization_value_limit required
  then Err (ScopeTooLong MAX_PRINCIPAL_AUTHORIZATION_VALUE_BYTES)
  else Ok {| required_scopes := required |}.

(** ** Tenants: [crates/rustee-tenant/src/lib.rs] and [tenant.rs] *)

Definition MAX_TENANT_IDENTIFIER_BYTES : nat := 1024.
Inductive TenantContextError : Type := BlankTenant | TenantTooLong | TenantContainsNul.

Definition tenant_context_new (t : str) : result TenantContext TenantContextError :=
  if is_blank t then Err BlankTenant
  else if (MAX_TENANT_IDENTIFIER_BYTES <? List.length t)%nat then Err TenantTooLong
  else if contains_char (byte_of 0) t then Err TenantContainsNul
  else Ok t.

Inductive HostTenantResolverError : Type := EmptyMapping | InvalidHost | DuplicateHost.

Section hosts.
Context `{HttpApi}.
(** [host.parse::<http::uri::Authority>()], with the text it keeps. *)
Context (parse_authority : str -> option str).

Definition canonical_host (host : str) : result str HostTenantResolverError :=
  if is_blank host || contains_any [" "%char; byte_of 34; "@"%char] host then Err InvalidHost
  else ok_or (option_map to_ascii_lowercase (parse_authority host)) InvalidHost.

Notation HostTenants := (gmap str TenantContext).

Definition add_host (tenants : HostTenants) (entry : str * TenantContext) :
    result HostTenants HostTenantResolverError :=
  let? host := canonical_host (fst entry) in
  if is_some (tenants !! host) then Err DuplicateHost else Ok (<[host := snd entry]> tenants).

Definition host_resolver_new (hosts : list (str * TenantContext)) :
    result HostTenants HostTenantResolverError :=
  let? tenants := try_fold add_host hosts ∅ in
  if bool_decide (tenants = ∅) then Err EmptyMapping else Ok tenants.

Definition request_host (headers : HeaderMap) : option str :=
  match hm_get_all HOST headers with
  | [host] =>
      text ← hv_to_str host;
      match canonical_host text with Ok h => Some h | Err _ => None end
  | _ => None
  end.

Definition host_resolve (tenants : HostTenants) (request : Request) : option TenantContext :=
  host ← request_host (req_headers request);
  tenants !! host.
End hosts.

(** ** Layers *)

Section layers.
Context `{HttpApi} `{!Serialize ErrorPayload}.

Definition extract_bearer_token (headers : HeaderMap) : result str AuthError :=
  match hm_get_all AUTHORIZATION headers with
  | [] => Err MissingBearerToken
  | [value] =>
      let? text := ok_or (hv_to_str value) InvalidBearerToken in
      match split_once " " text with
      | Some (scheme, token) =>
          if eq_ignore_ascii_case scheme ##"Bearer" && is_valid_bearer_token token
          then Ok token else Err InvalidBearerToken
      | None => Err InvalidBearerToken
      end
  | _ => Err InvalidBearerToken
  end.

Definition challenge (code message scheme : str) : Response :=
  with_headers (hm_insert WWW_AUTHENTICATE (hv_from_static scheme))
    (into_response (mk_error 401 code message)).

Definition authentication_unavailable : Error :=
  mk_error 503 ##"authentication_unavailable" ##"authentication service is unavailable".

Definition authentication_response (e : AuthError) : Response :=
  match e with
  | MissingBearerToken => challenge ##"missing_bearer_token" ##"a bearer token is required" ##"Bearer"
  | InvalidBearerToken | RejectedBearerToken =>
      challenge ##"invalid_bearer_token" ##"the bearer token is invalid" ##"Bearer"
  | AuthProviderUnavailable => into_response authentication_unavailable
  end.

Definition auth_call (authenticate : str -> result Principal AuthError) (inner : Service)
    (request : Request) : Response :=
  match extract_bearer_token (req_headers request) with
  | Err e => authentication_response e
  | Ok token =>
      match authenticate token with
      | Err e => authentication_response e
      | Ok p => call_ready inner (with_req_extensions (set_principal p) request)
      end
  end.

Definition api_key_header_value (headers : HeaderMap) (header_name : str) : result str ApiKeyError :=
  match hm_get_all header_name headers with
  | [] => Err MissingApiKey
  | [value] =>
      let? text := ok_or (hv_to_str value) InvalidApiKey in
      if negb (is_valid_api_key_value text) then Err InvalidApiKey else Ok text
  | _ => Err InvalidApiKey
  end.

Definition api_key_authentication_response (e : ApiKeyError) : Response :=
  match e with
  | MissingApiKey => challenge ##"missing_api_key" ##"an API key is required" ##"ApiKey"
  | InvalidApiKey | RejectedApiKey =>
      challenge ##"invalid_api_key" ##"the API key is invalid" ##"ApiKey"
  | ApiKeyProviderUnavailable => into_response authentication_unavailable
  end.

Definition api_key_call (header_name : str) (authenticate : str -> result Principal ApiKeyError)
    (inner : Service) (request : Request) : Response :=
  match api_key_header_value (req_headers request) header_name with
  | Err e => api_key_authentication_response e
  | Ok api_key =>
      match authenticate api_key with
      | Err e => api_key_authentication_response e
      | Ok p => call_ready inner (with_req_extensions (set_principal p) request)
      end
  end.

Definition insufficient_scope : Error :=
  mk_error 403 ##"insufficient_scope" ##"the authenticated principal lacks a required scope".
Definition insufficient_permission : Error :=
  mk_error 403 ##"insufficient_permission" ##"the authenticated principal lacks a required permission".
Definition tenant_not_found : Error :=
  mk_error 404 ##"tenant_not_found" ##"the requested tenant is not available".
Definition tenant_resolution_unavailable : Error :=
  mk_error 503 ##"tenant_resolution_unavailable" ##"tenant resolution is unavailable".
Definition tenant_mismatch : Error :=
  mk_error 403 ##"tenant_mismatch" ##"the authenticated principal does not belong to this tenant".
Definition tenant_context_missing : Error :=
  mk_error 500 ##"tenant_context_missing" ##"tenant context is required for this route".

Definition scopes_call (l : RequireScopesLayer) (inner : Service) (request : Request) : Response :=
  match ext_principal (req_extensions request) with
  | None => authentication_response MissingBearerToken
  | Some p =>
      if negb (set_all (has_scope p) (required_scopes l)) then into_response insufficient_scope
      else call_ready inner request
  end.

Definition permissions_call (l : RequirePermissionsLayer) (inner : Service) (request : Request) : Response :=
  match ext_principal (req_extensions request) with
  | None => authentication_response MissingBearerToken
  | Some p =>
      if negb (set_all (permits (role_policy l) p) (required_permissions l))
      then into_response insufficient_permission
      else call_ready inner request
  end.

(** A [TenantResolver]; its error is never shown. *)
Definition TenantResolver : Type := Request -> Principal -> result (option TenantContext) unit.

Definition tenant_resolution_call (resolver : TenantResolver) (inner : Service) (request : Request) :
    Response :=
  match ext_principal (req_extensions request) with
  | None => authentication_response MissingBearerToken
  | Some p =>
      match resolver request p with
      | Ok (Some context) =>
          if bool_decide (tenant p = Some context)
          then call_ready inner (with_req_extensions (set_tenant context) request)
          else into_response tenant_mismatch
      | Ok None => into_response tenant_not_found
      | Err _ => into_response tenant_resolution_unavailable
      end
  end.

Definition tenant_match_call (inner : Service) (request : Request) : Response :=
  match ext_principal (req_extensions request) with
  | None => authentication_response MissingBearerToken
  | Some p =>
      match ext_tenant (req_extensions request) with
      | None => into_response tenant_context_missing
      | Some context =>
          if bool_decide (tenant p = Some context) then call_ready inner request
          else into_response tenant_mismatch
      end
  end.

(** [AuthUser], [RequireAuth]: [bearer/extractor.rs]. *)
Definition required_principal (request : Request) : result Principal Error :=
  ok_or (ext_principal (req_extensions request))
    (mk_error 401 ##"unauthenticated" ##"authentication is required").

(** One layer of a stack, and the service it makes of an inner one. *)
Inductive Guard : Type :=
| Bearer (authenticate : str -> result Principal AuthError)
| ApiKey (header_name : str) (authenticate : str -> result Principal ApiKeyError)
| Scopes (l : RequireScopesLayer)
| Permissions (l : RequirePermissionsLayer)
| TenantResolution (resolver : TenantResolver)
| TenantMatch.

Definition layer (g : Guard) (inner : Service) : Service :=
  match g with
  | Bearer a => auth_call a inner
  | ApiKey header a => api_key_call header a inner
  | Scopes l => scopes_call l inner
  | Permissions l => permissions_call l inner
  | TenantResolution r => tenant_resolution_call r inner
  | TenantMatch => tenant_match_call inner
  end.

(** The outermost layer comes first. *)
Definition stack (gs : list Guard) (handler : Service) : Service := foldr layer handler gs.
End layers.

(** ** Lemmas: principals *)

Lemma try_fold_cons {A B E} (f : A -> B -> result A E) x l a b :
  try_fold f (x :: l) a = Ok b <-> exists a', f a x = Ok a' /\ try_fold f l a' = Ok b.
Proof. cbn [try_fold]. destruct (f a x) as [a'|e]; naive_solver. Qed.

Definition valid_identifier (v : str) : Prop :=
  is_blank v = false /\ (List.length v <= MAX_PRINCIPAL_IDENTIFIER_BYTES)%nat.
Definition valid_value (v : str) : Prop :=
  is_blank v = false /\ (List.length v <= MAX_PRINCIPAL_AUTHORIZATION_VALUE_BYTES)%nat.

Lemma principal_identifier_Ok v f : validate_identifier v f = Ok tt <-> valid_identifier v.
Proof.
  unfold validate_identifier, ensure_not_blank, ensure_within_byte_limit, valid_identifier.
  destruct (is_blank v); [naive_solver|]. destruct (_ <? _)%nat eqn:E; bool_hyps; [|done].
  split; [done|]. intros [_ ?]. lia.
Qed.

Lemma insert_value_Ok s v f s' :
  (size s <= MAX_PRINCIPAL_AUTHORIZATION_VALUES)%nat ->
  insert_authorization_value s v f = Ok s' <->
  s' = {[v]} ∪ s /\ valid_value v /\ (size s' <= MAX_PRINCIPAL_AUTHORIZATION_VALUES)%nat.
Proof.
  intros Hs. unfold insert_authorization_value, ensure_not_blank, ensure_within_byte_limit, valid_value.
  destruct (is_blank v); [naive_solver|]. destruct (_ <? _)%nat eqn:E; bool_hyps.
  { split; [done|]. intros (_ & [_ ?] & _). lia. }
  destruct (decide (v ∈ s)) as [Hv|Hv].
  - rewrite bool_decide_eq_true_2 by done. cbn [negb andb].
    assert ({[v]} ∪ s = s) as -> by set_solver. naive_solver.
  - rewrite bool_decide_eq_false_2 by done. cbn [negb andb].
    assert (size ({[v]} ∪ s) = S (size s)) as HS by (rewrite size_union by set_solver; by rewrite size_singleton).
    destruct (_ =? _)%nat eqn:E'; [apply Nat.eqb_eq in E' | apply Nat.eqb_neq in E'].
    + split; [done|]. intros (-> & _ & ?). lia.
    + split; [intros [= <-]; split_and!; [done..|lia] | naive_solver].
Qed.

(** Adding a list of values to one of the three sets. *)
Record ValueSet : Type := {
  field_of : Principal -> gset str;
  set_field : gset str -> Principal -> Principal;
  set_name : str
}.
Definition add_value (f : ValueSet) (p : Principal) (v : str) : result Principal PrincipalError :=
  let? values := insert_authorization_value (field_of f p) v (set_name f) in
  Ok (set_field f values p).

Definition scopes_field : ValueSet := {|
  field_of := scopes;
  set_field s p := {| subject := subject p; issuer := issuer p; tenant := tenant p; scopes := s;
                      roles := roles p; permissions := permissions p |};
  set_name := ##"scopes"
|}.
Definition roles_field : ValueSet := {|
  field_of := roles;
  set_field s p := {| subject := subject p; issuer := issuer p; tenant := tenant p; scopes := scopes p;
                      roles := s; permissions := permissions p |};
  set_name := ##"roles"
|}.
Definition permissions_field : ValueSet := {|
  field_of := permissions;
  set_field s p := {| subject := subject p; issuer := issuer p; tenant := tenant p; scopes := scopes p;
                      roles := roles p; permissions := s |};
  set_name := ##"permissions"
|}.

Class LawfulField (f : ValueSet) : Prop := {
  field_set s p : field_of f (set_field f s p) = s;
  set_set s s' p : set_field f s (set_field f s' p) = set_field f s p;
  set_get p : set_field f (field_of f p) p = p
}.
#[export] Instance scopes_lawful : LawfulField scopes_field.
Proof. by split; intros; try destruct p. Qed.
#[export] Instance roles_lawful : LawfulField roles_field.
Proof. by split; intros; try destruct p. Qed.
#[export] Instance permissions_lawful : LawfulField permissions_field.
Proof. by split; intros; try destruct p. Qed.

Lemma try_fold_values f `{!LawfulField f} l p q :
  (size (field_of f p) <= MAX_PRINCIPAL_AUTHORIZATION_VALUES)%nat ->
  try_fold (add_value f) l p = Ok q <->
  q = set_field f (list_to_set l ∪ field_of f p) p /\ Forall valid_value l
  /\ (size (list_to_set l ∪ field_of f p : gset str) <= MAX_PRINCIPAL_AUTHORIZATION_VALUES)%nat.
Proof.
  revert p q. induction l as [|v l IH]; intros p q Hp.
  - cbn [try_fold list_to_set]. rewrite (left_id_L ∅ (∪)), set_get. naive_solver.
  - rewrite try_fold_cons. unfold add_value at 1.
    assert (HU : list_to_set (v :: l) ∪ field_of f p = list_to_set l ∪ ({[v]} ∪ field_of f p)) by set_solver.
    rewrite HU, Forall_cons. split.
    + intros (a' & HA & HF). destruct (insert_authorization_value _ _ _) as [s|] eqn:HI; [|done].
      injection HA as <-. apply insert_value_Ok in HI as (-> & Hv & Hs); [|done].
      rewrite IH, !field_set, set_set in HF by (by rewrite field_set). tauto.
    + intros (-> & [Hv Hl] & Hsize).
      assert (Hs : (size ({[v]} ∪ field_of f p) <= MAX_PRINCIPAL_AUTHORIZATION_VALUES)%nat).
      { etrans; [|exact Hsize]. apply subseteq_size. set_solver. }
      exists (set_field f ({[v]} ∪ field_of f p) p). split.
      * rewrite (proj2 (insert_value_Ok (field_of f p) v (set_name f) ({[v]} ∪ field_of f p) Hp));
          [done|].
        split_and!; done.
      * rewrite IH, !field_set, set_set by (by rewrite field_set). done.
Qed.

(** What every admitted principal satisfies. *)
Record wf_principal (p : Principal) : Prop := {
  wf_subject : valid_identifier (subject p);
  wf_issuer : from_option valid_identifier True (issuer p);
  wf_tenant : from_option valid_identifier True (tenant p);
  wf_scopes : set_Forall valid_value (scopes p)
              /\ (size (scopes p) <= MAX_PRINCIPAL_AUTHORIZATION_VALUES)%nat;
  wf_roles : set_Forall valid_value (roles p)
             /\ (size (roles p) <= MAX_PRINCIPAL_AUTHORIZATION_VALUES)%nat;
  wf_permissions : set_Forall valid_value (permissions p)
                   /\ (size (permissions p) <= MAX_PRINCIPAL_AUTHORIZATION_VALUES)%nat
}.

Lemma empty_fits : (size (∅ : gset str) <= MAX_PRINCIPAL_AUTHORIZATION_VALUES)%nat.
Proof. rewrite size_empty. unfold MAX_PRINCIPAL_AUTHORIZATION_VALUES. lia. Qed.

(** The three passes over the value lists. *)
Lemma try_fold_sets sc ro pe sub iss ten q :
  (let? p := try_fold with_scope sc {| subject := sub; issuer := iss; tenant := ten; scopes := ∅;
                                       roles := ∅; permissions := ∅ |} in
   let? p := try_fold with_role ro p in
   try_fold with_permission pe p) = Ok q <->
  q = {| subject := sub; issuer := iss; tenant := ten; scopes := list_to_set sc;
         roles := list_to_set ro; permissions := list_to_set pe |}
  /\ (Forall valid_value sc /\ (size (list_to_set sc : gset str) <= MAX_PRINCIPAL_AUTHORIZATION_VALUES)%nat)
  /\ (Forall valid_value ro /\ (size (list_to_set ro : gset str) <= MAX_PRINCIPAL_AUTHORIZATION_VALUES)%nat)
  /\ (Forall valid_value pe /\ (size (list_to_set pe : gset str) <= MAX_PRINCIPAL_AUTHORIZATION_VALUES)%nat).
Proof.
  change with_scope with (add_value scopes_field). change with_role with (add_value roles_field).
  change with_permission with (add_value permissions_field).
  set (p0 := Build_Principal sub iss ten ∅ ∅ ∅).
  pose proof (fun q => try_fold_values scopes_field sc p0 q empty_fits) as HS.
  destruct (try_fold (add_value scopes_field) sc p0) as [p1|e].
  2:{ split; [done|]. intros (_ & [HF Hs] & _). cbn [p0 field_of scopes_field scopes] in HS.
      rewrite (right_id_L ∅ (∪)) in HS. discriminate (proj2 (HS _) (conj eq_refl (conj HF Hs))). }
  destruct (proj1 (HS p1) eq_refl) as (-> & HF1 & Hs1). clear HS.
  cbn [p0 set_field field_of scopes_field subject issuer tenant scopes roles permissions] in *.
  rewrite (right_id_L ∅ (∪)) in Hs1 |- *.
  set (p1 := Build_Principal sub iss ten (list_to_set sc) ∅ ∅).
  pose proof (fun q => try_fold_values roles_field ro p1 q empty_fits) as HR.
  destruct (try_fold (add_value roles_field) ro p1) as [p2|e].
  2:{ split; [done|]. intros (_ & _ & [HF Hs] & _). cbn [p1 field_of roles_field roles] in HR.
      rewrite (right_id_L ∅ (∪)) in HR. discriminate (proj2 (HR _) (conj eq_refl (conj HF Hs))). }
  destruct (proj1 (HR p2) eq_refl) as (-> & HF2 & Hs2). clear HR.
  cbn [p1 set_field field_of roles_field subject issuer tenant scopes roles permissions] in *.
  rewrite (right_id_L ∅ (∪)) in Hs2 |- *.
  rewrite (try_fold_values permissions_field) by apply empty_fits.
  cbn [set_field field_of permissions_field subject issuer tenant scopes roles permissions].
  rewrite (right_id_L ∅ (∪)). tauto.
Qed.

Lemma principal_from_serialized_Ok sub iss ten sc ro pe q :
  principal_from_serialized sub iss ten sc ro pe = Ok q <->
  q = {| subject := sub; issuer := iss; tenant := ten; scopes := list_to_set sc;
         roles := list_to_set ro; permissions := list_to_set pe |}
  /\ valid_identifier sub /\ from_option valid_identifier True iss
  /\ from_option valid_identifier True ten
  /\ (Forall valid_value sc /\ (size (list_to_set sc : gset str) <= MAX_PRINCIPAL_AUTHORIZATION_VALUES)%nat)
  /\ (Forall valid_value ro /\ (size (list_to_set ro : gset str) <= MAX_PRINCIPAL_AUTHORIZATION_VALUES)%nat)
  /\ (Forall valid_value pe /\ (size (list_to_set pe : gset str) <= MAX_PRINCIPAL_AUTHORIZATION_VALUES)%nat).
Proof.
  unfold principal_from_serialized, principal_new, with_issuer, with_tenant.
  pose proof (principal_identifier_Ok sub ##"subject") as HS.
  destruct (validate_identifier sub _) as [[]|]; [|naive_solver]. cbn [subject issuer tenant].
  assert (HI := fun i => principal_identifier_Ok i ##"issuer").
  assert (HT := fun t => principal_identifier_Ok t ##"tenant").
  destruct iss as [i|]; [specialize (HI i); destruct (validate_identifier i _) as [[]|]; [|naive_solver]|];
    (destruct ten as [t|]; [specialize (HT t); destruct (validate_identifier t _) as [[]|]; [|naive_solver]|]);
    cbn [from_option]; rewrite try_fold_sets; naive_solver.
Qed.

(** ** Lemmas: policies *)

Lemma set_all_spec f s : set_all f s = true <-> set_Forall (fun x => f x = true) s.
Proof.
  unfold set_all. rewrite forallb_Forall, Forall_forall. unfold set_Forall.
  split; intros HF x Hx; apply HF; by apply elem_of_elements.
Qed.

Lemma set_any_spec f s : set_any f s = true <-> exists x, x ∈ s /\ f x = true.
Proof.
  unfold set_any. rewrite existsb_exists'. rewrite Exists_exists.
  split; intros (x & Hx & HF); exists x; (split; [by apply elem_of_elements | done]).
Qed.

(** The permissions a principal has, directly or through a role. *)
Definition granted (policy : RolePolicy) (p : Principal) (x : str) : Prop :=
  x ∈ permissions p \/ exists role xs, role ∈ roles p /\ policy !! role = Some xs /\ x ∈ xs.

Lemma permits_spec policy p x : permits policy p x = true <-> granted policy p x.
Proof.
  unfold permits, granted, has_permission. rewrite orb_true_iff, bool_decide_eq_true, set_any_spec.
  split; (intros [?|HR]; [by left | right]).
  - destruct HR as (role & Hr & HF). destruct (policy !! role) as [xs|] eqn:E; [|done].
    apply bool_decide_eq_true in HF. by exists role, xs.
  - destruct HR as (role & xs & Hr & HP & Hx). exists role. rewrite HP. split; [done|].
    by apply bool_decide_eq_true.
Qed.

(** ** Lemmas: credentials *)

Lemma trim_end_matches_spec c s : exists n, s = trim_end_matches c s ++ repeat c n.
Proof.
  induction s as [|d s [n IH]]; [by exists 0%nat|]. cbn [trim_end_matches].
  destruct (trim_end_matches c s) as [|e t] eqn:E; [|exists n; by rewrite IH at 1].
  cbn [app] in IH. destruct (char_eqb d c) eqn:Ed.
  - apply char_eqb_true in Ed as ->. exists (S n). by rewrite IH at 1.
  - exists n. by rewrite IH at 1.
Qed.

Lemma trim_end_matches_app c body n :
  Forall (fun d => d <> c) body -> trim_end_matches c (body ++ repeat c n) = body.
Proof.
  induction 1 as [|d body Hd _ IH]; cbn [app].
  - induction n as [|n IHn]; [done|]. cbn [repeat trim_end_matches]. by rewrite IHn, char_eqb_refl.
  - cbn [trim_end_matches]. rewrite IH. destruct body; [|done].
    destruct (char_eqb d c) eqn:E; [by apply char_eqb_true in E | done].
Qed.

(** RFC 6750: [b64token = 1*( ALPHA / DIGIT / "-" / "." / "_" / "~" / "+" / "/" ) *"="],
    of bounded length. *)
Definition b64token (token : str) : Prop :=
  (List.length token <= MAX_BEARER_TOKEN_BYTES)%nat
  /\ exists body n, token = body ++ repeat "="%char n /\ body <> []
                    /\ Forall (fun c => is_bearer_token_character c = true) body.

Lemma valid_bearer_token token : is_valid_bearer_token token = true <-> b64token token.
Proof.
  unfold is_valid_bearer_token, b64token. rewrite !andb_true_iff, Nat.leb_le, forallb_Forall. split.
  - intros [[HN HL] HF]. split; [done|]. destruct (trim_end_matches_spec "=" token) as [n Hn].
    exists (trim_end_matches "=" token), n. split_and!; [done | by destruct (trim_end_matches "=" token) | done].
  - intros [HL (body & n & -> & HB & HF)]. rewrite trim_end_matches_app.
    + split_and!; [by destruct body | done | done].
    + apply (Forall_impl _ _ _ HF). by intros c Hc ->.
Qed.

Section credentials.
Context `{HttpApi}.

(** The one bearer credential of a request. *)
Definition presents_bearer (headers : HeaderMap) (token : str) : Prop :=
  exists value scheme,
    hm_get_all AUTHORIZATION headers = [value]
    /\ hv_to_str value = Some (scheme ++ " "%char :: token)
    /\ " "%char ∉ scheme /\ eq_ignore_ascii_case scheme ##"Bearer" = true /\ b64token token.

Lemma extract_bearer_token_Ok headers token :
  extract_bearer_token headers = Ok token <-> presents_bearer headers token.
Proof.
  unfold extract_bearer_token, presents_bearer. destruct (hm_get_all AUTHORIZATION headers) as [|v [|v' vs]].
  1,3: split; [done | intros (? & ? & ? & _); done].
  destruct (hv_to_str v) as [text|] eqn:Hv; cbn [ok_or].
  2:{ split; [done|]. intros (? & ? & [= <-] & ? & _). congruence. }
  destruct (split_once " " text) as [[scheme t]|] eqn:Hs.
  - apply split_once_Some in Hs as [-> Hns].
    destruct (eq_ignore_ascii_case scheme _ && is_valid_bearer_token t) eqn:HB.
    + apply andb_true_iff in HB as [H1 H2%valid_bearer_token]. split.
      * intros [= <-]. by exists v, scheme.
      * intros (v' & scheme' & [= <-] & HE & Hns' & _). rewrite Hv in HE. injection HE as HE.
        assert (HS : split_once " " (scheme ++ " "%char :: t) = Some (scheme', token))
          by (by apply split_once_Some).
        rewrite (proj2 (split_once_Some _ _ _ _) (conj eq_refl Hns)) in HS. by injection HS as _ ->.
    + split; [done|]. intros (v' & scheme' & [= <-] & HE & Hns' & H1 & H2%valid_bearer_token).
      rewrite Hv in HE. injection HE as HE.
      assert (HS : split_once " " (scheme ++ " "%char :: t) = Some (scheme', token))
        by (by apply split_once_Some).
      rewrite (proj2 (split_once_Some _ _ _ _) (conj eq_refl Hns)) in HS. injection HS as -> ->.
      by rewrite H1, H2 in HB.
  - apply split_once_None in Hs. split; [done|]. intros (v' & scheme' & [= <-] & HE & _).
    rewrite Hv in HE. injection HE as ->. destruct Hs. set_solver.
Qed.

(** The one API key of a request. *)
Definition presents_api_key (header : str) (headers : HeaderMap) (key : str) : Prop :=
  exists value,
    hm_get_all header headers = [value] /\ hv_to_str value = Some key
    /\ key <> [] /\ (List.length key <= MAX_API_KEY_BYTES)%nat
    /\ Forall (fun c => in_range 33 126 c = true) key.

Lemma api_key_header_value_Ok header headers key :
  api_key_header_value headers header = Ok key <-> presents_api_key header headers key.
Proof.
  unfold api_key_header_value, presents_api_key. destruct (hm_get_all header headers) as [|v [|v' vs]].
  1,3: split; [done | intros (? & ? & _); done].
  destruct (hv_to_str v) as [text|] eqn:Hv; cbn [ok_or].
  2:{ split; [done|]. intros (? & [= <-] & ? & _). congruence. }
  assert (HV : is_valid_api_key_value text = true <->
    text <> [] /\ (List.length text <= MAX_API_KEY_BYTES)%nat /\ Forall (fun c => in_range 33 126 c = true) text).
  { unfold is_valid_api_key_value. rewrite !andb_true_iff, Nat.leb_le, forallb_Forall.
    assert (nonempty text = true <-> text <> []) by (by destruct text). tauto. }
  destruct (is_valid_api_key_value text) eqn:E; cbn [negb]; split.
  - intros [= <-]. exists v. split_and!; [done | done | by apply HV..].
  - intros (v' & [= <-] & HE & _). congruence.
  - done.
  - intros (v' & [= <-] & HE & HK). rewrite Hv in HE. injection HE as ->. by apply HV in HK.
Qed.
End credentials.

(** ** Specification: which requests a stack lets through *)

Section admission.
Context `{HttpApi} `{!Serialize ErrorPayload}.

(** One layer turns [r] into [q] and hands it on. *)
Inductive admits_one : Guard -> Request -> Request -> Prop :=
| admits_bearer a r token p :
    presents_bearer (req_headers r) token -> a token = Ok p ->
    admits_one (Bearer a) r (with_req_extensions (set_principal p) r)
| admits_api_key header a r key p :
    presents_api_key header (req_headers r) key -> a key = Ok p ->
    admits_one (ApiKey header a) r (with_req_extensions (set_principal p) r)
| admits_scopes l r p :
    ext_principal (req_extensions r) = Some p -> required_scopes l ⊆ scopes p ->
    admits_one (Scopes l) r r
| admits_permissions l r p :
    ext_principal (req_extensions r) = Some p ->
    set_Forall (granted (role_policy l) p) (required_permissions l) ->
    admits_one (Permissions l) r r
| admits_tenant resolver r p context :
    ext_principal (req_extensions r) = Some p -> resolver r p = Ok (Some context) ->
    tenant p = Some context ->
    admits_one (TenantResolution resolver) r (with_req_extensions (set_tenant context) r)
| admits_match r p context :
    ext_principal (req_extensions r) = Some p -> ext_tenant (req_extensions r) = Some context ->
    tenant p = Some context -> admits_one TenantMatch r r.

Inductive admits : list Guard -> Request -> Request -> Prop :=
| admits_nil r : admits [] r r
| admits_cons g gs r m q : admits_one g r m -> admits gs m q -> admits (g :: gs) r q.

Definition rejection (r : Response) : Prop := res_status r ∈ [401; 403; 404; 500; 503].

Lemma error_response_status e : res_status (into_response (e : Error)) = err_status e.
Proof.
  unfold into_response, error_into_response, json_response. by destruct (serde_json_to_vec _).
Qed.

Lemma challenge_rejects code message scheme : rejection (challenge code message scheme).
Proof. unfold rejection, challenge. cbn [with_headers res_status]. rewrite error_response_status. set_solver. Qed.

Lemma authentication_rejects e : rejection (authentication_response e).
Proof.
  destruct e; try apply challenge_rejects. unfold rejection. cbn [authentication_response].
  rewrite error_response_status. set_solver.
Qed.

Lemma api_key_rejects e : rejection (api_key_authentication_response e).
Proof.
  destruct e; try apply challenge_rejects. unfold rejection. cbn [api_key_authentication_response].
  rewrite error_response_status. set_solver.
Qed.

Lemma error_rejects e : err_status e ∈ [401; 403; 404; 500; 503] -> rejection (into_response (e : Error)).
Proof. intros HE. unfold rejection. by rewrite error_response_status. Qed.

(** A layer either hands on the one request it admits or answers by itself. *)
Definition decides (admitted : Request -> Prop) (run : Service -> Response) : Prop :=
  (exists q, admitted q /\ (forall q', admitted q' -> q' = q) /\ forall inner, run inner = call_ready inner q)
  \/ ((forall q, ~ admitted q) /\ exists answer, rejection answer /\ forall inner, run inner = answer).

Lemma decides_no (A : Request -> Prop) answer :
  (forall q, ~ A q) -> rejection answer -> decides A (fun _ => answer).
Proof. intros HA HR. right. split; [done|]. by exists answer. Qed.

Lemma decides_yes (A : Request -> Prop) q :
  A q -> (forall q', A q' -> q' = q) -> decides A (fun inner => call_ready inner q).
Proof. intros HA HU. left. by exists q. Qed.

(** Layers that authenticate. *)
Lemma credential_decides {K E} (A : Request -> Prop) (presents : K -> Prop) (extract : result K E)
    (authenticate : K -> result Principal E) (refuse : E -> Response) r :
  (forall k, extract = Ok k <-> presents k) -> (forall e, rejection (refuse e)) ->
  (forall q, A q <-> exists k p, presents k /\ authenticate k = Ok p
                              /\ q = with_req_extensions (set_principal p) r) ->
  decides A (fun inner =>
    match extract with
    | Err e => refuse e
    | Ok k => match authenticate k with
              | Err e => refuse e
              | Ok p => call_ready inner (with_req_extensions (set_principal p) r)
              end
    end).
Proof.
  intros HX HR HA. destruct extract as [k|e].
  2:{ apply decides_no; [|done]. intros q (k & p & Hk & _)%HA. by apply HX in Hk. }
  assert (Hk : presents k) by (by apply HX).
  assert (HU : forall k', presents k' -> k' = k) by (intros k' Hk'%HX; congruence).
  destruct (authenticate k) as [p|e] eqn:Ha.
  - apply decides_yes; [by apply HA; exists k, p|].
    intros q (k' & p' & ->%HU & Hp & ->)%HA. congruence.
  - apply decides_no; [|done]. intros q (k' & p' & ->%HU & Hp & _)%HA. congruence.
Qed.

(** Layers that check the principal and hand the request on as it is. *)
Lemma check_decides (A : Request -> Prop) (P : Principal -> Prop) check e r :
  (forall p, check p = true <-> P p) -> err_status e ∈ [401; 403; 404; 500; 503] ->
  (forall q, A q <-> q = r /\ exists p, ext_principal (req_extensions r) = Some p /\ P p) ->
  decides A (fun inner =>
    match ext_principal (req_extensions r) with
    | None => authentication_response MissingBearerToken
    | Some p => if negb (check p) then into_response e else call_ready inner r
    end).
Proof.
  intros HC HE HA. destruct (ext_principal (req_extensions r)) as [p|].
  2:{ apply decides_no; [|apply authentication_rejects]. by intros q (_ & p & ? & _)%HA. }
  destruct (check p) eqn:Hc; cbn [negb].
  - apply decides_yes; [|by intros q [-> _]%HA]. apply HA. split; [done|]. exists p. by rewrite <- HC.
  - apply decides_no; [|by apply error_rejects]. intros q (_ & p' & [= <-] & HP)%HA. apply HC in HP. congruence.
Qed.

Lemma scopes_decides l r : decides (admits_one (Scopes l) r) (fun inner => scopes_call l inner r).
Proof.
  apply (check_decides _ (fun p => required_scopes l ⊆ scopes p)).
  - intros p. rewrite set_all_spec. unfold set_Forall, has_scope. split; intros HF x Hx.
    + by apply HF, bool_decide_eq_true in Hx.
    + by apply bool_decide_eq_true, HF.
  - set_solver.
  - intros q. split; [inversion 1; subst; eauto|]. intros (-> & p & Hp & HP). by apply (admits_scopes l r p).
Qed.

Lemma permissions_decides l r :
  decides (admits_one (Permissions l) r) (fun inner => permissions_call l inner r).
Proof.
  apply (check_decides _ (fun p => set_Forall (granted (role_policy l) p) (required_permissions l))).
  - intros p. rewrite set_all_spec. unfold set_Forall. split; intros HF x Hx; by apply permits_spec, HF.
  - set_solver.
  - intros q. split; [inversion 1; subst; eauto|]. intros (-> & p & Hp & HP).
    by apply (admits_permissions l r p).
Qed.

Lemma tenant_resolution_decides resolver r :
  decides (admits_one (TenantResolution resolver) r) (fun inner => tenant_resolution_call resolver inner r).
Proof.
  unfold tenant_resolution_call. destruct (ext_principal (req_extensions r)) as [p|] eqn:Hp.
  2:{ apply decides_no; [|apply authentication_rejects]. inversion 1; congruence. }
  destruct (resolver r p) as [[context|]|e] eqn:Hr.
  - case_bool_decide as Ht.
    + apply decides_yes; [by apply (admits_tenant resolver r p)|]. inversion 1; congruence.
    + apply decides_no; [|apply error_rejects; set_solver]. inversion 1; congruence.
  - apply decides_no; [|apply error_rejects; set_solver]. inversion 1; congruence.
  - apply decides_no; [|apply error_rejects; set_solver]. inversion 1; congruence.
Qed.

Lemma tenant_match_decides r : decides (admits_one TenantMatch r) (fun inner => tenant_match_call inner r).
Proof.
  unfold tenant_match_call. destruct (ext_principal (req_extensions r)) as [p|] eqn:Hp.
  2:{ apply decides_no; [|apply authentication_rejects]. inversion 1; congruence. }
  destruct (ext_tenant (req_extensions r)) as [context|] eqn:Hc.
  2:{ apply decides_no; [|apply error_rejects; set_solver]. inversion 1; congruence. }
  case_bool_decide as Ht.
  - apply decides_yes; [by apply (admits_match r p context) | by inversion 1].
  - apply decides_no; [|apply error_rejects; set_solver]. inversion 1; congruence.
Qed.

Lemma layer_decides g r : decides (admits_one g r) (fun inner => layer g inner r).
Proof.
  destruct g as [a|header a|l|l|resolver|]; cbn [layer].
  - apply (credential_decides _ (presents_bearer (req_headers r)) _ a authentication_response).
    + apply extract_bearer_token_Ok.
    + apply authentication_rejects.
    + intros q. split; [inversion 1; subst; eauto|]. intros (k & p & Hk & Hp & ->).
      by apply (admits_bearer a r k).
  - apply (credential_decides _ (presents_api_key header (req_headers r)) _ a api_key_authentication_response).
    + apply api_key_header_value_Ok.
    + apply api_key_rejects.
    + intros q. split; [inversion 1; subst; eauto|]. intros (k & p & Hk & Hp & ->).
      by apply (admits_api_key header a r k).
  - apply scopes_decides.
  - apply permissions_decides.
  - apply tenant_resolution_decides.
  - apply tenant_match_decides.
Qed.

Lemma stack_decides gs r : decides (admits gs r) (fun handler => stack gs handler r).
Proof.
  revert r. induction gs as [|g gs IH]; intros r.
  - apply decides_yes; [constructor | by inversion 1].
  - destruct (layer_decides g r) as [(m & Hm & HU & HL) | (HN & answer & HR & HL)].
    + destruct (IH m) as [(q & Hq & HUq & HS) | (HN & answer & HR & HS)].
      * left. exists q. split_and!; [by econstructor | |].
        -- inversion 1; subst. assert (m0 = m) as -> by auto. auto.
        -- intros h. rewrite <- HS. apply (HL (stack gs h)).
      * right. split.
        -- intros q HQ. inversion HQ; subst. assert (m0 = m) as -> by auto. by eapply HN.
        -- exists answer. split; [done|]. intros h. rewrite <- (HS h). apply (HL (stack gs h)).
    + right. split; [intros q HQ; inversion HQ; subst; by eapply HN|].
      exists answer. split; [done|]. intros h. apply (HL (stack gs h)).
Qed.

(** Guards that keep the principal. *)
Definition authenticating (g : Guard) : bool :=
  match g with Bearer _ | ApiKey _ _ => true | _ => false end.

(** What a principal has to satisfy at a guard, with the tenant of the request. *)
Definition satisfies (p : Principal) (context : option TenantContext) (g : Guard) : Prop :=
  match g with
  | Bearer _ | ApiKey _ _ => True
  | Scopes l => required_scopes l ⊆ scopes p
  | Permissions l => set_Forall (granted (role_policy l) p) (required_permissions l)
  | TenantResolution _ | TenantMatch => is_Some (tenant p) /\ context = tenant p
  end.

Lemma admits_keeps_principal gs r q p :
  Forall (fun g => authenticating g = false) gs -> admits gs r q ->
  ext_principal (req_extensions r) = Some p ->
  ext_principal (req_extensions q) = Some p
  /\ (ext_tenant (req_extensions r) = tenant p -> ext_tenant (req_extensions q) = tenant p)
  /\ Forall (satisfies p (ext_tenant (req_extensions q))) gs.
Proof.
  intros HF HA. revert HF. induction HA as [r | g gs r m q H1 HA IH]; intros HF Hp; [done|].
  apply Forall_cons in HF as [Hg HF]. specialize (IH HF).
  inversion H1; subst; try done; assert (p0 = p) as -> by congruence.
  - destruct (IH Hp) as (? & ? & ?). split_and!; [done | done |]. by constructor.
  - destruct (IH Hp) as (? & ? & ?). split_and!; [done | done |]. by constructor.
  - destruct (IH Hp) as (? & HT & ?). assert (ext_tenant (req_extensions q) = tenant p) as HQ by (apply HT; by symmetry).
    split_and!; [done | done |]. constructor; [|done]. by split; [exists context|].
  - destruct (IH Hp) as (? & HT & ?). assert (ext_tenant (req_extensions q) = tenant p) as HQ by (apply HT; congruence).
    split_and!; [done | done |]. constructor; [|done]. by split; [exists context|].
Qed.
End admission.

(** ** Lemmas: pepper rotation *)

(** A conversation with a store: each fingerprint with its answer. *)
Fixpoint converses {St} (store : ApiKeyFingerprint -> St -> result Principal ApiKeyError * St) (st : St)
    (asked : list (ApiKeyFingerprint * result Principal ApiKeyError)) (st' : St) : Prop :=
  match asked with
  | [] => st' = st
  | (f, answer) :: rest => exists s, store f st = (answer, s) /\ converses store s rest st'
  end.

Lemma lookup_fingerprints_asked {St} (store : ApiKeyFingerprint -> St -> result Principal ApiKeyError * St)
    fs st r st' :
  lookup_fingerprints store fs st = (r, st') ->
  exists asked, converses store st asked st' /\ map fst asked `prefix_of` fs
    /\ Forall (fun a => snd a = Err RejectedApiKey) (removelast asked)
    /\ r = from_option snd (Err RejectedApiKey) (last asked)
    /\ (r = Err RejectedApiKey -> map fst asked = fs).
Proof.
  revert st. induction fs as [|f fs IH]; intros st; cbn [lookup_fingerprints].
  { intros [= <- <-]. by exists []. }
  destruct (store f st) as [a s] eqn:HS. intros HL.
  assert (HStop : (r, st') = (a, s) -> a <> Err RejectedApiKey -> exists asked,
    converses store st asked st' /\ map fst asked `prefix_of` (f :: fs)
    /\ Forall (fun a => snd a = Err RejectedApiKey) (removelast asked)
    /\ r = from_option snd (Err RejectedApiKey) (last asked)
    /\ (r = Err RejectedApiKey -> map fst asked = f :: fs)).
  { intros [= -> ->] Ha. exists [(f, a)]. split_and!; [by exists s | by exists fs | constructor | done | done]. }
  destruct a as [p|[]]; try (by apply HStop).
  destruct (IH s HL) as (asked & HC & HP & HF & HR & HA). exists ((f, Err RejectedApiKey) :: asked).
  split_and!.
  - by exists s.
  - by apply prefix_cons.
  - destruct asked; [constructor|]. cbn [removelast]. by constructor.
  - rewrite HR. by destruct asked as [|? ?].
  - intros HE. cbn [map fst]. by rewrite (HA HE).
Qed.

Lemma map_ok_or {A B E} (g : A -> option B) (e : E) l (xs : list B) :
  map (fun x => ok_or (g x) e) l = Ok <$> xs -> map Some xs = map g l.
Proof.
  revert xs. induction l as [|a l IH]; intros [|x xs]; try done. cbn [map fmap list_fmap].
  intros HE. injection HE as H1 H2. destruct (g a); [|done]. injection H1 as ->. f_equal. by apply IH.
Qed.

Lemma ring_bounded act ret ring :
  ring_with_retired act ret = Ok ring ->
  active ring = act /\ (List.length (retired ring) <= MAX_RETIRED_API_KEY_PEPPERS)%nat
  /\ NoDup (act :: retired ring).
Proof.
  unfold ring_with_retired. destruct (try_fold _ ret []) as [kept|] eqn:HF; [|done].
  intros [= <-]. cbn [active retired]. split; [done|].
  assert (HI : forall l acc, (List.length acc <= MAX_RETIRED_API_KEY_PEPPERS)%nat -> NoDup (act :: acc) ->
    try_fold (retain_pepper act) l acc = Ok kept ->
    (List.length kept <= MAX_RETIRED_API_KEY_PEPPERS)%nat /\ NoDup (act :: kept)).
  { clear HF. induction l as [|c l IH]; intros acc Hl HN; [by intros [= <-]|].
    intros (acc' & HR & HF)%try_fold_cons. apply (IH acc'); [| |done]; revert HR; unfold retain_pepper;
      (destruct (_ =? _)%nat eqn:E; [done|]); apply Nat.eqb_neq in E;
      (destruct (_ || _) eqn:HD; [done|]); intros [= <-].
    - rewrite length_app. simpl. lia.
    - apply orb_false_iff in HD as [H1 H2]. apply NoDup_cons in HN as [HN1 HN2]. apply NoDup_cons.
      assert (c <> act) by (intros ->; by rewrite (proj2 (str_eqb_true _ _) eq_refl) in H1).
      assert (c ∉ acc).
      { intros Hc. apply existsb_false in H2. rewrite Forall_forall in H2. apply H2 in Hc.
        by rewrite (proj2 (str_eqb_true _ _) eq_refl) in Hc. }
      split; [set_solver|]. apply NoDup_app. split_and!; [done | set_solver | apply NoDup_singleton]. }
  apply (HI ret []); [simpl; lia | apply NoDup_singleton | done].
Qed.

(** ** Properties *)

(** A stack of authentication and authorization layers, in any order and
    number, lets a handler see a request exactly when the specification [admits]
    it: then the answer is the handler's on the one admitted request, and
    otherwise it is a 401, 403, 404, 500 or 503 that no handler can influence. *)
Theorem stack_refines_admits `{HttpApi} `{!Serialize ErrorPayload} (gs : list Guard) (r : Request) :
  (exists q, admits gs r q /\ forall handler, stack gs handler r = call_ready handler q)
  \/ ((forall q, ~ admits gs r q)
      /\ exists answer, rejection answer /\ forall handler, stack gs handler r = answer).
Proof.
  destruct (stack_decides gs r) as [(q & Hq & _ & HS) | HN]; [left; by exists q | by right].
Qed.

(** C20: Behind an authenticating layer, whatever further scope, permission and
    tenant layers follow, a handler can only matter for requests that carry a
    principal the verifier returned for the presented credential and that
    satisfies every one of those layers, with the tenant of the request equal to
    the principal's wherever a tenant layer is in the stack: handlers that agree
    on such requests give the same answers. *)
Theorem handlers_see_authorized `{HttpApi} `{!Serialize ErrorPayload} auth rest r h1 h2 :
  authenticating auth = true -> Forall (fun g => authenticating g = false) rest ->
  (forall q p m,
     admits_one auth r m -> ext_principal (req_extensions m) = Some p ->
     ext_principal (req_extensions q) = Some p ->
     Forall (satisfies p (ext_tenant (req_extensions q))) rest -> h1 q = h2 q) ->
  stack (auth :: rest) h1 r = stack (auth :: rest) h2 r.
Proof.
  intros HA HF HE.
  destruct (stack_decides (auth :: rest) r) as [(q & Hq & _ & HS) | (_ & answer & _ & HS)].
  2:{ by rewrite !HS. }
  rewrite !HS. inversion Hq as [|g gs r' m q' H1 H2]; subst.
  assert (exists p, ext_principal (req_extensions m) = Some p) as [p Hp].
  { destruct auth; try done; inversion H1; subst; by eexists. }
  destruct (admits_keeps_principal rest m q p HF H2 Hp) as (Hq' & _ & HS'). by apply (HE q p m).
Qed.

(** Principal admission. Verified claims become a principal exactly when the
    identifiers are non-blank and at most 1024 bytes, each scope, role and
    permission is non-blank and at most 256 bytes and no set has more than 64
    distinct values; the principal then has exactly the claimed values, in
    whatever order and however often they were given. A principal so admitted,
    stored and restored with its sets in any order, is the same principal. *)
Theorem principal_admission sub iss ten sc ro pe p :
  (from_verified_claims sub iss ten sc ro pe = Ok p <->
   p = {| subject := sub; issuer := Some iss; tenant := ten; scopes := list_to_set sc;
          roles := list_to_set ro; permissions := list_to_set pe |}
   /\ wf_principal p)
  /\ (wf_principal p ->
      forall sc' ro' pe', list_to_set sc' = scopes p -> list_to_set ro' = roles p ->
        list_to_set pe' = permissions p ->
        principal_from_serialized (subject p) (issuer p) (tenant p) sc' ro' pe' = Ok p).
Proof.
  assert (HL : forall l : list str, Forall valid_value l <-> set_Forall valid_value (list_to_set l : gset str)).
  { intros l. rewrite Forall_forall. unfold set_Forall. split; intros HF x Hx; apply HF; set_solver. }
  split.
  - change (from_verified_claims sub iss ten sc ro pe)
      with (principal_from_serialized sub (Some iss) ten sc ro pe).
    rewrite principal_from_serialized_Ok, !HL. cbn [from_option]. split.
    + intros (-> & H1 & H2 & H3 & H4 & H5 & H6). split; [done|]. by split.
    + intros [-> [H1 H2 H3 H4 H5 H6]]. done.
  - intros [H1 H2 H3 H4 H5 H6] sc' ro' pe' Hs Hr Hp.
    rewrite principal_from_serialized_Ok, !HL, Hs, Hr, Hp. by destruct p.
Qed.

(** Pepper rotation. An authenticator built on a ring of distinct peppers asks
    its store for at most three fingerprints, the active pepper's first and the
    retired ones after it in order, and asks for the next one only after a
    rejection: any other answer, an outage included, is the result. The key is
    rejected only after every pepper was tried, and a malformed key is not looked
    up at all. *)
Theorem rotation_lookups {St} hmac (store : ApiKeyFingerprint -> St -> result Principal ApiKeyError * St)
    act ret ring key st :
  ring_with_retired act ret = Ok ring ->
  let '(r, st') := rotating_authenticate hmac store ring key st in
  match fingerprints hmac ring key with
  | Err e => r = Err e /\ st' = st /\ e <> RejectedApiKey
  | Ok fs =>
      is_valid_api_key_value key = true
      /\ map Some fs = map (fun pepper => hmac pepper key) (act :: retired ring)
      /\ exists asked, converses store st asked st' /\ map fst asked `prefix_of` fs
         /\ (List.length asked <= 3)%nat
         /\ Forall (fun a => snd a = Err RejectedApiKey) (removelast asked)
         /\ r = from_option snd (Err RejectedApiKey) (last asked)
         /\ (r = Err RejectedApiKey -> map fst asked = fs)
  end.
Proof.
  intros HR. apply ring_bounded in HR as (<- & HB & _).
  destruct (rotating_authenticate hmac store ring key st) as [r st'] eqn:HA.
  unfold rotating_authenticate in HA. destruct (fingerprints hmac ring key) as [fs|e] eqn:HF.
  2:{ injection HA as <- <-. split_and!; [done..|]. intros ->. revert HF.
      unfold fingerprints, fingerprint_valid_api_key. destruct (is_valid_api_key_value key); [|done].
      cbn [negb]. destruct (hmac (active ring) key); [|done]. cbn [ok_or].
      destruct (collect_results _) as [|e] eqn:HC; [done|]. intros [= ->].
      by apply collect_results_Err, list_elem_of_fmap in HC as (pepper & HC & _); destruct (hmac pepper key). }
  unfold fingerprints, fingerprint_valid_api_key in HF. destruct (is_valid_api_key_value key) eqn:HV; [|done].
  cbn [negb] in HF. destruct (hmac (active ring) key) as [f|] eqn:Hf; [|done]. cbn [ok_or] in HF.
  destruct (collect_results _) as [rest|] eqn:HC; [|done]. injection HF as <-.
  apply collect_results_Ok in HC. split; [done|]. split.
  { cbn [map]. rewrite Hf. f_equal. by apply map_ok_or in HC. }
  apply lookup_fingerprints_asked in HA as (asked & H1 & H2 & H3 & H4 & H5).
  exists asked. split_and!; [done | done | | done | done | done].
  apply (f_equal List.length) in HC. rewrite length_map, length_fmap in HC.
  apply prefix_length in H2. rewrite length_map in H2. cbn [List.length] in H2.
  unfold MAX_RETIRED_API_KEY_PEPPERS in HB. lia.
Qed.

(** ** Examples *)

Module AuthExamples.
Import HttpModel.

Definition reader : Principal := {|
  subject := ##"alice"; issuer := Some ##"idp"; tenant := Some ##"acme"; scopes := {[##"orders:read"]};
  roles := {[##"clerk"]}; permissions := ∅
|}.
Definition verify (token : str) : result Principal AuthError :=
  if str_eqb token ##"abc.def==" then Ok reader else Err RejectedBearerToken.
Definition clerks : RequirePermissionsLayer := {|
  required_permissions := {[##"orders.view"]};
  role_policy := {[##"clerk" := {[##"orders.view"; ##"orders.print"]}]}
|}.
Definition request (header : str) : Request := {|
  req_method := ##"GET"; req_uri := {| u_path := ##"/orders"; u_query := None |};
  req_headers := [(AUTHORIZATION, header)]; req_extensions := no_extensions; req_body := empty_body
|}.
Definition greet (r : Request) : Response :=
  response (if is_some (ext_principal (req_extensions r)) then 200 else 204) empty_body.

Example authorized_is_served :
  res_status (stack [Bearer verify; Permissions clerks] greet (request ##"bearer abc.def==")) = 200.
Proof. vm_compute. reflexivity. Qed.
Example strangers_are_refused :
  res_status (stack [Bearer verify; Permissions clerks] greet (request ##"Bearer x")) = 401.
Proof. vm_compute. reflexivity. Qed.

Lemma handlers_see_authorized_witness :
  stack [Bearer verify; Permissions clerks] greet (request ##"bearer abc.def==") =
  stack [Bearer verify; Permissions clerks] (fun _ => response 200 empty_body) (request ##"bearer abc.def==").
Proof.
  apply (handlers_see_authorized (Bearer verify) [Permissions clerks]).
  - reflexivity.
  - constructor; [reflexivity | constructor].
  - intros q p m _ _ Hp _. unfold greet. rewrite Hp. reflexivity.
Defined.

(** A store that rejects everything and counts the questions. *)
Definition count (_ : ApiKeyFingerprint) (n : nat) : result Principal ApiKeyError * nat :=
  (Err RejectedApiKey, S n).
Definition ring : ApiKeyPepperRing := {| active := ##"new"; retired := [ ##"old" ] |}.

Lemma rotation_lookups_witness :
  exists asked, converses count 0%nat asked 2%nat /\ (List.length asked <= 3)%nat.
Proof.
  pose proof (rotation_lookups (fun pepper key => Some (pepper ++ key)) count ##"new" [ ##"old" ] ring ##"k" 0%nat
                ltac:(vm_compute; reflexivity)) as HR.
  destruct HR as (_ & _ & asked & HC & _ & HL & _). exists asked. split; [exact HC | exact HL].
Defined.
End AuthExamples.
