(* ===== verification/ApiKeyStore.v ===== *)
(** API keys in PostgreSQL: [crates/rustee-auth-sqlx], [model.rs], [store.rs] and
    [store/registration.rs], [store/authentication.rs], [store/rotation.rs], over the tables of
    its two migrations.

    Times of the database are microseconds. A transaction takes effect at its commit: its row
    locks keep others from the rows it uses. What happens to it is a [Fate]. *)

From Stdlib Require Import ZArith Lia Bool Ascii.
From stdpp Require Import gmap.
From S2P Require Import Prelude Strings Uuid Http Core HttpModel Json Auth.

Local Open Scope Z_scope.

(** The JSON of a principal, what [jsonb] makes of a text ([None] refuses it), and
    [to_timestamp]. *)
Class PrincipalJson : Type := {
  principal_to_string : Principal -> option str;
  principal_from_str : str -> option Principal;
  jsonb_text : str -> option str;
  to_timestamp : Z -> option Z
}.
Class PrincipalJsonLaws `{PrincipalJson} : Prop := {
  stored_principal p text stored :
    principal_to_string p = Some text -> jsonb_text text = Some stored -> principal_from_str stored = Some p;
  timestamp_exact s t : to_timestamp s = Some t -> t = s * 1000000
}.

Definition MAX_SERIALIZED_PRINCIPAL_BYTES : Z := 512 * 1024.

(** ** Models: [model.rs] *)

(** [SystemTime] in nanoseconds from the Unix epoch. *)
Record ApiKeyRegistration : Type := {
  reg_fingerprint : ApiKeyFingerprint; reg_principal : Principal; reg_expires_at : option Z
}.
Definition registration_new (f : ApiKeyFingerprint) (p : Principal) : ApiKeyRegistration :=
  {| reg_fingerprint := f; reg_principal := p; reg_expires_at := None |}.
Definition registration_expires_at (t : Z) (r : ApiKeyRegistration) : ApiKeyRegistration :=
  {| reg_fingerprint := reg_fingerprint r; reg_principal := reg_principal r; reg_expires_at := Some t |}.

Inductive PostgresApiKeyStoreError : Type :=
| DuplicateFingerprint
| MissingActiveRecord
| InvalidExpiry
| InvalidPrincipal
| InvalidReadinessTimeout
| ReadinessTimedOut (timeout : Duration)
| KeyStorage.

(** [query] is the answer to [SELECT 1], [None] when the deadline passes first. *)
Definition key_store_readiness (timeout : Duration) (query : option bool) : result unit PostgresApiKeyStoreError :=
  if timeout =? 0 then Err InvalidReadinessTimeout
  else match query with
       | None => Err (ReadinessTimedOut timeout)
       | Some true => Ok tt
       | Some false => Err KeyStorage
       end.

(** ** Tables *)

(** [k_revoked_at] is set exactly when the status is not [active]. *)
Record Credential : Type := {
  k_fingerprint : bytes;
  k_principal : str;
  k_expires_at : option Z;
  k_last_used_at : option Z;
  k_last_used_count : Z;
  k_revoked_at : option Z
}.
Record KeyTables : Type := { credentials : gmap Uuid Credential; key_audit : list (Uuid * Z) }.

Definition is_active (row : Credential) : bool := negb (is_some (k_revoked_at row)).
(** [expires_at IS NULL OR expires_at > clock_timestamp()]. *)
Definition is_unexpired (now : Z) (row : Credential) : bool :=
  match k_expires_at row with None => true | Some t => now <? t end.
Definition is_bounded (row : Credential) : bool := Z.of_nat (List.length (k_principal row)) <=? MAX_SERIALIZED_PRINCIPAL_BYTES.

Definition find_fingerprint (f : bytes) (st : KeyTables) : option (Uuid * Credential) :=
  List.find (fun x => str_eqb (k_fingerprint x.2) f) (map_to_list (credentials st)).

Definition set_credential (id : Uuid) (row : Credential) (st : KeyTables) : KeyTables :=
  {| credentials := <[id := row]> (credentials st); key_audit := key_audit st |}.
Definition revoked (now : Z) (row : Credential) : Credential :=
  {| k_fingerprint := k_fingerprint row; k_principal := k_principal row; k_expires_at := k_expires_at row;
     k_last_used_at := k_last_used_at row; k_last_used_count := k_last_used_count row; k_revoked_at := Some now |}.
Definition used (now : Z) (row : Credential) : Credential :=
  {| k_fingerprint := k_fingerprint row; k_principal := k_principal row; k_expires_at := k_expires_at row;
     k_last_used_at := Some now; k_last_used_count := k_last_used_count row + 1; k_revoked_at := k_revoked_at row |}.

(** [INSERT .. ON CONFLICT (fingerprint) DO NOTHING] of a new row: the number of rows, or
    [None] when a [CHECK] or the primary key is violated. *)
Definition insert_credential (id : Uuid) (f : bytes) (principal : str) (expires_at : option Z) (st : KeyTables) :
    option (Z * KeyTables) :=
  let row := {| k_fingerprint := f; k_principal := principal; k_expires_at := expires_at; k_last_used_at := None;
                k_last_used_count := 0; k_revoked_at := None |} in
  if negb (List.length f =? 32)%nat || negb (is_bounded row) then None
  else if is_some (find_fingerprint f st) then Some (0, st)
  else if is_some (credentials st !! id) then None
  else Some (1, set_credential id row st).

(** A transaction commits and its answer arrives, commits and the answer is lost, or fails
    before its commit. *)
Inductive Fate : Type := Committed | AckLost | FailedBefore.
Definition committed {A E} (fate : Fate) (lost : E) (a : A) (before after : KeyTables) : result A E * KeyTables :=
  match fate with
  | Committed => (Ok a, after)
  | AckLost => (Err lost, after)
  | FailedBefore => (Err lost, before)
  end.
(** A transaction that is rolled back. *)
Definition rolled_back {A E} (fate : Fate) (lost e : E) (st : KeyTables) : result A E * KeyTables :=
  match fate with Committed => (Err e, st) | AckLost | FailedBefore => (Err lost, st) end.

(** Whether a registration is unexpired at a time of the database. *)
Definition registration_unexpired (r : ApiKeyRegistration) (now : Z) : bool :=
  match reg_expires_at r with None => true | Some t => now <? t / 1000000000 * 1000000 end.

Section store.
Context `{PrincipalJson}.

(** ** Registration: [store/registration.rs] *)

Definition system_time_unix_seconds (expires_at : Z) : result Z PostgresApiKeyStoreError :=
  if expires_at <? 0 then Err InvalidExpiry
  else let seconds := expires_at / 1000000000 in if i64_max <? seconds then Err InvalidExpiry else Ok seconds.

Definition registration_storage (r : ApiKeyRegistration) : result (bytes * str * option Z) PostgresApiKeyStoreError :=
  let? principal := ok_or (principal_to_string (reg_principal r)) InvalidPrincipal in
  if MAX_SERIALIZED_PRINCIPAL_BYTES <? Z.of_nat (List.length principal) then Err InvalidPrincipal
  else
    let? expires_at := transpose (option_map system_time_unix_seconds (reg_expires_at r)) in
    Ok (reg_fingerprint r, principal, expires_at).

(** The statement with its casts: [$3::jsonb], and [to_timestamp] of a given expiry. *)
Definition insert_key (id : Uuid) (parts : bytes * str * option Z) (st : KeyTables) : option (Z * KeyTables) :=
  let '(f, principal, expires_at) := parts in
  stored ← jsonb_text principal;
  expires_at ← match expires_at with None => Some None | Some s => option_map Some (to_timestamp s) end;
  insert_credential id f stored expires_at st.

Definition register_key (r : ApiKeyRegistration) (id : Uuid) (fate : Fate) (st : KeyTables) :
    result Uuid PostgresApiKeyStoreError * KeyTables :=
  match registration_storage r with
  | Err e => (Err e, st)
  | Ok parts =>
      match insert_key id parts st with
      | None => (Err KeyStorage, st)
      | Some (rows, st') =>
          let '(answer, st') := committed fate KeyStorage rows st st' in
          (let? rows := answer in if rows =? 1 then Ok id else Err DuplicateFingerprint, st')
      end
  end.

(** ** Authentication: [store/authentication.rs] *)

(** The row of the [UPDATE]; [Err] when the count overflows. *)
Definition update_used (f : bytes) (now : Z) (st : KeyTables) : result (option (Uuid * Credential)) unit :=
  match find_fingerprint f st with
  | Some (id, row) =>
      if is_active row && is_unexpired now row && is_bounded row
      then if i64_max <=? k_last_used_count row then Err tt else Ok (Some (id, used now row))
      else Ok None
  | None => Ok None
  end.

Definition authenticate_fingerprint (now : Z) (fate : Fate) (f : ApiKeyFingerprint) (st : KeyTables) :
    result Principal ApiKeyError * KeyTables :=
  match update_used f now st with
  | Err _ => (Err ApiKeyProviderUnavailable, st)
  | Ok None =>
      match fate with
      | FailedBefore => (Err ApiKeyProviderUnavailable, st)
      | _ => (Err RejectedApiKey, st)
      end
  | Ok (Some (id, row)) =>
      match principal_from_str (k_principal row) with
      | None => (Err ApiKeyProviderUnavailable, st)
      | Some principal =>
          committed fate ApiKeyProviderUnavailable principal st
            {| credentials := <[id := row]> (credentials st); key_audit := key_audit st ++ [(id, now)] |}
      end
  end.

(** ** Rotation: [store/rotation.rs] *)

Definition eligible (now : Z) (source : Uuid) (st : KeyTables) : option Credential :=
  row ← credentials st !! source;
  if is_active row && is_unexpired now row && is_bounded row then Some row else None.

(** [now] and [later] are the times of its two statements. *)
Definition clone_active_record (source : Uuid) (f : ApiKeyFingerprint) (id : Uuid) (now later : Z) (fate : Fate)
    (st : KeyTables) : result Uuid PostgresApiKeyStoreError * KeyTables :=
  let inserted :=
    match eligible now source st with
    | None => Some (0, st)
    | Some row => insert_credential id f (k_principal row) (k_expires_at row) st
    end in
  match inserted with
  | None => (Err KeyStorage, st)
  | Some (rows, st') =>
      if rows =? 1 then committed fate KeyStorage id st st'
      else
        rolled_back fate KeyStorage
          (if is_some (eligible later source st) then DuplicateFingerprint else MissingActiveRecord) st
  end.

Definition rotate_key (previous : Uuid) (replacement : ApiKeyRegistration) (id : Uuid) (now : Z) (fate : Fate)
    (st : KeyTables) : result Uuid PostgresApiKeyStoreError * KeyTables :=
  match registration_storage replacement with
  | Err e => (Err e, st)
  | Ok parts =>
      match insert_key id parts st with
      | None => (Err KeyStorage, st)
      | Some (rows, st') =>
          if negb (rows =? 1) then rolled_back fate KeyStorage DuplicateFingerprint st
          else
            match credentials st' !! previous with
            | Some row =>
                if is_active row && is_unexpired now row
                then committed fate KeyStorage id st (set_credential previous (revoked now row) st')
                else rolled_back fate KeyStorage MissingActiveRecord st
            | None => rolled_back fate KeyStorage MissingActiveRecord st
            end
      end
  end.

Definition revoke_key (id : Uuid) (now : Z) (fate : Fate) (st : KeyTables) : result bool PostgresApiKeyStoreError * KeyTables :=
  match credentials st !! id with
  | Some row =>
      if is_active row then committed fate KeyStorage true st (set_credential id (revoked now row) st)
      else committed fate KeyStorage false st st
  | None => committed fate KeyStorage false st st
  end.

(** ** Histories *)

Inductive KeyOp : Type :=
| Register (r : ApiKeyRegistration) (id : Uuid) (fate : Fate)
| Authenticate (f : ApiKeyFingerprint) (now : Z) (fate : Fate)
| CloneActive (source : Uuid) (f : ApiKeyFingerprint) (id : Uuid) (now later : Z) (fate : Fate)
| Rotate (previous : Uuid) (r : ApiKeyRegistration) (id : Uuid) (now : Z) (fate : Fate)
| Revoke (id : Uuid) (now : Z) (fate : Fate).

Definition key_op (st : KeyTables) (op : KeyOp) : KeyTables :=
  match op with
  | Register r id fate => snd (register_key r id fate st)
  | Authenticate f now fate => snd (authenticate_fingerprint now fate f st)
  | CloneActive source f id now later fate => snd (clone_active_record source f id now later fate st)
  | Rotate previous r id now fate => snd (rotate_key previous r id now fate st)
  | Revoke id now fate => snd (revoke_key id now fate st)
  end.
Definition key_ops (ops : list KeyOp) (st : KeyTables) : KeyTables := foldl key_op st ops.
Definition no_keys : KeyTables := {| credentials := ∅; key_audit := [] |}.

(** ** Lemmas: what operations are made of *)

(** A row is inserted, used or revoked; the label is the row that is revoked. *)
Inductive change : option Uuid -> KeyTables -> KeyTables -> Prop :=
| change_insert id row st audit :
    find_fingerprint (k_fingerprint row) st = None -> credentials st !! id = None ->
    change None st {| credentials := <[id := row]> (credentials st); key_audit := audit |}
| change_use id row now st audit :
    credentials st !! id = Some row ->
    change None st {| credentials := <[id := used now row]> (credentials st); key_audit := audit |}
| change_revoke id row now st audit :
    credentials st !! id = Some row -> is_active row = true ->
    change (Some id) st {| credentials := <[id := revoked now row]> (credentials st); key_audit := audit |}.
Inductive changes : list (option Uuid) -> KeyTables -> KeyTables -> Prop :=
| changes_nil st : changes [] st st
| changes_cons l ls st st1 st2 : change l st st1 -> changes ls st1 st2 -> changes (l :: ls) st st2.

Definition revokes (id : Uuid) (op : KeyOp) : Prop :=
  match op with Revoke i _ _ => i = id | Rotate previous _ _ _ _ => previous = id | _ => False end.

Lemma insert_credential_change id f principal expires_at st rows st' :
  insert_credential id f principal expires_at st = Some (rows, st') ->
  (rows = 0 /\ st' = st) \/ (rows = 1 /\ change None st st').
Proof.
  unfold insert_credential. destruct (_ || _); [done|]. destruct (find_fingerprint f st) eqn:HF; cbn [is_some].
  { intros [= <- <-]. by left. }
  destruct (credentials st !! id) eqn:HI; cbn [is_some]; [done|]. intros [= <- <-]. right. split; [done|]. by constructor.
Qed.
Lemma insert_key_change id parts st rows st' :
  insert_key id parts st = Some (rows, st') -> (rows = 0 /\ st' = st) \/ (rows = 1 /\ change None st st').
Proof.
  destruct parts as [[f principal] expires_at]. unfold insert_key. intros HI.
  apply bind_Some in HI as (stored & _ & HI). apply bind_Some in HI as (e & _ & HI). by eapply insert_credential_change.
Qed.

Lemma find_fingerprint_Some f st id row :
  find_fingerprint f st = Some (id, row) -> credentials st !! id = Some row /\ k_fingerprint row = f.
Proof.
  intros [HI HF]%find_some. apply list_elem_of_In, elem_of_map_to_list in HI. cbn in HF. by apply str_eqb_true in HF.
Qed.

(** The committed state is one of two. *)
Lemma committed_cases {A E} fate (lost : E) (a : A) before after :
  snd (committed fate lost a before after) = before \/ snd (committed fate lost a before after) = after.
Proof. destruct fate; auto. Qed.
Lemma rolled_back_same {A E} fate (lost e : E) st : snd (rolled_back (A := A) fate lost e st) = st.
Proof. by destruct fate. Qed.

Definition made_of (st : KeyTables) (op : KeyOp) (st' : KeyTables) : Prop :=
  exists labels, changes labels st st' /\ (List.length labels <= 2)%nat /\ forall id, Some id ∈ labels -> revokes id op.
Lemma made_of_none st op : made_of st op st.
Proof. exists []. split_and!; [constructor | cbn; lia | by intros id ?%not_elem_of_nil]. Qed.
Lemma made_of_change st op l st' : change l st st' -> (forall id, l = Some id -> revokes id op) -> made_of st op st'.
Proof.
  intros HC HL. exists [l]. split_and!; [econstructor; [exact HC | constructor] | cbn; lia|].
  intros id He%list_elem_of_singleton. by apply HL.
Qed.
Lemma made_of_committed {A E} fate (lost : E) (a : A) st op st' :
  made_of st op st' -> made_of st op (snd (committed fate lost a st st')).
Proof. intros HM. destruct (committed_cases fate lost a st st') as [-> | ->]; [apply made_of_none | done]. Qed.

Lemma op_made_of st op : made_of st op (key_op st op).
Proof.
  destruct op as [r id fate|f now fate|source f id now later fate|previous r id now fate|id now fate]; cbn [key_op].
  - unfold register_key. destruct (registration_storage r) as [parts|]; [|apply made_of_none].
    destruct (insert_key id parts st) as [[rows st']|] eqn:HI; [|apply made_of_none].
    pose proof (committed_cases fate KeyStorage rows st st') as HC.
    destruct (committed fate KeyStorage rows st st') as [answer st'']. cbn [snd] in *.
    destruct HC as [-> | ->]; [apply made_of_none|].
    apply insert_key_change in HI as [[_ ->]|[_ HI]]; [apply made_of_none | by eapply made_of_change].
  - unfold authenticate_fingerprint, update_used. destruct (find_fingerprint f st) as [[id row]|] eqn:HF.
    2:{ destruct fate; apply made_of_none. }
    apply find_fingerprint_Some in HF as [HF _]. destruct (_ && is_bounded row); [|destruct fate; apply made_of_none].
    destruct (_ <=? _); [apply made_of_none|]. destruct (principal_from_str _); [|apply made_of_none].
    apply made_of_committed. eapply made_of_change; [by constructor | done].
  - unfold clone_active_record. cbv zeta.
    destruct (match eligible now source st with None => Some (0, st) | Some row => insert_credential id f (k_principal row) (k_expires_at row) st end)
      as [[rows st']|] eqn:HI; [|apply made_of_none].
    destruct (rows =? 1) eqn:HR; [|rewrite rolled_back_same; apply made_of_none]. apply made_of_committed.
    destruct (eligible now source st) as [row|]; [|by injection HI as <- <-].
    apply insert_credential_change in HI as [[-> _]|[_ HI]]; [done | by eapply made_of_change].
  - unfold rotate_key. destruct (registration_storage r) as [parts|]; [|apply made_of_none].
    destruct (insert_key id parts st) as [[rows st']|] eqn:HI; [|apply made_of_none].
    destruct (rows =? 1) eqn:HR; cbn [negb]; [|rewrite rolled_back_same; apply made_of_none].
    destruct (credentials st' !! previous) as [row|] eqn:HP; [|rewrite rolled_back_same; apply made_of_none].
    destruct (is_active row) eqn:HA; cbn [andb]; [|rewrite rolled_back_same; apply made_of_none].
    destruct (is_unexpired now row); [|rewrite rolled_back_same; apply made_of_none].
    apply made_of_committed. apply insert_key_change in HI as [[-> _]|[_ HI]]; [done|].
    exists [None; Some previous]. split_and!.
    + econstructor; [exact HI|]. econstructor; [by constructor | constructor].
    + cbn. lia.
    + intros i [?|He%list_elem_of_singleton]%elem_of_cons; [done|]. by injection He.
  - unfold revoke_key. destruct (credentials st !! id) as [row|] eqn:HI;
      [destruct (is_active row) eqn:HA|]; apply made_of_committed; [| apply made_of_none | apply made_of_none].
    eapply made_of_change; [by constructor|]. intros i [= <-]. done.
Qed.

(** ** Lemmas: rows *)

Definition keys_unique (st : KeyTables) : Prop :=
  forall i j row row', credentials st !! i = Some row -> credentials st !! j = Some row' ->
    k_fingerprint row = k_fingerprint row' -> i = j.

Lemma find_fingerprint_None f st id row :
  find_fingerprint f st = None -> credentials st !! id = Some row -> k_fingerprint row <> f.
Proof.
  intros HF HI HE. assert (HN := find_none _ _ HF (id, row)). cbn in HN.
  apply elem_of_map_to_list, list_elem_of_In in HI. specialize (HN HI). subst f.
  by rewrite (proj2 (str_eqb_true _ _) eq_refl) in HN.
Qed.
Lemma find_fingerprint_unique st id row :
  keys_unique st -> credentials st !! id = Some row -> find_fingerprint (k_fingerprint row) st = Some (id, row).
Proof.
  intros HU HI. destruct (find_fingerprint (k_fingerprint row) st) as [[j row']|] eqn:HF.
  - apply find_fingerprint_Some in HF as [HJ HE]. assert (j = id) as -> by (by apply (HU j id row' row)). congruence.
  - by destruct (find_fingerprint_None _ _ _ _ HF HI).
Qed.

(** What stays of a row over [n] changes, and whether it is revoked. *)
Record keeps (n : Z) (row row' : Credential) : Prop := {
  kp_fingerprint : k_fingerprint row' = k_fingerprint row;
  kp_principal : k_principal row' = k_principal row;
  kp_expires_at : k_expires_at row' = k_expires_at row;
  kp_count : k_last_used_count row' <= k_last_used_count row + n;
  kp_revoked : is_active row = false -> is_active row' = false
}.

Lemma change_keeps l st st' id row :
  change l st st' -> credentials st !! id = Some row ->
  exists row', credentials st' !! id = Some row' /\ keeps 1 row row' /\ (l <> Some id -> is_active row' = is_active row).
Proof.
  intros HC HI. destruct HC as [i new st audit HF HN|i old now st audit HO|i old now st audit HO HA]; cbn [credentials].
  - exists row. rewrite lookup_insert_ne by congruence. split_and!; [done | by split; try lia | done].
  - destruct (decide (i = id)) as [->|Hne]; [|exists row; rewrite lookup_insert_ne by done; split_and!; [done | by split; try lia | done]].
    assert (old = row) as -> by congruence. exists (used now row). rewrite lookup_insert_eq.
    split_and!; [done | by split; cbn; try lia | done].
  - destruct (decide (i = id)) as [->|Hne]; [|exists row; rewrite lookup_insert_ne by done; split_and!; [done | by split; try lia | done]].
    assert (old = row) as -> by congruence. exists (revoked now row). rewrite lookup_insert_eq.
    split_and!; [done | by split; cbn; try lia | done].
Qed.

Lemma change_unique l st st' : change l st st' -> keys_unique st -> keys_unique st'.
Proof.
  intros HC HU. assert (forall id new old, credentials st !! id = Some old -> k_fingerprint new = k_fingerprint old ->
    forall audit, keys_unique {| credentials := <[id := new]> (credentials st); key_audit := audit |}) as HR.
  { intros id new old HO HE audit i j row row'. cbn [credentials]. rewrite !lookup_insert_Some.
    intros [[<- <-]|[Hi HI]] [[<- <-]|[Hj HJ]] HF; [done | | |].
    - apply (HU id j old row'); [done | done | congruence].
    - apply (HU i id row old); [done | done | congruence].
    - by apply (HU i j row row'). }
  destruct HC as [id new st audit HF HN|id old now st audit HO|id old now st audit HO HA].
  - intros i j row row'. cbn [credentials]. rewrite !lookup_insert_Some.
    intros [[<- <-]|[Hi HI]] [[<- <-]|[Hj HJ]] HE; [done | | |].
    + by destruct (find_fingerprint_None _ _ _ _ HF HJ).
    + by destruct (find_fingerprint_None _ _ _ _ HF HI).
    + by apply (HU i j row row').
  - by apply (HR id (used now old) old).
  - by apply (HR id (revoked now old) old).
Qed.

Lemma keeps_trans n m row1 row2 row3 : keeps n row1 row2 -> keeps m row2 row3 -> keeps (n + m) row1 row3.
Proof. intros [] []. split; try congruence; [lia | auto]. Qed.

Lemma changes_keep ls st st' id row :
  changes ls st st' -> keys_unique st -> credentials st !! id = Some row ->
  keys_unique st' /\ exists row', credentials st' !! id = Some row' /\ keeps (Z.of_nat (List.length ls)) row row' /\
    (Some id ∉ ls -> is_active row' = is_active row).
Proof.
  intros HC. revert row. induction HC as [st|l ls st st1 st2 HC _ IH]; intros row HU HI.
  { split; [done|]. exists row. split_and!; [done | split; try done; cbn; lia | done]. }
  destruct (change_keeps _ _ _ _ _ HC HI) as (row1 & H1' & HK1 & HA1).
  destruct (IH row1 (change_unique _ _ _ HC HU) H1') as (HU2 & row2 & H2' & HK2 & HA2).
  split; [done|]. exists row2. split_and!; [done| |].
  - cbn [List.length]. rewrite Nat2Z.inj_succ, <- Z.add_1_l. by eapply keeps_trans.
  - rewrite not_elem_of_cons. intros [Hl Hls]. rewrite HA2, HA1 by done. done.
Qed.

(** Rows over a history. *)
Lemma key_ops_keep ops st id row :
  keys_unique st -> credentials st !! id = Some row ->
  keys_unique (key_ops ops st) /\ exists row', credentials (key_ops ops st) !! id = Some row' /\
    keeps (2 * Z.of_nat (List.length ops)) row row' /\
    (Forall (fun op => ~ revokes id op) ops -> is_active row' = is_active row).
Proof.
  revert st row. induction ops as [|op ops IH]; intros st row HU HI.
  { split; [done|]. exists row. split_and!; [done | split; try done; cbn; lia | done]. }
  destruct (op_made_of st op) as (ls & HC & HL & HR).
  destruct (changes_keep _ _ _ _ _ HC HU HI) as (HU1 & row1 & H1' & HK1 & HA1).
  destruct (IH _ row1 HU1 H1') as (HU2 & row2 & H2' & HK2 & HA2). split; [exact HU2|]. exists row2. split_and!; [exact H2' | |].
  - pose proof (keeps_trans _ _ _ _ _ HK1 HK2) as [F1 F2 F3 F4 F5]. split; try done. cbn [List.length]. lia.
  - rewrite Forall_cons. intros [Ho HF]. rewrite HA2, HA1; [done | | done]. intros Hin. by apply Ho, HR.
Qed.

Lemma key_ops_unique ops : keys_unique (key_ops ops no_keys).
Proof.
  assert (forall st, keys_unique st -> keys_unique (key_ops ops st)) as HG.
  { induction ops as [|op ops IH]; intros st HU; [done|]. apply IH. destruct (op_made_of st op) as (ls & HC & _).
    clear -HC HU. induction HC as [|? ? ? ? ? HC _ IH]; [done|]. by apply IH, (change_unique _ _ _ HC). }
  apply HG. intros i j row row' HI. cbn in HI. by rewrite lookup_empty in HI.
Qed.

Lemma registered_row `{!PrincipalJsonLaws} r id fate st id' st' :
  register_key r id fate st = (Ok id', st') ->
  id' = id /\ exists row, credentials st' !! id = Some row /\ k_fingerprint row = reg_fingerprint r /\
    principal_from_str (k_principal row) = Some (reg_principal r) /\ is_bounded row = true /\ k_last_used_count row = 0 /\
    is_active row = true /\ forall now, is_unexpired now row = registration_unexpired r now.
Proof.
  unfold register_key, registration_storage. destruct (principal_to_string _) as [text|] eqn:HT; cbn [ok_or]; [|done].
  destruct (_ <? _); [done|]. destruct (transpose _) as [e|] eqn:HE; [|done].
  destruct (insert_key _ _ _) as [[rows st1]|] eqn:HI; [|done].
  destruct fate; cbn [committed]; [|done..]. destruct (rows =? 1) eqn:HR; [|done]. intros [= <- <-]. split; [done|].
  unfold insert_key in HI. apply bind_Some in HI as (stored & HS & HI). apply bind_Some in HI as (expires & HX & HI).
  unfold insert_credential in HI. destruct (negb _ || negb (is_bounded _)) eqn:HB; [done|].
  apply orb_false_elim in HB as [_ HB]. apply negb_false_iff in HB.
  destruct (is_some (find_fingerprint _ _)); [by injection HI as <- <-|].
  destruct (is_some (credentials st !! id)); [done|]. injection HI as <- <-. eexists. split; [apply lookup_insert_eq|].
  split_and!; [done | by eapply stored_principal | exact HB | done | done|].
  intros now. unfold is_unexpired, registration_unexpired. cbn [k_expires_at].
  destruct (reg_expires_at r) as [t|]; cbn [option_map transpose] in HE.
  - unfold system_time_unix_seconds in HE. destruct (t <? 0); [done|]. destruct (_ <? _); [done|]. injection HE as <-.
    destruct (to_timestamp _) as [x|] eqn:HTs; [|done]. injection HX as <-. by rewrite (timestamp_exact _ _ HTs).
  - injection HE as <-. by injection HX as <-.
Qed.

(** An answer for the fingerprint of a row. *)
Lemma authenticate_row st id row now fate :
  keys_unique st -> credentials st !! id = Some row ->
  fst (authenticate_fingerprint now fate (k_fingerprint row) st) =
  if is_active row && is_unexpired now row && is_bounded row then
    if i64_max <=? k_last_used_count row then Err ApiKeyProviderUnavailable
    else match principal_from_str (k_principal row), fate with
         | Some p, Committed => Ok p
         | _, _ => Err ApiKeyProviderUnavailable
         end
  else match fate with FailedBefore => Err ApiKeyProviderUnavailable | _ => Err RejectedApiKey end.
Proof.
  intros HU HI. unfold authenticate_fingerprint, update_used. rewrite (find_fingerprint_unique _ _ _ HU HI).
  destruct (_ && is_bounded row); [|by destruct fate]. destruct (_ <=? _); [done|]. cbn [k_principal used].
  destruct (principal_from_str _); [|done]. by destruct fate.
Qed.

(** A row that is revoked is never authenticated again. *)
Lemma revoked_row_rejected ops st id row now fate p :
  keys_unique st -> credentials st !! id = Some row -> is_active row = false ->
  fst (authenticate_fingerprint now fate (k_fingerprint row) (key_ops ops st)) <> Ok p.
Proof.
  intros HU HI HA. destruct (key_ops_keep ops st id row HU HI) as (HU' & row' & HI' & HK & _).
  rewrite <- (kp_fingerprint _ _ _ HK), (authenticate_row _ id row' now fate HU' HI').
  rewrite (kp_revoked _ _ _ HK HA). by destruct fate.
Qed.

Lemma revoke_inactive id now fate st b st' row :
  credentials st !! id = Some row -> revoke_key id now fate st = (Ok b, st') ->
  exists row', credentials st' !! id = Some row' /\ is_active row' = false.
Proof.
  intros HI. unfold revoke_key. rewrite HI. destruct (is_active row) eqn:HA; (destruct fate; cbn [committed]; [|done..]);
    intros [= <- <-]; [|by exists row]. exists (revoked now row). split; [apply lookup_insert_eq | done].
Qed.
Lemma rotate_inactive previous r id now fate st id' st' :
  rotate_key previous r id now fate st = (Ok id', st') ->
  exists row', credentials st' !! previous = Some row' /\ is_active row' = false.
Proof.
  unfold rotate_key. destruct (registration_storage r) as [parts|]; [|done].
  destruct (insert_key id parts st) as [[rows st1]|]; [|done].
  assert (forall e, rolled_back (A := Uuid) fate KeyStorage e st <> (Ok id', st')) as HN by (by intros e; destruct fate).
  destruct (negb _); [by intros ?%HN|]. destruct (credentials st1 !! previous) as [row|]; [|by intros ?%HN].
  destruct (_ && _); [|by intros ?%HN]. destruct fate; cbn [committed]; [|done..]. intros [= <- <-].
  exists (revoked now row). split; [apply lookup_insert_eq | done].
Qed.

(** An operation that leaves the row of a registered key inactive ends it. *)
Lemma ended_key_rejected ops op st id row row1 ops' now fate p :
  keys_unique st -> credentials st !! id = Some row ->
  credentials (key_op (key_ops ops st) op) !! id = Some row1 -> is_active row1 = false ->
  fst (authenticate_fingerprint now fate (k_fingerprint row) (key_ops ops' (key_op (key_ops ops st) op))) <> Ok p.
Proof.
  intros HU HI H1' HA. change (key_op (key_ops ops st) op) with (key_ops [op] (key_ops ops st)) in *.
  unfold key_ops in H1' |- *. rewrite <- (foldl_app _ ops [op]) in H1' |- *. fold (key_ops (ops ++ [op]) st) in H1' |- *.
  destruct (key_ops_keep (ops ++ [op]) st id row HU HI) as (HU' & row' & HI' & HK & _).
  assert (row' = row1) as -> by congruence. rewrite <- (kp_fingerprint _ _ _ HK).
  exact (revoked_row_rejected ops' _ id row1 now fate p HU' HI' HA).
Qed.

(** ** Properties *)

(** C22: A registered API key authenticates its principal until it expires on the clock of the
    database, whatever other operations, lost answers included, happen meanwhile, and is
    rejected after; once it was revoked, or rotated away, it never authenticates again. *)
Theorem api_key_lifecycle `{!PrincipalJsonLaws} (hmac : bytes -> bytes -> option bytes) pepper key before r id0 fate id st :
  fingerprint hmac pepper key = Ok (reg_fingerprint r) ->
  register_key r id0 fate (key_ops before no_keys) = (Ok id, st) ->
  let login now fate st := fst (keyed_authenticate hmac (authenticate_fingerprint now fate) pepper key st) in
  (forall ops now, Forall (fun op => ~ revokes id op) ops -> 2 * Z.of_nat (List.length ops) < i64_max ->
     login now Committed (key_ops ops st) = if registration_unexpired r now then Ok (reg_principal r) else Err RejectedApiKey) /\
  (forall ops now0 fate0 b st1, revoke_key id now0 fate0 (key_ops ops st) = (Ok b, st1) ->
     forall ops' now fate' p, login now fate' (key_ops ops' st1) <> Ok p) /\
  (forall ops r' id1 now0 fate0 id' st1, rotate_key id r' id1 now0 fate0 (key_ops ops st) = (Ok id', st1) ->
     forall ops' now fate' p, login now fate' (key_ops ops' st1) <> Ok p).
Proof.
  intros HF HR. cbv zeta. unfold keyed_authenticate. rewrite HF.
  assert (keys_unique st) as HU.
  { change st with (snd (Ok id : result Uuid PostgresApiKeyStoreError, st)). rewrite <- HR.
    change (keys_unique (key_ops [Register r id0 fate] (key_ops before no_keys))). unfold key_ops. rewrite <- foldl_app.
    apply key_ops_unique. }
  apply registered_row in HR as (-> & row & HI & HFp & HP & HB & HC & HA & HX). rewrite <- HFp. split_and!.
  - intros ops now HO HL. destruct (key_ops_keep ops st id0 row HU HI) as (HU' & row' & HI' & HK & HA').
    rewrite <- (kp_fingerprint _ _ _ HK), (authenticate_row _ id0 row' now Committed HU' HI').
    rewrite (HA' HO), HA. unfold is_bounded. rewrite (kp_principal _ _ _ HK). fold (is_bounded row). rewrite HB, HP.
    assert (is_unexpired now row' = registration_unexpired r now) as ->.
    { rewrite <- HX. unfold is_unexpired. by rewrite (kp_expires_at _ _ _ HK). }
    pose proof (kp_count _ _ _ HK). rewrite (proj2 (Z.leb_gt _ _)) by lia. by destruct (registration_unexpired r now).
  - intros ops now0 fate0 b st1 HV ops' now fate' p. destruct (key_ops_keep ops st id0 row HU HI) as (_ & row' & HI' & _ & _).
    destruct (revoke_inactive _ _ _ _ _ _ _ HI' HV) as (row1 & H1' & HA1).
    assert (st1 = key_op (key_ops ops st) (Revoke id0 now0 fate0)) as -> by (cbn [key_op]; by rewrite HV).
    by apply (ended_key_rejected ops (Revoke id0 now0 fate0) st id0 row row1).
  - intros ops r' id1 now0 fate0 id' st1 HV ops' now fate' p. destruct (rotate_inactive _ _ _ _ _ _ _ _ HV) as (row1 & H1' & HA1).
    assert (st1 = key_op (key_ops ops st) (Rotate id0 r' id1 now0 fate0)) as -> by (cbn [key_op]; by rewrite HV).
    by apply (ended_key_rejected ops (Rotate id0 r' id1 now0 fate0) st id0 row row1).
Qed.

(** A success is of a row with that fingerprint that is active and unexpired, and is in the
    audit. *)
Theorem authentication_audited now fate f st p st' :
  authenticate_fingerprint now fate f st = (Ok p, st') ->
  exists id row, credentials st !! id = Some row /\ k_fingerprint row = f /\ is_active row = true /\
    is_unexpired now row = true /\ principal_from_str (k_principal row) = Some p /\
    st' = {| credentials := <[id := used now row]> (credentials st); key_audit := key_audit st ++ [(id, now)] |}.
Proof.
  unfold authenticate_fingerprint, update_used. destruct (find_fingerprint f st) as [[id row]|] eqn:HF; [|by destruct fate].
  apply find_fingerprint_Some in HF as [HI HE]. destruct (is_active row) eqn:HA; cbn [andb]; [|by destruct fate].
  destruct (is_unexpired now row) eqn:HX; cbn [andb]; [|by destruct fate]. destruct (is_bounded row); [|by destruct fate].
  destruct (_ <=? _); [done|]. cbn [k_principal used]. destruct (principal_from_str _) as [q|] eqn:HP; [|done].
  destruct fate; cbn [committed]; [|done..]. intros [= <- <-]. by exists id, row.
Qed.
End store.

(** ** A model of the JSON, and a key *)

Module ApiKeyExamples.
Import BitCodec.

(** A principal as one binary number, which the database keeps as it is. *)
#[export] Instance json : PrincipalJson := {|
  principal_to_string p := Some (bits (encode p)); principal_from_str s := decode (of_bits s);
  jsonb_text s := Some s; to_timestamp s := Some (s * 1000000)
|}.
#[export] Instance json_laws : PrincipalJsonLaws.
Proof.
  split; cbn; [|by intros s t [= <-]]. intros p text stored [= <-] [= <-]. by rewrite of_bits_bits, decode_encode.
Qed.

Definition pepper : ApiKeyPepper := repeat (ascii_of_nat 7) 32.
(** A keyed digest: the key itself, padded to 32 bytes. *)
Definition digest (pepper key : bytes) : option bytes := Some (take 32 (key ++ pepper)).
Definition key : str := ##"secret-key".
Definition registration : ApiKeyRegistration :=
  registration_expires_at 5000000000000 (registration_new (take 32 (key ++ pepper)) AuthExamples.reader).
Definition registered := register_key registration 3 Committed (key_ops [] no_keys).

Lemma api_key_lifecycle_witness :
  registered = (Ok 3, snd registered) /\
  fst (keyed_authenticate digest (authenticate_fingerprint 4999000000 Committed) pepper key
         (key_ops [Revoke 4 1000 AckLost; Authenticate key 2000 Committed] (snd registered))) = Ok AuthExamples.reader.
Proof.
  assert (HS : registered = (Ok 3, snd registered)).
  { rewrite (surjective_pairing registered) at 1. f_equal; vm_compute; reflexivity. }
  split; [exact HS|]. revert HS. generalize (snd registered). unfold registered. intros st HS.
  destruct (api_key_lifecycle digest pepper key [] registration 3 Committed 3 st eq_refl HS) as [HL _].
  rewrite (HL [Revoke 4 1000 AckLost; Authenticate key 2000 Committed] 4999000000); [reflexivity | | reflexivity].
  repeat constructor; cbn; congruence.
Defined.
End ApiKeyExamples.
