(* ===== verification/Session.v ===== *)
(** Server-side sessions: [crates/rustee-auth-session].

    Cookie policy, session records, the manager, the in-memory store and the two
    middlewares. The manager and the middleware are written against the store
    interface [SessionStore]; [SessionStoreLaws] is its contract and the in-memory
    store implements it. Times are Unix seconds and are arguments of the
    operations that read the clock. *)

From Stdlib Require Import ZArith Lia Bool Ascii.
From stdpp Require Import gmap sets.
From S2P Require Import Prelude Strings Uuid Http Core HttpModel Auth.

Local Open Scope Z_scope.

(** ** Constant-time equality: [crates/rustee-auth/src/constant_time.rs] *)

Definition constant_time_eq (left right : bytes) : bool :=
  if negb (List.length left =? List.length right)%nat then false
  else foldl (fun difference '(l, r) => Z.lor difference (Z.lxor (code l) (code r))) 0
         (combine left right) =? 0.

(** ** Cookies: [model/cookie.rs] *)

Definition MAX_COOKIE_NAME_BYTES : nat := 128.

Inductive SameSite : Type := SameSiteStrict | SameSiteLax | SameSiteNone.
Definition same_site_as_str (s : SameSite) : str :=
  match s with SameSiteStrict => ##"Strict" | SameSiteLax => ##"Lax" | SameSiteNone => ##"None" end.

Record SessionCookieConfig : Type := {
  cookie_name : str;
  ttl_seconds : Z;
  secure : bool;
  same_site : SameSite
}.
Inductive CookieConfigError : Type := CookieInvalidName | ZeroTtl | SameSiteNoneRequiresSecure.

Definition valid_cookie_name (name : str) : bool :=
  nonempty name
  && (List.length name <=? MAX_COOKIE_NAME_BYTES)%nat
  && forallb (fun c => is_ascii_alphanumeric c || existsb (char_eqb c) ##"!#$%&'*+-.^_`|~") name.

Definition cookie_config_new (name : str) (ttl : Z) : result SessionCookieConfig CookieConfigError :=
  if negb (valid_cookie_name name) then Err CookieInvalidName
  else if ttl =? 0 then Err ZeroTtl
  else Ok {| cookie_name := name; ttl_seconds := ttl; secure := true; same_site := SameSiteLax |}.

Definition with_same_site (s : SameSite) (c : SessionCookieConfig) :
    result SessionCookieConfig CookieConfigError :=
  match s, secure c with
  | SameSiteNone, false => Err SameSiteNoneRequiresSecure
  | _, _ => Ok {| cookie_name := cookie_name c; ttl_seconds := ttl_seconds c; secure := secure c;
                  same_site := s |}
  end.

Definition with_secure (b : bool) (c : SessionCookieConfig) : result SessionCookieConfig CookieConfigError :=
  match b, same_site c with
  | false, SameSiteNone => Err SameSiteNoneRequiresSecure
  | _, _ => Ok {| cookie_name := cookie_name c; ttl_seconds := ttl_seconds c; secure := b;
                  same_site := same_site c |}
  end.

(** ** Sessions: [model/session.rs] *)

(** An RFC 4122 UUID of version 4. *)
Definition SessionId : Type := Uuid.

Record Session : Type := {
  s_id : SessionId;
  s_principal : Principal;
  s_csrf_token : str;
  s_expires_at : Z
}.

Section sessions.
Context `{UuidApi}.

Definition session_id_from_uuid (u : Uuid) : option SessionId :=
  if uuid_is_v4 u then Some u else None.

Definition session_id_parse (value : str) : option SessionId :=
  u ← uuid_parse_str value;
  if str_eqb (uuid_to_string u) value then session_id_from_uuid u else None.

(** [fresh_id] and [fresh_csrf] are the two random UUIDs. *)
Definition session_new (p : Principal) (ttl now : Z) (fresh_id fresh_csrf : Uuid) : Session := {|
  s_id := fresh_id;
  s_principal := p;
  s_csrf_token := uuid_to_string fresh_csrf;
  s_expires_at := saturating_add u64_max now ttl
|}.

Definition valid_csrf_token (value : str) : bool :=
  (List.length value =? 36)%nat
  && match uuid_parse_str value with Some u => str_eqb (uuid_to_string u) value | None => false end.

(** [Session::from_serialized]; [None] is the error. *)
Definition session_from_serialized (s : Session) : option Session :=
  if negb (valid_csrf_token (s_csrf_token s)) then None else Some s.
End sessions.

Definition is_expired (s : Session) (now : Z) : bool := s_expires_at s <=? now.

Definition remaining_ttl_seconds (s : Session) (now : Z) : option Z :=
  if s_expires_at s <? now then None
  else let ttl := s_expires_at s - now in if 0 <? ttl then Some ttl else None.

(** ** Stores: [model/manager.rs] and [model/in_memory.rs] *)

Class SessionStore (St E : Type) : Type := {
  save : Session -> Z -> St -> result unit E * St;
  load : SessionId -> Z -> St -> result (option Session) E * St;
  delete : SessionId -> St -> result unit E * St
}.

Definition MAX_IN_MEMORY_SESSIONS : nat := 1024.

Inductive InMemorySessionStoreError : Type := StateUnavailable | ExpiredSession | CapacityExhausted.

(** The map behind the mutex, and whether the mutex is poisoned. *)
Record InMemory : Type := { live_sessions : gmap SessionId Session; poisoned : bool }.
Definition in_memory_default : InMemory := {| live_sessions := ∅; poisoned := false |}.
Definition set_sessions (m : gmap SessionId Session) (st : InMemory) : InMemory :=
  {| live_sessions := m; poisoned := poisoned st |}.

(** [retain(|_, s| !s.is_expired())]. *)
Definition retain_live (now : Z) (m : gmap SessionId Session) : gmap SessionId Session :=
  filter (fun '(_, s) => is_expired s now = false) m.

Definition in_memory_save (s : Session) (now : Z) (st : InMemory) :
    result unit InMemorySessionStoreError * InMemory :=
  if poisoned st then (Err StateUnavailable, st)
  else
    let sessions := retain_live now (live_sessions st) in
    if is_expired s now then (Err ExpiredSession, set_sessions sessions st)
    else if negb (is_some (sessions !! s_id s)) && (MAX_IN_MEMORY_SESSIONS <=? size sessions)%nat
    then (Err CapacityExhausted, set_sessions sessions st)
    else (Ok tt, set_sessions (<[s_id s := s]> sessions) st).

Definition in_memory_load (id : SessionId) (now : Z) (st : InMemory) :
    result (option Session) InMemorySessionStoreError * InMemory :=
  if poisoned st then (Err StateUnavailable, st)
  else
    let sessions := retain_live now (live_sessions st) in
    (Ok (sessions !! id), set_sessions sessions st).

Definition in_memory_delete (id : SessionId) (st : InMemory) :
    result unit InMemorySessionStoreError * InMemory :=
  if poisoned st then (Err StateUnavailable, st)
  else (Ok tt, set_sessions (base.delete id (live_sessions st)) st).

#[export] Instance in_memory : SessionStore InMemory InMemorySessionStoreError := {|
  save := in_memory_save;
  load := in_memory_load;
  delete := in_memory_delete
|}.

(** ** The manager and the middlewares: [model/manager.rs], [middleware.rs] and [middleware/csrf.rs] *)

Definition X_CSRF_TOKEN : str := ##"x-csrf-token".

Section http.
Context `{HttpApi, UuidApi} `{!Serialize ErrorPayload}.

Definition cookie_attributes (c : SessionCookieConfig) (max_age : str) : str :=
  ##"; Path=/; Max-Age=" ++ max_age ++ ##"; HttpOnly" ++ (if secure c then ##"; Secure" else [])
  ++ ##"; SameSite=" ++ same_site_as_str (same_site c).

(** The [expect]s are [None]. *)
Definition set_cookie (c : SessionCookieConfig) (id : SessionId) : option HeaderValue :=
  hv_from_str (cookie_name c ++ ##"=" ++ uuid_to_string id ++ cookie_attributes c (to_dec (ttl_seconds c))).
Definition clear_cookie (c : SessionCookieConfig) : option HeaderValue :=
  hv_from_str (cookie_name c ++ ##"=" ++ cookie_attributes c ##"0").

Record IssuedSession : Type := { issued_csrf_token : str; issued_set_cookie : HeaderValue }.

Definition apply_to (i : IssuedSession) (r : Response) : Response :=
  with_headers (hm_append SET_COOKIE (issued_set_cookie i)) r.

Context {St E : Type} `{!SessionStore St E}.

(** [None] is a failed [expect]. *)
Definition establish (c : SessionCookieConfig) (p : Principal) (now : Z) (fresh_id fresh_csrf : Uuid)
    (st : St) : option (result IssuedSession E) * St :=
  let session := session_new p (ttl_seconds c) now fresh_id fresh_csrf in
  let '(r, st) := save session now st in
  match r with
  | Err e => (Some (Err e), st)
  | Ok _ =>
      (option_map (fun v => Ok {| issued_csrf_token := s_csrf_token session; issued_set_cookie := v |})
         (set_cookie c (s_id session)), st)
  end.

Definition rotate (c : SessionCookieConfig) (previous : SessionId) (p : Principal) (now : Z)
    (fresh_id fresh_csrf : Uuid) (st : St) : option (result IssuedSession E) * St :=
  let '(r, st) := delete previous st in
  match r with
  | Err e => (Some (Err e), st)
  | Ok _ => establish c p now fresh_id fresh_csrf st
  end.

Definition invalidate (c : SessionCookieConfig) (id : SessionId) (st : St) :
    option (result HeaderValue E) * St :=
  let '(r, st) := delete id st in
  match r with
  | Err e => (Some (Err e), st)
  | Ok _ => (option_map Ok (clear_cookie c), st)
  end.

(** The values of the cookies called [name]. *)
Definition cookie_values (name cookie : str) : list str :=
  omap (fun part =>
          match split_once "=" (trim part) with
          | Some (key, value) => if str_eqb key name then Some value else None
          | None => None
          end) (split ";" cookie).

Definition session_id (headers : HeaderMap) (name : str) : option SessionId :=
  match hm_get_all COOKIE headers with
  | [value] =>
      cookie ← hv_to_str value;
      match cookie_values name cookie with
      | [v] => session_id_parse v
      | _ => None
      end
  | _ => None
  end.

Definition session_unavailable : Error :=
  mk_error 503 ##"session_unavailable" ##"session service is unavailable".

Definition with_session (s : Session) (id : SessionId) (r : Request) : Request :=
  with_req_extensions (set_session {| context_id := id; context_csrf_token := s_csrf_token s |})
    (with_req_extensions (set_principal (s_principal s)) r).

(** [SessionService::call]; [now_load] and [now_check] are the clock readings of the
    store and of the filter. *)
Definition session_call (c : SessionCookieConfig) (inner : Service) (request : Request)
    (now_load now_check : Z) (st : St) : Response * St :=
  match session_id (req_headers request) (cookie_name c) with
  | None => (call_ready inner request, st)
  | Some id =>
      let '(r, st) := load id now_load st in
      match r with
      | Err _ => (into_response session_unavailable, st)
      | Ok (Some s) =>
          if (s_id s =? id) && negb (is_expired s now_check)
          then (call_ready inner (with_session s id request), st)
          else (call_ready inner request, st)
      | Ok None => (call_ready inner request, st)
      end
  end.

(** [FromRequest for SessionUser]. *)
Definition session_user (request : Request) : result (Principal * SessionId) Error :=
  match ext_principal (req_extensions request), ext_session (req_extensions request) with
  | Some p, Some context => Ok (p, context_id context)
  | _, _ => Err (mk_error 401 ##"unauthenticated" ##"authentication is required")
  end.

Definition is_safe_method (method : str) : bool :=
  existsb (str_eqb method) [ ##"GET"; ##"HEAD"; ##"OPTIONS"; ##"TRACE" ].

Definition csrf_header_value (headers : HeaderMap) : option str :=
  match hm_get_all X_CSRF_TOKEN headers with
  | [value] => hv_to_str value
  | _ => None
  end.

Definition csrf_rejected : Error := mk_error 403 ##"csrf_rejected" ##"CSRF validation failed".

Definition csrf_call (inner : Service) (request : Request) : Response :=
  if is_safe_method (req_method request) then call_ready inner request
  else
    match ext_session (req_extensions request) with
    | None => call_ready inner request
    | Some session =>
        let valid :=
          match csrf_header_value (req_headers request) with
          | Some token => constant_time_eq token (context_csrf_token session)
          | None => false
          end in
        if negb valid then into_response csrf_rejected else call_ready inner request
    end.
End http.

(** ** Lemmas: constant-time equality *)

Lemma constant_time_fold l r d :
  List.length l = List.length r -> 0 <= d ->
  foldl (fun difference '(a, b) => Z.lor difference (Z.lxor (code a) (code b))) d (combine l r) = 0
  <-> d = 0 /\ l = r.
Proof.
  revert r d. induction l as [|a l IH]; intros [|b r] d HL Hd; try done; cbn [combine foldl].
  { naive_solver. }
  injection HL as HL. pose proof (code_range a). pose proof (code_range b).
  assert (0 <= Z.lxor (code a) (code b)) by (apply Z.lxor_nonneg; lia).
  rewrite IH by (try apply Z.lor_nonneg; done). rewrite Z.lor_eq_0_iff, Z.lxor_eq_0_iff.
  split; [intros [[-> ->%code_inj] ->]; done | intros [-> [= -> ->]]; done].
Qed.

Lemma constant_time_eq_true l r : constant_time_eq l r = true <-> l = r.
Proof.
  unfold constant_time_eq. destruct (_ =? _)%nat eqn:E; cbn [negb].
  - apply Nat.eqb_eq in E. rewrite Z.eqb_eq, constant_time_fold by done. tauto.
  - apply Nat.eqb_neq in E. split; [done | by intros ->].
Qed.

(** ** The store's contract *)

Section stores.
Context {St E : Type} `{!SessionStore St E}.

(** A record stays, unless it had expired. *)
Definition kept_until_expiry (now : Z) (before after : option Session) : Prop :=
  after = before \/ (after = None /\ exists s, before = Some s /\ is_expired s now = true).

Class SessionStoreLaws (stored : St -> SessionId -> option Session) : Prop := {
  load_returns i now st o st' :
    load i now st = (Ok o, st') ->
    o = match stored st i with Some s => if is_expired s now then None else Some s | None => None end;
  load_keeps i now st r st' j :
    load i now st = (r, st') -> kept_until_expiry now (stored st j) (stored st' j);
  save_stores s now st st' : save s now st = (Ok tt, st') -> stored st' (s_id s) = Some s;
  save_keeps s now st r st' j :
    save s now st = (r, st') -> j <> s_id s -> kept_until_expiry now (stored st j) (stored st' j);
  delete_removes i st st' : delete i st = (Ok tt, st') -> stored st' i = None;
  delete_fails i st e st' :
    delete i st = (Err e, st') -> stored st' i = None \/ stored st' i = stored st i;
  delete_keeps i st r st' j : delete i st = (r, st') -> j <> i -> stored st' j = stored st j
}.

(** What other requests do to the store. *)
Inductive StoreOp : Type :=
| DoSave (s : Session) (now : Z)
| DoLoad (i : SessionId) (now : Z)
| DoDelete (i : SessionId).

Definition run_op (st : St) (op : StoreOp) : St :=
  match op with
  | DoSave s now => snd (save s now st)
  | DoLoad i now => snd (load i now st)
  | DoDelete i => snd (delete i st)
  end.
Definition run_ops (ops : list StoreOp) (st : St) : St := foldl run_op st ops.

(** The operation is about another session and happens before [t]. *)
Definition spares (i : SessionId) (t : Z) (op : StoreOp) : Prop :=
  match op with
  | DoSave s now => s_id s <> i /\ now < t
  | DoLoad _ now => now < t
  | DoDelete j => j <> i
  end.
Definition creates (i : SessionId) (op : StoreOp) : Prop :=
  match op with DoSave s _ => s_id s = i | _ => False end.

Context (stored : St -> SessionId -> option Session) `{!SessionStoreLaws stored}.

Lemma kept_live now s after :
  kept_until_expiry now (Some s) after -> now < s_expires_at s -> after = Some s.
Proof. intros [?|(_ & s' & [= <-] & HE)] Hn; [done|]. unfold is_expired in HE. bool_hyps. lia. Qed.

Lemma kept_absent now after : kept_until_expiry now None after -> after = None.
Proof. by intros [?|(? & _)]. Qed.

Lemma spared_session ops i s st :
  stored st i = Some s -> Forall (spares i (s_expires_at s)) ops -> stored (run_ops ops st) i = Some s.
Proof.
  intros HS HF. revert st HS. induction HF as [|op ops Ho _ IH]; intros st HS; [done|].
  apply IH. clear IH. destruct op as [s' now|j now|j]; cbn [run_op spares] in *.
  - destruct (save s' now st) as [r st'] eqn:HE. apply (kept_live now); [|tauto]. rewrite <- HS.
    eapply save_keeps; [done | naive_solver].
  - destruct (load j now st) as [r st'] eqn:HE. apply (kept_live now); [|tauto]. rewrite <- HS.
    by eapply load_keeps.
  - destruct (delete j st) as [r st'] eqn:HE. rewrite <- HS. by eapply delete_keeps.
Qed.

Lemma deleted_session ops i st :
  stored st i = None -> Forall (fun op => ~ creates i op) ops -> stored (run_ops ops st) i = None.
Proof.
  intros HS HF. revert st HS. induction HF as [|op ops Ho _ IH]; intros st HS; [done|].
  apply IH. clear IH. destruct op as [s' now|j now|j]; cbn [run_op creates] in *.
  - destruct (save s' now st) as [r st'] eqn:HE. apply (kept_absent now). rewrite <- HS.
    eapply save_keeps; [done | naive_solver].
  - destruct (load j now st) as [r st'] eqn:HE. apply (kept_absent now). rewrite <- HS. by eapply load_keeps.
  - destruct (delete j st) as [r st'] eqn:HE. cbn [snd]. destruct (decide (i = j)) as [->|Hn].
    + destruct r as [[]|e]; [by eapply delete_removes|].
      destruct (delete_fails j st e st' HE) as [HN|HN]; by rewrite HN.
    + rewrite <- HS. by eapply delete_keeps.
Qed.
End stores.

(** ** Lemmas: the in-memory store implements the contract *)

Definition in_memory_stored (st : InMemory) (i : SessionId) : option Session := live_sessions st !! i.

Lemma retain_live_lookup now m i :
  retain_live now m !! i = match m !! i with Some s => if is_expired s now then None else Some s | None => None end.
Proof.
  unfold retain_live. destruct (m !! i) as [s|] eqn:HE.
  - destruct (is_expired s now) eqn:Hx.
    + apply map_lookup_filter_None. right. intros s' Hs'. assert (s' = s) as -> by congruence. congruence.
    + apply map_lookup_filter_Some. done.
  - apply map_lookup_filter_None. by left.
Qed.

Lemma retain_live_kept now m i : kept_until_expiry now (m !! i) (retain_live now m !! i).
Proof.
  rewrite retain_live_lookup. destruct (m !! i) as [s|]; [|by left].
  destruct (is_expired s now) eqn:HE; [right | by left]. split; [done|]. by exists s.
Qed.

#[export] Instance in_memory_laws : SessionStoreLaws in_memory_stored.
Proof.
  unfold in_memory_stored. split; cbn [save load delete in_memory];
    unfold in_memory_save, in_memory_load, in_memory_delete.
  - intros i now st o st'. destruct (poisoned st); [done|]. intros [= <- <-]. apply retain_live_lookup.
  - intros i now st r st' j. destruct (poisoned st); intros [= <- <-]; [by left | apply retain_live_kept].
  - intros s now st st'. destruct (poisoned st); [done|]. destruct (is_expired s now); [done|].
    destruct (_ && _); [done|]. intros [= <-]. apply lookup_insert_eq.
  - intros s now st r st' j. destruct (poisoned st); [by intros [= <- <-]; left|].
    destruct (is_expired s now); [by intros [= <- <-] _; apply retain_live_kept|].
    destruct (_ && _); [by intros [= <- <-] _; apply retain_live_kept|].
    intros [= <- <-] Hj. cbn [live_sessions set_sessions].
    rewrite lookup_insert_ne by done. apply retain_live_kept.
  - intros i st st'. destruct (poisoned st); [done|]. intros [= <-]. apply lookup_delete_eq.
  - intros i st e st'. destruct (poisoned st); [|done]. intros [= <- <-]. by right.
  - intros i st r st' j. destruct (poisoned st); intros [= <- <-] Hj; [done|].
    by apply lookup_delete_ne.
Qed.

(** The store never holds more than its capacity, each record under its own id. *)
Definition bounded_store (st : InMemory) : Prop :=
  (size (live_sessions st) <= MAX_IN_MEMORY_SESSIONS)%nat
  /\ map_Forall (fun i s => s_id s = i) (live_sessions st).

Lemma retain_live_subseteq now m : retain_live now m ⊆ m.
Proof. apply map_filter_subseteq. Qed.

Lemma bounded_retain now st : bounded_store st -> bounded_store (set_sessions (retain_live now (live_sessions st)) st).
Proof.
  intros [HS HF]. pose proof (retain_live_subseteq now (live_sessions st)) as HSub. split.
  - cbn [live_sessions set_sessions]. etrans; [|done]. by apply map_subseteq_size.
  - intros i s Hi. apply HF. by eapply lookup_weaken.
Qed.

Lemma bounded_run op st : bounded_store st -> bounded_store (run_op st op).
Proof.
  intros HB. destruct op as [s now|i now|i]; cbn [run_op save load delete in_memory].
  - unfold in_memory_save. destruct (poisoned st); [done|]. apply (bounded_retain now) in HB as HR.
    destruct (is_expired s now); [done|]. destruct (_ && _) eqn:HC; [done|].
    destruct HR as [HS HF]. cbn [live_sessions set_sessions] in *. split; cbn [live_sessions set_sessions snd].
    + destruct (retain_live now (live_sessions st) !! s_id s) as [s'|] eqn:HL.
      * rewrite map_size_insert_Some by (by eexists). done.
      * rewrite map_size_insert_None by done. cbn [is_some negb andb] in HC. bool_hyps. lia.
    + by apply map_Forall_insert_2.
  - unfold in_memory_load. destruct (poisoned st); [done|]. by apply bounded_retain.
  - unfold in_memory_delete. destruct (poisoned st); [done|]. destruct HB as [HS HF].
    split; cbn [live_sessions set_sessions snd].
    + etrans; [|done]. apply map_subseteq_size, delete_subseteq.
    + by apply map_Forall_delete.
Qed.

(** ** Lemmas: cookies *)

(** A configuration [SessionCookieConfig] can have. *)
Inductive built_cookie : SessionCookieConfig -> Prop :=
| built_new name ttl c : cookie_config_new name ttl = Ok c -> built_cookie c
| built_same_site s c c' : built_cookie c -> with_same_site s c = Ok c' -> built_cookie c'
| built_secure b c c' : built_cookie c -> with_secure b c = Ok c' -> built_cookie c'.

Lemma built_cookie_valid c :
  built_cookie c ->
  valid_cookie_name (cookie_name c) = true /\ (same_site c = SameSiteNone -> secure c = true).
Proof.
  induction 1 as [name ttl c HC | s c c' _ [IH1 IH2] HC | b c c' _ [IH1 IH2] HC].
  - unfold cookie_config_new in HC. destruct (valid_cookie_name name) eqn:E; [|done].
    cbn [negb] in HC. destruct (ttl =? 0); [done|]. injection HC as <-. done.
  - unfold with_same_site in HC. destruct s, (secure c) eqn:E; simplify_eq; done.
  - unfold with_secure in HC. destruct b, (same_site c) eqn:E; simplify_eq; done.
Qed.

Lemma cookie_name_chars name :
  valid_cookie_name name = true ->
  Forall (fun c => visible c = true /\ is_ascii_ws c = false /\ c <> ";"%char /\ c <> "="%char) name.
Proof.
  unfold valid_cookie_name. rewrite !andb_true_iff, forallb_Forall. intros [_ HF].
  apply (Forall_impl _ _ _ HF). intros c Hc.
  destruct c as [[] [] [] [] [] [] [] []]; vm_compute in Hc |- *; try done; split_and!; done.
Qed.

Section cookies.
Context `{HttpLaws} `{UuidLaws}.

Lemma uuid_text_chars u :
  Forall (fun c => visible c = true /\ is_ascii_ws c = false /\ c <> ";"%char) (uuid_to_string u).
Proof.
  apply (Forall_impl _ _ _ (uuid_characters u)). intros c Hc.
  destruct c as [[] [] [] [] [] [] [] []]; vm_compute in Hc |- *; try done; split_and!; done.
Qed.

(** [name=value], the pair a browser sends back. *)
Definition cookie_pair (c : SessionCookieConfig) (i : SessionId) : str :=
  cookie_name c ++ ##"=" ++ uuid_to_string i.

Lemma cookie_pair_chars c i :
  valid_cookie_name (cookie_name c) = true ->
  Forall (fun c => visible c = true /\ is_ascii_ws c = false /\ c <> ";"%char) (cookie_pair c i).
Proof.
  intros HN. apply Forall_app. split.
  - apply (Forall_impl _ _ _ (cookie_name_chars _ HN)). naive_solver.
  - apply Forall_app. split; [by repeat constructor | apply uuid_text_chars].
Qed.

Lemma cookie_pair_values c i :
  valid_cookie_name (cookie_name c) = true ->
  cookie_values (cookie_name c) (cookie_pair c i) = [uuid_to_string i].
Proof.
  intros HN. pose proof (cookie_pair_chars c i HN) as HF. unfold cookie_values. rewrite split_no.
  2:{ intros Hin. rewrite Forall_forall in HF. apply HF in Hin. naive_solver. }
  cbn [omap list_omap]. rewrite trim_id by (apply (Forall_impl _ _ _ HF); naive_solver).
  unfold cookie_pair.
  rewrite (proj2 (split_once_Some "=" _ (cookie_name c) (uuid_to_string i))).
  - by rewrite (proj2 (str_eqb_true _ _) eq_refl).
  - split; [done|]. intros Hin. pose proof (cookie_name_chars _ HN) as HC.
    rewrite Forall_forall in HC. apply HC in Hin. naive_solver.
Qed.

Lemma set_cookie_pair c i v :
  valid_cookie_name (cookie_name c) = true -> set_cookie c i = Some v ->
  head (split ";" (hv_as_bytes v)) = Some (cookie_pair c i).
Proof.
  intros HN HS. unfold set_cookie in HS. apply hv_from_str_Some in HS. rewrite HS.
  assert (HE : exists rest, cookie_name c ++ ##"=" ++ uuid_to_string i
                            ++ cookie_attributes c (to_dec (ttl_seconds c)) = cookie_pair c i ++ ";"%char :: rest).
  { eexists. unfold cookie_pair, cookie_attributes. rewrite <- !app_assoc. reflexivity. }
  destruct HE as [rest ->]. rewrite split_app_sep; [done|].
  intros Hin. pose proof (cookie_pair_chars c i HN) as HF. rewrite Forall_forall in HF.
  apply HF in Hin. naive_solver.
Qed.

Lemma attributes_visible c age :
  Forall (fun c => visible c = true) age -> Forall (fun c => visible c = true) (cookie_attributes c age).
Proof.
  intros HA. unfold cookie_attributes.
  repeat (apply Forall_app; split); try done; try (apply forallb_Forall; reflexivity).
  - by destruct (secure c); apply forallb_Forall.
  - by destruct (same_site c); apply forallb_Forall.
Qed.

Lemma set_cookie_total c i :
  valid_cookie_name (cookie_name c) = true -> 0 <= ttl_seconds c -> is_Some (set_cookie c i).
Proof.
  intros HN HT. apply hv_from_str_visible, forallb_Forall.
  assert (HP := cookie_pair_chars c i HN). unfold cookie_pair in HP.
  rewrite !app_assoc. rewrite <- (app_assoc (cookie_name c)). apply Forall_app. split.
  - apply (Forall_impl _ _ _ HP). naive_solver.
  - apply attributes_visible, (Forall_impl _ _ _ (to_dec_digits _ HT)). intros d Hd.
    destruct d as [[] [] [] [] [] [] [] []]; vm_compute in Hd |- *; done.
Qed.

Lemma session_id_parse_print i :
  is_uuid i -> uuid_is_v4 i = true -> session_id_parse (uuid_to_string i) = Some i.
Proof.
  intros HU HV. unfold session_id_parse. rewrite uuid_parse_print by done. cbn.
  rewrite (proj2 (str_eqb_true _ _) eq_refl). unfold session_id_from_uuid. by rewrite HV.
Qed.

(** The request carries this session cookie, possibly among others. *)
Definition carries_cookie (c : SessionCookieConfig) (i : SessionId) (r : Request) : Prop :=
  exists v text, hm_get_all COOKIE (req_headers r) = [v] /\ hv_to_str v = Some text
                 /\ cookie_values (cookie_name c) text = [uuid_to_string i].

Lemma carries_session_id c i r :
  carries_cookie c i r -> is_uuid i -> uuid_is_v4 i = true ->
  session_id (req_headers r) (cookie_name c) = Some i.
Proof.
  intros (v & text & HG & HT & HC) HU HV. unfold session_id. rewrite HG, HT. cbn. rewrite HC.
  by apply session_id_parse_print.
Qed.
End cookies.

(** ** Properties *)

(** C21: The life of a session, over any store that keeps its contract. The header
    an established session is issued with has the pair [name=id] as its first
    part, and that pair alone is a [Cookie] header that names the session. A
    request that presents it before the session expires reaches the handler with
    the session's principal and CSRF token whatever other requests did to the
    store in between, and after an acknowledged deletion, and whatever happens
    then short of creating the id again, it reaches the handler as it came; the
    one other answer is a 503, when the store fails to load. *)
Theorem session_lifecycle `{HttpLaws} `{UuidLaws} `{!Serialize ErrorPayload} {St E} `{!SessionStore St E}
    (stored : St -> SessionId -> option Session) `{!SessionStoreLaws stored}
    c p now fresh_id fresh_csrf st issued st1 :
  built_cookie c -> is_uuid fresh_id -> uuid_is_v4 fresh_id = true ->
  establish c p now fresh_id fresh_csrf st = (Some (Ok issued), st1) ->
  let s := session_new p (ttl_seconds c) now fresh_id fresh_csrf in
  (head (split ";" (hv_as_bytes (issued_set_cookie issued))) = Some (cookie_pair c fresh_id)
   /\ cookie_values (cookie_name c) (cookie_pair c fresh_id) = [uuid_to_string fresh_id])
  /\ forall ops inner request t1 t2, carries_cookie c fresh_id request ->
     (Forall (spares fresh_id (s_expires_at s)) ops -> t1 < s_expires_at s -> t2 < s_expires_at s ->
      fst (session_call c inner request t1 t2 (run_ops ops st1)) =
        match fst (load fresh_id t1 (run_ops ops st1)) with
        | Ok _ => call_ready inner (with_session s fresh_id request)
        | Err _ => into_response session_unavailable
        end)
     /\ (forall before st2,
           delete fresh_id (run_ops before st1) = (Ok tt, st2) ->
           Forall (fun op => ~ creates fresh_id op) ops ->
           fst (session_call c inner request t1 t2 (run_ops ops st2)) =
             match fst (load fresh_id t1 (run_ops ops st2)) with
             | Ok _ => call_ready inner request
             | Err _ => into_response session_unavailable
             end).
Proof.
  intros [HN _]%built_cookie_valid HU HV HE s. unfold establish in HE. fold s in HE.
  destruct (save s now st) as [[[]|e] st'] eqn:HS; [|done].
  destruct (set_cookie c (s_id s)) as [v|] eqn:HC; [|done]. injection HE as <- <-.
  apply save_stores in HS. change (s_id s) with fresh_id in *.
  split; [split; [by apply set_cookie_pair | by apply cookie_pair_values]|].
  intros ops inner request t1 t2 HR. unfold session_call.
  rewrite (carries_session_id c fresh_id request HR HU HV). split.
  - intros HF Ht1 Ht2. apply (spared_session stored ops) in HS; [|done].
    destruct (load fresh_id t1 (run_ops ops st')) as [[o|e] st3] eqn:HL; cbn [fst]; [|done].
    apply load_returns in HL as ->. rewrite HS. unfold is_expired.
    rewrite (proj2 (Z.leb_gt _ _)), (proj2 (Z.leb_gt _ _)) by done.
    change (s_id s) with fresh_id. by rewrite Z.eqb_refl.
  - intros before st2 HD HF. apply delete_removes in HD.
    apply (deleted_session stored ops) in HD; [|done].
    destruct (load fresh_id t1 (run_ops ops st2)) as [[o|e] st3] eqn:HL; cbn [fst]; [|done].
    apply load_returns in HL as ->. by rewrite HD.
Qed.

(** Cross-site request forgery. Inside the session layer the CSRF layer lets a
    request with an unsafe method and a restored session reach the handler only
    when it has exactly one [X-CSRF-Token] header and that is the session's
    token, byte for byte; otherwise the answer is the fixed 403, whatever the
    handler. Safe methods and requests without a session pass unchanged. *)
Theorem csrf_protects `{HttpApi} `{!Serialize ErrorPayload} inner request :
  let matching token :=
    exists v, hm_get_all X_CSRF_TOKEN (req_headers request) = [v] /\ hv_to_str v = Some token in
  match ext_session (req_extensions request) with
  | Some context =>
      (is_safe_method (req_method request) = true \/ matching (context_csrf_token context) ->
       csrf_call inner request = call_ready inner request)
      /\ (is_safe_method (req_method request) = false -> ~ matching (context_csrf_token context) ->
          csrf_call inner request = into_response csrf_rejected)
  | None => csrf_call inner request = call_ready inner request
  end.
Proof.
  cbv zeta. unfold csrf_call. destruct (ext_session (req_extensions request)) as [context|].
  2:{ by destruct (is_safe_method _). }
  assert (HM : match csrf_header_value (req_headers request) with
               | Some token => constant_time_eq token (context_csrf_token context)
               | None => false
               end = true <->
               exists v, hm_get_all X_CSRF_TOKEN (req_headers request) = [v]
                         /\ hv_to_str v = Some (context_csrf_token context)).
  { unfold csrf_header_value. destruct (hm_get_all _ _) as [|v [|v' vs]].
    1,3: split; [done | intros (? & ? & _); done].
    destruct (hv_to_str v) as [t|] eqn:Hv.
    - rewrite constant_time_eq_true. split; [intros ->; by exists v|].
      intros (v' & [= <-] & HT). congruence.
    - split; [done|]. intros (v' & [= <-] & HT). congruence. }
  destruct (is_safe_method _); [split; [done | discriminate]|].
  destruct (match csrf_header_value _ with Some _ => _ | None => _ end); cbn [negb].
  - split; [done|]. intros _ HN. exfalso. tauto.
  - split; [intros [?|?%HM]; done | done].
Qed.

(** The in-memory store stays bounded. After any sequence of saves, loads and
    deletes, at any times, it holds at most 1024 sessions, each under its own
    id. *)
Theorem in_memory_bounded ops : bounded_store (run_ops ops in_memory_default).
Proof.
  assert (HB : bounded_store in_memory_default).
  { split; [simpl; unfold MAX_IN_MEMORY_SESSIONS; rewrite map_size_empty; lia | apply map_Forall_empty]. }
  revert HB. generalize in_memory_default as st. induction ops as [|op ops IH]; intros st HB; [done|].
  cbn [run_ops foldl]. by apply IH, bounded_run.
Qed.

(** ** Examples *)

Module SessionExamples.
Import HttpModel UuidModel.

Definition config : SessionCookieConfig :=
  {| cookie_name := ##"sid"; ttl_seconds := 60; secure := true; same_site := SameSiteLax |}.
(** A version 4 UUID. *)
Definition some_id : SessionId := 2 ^ 78 + 2 ^ 63 + 5.
Definition alice : Principal := AuthExamples.reader.
Definition visit : Request := {|
  req_method := ##"GET"; req_uri := {| u_path := ##"/"; u_query := None |};
  req_headers := [(COOKIE, ##"theme=dark; sid=00000000-0000-4000-8000-000000000005")];
  req_extensions := no_extensions; req_body := empty_body
|}.
Definition hello (r : Request) : Response :=
  response (if is_some (ext_session (req_extensions r)) then 200 else 204) empty_body.

Lemma config_built : built_cookie config.
Proof. apply (built_new ##"sid" 60). reflexivity. Qed.
Lemma visit_carries : carries_cookie config some_id visit.
Proof. eexists _, _. split_and!; vm_compute; reflexivity. Qed.

Lemma established : exists issued,
  establish config alice 100 some_id 9 in_memory_default =
    (Some (Ok issued), snd (establish config alice 100 some_id 9 in_memory_default)).
Proof. eexists. vm_compute. reflexivity. Qed.

Lemma session_lifecycle_witness :
  res_status (fst (session_call config hello visit 150 150
    (snd (establish config alice 100 some_id 9 in_memory_default)))) = 200.
Proof.
  destruct established as [issued HE].
  destruct (session_lifecycle (H1 := uuids) in_memory_stored config alice 100 some_id 9 in_memory_default issued
    (snd (establish config alice 100 some_id 9 in_memory_default)) config_built
    ltac:(unfold is_uuid, some_id; lia) ltac:(vm_compute; reflexivity) HE) as [_ HL].
  destruct (HL [] hello visit 150 150 visit_carries) as [HA _].
  change (run_ops [] ?st) with st in HA. rewrite HA; [reflexivity | constructor | reflexivity | reflexivity].
Defined.
End SessionExamples.
