(* ===== verification/RedisSessions.v ===== *)
(** Sessions in Redis: [crates/rustee-auth-session-redis], [config.rs] and [store.rs], over the
    helpers of [RedisCache].

    An operation has two clocks, that of the process, in whole seconds, and that of the
    server, in milliseconds; what happens to its request is a [Delivery]. *)

From Stdlib Require Import ZArith Lia Bool Ascii.
From stdpp Require Import gmap.
From S2P Require Import Prelude Strings Uuid Http Core Json RateLimit RedisCache Auth Session.

Local Open Scope Z_scope.

(** The JSON of a session: its derived writer, and the reader of [SerializedSession]. *)
Class SessionJson : Type := {
  session_writer :: JsonWriter Session;
  read_serialized_session : bytes -> option Session
}.
Class SessionJsonLaws `{SessionJson} : Prop :=
  session_roundtrip s : read_serialized_session (concat (json_writes s)) = Some s.

Definition DEFAULT_NAMESPACE : str := ##"rustee:session:v1".
Definition MAX_SERIALIZED_SESSION_BYTES : nat := 512 * 1024.

Inductive RedisSessionStoreConfigError : Type := InvalidSessionNamespace.
Inductive RedisSessionStoreError : Type :=
| SessionExpired
| SessionTtlOutOfRange
| SessionIdMismatch
| SessionSave (e : CacheError)
| SessionLoad (e : CacheError)
| SessionDelete (e : CacheError).

Definition redis_sessions_new : str := DEFAULT_NAMESPACE.
Definition redis_sessions_with_namespace (namespace : str) : result str RedisSessionStoreConfigError :=
  if negb (is_valid_key_namespace namespace) then Err InvalidSessionNamespace else Ok namespace.

Section store.
Context `{UuidApi, RedisStrings, SessionJson}.
Context (namespace : str).

Definition session_key (id : SessionId) : str := namespace ++ ##":" ++ uuid_to_string id.

(** [Deserialize for Session]. *)
Definition session_from_slice (b : bytes) : option Session :=
  s ← read_serialized_session b;
  _ ← session_id_from_uuid (s_id s);
  session_from_serialized s.

Definition session_save_error (e : CacheError) : RedisSessionStoreError :=
  match e with CacheTtlOutOfRange => SessionTtlOutOfRange | e => SessionSave e end.

Definition redis_save (s : Session) (now : Z) (d : Delivery) (server_now : Z) (kv : KvServer) :
    result unit RedisSessionStoreError * KvServer :=
  match remaining_ttl_seconds s now with
  | None => (Err SessionExpired, kv)
  | Some ttl =>
      let '(r, kv) := set_json_bounded (session_key (s_id s)) s ttl MAX_SERIALIZED_SESSION_BYTES d server_now kv in
      (map_err session_save_error r, kv)
  end.

Definition loaded_session (id : SessionId) (session : option Session) (now : Z) :
    result (option Session) RedisSessionStoreError :=
  match session with
  | None => Ok None
  | Some s => if negb (s_id s =? id) then Err SessionIdMismatch else Ok (if is_expired s now then None else Some s)
  end.
Definition redis_load (id : SessionId) (now : Z) (d : Delivery) (server_now : Z) (kv : KvServer) :
    result (option Session) RedisSessionStoreError * KvServer :=
  let reply := get_json_bounded session_from_slice (session_key id) MAX_SERIALIZED_SESSION_BYTES d server_now kv in
  (let? session := map_err SessionLoad (fst reply) in loaded_session id session now, snd reply).

Definition redis_delete (id : SessionId) (d : Delivery) (server_now : Z) (kv : KvServer) :
    result unit RedisSessionStoreError * KvServer :=
  let '(r, kv) := cache_delete (session_key id) d server_now kv in (map_err SessionDelete r, kv).

(** ** What others do to the store *)

Inductive RedisOp : Type :=
| RedisSave (s : Session) (now : Z) (d : Delivery) (server_now : Z)
| RedisLoad (id : SessionId) (now : Z) (d : Delivery) (server_now : Z)
| RedisDelete (id : SessionId) (d : Delivery) (server_now : Z).

Definition op_time (op : RedisOp) : Z :=
  match op with RedisSave _ _ _ t | RedisLoad _ _ _ t | RedisDelete _ _ t => t end.
Definition op_id (op : RedisOp) : SessionId :=
  match op with RedisSave s _ _ _ => s_id s | RedisLoad i _ _ _ | RedisDelete i _ _ => i end.
Definition redis_op (kv : KvServer) (op : RedisOp) : KvServer :=
  match op with
  | RedisSave s now d t => snd (redis_save s now d t kv)
  | RedisLoad id now d t => snd (redis_load id now d t kv)
  | RedisDelete id d t => snd (redis_delete id d t kv)
  end.
Definition redis_ops (ops : list RedisOp) (kv : KvServer) : KvServer := foldl redis_op kv ops.

(** Operations up to a time of the server. *)
Definition ops_until (t : Z) (ops : list RedisOp) : Prop := Forall (fun op => is_uuid (op_id op) /\ op_time op <= t) ops.
Definition op_spares (id : SessionId) (op : RedisOp) : Prop :=
  match op with RedisSave s _ _ _ => s_id s <> id | RedisDelete i _ _ => i <> id | RedisLoad _ _ _ _ => True end.
Definition op_creates (id : SessionId) (op : RedisOp) : Prop :=
  match op with RedisSave s _ _ _ => s_id s = id | _ => False end.

(** ** Lemmas *)

Context `{!UuidLaws, !RedisStringLaws, !SessionJsonLaws}.

Lemma session_key_inj i j : is_uuid i -> is_uuid j -> session_key i = session_key j -> i = j.
Proof.
  unfold session_key. intros Hi Hj HE. apply app_inv_head, app_inv_head in HE.
  apply (f_equal uuid_parse_str) in HE. rewrite !uuid_parse_print in HE by done. by injection HE.
Qed.

Lemma redis_load_server id now d t kv : snd (redis_load id now d t kv) = kv.
Proof. apply get_json_bounded_server. Qed.

Lemma limit_value : Z.of_nat MAX_SERIALIZED_SESSION_BYTES = 524288.
Proof. vm_compute. reflexivity. Qed.
#[local] Opaque MAX_SERIALIZED_SESSION_BYTES.

(** What an answered load returns. *)
Lemma redis_load_answered id now t kv :
  fst (redis_load id now Answered t kv) =
  match kv_get t (session_key id) kv with
  | None => Ok None
  | Some v =>
      if (MAX_SERIALIZED_SESSION_BYTES <? List.length v)%nat then Err (SessionLoad CacheValueTooLarge)
      else match session_from_slice v with
           | None => Err (SessionLoad CacheJson)
           | Some s => loaded_session id (Some s) now
           end
  end.
Proof.
  unfold redis_load. rewrite get_json_bounded_answered by (rewrite limit_value; unfold i64_max; lia).
  destruct (kv_get t (session_key id) kv) as [v|]; [|done]. destruct (_ <? _)%nat; [done|]. by destruct (session_from_slice v).
Qed.

Lemma redis_save_stored s now d t kv kv' :
  redis_save s now d t kv = (Ok tt, kv') ->
  now < s_expires_at s /\ (List.length (concat (json_writes s)) <= MAX_SERIALIZED_SESSION_BYTES)%nat /\
  kv' = kv_set_ex t (session_key (s_id s)) (concat (json_writes s)) (s_expires_at s - now) kv.
Proof.
  unfold redis_save, remaining_ttl_seconds. destruct (_ <? now); [done|].
  destruct (Z.ltb_spec 0 (s_expires_at s - now)); [|done].
  unfold set_json_bounded, store_ex. destruct (validate_ttl_seconds _); [|done].
  unfold encode_json_bounded. rewrite (proj1 (to_vec_bounded_facts s MAX_SERIALIZED_SESSION_BYTES)).
  destruct (Nat.leb_spec (List.length (concat (json_writes s))) MAX_SERIALIZED_SESSION_BYTES); [|done].
  destruct (json_fails s); [done|]. destruct d; [|done..]. intros [= <-]. split_and!; [lia | done | done].
Qed.

Lemma redis_save_other s now d t kv t' k :
  t <= t' -> k <> session_key (s_id s) -> kv_get t' k (snd (redis_save s now d t kv)) = kv_get t' k kv.
Proof.
  intros Ht Hk. unfold redis_save. destruct (remaining_ttl_seconds s now); [|done].
  unfold set_json_bounded, store_ex. destruct (validate_ttl_seconds _); [|done].
  destruct (RedisCache.encode_json_bounded _ _); [|done].
  destruct d; cbn [request snd]; [| |done]; rewrite set_ex_get by done; by rewrite decide_False.
Qed.

Lemma redis_delete_get id d t kv t' k :
  t <= t' -> kv_get t' k (snd (redis_delete id d t kv)) = kv_get t' k kv \/
    (k = session_key id /\ kv_get t' k (snd (redis_delete id d t kv)) = None).
Proof.
  intros Ht. unfold redis_delete, cache_delete. destruct d; cbn [request snd]; [| |by left];
    rewrite del_get by done; (destruct (decide (k = session_key id)); [by right | by left]).
Qed.

Lemma redis_delete_removed id d t kv kv' :
  redis_delete id d t kv = (Ok tt, kv') -> kv' = kv_del t (session_key id) kv.
Proof. unfold redis_delete, cache_delete. destruct d; cbn; congruence. Qed.

(** Operations about other sessions leave what is there for [id]. *)
Lemma redis_op_spares id op kv t :
  is_uuid id -> is_uuid (op_id op) /\ op_time op <= t -> op_spares id op ->
  kv_get t (session_key id) (redis_op kv op) = kv_get t (session_key id) kv.
Proof.
  intros Hi [Hu Ht] Ho. destruct op as [s now d t0|i now d t0|i d t0]; cbn [redis_op op_spares op_time op_id] in *.
  - apply redis_save_other; [done|]. intros HE. by apply Ho, session_key_inj.
  - by rewrite redis_load_server.
  - destruct (redis_delete_get i d t0 kv t (session_key id) Ht) as [->|[HE _]]; [done|].
    destruct Ho. symmetry. by apply session_key_inj.
Qed.
Lemma redis_ops_spare id ops kv t :
  is_uuid id -> ops_until t ops -> Forall (op_spares id) ops ->
  kv_get t (session_key id) (redis_ops ops kv) = kv_get t (session_key id) kv.
Proof.
  intros Hi HT. revert kv. induction HT as [|op ops Ht _ IH]; intros kv HS; [done|]. apply Forall_cons in HS as [Ho HS].
  cbn [redis_ops foldl]. fold (redis_ops ops (redis_op kv op)). rewrite IH by done. by apply redis_op_spares.
Qed.

(** What is not there is not made by operations that do not create it. *)
Lemma redis_ops_absent id ops kv t :
  is_uuid id -> ops_until t ops -> Forall (fun op => ~ op_creates id op) ops ->
  kv_get t (session_key id) kv = None -> kv_get t (session_key id) (redis_ops ops kv) = None.
Proof.
  intros Hi HT. revert kv. induction HT as [|op ops [Hu Ht] _ IH]; intros kv HS HN; [done|]. apply Forall_cons in HS as [Ho HS].
  cbn [redis_ops foldl]. fold (redis_ops ops (redis_op kv op)). apply IH; [done|].
  destruct op as [s now d t0|i now d t0|i d t0]; cbn [redis_op op_creates op_time op_id] in *.
  - rewrite redis_save_other; [done | done|]. intros HE. apply Ho. symmetry. by apply session_key_inj.
  - by rewrite redis_load_server.
  - by destruct (redis_delete_get i d t0 kv t (session_key id) Ht) as [->|[_ ->]].
Qed.

(** A session of [session_new]. *)
Definition restorable (s : Session) : Prop :=
  is_uuid (s_id s) /\ uuid_is_v4 (s_id s) = true /\ valid_csrf_token (s_csrf_token s) = true.

Lemma restorable_reads s : restorable s -> session_from_slice (concat (json_writes s)) = Some s.
Proof.
  intros (_ & Hv & Hc). unfold session_from_slice. rewrite session_roundtrip. cbn [mbind option_bind].
  unfold session_id_from_uuid, session_from_serialized. by rewrite Hv, Hc.
Qed.

(** ** Properties *)

(** A saved session is loaded as it was saved until it expires, and not after, whatever
    other requests do to other sessions and whatever happens to their answers, when the clocks
    of the processes and of the server agree to the second; a deleted session is never loaded
    again unless it is saved again. *)
Theorem redis_session_lifecycle s d t0 kv kv' :
  restorable s ->
  (redis_save s (t0 / 1000) d t0 kv = (Ok tt, kv') ->
   forall ops t, t0 <= t -> ops_until t ops -> Forall (op_spares (s_id s)) ops ->
     fst (redis_load (s_id s) (t / 1000) Answered t (redis_ops ops kv')) =
       Ok (if is_expired s (t / 1000) then None else Some s)) /\
  (redis_delete (s_id s) d t0 kv = (Ok tt, kv') ->
   forall ops t now, t0 <= t -> ops_until t ops -> Forall (fun op => ~ op_creates (s_id s) op) ops ->
     fst (redis_load (s_id s) now Answered t (redis_ops ops kv')) = Ok None).
Proof.
  intros HR. pose proof HR as (Hu & _ & _). split.
  - intros (Hn & HL & ->)%redis_save_stored ops t Ht HT HS. rewrite redis_load_answered, redis_ops_spare by done.
    rewrite set_ex_get by done. rewrite decide_True by done.
    pose proof (Z.mul_div_le t0 1000). pose proof (Z.mul_succ_div_gt t0 1000).
    pose proof (Z.mul_div_le t 1000). pose proof (Z.mul_succ_div_gt t 1000).
    destruct (Z.ltb_spec t (t0 + (s_expires_at s - t0 / 1000) * 1000)).
    + rewrite (proj2 (Nat.ltb_ge _ _)), restorable_reads by done. cbn [loaded_session]. by rewrite Z.eqb_refl.
    + unfold is_expired. by rewrite (proj2 (Z.leb_le _ _)) by lia.
  - intros ->%redis_delete_removed ops t now Ht HT HS. rewrite redis_load_answered, redis_ops_absent; [done..|].
    rewrite del_get by done. by rewrite decide_True.
Qed.
End store.

(** ** A model of the JSON, and a session *)

Module RedisSessionExamples.
Import HttpModel UuidModel RedisModel BitCodec.

Definition session_parts (s : Session) := (s_id s, s_principal s, s_csrf_token s, s_expires_at s).
Definition of_session_parts '((i, p, c, e) : Z * Principal * str * Z) : Session :=
  {| s_id := i; s_principal := p; s_csrf_token := c; s_expires_at := e |}.
#[export] Instance Session_eq_dec : EqDecision Session.
Proof. solve_decision. Defined.
#[export] Instance Session_countable : Countable Session.
Proof. apply (inj_countable' session_parts of_session_parts). by intros []. Defined.

(** A session as one binary number. *)
#[export] Instance json : SessionJson := {|
  session_writer := {| json_writes s := [bits (encode s)]; json_fails _ := false |};
  read_serialized_session b := decode (of_bits b)
|}.
#[export] Instance json_laws : SessionJsonLaws.
Proof. intros s. cbn. by rewrite app_nil_r, of_bits_bits, decode_encode. Qed.

Definition visitor : Session := session_new SessionExamples.alice 60 100 SessionExamples.some_id 9.
Definition no_sessions : KvServer := (∅ : server).
Definition saved := redis_save redis_sessions_new visitor (100500 / 1000) Answered 100500 no_sessions.
Lemma visitor_restorable : restorable visitor.
Proof. split_and!; [unfold is_uuid; vm_compute; by split | vm_compute; reflexivity | vm_compute; reflexivity]. Qed.

(** Another session is deleted meanwhile, and the answer is lost. *)
Definition meanwhile : list RedisOp := [RedisDelete 7 AnswerLost 120000].

Lemma redis_session_lifecycle_witness :
  saved = (Ok tt, snd saved) /\
  fst (redis_load redis_sessions_new (s_id visitor) (150000 / 1000) Answered 150000 (redis_ops redis_sessions_new meanwhile (snd saved))) =
    Ok (Some visitor).
Proof.
  assert (HS : saved = (Ok tt, snd saved)).
  { rewrite (surjective_pairing saved) at 1. f_equal; vm_compute; reflexivity. }
  split; [exact HS|].
  revert HS. generalize (snd saved). unfold saved. intros kv' HS.
  destruct (redis_session_lifecycle redis_sessions_new visitor Answered 100500 no_sessions kv' visitor_restorable) as [HL _].
  rewrite (HL HS meanwhile 150000); [reflexivity | lia | |].
  - constructor; [|constructor]. split; [unfold is_uuid; cbn; lia | cbn; lia].
  - constructor; [|constructor]. vm_compute. congruence.
Defined.
End RedisSessionExamples.
