(* ===== verification/JsonValue.v ===== *)
(** JSON values: the [Value] of [serde_json], the readers its derives make for structs, and the
    text of a value as an interface. *)

From Stdlib Require Import ZArith Lia Bool Ascii.
From stdpp Require Import gmap.
From S2P Require Import Prelude Strings Json.

Local Open Scope Z_scope.

(** ** Values and the serde derives that read them *)

Inductive Value : Type :=
| VNull
| VBool (b : bool)
| VInt (z : Z)
| VFloat (text : str)
| VString (s : str)
| VArray (l : list Value)
| VObject (fields : list (str * Value)).

Definition as_array (v : Value) : option (list Value) :=
  match v with VArray l => Some l | _ => None end.

(** The values of the fields called [name]. *)
Definition field_values (name : str) (fields : list (str * Value)) : list Value :=
  omap (fun '(k, v) => if str_eqb k name then Some v else None) fields.

(** A field of a derived [Deserialize]: required, or [#\[serde(default)\]] of an [Option]. A
    repeated field is an error. *)
Definition required {T} (read : Value -> option T) (name : str) (fields : list (str * Value)) : option T :=
  match field_values name fields with [v] => read v | _ => None end.
Definition optional {T} (read : Value -> option T) (name : str) (fields : list (str * Value)) : option (option T) :=
  match field_values name fields with
  | [] => Some None
  | [VNull] => Some None
  | [v] => option_map Some (read v)
  | _ => None
  end.

Definition read_string (v : Value) : option str := match v with VString s => Some s | _ => None end.
Definition read_strings (v : Value) : option (list str) :=
  l ← as_array v; mapM read_string l.
Definition read_u64 (v : Value) : option Z :=
  match v with VInt z => if (0 <=? z) && (z <=? u64_max) then Some z else None | _ => None end.
Definition read_bool (v : Value) : option bool := match v with VBool b => Some b | _ => None end.
Definition read_object (v : Value) : option (list (str * Value)) :=
  match v with VObject fields => Some fields | _ => None end.

(** *** [Value] and [Map] as data

    The fields of an object are in the order in which they were inserted, since the
    [preserve_order] feature is on in the workspace; a key is there once. *)

Definition value_get (name : str) (v : Value) : option Value :=
  fields ← read_object v; head (field_values name fields).
Definition is_object (v : Value) : bool := is_some (read_object v).
Definition as_str (v : Value) : option str := read_string v.

(** [Map::insert]: a key that is there keeps its place. *)
Fixpoint map_insert (name : str) (v : Value) (fields : list (str * Value)) : list (str * Value) :=
  match fields with
  | [] => [(name, v)]
  | (k, w) :: rest => if str_eqb k name then (k, v) :: rest else (k, w) :: map_insert name v rest
  end.

(** What [from_slice::<Value>] makes of the fields that were read: the last of equal keys is
    kept. *)
Fixpoint merge_fields (v : Value) : Value :=
  match v with
  | VArray l => VArray (map merge_fields l)
  | VObject fields =>
      VObject (foldl (fun acc '(k, w) => map_insert k w acc) [] (map (fun '(k, w) => (k, merge_fields w)) fields))
  | v => v
  end.

(** The JSON text of a value and its parser, which reads the fields of an object as they are. *)
Class JsonText : Type := {
  json_text :: JsonWriter Value;
  json_parse : bytes -> option Value
}.
Class JsonTextLaws `{JsonText} : Prop := {
  parse_text v v' : json_parse (concat (json_writes v)) = Some v' -> v' = v
}.
Definition value_from_slice `{JsonText} (b : bytes) : option Value := option_map merge_fields (json_parse b).

(** *** The compact form *)

Definition escape (c : ascii) : str :=
  if char_eqb c (ascii_of_nat 34) then ["\"%char; c]
  else if char_eqb c "\" then ##"\\"
  else if code c =? 8 then ##"\b"
  else if code c =? 9 then ##"\t"
  else if code c =? 10 then ##"\n"
  else if code c =? 12 then ##"\f"
  else if code c =? 13 then ##"\r"
  else if code c <? 32 then ##"\u00" ++ [digit_char (code c / 16); digit_char (code c mod 16)]
  else [c].
Definition quoted (s : str) : str := [ascii_of_nat 34] ++ flat_map escape s ++ [ascii_of_nat 34].

(** [Number::to_string]. *)
Definition int_text (z : Z) : str := if z <? 0 then "-"%char :: to_dec (- z) else to_dec z.

Fixpoint compact (v : Value) : bytes :=
  match v with
  | VNull => ##"null"
  | VBool b => if b then ##"true" else ##"false"
  | VInt z => int_text z
  | VFloat text => text
  | VString s => quoted s
  | VArray l => ##"[" ++ join ##"," (map compact l) ++ ##"]"
  | VObject fields => ##"{" ++ join ##"," (map (fun '(k, w) => quoted k ++ ##":" ++ compact w) fields) ++ ##"}"
  end.

(** The writer of [serde_json] is the compact formatter, and values always serialize. *)
Class CompactLaws `{JsonText} : Prop := {
  writes_compact v : concat (json_writes v) = compact v;
  value_serializes v : json_fails v = false
}.

(** ** Lemmas *)

Lemma required_Some {T} (read : Value -> option T) name fields x :
  required read name fields = Some x -> exists v, field_values name fields = [v] /\ read v = Some x.
Proof. unfold required. destruct (field_values name fields) as [|v [|? ?]]; [done | by exists v | done]. Qed.

Lemma read_string_Some v s : read_string v = Some s -> v = VString s.
Proof. destruct v; cbn; congruence. Qed.
