(* ===== verification/Identity.v ===== *)
(** Verified identities: the OAuth and media-type predicates of
    [crates/rustee-core/src/oauth.rs] and [media_type.rs], the claims that the identity
    providers share, and [crates/rustee-auth-jwt]: static-key JWT verification.

    [jsonwebtoken] is the interface [JwtApi]: its cryptography and its checks of a token
    are operations, [JwtLaws] states what their documentation promises. Claims are read
    from the JSON value of a payload as the serde derives read them. *)

From Stdlib Require Import ZArith Lia Bool Ascii.
From stdpp Require Import gmap sets.
From S2P Require Import Prelude Strings Http Core Auth JsonValue.

Local Open Scope Z_scope.

(** ** Admission of OAuth values: [oauth.rs] *)

Definition is_valid_oauth_authorization_value (value : str) : bool :=
  (43 <=? List.length value)%nat && (List.length value <=? 128)%nat
  && forallb (fun c => is_ascii_alphanumeric c || existsb (char_eqb c) ##"-._~") value.

Definition is_valid_oauth_authorization_code (value : str) (max_value_bytes : nat) : bool :=
  negb (is_blank value)
  && (List.length value <=? max_value_bytes)%nat
  && forallb (fun c => negb (is_ascii_control c)) value.

Definition is_valid_oauth_provider_error (value : str) (max_value_bytes : nat) : bool :=
  nonempty value
  && (List.length value <=? max_value_bytes)%nat
  && forallb (fun c => is_ascii_alphanumeric c || existsb (char_eqb c) ##"-._") value.

Definition is_scope_character (c : ascii) : bool :=
  (code c =? 33) || in_range 35 91 c || in_range 93 126 c.

Definition is_valid_oauth_scope_token (value : str) (max_value_bytes : nat) : bool :=
  nonempty value
  && (List.length value <=? max_value_bytes)%nat
  && forallb is_scope_character value.

Definition are_valid_oauth_scope_tokens (values : list str) (max_value_bytes : nat) : bool :=
  match values with
  | [] => false
  | first :: rest =>
      is_valid_oauth_scope_token first max_value_bytes
      && forallb (fun v => is_valid_oauth_scope_token v max_value_bytes) rest
  end.

(** ** JSON media types: [media_type.rs]. [value] is the text of a header, which is ASCII. *)

Definition is_standard_json_media_type (value : str) : bool :=
  let media_type := trim (default [] (head (split ";" value))) in
  if eq_ignore_ascii_case media_type ##"application/json" then true
  else
    match split_once "/" media_type with
    | None => false
    | Some (top_level, subtype) =>
        eq_ignore_ascii_case top_level ##"application"
        && negb (contains_char "/" subtype)
        && (List.length ##"+json" <? List.length subtype)%nat
        && eq_ignore_ascii_case (drop (List.length subtype - List.length ##"+json") subtype) ##"+json"
    end.

(** ** Claims: [claims.rs] of both crates *)

Inductive ScopeClaim : Type := SpaceDelimited (scopes : str) | ScopeValues (scopes : list str).
Inductive StringSetClaim : Type := One (value : str) | Values (values : list str).

(** [#\[serde(untagged)\]]: the first variant that reads. *)
Definition read_scope (v : Value) : option ScopeClaim :=
  match read_string v with
  | Some s => Some (SpaceDelimited s)
  | None => option_map ScopeValues (read_strings v)
  end.
Definition read_string_set (v : Value) : option StringSetClaim :=
  match read_string v with
  | Some s => Some (One s)
  | None => option_map Values (read_strings v)
  end.

Definition into_scopes (claim : ScopeClaim) : result (list str) AuthError :=
  let scopes := match claim with SpaceDelimited s => split " " s | ScopeValues l => l end in
  if negb (are_valid_oauth_scope_tokens scopes MAX_PRINCIPAL_AUTHORIZATION_VALUE_BYTES)
  then Err RejectedBearerToken else Ok scopes.

Definition into_values (claim : StringSetClaim) : list str :=
  match claim with One value => [value] | Values values => values end.

Definition normalize_verified_principal (subject issuer : str) (tenant : option str)
    (scope : option ScopeClaim) (roles permissions : option StringSetClaim) :
    result Principal AuthError :=
  let? scopes := transpose (option_map into_scopes scope) in
  map_err (fun _ => RejectedBearerToken)
    (from_verified_claims subject issuer tenant (default [] scopes)
       (flat_map into_values (option_list roles)) (flat_map into_values (option_list permissions))).

(** The claims of an access token, of both crates. *)
Record Claims : Type := {
  sub : str; iss : str; audience : Value; expiration : Value; not_before : Value;
  c_tenant : option str; scope : option ScopeClaim;
  c_roles : option StringSetClaim; c_permissions : option StringSetClaim
}.

Definition read_claims (v : Value) : option Claims :=
  fields ← read_object v;
  sub ← required read_string ##"sub" fields;
  iss ← required read_string ##"iss" fields;
  aud ← required Some ##"aud" fields;
  exp ← required Some ##"exp" fields;
  nbf ← required Some ##"nbf" fields;
  tenant ← optional read_string ##"tenant" fields;
  scope ← optional read_scope ##"scope" fields;
  roles ← optional read_string_set ##"roles" fields;
  permissions ← optional read_string_set ##"permissions" fields;
  Some {| sub := sub; iss := iss; audience := aud; expiration := exp; not_before := nbf;
          c_tenant := tenant; scope := scope; c_roles := roles; c_permissions := permissions |}.

Definition claims_into_principal (c : Claims) : result Principal AuthError :=
  normalize_verified_principal (sub c) (iss c) (c_tenant c) (scope c) (c_roles c) (c_permissions c).

(** ** [jsonwebtoken] *)

Inductive Algorithm : Type :=
| HS256 | HS384 | HS512 | ES256 | ES384
| RS256 | RS384 | RS512 | PS256 | PS384 | PS512 | EdDSA.
#[export] Instance Algorithm_eq_dec : EqDecision Algorithm.
Proof. solve_decision. Defined.

(** The settings of a [Validation] that the crates choose. *)
Record Validation : Type := {
  v_algorithms : list Algorithm;
  v_leeway : Z;
  validate_exp : bool;
  validate_nbf : bool;
  validate_aud : bool;
  v_iss : option (list str);
  v_aud : option (list str);
  required_spec_claims : list str
}.

(** [decode] verifies the signature, reads the claims and checks them at a time of the
    clock; without the reading it returns the payload. *)
Class JwtApi : Type := {
  DecodingKey : Type;
  key_from_secret : bytes -> DecodingKey;
  key_from_rsa_pem : bytes -> option DecodingKey;
  key_from_ec_pem : bytes -> option DecodingKey;
  key_from_ed_pem : bytes -> option DecodingKey;
  decode_header : str -> option (Algorithm * option str);
  token_signed : str -> Algorithm -> DecodingKey -> bool;
  verify_token : str -> DecodingKey -> Validation -> Z -> option Value
}.

Definition decode `{JwtApi} {T} (read : Value -> option T) (token : str) (key : DecodingKey)
    (v : Validation) (now : Z) : option T :=
  verify_token token key v now ≫= read.

(** The texts a claim names: itself, or the texts of an array. *)
Definition claim_values (name : str) (payload : Value) : list str :=
  match payload with
  | VObject fields =>
      flat_map (fun v => match v with VString s => [s] | VArray l => omap read_string l | _ => [] end)
        (field_values name fields)
  | _ => []
  end.

(** An issuer or an audience is compared when the token has the claim, and a token without a
    required claim is refused. *)
Class JwtLaws `{JwtApi} : Prop := {
  verify_signed token key v now payload :
    verify_token token key v now = Some payload ->
    exists alg kid, decode_header token = Some (alg, kid) /\ alg ∈ v_algorithms v /\
      token_signed token alg key = true;
  verify_issuer token key v now payload allowed :
    verify_token token key v now = Some payload -> v_iss v = Some allowed -> ##"iss" ∈ required_spec_claims v ->
    exists i, i ∈ allowed /\ i ∈ claim_values ##"iss" payload;
  verify_audience token key v now payload allowed :
    verify_token token key v now = Some payload -> validate_aud v = true -> v_aud v = Some allowed ->
    ##"aud" ∈ required_spec_claims v ->
    exists a, a ∈ allowed /\ a ∈ claim_values ##"aud" payload
}.

(** ** Static-key verification: [crates/rustee-auth-jwt] *)

(** The crate declares the same claims again. *)
Definition VerifiedClaims : Type := Claims.

Definition verified_into_principal (c : VerifiedClaims) : result Principal AuthError :=
  let? scopes := transpose (option_map into_scopes (scope c)) in
  map_err (fun _ => RejectedBearerToken)
    (from_verified_claims (sub c) (iss c) (c_tenant c) (default [] scopes)
       (flat_map into_values (option_list (c_roles c)))
       (flat_map into_values (option_list (c_permissions c)))).

Definition JWT_MAX_AUDIENCE_BYTES : nat := 1024.
Definition JWT_MAX_ISSUER_BYTES : nat := 2 * 1024.
Definition JWT_MAX_LEEWAY_SECONDS : Z := 300.

Record JwtConfig : Type := {
  jwt_algorithm : Algorithm; jwt_issuer : str; jwt_audience : str; jwt_leeway_seconds : Z
}.

Inductive JwtConfigurationError : Type :=
| JwtBlankField (field : str)
| JwtInvalidField (field : str)
| JwtLeewayTooLarge
| BlankVerificationKey
| VerificationKeyTooLarge
| VerificationKeyTooShort (minimum_bytes : nat)
| AlgorithmKeyMismatch (algorithm : Algorithm) (key_kind : str)
| InvalidVerificationKey.

Definition ensure_valid_field (value field : str) (maximum_bytes : nat) : result unit JwtConfigurationError :=
  if is_blank value then Err (JwtBlankField field)
  else if (maximum_bytes <? List.length value)%nat || existsb is_ascii_control value
  then Err (JwtInvalidField field)
  else Ok tt.

Definition jwt_config_new (algorithm : Algorithm) (issuer audience : str) :
    result JwtConfig JwtConfigurationError :=
  let? _ := ensure_valid_field issuer ##"issuer" JWT_MAX_ISSUER_BYTES in
  let? _ := ensure_valid_field audience ##"audience" JWT_MAX_AUDIENCE_BYTES in
  Ok {| jwt_algorithm := algorithm; jwt_issuer := issuer; jwt_audience := audience; jwt_leeway_seconds := 0 |}.

Definition jwt_with_leeway_seconds (leeway : Z) (c : JwtConfig) : result JwtConfig JwtConfigurationError :=
  if JWT_MAX_LEEWAY_SECONDS <? leeway then Err JwtLeewayTooLarge
  else Ok {| jwt_algorithm := jwt_algorithm c; jwt_issuer := jwt_issuer c; jwt_audience := jwt_audience c;
             jwt_leeway_seconds := leeway |}.

Definition jwt_into_validation (c : JwtConfig) : Validation := {|
  v_algorithms := [jwt_algorithm c];
  v_leeway := jwt_leeway_seconds c;
  validate_exp := true;
  validate_nbf := true;
  validate_aud := true;
  v_iss := Some [jwt_issuer c];
  v_aud := Some [jwt_audience c];
  required_spec_claims := [ ##"sub"; ##"iss"; ##"aud"; ##"exp"; ##"nbf" ]
|}.

Definition require_algorithm (algorithm : Algorithm) (key_kind : str) (accepts : Algorithm -> bool) :
    result unit JwtConfigurationError :=
  if accepts algorithm then Ok tt else Err (AlgorithmKeyMismatch algorithm key_kind).

Definition is_hmac_algorithm (a : Algorithm) : bool :=
  match a with HS256 | HS384 | HS512 => true | _ => false end.
Definition hmac_secret_minimum_bytes (a : Algorithm) : option nat :=
  match a with HS256 => Some 32%nat | HS384 => Some 48%nat | HS512 => Some 64%nat | _ => None end.
Definition is_rsa_algorithm (a : Algorithm) : bool :=
  match a with RS256 | RS384 | RS512 | PS256 | PS384 | PS512 => true | _ => false end.
Definition is_ec_algorithm (a : Algorithm) : bool := match a with ES256 | ES384 => true | _ => false end.
Definition is_eddsa_algorithm (a : Algorithm) : bool := match a with EdDSA => true | _ => false end.

Definition MAX_HMAC_SECRET_BYTES : nat := 4 * 1024.
Definition MAX_PUBLIC_KEY_PEM_BYTES : nat := 16 * 1024.

Definition ensure_key_len (key : bytes) (maximum_bytes : nat) : result unit JwtConfigurationError :=
  if (maximum_bytes <? List.length key)%nat then Err VerificationKeyTooLarge else Ok tt.

Section jwt.
Context `{JwtApi}.

Record JwtAuthenticator : Type := { jwt_key : DecodingKey; jwt_validation : Validation }.

Definition with_key (c : JwtConfig) (key : DecodingKey) : JwtAuthenticator :=
  {| jwt_key := key; jwt_validation := jwt_into_validation c |}.

Definition from_hmac_secret (c : JwtConfig) (secret : bytes) : result JwtAuthenticator JwtConfigurationError :=
  let? _ := require_algorithm (jwt_algorithm c) ##"an HMAC secret" is_hmac_algorithm in
  if negb (nonempty secret) then Err BlankVerificationKey
  else
    let? minimum := ok_or (hmac_secret_minimum_bytes (jwt_algorithm c))
                      (AlgorithmKeyMismatch (jwt_algorithm c) ##"an HMAC secret") in
    if (List.length secret <? minimum)%nat then Err (VerificationKeyTooShort minimum)
    else
      let? _ := ensure_key_len secret MAX_HMAC_SECRET_BYTES in
      Ok (with_key c (key_from_secret secret)).

Definition from_rsa_pem (c : JwtConfig) (pem : bytes) : result JwtAuthenticator JwtConfigurationError :=
  let? _ := require_algorithm (jwt_algorithm c) ##"an RSA public key" is_rsa_algorithm in
  let? _ := ensure_key_len pem MAX_PUBLIC_KEY_PEM_BYTES in
  let? key := ok_or (key_from_rsa_pem pem) InvalidVerificationKey in
  Ok (with_key c key).

Definition from_ec_pem (c : JwtConfig) (pem : bytes) : result JwtAuthenticator JwtConfigurationError :=
  let? _ := require_algorithm (jwt_algorithm c) ##"an ECDSA public key" is_ec_algorithm in
  let? _ := ensure_key_len pem MAX_PUBLIC_KEY_PEM_BYTES in
  let? key := ok_or (key_from_ec_pem pem) InvalidVerificationKey in
  Ok (with_key c key).

Definition from_ed_pem (c : JwtConfig) (pem : bytes) : result JwtAuthenticator JwtConfigurationError :=
  let? _ := require_algorithm (jwt_algorithm c) ##"an EdDSA public key" is_eddsa_algorithm in
  let? _ := ensure_key_len pem MAX_PUBLIC_KEY_PEM_BYTES in
  let? key := ok_or (key_from_ed_pem pem) InvalidVerificationKey in
  Ok (with_key c key).

(** [JwtAuthenticator::authenticate]; [now] is the reading of the clock in [decode]. *)
Definition jwt_authenticate (a : JwtAuthenticator) (token : str) (now : Z) : result Principal AuthError :=
  let? claims := ok_or (decode read_claims token (jwt_key a) (jwt_validation a) now) RejectedBearerToken in
  verified_into_principal claims.

(** How an authenticator is made: the key material, and the algorithms it is for. *)
Inductive KeyKind : Type := HmacSecret | RsaPem | EcPem | EdPem.
Definition accepts (k : KeyKind) : Algorithm -> bool :=
  match k with
  | HmacSecret => is_hmac_algorithm
  | RsaPem => is_rsa_algorithm
  | EcPem => is_ec_algorithm
  | EdPem => is_eddsa_algorithm
  end.
Definition jwt_new (k : KeyKind) : JwtConfig -> bytes -> result JwtAuthenticator JwtConfigurationError :=
  match k with
  | HmacSecret => from_hmac_secret
  | RsaPem => from_rsa_pem
  | EcPem => from_ec_pem
  | EdPem => from_ed_pem
  end.
Definition key_of (k : KeyKind) (material : bytes) : option DecodingKey :=
  match k with
  | HmacSecret => Some (key_from_secret material)
  | RsaPem => key_from_rsa_pem material
  | EcPem => key_from_ec_pem material
  | EdPem => key_from_ed_pem material
  end.
End jwt.

(** ** Lemmas: claims *)

(** A claim read as one text names nothing else. *)
Lemma claim_values_text name fields s :
  field_values name fields = [VString s] -> claim_values name (VObject fields) = [s].
Proof. intros HV. cbn. by rewrite HV. Qed.

Lemma read_claims_issuer payload c i :
  read_claims payload = Some c -> i ∈ claim_values ##"iss" payload -> i = iss c.
Proof.
  intros HR HN. apply bind_Some in HR as (fields & HO & HR). destruct payload; try done. injection HO as ->.
  apply bind_Some in HR as (? & _ & HR). apply bind_Some in HR as (issuer & HI & HR).
  repeat (apply bind_Some in HR as (? & _ & HR)). injection HR as <-.
  apply required_Some in HI as (v & HV & ->%read_string_Some).
  rewrite (claim_values_text _ _ _ HV) in HN. by apply list_elem_of_singleton in HN.
Qed.

Lemma into_scopes_Ok claim l :
  into_scopes claim = Ok l ->
  l <> [] /\ Forall (fun s => is_valid_oauth_scope_token s MAX_PRINCIPAL_AUTHORIZATION_VALUE_BYTES = true) l.
Proof.
  unfold into_scopes. set (scopes := match claim with SpaceDelimited s => _ | ScopeValues l => _ end).
  destruct (are_valid_oauth_scope_tokens _ _) eqn:E; [|done]. cbn [negb]. intros [= <-].
  destruct scopes as [|s scopes]; [done|]. cbn in E. apply andb_true_iff in E as [H1 H2].
  split; [done|]. constructor; [done | by apply forallb_Forall].
Qed.

(** What a principal made of verified claims is: well formed, with the claimed subject and
    issuer, and its scopes OAuth scope tokens. *)
Record principal_of (subject' issuer' : str) (tenant' : option str) (p : Principal) : Prop := {
  po_wf : wf_principal p;
  po_subject : subject p = subject';
  po_issuer : issuer p = Some issuer';
  po_tenant : tenant p = tenant';
  po_scopes : forall s, s ∈ scopes p ->
    is_valid_oauth_scope_token s MAX_PRINCIPAL_AUTHORIZATION_VALUE_BYTES = true
}.

Lemma normalize_principal_of subject' issuer' tenant' sc ro pe p :
  normalize_verified_principal subject' issuer' tenant' sc ro pe = Ok p -> principal_of subject' issuer' tenant' p.
Proof.
  unfold normalize_verified_principal. destruct (transpose _) as [scopes|] eqn:HT; [|done].
  destruct (from_verified_claims _ _ _ _ _ _) as [q|] eqn:HF; [|done]. cbn. intros [= ->].
  apply principal_admission in HF as [-> HW]. split; [done..|]. cbn [Core.scopes].
  intros s Hs%elem_of_list_to_set. destruct sc as [claim|]; cbn in HT; [|injection HT as <-; by apply not_elem_of_nil in Hs].
  destruct (into_scopes claim) as [l|] eqn:HI; [|done]. injection HT as <-. cbn in Hs.
  apply into_scopes_Ok in HI as [_ HI]. rewrite Forall_forall in HI. by apply HI.
Qed.

Lemma claims_principal_of c p : claims_into_principal c = Ok p -> principal_of (sub c) (iss c) (c_tenant c) p.
Proof. apply normalize_principal_of. Qed.

(** The two crates normalize alike. *)
Lemma verified_into_principal_eq c : verified_into_principal c = claims_into_principal c.
Proof. done. Qed.

(** ** Properties *)

Section verified.
Context `{JwtLaws}.

Lemma decode_verified {T} (read : Value -> option T) token key v now c :
  decode read token key v now = Some c ->
  exists payload, verify_token token key v now = Some payload /\ read payload = Some c.
Proof. unfold decode. destruct (verify_token _ _ _ _) as [payload|]; [by exists payload | done]. Qed.

Lemma jwt_new_Ok k c material a :
  jwt_new k c material = Ok a ->
  accepts k (jwt_algorithm c) = true /\ exists key, key_of k material = Some key /\ a = with_key c key.
Proof.
  destruct k; cbn [jwt_new accepts key_of]; unfold from_hmac_secret, from_rsa_pem, from_ec_pem, from_ed_pem, require_algorithm.
  1: destruct (is_hmac_algorithm (jwt_algorithm c)); [|done];
     destruct (negb (nonempty material)), (hmac_secret_minimum_bytes (jwt_algorithm c)) as [n|]; try done; cbn [ok_or];
     destruct (_ <? n)%nat; [done|]; destruct (ensure_key_len material _); [|done]; intros [= <-]; eauto.
  all: match goal with |- context [if ?b then Ok tt else _] => destruct b; [|done] end;
    destruct (ensure_key_len material _); [|done];
    match goal with |- context [ok_or ?o _] => destruct o; [|done] end; cbn; intros [= <-]; eauto.
Qed.

(** A static-key verifier admits only tokens that the key it was built from has signed
    under the one configured algorithm, which suits that kind of key, for the configured
    issuer and audience; the principal is well formed and belongs to that issuer. *)
Theorem jwt_authenticated_principal k c material a token now p :
  jwt_new k c material = Ok a -> jwt_authenticate a token now = Ok p ->
  accepts k (jwt_algorithm c) = true /\
  (exists key kid, key_of k material = Some key /\ decode_header token = Some (jwt_algorithm c, kid) /\
     token_signed token (jwt_algorithm c) key = true) /\
  (exists payload, verify_token token (jwt_key a) (jwt_validation a) now = Some payload /\
     jwt_audience c ∈ claim_values ##"aud" payload) /\
  issuer p = Some (jwt_issuer c) /\ wf_principal p.
Proof.
  intros (HA & key & HK & ->)%jwt_new_Ok. unfold jwt_authenticate.
  destruct (decode _ _ _ _ _) as [claims|] eqn:HD; [|done]. cbn [ok_or]. intros HP.
  apply decode_verified in HD as (payload & HV & HR).
  apply claims_principal_of in HP as [HW _ HI _ _].
  destruct (verify_signed _ _ _ _ _ HV) as (alg & kid & HH & Halg & HS).
  apply list_elem_of_singleton in Halg as ->.
  destruct (verify_issuer _ _ _ _ _ _ HV eq_refl ltac:(right; left)) as (i & Hi%list_elem_of_singleton & HN).
  destruct (verify_audience _ _ _ _ _ _ HV eq_refl eq_refl ltac:(right; right; left)) as (x & Hx%list_elem_of_singleton & HX).
  split_and!; [done | by exists key, kid | | | done].
  - exists payload. by subst x.
  - rewrite HI, <- (read_claims_issuer payload claims i HR HN). by subst i.
Qed.
End verified.

(** ** A model: a list of issued tokens *)

Module JwtModel.
Record issued : Type := { i_token : str; i_alg : Algorithm; i_kid : option str; i_key : bytes; i_payload : Value }.

Definition find_token (tokens : list issued) (token : str) : option issued :=
  List.find (fun t => str_eqb (i_token t) token) tokens.
Definition signed (t : issued) (alg : Algorithm) (key : bytes) : bool :=
  bool_decide (i_alg t = alg) && str_eqb (i_key t) key.
Definition names (name : str) (payload : Value) (allowed : option (list str)) : bool :=
  match allowed with
  | Some l => existsb (fun x => existsb (str_eqb x) (claim_values name payload)) l
  | None => true
  end.

Definition api (tokens : list issued) : JwtApi := {|
  DecodingKey := bytes;
  key_from_secret := id;
  key_from_rsa_pem := Some;
  key_from_ec_pem := Some;
  key_from_ed_pem := Some;
  decode_header token := option_map (fun t => (i_alg t, i_kid t)) (find_token tokens token);
  token_signed token alg key := match find_token tokens token with Some t => signed t alg key | None => false end;
  verify_token token key v now :=
    t ← find_token tokens token;
    if existsb (fun alg => signed t alg key) (v_algorithms v)
       && names ##"iss" (i_payload t) (v_iss v) && names ##"aud" (i_payload t) (v_aud v)
    then Some (i_payload t) else None
|}.

Lemma names_true name payload allowed :
  names name payload (Some allowed) = true -> exists x, x ∈ allowed /\ x ∈ claim_values name payload.
Proof.
  cbn. intros (x & Hx & HE)%existsb_exists. apply existsb_exists in HE as (y & Hy & ->%str_eqb_true).
  exists y. by rewrite !list_elem_of_In.
Qed.

Lemma verified tokens token key v now payload :
  @verify_token (api tokens) token key v now = Some payload ->
  exists t alg, find_token tokens token = Some t /\ alg ∈ v_algorithms v /\ signed t alg key = true /\ names ##"iss" payload (v_iss v) = true /\ names ##"aud" payload (v_aud v) = true.
Proof.
  cbn. intros (t & HT & HV)%bind_Some. destruct (_ && _) eqn:E; [|done]. injection HV as <-.
  apply andb_true_iff in E as [E HA]. apply andb_true_iff in E as [E HI].
  apply existsb_exists in E as (alg & Ha & HS). exists t, alg. by rewrite list_elem_of_In.
Qed.

Lemma laws tokens : @JwtLaws (api tokens).
Proof.
  split.
  - intros token key v now payload (t & alg & HT & HA & HS & _)%verified. exists alg, (i_kid t). cbn.
    rewrite HT. cbn. split_and!; [|done|done]. unfold signed in HS. bool_hyps. congruence.
  - intros token key v now payload allowed (t & alg & _ & _ & _ & HI & _)%verified Hv _. rewrite Hv in HI.
    by apply names_true.
  - intros token key v now payload allowed (t & alg & _ & _ & _ & _ & HA)%verified _ Hv _. rewrite Hv in HA.
    by apply names_true.
Qed.

(** An access token of an issuer for the audience [api]. *)
Definition access_payload : Value := VObject [
  (##"sub", VString ##"user-1"); (##"iss", VString ##"https://issuer.test"); (##"aud", VArray [VString ##"api"]);
  (##"exp", VInt 2000); (##"nbf", VInt 1000); (##"scope", VString ##"profile:read mcp:tools"); (##"roles", VString ##"admin")
].
Definition secret : bytes := List.repeat "k"%char 32.
Definition tokens : list issued :=
  [{| i_token := ##"a.b.c"; i_alg := HS256; i_kid := None; i_key := secret; i_payload := access_payload |}].
Definition config : JwtConfig :=
  {| jwt_algorithm := HS256; jwt_issuer := ##"https://issuer.test"; jwt_audience := ##"api"; jwt_leeway_seconds := 0 |}.

Example token_accepted :
  (match @from_hmac_secret (api tokens) config secret with
  | Ok a =>
      match @jwt_authenticate (api tokens) a ##"a.b.c" 1500 with
      | Ok p => bool_decide (issuer p = Some ##"https://issuer.test") && bool_decide (##"mcp:tools" ∈ scopes p)
      | Err _ => false
      end
  | Err _ => false
  end) = true.
Proof. vm_compute. reflexivity. Qed.
Example short_secret_rejected :
  @from_hmac_secret (api tokens) config (take 31 secret) = Err (VerificationKeyTooShort 32).
Proof. reflexivity. Qed.
End JwtModel.
