(* ===== verification/Extract.v ===== *)
(** Extractors of handler arguments: [crates/rustee-core/src/extract.rs] and
    [extract/header.rs], [extract/json.rs], [extract/parameters.rs], [extract/state.rs], with
    the bounded responses of [response/json.rs] and the predicate of [header.rs].

    An extractor is a [FromRequest] of [Router]; the deserializer of the argument's type is
    an argument. Percent decoding, forms and header names belong to other crates: the class
    [ExtractApi], with the documentation the extractors rely on as [ExtractLaws]. *)

From Stdlib Require Import ZArith Lia Bool Ascii.
From stdpp Require Import gmap.
From S2P Require Import Prelude Strings Http Core HttpModel RoutePattern Router StaticPath Json Identity.

Local Open Scope Z_scope.

Class ExtractApi : Type := {
  (** [HeaderName::from_bytes]: the canonical name. *)
  header_name_from_bytes : str -> option str;
  (** [percent_decode_str]. *)
  percent_decode_str : str -> bytes;
  (** [form_urlencoded::Serializer] on a list of pairs, and [form_urlencoded::parse], which
      [serde_urlencoded] reads. *)
  form_finish : list (str * str) -> str;
  form_parse : str -> list (str * str)
}.

Class ExtractLaws `{ExtractApi} : Prop := {
  (** An escape is a percent sign and two hexadecimal digits; other bytes stay. *)
  decode_nil : percent_decode_str [] = [];
  decode_escape high low h l s :
    hex_value high = Ok h -> hex_value low = Ok l ->
    percent_decode_str ("%"%char :: high :: low :: s) = byte_of (Z.lor (Z.shiftl h 4) l) :: percent_decode_str s;
  decode_other c s : c <> "%"%char -> percent_decode_str (c :: s) = c :: percent_decode_str s;
  parse_finish pairs : form_parse (form_finish pairs) = pairs
}.

(** ** Header values: [header.rs] *)

Definition is_valid_http_bearer_value `{HttpApi} (value : str) (max_value_bytes : nat) : bool :=
  negb (is_blank value) && (List.length value <=? max_value_bytes)%nat
  && is_some (hv_from_str (##"Bearer " ++ value)).

Section extract.
Context `{HttpApi, ExtractApi} `{!Serialize ErrorPayload}.

(** ** Bounded responses: [response/json.rs] *)

Definition encode_json_bounded {T} `{!JsonWriter T} (value : T) (max_bytes : nat) : result bytes Error :=
  match to_vec_bounded value max_bytes with
  | Ok encoded => Ok encoded
  | Err TooLarge => Err (mk_error 500 ##"response_too_large" ##"response body exceeds configured limit")
  | Err SerializeError => Err internal
  end.
Definition json_response_bounded {T} `{!JsonWriter T} (status : StatusCode) (value : T) (max_bytes : nat) :
    result Response Error :=
  let? encoded := encode_json_bounded value max_bytes in Ok (json_response_from_encoded status encoded).

(** ** Bodies *)

(** What is left of a body that was polled up to its end or its first error. *)
Fixpoint polled (b : Body) : Body :=
  match b with
  | [] => []
  | inl _ :: b => polled b
  | inr _ :: b => b
  end.
Definition with_body (b : Body) (r : Request) : Request :=
  {| req_method := req_method r; req_uri := req_uri r; req_headers := req_headers r;
     req_extensions := req_extensions r; req_body := b |}.

Definition collect_body (request : Request) : Request * result bytes Error :=
  (with_body (polled (req_body request)) request,
   match collect (req_body request) with
   | Ok bytes => Ok bytes
   | Err LengthLimitError => Err (mk_error 413 ##"payload_too_large" ##"request body exceeds the configured limit")
   | Err OtherError => Err (bad_request ##"request body could not be read")
   end).

(** ** The extractors *)

(** One that leaves the request alone. *)
Definition reading {A} (read : Request -> RouteParams -> StateStore -> result A Error) : FromRequest A :=
  fun request params state => (request, read request params state).

Definition connection_info : FromRequest ConnectionInfo := reading (fun request _ _ =>
  ok_or (ext_connection_info (req_extensions request))
    (mk_error 500 ##"connection_info_missing" ##"transport connection metadata is required")).
Definition route_template : FromRequest RouteTemplate := reading (fun request _ _ =>
  ok_or (ext_template (req_extensions request))
    (mk_error 500 ##"route_template_missing" ##"a matched router route is required")).
Definition header_map : FromRequest HeaderMap := reading (fun request _ _ => Ok (req_headers request)).
Definition request_method : FromRequest str := reading (fun request _ _ => Ok (req_method request)).
Definition request_uri : FromRequest Uri := reading (fun request _ _ => Ok (req_uri request)).
Definition body_bytes : FromRequest bytes := fun request _ _ => collect_body request.
(** [State<T>] for the type [type_id]: the handle of the stored value. *)
Definition state_of (type_id : nat) : FromRequest nat := reading (fun _ _ state => ok_or (state_get type_id state) internal).

(** [FromHeader] and [Header<T>]. *)
Record FromHeader (T : Type) : Type := { header_NAME : str; from_header : HeaderValue -> result T Error }.
Definition header_of {T} (h : FromHeader T) : FromRequest T := reading (fun request _ _ =>
  let? name := ok_or (header_name_from_bytes (header_NAME _ h)) internal in
  match hm_get_all name (req_headers request) with
  | [] => Err (bad_request (##"missing " ++ header_NAME _ h ++ ##" header"))
  | [value] => from_header _ h value
  | _ :: _ :: _ => Err (bad_request (##"duplicate " ++ header_NAME _ h ++ ##" header"))
  end).

(** [Json<T>]; [from_slice] reads a [T]. *)
Definition json_of {T} (from_slice : bytes -> option T) : FromRequest T := fun request _ _ =>
  match hm_get_all CONTENT_TYPE (req_headers request) with
  | [] => (request, Err (unsupported_media_type ##"expected an application/json content type"))
  | [content_type] =>
      if negb (is_standard_json_media_type (default [] (hv_to_str content_type)))
      then (request, Err (unsupported_media_type ##"expected an application/json content type"))
      else
        let '(request, collected) := collect_body request in
        (request, let? body := collected in ok_or (from_slice body) (bad_request ##"invalid JSON body"))
  | _ :: _ :: _ => (request, Err (bad_request ##"duplicate Content-Type header"))
  end.

(** [Query<T>]; [from_pairs] reads a [T] from the pairs of a form. *)
Definition query_of {T} (from_pairs : list (str * str) -> option T) : FromRequest T := reading (fun request _ _ =>
  ok_or (from_pairs (form_parse (default [] (uri_query (req_uri request))))) (bad_request ##"invalid query string")).

(** [Path<T>]. *)
Fixpoint has_valid_percent_encoding (value : str) : bool :=
  match value with
  | [] => true
  | c :: rest =>
      if char_eqb "%" c then
        match rest with
        | high :: low :: rest => is_ascii_hexdigit high && is_ascii_hexdigit low && has_valid_percent_encoding rest
        | _ => false
        end
      else has_valid_percent_encoding rest
  end.
Definition decode_path_parameter (value : str) : result str Error :=
  if negb (has_valid_percent_encoding value) then Err (bad_request ##"invalid path parameters")
  else
    let decoded := percent_decode_str value in
    if valid_utf8 decoded then Ok decoded else Err (bad_request ##"invalid path parameters").
(** The loop, with the pairs appended so far. *)
Fixpoint append_parameters (params : RouteParams) (pairs : list (str * str)) : result (list (str * str)) Error :=
  match params with
  | [] => Ok pairs
  | (key, value) :: rest =>
      let? value := decode_path_parameter value in append_parameters rest (pairs ++ [(key, value)])
  end.
Definition path_of {T} (from_pairs : list (str * str) -> option T) : FromRequest T := reading (fun _ params _ =>
  let? pairs := append_parameters params [] in
  ok_or (from_pairs (form_parse (form_finish pairs))) (bad_request ##"invalid path parameters")).

(** ** Lemmas *)

Lemma hex_value_digit_iff c : is_ascii_hexdigit c = is_ok (hex_value c).
Proof.
  unfold is_ascii_hexdigit, hex_value, is_ascii_digit.
  destruct (in_range 48 57 c), (in_range 97 102 c), (in_range 65 70 c); done.
Qed.

(** The decoder of static files reads the same escapes. *)
Lemma decode_agrees `{!ExtractLaws} value :
  percent_decode value = if has_valid_percent_encoding value then Ok (percent_decode_str value) else Err tt.
Proof.
  induction value as [value IH] using (Nat.measure_induction _ List.length). destruct value as [|c rest].
  { by rewrite decode_nil. }
  cbn [percent_decode has_valid_percent_encoding]. destruct (char_eqb "%" c) eqn:HC.
  - apply char_eqb_true in HC as <-. destruct rest as [|high [|low rest]]; [done | done|].
    rewrite !hex_value_digit_iff. destruct (hex_value high) as [h|[]] eqn:HH; [|done].
    destruct (hex_value low) as [l|[]] eqn:HL; [|by rewrite andb_false_r]. cbn [is_ok andb].
    rewrite IH by (cbn; lia). destruct (has_valid_percent_encoding rest); [|done].
    by rewrite (decode_escape high low h l).
  - rewrite IH by (cbn; lia). destruct (has_valid_percent_encoding rest); [|done].
    rewrite decode_other; [done|]. intros ->. by rewrite char_eqb_refl in HC.
Qed.

(** The parameters as a handler gets them. *)
Definition decoded_parameter (param : str * str) : option (str * str) :=
  match percent_decode param.2 with
  | Ok text => if valid_utf8 text then Some (param.1, text) else None
  | Err _ => None
  end.
Definition invalid_path : Error := bad_request ##"invalid path parameters".

Lemma decode_path_parameter_spec `{!ExtractLaws} key value :
  match decode_path_parameter value with
  | Ok text => decoded_parameter (key, value) = Some (key, text)
  | Err e => e = invalid_path /\ decoded_parameter (key, value) = None
  end.
Proof.
  unfold decoded_parameter, decode_path_parameter. cbn [fst snd]. rewrite decode_agrees.
  destruct (has_valid_percent_encoding value); cbn [negb]; [|done]. by destruct (valid_utf8 (percent_decode_str value)).
Qed.

Lemma append_parameters_spec `{!ExtractLaws} params pairs :
  append_parameters params pairs =
  match mapM decoded_parameter params with Some decoded => Ok (pairs ++ decoded) | None => Err invalid_path end.
Proof.
  revert pairs. induction params as [|[key value] params IH]; intros pairs; cbn [append_parameters mapM].
  { cbn. by rewrite app_nil_r. }
  pose proof (decode_path_parameter_spec key value) as HD.
  destruct (decode_path_parameter value) as [text|e]; [rewrite HD | by destruct HD as [-> ->]].
  rewrite IH. cbn [mbind option_bind]. destruct (mapM decoded_parameter params); [|done]. cbn. by rewrite <- app_assoc.
Qed.

Lemma path_of_spec `{!ExtractLaws} {T} (from_pairs : list (str * str) -> option T) request params state :
  path_of from_pairs request params state =
  (request, match mapM decoded_parameter params with
            | Some pairs => ok_or (from_pairs pairs) invalid_path
            | None => Err invalid_path
            end).
Proof.
  unfold path_of, reading. rewrite append_parameters_spec.
  destruct (mapM decoded_parameter params); [|done]. by rewrite parse_finish.
Qed.

(** A link: the path of a pattern with texts for its parameters, percent-encoded. *)
Fixpoint link_segments (segs : list Segment) (values : list str) : list str :=
  match segs, values with
  | Static t :: segs, values => t :: link_segments segs values
  | Param _ :: segs, v :: values => percent_encode v :: link_segments segs values
  | _, _ => []
  end.
Definition link (p : RoutePattern) (values : list str) : str := ##"/" ++ join ##"/" (link_segments (segments p) values).

Definition good_value (v : str) : Prop := nonempty v = true /\ valid_utf8 v = true.

Lemma link_segments_spec segs values :
  Forall wf_segment segs -> Forall good_value values -> List.length values = List.length (param_names segs) ->
  Forall good_piece (link_segments segs values) /\ Forall2 admits segs (link_segments segs values) /\
  mapM decoded_parameter (bindings segs (link_segments segs values)) = Some (zip (param_names segs) values).
Proof.
  intros HS. revert values. induction HS as [|[t|n] segs Hs _ IH]; intros values HV HL.
  - done.
  - destruct (IH values HV HL) as (H1' & H2' & H3'). cbn [link_segments bindings]. split_and!.
    + constructor; [apply Hs | done].
    + by constructor.
    + exact H3'.
  - change (param_names (Param n :: segs)) with (n :: param_names segs) in *. destruct values as [|v values]; [done|].
    injection HL as HL. apply Forall_cons in HV as [[Hne Hu] HV].
    destruct (IH values HV HL) as (H1' & H2' & H3'). cbn [link_segments bindings zip zip_with]. split_and!.
    + constructor; [|done]. split; [by destruct v | apply percent_encode_no_slash].
    + by constructor.
    + cbn [mapM]. assert (decoded_parameter (n, percent_encode v) = Some (n, v)) as ->.
      { unfold decoded_parameter. cbn [fst snd]. by rewrite percent_decode_encode, Hu. }
      cbn [mbind option_bind]. by rewrite H3'.
Qed.

(** ** Properties *)

(** C29: A link of a route pattern with texts for its parameters matches the pattern, and the
    handler's [Path] argument is read from exactly those texts, whatever characters they
    have. *)
Theorem links_deliver_parameters `{!ExtractLaws} {T} (from_pairs : list (str * str) -> option T) template p values request state :
  RoutePattern.parse template = Ok p -> Forall good_value values -> List.length values = List.length (param_names (segments p)) ->
  exists params, matches p (link p values) = Some params /\
    path_of from_pairs request params state =
      (request, ok_or (from_pairs (zip (param_names (segments p)) values)) invalid_path).
Proof.
  intros (HS & _ & _)%parse_wf HV HL. destruct (link_segments_spec _ _ HS HV HL) as (HG & HA & HM).
  exists (bindings (segments p) (link_segments (segments p) values)). split.
  - apply matches_Some. change (link p values) with ("/"%char :: join ["/"%char] (link_segments (segments p) values)).
    rewrite pieces_cons_sep, pieces_join by done. split_and!; [by apply join_no_double_slash' | done | done].
  - by rewrite path_of_spec, HM.
Qed.

(** The JSON extractor on every branch. *)
Theorem json_extracted {T} (from_slice : bytes -> option T) request params state :
  let '(request', r) := json_of from_slice request params state in
  req_headers request' = req_headers request /\ req_uri request' = req_uri request /\
  req_method request' = req_method request /\ req_extensions request' = req_extensions request /\
  match r with
  | Ok value =>
      exists content_type body, hm_get_all CONTENT_TYPE (req_headers request) = [content_type] /\
        is_standard_json_media_type (default [] (hv_to_str content_type)) = true /\
        collect (req_body request) = Ok body /\ from_slice body = Some value /\ req_body request' = []
  | Err e =>
      err_status e = 415 /\ req_body request' = req_body request \/
      err_status e = 413 /\ collect (req_body request) = Err LengthLimitError \/
      err_status e = 400
  end.
Proof.
  unfold json_of, collect_body. destruct (hm_get_all _ _) as [|content_type [|]] eqn:HC;
    [split_and!; [done..|]; by left | | split_and!; [done..|]; by right; right].
  destruct (is_standard_json_media_type _) eqn:HJ; cbn [negb]; [|split_and!; [done..|]; by left].
  assert (forall b body, collect b = Ok body -> polled b = []) as HP.
  { clear. induction b as [|[d|e] b IH]; cbn; [done | | done]. destruct (collect b); [by eauto | done]. }
  destruct (collect (req_body request)) as [body|[]] eqn:HB; cbn [with_body req_headers req_uri req_method req_extensions req_body];
    (split_and!; [done..|]); [|by right; left | by right; right].
  destruct (from_slice body) as [value|] eqn:HF; cbn [ok_or]; [|by right; right].
  exists content_type, body. split_and!; [done..|]. by apply (HP _ body).
Qed.
End extract.

(** ** A model of the other crates *)

Module ExtractModel.
Fixpoint unescape (s : str) : bytes :=
  match s with
  | [] => []
  | c :: rest =>
      if char_eqb "%" c then
        match rest with
        | high :: low :: rest' =>
            match hex_value high, hex_value low with
            | Ok h, Ok l => byte_of (Z.lor (Z.shiftl h 4) l) :: unescape rest'
            | _, _ => c :: unescape rest
            end
        | _ => c :: unescape rest
        end
      else c :: unescape rest
  end.

(** A form with every byte escaped. *)
Definition field (pair : str * str) : str := percent_encode pair.1 ++ ##"=" ++ percent_encode pair.2.
Definition finish (pairs : list (str * str)) : str := join ##"&" (map field pairs).
Definition unfield (piece : str) : str * str :=
  match split_once "=" piece with
  | Some (k, v) => (unescape k, unescape v)
  | None => (unescape piece, [])
  end.
Definition parse_form (s : str) : list (str * str) := map unfield (List.filter nonempty (split "&" s)).

Lemma unescape_encode s : unescape (percent_encode s) = s.
Proof.
  induction s as [|c s IH]; [done|]. unfold percent_encode in *. rewrite bind_cons. cbn [app unescape].
  rewrite char_eqb_refl. pose proof (code_range c).
  assert (0 <= code c / 16 < 16) by (split; [apply Z.div_pos | apply Z.div_lt_upper_bound]; lia).
  rewrite !hex_value_digit by (done || apply Z.mod_pos_bound; lia). rewrite IH, nibbles. by rewrite byte_of_code.
Qed.

Lemma encode_chars s c : c ∈ percent_encode s -> c = "%"%char \/ 48 <= code c <= 57 \/ 65 <= code c <= 70.
Proof.
  unfold percent_encode. rewrite list_elem_of_bind. intros (x & Hin & _). pose proof (code_range x).
  assert (0 <= code x / 16 < 16) by (split; [apply Z.div_pos | apply Z.div_lt_upper_bound]; lia).
  pose proof (Z.mod_pos_bound (code x) 16).
  assert (forall d, 0 <= d < 16 -> 48 <= code (hex_digit d) <= 57 \/ 65 <= code (hex_digit d) <= 70) as HD.
  { intros d Hd. unfold hex_digit. destruct (Z.ltb_spec d 10); rewrite code_byte_of by lia; lia. }
  rewrite !elem_of_cons in Hin. destruct Hin as [->|[->|[->|?%not_elem_of_nil]]]; [by left | right; by apply HD | right; apply HD; lia | done].
Qed.
Lemma encode_lacks s c : c <> "%"%char -> 57 < code c < 65 \/ code c < 48 -> c ∉ percent_encode s.
Proof. intros Hc Hr [?|Hin]%encode_chars; [done | lia]. Qed.

Lemma unfield_field pair : unfield (field pair) = pair.
Proof.
  destruct pair as [k v]. unfold unfield, field. cbn [fst snd].
  rewrite (proj2 (split_once_Some "=" _ (percent_encode k) (percent_encode v))).
  - by rewrite !unescape_encode.
  - split; [done|]. apply encode_lacks; [done|]. left. by vm_compute.
Qed.
Lemma parse_form_finish pairs : parse_form (finish pairs) = pairs.
Proof.
  unfold parse_form, finish. destruct pairs as [|pair pairs]; [done|]. set (l := pair :: pairs).
  assert (split "&" (join ##"&" (map field l)) = map field l) as ->.
  { apply split_join; [done|]. apply Forall_fmap, Forall_forall. intros [k v] _. cbn.
    assert (forall x, "&"%char ∉ percent_encode x) as HN.
    { intros x. apply encode_lacks; [done|]. right. by vm_compute. }
    rewrite elem_of_app, elem_of_cons. intros [?|[?|?]]; [by apply (HN k) | done | by apply (HN v)]. }
  clearbody l. induction l as [|[k v] l IH]; [done|]. cbn [map].
  assert (nonempty (field (k, v)) = true) as HN by (unfold field; cbn [fst snd]; by destruct (percent_encode k)).
  cbn [List.filter]. rewrite HN. cbn [map]. by rewrite IH, unfield_field.
Qed.

#[export] Instance api : ExtractApi := {|
  header_name_from_bytes name := if forallb (fun c => is_ascii_alphanumeric c || char_eqb c "-") name then Some name else None;
  percent_decode_str := unescape; form_finish := finish; form_parse := parse_form
|}.
#[export] Instance extract_laws : ExtractLaws.
Proof.
  split; cbn [percent_decode_str form_finish form_parse api].
  - done.
  - intros high low h l s Hh Hl. cbn [unescape]. by rewrite char_eqb_refl, Hh, Hl.
  - intros c s Hc. cbn [unescape]. destruct (char_eqb "%" c) eqn:HE; [|done]. apply char_eqb_true in HE. by subst c.
  - apply parse_form_finish.
Qed.

(** A name with a slash, a space and a letter that is not ASCII. *)
Definition awkward : str := ##"a/b " ++ [byte_of 195; byte_of 169].
Definition read_name (pairs : list (str * str)) : option str := params_get ##"name" pairs.
Definition files_pattern : RoutePattern := mk_pattern [Static ##"files"; Param ##"name"] 1.

Lemma links_deliver_parameters_witness :
  RoutePattern.parse ##"/files/:name" = Ok files_pattern /\
  exists params, matches files_pattern (link files_pattern [awkward]) = Some params /\
    path_of read_name (HttpModel.request ##"GET" ##"/") params ∅ = (HttpModel.request ##"GET" ##"/", Ok awkward).
Proof.
  assert (HP : RoutePattern.parse ##"/files/:name" = Ok files_pattern) by (vm_compute; reflexivity).
  split; [exact HP|].
  destruct (links_deliver_parameters read_name ##"/files/:name" files_pattern [awkward] (HttpModel.request ##"GET" ##"/") ∅ HP)
    as (params & HM & HX).
  - repeat constructor; vm_compute; reflexivity.
  - reflexivity.
  - exists params. split; [exact HM|]. rewrite HX. vm_compute. reflexivity.
Defined.
End ExtractModel.
