(* ===== verification/Oidc.v ===== *)
(** Trusted OpenID Connect endpoints: [crates/rustee-auth-oidc], its configuration
    ([trust.rs], [client_auth.rs], [browser_login/config.rs], [resource_server_config.rs],
    [introspection/config.rs]) and its HTTP adapters ([http.rs], [browser_login/transport],
    [jwks/transport.rs], [introspection/transport.rs]).

    The [url] crate is the interface [UrlApi], encodings and hashes are [EncodingApi]. An
    adapter is a function of what the HTTP client answers to its one request. *)

From Stdlib Require Import ZArith Lia Bool Ascii.
From stdpp Require Import gmap sets.
From S2P Require Import Prelude Strings Http Core HttpModel Auth JsonValue Identity.

Local Open Scope Z_scope.

(** ** Interfaces *)

Class UrlApi : Type := {
  Url : Type;
  url_parse : str -> option Url;
  url_as_str : Url -> str;
  url_scheme : Url -> str;
  url_host : Url -> option str;
  url_username : Url -> str;
  url_password : Url -> option str;
  url_path : Url -> str;
  url_query : Url -> option str;
  url_fragment : Url -> option str;
  url_set_path : str -> Url -> Url;
  url_clear_query : Url -> Url;
  (** [origin().ascii_serialization()]. *)
  url_origin : Url -> str;
  (** [query_pairs] and [query_pairs_mut().extend_pairs(..)]. *)
  url_query_pairs : Url -> list (str * str);
  url_extend_pairs : list (str * str) -> Url -> Url
}.

(** A serialized URL parses to itself, if it parses. Appended pairs are read back after those
    that were there; nothing else changes. *)
Class UrlLaws `{UrlApi} : Prop := {
  reparse u u' : url_parse (url_as_str u) = Some u' -> u' = u;
  extend_pairs_read ps u : url_query_pairs (url_extend_pairs ps u) = url_query_pairs u ++ ps;
  extend_pairs_scheme ps u : url_scheme (url_extend_pairs ps u) = url_scheme u;
  extend_pairs_host ps u : url_host (url_extend_pairs ps u) = url_host u;
  extend_pairs_path ps u : url_path (url_extend_pairs ps u) = url_path u
}.

(** [Url] compares its serialization. *)
Definition url_eqb `{UrlApi} (a b : Url) : bool := str_eqb (url_as_str a) (url_as_str b).

Class EncodingApi : Type := {
  sha256 : bytes -> bytes;
  base64_url : bytes -> str;
  base64 : bytes -> str;
  (** [form_urlencoded::byte_serialize]. *)
  form_serialize : bytes -> str
}.

(** [application/x-www-form-urlencoded]: a space becomes one plus sign, letters, digits and
    four marks stay, every other byte becomes three characters. *)
Definition form_unreserved (c : ascii) : bool :=
  is_ascii_alphanumeric c || existsb (char_eqb c) ##"*-._".
Definition form_width (c : ascii) : nat := if form_unreserved c || char_eqb c " " then 1%nat else 3%nat.

Class EncodingLaws `{EncodingApi} : Prop := {
  form_serialize_length s : List.length (form_serialize s) = sum_list_with form_width s;
  base64_length s : List.length (base64 s) = ((List.length s + 2) / 3 * 4)%nat
}.

(** ** Trusted values: [trust.rs] *)

Definition MAX_AUDIENCE_BYTES : nat := 1024.
Definition MAX_ISSUER_BYTES : nat := 2 * 1024.
Definition MAX_LEEWAY_SECONDS : Z := 300.
Definition MAX_HTTPS_URL_BYTES : nat := 2 * 1024.

Definition valid_text (value : str) (maximum_bytes : nat) : bool :=
  negb (is_blank value) && (List.length value <=? maximum_bytes)%nat
  && forallb (fun c => negb (is_ascii_control c)) value.

Definition valid_https_url `{UrlApi} (url : Url) : bool :=
  (List.length (url_as_str url) <=? MAX_HTTPS_URL_BYTES)%nat
  && str_eqb (url_scheme url) ##"https"
  && is_some (url_host url)
  && negb (nonempty (url_username url))
  && negb (is_some (url_password url))
  && negb (is_some (url_fragment url)).

(** ** Client authentication: [client_auth.rs] *)

Definition MAX_CLIENT_ID_BYTES : nat := 1024.
Definition MAX_CLIENT_SECRET_BYTES : nat := 4 * 1024.
Definition MAX_BASIC_AUTHORIZATION_BYTES : nat := 8 * 1024.

Definition OidcClientSecret : Type := str.
Inductive OidcClientAuthenticationError : Type := BlankSecret | InvalidSecret.

Definition client_secret_new (value : str) : result OidcClientSecret OidcClientAuthenticationError :=
  if is_blank value then Err BlankSecret
  else if (MAX_CLIENT_SECRET_BYTES <? List.length value)%nat || existsb is_ascii_control value
  then Err InvalidSecret
  else Ok value.

Inductive OidcClientAuthentication : Type :=
| NoSecret
| ClientSecretBasic (secret : OidcClientSecret)
| ClientSecretPost (secret : OidcClientSecret).

Definition valid_client_id (value : str) : bool :=
  negb (is_blank value) && (List.length value <=? MAX_CLIENT_ID_BYTES)%nat
  && forallb (fun c => negb (is_ascii_control c)) value.

Definition form_encoded_len (value : str) : nat :=
  sum_list_with (fun c => if is_ascii_alphanumeric c || existsb (char_eqb c) ##"*-._" then 1%nat else 3%nat) value.

(** [checked_div(3)] never fails. *)
Definition basic_authorization_len (client_id secret : str) : option Z :=
  encoded_user ← checked_add u64_max (Z.of_nat (form_encoded_len client_id)) 1;
  encoded_credentials ← checked_add u64_max encoded_user (Z.of_nat (form_encoded_len secret));
  padded ← checked_add u64_max encoded_credentials 2;
  encoded_base64 ← (if padded / 3 * 4 <=? u64_max then Some (padded / 3 * 4) else None);
  checked_add u64_max (Z.of_nat (List.length ##"Basic ")) encoded_base64.

Definition basic_authorization_is_within_limit (client_id : str) (a : OidcClientAuthentication) : bool :=
  match a with
  | ClientSecretBasic secret =>
      match basic_authorization_len client_id secret with
      | Some length => length <=? Z.of_nat MAX_BASIC_AUTHORIZATION_BYTES
      | None => false
      end
  | NoSecret | ClientSecretPost _ => true
  end.

Definition form_encode_component `{EncodingApi} (value : str) : str := form_serialize value.

Definition basic_authorization_header `{EncodingApi} (client_id : str) (secret : OidcClientSecret) : str :=
  let user := form_encode_component client_id in
  let password := form_encode_component secret in
  ##"Basic " ++ base64 (user ++ ##":" ++ password).

(** ** Browser clients: [browser_login/config.rs] *)

Definition DEFAULT_TRANSACTION_TTL : Duration := from_secs 600.
Definition MAX_TRANSACTION_TTL : Duration := from_hours 1.
Definition MAX_SCOPE_BYTES : nat := 256.
Definition MAX_SCOPES : nat := 32.

Inductive OidcBrowserConfigError : Type :=
| BlankClientId
| InvalidClientId
| ClientAuthenticationTooLarge
| InvalidIssuerUrl
| InvalidRedirectUri
| InvalidJwksUrl
| InvalidScope
| BrowserTooManyScopes
| ZeroTransactionTtl
| FractionalTransactionTtl
| TransactionTtlTooLong
| ZeroHttpTimeout
| HttpClientInitialization.

Section config.
Context `{UrlApi}.

Definition is_valid_https_url (url : Url) : bool := valid_https_url url.
Definition is_valid_issuer_url (url : Url) : bool := is_valid_https_url url && negb (is_some (url_query url)).

(** [scopes] is a [BTreeSet]: in ascending order, without repetition. *)
Record OidcBrowserConfig : Type := {
  bc_issuer : Url;
  bc_client_id : str;
  bc_redirect_uri : Url;
  bc_jwks_url : Url;
  bc_authentication : OidcClientAuthentication;
  bc_scopes : gset str;
  bc_transaction_ttl : Duration
}.

Definition browser_config_new (issuer : Url) (client_id : str) (redirect_uri jwks_url : Url)
    (authentication : OidcClientAuthentication) : result OidcBrowserConfig OidcBrowserConfigError :=
  if is_blank client_id then Err BlankClientId
  else if negb (valid_client_id client_id) then Err InvalidClientId
  else if negb (basic_authorization_is_within_limit client_id authentication)
  then Err ClientAuthenticationTooLarge
  else if negb (is_valid_issuer_url issuer) then Err InvalidIssuerUrl
  else if negb (is_valid_https_url redirect_uri) then Err InvalidRedirectUri
  else if negb (is_valid_https_url jwks_url) then Err InvalidJwksUrl
  else Ok {| bc_issuer := issuer; bc_client_id := client_id; bc_redirect_uri := redirect_uri;
             bc_jwks_url := jwks_url; bc_authentication := authentication;
             bc_scopes := {[##"openid"]}; bc_transaction_ttl := DEFAULT_TRANSACTION_TTL |}.

Definition browser_with_scope (scope : str) (c : OidcBrowserConfig) :
    result OidcBrowserConfig OidcBrowserConfigError :=
  if negb (is_valid_oauth_scope_token scope MAX_SCOPE_BYTES) then Err InvalidScope
  else if negb (bool_decide (scope ∈ bc_scopes c)) && (size (bc_scopes c) =? MAX_SCOPES)%nat
  then Err BrowserTooManyScopes
  else Ok {| bc_issuer := bc_issuer c; bc_client_id := bc_client_id c; bc_redirect_uri := bc_redirect_uri c;
             bc_jwks_url := bc_jwks_url c; bc_authentication := bc_authentication c;
             bc_scopes := {[scope]} ∪ bc_scopes c; bc_transaction_ttl := bc_transaction_ttl c |}.

Definition with_transaction_ttl (ttl : Duration) (c : OidcBrowserConfig) :
    result OidcBrowserConfig OidcBrowserConfigError :=
  if as_secs ttl =? 0 then Err ZeroTransactionTtl
  else if negb (subsec_nanos ttl =? 0) then Err FractionalTransactionTtl
  else if MAX_TRANSACTION_TTL <? ttl then Err TransactionTtlTooLong
  else Ok {| bc_issuer := bc_issuer c; bc_client_id := bc_client_id c; bc_redirect_uri := bc_redirect_uri c;
             bc_jwks_url := bc_jwks_url c; bc_authentication := bc_authentication c;
             bc_scopes := bc_scopes c; bc_transaction_ttl := ttl |}.

(** ** Resource servers: [resource_server_config.rs] *)

Definition DEFAULT_CACHE_TTL : Duration := from_secs 300.
Definition DEFAULT_MINIMUM_REFRESH_INTERVAL : Duration := from_secs 30.

Record OidcResourceServerConfig : Type := {
  rs_algorithm : Algorithm;
  rs_issuer : str;
  rs_audience : str;
  rs_jwks_url : Url;
  rs_leeway_seconds : Z;
  rs_cache_ttl : Duration;
  rs_minimum_refresh_interval : Duration
}.

Inductive OidcConfigError : Type :=
| OidcBlankField
| OidcInvalidField
| OidcLeewayTooLarge
| SymmetricAlgorithm
| OidcInvalidJwksUrl
| ZeroFetchTimeout
| OidcHttpClientInitialization.

Definition is_valid_jwks_url (url : Url) : bool := valid_https_url url.

Definition is_asymmetric (a : Algorithm) : bool :=
  match a with
  | RS256 | RS384 | RS512 | PS256 | PS384 | PS512 | ES256 | ES384 | EdDSA => true
  | _ => false
  end.

Definition resource_config_new (algorithm : Algorithm) (issuer audience : str) (jwks_url : Url) :
    result OidcResourceServerConfig OidcConfigError :=
  if is_blank issuer || is_blank audience then Err OidcBlankField
  else if negb (valid_text issuer MAX_ISSUER_BYTES) || negb (valid_text audience MAX_AUDIENCE_BYTES)
  then Err OidcInvalidField
  else if negb (is_asymmetric algorithm) then Err SymmetricAlgorithm
  else if negb (is_valid_jwks_url jwks_url) then Err OidcInvalidJwksUrl
  else Ok {| rs_algorithm := algorithm; rs_issuer := issuer; rs_audience := audience; rs_jwks_url := jwks_url;
             rs_leeway_seconds := 0; rs_cache_ttl := DEFAULT_CACHE_TTL;
             rs_minimum_refresh_interval := DEFAULT_MINIMUM_REFRESH_INTERVAL |}.

Definition resource_with_leeway (leeway : Z) (c : OidcResourceServerConfig) :
    result OidcResourceServerConfig OidcConfigError :=
  if MAX_LEEWAY_SECONDS <? leeway then Err OidcLeewayTooLarge
  else Ok {| rs_algorithm := rs_algorithm c; rs_issuer := rs_issuer c; rs_audience := rs_audience c;
             rs_jwks_url := rs_jwks_url c; rs_leeway_seconds := leeway; rs_cache_ttl := rs_cache_ttl c;
             rs_minimum_refresh_interval := rs_minimum_refresh_interval c |}.
Definition resource_with_cache_ttl (ttl : Duration) (c : OidcResourceServerConfig) : OidcResourceServerConfig :=
  {| rs_algorithm := rs_algorithm c; rs_issuer := rs_issuer c; rs_audience := rs_audience c;
     rs_jwks_url := rs_jwks_url c; rs_leeway_seconds := rs_leeway_seconds c; rs_cache_ttl := ttl;
     rs_minimum_refresh_interval := rs_minimum_refresh_interval c |}.
Definition with_minimum_refresh_interval (interval : Duration) (c : OidcResourceServerConfig) :
    OidcResourceServerConfig :=
  {| rs_algorithm := rs_algorithm c; rs_issuer := rs_issuer c; rs_audience := rs_audience c;
     rs_jwks_url := rs_jwks_url c; rs_leeway_seconds := rs_leeway_seconds c; rs_cache_ttl := rs_cache_ttl c;
     rs_minimum_refresh_interval := interval |}.

Definition validation (c : OidcResourceServerConfig) : Validation := {|
  v_algorithms := [rs_algorithm c];
  v_leeway := rs_leeway_seconds c;
  validate_exp := true;
  validate_nbf := true;
  validate_aud := true;
  v_iss := Some [rs_issuer c];
  v_aud := Some [rs_audience c];
  required_spec_claims := [ ##"sub"; ##"iss"; ##"aud"; ##"exp"; ##"nbf" ]
|}.
Definition id_token_validation (c : OidcResourceServerConfig) : Validation := {|
  v_algorithms := [rs_algorithm c];
  v_leeway := rs_leeway_seconds c;
  validate_exp := true;
  validate_nbf := true;
  validate_aud := true;
  v_iss := Some [rs_issuer c];
  v_aud := Some [rs_audience c];
  required_spec_claims := [ ##"sub"; ##"iss"; ##"aud"; ##"exp" ]
|}.

(** ** Introspection: [introspection/config.rs] *)

Definition DEFAULT_INTROSPECTION_CACHE_TTL : Duration := from_secs 60.
Definition DEFAULT_MAX_CACHE_ENTRIES : nat := 1024.

Record OpaqueIntrospectionConfig : Type := {
  oi_issuer : str;
  oi_audience : str;
  oi_endpoint : Url;
  oi_client_id : str;
  oi_authentication : OidcClientAuthentication;
  oi_leeway_seconds : Z;
  oi_cache_ttl : Duration;
  oi_max_cache_entries : nat
}.

Inductive OpaqueIntrospectionConfigError : Type :=
| OpaqueBlankField
| OpaqueInvalidField
| OpaqueClientAuthenticationTooLarge
| OpaqueLeewayTooLarge
| InvalidEndpoint
| OpaqueZeroHttpTimeout
| OpaqueHttpClientInitialization.

Definition is_valid_introspection_url (url : Url) : bool := valid_https_url url.

Definition introspection_config_new (issuer audience : str) (endpoint : Url) (client_id : str)
    (authentication : OidcClientAuthentication) :
    result OpaqueIntrospectionConfig OpaqueIntrospectionConfigError :=
  if is_blank issuer || is_blank audience || is_blank client_id then Err OpaqueBlankField
  else if negb (valid_text issuer MAX_ISSUER_BYTES) || negb (valid_text audience MAX_AUDIENCE_BYTES)
          || negb (valid_client_id client_id)
  then Err OpaqueInvalidField
  else if negb (basic_authorization_is_within_limit client_id authentication)
  then Err OpaqueClientAuthenticationTooLarge
  else if negb (is_valid_introspection_url endpoint) then Err InvalidEndpoint
  else Ok {| oi_issuer := issuer; oi_audience := audience; oi_endpoint := endpoint; oi_client_id := client_id;
             oi_authentication := authentication; oi_leeway_seconds := 0;
             oi_cache_ttl := DEFAULT_INTROSPECTION_CACHE_TTL; oi_max_cache_entries := DEFAULT_MAX_CACHE_ENTRIES |}.

Definition introspection_with_leeway (leeway : Z) (c : OpaqueIntrospectionConfig) :
    result OpaqueIntrospectionConfig OpaqueIntrospectionConfigError :=
  if MAX_LEEWAY_SECONDS <? leeway then Err OpaqueLeewayTooLarge
  else Ok {| oi_issuer := oi_issuer c; oi_audience := oi_audience c; oi_endpoint := oi_endpoint c;
             oi_client_id := oi_client_id c; oi_authentication := oi_authentication c;
             oi_leeway_seconds := leeway; oi_cache_ttl := oi_cache_ttl c;
             oi_max_cache_entries := oi_max_cache_entries c |}.
Definition introspection_with_cache_ttl (ttl : Duration) (c : OpaqueIntrospectionConfig) : OpaqueIntrospectionConfig :=
  {| oi_issuer := oi_issuer c; oi_audience := oi_audience c; oi_endpoint := oi_endpoint c;
     oi_client_id := oi_client_id c; oi_authentication := oi_authentication c;
     oi_leeway_seconds := oi_leeway_seconds c; oi_cache_ttl := ttl;
     oi_max_cache_entries := oi_max_cache_entries c |}.
Definition with_max_cache_entries (n : nat) (c : OpaqueIntrospectionConfig) : OpaqueIntrospectionConfig :=
  {| oi_issuer := oi_issuer c; oi_audience := oi_audience c; oi_endpoint := oi_endpoint c;
     oi_client_id := oi_client_id c; oi_authentication := oi_authentication c;
     oi_leeway_seconds := oi_leeway_seconds c; oi_cache_ttl := oi_cache_ttl c;
     oi_max_cache_entries := n |}.
End config.

(** ** Bounded JSON answers: [http.rs] *)

Definition MAX_JSON_RESPONSE_BYTES : nat := 1024 * 1024.

Inductive OidcHttpError : Type := RequestFailed | ResponseTooLarge | UnexpectedContentType | MalformedResponse.

Section http.
Context `{HttpApi, UrlApi, EncodingApi}.
(** The JSON parser of [serde_json::from_slice]. *)
Context (json_parse : bytes -> option Value).

(** What the client receives: the status, the headers, the declared length and the chunks of
    the body, one of which may be a failure of the connection. *)
Record HttpReply : Type := {
  rp_status : Z;
  rp_headers : HeaderMap;
  rp_content_length : option Z;
  rp_chunks : list (option bytes)
}.

Definition has_json_content_type (headers : HeaderMap) : bool :=
  match hm_get_all CONTENT_TYPE headers with
  | [value] => match hv_to_str value with Some text => is_standard_json_media_type text | None => false end
  | _ => false
  end.

Fixpoint read_chunks (body : bytes) (chunks : list (option bytes)) : result bytes OidcHttpError :=
  match chunks with
  | [] => Ok body
  | None :: _ => Err RequestFailed
  | Some chunk :: rest =>
      if (MAX_JSON_RESPONSE_BYTES - List.length body <? List.length chunk)%nat then Err ResponseTooLarge
      else read_chunks (body ++ chunk) rest
  end.

Definition decode_json_response {T} (read : Value -> option T) (reply : HttpReply) : result T OidcHttpError :=
  if negb (has_json_content_type (rp_headers reply)) then Err UnexpectedContentType
  else if match rp_content_length reply with
          | Some length => Z.of_nat MAX_JSON_RESPONSE_BYTES <? length
          | None => false
          end
  then Err ResponseTooLarge
  else
    let? body := read_chunks [] (rp_chunks reply) in
    ok_or (json_parse body ≫= read) MalformedResponse.

(** [error_for_status]: 4xx and 5xx are errors. *)
Definition error_for_status (reply : HttpReply) : result HttpReply OidcHttpError :=
  if (400 <=? rp_status reply) && (rp_status reply <? 600) then Err RequestFailed else Ok reply.

(** A request: its method, target, headers and form. *)
Record HttpRequest : Type := {
  rq_method : str;
  rq_url : Url;
  rq_headers : list (str * str);
  rq_form : list (str * str)
}.

(** [.send().await?.error_for_status()?] and the decoding; [None] is a failed request. *)
Definition send_and_decode {T} (read : Value -> option T) (send : HttpRequest -> option HttpReply)
    (request : HttpRequest) : result T OidcHttpError :=
  let? reply := ok_or (send request) RequestFailed in
  let? reply := error_for_status reply in
  decode_json_response read reply.

(** ** Adapters: [transport/discovery.rs], [transport/token.rs], [jwks/transport.rs],
    [introspection/transport.rs] *)

Definition read_url (v : Value) : option Url := read_string v ≫= url_parse.

Record OidcProviderMetadata : Type := {
  md_issuer : str;
  md_authorization_endpoint : Url;
  md_token_endpoint : Url;
  md_jwks_url : Url
}.

Definition read_metadata (v : Value) : option OidcProviderMetadata :=
  fields ← read_object v;
  issuer ← required read_string ##"issuer" fields;
  authorization_endpoint ← required read_url ##"authorization_endpoint" fields;
  token_endpoint ← required read_url ##"token_endpoint" fields;
  jwks_url ← required read_url ##"jwks_uri" fields;
  Some {| md_issuer := issuer; md_authorization_endpoint := authorization_endpoint;
          md_token_endpoint := token_endpoint; md_jwks_url := jwks_url |}.

Definition discovery_document_url (issuer : Url) : Url :=
  let path := trim_end_matches "/" (url_path issuer) in
  url_clear_query (url_set_path (path ++ ##"/.well-known/openid-configuration") issuer).

Definition http_discover (send : HttpRequest -> option HttpReply) (issuer : Url) :
    result OidcProviderMetadata OidcHttpError :=
  send_and_decode read_metadata send
    {| rq_method := ##"GET"; rq_url := discovery_document_url issuer; rq_headers := []; rq_form := [] |}.

Record OidcTokenExchangeRequest : Type := {
  ex_client_id : str;
  ex_authentication : OidcClientAuthentication;
  ex_code : str;
  ex_redirect_uri : Url;
  ex_code_verifier : str
}.

(** The client's credentials: further form fields, and a header. *)
Definition client_credentials (client_id : str) (a : OidcClientAuthentication) :
    list (str * str) * list (str * str) :=
  match a with
  | NoSecret => ([(##"client_id", client_id)], [])
  | ClientSecretPost secret => ([(##"client_id", client_id); (##"client_secret", secret)], [])
  | ClientSecretBasic secret => ([], [(##"authorization", basic_authorization_header client_id secret)])
  end.

Definition exchange_request (endpoint : Url) (request : OidcTokenExchangeRequest) : HttpRequest :=
  let '(form, headers) := client_credentials (ex_client_id request) (ex_authentication request) in
  {| rq_method := ##"POST"; rq_url := endpoint;
     rq_headers := headers ++ [(##"accept", ##"application/json")];
     rq_form := [(##"grant_type", ##"authorization_code"); (##"code", ex_code request);
                 (##"redirect_uri", url_as_str (ex_redirect_uri request));
                 (##"code_verifier", ex_code_verifier request)] ++ form |}.

Definition OidcTokenResponse : Type := option str.
Definition read_token_response (v : Value) : option OidcTokenResponse :=
  fields ← read_object v; optional read_string ##"id_token" fields.

Definition http_exchange (send : HttpRequest -> option HttpReply) (endpoint : Url)
    (request : OidcTokenExchangeRequest) : result OidcTokenResponse OidcHttpError :=
  send_and_decode read_token_response send (exchange_request endpoint request).

(** [OidcTokenResponse::into_id_token]. *)
Definition into_id_token (r : OidcTokenResponse) : option str :=
  t ← r; if is_blank t then None else Some t.

Record OpaqueTokenIntrospectionRequest : Type := {
  ir_token : str;
  ir_client_id : str;
  ir_authentication : OidcClientAuthentication
}.

Definition introspection_request (endpoint : Url) (request : OpaqueTokenIntrospectionRequest) : HttpRequest :=
  let '(form, headers) := client_credentials (ir_client_id request) (ir_authentication request) in
  {| rq_method := ##"POST"; rq_url := endpoint;
     rq_headers := headers ++ [(##"accept", ##"application/json")];
     rq_form := [(##"token", ir_token request); (##"token_type_hint", ##"access_token")] ++ form |}.

Definition http_introspect {T} (read : Value -> option T) (send : HttpRequest -> option HttpReply)
    (endpoint : Url) (request : OpaqueTokenIntrospectionRequest) : result T OidcHttpError :=
  send_and_decode read send (introspection_request endpoint request).

Definition http_fetch {T} (read : Value -> option T) (send : HttpRequest -> option HttpReply) (url : Url) :
    result T OidcHttpError :=
  send_and_decode read send {| rq_method := ##"GET"; rq_url := url; rq_headers := []; rq_form := [] |}.

(** The constructors check their settings; [build] is whether the client could be built. *)
Definition http_client (timeout : Duration) (build : bool) : result unit OidcBrowserConfigError :=
  if timeout =? 0 then Err ZeroHttpTimeout
  else if build then Ok tt else Err HttpClientInitialization.
Definition jwks_fetcher_new (url : Url) (timeout : Duration) (build : bool) : result Url OidcConfigError :=
  if negb (is_valid_jwks_url url) then Err OidcInvalidJwksUrl
  else if timeout =? 0 then Err ZeroFetchTimeout
  else if build then Ok url else Err OidcHttpClientInitialization.
Definition introspector_new (timeout : Duration) (build : bool) : result unit OpaqueIntrospectionConfigError :=
  if timeout =? 0 then Err OpaqueZeroHttpTimeout
  else if build then Ok tt else Err OpaqueHttpClientInitialization.
End http.

(** ** Lemmas: bounded bodies *)

#[local] Opaque MAX_JSON_RESPONSE_BYTES MAX_BASIC_AUTHORIZATION_BYTES.

Lemma read_chunks_Ok body chunks out :
  (List.length body <= MAX_JSON_RESPONSE_BYTES)%nat ->
  read_chunks body chunks = Ok out <->
  exists cs, chunks = map Some cs /\ out = body ++ concat cs /\ (List.length out <= MAX_JSON_RESPONSE_BYTES)%nat.
Proof.
  revert body. induction chunks as [|[chunk|] chunks IH]; intros body Hb; cbn [read_chunks].
  - split.
    + intros [= <-]. exists []. by rewrite app_nil_r.
    + intros ([|? ?] & HC & -> & _); [|done]. by rewrite app_nil_r.
  - destruct (_ <? _)%nat eqn:E; [apply Nat.ltb_lt in E|apply Nat.ltb_ge in E].
    + split; [done|]. intros ([|c cs] & HC & -> & HL); [done|]. injection HC as <- ->.
      rewrite !length_app in HL. cbn [concat] in HL. rewrite length_app in HL. lia.
    + rewrite IH by (rewrite length_app; lia). split.
      * intros (cs & -> & -> & HL). exists (chunk :: cs). cbn [map concat]. by rewrite app_assoc.
      * intros ([|c cs] & HC & -> & HL); [done|]. injection HC as <- ->. exists cs. cbn [concat] in *.
        by rewrite <- app_assoc.
  - split; [done|]. by intros ([|? ?] & HC & _).
Qed.

Section decoded.
Context `{HttpApi} (json_parse : bytes -> option Value).

(** A decoded answer was declared as JSON once, arrived whole, and has at most a mebibyte. *)
Lemma decode_json_response_Ok {T} (read : Value -> option T) reply x :
  decode_json_response json_parse read reply = Ok x ->
  has_json_content_type (rp_headers reply) = true /\
  exists cs v, rp_chunks reply = map Some cs /\ (List.length (concat cs) <= MAX_JSON_RESPONSE_BYTES)%nat /\
    json_parse (concat cs) = Some v /\ read v = Some x.
Proof.
  unfold decode_json_response. destruct (has_json_content_type _); [|done]. cbn [negb].
  match goal with |- context [if ?b then _ else _] => destruct b; [done|] end.
  destruct (read_chunks [] _) as [body|] eqn:HR; [|done]. split; [done|].
  apply read_chunks_Ok in HR as (cs & HC & -> & HL); [|simpl; lia]. cbn [app] in *.
  destruct (json_parse (concat cs)) as [v|] eqn:HP; [|done]. cbn in *.
  exists cs, v. split_and!; [done..|]. destruct (read v); cbn in *; congruence.
Qed.
End decoded.

(** ** Lemmas: Basic credentials *)

Definition spaces (s : str) : nat := count_occ ascii_dec s " "%char.

Lemma form_encoded_len_spaces s :
  form_encoded_len s = (sum_list_with form_width s + 2 * spaces s)%nat.
Proof.
  unfold form_encoded_len, spaces. induction s as [|c s IH]; [done|]. cbn [sum_list_with count_occ]. rewrite IH.
  unfold form_width. change (existsb (char_eqb c) ##"*-._") with (existsb (char_eqb c) ##"*-._").
  unfold form_unreserved. destruct (ascii_dec c " ") as [->|Hc].
  - change (is_ascii_alphanumeric " " || existsb (char_eqb " ") ##"*-._") with false. rewrite char_eqb_refl.
    cbn [orb]. lia.
  - rewrite (proj2 (char_eqb_false c " ") Hc), orb_false_r. destruct (_ || _); lia.
Qed.

Lemma basic_authorization_len_Some client_id secret n :
  basic_authorization_len client_id secret = Some n ->
  n = 6 + Z.of_nat ((form_encoded_len client_id + 1 + form_encoded_len secret + 2) / 3 * 4).
Proof.
  unfold basic_authorization_len, checked_add. change (Z.of_nat (List.length ##"Basic ")) with 6. intros HB.
  repeat (apply bind_Some in HB as (? & ? & HB)). repeat (case_match; [|done]). simplify_eq.
  rewrite Nat2Z.inj_mul, Nat2Z.inj_div, !Nat2Z.inj_add. change (Z.of_nat 3) with 3. change (Z.of_nat 4) with 4.
  change (Z.of_nat 1) with 1. change (Z.of_nat 2) with 2. lia.
Qed.

Section basic.
Context `{EncodingLaws}.

Lemma basic_authorization_header_length client_id secret :
  List.length (basic_authorization_header client_id secret) =
  (6 + (sum_list_with form_width client_id + 1 + sum_list_with form_width secret + 2) / 3 * 4)%nat.
Proof.
  unfold basic_authorization_header, form_encode_component. rewrite length_app, base64_length, !length_app, !form_serialize_length.
  change (List.length ##"Basic ") with 6%nat. change (List.length ##":") with 1%nat. do 3 f_equal. lia.
Qed.

(** The estimate bounds the header and is exact for credentials without spaces. *)
Lemma basic_authorization_estimate client_id secret n :
  basic_authorization_len client_id secret = Some n ->
  Z.of_nat (List.length (basic_authorization_header client_id secret)) <= n /\
  (spaces client_id = 0%nat -> spaces secret = 0%nat ->
   n = Z.of_nat (List.length (basic_authorization_header client_id secret))).
Proof.
  intros ->%basic_authorization_len_Some. rewrite basic_authorization_header_length, !form_encoded_len_spaces, Nat2Z.inj_add.
  change (Z.of_nat 6) with 6. split.
  - apply Z.add_le_mono_l, Nat2Z.inj_le, Nat.mul_le_mono_r, Nat.Div0.div_le_mono. lia.
  - intros -> ->. do 2 f_equal. f_equal. f_equal. lia.
Qed.

Lemma admitted_header_fits client_id secret :
  basic_authorization_is_within_limit client_id (ClientSecretBasic secret) = true ->
  (List.length (basic_authorization_header client_id secret) <= MAX_BASIC_AUTHORIZATION_BYTES)%nat.
Proof.
  unfold basic_authorization_is_within_limit. destruct (basic_authorization_len _ _) as [n|] eqn:HB; [|done].
  apply basic_authorization_estimate in HB as [HB _]. intros Hn%Z.leb_le. lia.
Qed.
End basic.

(** ** Configurations that can be built *)

Section built.
Context `{UrlApi}.

Inductive built_browser : OidcBrowserConfig -> Prop :=
| built_new issuer client_id redirect_uri jwks_url a c :
    browser_config_new issuer client_id redirect_uri jwks_url a = Ok c -> built_browser c
| built_scope scope c c' : built_browser c -> browser_with_scope scope c = Ok c' -> built_browser c'
| built_ttl ttl c c' : built_browser c -> 0 <= ttl -> with_transaction_ttl ttl c = Ok c' -> built_browser c'.

Record wf_browser (c : OidcBrowserConfig) : Prop := {
  wb_client : valid_client_id (bc_client_id c) = true;
  wb_issuer : is_valid_issuer_url (bc_issuer c) = true;
  wb_redirect : is_valid_https_url (bc_redirect_uri c) = true;
  wb_jwks : is_valid_https_url (bc_jwks_url c) = true;
  wb_credentials : basic_authorization_is_within_limit (bc_client_id c) (bc_authentication c) = true;
  wb_openid : ##"openid" ∈ bc_scopes c;
  wb_scopes : (size (bc_scopes c) <= MAX_SCOPES)%nat;
  wb_tokens : set_Forall (fun s => is_valid_oauth_scope_token s MAX_SCOPE_BYTES = true) (bc_scopes c);
  wb_ttl : exists n, bc_transaction_ttl c = from_secs n /\ 1 <= n <= 3600
}.

Lemma whole_seconds ttl :
  0 <= ttl -> as_secs ttl <> 0 -> subsec_nanos ttl = 0 -> ttl <= MAX_TRANSACTION_TTL ->
  exists n, ttl = from_secs n /\ 1 <= n <= 3600.
Proof.
  unfold as_secs, subsec_nanos, MAX_TRANSACTION_TTL, from_secs, from_hours. intros H0 H1 H2 H3.
  exists (ttl / 1000000000). pose proof (Z.div_mod ttl 1000000000). pose proof (Z.div_pos ttl 1000000000). lia.
Qed.

Lemma browser_new_wf issuer client_id redirect_uri jwks_url a c :
  browser_config_new issuer client_id redirect_uri jwks_url a = Ok c -> wf_browser c.
Proof.
  unfold browser_config_new. repeat (case_match; try done). intros [= <-]. bool_hyps.
  split; cbn; try done.
  - rewrite size_singleton. unfold MAX_SCOPES. lia.
  - intros s ->%elem_of_singleton. vm_compute. reflexivity.
  - exists 600. done.
Qed.

Lemma browser_scope_wf scope c c' : wf_browser c -> browser_with_scope scope c = Ok c' -> wf_browser c'.
Proof.
  unfold browser_with_scope. intros [H1 H2 H3 H4 H5 H6 H7 H8 H9].
  destruct (is_valid_oauth_scope_token scope MAX_SCOPE_BYTES) eqn:HS; [|done]. cbn [negb].
  destruct (_ && _) eqn:HC; [done|]. intros [= <-]. split; cbn; try done.
  - set_solver.
  - destruct (decide (scope ∈ bc_scopes c)) as [Hin|Hin].
    + by replace ({[scope]} ∪ bc_scopes c) with (bc_scopes c) by set_solver.
    + rewrite size_union by set_solver. rewrite size_singleton.
      rewrite (bool_decide_eq_false_2 _ Hin) in HC. cbn in HC. apply Nat.eqb_neq in HC. lia.
  - intros s [->%elem_of_singleton|Hs]%elem_of_union; [done | by apply H8].
Qed.

Lemma browser_ttl_wf ttl c c' : 0 <= ttl -> wf_browser c -> with_transaction_ttl ttl c = Ok c' -> wf_browser c'.
Proof.
  unfold with_transaction_ttl. intros H0 [H1 H2 H3 H4 H5 H6 H7 H8 H9]. repeat (case_match; try done). intros [= <-].
  bool_hyps. split; cbn; try done. by apply whole_seconds.
Qed.

(** Every browser client that can be configured talks to HTTPS endpoints only, asks for
    [openid] and at most 31 further scope tokens, keeps a login open for a whole number of
    seconds between one second and one hour, and its Basic header fits the limit. *)
Lemma built_browser_wf c : built_browser c -> wf_browser c.
Proof. induction 1; eauto using browser_new_wf, browser_scope_wf, browser_ttl_wf. Qed.
End built.

(** ** Models of the interfaces *)

Module OidcModel.
(** A URL without a query, and the pairs of the query. *)
Record url : Type := { m_text : str; m_pairs : option (list (str * str)) }.
Definition show_pairs (ps : list (str * str)) : str :=
  join ##"&" (map (fun '(k, v) => k ++ ##"=" ++ v) ps).
Definition show (u : url) : str :=
  m_text u ++ match m_pairs u with Some ps => ##"?" ++ show_pairs ps | None => [] end.
Definition parse (s : str) : option url :=
  if starts_with ##"https://" s && negb (contains_char "?" s) then Some {| m_text := s; m_pairs := None |} else None.
(** Host and path. *)
Definition parts (u : url) : str * str :=
  let rest := default [] (strip_prefix ##"https://" (m_text u)) in
  match split_once "/" rest with Some (h, p) => (h, "/"%char :: p) | None => (rest, ##"/") end.
Definition with_pairs (ps : option (list (str * str))) (u : url) : url := {| m_text := m_text u; m_pairs := ps |}.
Definition with_path (p : str) (u : url) : url :=
  {| m_text := ##"https://" ++ (parts u).1 ++ p; m_pairs := m_pairs u |}.

#[export] Instance urls : UrlApi := {|
  Url := url;
  url_parse := parse;
  url_as_str := show;
  url_scheme u := if starts_with ##"https://" (m_text u) then ##"https" else [];
  url_host u := Some (parts u).1;
  url_username u := [];
  url_password u := None;
  url_path u := (parts u).2;
  url_query u := option_map show_pairs (m_pairs u);
  url_fragment u := None;
  url_set_path := with_path;
  url_clear_query := with_pairs None;
  url_origin u := ##"https://" ++ (parts u).1;
  url_query_pairs u := default [] (m_pairs u);
  url_extend_pairs ps u := with_pairs (Some (default [] (m_pairs u) ++ ps)) u
|}.
#[export] Instance url_laws : UrlLaws.
Proof.
  split; try done. intros [text [ps|]] u'; cbn; unfold parse, show; cbn.
  - rewrite (proj2 (contains_char_true "?" _)) by set_solver. by rewrite andb_false_r.
  - rewrite app_nil_r. destruct (_ && _); [|done]. by intros [= <-].
Qed.

Definition form_byte (c : ascii) : str :=
  if form_unreserved c then [c]
  else if char_eqb c " " then ##"+"
  else ["%"%char; digit_char (code c / 16); digit_char (code c mod 16)].

Definition b64_char (n : Z) : ascii :=
  if n <? 26 then byte_of (65 + n) else if n <? 52 then byte_of (71 + n)
  else if n <? 62 then byte_of (n - 4) else if n =? 62 then "+"%char else "/"%char.
(** Three bytes as four characters. *)
Definition b64_group (a b c : Z) : str :=
  let n := a * 65536 + b * 256 + c in
  map b64_char [n / 262144; (n / 4096) mod 64; (n / 64) mod 64; n mod 64].
Fixpoint b64 (s : bytes) : str :=
  match s with
  | [] => []
  | [a] => take 2 (b64_group (code a) 0 0) ++ ##"=="
  | [a; b] => take 3 (b64_group (code a) (code b) 0) ++ ##"="
  | a :: b :: c :: rest => b64_group (code a) (code b) (code c) ++ b64 rest
  end.

(** The digest is the text itself: nothing here depends on it being one-way. *)
#[export] Instance encodings : EncodingApi := {|
  sha256 := id; base64_url := id; base64 := b64; form_serialize := flat_map form_byte
|}.
Lemma b64_length s : List.length (b64 s) = ((List.length s + 2) / 3 * 4)%nat.
Proof.
  induction s as [s IH] using (Nat.measure_induction _ List.length).
  destruct s as [|a [|b [|c rest]]]; [done..|]. change (b64 (a :: b :: c :: rest)) with (b64_group (code a) (code b) (code c) ++ b64 rest).
  rewrite length_app, IH by (simpl; lia). change (List.length (b64_group (code a) (code b) (code c))) with 4%nat.
  change (List.length (a :: b :: c :: rest)) with (3 + List.length rest)%nat.
  replace (3 + List.length rest + 2)%nat with (1 * 3 + (List.length rest + 2))%nat by lia.
  rewrite Nat.div_add_l by lia. lia.
Qed.
#[export] Instance encoding_laws : EncodingLaws.
Proof.
  split; [|apply b64_length]. induction s as [|c s IH]; [done|]. cbn [form_serialize encodings flat_map sum_list_with] in *.
  rewrite length_app, IH. f_equal. unfold form_byte, form_width. destruct (form_unreserved c); [done|].
  by destruct (char_eqb c " ").
Qed.

Definition issuer_url : url := {| m_text := ##"https://issuer.test/"; m_pairs := None |}.
Definition endpoint (path : str) : url := with_path path issuer_url.
Example discovery_url :
  url_as_str (discovery_document_url issuer_url) = ##"https://issuer.test/.well-known/openid-configuration".
Proof. vm_compute. reflexivity. Qed.
Example basic_header : basic_authorization_header ##"id" ##"s c" = ##"Basic aWQ6cytj".
Proof. vm_compute. reflexivity. Qed.

(** The estimate counts a space as three bytes although it is encoded as one: a secret whose
    header has 4018 of the 8192 bytes is refused. *)
Example spaces_overestimated :
  let secret := ##"s" ++ List.repeat " "%char 3000 in
  basic_authorization_is_within_limit ##"client" (ClientSecretBasic secret) = false /\
  List.length (basic_authorization_header ##"client" secret) = 4018%nat.
Proof. vm_compute. split; reflexivity. Qed.
End OidcModel.
