(* ===== verification/RedisStreams.v ===== *)
(** The Redis server as the job provider sees it: the commands it calls (class
    [RedisCommands]), their documented effect on streams, consumer groups, hashes
    and sorted sets (class [RedisCommandLaws], through the view [Redis]), scripts
    as sequences of commands, and a server that satisfies the laws.

    A command replies or fails; a failed command changes nothing. A script is a
    sequence of commands that nothing interleaves with and that stops at the first
    failure, keeping the effects of the commands before it. *)

From Stdlib Require Import ZArith Lia Bool Ascii.
From stdpp Require Import gmap sets sorting.
From S2P Require Import Prelude Strings.

Local Open Scope Z_scope.

(** ** What a server holds *)

Notation EntryId := bytes (only parsing).
Notation Fields := (list (bytes * bytes)).

Record StreamEntry : Type := { entry_id : EntryId; entry_fields : Fields }.

(** An entry of a group's pending list; [delivered_at] is in milliseconds. *)
Record PendingEntry : Type := {
  pending_id : EntryId;
  pending_consumer : str;
  times_delivered : Z;
  delivered_at : Z
}.

(** A consumer group: how many entries of the stream it has been given, and the
    ones not yet acknowledged, oldest first. *)
Record Group : Type := { delivered : nat; pel : list PendingEntry }.
Definition no_group : Group := {| delivered := 0; pel := [] |}.

Record Redis : Type := {
  clock : Z;
  streams : gmap str (list StreamEntry);
  groups : gmap (str * str) Group;
  hashes : gmap str (gmap bytes bytes);
  zsets : gmap str (gmap bytes Z)
}.

Definition entries (k : str) (v : Redis) : list StreamEntry := default [] (streams v !! k).
Definition group (k g : str) (v : Redis) : Group := default no_group (groups v !! (k, g)).
Definition hash (k : str) (v : Redis) : gmap bytes bytes := default ∅ (hashes v !! k).
Definition zset (k : str) (v : Redis) : gmap bytes Z := default ∅ (zsets v !! k).

(** The server's clock is in microseconds. *)
Definition clock_ms (v : Redis) : Z := clock v / 1000.

Definition set_entries (k : str) (l : list StreamEntry) (v : Redis) : Redis :=
  {| clock := clock v; streams := <[k := l]> (streams v); groups := groups v; hashes := hashes v;
     zsets := zsets v |}.
Definition set_group (k g : str) (x : Group) (v : Redis) : Redis :=
  {| clock := clock v; streams := streams v; groups := <[(k, g) := x]> (groups v);
     hashes := hashes v; zsets := zsets v |}.
Definition set_hash (k : str) (h : gmap bytes bytes) (v : Redis) : Redis :=
  {| clock := clock v; streams := streams v; groups := groups v; hashes := <[k := h]> (hashes v);
     zsets := zsets v |}.
Definition set_zset (k : str) (z : gmap bytes Z) (v : Redis) : Redis :=
  {| clock := clock v; streams := streams v; groups := groups v; hashes := hashes v;
     zsets := <[k := z]> (zsets v) |}.
Definition set_clock (t : Z) (v : Redis) : Redis :=
  {| clock := t; streams := streams v; groups := groups v; hashes := hashes v; zsets := zsets v |}.

(** ** What the commands do *)

Definition find_entry (i : EntryId) (l : list StreamEntry) : option StreamEntry :=
  List.find (fun e => str_eqb (entry_id e) i) l.

Definition waiting (k g : str) (v : Redis) : list StreamEntry :=
  drop (delivered (group k g v)) (entries k v).

Definition view_xadd (k : str) (i : EntryId) (fs : Fields) (v : Redis) : Redis :=
  set_entries k (entries k v ++ [{| entry_id := i; entry_fields := fs |}]) v.

Definition is_pending (i : EntryId) (p : PendingEntry) : bool := str_eqb (pending_id p) i.

Definition view_xack (k g : str) (i : EntryId) (v : Redis) : Redis :=
  match groups v !! (k, g) with
  | None => v
  | Some x =>
      set_group k g {| delivered := delivered x;
                       pel := List.filter (fun p => negb (is_pending i p)) (pel x) |} v
  end.

(** [XPENDING key group id id 1 consumer], the consumer optional. *)
Definition view_xpending (k g : str) (i : EntryId) (consumer : option str) (v : Redis) :
    list PendingEntry :=
  List.filter (fun p => is_pending i p &&
                 match consumer with None => true | Some c => str_eqb (pending_consumer p) c end)
    (pel (group k g v)).

(** [XREADGROUP GROUP group consumer COUNT count STREAMS key >]. *)
Definition fresh_pending (consumer : str) (now : Z) (e : StreamEntry) : PendingEntry :=
  {| pending_id := entry_id e; pending_consumer := consumer; times_delivered := 1;
     delivered_at := now |}.
Definition view_xreadgroup (k g consumer : str) (count : nat) (v : Redis) : Redis :=
  let given := take count (waiting k g v) in
  set_group k g {| delivered := delivered (group k g v) + List.length given;
                   pel := pel (group k g v) ++ map (fresh_pending consumer (clock_ms v)) given |} v.

(** [XAUTOCLAIM key group consumer min-idle 0-0 COUNT count]: at most [10 * count]
    pending entries are scanned and at most [count] are selected; a selected entry
    that the stream no longer has is dropped from the list instead of claimed. *)
Record AutoClaim : Type := {
  claimed : list StreamEntry;
  deleted_ids : list EntryId;
  invalid_entries : bool
}.
Definition idle (now min_idle : Z) (p : PendingEntry) : bool := min_idle <=? now - delivered_at p.
Definition claim_selected (min_idle : Z) (count : nat) (now : Z) (l : list PendingEntry) :
    list PendingEntry :=
  take count (List.filter (idle now min_idle) (take (10 * count) l)).
Definition reassign (consumer : str) (now : Z) (p : PendingEntry) : PendingEntry :=
  {| pending_id := pending_id p; pending_consumer := consumer;
     times_delivered := times_delivered p + 1; delivered_at := now |}.
Definition claim_one (consumer : str) (now : Z) (stream : list StreamEntry)
    (selected : list PendingEntry) (p : PendingEntry) : list PendingEntry :=
  if existsb (is_pending (pending_id p)) selected then
    if is_some (find_entry (pending_id p) stream) then [reassign consumer now p] else []
  else [p].
Definition view_claim_reply (k g : str) (min_idle : Z) (count : nat) (v : Redis) : AutoClaim :=
  let selected := claim_selected min_idle count (clock_ms v) (pel (group k g v)) in
  {| claimed := omap (fun p => find_entry (pending_id p) (entries k v)) selected;
     deleted_ids := pending_id <$>
       List.filter (fun p => negb (is_some (find_entry (pending_id p) (entries k v)))) selected;
     invalid_entries := false |}.
Definition view_xautoclaim (k g consumer : str) (min_idle : Z) (count : nat) (v : Redis) : Redis :=
  let selected := claim_selected min_idle count (clock_ms v) (pel (group k g v)) in
  set_group k g
    {| delivered := delivered (group k g v);
       pel := List.flat_map (claim_one consumer (clock_ms v) (entries k v) selected)
                (pel (group k g v)) |} v.

Definition view_hset (k f x : bytes) (v : Redis) : Redis := set_hash k (<[f := x]> (hash k v)) v.
Definition view_hdel (k f : bytes) (v : Redis) : Redis := set_hash k (delete f (hash k v)) v.
Definition view_zadd (k : str) (score : Z) (m : bytes) (v : Redis) : Redis :=
  set_zset k (<[m := score]> (zset k v)) v.
Definition view_zrem (k : str) (m : bytes) (v : Redis) : Redis :=
  set_zset k (delete m (zset k v)) v.

(** ** The commands *)

Inductive RedisError : Type := ErrorReply (text : str).

Class RedisCommands : Type := {
  Server : Type;
  time : Server -> result (Z * Z) RedisError;
  xadd : str -> Fields -> Server -> result EntryId RedisError * Server;
  xack : str -> str -> EntryId -> Server -> result Z RedisError * Server;
  xpending : str -> str -> EntryId -> option str -> Server -> result (list PendingEntry) RedisError;
  xreadgroup : str -> str -> str -> nat -> Server -> result (list StreamEntry) RedisError * Server;
  xautoclaim : str -> str -> str -> Z -> nat -> Server -> result AutoClaim RedisError * Server;
  xinfo_groups : str -> Server -> result (list str) RedisError;
  xinfo_stream : str -> Server -> result unit RedisError;
  hset : bytes -> bytes -> bytes -> Server -> result Z RedisError * Server;
  hget : bytes -> bytes -> Server -> result (option bytes) RedisError;
  hexists : bytes -> bytes -> Server -> result Z RedisError;
  hdel : bytes -> bytes -> Server -> result Z RedisError * Server;
  zadd : str -> Z -> bytes -> Server -> result Z RedisError * Server;
  zrangebyscore : str -> Z -> nat -> Server -> result (list bytes) RedisError;
  zrem : str -> bytes -> Server -> result Z RedisError * Server
}.

(** [changes view (r, s') s post]: the command failed and changed nothing, or it
    replied [a] and left the view [v'] with [post a v']. *)
Definition changes {S A} (view : S -> Redis) (out : result A RedisError * S) (s : S)
    (post : A -> Redis -> Prop) : Prop :=
  match out with
  | (Ok a, s') => post a (view s')
  | (Err _, s') => view s' = view s
  end.

Definition replies {A} (r : result A RedisError) (post : A -> Prop) : Prop :=
  forall a, r = Ok a -> post a.

Definition due_members (z : gmap bytes Z) (max : Z) : gmap bytes Z := filter (fun x => x.2 <= max) z.

Class RedisCommandLaws `{RedisCommands} : Type := {
  view : Server -> Redis;
  time_law s : replies (time s) (fun t =>
    t = (clock (view s) / 1000000, clock (view s) mod 1000000));
  xadd_law k fs s : changes view (xadd k fs s) s (fun i v =>
    find_entry i (entries k (view s)) = None /\ v = view_xadd k i fs (view s));
  xack_law k g i s : changes view (xack k g i s) s (fun n v =>
    n = (if existsb (is_pending i) (pel (group k g (view s))) then 1 else 0) /\
    v = view_xack k g i (view s));
  xpending_law k g i c s : replies (xpending k g i c s) (fun l =>
    l = take 1 (view_xpending k g i c (view s)));
  xreadgroup_law k g c n s : changes view (xreadgroup k g c n s) s (fun l v =>
    l = take n (waiting k g (view s)) /\ v = view_xreadgroup k g c n (view s));
  xautoclaim_law k g c m n s : changes view (xautoclaim k g c m n s) s (fun r v =>
    r = view_claim_reply k g m n (view s) /\ v = view_xautoclaim k g c m n (view s));
  xinfo_groups_law k s : replies (xinfo_groups k s) (fun l =>
    forall g, g ∈ l <-> is_Some (groups (view s) !! (k, g)));
  xinfo_stream_law k s : replies (xinfo_stream k s) (fun _ => is_Some (streams (view s) !! k));
  hset_law k f x s : changes view (hset k f x s) s (fun _ v => v = view_hset k f x (view s));
  hget_law k f s : replies (hget k f s) (fun x => x = hash k (view s) !! f);
  hexists_law k f s : replies (hexists k f s) (fun n =>
    n = if is_some (hash k (view s) !! f) then 1 else 0);
  hdel_law k f s : changes view (hdel k f s) s (fun _ v => v = view_hdel k f (view s));
  zadd_law k sc m s : changes view (zadd k sc m s) s (fun _ v => v = view_zadd k sc m (view s));
  zrangebyscore_law k max n s : replies (zrangebyscore k max n s) (fun l =>
    NoDup l /\ List.length l = Nat.min n (size (due_members (zset k (view s)) max)) /\
    forall m, m ∈ l -> is_Some (due_members (zset k (view s)) max !! m));
  zrem_law k m s : changes view (zrem k m s) s (fun _ v => v = view_zrem k m (view s))
}.

(** A server on which every command the provider sends is accepted: the keys have
    the types the provider uses and the consumer group exists. *)
Class RedisAccepts `{RedisCommandLaws} : Prop := {
  time_ok s : is_ok (time s) = true;
  xadd_ok k fs s : is_ok (xadd k fs s).1 = true;
  xack_ok k g i s : is_ok (xack k g i s).1 = true;
  xpending_ok k g i c s :
    is_Some (groups (view s) !! (k, g)) -> is_ok (xpending k g i c s) = true;
  xreadgroup_ok k g c n s :
    is_Some (groups (view s) !! (k, g)) -> is_ok (xreadgroup k g c n s).1 = true;
  xautoclaim_ok k g c m n s :
    is_Some (groups (view s) !! (k, g)) -> is_ok (xautoclaim k g c m n s).1 = true;
  hset_ok k f x s : is_ok (hset k f x s).1 = true;
  hget_ok k f s : is_ok (hget k f s) = true;
  hexists_ok k f s : is_ok (hexists k f s) = true;
  hdel_ok k f s : is_ok (hdel k f s).1 = true;
  zadd_ok k sc m s : is_ok (zadd k sc m s).1 = true;
  zrangebyscore_ok k max n s : is_ok (zrangebyscore k max n s) = true;
  zrem_ok k m s : is_ok (zrem k m s).1 = true
}.

(** Time passing on the server. *)
Class RedisClock `{RedisCommandLaws} : Type := {
  elapse : Z -> Server -> Server;
  elapse_law d s : view (elapse d s) = set_clock (clock (view s) + d) (view s)
}.

(** ** Scripts *)

Section scripts.
Context `{RedisCommands}.

Definition script (A : Type) : Type := Server -> result A RedisError * Server.

#[export] Instance script_ret : MRet script := fun A a s => (Ok a, s).
#[export] Instance script_bind : MBind script := fun A B f m s =>
  match m s with
  | (Ok a, s) => f a s
  | (Err e, s) => (Err e, s)
  end.

(** A command that only reads. *)
Definition query {A} (q : Server -> result A RedisError) : script A := fun s => (q s, s).

Definition error_reply {A} (text : str) : script A := fun s => (Err (ErrorReply text), s).

Fixpoint for_each {A} (l : list A) (f : A -> script unit) : script unit :=
  match l with
  | [] => mret tt
  | x :: l => f x ≫= fun _ => for_each l f
  end.
End scripts.

(** ** Reasoning about scripts

    [hoare P m Q E]: from a state with [P], [m] replies with [Q] or fails with [E]. *)

Section hoare.
Context `{RedisCommandLaws}.

Definition hoare {A} (P : Redis -> Prop) (m : script A) (Q : A -> Redis -> Prop)
    (E : Redis -> Prop) : Prop :=
  forall s, P (view s) ->
  match m s with
  | (Ok a, s') => Q a (view s')
  | (Err _, s') => E (view s')
  end.

Lemma hoare_ret {A} (P : Redis -> Prop) (a : A) (Q : A -> Redis -> Prop) E :
  (forall v, P v -> Q a v) -> hoare P (mret a) Q E.
Proof. intros HQ s HP. by apply HQ. Qed.

Lemma hoare_error {A} (P : Redis -> Prop) text (Q : A -> Redis -> Prop) E :
  (forall v, P v -> E v) -> hoare P (error_reply text) Q E.
Proof. intros HQ s HP. by apply HQ. Qed.

Lemma hoare_bind {A B} P (m : script A) R E (f : A -> script B) Q :
  hoare P m R E -> (forall a, hoare (R a) (f a) Q E) -> hoare P (m ≫= f) Q E.
Proof.
  intros Hm Hf s HP. specialize (Hm s HP). unfold mbind, script_bind.
  destruct (m s) as [[a|e] s1]; [by apply Hf | done].
Qed.

Lemma hoare_weaken {A} P P' (m : script A) (Q Q' : A -> Redis -> Prop) (E E' : Redis -> Prop) :
  hoare P' m Q' E' -> (forall v, P v -> P' v) -> (forall a v, Q' a v -> Q a v) ->
  (forall v, E' v -> E v) -> hoare P m Q E.
Proof.
  intros Hm HP HQ HE s Hs. specialize (Hm s (HP _ Hs)).
  destruct (m s) as [[a|e] s1]; [by apply HQ | by apply HE].
Qed.

(** A command that only reads: it fails in a state [E] allows, or its law holds. *)
Lemma hoare_query {A} (q : Server -> result A RedisError) (R : Redis -> A -> Prop) P
    (Q : A -> Redis -> Prop) E :
  (forall s, replies (q s) (R (view s))) ->
  (forall s, P (view s) -> is_ok (q s) = true \/ E (view s)) ->
  (forall a v, P v -> R v a -> Q a v) -> hoare P (query q) Q E.
Proof.
  intros HL HE HQ s HP. unfold query. specialize (HL s). specialize (HE s HP).
  destruct (q s) as [a|e]; [by apply HQ, HL | by destruct HE].
Qed.

Lemma hoare_command {A} (c : script A) (R : Redis -> A -> Redis -> Prop) P
    (Q : A -> Redis -> Prop) E :
  (forall s, changes view (c s) s (R (view s))) ->
  (forall s, P (view s) -> is_ok (c s).1 = true \/ E (view s)) ->
  (forall v a v', P v -> R v a v' -> Q a v') -> hoare P c Q E.
Proof.
  intros HL HE HQ s HP. specialize (HL s). specialize (HE s HP). unfold changes in HL.
  destruct (c s) as [[a|e] s1]; [by eapply HQ | destruct HE; [done | by rewrite HL]].
Qed.

(** The rule of each command: it may fail only where [E] allows it. *)
Lemma hoare_time P (Q : _ -> Redis -> Prop) E :
  (forall s, P (view s) -> is_ok (time s) = true \/ E (view s)) ->
  (forall v, P v -> Q (clock v / 1000000, clock v mod 1000000) v) -> hoare P (query time) Q E.
Proof.
  intros HE HQ. apply (hoare_query _ (fun v t => t = (clock v / 1000000, clock v mod 1000000)));
    [apply time_law | done | intros a v HP ->; by apply HQ].
Qed.
Lemma hoare_xpending k g i c P (Q : _ -> Redis -> Prop) E :
  (forall s, P (view s) -> is_ok (xpending k g i c s) = true \/ E (view s)) ->
  (forall v, P v -> Q (take 1 (view_xpending k g i c v)) v) -> hoare P (query (xpending k g i c)) Q E.
Proof.
  intros HE HQ. apply (hoare_query _ (fun v l => l = take 1 (view_xpending k g i c v)));
    [apply xpending_law | done | intros a v HP ->; by apply HQ].
Qed.
Lemma hoare_hget k f P (Q : _ -> Redis -> Prop) E :
  (forall s, P (view s) -> is_ok (hget k f s) = true \/ E (view s)) ->
  (forall v, P v -> Q (hash k v !! f) v) -> hoare P (query (hget k f)) Q E.
Proof.
  intros HE HQ. apply (hoare_query _ (fun v x => x = hash k v !! f));
    [apply hget_law | done | intros a v HP ->; by apply HQ].
Qed.
Lemma hoare_hexists k f P (Q : _ -> Redis -> Prop) E :
  (forall s, P (view s) -> is_ok (hexists k f s) = true \/ E (view s)) ->
  (forall v, P v -> Q (if is_some (hash k v !! f) then 1 else 0) v) ->
  hoare P (query (hexists k f)) Q E.
Proof.
  intros HE HQ. apply (hoare_query _ (fun v n => n = if is_some (hash k v !! f) then 1 else 0));
    [apply hexists_law | done | intros a v HP ->; by apply HQ].
Qed.
Lemma hoare_zrangebyscore k max n P (Q : _ -> Redis -> Prop) E :
  (forall s, P (view s) -> is_ok (zrangebyscore k max n s) = true \/ E (view s)) ->
  (forall v l, P v -> NoDup l -> List.length l = Nat.min n (size (due_members (zset k v) max)) ->
     (forall m, m ∈ l -> is_Some (due_members (zset k v) max !! m)) -> Q l v) ->
  hoare P (query (zrangebyscore k max n)) Q E.
Proof.
  intros HE HQ. eapply (hoare_query _ (fun v l => NoDup l /\
      List.length l = Nat.min n (size (due_members (zset k v) max)) /\
      forall m, m ∈ l -> is_Some (due_members (zset k v) max !! m)));
    [apply zrangebyscore_law | done | intros a v HP (? & ? & ?); by apply HQ].
Qed.
Lemma hoare_xadd k fs P (Q : _ -> Redis -> Prop) E :
  (forall s, P (view s) -> is_ok (xadd k fs s).1 = true \/ E (view s)) ->
  (forall v i, P v -> find_entry i (entries k v) = None -> Q i (view_xadd k i fs v)) ->
  hoare P (xadd k fs) Q E.
Proof.
  intros HE HQ. apply (hoare_command _ (fun v i v' =>
      find_entry i (entries k v) = None /\ v' = view_xadd k i fs v));
    [apply xadd_law | done | intros v i v' HP [? ->]; by apply HQ].
Qed.
Lemma hoare_xack k g i P (Q : _ -> Redis -> Prop) E :
  (forall s, P (view s) -> is_ok (xack k g i s).1 = true \/ E (view s)) ->
  (forall v, P v -> Q (if existsb (is_pending i) (pel (group k g v)) then 1 else 0) (view_xack k g i v)) ->
  hoare P (xack k g i) Q E.
Proof.
  intros HE HQ. apply (hoare_command _ (fun v n v' =>
      n = (if existsb (is_pending i) (pel (group k g v)) then 1 else 0) /\ v' = view_xack k g i v));
    [apply xack_law | done | intros v n v' HP [-> ->]; by apply HQ].
Qed.
Lemma hoare_xreadgroup k g c n P (Q : _ -> Redis -> Prop) E :
  (forall s, P (view s) -> is_ok (xreadgroup k g c n s).1 = true \/ E (view s)) ->
  (forall v, P v -> Q (take n (waiting k g v)) (view_xreadgroup k g c n v)) ->
  hoare P (xreadgroup k g c n) Q E.
Proof.
  intros HE HQ. apply (hoare_command _ (fun v l v' =>
      l = take n (waiting k g v) /\ v' = view_xreadgroup k g c n v));
    [apply xreadgroup_law | done | intros v l v' HP [-> ->]; by apply HQ].
Qed.
Lemma hoare_xautoclaim k g c m n P (Q : _ -> Redis -> Prop) E :
  (forall s, P (view s) -> is_ok (xautoclaim k g c m n s).1 = true \/ E (view s)) ->
  (forall v, P v -> Q (view_claim_reply k g m n v) (view_xautoclaim k g c m n v)) ->
  hoare P (xautoclaim k g c m n) Q E.
Proof.
  intros HE HQ. apply (hoare_command _ (fun v r v' =>
      r = view_claim_reply k g m n v /\ v' = view_xautoclaim k g c m n v));
    [apply xautoclaim_law | done | intros v r v' HP [-> ->]; by apply HQ].
Qed.
Lemma hoare_hset k f x P (Q : _ -> Redis -> Prop) E :
  (forall s, P (view s) -> is_ok (hset k f x s).1 = true \/ E (view s)) ->
  (forall v n, P v -> Q n (view_hset k f x v)) -> hoare P (hset k f x) Q E.
Proof.
  intros HE HQ. apply (hoare_command _ (fun v _ v' => v' = view_hset k f x v));
    [apply hset_law | done | intros v n v' HP ->; by apply HQ].
Qed.
Lemma hoare_hdel k f P (Q : _ -> Redis -> Prop) E :
  (forall s, P (view s) -> is_ok (hdel k f s).1 = true \/ E (view s)) ->
  (forall v n, P v -> Q n (view_hdel k f v)) -> hoare P (hdel k f) Q E.
Proof.
  intros HE HQ. apply (hoare_command _ (fun v _ v' => v' = view_hdel k f v));
    [apply hdel_law | done | intros v n v' HP ->; by apply HQ].
Qed.
Lemma hoare_zadd k sc m P (Q : _ -> Redis -> Prop) E :
  (forall s, P (view s) -> is_ok (zadd k sc m s).1 = true \/ E (view s)) ->
  (forall v n, P v -> Q n (view_zadd k sc m v)) -> hoare P (zadd k sc m) Q E.
Proof.
  intros HE HQ. apply (hoare_command _ (fun v _ v' => v' = view_zadd k sc m v));
    [apply zadd_law | done | intros v n v' HP ->; by apply HQ].
Qed.
Lemma hoare_zrem k m P (Q : _ -> Redis -> Prop) E :
  (forall s, P (view s) -> is_ok (zrem k m s).1 = true \/ E (view s)) ->
  (forall v n, P v -> Q n (view_zrem k m v)) -> hoare P (zrem k m) Q E.
Proof.
  intros HE HQ. apply (hoare_command _ (fun v _ v' => v' = view_zrem k m v));
    [apply zrem_law | done | intros v n v' HP ->; by apply HQ].
Qed.

Lemma hoare_for_each {A} (l : list A) (f : A -> script unit) (I : list A -> Redis -> Prop) E :
  (forall x l, hoare (I (x :: l)) (f x) (fun _ => I l) E) ->
  hoare (I l) (for_each l f) (fun _ => I []) E.
Proof.
  intros Hf. induction l as [|x l IH]; [by apply hoare_ret|].
  cbn [for_each]. eapply hoare_bind; [apply Hf | intros ?; apply IH].
Qed.

Lemma hoare_run {A} (m : script A) (Q : A -> Redis -> Prop) s :
  hoare (fun v => v = view s) m Q (fun _ => False) ->
  exists a s', m s = (Ok a, s') /\ Q a (view s').
Proof.
  intros HH. specialize (HH s eq_refl). destruct (m s) as [[a|e] s']; [by eauto | done].
Qed.
End hoare.

(** ** Lua values

    An integer reply becomes a number and a missing bulk reply [false]; only
    [false] and [nil] are false in a condition, and only strings and numbers may be
    command arguments. *)

Inductive LuaValue : Type := LuaFalse | LuaNumber (n : Z) | LuaString (s : bytes).
Definition truthy (v : LuaValue) : bool := match v with LuaFalse => false | _ => true end.
Definition lua_bulk (o : option bytes) : LuaValue :=
  match o with Some s => LuaString s | None => LuaFalse end.
Definition lua_argument (v : LuaValue) : option bytes :=
  match v with LuaString s => Some s | LuaNumber n => Some (to_dec n) | LuaFalse => None end.

(** Numbers are IEEE doubles: a non-negative integer is rounded to the nearest
    multiple of the unit in its last place, to even when halfway. *)
Definition to_double (z : Z) : Z :=
  let unit := 2 ^ Z.max 0 (Z.log2 z - 52) in
  let q := z / unit in
  let r := z mod unit in
  (if (2 * r <? unit) || ((2 * r =? unit) && Z.even q) then q else q + 1) * unit.

Lemma to_double_exact z : 0 <= z < 2 ^ 53 -> to_double z = z.
Proof.
  intros Hz. unfold to_double.
  assert (HL : Z.log2 z <= 52).
  { destruct (decide (z = 0)) as [->|]; [done|]. apply Z.lt_succ_r, Z.log2_lt_pow2; lia. }
  rewrite Z.max_l by lia. change (2 ^ 0) with 1. rewrite Z.div_1_r, Z.mod_1_r. simpl. lia.
Qed.

(** ** A server *)

Module RedisServer.

(** An identifier longer than every one in use. *)
Definition next_id (l : list StreamEntry) : EntryId :=
  repeat "1"%char (S (list_max (List.length ∘ entry_id <$> l))).

Definition by_score (a b : bytes * Z) : Prop := a.2 <= b.2.
#[export] Instance by_score_dec : RelDecision by_score.
Proof. intros a b. unfold by_score. apply _. Defined.

Definition with_group {A} (k g : str) (v : Redis) (ok : A) : result A RedisError :=
  if is_some (groups v !! (k, g)) then Ok ok else Err (ErrorReply ##"NOGROUP").
Definition on_group {A} (k g : str) (v v' : Redis) (ok : A) : result A RedisError * Redis :=
  if is_some (groups v !! (k, g)) then (Ok ok, v') else (Err (ErrorReply ##"NOGROUP"), v).

#[export] Instance redis_commands : RedisCommands := {
  Server := Redis;
  time v := Ok (clock v / 1000000, clock v mod 1000000);
  xadd k fs v := let i := next_id (entries k v) in (Ok i, view_xadd k i fs v);
  xack k g i v := (Ok (if existsb (is_pending i) (pel (group k g v)) then 1 else 0), view_xack k g i v);
  xpending k g i c v := with_group k g v (take 1 (view_xpending k g i c v));
  xreadgroup k g c n v := on_group k g v (view_xreadgroup k g c n v) (take n (waiting k g v));
  xautoclaim k g c m n v :=
    on_group k g v (view_xautoclaim k g c m n v) (view_claim_reply k g m n v);
  xinfo_groups k v :=
    Ok (omap (fun x => if str_eqb x.1.1 k then Some x.1.2 else None) (map_to_list (groups v)));
  xinfo_stream k v :=
    if is_some (streams v !! k) then Ok tt else Err (ErrorReply ##"ERR no such key");
  hset k f x v := (Ok (if is_some (hash k v !! f) then 0 else 1), view_hset k f x v);
  hget k f v := Ok (hash k v !! f);
  hexists k f v := Ok (if is_some (hash k v !! f) then 1 else 0);
  hdel k f v := (Ok (if is_some (hash k v !! f) then 1 else 0), view_hdel k f v);
  zadd k sc m v := (Ok (if is_some (zset k v !! m) then 0 else 1), view_zadd k sc m v);
  zrangebyscore k max n v :=
    Ok (take n (merge_sort by_score (map_to_list (due_members (zset k v) max))).*1);
  zrem k m v := (Ok (if is_some (zset k v !! m) then 1 else 0), view_zrem k m v)
}.

Lemma next_id_fresh l : find_entry (next_id l) l = None.
Proof.
  unfold find_entry. destruct (List.find _ l) as [e|] eqn:E; [|done].
  apply List.find_some in E as [Hin HE]. apply str_eqb_true in HE.
  assert (HL : (List.length (entry_id e) <= list_max (List.length ∘ entry_id <$> l))%nat).
  { pose proof (proj1 (list_max_le (List.length ∘ entry_id <$> l) _) (le_n _)) as HF.
    rewrite List.Forall_forall in HF. apply HF, List.in_map_iff. by exists e. }
  rewrite HE in HL. unfold next_id in HL. rewrite repeat_length in HL. lia.
Qed.

#[export] Instance redis_command_laws : RedisCommandLaws.
Proof.
  refine (Build_RedisCommandLaws redis_commands (fun s => s) _ _ _ _ _ _ _ _ _ _ _ _ _ _ _); simpl; unfold replies, with_group, on_group.
  - by intros s a [= <-].
  - intros k fs s. by split; [apply next_id_fresh|].
  - done.
  - intros k g i c s a. by destruct (is_some _); intros [= <-].
  - intros k g c n s. by destruct (is_some _).
  - intros k g c m n s. by destruct (is_some _).
  - intros k s a [= <-] g. rewrite list_elem_of_omap. split.
    + intros ([[k' g'] x] & Hin & HE). simpl in HE. destruct (str_eqb k' k) eqn:E; [|done].
      apply str_eqb_true in E as ->. injection HE as ->. apply elem_of_map_to_list in Hin. by eexists.
    + intros [x Hx]. exists ((k, g), x). split; [by apply elem_of_map_to_list|]. simpl.
      by rewrite (proj2 (str_eqb_true k k)).
  - intros k s a. destruct (streams s !! k); [by eexists|done].
  - done.
  - by intros k f s a [= <-].
  - by intros k f s a [= <-].
  - done.
  - done.
  - intros k max n s a [= <-]. set (D := due_members _ max).
    assert (HP : (merge_sort by_score (map_to_list D)).*1 ≡ₚ (map_to_list D).*1)
      by (apply fmap_Permutation, merge_sort_Permutation). split_and!.
    + eapply sublist_NoDup; [|apply sublist_take].
      rewrite HP. apply NoDup_fst_map_to_list.
    + rewrite length_take, HP, length_fmap. by rewrite length_map_to_list.
    + intros m Hm. apply elem_of_take in Hm as (i & Hm & _). apply list_elem_of_lookup_2 in Hm.
      rewrite HP in Hm. apply list_elem_of_fmap in Hm as ([m' sc] & -> & Hm).
      apply elem_of_map_to_list in Hm. by eexists.
  - done.
Defined.

#[export] Instance redis_accepts : RedisAccepts.
Proof.
  split; try done; simpl; unfold with_group, on_group.
  - by intros k g i c s [x ->].
  - by intros k g c n s [x ->].
  - by intros k g c m n s [x ->].
Qed.

#[export] Instance redis_clock : RedisClock.
Proof. refine (Build_RedisClock _ _ (fun d s => set_clock (clock s + d) s) _). done. Defined.
End RedisServer.
