(* ===== verification/RedisJobs.v ===== *)
(** The Redis Streams job provider, [crates/rustee-jobs-redis/src]: worker
    configuration, publisher, receiver, settlement scripts, delivery processing and
    the worker loop, on the server interface of [RedisStreams]. *)

From Stdlib Require Import ZArith Lia Bool Ascii.
From stdpp Require Import gmap sets.
From S2P Require Import Prelude Strings Json JobEnvelope Jobs RedisStreams.

Local Open Scope Z_scope.

(** ** Configuration: [config.rs] *)

Definition DEFAULT_BLOCK_TIMEOUT : Duration := from_millis 250.
Definition DEFAULT_OPERATION_TIMEOUT : Duration := 5 * 1000000000.
Definition DEFAULT_RECLAIM_INTERVAL : Duration := 1000000000.
Definition DEFAULT_RECLAIM_IDLE : Duration := 30 * 1000000000.
Definition DEFAULT_BATCH_SIZE : nat := 64.
Definition MAX_BATCH_SIZE : nat := 1000.
Definition RETRY_KEY_NAMESPACE : str := ##"rustee:jobs:retry:v1".

Inductive ConfigError : Type :=
| InvalidKey
| InvalidGroupOrConsumer
| DeadLetterMatchesSource
| ZeroDuration
| DurationOutOfRange
| OperationTimeoutNotLongerThanBlock
| InvalidBatchSize.

Record RedisStreamsWorkerConfig : Type := {
  stream : str;
  consumer_group : str;
  consumer : str;
  dead_letter_stream : str;
  retry_schedule_key : str;
  retry_payload_key : str;
  retry_attempt_key : str;
  block_timeout_ms : Z;
  operation_timeout : Duration;
  reclaim_interval : Duration;
  reclaim_idle_ms : Z;
  batch_size : nat
}.

(** [value.chars().any(char::is_whitespace)]. *)
Definition has_whitespace (s : str) : bool := existsb is_whitespace (chars s).

Definition validate_key (value : str) : result unit ConfigError :=
  if is_blank value || (512 <? List.length value)%nat || has_whitespace value
  then Err InvalidKey else Ok tt.

Definition validate_group_or_consumer (value : str) : result unit ConfigError :=
  if is_blank value || (255 <? List.length value)%nat || has_whitespace value
  then Err InvalidGroupOrConsumer else Ok tt.

Definition retry_key (s g record_kind : str) : str :=
  RETRY_KEY_NAMESPACE ++ ##":" ++ to_dec (Z.of_nat (List.length s)) ++ ##":" ++ s ++ ##":"
    ++ to_dec (Z.of_nat (List.length g)) ++ ##":" ++ g ++ ##":" ++ record_kind.

Definition validate_operation_timeout (t : Duration) : result unit ConfigError :=
  if t =? 0 then Err ZeroDuration else Ok tt.

(** [usize] is 64 bits wide. *)
Definition duration_to_millis (d : Duration) : result Z ConfigError :=
  if negb (subsec_nanos d mod 1000000 =? 0) then Err DurationOutOfRange
  else if as_millis d <=? u64_max then Ok (as_millis d) else Err DurationOutOfRange.

Definition nonzero_duration_to_millis (d : Duration) : result Z ConfigError :=
  if d =? 0 then Err ZeroDuration
  else let? milliseconds := duration_to_millis d in
       if milliseconds =? 0 then Err DurationOutOfRange else Ok milliseconds.

Definition config_new (s g c dlq : str) : result RedisStreamsWorkerConfig ConfigError :=
  let? _ := validate_key s in
  let? _ := validate_group_or_consumer g in
  let? _ := validate_group_or_consumer c in
  let? _ := validate_key dlq in
  if str_eqb s dlq then Err DeadLetterMatchesSource
  else
    let? block := nonzero_duration_to_millis DEFAULT_BLOCK_TIMEOUT in
    let? reclaim := nonzero_duration_to_millis DEFAULT_RECLAIM_IDLE in
    Ok {| retry_schedule_key := retry_key s g ##"schedule";
          retry_payload_key := retry_key s g ##"payload";
          retry_attempt_key := retry_key s g ##"attempt";
          stream := s; consumer_group := g; consumer := c; dead_letter_stream := dlq;
          block_timeout_ms := block;
          operation_timeout := DEFAULT_OPERATION_TIMEOUT;
          reclaim_interval := DEFAULT_RECLAIM_INTERVAL;
          reclaim_idle_ms := reclaim;
          batch_size := DEFAULT_BATCH_SIZE |}.

Definition set_timing (block : Z) (op interval : Duration) (reclaim : Z) (batch : nat)
    (c : RedisStreamsWorkerConfig) : RedisStreamsWorkerConfig :=
  {| stream := stream c; consumer_group := consumer_group c; consumer := consumer c;
     dead_letter_stream := dead_letter_stream c; retry_schedule_key := retry_schedule_key c;
     retry_payload_key := retry_payload_key c; retry_attempt_key := retry_attempt_key c;
     block_timeout_ms := block; operation_timeout := op; reclaim_interval := interval;
     reclaim_idle_ms := reclaim; batch_size := batch |}.

Definition config_validate_operation_timeout (c : RedisStreamsWorkerConfig) : result unit ConfigError :=
  let? _ := validate_operation_timeout (operation_timeout c) in
  if operation_timeout c <=? from_millis (block_timeout_ms c)
  then Err OperationTimeoutNotLongerThanBlock else Ok tt.

Definition with_block_timeout (t : Duration) (c : RedisStreamsWorkerConfig) :
    result RedisStreamsWorkerConfig ConfigError :=
  let? ms := nonzero_duration_to_millis t in
  let c := set_timing ms (operation_timeout c) (reclaim_interval c) (reclaim_idle_ms c) (batch_size c) c in
  let? _ := config_validate_operation_timeout c in Ok c.

Definition with_operation_timeout (t : Duration) (c : RedisStreamsWorkerConfig) :
    result RedisStreamsWorkerConfig ConfigError :=
  let? _ := validate_operation_timeout t in
  let c := set_timing (block_timeout_ms c) t (reclaim_interval c) (reclaim_idle_ms c) (batch_size c) c in
  let? _ := config_validate_operation_timeout c in Ok c.

Definition with_reclaim_interval (i : Duration) (c : RedisStreamsWorkerConfig) :
    result RedisStreamsWorkerConfig ConfigError :=
  if i =? 0 then Err ZeroDuration
  else Ok (set_timing (block_timeout_ms c) (operation_timeout c) i (reclaim_idle_ms c) (batch_size c) c).

Definition with_reclaim_idle (d : Duration) (c : RedisStreamsWorkerConfig) :
    result RedisStreamsWorkerConfig ConfigError :=
  let? ms := nonzero_duration_to_millis d in
  Ok (set_timing (block_timeout_ms c) (operation_timeout c) (reclaim_interval c) ms (batch_size c) c).

Definition with_batch_size (n : nat) (c : RedisStreamsWorkerConfig) :
    result RedisStreamsWorkerConfig ConfigError :=
  if negb ((1 <=? n)%nat && (n <=? MAX_BATCH_SIZE)%nat) then Err InvalidBatchSize
  else Ok (set_timing (block_timeout_ms c) (operation_timeout c) (reclaim_interval c) (reclaim_idle_ms c) n c).

(** ** Errors: [lib.rs] *)

Definition PAYLOAD_FIELD : bytes := ##"payload".
Definition ATTEMPT_FIELD : bytes := ##"attempt".

Inductive RedisStreamsError : Type :=
| PublishFailed
| Readiness
| ConsumerGroup
| Receive
| Reclaim
| ClaimedEntryMissing
| DeliveryMetadata
| DeliveryOwnershipLost
| AcknowledgeFailed
| RetrySchedule
| RetryPromotion
| RetryPolicyInvalid
| DeadLetterFailed
| WorkerTask
| DrainTimeout.

(** ** Settlement scripts: [worker/settlement.rs] *)

Section scripts_of_the_worker.
Context `{RedisCommands}.

Definition ack_if_owned_script (k g : str) (i : EntryId) (c : str) : script Z :=
  pending ← query (xpending k g i (Some c));
  if (List.length pending =? 0)%nat then mret 0
  else xack k g i.

(** [now[1] * 1000 + math.floor(now[2] / 1000)]. *)
Definition lua_now_ms (t : Z * Z) : Z := to_double (to_double (t.1 * 1000) + t.2 / 1000).

Definition schedule_retry_script (k schedule payloads attempts g : str) (i : EntryId) (c : str)
    (member : bytes) (delay : Z) (body attempt : bytes) : script Z :=
  pending ← query (xpending k g i (Some c));
  if (List.length pending =? 0)%nat then mret 0
  else
    now ← query time;
    let due := to_double (lua_now_ms now + to_double delay) in
    _ ← hset payloads member body;
    _ ← hset attempts member attempt;
    _ ← zadd schedule due member;
    xack k g i.

Definition dead_letter_if_owned_script (k dlq g : str) (i : EntryId) (c : str) (body attempt : bytes) :
    script Z :=
  pending ← query (xpending k g i (Some c));
  if (List.length pending =? 0)%nat then mret 0
  else
    _ ← xadd dlq [(PAYLOAD_FIELD, body); (ATTEMPT_FIELD, attempt); (##"source_entry_id", i)];
    xack k g i.

(** The conditions of the first loop are numbers, and every number is true. *)
Definition check_record (payloads attempts : str) (i : bytes) : script unit :=
  p ← query (hexists payloads i);
  incomplete ← (if negb (truthy (LuaNumber p)) then mret true
                else a ← query (hexists attempts i); mret (negb (truthy (LuaNumber a))));
  if incomplete : bool then error_reply ##"rustee retry record is incomplete" else mret tt.

(** [redis.call('XADD', ..., 'payload', payload, 'attempt', attempt)]. *)
Definition lua_xadd (k : str) (body attempt : LuaValue) : script EntryId :=
  match lua_argument body, lua_argument attempt with
  | Some b, Some a => xadd k [(PAYLOAD_FIELD, b); (ATTEMPT_FIELD, a)]
  | _, _ => error_reply ##"Lua redis lib command arguments must be strings or integers"
  end.

Definition promote_record (k schedule payloads attempts : str) (i : bytes) : script unit :=
  body ← query (hget payloads i);
  attempt ← query (hget attempts i);
  _ ← lua_xadd k (lua_bulk body) (lua_bulk attempt);
  _ ← hdel payloads i;
  _ ← hdel attempts i;
  _ ← zrem schedule i;
  mret tt.

Definition promote_due_retries_script (k schedule payloads attempts : str) (count : nat) : script Z :=
  now ← query time;
  let now_ms := lua_now_ms now in
  ids ← query (zrangebyscore schedule now_ms count);
  _ ← for_each ids (check_record payloads attempts);
  _ ← for_each ids (promote_record k schedule payloads attempts);
  mret (Z.of_nat (List.length ids)).

(** ** Commands over a connection: [operation.rs]

    A command reaches the server and its reply comes back in time; or it is never
    executed; or it is executed and the reply is lost, late or not decodable. *)

Inductive Link : Type := Delivered | RequestLost | ReplyLost.

Definition bounded {A} (l : Link) (command : script A) (s : Server) : result A unit * Server :=
  match l with
  | Delivered => let '(r, s) := command s in (map_err (fun _ => tt) r, s)
  | RequestLost => (Err tt, s)
  | ReplyLost => (Err tt, (command s).2)
  end.

(** ** Publisher: [publisher.rs] *)

Definition publisher_new (s : str) : result str ConfigError :=
  let? _ := validate_key s in Ok s.

Definition publisher_readiness (s : str) (l : Link) (db : Server) : result unit RedisStreamsError * Server :=
  let '(r, db) := bounded l (query (xinfo_stream s)) db in
  (map_err (fun _ => Readiness) r, db).

Definition publish (s : str) (m : JobMessage) (l : Link) (db : Server) :
    result unit RedisStreamsError * Server :=
  let '(r, db) := bounded l (xadd s [(PAYLOAD_FIELD, msg_payload m); (ATTEMPT_FIELD, to_dec (msg_attempt m))]) db in
  (let? _ := map_err (fun _ => PublishFailed) r in Ok tt, db).

(** ** Settlement: [worker/settlement.rs] *)

(** [settled == 1]. *)
Definition settled_one (e : RedisStreamsError) (r : result Z unit) : result unit RedisStreamsError :=
  let? settled := map_err (fun _ => e) r in
  if settled =? 1 then Ok tt else Err DeliveryOwnershipLost.

Context (w : RedisStreamsWorkerConfig).

Definition worker_acknowledge (i : EntryId) (l : Link) (db : Server) : result unit RedisStreamsError * Server :=
  let '(r, db) := bounded l (ack_if_owned_script (stream w) (consumer_group w) i (consumer w)) db in
  (settled_one AcknowledgeFailed r, db).

Definition schedule_retry (i : EntryId) (body : bytes) (next_attempt : Z) (delay : Duration)
    (l : Link) (db : Server) : result unit RedisStreamsError * Server :=
  match nonzero_duration_to_millis delay with
  | Err _ => (Err RetrySchedule, db)
  | Ok delay_ms =>
      let '(r, db) := bounded l
        (schedule_retry_script (stream w) (retry_schedule_key w) (retry_payload_key w)
           (retry_attempt_key w) (consumer_group w) i (consumer w) i delay_ms body
           (to_dec next_attempt)) db in
      (settled_one RetrySchedule r, db)
  end.

Definition worker_dead_letter (i : EntryId) (body : bytes) (attempt : Z) (l : Link) (db : Server) :
    result unit RedisStreamsError * Server :=
  let '(r, db) := bounded l
    (dead_letter_if_owned_script (stream w) (dead_letter_stream w) (consumer_group w) i (consumer w)
       body (to_dec attempt)) db in
  (settled_one DeadLetterFailed r, db).

Definition promote_due_retries (count : nat) (l : Link) (db : Server) :
    result unit RedisStreamsError * Server :=
  let '(r, db) := bounded l
    (promote_due_retries_script (stream w) (retry_schedule_key w) (retry_payload_key w)
       (retry_attempt_key w) count) db in
  (let? _ := map_err (fun _ => RetryPromotion) r in Ok tt, db).

(** ** Deliveries: [delivery.rs] *)

(** The worker a delivery is settled by is the [w] of the operations. *)
Record RedisStreamsDelivery : Type := {
  delivery_entry_id : EntryId;
  delivery_payload : bytes;
  delivery_attempt_number : option Z
}.

Definition delivery_attempt (d : RedisStreamsDelivery) : result Z RedisStreamsError :=
  ok_or (delivery_attempt_number d) DeliveryMetadata.

Definition acknowledge (d : RedisStreamsDelivery) : Link -> Server -> result unit RedisStreamsError * Server :=
  worker_acknowledge (delivery_entry_id d).
Definition retry_after (d : RedisStreamsDelivery) (next_attempt : Z) (delay : Duration) :
    Link -> Server -> result unit RedisStreamsError * Server :=
  schedule_retry (delivery_entry_id d) (delivery_payload d) next_attempt delay.
Definition dead_letter (d : RedisStreamsDelivery) : Link -> Server -> result unit RedisStreamsError * Server :=
  worker_dead_letter (delivery_entry_id d) (delivery_payload d) (default 1 (delivery_attempt_number d)).

(** [.await.map(|()| value)]. *)
Definition settled {A} (value : A) (out : result unit RedisStreamsError * Server) :
    result A RedisStreamsError * Server :=
  (let? _ := out.1 in Ok value, out.2).

Definition settle_action (d : RedisStreamsDelivery) (action : DeliveryAction) (l : Link) (db : Server) :
    result JobDeliveryOutcome RedisStreamsError * Server :=
  match action with
  | Acknowledge => settled Acknowledged (acknowledge d l db)
  | Retry next_attempt delay => settled Retried (retry_after d next_attempt delay l db)
  | DeadLetter => settled DeadLettered (dead_letter d l db)
  end.

Definition with_outcome (attempt : Z) (out : result JobDeliveryOutcome RedisStreamsError * Server) :
    result (Z * JobDeliveryOutcome) RedisStreamsError * Server :=
  (let? o := out.1 in Ok (attempt, o), out.2).

(** What a worker does with a delivery: it may run a handler, on the state of the
    application, and then it settles. *)
Definition Process (St : Type) : Type :=
  RedisStreamsDelivery -> RetryPolicy -> Link -> St -> Server ->
  result (Z * JobDeliveryOutcome) RedisStreamsError * (St * Server).

Definition returning {St A} (st : St) (out : A * Server) : A * (St * Server) := (out.1, (st, out.2)).

Definition process_delivery {St J E} `{!Job J} (from_slice_typed : bytes -> option (JobEnvelope J))
    (handler : JobHandler St J E) : Process St := fun d retry_policy l st db =>
  match delivery_attempt d with
  | Err _ => returning st (settled (1, DeadLettered) (dead_letter d l db))
  | Ok attempt =>
      match decode from_slice_typed (delivery_payload d) with
      | Err _ => returning st (settled (attempt, DeadLettered) (dead_letter d l db))
      | Ok envelope =>
          match with_attempt attempt envelope with
          | Err _ => (Err DeliveryMetadata, (st, db))
          | Ok envelope =>
              let '(r, st) := dispatch_job envelope handler st in
              let action := match r with
                            | Ok action => action
                            | Err _ => after_failure retry_policy attempt
                            end in
              returning st (with_outcome attempt (settle_action d action l db))
          end
      end
  end.

Definition process_registry_delivery {St} (from_slice_identity : bytes -> option str)
    (registry : JobRegistry St) : Process St := fun d retry_policy l st db =>
  match delivery_attempt d with
  | Err _ => returning st (settled (1, DeadLettered) (dead_letter d l db))
  | Ok attempt =>
      let '(r, st) := registry_dispatch from_slice_identity registry (delivery_payload d) attempt st in
      let action := match r with
                    | Ok action => action
                    | Err (HandlerFailed _ _) => after_failure retry_policy attempt
                    | Err _ => DeadLetter
                    end in
      returning st (with_outcome attempt (settle_action d action l db))
  end.

(** ** Receiver: [worker/receiver.rs] *)

(** [StreamId::get]: the fields as a map, the last value of a field winning. *)
Definition entry_get (e : StreamEntry) (f : bytes) : option bytes :=
  (list_to_map (rev (entry_fields e)) : gmap bytes bytes) !! f.

Definition delivery_from_entry (e : StreamEntry) (pending_deliveries : option Z) : RedisStreamsDelivery :=
  let body := default [] (entry_get e PAYLOAD_FIELD) in
  let attempt :=
    base_attempt ← (entry_get e ATTEMPT_FIELD ≫= parse_unsigned u16_max);
    match pending_deliveries with
    | Some deliveries =>
        redeliveries ← (if 1 <=? deliveries then Some (deliveries - 1) else None);
        redeliveries ← (if redeliveries <=? u16_max then Some redeliveries else None);
        checked_add u16_max base_attempt redeliveries
    | None => Some base_attempt
    end in
  {| delivery_entry_id := entry_id e; delivery_payload := body;
     delivery_attempt_number :=
       match attempt with Some a => if 0 <? a then Some a else None | None => None end |}.

Definition read_new (capacity : nat) (l : Link) (db : Server) :
    result (list RedisStreamsDelivery) RedisStreamsError * Server :=
  let count := Nat.min capacity (batch_size w) in
  let '(reply, db) := bounded l (xreadgroup (stream w) (consumer_group w) (consumer w) count) db in
  (let? entries := map_err (fun _ => Receive) reply in
   Ok (map (fun e => delivery_from_entry e None) entries), db).

Definition pending_delivery_count (i : EntryId) (l : Link) (db : Server) :
    result Z RedisStreamsError * Server :=
  let '(pending, db) := bounded l (query (xpending (stream w) (consumer_group w) i None)) db in
  (let? ids := map_err (fun _ => Reclaim) pending in
   ok_or (times_delivered <$> head ids) DeliveryMetadata, db).

(** The loop over the claimed entries; [links] gives the fate of each count query. *)
Fixpoint reclaim_deliveries (links : EntryId -> Link) (claimed : list StreamEntry) (db : Server) :
    result (list RedisStreamsDelivery) RedisStreamsError * Server :=
  match claimed with
  | [] => (Ok [], db)
  | e :: rest =>
      let '(count, db) := pending_delivery_count (entry_id e) (links (entry_id e)) db in
      match count with
      | Err x => (Err x, db)
      | Ok delivery_count =>
          let '(deliveries, db) := reclaim_deliveries links rest db in
          (let? ds := deliveries in Ok (delivery_from_entry e (Some delivery_count) :: ds), db)
      end
  end.

Definition reclaim_pending (count : nat) (l : Link) (links : EntryId -> Link) (db : Server) :
    result (list RedisStreamsDelivery) RedisStreamsError * Server :=
  let '(response, db) := bounded l
    (xautoclaim (stream w) (consumer_group w) (consumer w) (reclaim_idle_ms w) count) db in
  match map_err (fun _ => Reclaim) response with
  | Err x => (Err x, db)
  | Ok response =>
      if negb (match deleted_ids response with [] => true | _ => false end) || invalid_entries response
      then (Err ClaimedEntryMissing, db)
      else reclaim_deliveries links (claimed response) db
  end.

(** ** Worker: [worker.rs], [worker/runner.rs] *)

Definition readiness (l l' : Link) (db : Server) : result unit RedisStreamsError * Server :=
  let '(r, db) := bounded l (query (xinfo_groups (stream w))) db in
  match map_err (fun _ => Readiness) r with
  | Err e => (Err e, db)
  | Ok found =>
      if negb (existsb (str_eqb (consumer_group w)) found) then (Err ConsumerGroup, db)
      else let '(r, db) := bounded l' (query (xinfo_stream (dead_letter_stream w))) db in
           (map_err (fun _ => Readiness) r, db)
  end.

Record WorkerConfig : Type := { concurrency : nat; drain_timeout : Duration }.
Definition worker_config_default : WorkerConfig := {| concurrency := 8; drain_timeout := 30 * 1000000000 |}.

Definition validate_retry_policy (p : RetryPolicy) : result unit RedisStreamsError :=
  if retry_is_valid p && is_ok (nonzero_duration_to_millis (initial_backoff p))
     && is_ok (nonzero_duration_to_millis (max_backoff p))
  then Ok tt else Err RetryPolicyInvalid.

(** A worker between two iterations of its loop: the spawned tasks still running,
    each with its observation, the application, the server and what the observer was
    told. *)
Record Run (St : Type) : Type := {
  tasks : list (RedisStreamsDelivery * JobDeliveryObservation);
  app : St;
  server : Server;
  observed : list ObserverEvent
}.
Arguments tasks {St}. Arguments app {St}. Arguments server {St}. Arguments observed {St}.

(** How a task ends: it runs to its end, the fate of its settlement given, or it
    panics before settling. *)
Inductive TaskEnd : Type := Completes (l : Link) | Panics.

(** The branches of the [select!], with what they depend on. *)
Inductive Event : Type :=
| ShutdownRequested
| TaskJoined (i : nat) (how : TaskEnd)
| MaintenanceTick (promote claim : Link) (counts : EntryId -> Link)
| ReadCompleted (l : Link).

Section loop.
Context {St : Type} (process : Process St) (wc : WorkerConfig) (retry_policy : RetryPolicy).

Definition record_event (e : ObserverEvent) (log : list ObserverEvent) : option (list ObserverEvent) :=
  Some (log ++ [e]).

(** [spawn_delivery_task] for every delivery: the task starts observing. *)
Fixpoint spawn_delivery_tasks (now : Z) (ds : list RedisStreamsDelivery) (r : Run St) : Run St :=
  match ds with
  | [] => r
  | d :: ds =>
      let '(o, log) := observation_start record_event ##"redis_streams" now (observed r) in
      spawn_delivery_tasks now ds
        {| tasks := tasks r ++ [(d, o)]; app := app r; server := server r; observed := log |}
  end.

(** The rest of the task of [spawn_delivery_task]. *)
Definition run_task (t : RedisStreamsDelivery * JobDeliveryObservation) (how : TaskEnd) (now : Z)
    (r : Run St) : result unit RedisStreamsError * Run St :=
  match how with
  | Panics =>
      (Err WorkerTask, {| tasks := tasks r; app := app r; server := server r;
                          observed := observation_drop record_event t.2 now (observed r) |})
  | Completes l =>
      let '(out, (st, db)) := process t.1 retry_policy l (app r) (server r) in
      match out with
      | Ok (attempt, outcome) =>
          (Ok tt, {| tasks := tasks r; app := st; server := db;
                     observed := observation_finish record_event t.2
                       (if attempt =? 0 then None else Some attempt) outcome now (observed r) |})
      | Err e =>
          (Err e, {| tasks := tasks r; app := st; server := db;
                     observed := observation_finish record_event t.2 None Unsettled now (observed r) |})
      end
  end.

(** Aborting or dropping the tasks drops their observations. *)
Definition abort_all (now : Z) (r : Run St) : Run St :=
  {| tasks := []; app := app r; server := server r;
     observed := fold_left (fun log t => observation_drop record_event t.2 now log) (tasks r) (observed r) |}.

Definition on_server (db : Server) (r : Run St) : Run St :=
  {| tasks := tasks r; app := app r; server := db; observed := observed r |}.
Definition without_task (i : nat) (r : Run St) : Run St :=
  {| tasks := delete i (tasks r); app := app r; server := server r; observed := observed r |}.

(** Why the loop is left: by [break], after which active tasks are drained, or by
    [?], which returns at once. *)
Inductive Exit : Type :=
| Break (r : result unit RedisStreamsError)
| Return (e : RedisStreamsError).

(** One iteration: [None] when the branch is not enabled. *)
Definition iteration (now : Z) (ev : Event) (r : Run St) : option (option Exit * Run St) :=
  let available := (concurrency wc - List.length (tasks r))%nat in
  match ev with
  | ShutdownRequested => Some (Some (Break (Ok tt)), r)
  | TaskJoined i how =>
      match tasks r !! i with
      | None => None
      | Some t =>
          let '(out, r) := run_task t how now (without_task i r) in
          Some (match out with Ok _ => None | Err e => Some (Break (Err e)) end, r)
      end
  | MaintenanceTick promote claim counts =>
      if (0 <? available)%nat then
        let '(out, db) := promote_due_retries (Nat.min available (batch_size w)) promote (server r) in
        match out with
        | Err e => Some (Some (Return e), on_server db r)
        | Ok _ =>
            let '(out, db) := reclaim_pending (Nat.min available (batch_size w)) claim counts db in
            match out with
            | Err e => Some (Some (Return e), on_server db r)
            | Ok deliveries => Some (None, spawn_delivery_tasks now deliveries (on_server db r))
            end
        end
      else None
  | ReadCompleted l =>
      if (0 <? available)%nat then
        let '(out, db) := read_new available l (server r) in
        match out with
        | Err e => Some (Some (Return e), on_server db r)
        | Ok deliveries => Some (None, spawn_delivery_tasks now deliveries (on_server db r))
        end
      else None
  end.

(** [drain_tasks] over the tasks that end before the deadline; the ones left then
    are aborted. *)
Fixpoint drain_tasks (ends : list (Z * nat * TaskEnd)) (deadline : Z) (r : Run St) :
    result unit RedisStreamsError * Run St :=
  match tasks r with
  | [] => (Ok tt, r)
  | _ =>
      match ends with
      | [] => (Err DrainTimeout, abort_all deadline r)
      | (now, i, how) :: ends =>
          match tasks r !! i with
          | None => drain_tasks ends deadline r
          | Some t =>
              let '(out, r) := run_task t how now (without_task i r) in
              match out with
              | Err e => (Err e, r)
              | Ok _ => drain_tasks ends deadline r
              end
          end
      end
  end.

(** The loop over a finite prefix of events: [None] when it is still running. *)
Fixpoint run_loop (evs : list (Z * Event)) (r : Run St) : option Exit * Run St :=
  match evs with
  | [] => (None, r)
  | (now, ev) :: evs =>
      match iteration now ev r with
      | None => run_loop evs r
      | Some (None, r) => run_loop evs r
      | Some (Some x, r) => (Some x, r)
      end
  end.

(** The tasks left when it returns, at [finish], are dropped with the [JoinSet]. *)
Definition run_with (ready ready' : Link) (evs : list (Z * Event)) (ends : list (Z * nat * TaskEnd))
    (deadline finish : Z) (st : St) (db : Server) :
    option (result unit RedisStreamsError) * Run St :=
  let start := fun db => {| tasks := []; app := st; server := db; observed := [] |} in
  match validate_retry_policy retry_policy with
  | Err e => (Some (Err e), start db)
  | Ok _ =>
      let '(out, db) := readiness ready ready' db in
      match out with
      | Err e => (Some (Err e), start db)
      | Ok _ =>
          match run_loop evs (start db) with
          | (None, r) => (None, r)
          | (Some (Return e), r) => (Some (Err e), abort_all finish r)
          | (Some (Break run_result), r) =>
              let '(drain_result, r) := drain_tasks ends deadline r in
              (Some (let? _ := run_result in drain_result), abort_all finish r)
          end
      end
  end.
End loop.
End scripts_of_the_worker.
Arguments tasks {_ St}. Arguments app {_ St}. Arguments server {_ St}. Arguments observed {_ St}.

(** ** Lemmas: configuration *)

Lemma retry_key_inj s g r s' g' r' :
  retry_key s g r = retry_key s' g' r' -> s = s' /\ g = g' /\ r = r'.
Proof.
  unfold retry_key. intros HE. apply app_inv_head, app_inv_head in HE.
  destruct (length_delimited_inj s s' _ _ HE) as [-> HE']. apply app_inv_head in HE'.
  destruct (length_delimited_inj g g' _ _ HE') as [-> HR]. by apply app_inv_head in HR.
Qed.

Lemma retry_key_longer s g r : (List.length s < List.length (retry_key s g r))%nat.
Proof. unfold retry_key. rewrite !length_app. simpl. lia. Qed.

(** A configuration that [config_new] and the setters can produce. *)
Record config_wf (w : RedisStreamsWorkerConfig) : Prop := {
  wf_schedule : retry_schedule_key w = retry_key (stream w) (consumer_group w) ##"schedule";
  wf_payload : retry_payload_key w = retry_key (stream w) (consumer_group w) ##"payload";
  wf_attempt : retry_attempt_key w = retry_key (stream w) (consumer_group w) ##"attempt";
  wf_dlq : stream w <> dead_letter_stream w;
  wf_block : 1 <= block_timeout_ms w <= u64_max;
  wf_deadline : from_millis (block_timeout_ms w) < operation_timeout w;
  wf_interval : reclaim_interval w <> 0;
  wf_reclaim : 1 <= reclaim_idle_ms w <= u64_max;
  wf_batch : (1 <= batch_size w <= MAX_BATCH_SIZE)%nat
}.

Lemma nonzero_duration_to_millis_Ok d ms :
  0 <= d -> nonzero_duration_to_millis d = Ok ms <->
  d = from_millis ms /\ 1 <= ms <= u64_max.
Proof.
  intros Hd. unfold nonzero_duration_to_millis, duration_to_millis, subsec_nanos, as_millis, from_millis.
  assert (HM : (d mod 1000000000) mod 1000000 = d mod 1000000).
  { rewrite <- (Z.mod_mod_divide d 1000000000 1000000); [done | by exists 1000]. }
  rewrite HM. pose proof (Z.div_mod d 1000000 ltac:(lia)) as HD.
  pose proof (Z.mod_pos_bound d 1000000 ltac:(lia)) as HB. split.
  - intros HE. destruct (Z.eqb_spec d 0); [done|].
    destruct (Z.eqb_spec (d mod 1000000) 0); [|done]. cbn [negb] in HE.
    destruct (Z.leb_spec (d / 1000000) u64_max); [|done].
    destruct (Z.eqb_spec (d / 1000000) 0); [done|]. injection HE as <-. lia.
  - intros [-> Hms]. rewrite (proj2 (Z.eqb_neq _ _)) by lia.
    rewrite Z.mod_mul, Z.div_mul by lia. cbn [negb Z.eqb].
    rewrite (proj2 (Z.leb_le _ _)), (proj2 (Z.eqb_neq _ _)) by lia. done.
Qed.

(** The delays of a validated policy are whole, representable milliseconds, so a
    retry is never refused for its delay. *)
Lemma validated_delay p a n d :
  policy_in_range p -> validate_retry_policy p = Ok tt -> 1 <= a ->
  after_failure p a = Retry n d ->
  a < max_deliveries p /\ n = a + 1 /\
  exists ms, nonzero_duration_to_millis d = Ok ms /\ 1 <= ms /\ from_millis ms <= max_backoff p.
Proof.
  intros Hr HV Ha HA. unfold validate_retry_policy in HV.
  destruct (retry_is_valid p) eqn:Hv; [|done].
  destruct (Z_lt_dec a (max_deliveries p)) as [Hlt|]; [|by rewrite after_failure_dead in HA by lia].
  rewrite after_failure_retry in HA by (done || lia). injection HA as <- <-. split_and!; [done..|].
  destruct Hr as (_ & Hi & Hm).
  destruct (nonzero_duration_to_millis (initial_backoff p)) as [mi|] eqn:EI; [|done].
  destruct (nonzero_duration_to_millis (max_backoff p)) as [mm|] eqn:EM; [|done].
  apply nonzero_duration_to_millis_Ok in EI as [EI Bi]; [|lia].
  apply nonzero_duration_to_millis_Ok in EM as [EM Bm]; [|lia].
  unfold backoff. rewrite EI, EM. unfold from_millis.
  assert (H1 : 1 <= 2 ^ (a - 1)) by (apply (Z.pow_le_mono_r 2 0); lia).
  exists (Z.min (mi * Z.min (2 ^ (a - 1)) u32_max) mm).
  assert (1 <= Z.min (2 ^ (a - 1)) u32_max) by (unfold u32_max; lia).
  split_and!; [|nia|nia].
  apply nonzero_duration_to_millis_Ok; [nia|]. split; [|nia]. unfold from_millis. nia.
Qed.

(** The configurations an application can build. *)
Inductive configured : RedisStreamsWorkerConfig -> Prop :=
| configured_new s g c dlq w : config_new s g c dlq = Ok w -> configured w
| configured_block w t w' :
    configured w -> 0 <= t <= duration_max -> with_block_timeout t w = Ok w' -> configured w'
| configured_operation w t w' :
    configured w -> 0 <= t <= duration_max -> with_operation_timeout t w = Ok w' -> configured w'
| configured_interval w t w' :
    configured w -> 0 <= t <= duration_max -> with_reclaim_interval t w = Ok w' -> configured w'
| configured_idle w t w' :
    configured w -> 0 <= t <= duration_max -> with_reclaim_idle t w = Ok w' -> configured w'
| configured_batch w n w' : configured w -> with_batch_size n w = Ok w' -> configured w'.

Lemma config_new_wf s g c dlq w : config_new s g c dlq = Ok w -> config_wf w.
Proof.
  unfold config_new. destruct (validate_key s); [|done].
  destruct (validate_group_or_consumer g); [|done]. destruct (validate_group_or_consumer c); [|done].
  destruct (validate_key dlq); [|done]. destruct (str_eqb s dlq) eqn:E; [done|].
  intros [= <-]. split; try done; cbn; unfold u64_max, MAX_BATCH_SIZE, DEFAULT_BATCH_SIZE; try lia.
  intros ->. by rewrite (proj2 (str_eqb_true dlq dlq)) in E.
Qed.

Lemma validated_timeout w :
  config_validate_operation_timeout w = Ok tt -> from_millis (block_timeout_ms w) < operation_timeout w.
Proof.
  unfold config_validate_operation_timeout. destruct (validate_operation_timeout _); [|done].
  destruct (Z.leb_spec (operation_timeout w) (from_millis (block_timeout_ms w))); done.
Qed.

Ltac config_setter :=
  match goal with
  | |- context [nonzero_duration_to_millis ?t] =>
      destruct (nonzero_duration_to_millis t) eqn:?; [|done]
  | |- context [config_validate_operation_timeout ?w] =>
      destruct (config_validate_operation_timeout w) as [[]|] eqn:?; [|done]
  | |- context [validate_operation_timeout ?t] => destruct (validate_operation_timeout t); [|done]
  | |- (if ?b then _ else _) = _ -> _ => destruct b eqn:?; [done|]
  end.

Lemma configured_wf w : configured w -> config_wf w.
Proof.
  induction 1 as [s g c dlq w E | w t w' _ IH Ht E | w t w' _ IH Ht E | w t w' _ IH Ht E
    | w t w' _ IH Ht E | w n w' _ IH E]; [by apply config_new_wf in E|..]; revert E;
    [unfold with_block_timeout | unfold with_operation_timeout | unfold with_reclaim_interval
    | unfold with_reclaim_idle | unfold with_batch_size]; repeat config_setter; intros [= <-];
    destruct IH as [H1 H2 H3 H4 H5 H6 H7 H8 H9];
    repeat match goal with
    | H : nonzero_duration_to_millis _ = Ok _ |- _ =>
        apply nonzero_duration_to_millis_Ok in H as [? ?]; [|lia]
    | H : config_validate_operation_timeout _ = Ok _ |- _ => apply validated_timeout in H
    end; bool_hyps; split; try done; cbn; try lia; by apply andb_true_iff in Heqb as [?%Nat.leb_le ?%Nat.leb_le].
Qed.

(** ** Properties: configuration *)

(** Worker configurations are well formed and routes do not share retry storage.
    Every configuration that construction and the setters admit has a dead-letter
    stream other than its source, a command deadline longer than its blocking read,
    positive representable timings and a batch of 1 to 1000 records; its three retry
    keys differ from one another and from its stream; and two configurations that
    have any retry key in common consume the same stream as the same group. *)
Theorem worker_configuration_sound w w' :
  configured w -> configured w' ->
  config_wf w /\
  NoDup [stream w; retry_schedule_key w; retry_payload_key w; retry_attempt_key w] /\
  (forall k, k ∈ [retry_schedule_key w; retry_payload_key w; retry_attempt_key w] ->
     k ∈ [retry_schedule_key w'; retry_payload_key w'; retry_attempt_key w'] ->
     stream w = stream w' /\ consumer_group w = consumer_group w').
Proof.
  intros HW HW'. apply configured_wf in HW as Hw. apply configured_wf in HW' as Hw'. split; [done|].
  destruct Hw as [-> -> -> _ _ _ _ _ _]. destruct Hw' as [-> -> -> _ _ _ _ _ _]. split.
  - assert (HL : forall r, stream w <> retry_key (stream w) (consumer_group w) r).
    { intros r HE. pose proof (retry_key_longer (stream w) (consumer_group w) r) as HL.
      rewrite <- HE in HL. lia. }
    assert (HK : forall r r', r <> r' -> retry_key (stream w) (consumer_group w) r <>
                              retry_key (stream w) (consumer_group w) r').
    { intros r r' Hr HE. by apply retry_key_inj in HE as (_ & _ & ?). }
    rewrite !NoDup_cons, !not_elem_of_cons. split_and!; try apply HL; try apply HK; try done;
      try apply not_elem_of_nil. apply NoDup_nil_2.
  - intros k. rewrite !elem_of_cons, !elem_of_nil.
    intros [->|[->|[->|[]]]] [HE|[HE|[HE|[]]]]; by apply retry_key_inj in HE as (? & ? & ?).
Qed.

(** ** Lemmas: the worker loop *)

Definition is_start (e : ObserverEvent) : bool :=
  match e with JobDeliveryStarted _ => true | _ => false end.
Definition starts (log : list ObserverEvent) : nat := List.length (List.filter is_start log).
Definition finishes (log : list ObserverEvent) : nat :=
  List.length (List.filter (fun e => negb (is_start e)) log).

Lemma starts_snoc log e : starts (log ++ [e]) = (starts log + if is_start e then 1 else 0)%nat.
Proof. unfold starts. rewrite List.filter_app, length_app. simpl. by destruct (is_start e). Qed.
Lemma finishes_snoc log e : finishes (log ++ [e]) = (finishes log + if is_start e then 0 else 1)%nat.
Proof. unfold finishes. rewrite List.filter_app, length_app. simpl. by destruct (is_start e). Qed.
#[local] Hint Rewrite starts_snoc finishes_snoc @length_app : accounting.

Section accounting.
Context `{RedisCommandLaws} (w : RedisStreamsWorkerConfig).
Context {St : Type} (process : @Process _ St) (wc : WorkerConfig) (p : RetryPolicy).

(** Every running task is observed and unfinished, every other one is finished. *)
Definition accounted (r : Run St) : Prop :=
  Forall (fun t => finished t.2 = false) (tasks r) /\
  starts (observed r) = (finishes (observed r) + List.length (tasks r))%nat.

Lemma observed_drop (o : JobDeliveryObservation) now log :
  finished o = false ->
  starts (observation_drop record_event o now log) = starts log /\
  finishes (observation_drop record_event o now log) = S (finishes log).
Proof.
  intros Ho. unfold observation_drop, notify, record_event. rewrite Ho. simpl. autorewrite with accounting. simpl. lia.
Qed.

Lemma observed_finish (o : JobDeliveryObservation) a out now log :
  starts (observation_finish record_event o a out now log) = starts log /\
  finishes (observation_finish record_event o a out now log) = S (finishes log).
Proof. unfold observation_finish, observation_drop, notify, record_event. simpl. autorewrite with accounting. simpl. lia. Qed.

Lemma spawn_accounted now ds r :
  accounted r -> accounted (spawn_delivery_tasks now ds r) /\
  List.length (tasks (spawn_delivery_tasks now ds r)) = (List.length (tasks r) + List.length ds)%nat.
Proof.
  revert r. induction ds as [|d ds IH]; intros r [HF HS]; [simpl; split; [done|lia]|].
  cbn [spawn_delivery_tasks observation_start]. edestruct IH as [HA HL]; [|split; [exact HA|]].
  - split; simpl; [by apply Forall_app; split; [done | repeat constructor]|].
    unfold notify, record_event. simpl. autorewrite with accounting. simpl. lia.
  - rewrite HL. simpl. unfold notify, record_event. simpl. autorewrite with accounting. simpl. lia.
Qed.

Lemma run_task_accounted i t how now r out r' :
  accounted r -> tasks r !! i = Some t ->
  run_task process p t how now (without_task i r) = (out, r') ->
  accounted r' /\ S (List.length (tasks r')) = List.length (tasks r).
Proof.
  intros [HF HS] Ht. assert (Hlen : S (List.length (delete i (tasks r))) = List.length (tasks r)).
  { rewrite length_delete by eauto. apply lookup_lt_Some in Ht. lia. }
  assert (HF' : Forall (fun t => finished t.2 = false) (delete i (tasks r)))
    by (by apply Forall_delete).
  assert (Ho : finished t.2 = false).
  { rewrite Forall_lookup in HF. by eapply HF. }
  unfold run_task, accounted. destruct how as [l|].
  - destruct (process _ _ _ _ _) as [[[a o]|e] [st db]]; intros [= <- <-]; simpl;
      rewrite (proj1 (observed_finish _ _ _ _ _)), (proj2 (observed_finish _ _ _ _ _));
      (split; [split; [done | lia] | done]).
  - intros [= <- <-]. simpl. destruct (observed_drop t.2 now (observed r) Ho) as [-> ->].
    split; [split; [done | lia] | done].
Qed.

Lemma abort_all_accounted now r : accounted r -> accounted (abort_all now r) /\ tasks (abort_all now r) = [].
Proof.
  intros [HF HS]. split; [|done]. split; [by apply Forall_nil|]. unfold abort_all. cbn [tasks observed].
  revert HF HS. generalize (observed r) as log. induction (tasks r) as [|t ts IH]; intros log HF HS; [done|].
  apply Forall_cons in HF as [Ho HF]. simpl. apply IH; [done|].
  destruct (observed_drop t.2 now log Ho) as [-> ->]. simpl in HS. lia.
Qed.

(** A reply the worker sees is the one the server gave. *)
Lemma bounded_reply {A} (m : script A) l s a s' :
  bounded l m s = (Ok a, s') -> m s = (Ok a, s').
Proof.
  destruct l; simpl; [|done..]. destruct (m s) as [[x|e] s1]; simpl; congruence.
Qed.

Lemma read_new_length n l db ds db' :
  read_new w n l db = (Ok ds, db') -> (List.length ds <= n)%nat.
Proof.
  unfold read_new. destruct (bounded _ _ db) as [[es|] db1] eqn:E; [|done]. simpl. intros [= <- <-].
  apply bounded_reply in E. pose proof (xreadgroup_law (stream w) (consumer_group w) (consumer w)
    (Nat.min n (batch_size w)) db) as HL. rewrite E in HL. destruct HL as [-> _].
  rewrite length_map, length_take. lia.
Qed.

Lemma reclaim_deliveries_length links es db ds db' :
  reclaim_deliveries w links es db = (Ok ds, db') -> List.length ds = List.length es.
Proof.
  revert ds db db'. induction es as [|e es IH]; intros ds db db'; cbn [reclaim_deliveries].
  - by intros [= <- _].
  - destruct (pending_delivery_count _ _ _ _) as [[n|] db1]; [|done].
    destruct (reclaim_deliveries _ _ _ _) as [[ds1|] db2] eqn:E; [|done]. intros [= <- _].
    simpl. f_equal. by eapply IH.
Qed.

Lemma reclaim_pending_length n l links db ds db' :
  reclaim_pending w n l links db = (Ok ds, db') -> (List.length ds <= n)%nat.
Proof.
  unfold reclaim_pending. destruct (bounded _ _ db) as [[r|] db1] eqn:E; [|done]. cbn [map_err].
  destruct (_ || _); [done|]. intros HR. apply reclaim_deliveries_length in HR as ->.
  apply bounded_reply in E. pose proof (xautoclaim_law (stream w) (consumer_group w) (consumer w)
    (reclaim_idle_ms w) n db) as HL. rewrite E in HL. destruct HL as [-> _].
  unfold view_claim_reply, claim_selected. cbn [claimed].
  etrans; [apply length_omap_le|]. rewrite length_take. lia.
Qed.

Definition within (r : Run St) : Prop :=
  accounted r /\ (List.length (tasks r) <= concurrency wc)%nat.

Lemma spawn_within now ds n db r :
  within r -> (List.length ds <= n)%nat -> (n <= concurrency wc - List.length (tasks r))%nat ->
  (0 < concurrency wc - List.length (tasks r))%nat ->
  within (spawn_delivery_tasks now ds (on_server db r)).
Proof.
  intros [HA HL] Hd Hn Hp. destruct (spawn_accounted now ds (on_server db r) HA) as [HA' HL'].
  split; [done|]. rewrite HL'. simpl. lia.
Qed.

Lemma iteration_within now ev r x r' :
  within r -> iteration w process wc p now ev r = Some (x, r') -> within r'.
Proof.
  intros HW. unfold iteration. destruct ev as [|i how|lp lc links|l].
  - by intros [= _ <-].
  - destruct (tasks r !! i) as [t|] eqn:Ht; [|done].
    destruct (run_task _ _ _ _ _ _) as [out r1] eqn:E. intros [= _ <-]. destruct HW as [HA HL].
    destruct (run_task_accounted _ _ _ _ _ _ _ HA Ht E) as [HA' HL']. split; [done|lia].
  - destruct (Nat.ltb_spec 0 (concurrency wc - List.length (tasks r))) as [Hlt|]; [|done].
    destruct (promote_due_retries _ _ _ _) as [[[]|] db1]; [|by intros [= _ <-]].
    destruct (reclaim_pending _ _ _ _ _) as [[ds|] db2] eqn:E; [|by intros [= _ <-]].
    intros [= _ <-]. apply reclaim_pending_length in E. apply (spawn_within _ _ _ _ _ HW E); lia.
  - destruct (Nat.ltb_spec 0 (concurrency wc - List.length (tasks r))) as [Hlt|]; [|done].
    destruct (read_new _ _ _ _) as [[ds|] db1] eqn:E; [|by intros [= _ <-]].
    intros [= _ <-]. apply read_new_length in E. apply (spawn_within _ _ _ _ _ HW E); lia.
Qed.

Lemma run_loop_within evs r x r' :
  within r -> run_loop w process wc p evs r = (x, r') -> within r'.
Proof.
  revert r. induction evs as [|[now ev] evs IH]; intros r HW; cbn [run_loop]; [by intros [= _ <-]|].
  destruct (iteration _ _ _ _ _ _ _) as [[[y|] r1]|] eqn:E.
  - intros [= _ <-]. by eapply iteration_within.
  - apply IH. by eapply iteration_within.
  - by apply IH.
Qed.

Lemma drain_tasks_accounted ends deadline r out r' :
  accounted r -> drain_tasks process p ends deadline r = (out, r') -> accounted r'.
Proof.
  revert r. induction ends as [|[[now i] how] ends IH]; intros r HA; cbn [drain_tasks];
    destruct (tasks r) as [|t0 ts] eqn:Et.
  - by intros [= _ <-].
  - intros [= _ <-]. by apply abort_all_accounted.
  - by intros [= _ <-].
  - rewrite <- Et. destruct (tasks r !! i) as [t|] eqn:Ht; [|by apply IH].
    destruct (run_task _ _ _ _ _ _) as [[[]|e] r1] eqn:E.
    + apply IH. by eapply run_task_accounted.
    + intros [= _ <-]. by eapply run_task_accounted.
Qed.
End accounting.

(** ** Properties: the worker loop *)

(** A worker bounds its concurrency and accounts for every delivery. After any
    sequence of loop events no more than [concurrency] handlers are active; every
    delivery it took was reported to the observer as started and every one that is
    no longer active as finished, exactly once each; and when the worker returns, for
    whatever reason, no task is left. *)
Theorem worker_accounts_deliveries `{RedisCommandLaws} w {St} (process : Process St) wc p
    ready ready' evs ends deadline finish st db :
  let '(out, r) := run_with w process wc p ready ready' evs ends deadline finish st db in
  (List.length (tasks r) <= concurrency wc)%nat /\
  starts (observed r) = (finishes (observed r) + List.length (tasks r))%nat /\
  (out = None \/ tasks r = []).
Proof.
  unfold run_with. destruct (validate_retry_policy p); [|simpl; split_and!; [lia|done|by right]].
  destruct (readiness _ _ _ _) as [[[]|] db1]; [|simpl; split_and!; [lia|done|by right]].
  destruct (run_loop _ _ _ _ _ _) as [x r] eqn:E.
  assert (HW : within wc r).
  { eapply run_loop_within; [|exact E]. split; [split; [by apply Forall_nil|done] | simpl; lia]. }
  destruct HW as [HA HL]. destruct x as [[b|e]|].
  - destruct (drain_tasks _ _ _ _ _) as [d r1] eqn:ED. apply drain_tasks_accounted in ED; [|done].
    destruct (abort_all_accounted finish r1 ED) as [[_ HS] ->]. simpl in *. split_and!; [lia|lia|by right].
  - destruct (abort_all_accounted finish r HA) as [[_ HS] ->]. simpl in *. split_and!; [lia|lia|by right].
  - split_and!; [done | by destruct HA | by left].
Qed.

(** ** The completeness check of promotion *)

(** C34: the check for incomplete retry records accepts everything. [HEXISTS] replies
    with a number, which is true in Lua even when it is zero, so the first loop of the
    promotion script passes whatever the hashes hold and never reports
    ['rustee retry record is incomplete']. *)
Theorem incomplete_records_pass `{RedisAccepts} payloads attempts ids s :
  exists s', for_each ids (check_record payloads attempts) s = (Ok tt, s') /\ view s' = view s.
Proof.
  assert (HC : hoare (fun v => v = view s) (for_each ids (check_record payloads attempts))
                 (fun _ v => v = view s) (fun _ => False)).
  { apply (hoare_for_each _ _ (fun _ v => v = view s)). intros i l. unfold check_record.
    eapply (hoare_bind _ _ (fun _ v => v = view s)).
    { apply hoare_hexists; [intros t _; left; apply hexists_ok | done]. }
    intros p. cbn [truthy negb]. eapply (hoare_bind _ _ (fun b v => v = view s /\ b = false)).
    { eapply (hoare_bind _ _ (fun _ v => v = view s)).
      { apply hoare_hexists; [intros t _; left; apply hexists_ok | done]. }
      intros a. by apply hoare_ret. }
    intros []; [by intros t [_ ?] | by apply hoare_ret; intros v [? _]]. }
  destruct (hoare_run _ _ s HC) as ([] & s' & HE & HV). by exists s'.
Qed.
