(* ===== verification/RedisDelivery.v ===== *)
(** What the Redis Streams provider of [RedisJobs] promises about jobs: no accepted
    job is lost, whatever fails between publishing and settlement. *)

From Stdlib Require Import ZArith Lia Bool Ascii.
From stdpp Require Import gmap sets.
From S2P Require Import Prelude Strings Json JobEnvelope Jobs RedisStreams RedisJobs.

Local Open Scope Z_scope.

(** ** The view under the commands *)

Section frames.
Implicit Types v : Redis.

Lemma entries_set k l v : entries k (set_entries k l v) = l.
Proof. unfold entries. simpl. by rewrite lookup_insert_eq. Qed.
Lemma entries_set_ne k k' l v : k <> k' -> entries k (set_entries k' l v) = entries k v.
Proof. intros Hk. unfold entries. simpl. by rewrite lookup_insert_ne. Qed.
Lemma group_set k g x v : group k g (set_group k g x v) = x.
Proof. unfold group. simpl. by rewrite lookup_insert_eq. Qed.
Lemma hash_set k h v : hash k (set_hash k h v) = h.
Proof. unfold hash. simpl. by rewrite lookup_insert_eq. Qed.
Lemma hash_set_ne k k' h v : k <> k' -> hash k (set_hash k' h v) = hash k v.
Proof. intros Hk. unfold hash. simpl. by rewrite lookup_insert_ne. Qed.
Lemma zset_set k z v : zset k (set_zset k z v) = z.
Proof. unfold zset. simpl. by rewrite lookup_insert_eq. Qed.
End frames.

(** What is acknowledged is removed from the pending list. *)
Lemma group_xack k g i v :
  group k g (view_xack k g i v) =
  {| delivered := delivered (group k g v);
     pel := List.filter (fun p => negb (is_pending i p)) (pel (group k g v)) |}.
Proof.
  unfold view_xack, group. destruct (groups v !! (k, g)) as [x|] eqn:E; simpl;
    [by rewrite lookup_insert_eq | by rewrite E].
Qed.
Lemma entries_xack k g i k' v : entries k' (view_xack k g i v) = entries k' v.
Proof. unfold view_xack. by destruct (groups v !! (k, g)). Qed.
Lemma hash_xack k g i k' v : hash k' (view_xack k g i v) = hash k' v.
Proof. unfold view_xack. by destruct (groups v !! (k, g)). Qed.
Lemma zset_xack k g i k' v : zset k' (view_xack k g i v) = zset k' v.
Proof. unfold view_xack. by destruct (groups v !! (k, g)). Qed.

(** Looking entries up. *)
Lemma find_entry_Some i l e : find_entry i l = Some e -> e ∈ l /\ entry_id e = i.
Proof.
  intros HE. apply List.find_some in HE as [Hin HE]. apply str_eqb_true in HE.
  by rewrite list_elem_of_In.
Qed.
Lemma find_entry_None i l : find_entry i l = None <-> i ∉ entry_id <$> l.
Proof.
  unfold find_entry. split.
  - intros HN (e & -> & He)%list_elem_of_fmap. rewrite list_elem_of_In in He.
    pose proof (List.find_none _ _ HN e He) as HF. cbn beta in HF. by rewrite (proj2 (str_eqb_true _ _)) in HF.
  - intros HN. destruct (List.find _ l) as [e|] eqn:E; [|done]. destruct HN.
    apply (find_entry_Some i l e) in E as [He <-]. apply list_elem_of_fmap. by exists e.
Qed.
Lemma find_entry_app i l l' e : find_entry i l = Some e -> find_entry i (l ++ l') = Some e.
Proof.
  unfold find_entry. induction l as [|x l IH]; [done|]. simpl. by destruct (str_eqb _ _).
Qed.
Lemma find_entry_unique l e :
  NoDup (entry_id <$> l) -> e ∈ l -> find_entry (entry_id e) l = Some e.
Proof.
  induction l as [|x l IH]; [by intros _ ?%elem_of_nil|]. rewrite fmap_cons, NoDup_cons.
  intros [Hx HN]. rewrite elem_of_cons. unfold find_entry. simpl. intros [->|He].
  - by rewrite (proj2 (str_eqb_true _ _)).
  - destruct (str_eqb (entry_id x) (entry_id e)) eqn:E; [|by apply IH].
    apply str_eqb_true in E. destruct Hx. rewrite E. apply list_elem_of_fmap. by exists e.
Qed.

(** ** Where a job can be *)

Definition body (e : StreamEntry) : bytes := default [] (entry_get e PAYLOAD_FIELD).

(** Another worker of the same consumer group. *)
Definition same_route (w w' : RedisStreamsWorkerConfig) : Prop :=
  stream w' = stream w /\ consumer_group w' = consumer_group w /\
  dead_letter_stream w' = dead_letter_stream w /\ retry_schedule_key w' = retry_schedule_key w /\
  retry_payload_key w' = retry_payload_key w /\ retry_attempt_key w' = retry_attempt_key w.

Section safety.
Context (w : RedisStreamsWorkerConfig) (Hw : config_wf w).
Notation k := (stream w).
Notation g := (consumer_group w).
Notation dlq := (dead_letter_stream w).
Notation sched := (retry_schedule_key w).
Notation pays := (retry_payload_key w).
Notation atts := (retry_attempt_key w).
Implicit Types v : Redis.

(** A complete retry record. *)
Definition scheduled v (i p : bytes) : Prop :=
  is_Some (zset sched v !! i) /\ hash pays v !! i = Some p /\ is_Some (hash atts v !! i).

(** A job is kept: not yet read, read and not settled, scheduled for a retry, or in
    the dead-letter stream. *)
Inductive kept v (p : bytes) : Prop :=
| kept_waiting e : e ∈ waiting k g v -> body e = p -> kept v p
| kept_pending q e :
    q ∈ pel (group k g v) -> find_entry (pending_id q) (entries k v) = Some e -> body e = p -> kept v p
| kept_scheduled i : scheduled v i p -> kept v p
| kept_dead e : e ∈ entries dlq v -> body e = p -> kept v p.

(** The invariant; [handled] are the payloads some handler has succeeded on. *)
Record safe (handled : list bytes) v : Prop := {
  safe_ids : NoDup (entry_id <$> entries k v);
  safe_delivered : (delivered (group k g v) <= List.length (entries k v))%nat;
  safe_jobs e : e ∈ entries k v -> kept v (body e) \/ body e ∈ handled;
  safe_retry i x : hash pays v !! i = Some x ->
    exists e, find_entry i (entries k v) = Some e /\ body e = x
}.

Lemma pays_atts : pays <> atts.
Proof.
  destruct Hw as [_ -> -> _ _ _ _ _ _]. intros HE. by apply retry_key_inj in HE as (_ & _ & ?).
Qed.

(** The three ways a step can change the view and keep the invariant. *)
Lemma safe_same_stream handled handled' v v' :
  safe handled v -> entries k v' = entries k v ->
  (delivered (group k g v') <= List.length (entries k v))%nat ->
  (forall p, kept v p -> kept v' p \/ p ∈ handled') -> handled ⊆ handled' ->
  (forall i x, hash pays v' !! i = Some x -> hash pays v !! i = Some x \/
     exists e, find_entry i (entries k v) = Some e /\ body e = x) ->
  safe handled' v'.
Proof.
  intros [H1 H2 H3 H4] HE HD HK HH HR. split; rewrite ?HE; [done..| |].
  - intros e [Hk|Hh]%H3; [by apply HK | right; by apply HH].
  - intros i x [Hx|Hx]%HR; [by apply H4 | done].
Qed.

Lemma kept_ext v v' p :
  waiting k g v' = waiting k g v -> pel (group k g v') = pel (group k g v) ->
  entries k v' = entries k v -> entries dlq v' = entries dlq v ->
  (forall i, scheduled v i p -> exists j, scheduled v' j p) ->
  kept v p -> kept v' p.
Proof.
  intros HW HP HE HDL HS [e He Hb | q e Hq He Hb | i Hi | e He Hb].
  - apply (kept_waiting _ _ e); [by rewrite HW | done].
  - apply (kept_pending _ _ q e); [by rewrite HP | by rewrite HE | done].
  - destruct (HS i Hi) as [j Hj]. by apply (kept_scheduled _ _ j).
  - apply (kept_dead _ _ e); [by rewrite HDL | done].
Qed.

Lemma waiting_xadd i fs v :
  (delivered (group k g v) <= List.length (entries k v))%nat ->
  waiting k g (view_xadd k i fs v) = waiting k g v ++ [{| entry_id := i; entry_fields := fs |}].
Proof.
  intros HD. unfold waiting, view_xadd. rewrite entries_set.
  change (group k g (set_entries _ _ v)) with (group k g v). by rewrite drop_app_le.
Qed.

Lemma kept_xadd_stream i fs v p :
  (delivered (group k g v) <= List.length (entries k v))%nat ->
  kept v p -> kept (view_xadd k i fs v) p.
Proof.
  intros HD [e He Hb | q e Hq He Hb | j Hj | e He Hb].
  - apply (kept_waiting _ _ e); [|done]. rewrite waiting_xadd by done. apply elem_of_app. by left.
  - apply (kept_pending _ _ q e); [done| |done]. unfold view_xadd. rewrite entries_set.
    by apply find_entry_app.
  - by apply (kept_scheduled _ _ j).
  - apply (kept_dead _ _ e); [|done]. unfold view_xadd. destruct Hw.
    by rewrite entries_set_ne.
Qed.

(** An entry added to the stream is a job that is kept. *)
Lemma safe_xadd_stream handled i fs v :
  safe handled v -> find_entry i (entries k v) = None ->
  safe handled (view_xadd k i fs v).
Proof.
  intros [H1 H2 H3 H4] HN. split.
  - unfold view_xadd. rewrite entries_set, fmap_app. apply NoDup_app. split_and!; [done| |].
    + intros j Hj. simpl. rewrite elem_of_cons, elem_of_nil. intros [->|[]].
      by apply find_entry_None in HN.
    + simpl. apply NoDup_singleton.
  - unfold view_xadd. rewrite entries_set, length_app. simpl.
    change (group k g (set_entries _ _ v)) with (group k g v). lia.
  - intros e He. unfold view_xadd in He. rewrite entries_set in He.
    apply elem_of_app in He as [He|He].
    + destruct (H3 e He) as [?|?]; [left; by apply kept_xadd_stream | by right].
    + apply list_elem_of_singleton in He as ->. left. eapply kept_waiting; [|done].
      rewrite waiting_xadd by done. apply elem_of_app. right. by apply list_elem_of_singleton.
  - intros j x Hx. destruct (H4 j x Hx) as (e & He & Hb). exists e. split; [|done].
    unfold view_xadd. rewrite entries_set. by apply find_entry_app.
Qed.

Lemma safe_xadd_dlq handled i fs v :
  safe handled v -> safe handled (view_xadd dlq i fs v).
Proof.
  intros HS. assert (HE : entries k (view_xadd dlq i fs v) = entries k v).
  { destruct Hw. unfold view_xadd. by rewrite entries_set_ne. }
  apply (safe_same_stream handled handled v); [done | done | by destruct HS | | done | by left].
  intros p Hp. left. destruct Hp as [e He Hb | q e Hq He Hb | j Hj | e He Hb].
  - apply (kept_waiting _ _ e); [|done]. unfold waiting. by rewrite HE.
  - apply (kept_pending _ _ q e); [done| by rewrite HE | done].
  - by apply (kept_scheduled _ _ j).
  - apply (kept_dead _ _ e); [|done]. unfold view_xadd. rewrite entries_set. apply elem_of_app. by left.
Qed.

(** A read moves the entries it returns to the pending list. *)
Lemma safe_xreadgroup handled c n v :
  safe handled v -> safe handled (view_xreadgroup k g c n v).
Proof.
  intros HS. destruct HS as [H1 H2 H3 H4] eqn:E. clear E.
  apply (safe_same_stream handled handled v); [done | done | | | done | by left].
  { unfold view_xreadgroup, waiting. rewrite group_set. simpl. rewrite length_take, length_drop. lia. }
  intros p Hp. left. destruct Hp as [e He Hb | q e Hq He Hb | j Hj | e He Hb].
  - rewrite <- (take_drop n (waiting k g v)) in He. apply elem_of_app in He as [He|He].
    + apply (kept_pending _ _ (fresh_pending c (clock_ms v) e) e); [| |done].
      * unfold view_xreadgroup. rewrite group_set. simpl. apply elem_of_app. right.
        apply list_elem_of_In, List.in_map, list_elem_of_In, He.
      * change (entries k (view_xreadgroup k g c n v)) with (entries k v).
        apply find_entry_unique; [done|]. apply elem_of_take in He as (j & He & _).
        apply list_elem_of_lookup_2 in He. unfold waiting in He.
        rewrite <- (take_drop (delivered (group k g v)) (entries k v)). apply elem_of_app. by right.
    + apply (kept_waiting _ _ e); [|done]. unfold waiting at 1, view_xreadgroup. rewrite group_set. simpl.
      change (entries k (set_group _ _ _ v)) with (entries k v).
      rewrite <- drop_drop. fold (waiting k g v). rewrite length_take.
      destruct (le_lt_dec n (List.length (waiting k g v))).
      * by rewrite Nat.min_l.
      * rewrite drop_ge in He by lia. by apply elem_of_nil in He.
  - apply (kept_pending _ _ q e); [|done..]. unfold view_xreadgroup. rewrite group_set. simpl.
    apply elem_of_app. by left.
  - by apply (kept_scheduled _ _ j).
  - by apply (kept_dead _ _ e).
Qed.

(** A claim only drops pending entries whose stream entry is gone. *)
Lemma claim_keeps c now es sel l q :
  q ∈ l -> is_Some (find_entry (pending_id q) es) ->
  exists q', q' ∈ List.flat_map (claim_one c now es sel) l /\ pending_id q' = pending_id q.
Proof.
  intros Hq [e He].
  assert (HC : exists q', q' ∈ claim_one c now es sel q /\ pending_id q' = pending_id q).
  { unfold claim_one. rewrite He. simpl.
    destruct (existsb _ sel); eexists; (split; [by apply list_elem_of_singleton | done]). }
  destruct HC as (q' & Hq' & HI). exists q'. split; [|done]. rewrite list_elem_of_In in *.
  apply List.in_flat_map. eauto.
Qed.

Lemma safe_xautoclaim handled c m n v :
  safe handled v -> safe handled (view_xautoclaim k g c m n v).
Proof.
  intros HS. apply (safe_same_stream handled handled v);
    [done | done | unfold view_xautoclaim; rewrite group_set; by destruct HS | | done | by left].
  intros p Hp. left. destruct Hp as [e He Hb | q e Hq He Hb | j Hj | e He Hb].
  - apply (kept_waiting _ _ e); [|done]. unfold waiting, view_xautoclaim in *. by rewrite group_set.
  - destruct (claim_keeps c (clock_ms v) (entries k v)
      (claim_selected m n (clock_ms v) (pel (group k g v))) _ q Hq) as (q' & Hq' & HI); [by eexists|].
    apply (kept_pending _ _ q' e); [|by rewrite HI|done]. unfold view_xautoclaim. by rewrite group_set.
  - by apply (kept_scheduled _ _ j).
  - by apply (kept_dead _ _ e).
Qed.

(** Settling removes a pending entry whose job is elsewhere or done. *)
Lemma safe_xack handled i v :
  safe handled v ->
  (forall e, find_entry i (entries k v) = Some e ->
     kept (view_xack k g i v) (body e) \/ body e ∈ handled) ->
  safe handled (view_xack k g i v).
Proof.
  intros HS HI. apply (safe_same_stream handled handled v);
    [done | apply entries_xack | rewrite group_xack; by destruct HS | | done | rewrite hash_xack; by left].
  intros p Hp. destruct Hp as [e He Hb | q e Hq He Hb | j Hj | e He Hb].
  - left. apply (kept_waiting _ _ e); [|done]. unfold waiting in *. by rewrite group_xack, entries_xack.
  - destruct (is_pending i q) eqn:E.
    + apply str_eqb_true in E. rewrite E in He. rewrite <- Hb. by apply HI.
    + left. apply (kept_pending _ _ q e); [|by rewrite entries_xack|done]. rewrite group_xack. simpl.
      apply list_elem_of_In, List.filter_In. rewrite E. split; [by apply list_elem_of_In | done].
  - left. apply (kept_scheduled _ _ j). unfold scheduled in *. by rewrite zset_xack, !hash_xack.
  - left. apply (kept_dead _ _ e); [|done]. by rewrite entries_xack.
Qed.

(** Writing a retry record of an entry. *)
Lemma safe_hset_payload handled i e v :
  safe handled v -> find_entry i (entries k v) = Some e ->
  safe handled (view_hset pays i (body e) v).
Proof.
  intros HS He. apply (safe_same_stream handled handled v);
    [done | done | by destruct HS | | done |].
  - intros p Hp. left. revert Hp. apply kept_ext; try done. intros j (Hz & Hp & Ha). exists j.
    unfold scheduled, view_hset. rewrite hash_set, hash_set_ne by (apply not_eq_sym, pays_atts).
    split_and!; [done| |done]. destruct (decide (i = j)) as [->|]; [|by rewrite lookup_insert_ne].
    rewrite lookup_insert_eq. f_equal. destruct HS as [_ _ _ H4]. destruct (H4 j p Hp) as (e' & He' & <-).
    by simplify_eq.
  - intros j x. unfold view_hset. rewrite hash_set. intros Hx.
    apply lookup_insert_Some in Hx as [[<- <-]|[_ Hx]]; [right; by exists e | by left].
Qed.

Lemma safe_hset_attempt handled i x v : safe handled v -> safe handled (view_hset atts i x v).
Proof.
  intros HS. apply (safe_same_stream handled handled v); [done | done | by destruct HS | | done |].
  - intros p Hp. left. revert Hp. apply kept_ext; try done. intros j (Hz & Hp & Ha). exists j.
    unfold scheduled, view_hset. rewrite hash_set, hash_set_ne by apply pays_atts.
    split_and!; [done..|]. destruct (decide (i = j)) as [->|];
      [rewrite lookup_insert_eq; by eexists | by rewrite lookup_insert_ne].
  - intros j y. unfold view_hset. rewrite hash_set_ne by apply pays_atts. by left.
Qed.

Lemma safe_zadd handled sc i v : safe handled v -> safe handled (view_zadd sched sc i v).
Proof.
  intros HS. apply (safe_same_stream handled handled v); [done | done | by destruct HS | | done | by left].
  intros p Hp. left. revert Hp. apply kept_ext; try done. intros j (Hz & Hp & Ha). exists j.
  unfold scheduled, view_zadd. rewrite zset_set. split_and!; [|done..].
  destruct (decide (i = j)) as [->|]; [rewrite lookup_insert_eq; by eexists | by rewrite lookup_insert_ne].
Qed.

(** Deleting a retry record whose job waits in the stream. *)
Definition record_waits i v : Prop :=
  forall p, scheduled v i p -> exists e, e ∈ waiting k g v /\ body e = p.

Lemma safe_delete_record handled i v v' :
  safe handled v -> record_waits i v ->
  entries k v' = entries k v -> group k g v' = group k g v -> entries dlq v' = entries dlq v ->
  (forall j, j <> i -> zset sched v' !! j = zset sched v !! j /\
     hash pays v' !! j = hash pays v !! j /\ hash atts v' !! j = hash atts v !! j) ->
  (forall x, hash pays v' !! i = Some x -> hash pays v !! i = Some x) ->
  safe handled v'.
Proof.
  intros HS HR HE HG HDL HO HI. apply (safe_same_stream handled handled v);
    [done | done | rewrite HG; by destruct HS | | done |].
  - intros p Hp. left. destruct Hp as [e He Hb | q e Hq He Hb | j Hj | e He Hb].
    + apply (kept_waiting _ _ e); [|done]. unfold waiting. by rewrite HG, HE.
    + apply (kept_pending _ _ q e); [by rewrite HG | by rewrite HE | done].
    + destruct (decide (j = i)) as [->|Hj'].
      * destruct (HR p Hj) as (e & He & Hb). apply (kept_waiting _ _ e); [|done].
        unfold waiting. by rewrite HG, HE.
      * apply (kept_scheduled _ _ j). unfold scheduled in *. by destruct (HO j Hj') as (-> & -> & ->).
    + apply (kept_dead _ _ e); [by rewrite HDL | done].
  - intros j x Hx. left. destruct (decide (j = i)) as [->|Hj]; [by apply HI|].
    destruct (HO j Hj) as (_ & E & _). by rewrite E in Hx.
Qed.
End safety.

(** ** The scripts keep the invariant, wherever they stop *)

Lemma body_published b a x :
  body {| entry_id := x; entry_fields := [(PAYLOAD_FIELD, b); (ATTEMPT_FIELD, a)] |} = b.
Proof.
  unfold body, entry_get. simpl. by rewrite lookup_insert_ne, lookup_insert_eq.
Qed.
Lemma body_dead b a i x :
  body {| entry_id := x;
          entry_fields := [(PAYLOAD_FIELD, b); (ATTEMPT_FIELD, a); (##"source_entry_id", i)] |} = b.
Proof.
  unfold body, entry_get. simpl. by rewrite 2!lookup_insert_ne, lookup_insert_eq.
Qed.

Section scripts_safe.
Context `{RedisCommandLaws} (w : RedisStreamsWorkerConfig) (Hw : config_wf w).
Notation k := (stream w).
Notation g := (consumer_group w).
Notation dlq := (dead_letter_stream w).
Notation sched := (retry_schedule_key w).
Notation pays := (retry_payload_key w).
Notation atts := (retry_attempt_key w).

(** The invariant in a run that began with the entries [E0]. *)
Definition safe_from (E0 : list StreamEntry) (handled : list bytes) (v : Redis) : Prop :=
  safe w handled v /\ E0 `prefix_of` entries k v.

Context (E0 : list StreamEntry) (handled : list bytes).
Notation I := (safe_from E0 handled).
Implicit Types v : Redis.

Lemma safe_from_find i e v : find_entry i E0 = Some e -> I v -> find_entry i (entries k v) = Some e.
Proof. intros He [_ [l ->]]. by apply find_entry_app. Qed.

Lemma I_xack i v :
  I v -> (forall e, find_entry i (entries k v) = Some e ->
            kept w (view_xack k g i v) (body e) \/ body e ∈ handled) -> I (view_xack k g i v).
Proof. intros [HS HP] HI. split; [by apply safe_xack | by rewrite entries_xack]. Qed.

Lemma ack_script_safe i e c :
  find_entry i E0 = Some e -> body e ∈ handled ->
  hoare I (ack_if_owned_script k g i c) (fun _ => I) I.
Proof.
  intros He Hb. unfold ack_if_owned_script.
  eapply (hoare_bind _ _ (fun _ => I)).
  - apply hoare_xpending; [by right | done].
  - intros pending. destruct (_ =? 0)%nat; [by apply hoare_ret|].
    apply hoare_xack; [by right |].
    intros v HI. apply I_xack; [done|]. intros e' He'. right.
    rewrite (safe_from_find _ _ _ He HI) in He'. by simplify_eq.
Qed.

Lemma retry_script_safe i e c delay a :
  find_entry i E0 = Some e ->
  hoare I (schedule_retry_script k sched pays atts g i c i delay (body e) a) (fun _ => I) I.
Proof.
  intros He. unfold schedule_retry_script. eapply (hoare_bind _ _ (fun _ => I)).
  { apply hoare_xpending; [by right | done]. }
  intros pending. destruct (_ =? 0)%nat; [by apply hoare_ret|].
  eapply (hoare_bind _ _ (fun _ => I)).
  { apply hoare_time; [by right | done]. }
  intros now. eapply (hoare_bind _ _ (fun _ v => I v /\ hash pays v !! i = Some (body e))).
  { apply hoare_hset; [by right |]. intros v _ HI. split.
    - pose proof HI as [HS HP]. split; [|done]. apply safe_hset_payload; [done..|].
      by apply safe_from_find.
    - unfold view_hset. by rewrite hash_set, lookup_insert_eq. }
  intros _1. eapply (hoare_bind _ _ (fun _ v => I v /\ hash pays v !! i = Some (body e) /\
    is_Some (hash atts v !! i))).
  { apply hoare_hset; [right; naive_solver |].
    intros v _ [[HS HP] Hb]. split_and!.
    - split; [by apply safe_hset_attempt | done].
    - unfold view_hset. by rewrite hash_set_ne by (by apply pays_atts).
    - unfold view_hset. rewrite hash_set, lookup_insert_eq. by eexists. }
  intros _2. eapply (hoare_bind _ _ (fun _ v => I v /\ scheduled w v i (body e))).
  { apply hoare_zadd; [right; naive_solver |].
    intros v _ ([HS HP] & Hb & Ha). split.
    - split; [by apply safe_zadd | done].
    - split_and!; [|done..]. unfold view_zadd. rewrite zset_set, lookup_insert_eq. by eexists. }
  intros _3. apply hoare_xack; [right; naive_solver |].
  intros v [HI HR]. apply I_xack; [done|]. intros e' He'. left.
  rewrite (safe_from_find _ _ _ He HI) in He'. simplify_eq. apply (kept_scheduled _ _ _ i).
  unfold scheduled in *. by rewrite zset_xack, !hash_xack.
Qed.

Lemma dead_script_safe i e c a :
  find_entry i E0 = Some e ->
  hoare I (dead_letter_if_owned_script k dlq g i c (body e) a) (fun _ => I) I.
Proof.
  intros He. unfold dead_letter_if_owned_script. eapply (hoare_bind _ _ (fun _ => I)).
  { apply hoare_xpending; [by right | done]. }
  intros pending. destruct (_ =? 0)%nat; [by apply hoare_ret|].
  eapply (hoare_bind _ _ (fun _ v => I v /\ exists x, x ∈ entries dlq v /\ body x = body e)).
  { apply hoare_xadd; [by right |].
    intros v x [HS HP] _. split.
    - split; [by apply safe_xadd_dlq|]. unfold view_xadd. destruct Hw. by rewrite entries_set_ne.
    - eexists. split; [|by apply body_dead]. unfold view_xadd. rewrite entries_set.
      apply elem_of_app. right. by apply list_elem_of_singleton. }
  intros x. apply hoare_xack; [right; naive_solver |].
  intros v (HI & d & Hd & Hb). apply I_xack; [done|]. intros e' He'. left.
  rewrite (safe_from_find _ _ _ He HI) in He'. simplify_eq.
  apply (kept_dead _ _ _ d); [by rewrite entries_xack | done].
Qed.

(** Removing the three parts of a record whose job waits. *)
Lemma I_delete_record i v v' :
  I v -> record_waits w i v ->
  v' = view_hdel pays i v \/ v' = view_hdel atts i v \/ v' = view_zrem sched i v ->
  I v' /\ record_waits w i v'.
Proof.
  intros [HS HP] HR HV. split; [split; [|by destruct HV as [->|[->| ->]]]|].
  - pose proof (pays_atts w Hw) as Hne.
    eapply safe_delete_record; [exact HS | exact HR | by destruct HV as [->|[->| ->]] .. | |].
    + intros j Hj. destruct HV as [->|[->| ->]]; unfold view_hdel, view_zrem;
        rewrite ?hash_set, ?zset_set, ?(hash_set_ne pays atts), ?(hash_set_ne atts pays),
          ?lookup_delete_ne by congruence; done.
    + intros x. destruct HV as [->|[->| ->]]; unfold view_hdel, view_zrem;
        rewrite ?hash_set, ?lookup_delete_eq, ?hash_set_ne by congruence; done.
  - assert (HW : waiting k g v' = waiting k g v) by (by destruct HV as [->|[->| ->]]).
    intros p Hp. rewrite HW. apply HR. unfold scheduled in *. pose proof (pays_atts w Hw) as Hne.
    destruct HV as [->|[->| ->]]; unfold view_hdel, view_zrem in Hp;
      rewrite ?hash_set, ?zset_set, ?(hash_set_ne pays atts), ?(hash_set_ne atts pays),
        ?lookup_delete_eq in Hp by congruence; destruct Hp as (Hz & Hp & Ha); [done | | ].
    + by destruct Ha.
    + by destruct Hz.
Qed.

Lemma promote_record_safe i : hoare I (promote_record k sched pays atts i) (fun _ => I) I.
Proof.
  unfold promote_record. eapply (hoare_bind _ _ (fun b v => I v /\ b = hash pays v !! i)).
  { apply hoare_hget; [by right | done]. }
  intros b. eapply (hoare_bind _ _ (fun _ v => I v /\ b = hash pays v !! i)).
  { apply hoare_hget; [right; naive_solver | done]. }
  intros a. eapply (hoare_bind _ _ (fun _ v => I v /\ record_waits w i v)).
  { unfold lua_xadd. destruct b as [b|]; [|apply hoare_error; naive_solver].
    destruct a as [a|]; [|apply hoare_error; naive_solver]. cbn [lua_bulk lua_argument].
    apply hoare_xadd; [right; naive_solver |].
    intros v x [[HS HP] Hb] Hx. split; [split|].
    - by apply safe_xadd_stream.
    - unfold view_xadd. rewrite entries_set. by apply prefix_app_r.
    - intros p (_ & Hp & _). eexists. split.
      + rewrite waiting_xadd by (by destruct HS). apply elem_of_app. right. by apply list_elem_of_singleton.
      + rewrite body_published. change (hash pays (view_xadd k _ _ v)) with (hash pays v) in Hp.
        rewrite <- Hb in Hp. by simplify_eq. }
  intros x. eapply (hoare_bind _ _ (fun _ v => I v /\ record_waits w i v)).
  { apply hoare_hdel; [right; naive_solver|]. intros v _ [HI HR]. apply (I_delete_record i v); auto. }
  intros _1. eapply (hoare_bind _ _ (fun _ v => I v /\ record_waits w i v)).
  { apply hoare_hdel; [right; naive_solver|]. intros v _ [HI HR]. apply (I_delete_record i v); auto. }
  intros _2. eapply (hoare_bind _ _ (fun _ v => I v /\ record_waits w i v)).
  { apply hoare_zrem; [right; naive_solver|]. intros v _ [HI HR]. apply (I_delete_record i v); auto. }
  intros _3.
  apply hoare_ret. naive_solver.
Qed.

Lemma check_record_safe i : hoare I (check_record pays atts i) (fun _ => I) I.
Proof.
  unfold check_record. eapply (hoare_bind _ _ (fun _ => I)).
  { apply hoare_hexists; [by right | done]. }
  intros p. cbn [truthy negb]. eapply (hoare_bind _ _ (fun _ => I)).
  { eapply (hoare_bind _ _ (fun _ => I)); [|by intros a; apply hoare_ret].
    apply hoare_hexists; [by right | done]. }
  intros [|]; [by apply hoare_error | by apply hoare_ret].
Qed.

Lemma promote_script_safe n :
  hoare I (promote_due_retries_script k sched pays atts n) (fun _ => I) I.
Proof.
  unfold promote_due_retries_script. eapply (hoare_bind _ _ (fun _ => I)).
  { apply hoare_time; [by right | done]. }
  intros now. eapply (hoare_bind _ _ (fun _ => I)).
  { apply hoare_zrangebyscore; [by right | done]. }
  intros ids. eapply (hoare_bind _ _ (fun _ => I)).
  { apply (hoare_for_each _ _ (fun _ => I)). intros x l. apply check_record_safe. }
  intros _1. eapply (hoare_bind _ _ (fun _ => I)).
  { apply (hoare_for_each _ _ (fun _ => I)). intros x l. apply promote_record_safe. }
  intros _2. by apply hoare_ret.
Qed.

(** Whatever happens on the connection. *)
Lemma bounded_safe {A} (m : script A) l s r s' :
  hoare I m (fun _ => I) I -> I (view s) -> bounded l m s = (r, s') -> I (view s').
Proof.
  intros Hm HI. specialize (Hm s HI). destruct l; simpl.
  - destruct (m s) as [[a|e] s1]; by intros [= _ <-].
  - by intros [= _ <-].
  - intros [= _ <-]. by destruct (m s) as [[a|e] s1].
Qed.
End scripts_safe.

(** ** What settles a delivery

    The interface between the worker and the two ways of running handlers: a
    delivery is settled once, it is acknowledged only after success, and retried only
    as the policy says. *)

Class Settling `{RedisCommands} {St} (process : RedisStreamsWorkerConfig -> Process St)
    (succeeded : RedisStreamsDelivery -> St -> bool) : Prop :=
  settling w d p l st db :
    delivery_attempt_number d <> Some 0 ->
    exists st' action,
      (process w d p l st db).2 = (st', (settle_action w d action l db).2) /\
      is_ok (process w d p l st db).1 = is_ok (settle_action w d action l db).1 /\
      match action with
      | Acknowledge => succeeded d st = true
      | Retry _ _ => exists a, delivery_attempt_number d = Some a /\ action = after_failure p a
      | DeadLetter => True
      end.

Section settling.
Context `{RedisCommands} {St : Type}.

Lemma after_failure_not_ack p a : after_failure p a <> Acknowledge.
Proof. unfold after_failure. by destruct (_ || _). Qed.

(** [run_until]: one typed handler. *)
Definition typed_succeeded {J E} `{!Job J} (from_slice : bytes -> option (JobEnvelope J))
    (handler : JobHandler St J E) (d : RedisStreamsDelivery) (st : St) : bool :=
  match delivery_attempt_number d, decode from_slice (delivery_payload d) with
  | Some a, Ok e => is_ok (handler (payload e) (context_from_envelope (set_attempt a e)) st).1
  | _, _ => false
  end.

#[export] Instance process_delivery_settling {J E} `{!Job J}
    (from_slice : bytes -> option (JobEnvelope J)) (handler : JobHandler St J E) :
  Settling (fun w => process_delivery w from_slice handler) (typed_succeeded from_slice handler).
Proof.
  intros w d p l st db Ha. unfold process_delivery, delivery_attempt, typed_succeeded.
  destruct (delivery_attempt_number d) as [a|]; cbn [ok_or].
  2:{ exists st, DeadLetter. split_and!; [done | | done]. simpl. by destruct (dead_letter _ _ _ _) as [[]]. }
  destruct (decode from_slice (delivery_payload d)) as [e|].
  2:{ exists st, DeadLetter. split_and!; [done | | done]. simpl. by destruct (dead_letter _ _ _ _) as [[]]. }
  unfold with_attempt. rewrite (proj2 (Z.eqb_neq a 0)) by congruence. unfold dispatch_job.
  change (payload (set_attempt a e)) with (payload e).
  destruct (handler _ _ _) as [[[]|x] st']; simpl.
  - exists st', Acknowledge. simpl. split_and!; [done | by destruct (acknowledge _ _ _ _) as [[]] | done].
  - exists st', (after_failure p a). split_and!; [done | by destruct (settle_action _ _ _ _ _) as [[]] |].
    destruct (after_failure p a) eqn:EA; [by apply after_failure_not_ack in EA | by eauto | done].
Qed.

(** [run_registry_until]: a registry of handlers that acknowledge when they succeed,
    which is what registration builds. *)
Definition acknowledging (registry : JobRegistry St) : Prop :=
  forall n h body a st x, registry !! n = Some h -> (h body a st).1 = Ok x -> x = Acknowledge.

Definition registry_succeeded (identity : bytes -> option str) (registry : JobRegistry St)
    (d : RedisStreamsDelivery) (st : St) : bool :=
  match delivery_attempt_number d with
  | Some a => is_ok (registry_dispatch identity registry (delivery_payload d) a st).1
  | None => false
  end.

Lemma process_registry_settling identity registry :
  acknowledging registry ->
  Settling (fun w => process_registry_delivery w identity registry) (registry_succeeded identity registry).
Proof.
  intros HR w d p l st db Ha. unfold process_registry_delivery, delivery_attempt, registry_succeeded.
  destruct (delivery_attempt_number d) as [a|]; cbn [ok_or].
  2:{ exists st, DeadLetter. split_and!; [done | | done]. simpl. by destruct (dead_letter _ _ _ _) as [[]]. }
  destruct (registry_dispatch _ _ _ _ _) as [r st'] eqn:ER. eexists st', _.
  split_and!; [done | unfold returning, with_outcome; simpl; by destruct (settle_action _ _ _ _ _) as [[]] |].
  destruct r as [x|[]]; [|done..|].
  - assert (x = Acknowledge) as ->; [|done]. revert ER. unfold registry_dispatch.
    destruct (_ =? 0); [done|]. destruct (_ || _); [done|]. destruct (identity _) as [n|]; [|done].
    destruct (registry !! n) as [h|] eqn:Eh; [|done]. intros ER. eapply HR; [done|]. by rewrite ER.
  - destruct (after_failure p a) eqn:EA; [by apply after_failure_not_ack in EA | by eauto | done].
Qed.

(** Both registrations build such handlers. *)
Lemma dispatch_envelope_acknowledges {J E} (handler : JobHandler St J E) e a (st : St) x :
  (dispatch_envelope handler e a st).1 = Ok x -> x = Acknowledge.
Proof.
  unfold dispatch_envelope. destruct e as [e|]; [|done]. unfold with_attempt.
  destruct (a =? 0); [done|]. cbn [map_err]. unfold dispatch_job.
  destruct (handler _ _ _) as [[[]|] st']; simpl; congruence.
Qed.

Lemma registered_acknowledging (regs : list (str * RegisteredJobHandler St)) registry :
  register_all regs registry_new = Ok registry ->
  Forall (fun x => forall body a st y, (x.2 body a st).1 = Ok y -> y = Acknowledge) regs ->
  acknowledging registry.
Proof.
  intros HR HF n h b a st x Hn. apply register_all_Ok in HR as (_ & _ & ->).
  unfold registry_new in Hn. rewrite (right_id_L ∅ (∪)) in Hn. apply elem_of_list_to_map_2 in Hn.
  rewrite Forall_forall in HF. by apply (HF _ Hn).
Qed.
End settling.

(** ** A consumer group at work

    Any number of workers of one route and any other clients of the server. *)

Record System `{RedisCommands} (St : Type) : Type := {
  sys_server : Server;
  sys_app : St;
  inflight : list (RedisStreamsWorkerConfig * RedisStreamsDelivery);
  handled : list bytes
}.
Arguments sys_server {_ St}. Arguments sys_app {_ St}. Arguments inflight {_ St}. Arguments handled {_ St}.

Section system.
Context `{RedisCommandLaws} (w : RedisStreamsWorkerConfig) {St : Type}.
Context (process : RedisStreamsWorkerConfig -> Process St)
        (succeeded : RedisStreamsDelivery -> St -> bool) (policy : RetryPolicy).

Definition at_server (db : Server) (s : System St) : System St :=
  {| sys_server := db; sys_app := sys_app s; inflight := inflight s; handled := handled s |}.

(** The deliveries a worker received, if it received any. *)
Definition received (w' : RedisStreamsWorkerConfig)
    (out : result (list RedisStreamsDelivery) RedisStreamsError * Server) (s : System St) : System St :=
  {| sys_server := out.2; sys_app := sys_app s;
     inflight := inflight s ++ match out.1 with Ok ds => pair w' <$> ds | Err _ => [] end;
     handled := handled s |}.

(** A task ended; [handled] collects the payloads handlers succeeded on. *)
Definition after_task (d : RedisStreamsDelivery) (out : St * Server) (s : System St) : System St :=
  {| sys_server := out.2; sys_app := out.1; inflight := inflight s;
     handled := if succeeded d (sys_app s) then delivery_payload d :: handled s else handled s |}.

(** Other clients: they leave the route's stream, group and retry records alone and
    may append to the dead-letter stream; time passes. *)
Definition foreign (v v' : Redis) : Prop :=
  entries (stream w) v' = entries (stream w) v /\
  group (stream w) (consumer_group w) v' = group (stream w) (consumer_group w) v /\
  entries (dead_letter_stream w) v `prefix_of` entries (dead_letter_stream w) v' /\
  zset (retry_schedule_key w) v' = zset (retry_schedule_key w) v /\
  hash (retry_payload_key w) v' = hash (retry_payload_key w) v /\
  hash (retry_attempt_key w) v' = hash (retry_attempt_key w) v.

Inductive step (s : System St) : System St -> Prop :=
| step_publish m l : step s (at_server (publish (stream w) m l (sys_server s)).2 s)
| step_read w' n l : same_route w w' -> step s (received w' (read_new w' n l (sys_server s)) s)
| step_reclaim w' n l links :
    same_route w w' -> step s (received w' (reclaim_pending w' n l links (sys_server s)) s)
| step_promote w' n l :
    same_route w w' -> step s (at_server (promote_due_retries w' n l (sys_server s)).2 s)
| step_settle w' d l :
    (w', d) ∈ inflight s ->
    step s (after_task d (process w' d policy l (sys_app s) (sys_server s)).2 s)
| step_forget ds :
    ds ⊆ inflight s ->
    step s {| sys_server := sys_server s; sys_app := sys_app s; inflight := ds; handled := handled s |}
| step_foreign db :
    foreign (view (sys_server s)) (view db) -> step s (at_server db s).

(** The invariant of a system: that of the view, and the deliveries in flight carry
    the payload of the entry they came from. *)
Definition system_safe (E0 : list StreamEntry) (s : System St) : Prop :=
  safe_from w E0 (handled s) (view (sys_server s)) /\
  forall w' d, (w', d) ∈ inflight s ->
    same_route w w' /\ delivery_attempt_number d <> Some 0 /\
    exists e, find_entry (delivery_entry_id d) (entries (stream w) (view (sys_server s))) = Some e /\
              delivery_payload d = body e.

Lemma delivery_positive e n : delivery_attempt_number (delivery_from_entry e n) <> Some 0.
Proof.
  unfold delivery_from_entry. simpl. destruct (_ ≫= _) as [a|]; [|done].
  destruct (Z.ltb_spec 0 a); [|done]. intros [= ->]. lia.
Qed.

Context (Hw : config_wf w) `{!Settling process succeeded}.

(** Deliveries stay backed by their entries as the stream grows. *)
Lemma inflight_grows E0 (s : System St) db :
  system_safe E0 s -> entries (stream w) (view (sys_server s)) `prefix_of` entries (stream w) (view db) ->
  forall w' d, (w', d) ∈ inflight s -> same_route w w' /\ delivery_attempt_number d <> Some 0 /\
    exists e, find_entry (delivery_entry_id d) (entries (stream w) (view db)) = Some e /\
              delivery_payload d = body e.
Proof.
  intros [_ HF] [l ->] w' d (HR & HA & e & He & Hb)%HF. split_and!; [done..|]. exists e.
  split; [by apply find_entry_app | done].
Qed.

Lemma safe_from_here E0 h v : safe_from w E0 h v -> safe_from w (entries (stream w) v) h v.
Proof. by intros [HS HP]. Qed.

Lemma safe_from_trans E0 h h' v v' :
  safe_from w E0 h v -> safe_from w (entries (stream w) v) h' v' -> safe_from w E0 h' v'.
Proof. intros [_ HP] [HS HP']. split; [done|]. by etrans. Qed.

(** A step that only acts on the server. *)
Lemma at_server_safe E0 (s : System St) db :
  system_safe E0 s ->
  safe_from w (entries (stream w) (view (sys_server s))) (handled s) (view db) ->
  system_safe E0 (at_server db s).
Proof.
  intros HS HD. split; simpl.
  - eapply safe_from_trans; [apply HS | done].
  - eapply inflight_grows; [done | apply HD].
Qed.

Lemma received_safe E0 (s : System St) w' out :
  system_safe E0 s -> same_route w w' ->
  safe_from w (entries (stream w) (view (sys_server s))) (handled s) (view out.2) ->
  (forall ds d, out.1 = Ok ds -> d ∈ ds -> exists e n, d = delivery_from_entry e n /\
     e ∈ entries (stream w) (view (sys_server s))) ->
  system_safe E0 (received w' out s).
Proof.
  intros HS HR HD HO. split; simpl; [eapply safe_from_trans; [apply HS | done]|].
  intros w1 d Hin. apply elem_of_app in Hin as [Hin|Hin].
  - eapply inflight_grows; [done | apply HD | done].
  - destruct out.1 as [ds|] eqn:EO; [|by apply elem_of_nil in Hin].
    apply list_elem_of_fmap in Hin as (d' & [= -> ->] & Hd).
    destruct (HO ds d' eq_refl Hd) as (e & n & -> & He). split_and!; [done | apply delivery_positive |].
    exists e. split; [|done]. simpl. destruct HD as [HD [l Hl]]. apply find_entry_unique; [by destruct HD|].
    rewrite Hl. apply elem_of_app. by left.
Qed.

(** Receiving. *)
Lemma publish_safe E0 h m l db :
  safe_from w E0 h (view db) -> safe_from w E0 h (view (publish (stream w) m l db).2).
Proof.
  intros HI. unfold publish. destruct (bounded _ _ db) as [r db1] eqn:E. simpl.
  eapply (bounded_safe w E0 h); [|exact HI|exact E]. apply hoare_xadd; [by right|].
  intros v i [HS HP] Hi. split; [by apply safe_xadd_stream|]. unfold view_xadd. rewrite entries_set.
  by apply prefix_app_r.
Qed.

Lemma waiting_entries k g v e : e ∈ waiting k g v -> e ∈ entries k v.
Proof.
  intros He. rewrite <- (take_drop (delivered (group k g v)) (entries k v)). apply elem_of_app. by right.
Qed.

Lemma read_new_safe E0 h w' n l db :
  safe_from w E0 h (view db) -> same_route w w' ->
  safe_from w E0 h (view (read_new w' n l db).2) /\
  forall ds d, (read_new w' n l db).1 = Ok ds -> d ∈ ds ->
    exists e n, d = delivery_from_entry e n /\ e ∈ entries (stream w) (view db).
Proof.
  intros HI (Hk & Hg & _). unfold read_new. rewrite Hk, Hg. destruct (bounded _ _ db) as [r db1] eqn:E. simpl. split.
  - eapply (bounded_safe w E0 h); [|exact HI|exact E]. apply hoare_xreadgroup; [by right|].
    intros v [HS HP]. split; [by apply safe_xreadgroup | done].
  - intros ds d. destruct r as [es|]; [|done]. intros [= <-] Hd. apply bounded_reply in E.
    pose proof (xreadgroup_law (stream w) (consumer_group w) (consumer w')
      (Nat.min n (batch_size w')) db) as HL. rewrite E in HL. destruct HL as [-> _].
    apply list_elem_of_In, List.in_map_iff in Hd as (e & <- & He). exists e, None. split; [done|].
    apply list_elem_of_In, elem_of_take in He as (i & He & _). apply list_elem_of_lookup_2 in He.
    by apply waiting_entries in He.
Qed.

Lemma reclaim_deliveries_spec w' links es db :
  (reclaim_deliveries w' links es db).2 = db /\
  forall ds d, (reclaim_deliveries w' links es db).1 = Ok ds -> d ∈ ds ->
    exists e n, d = delivery_from_entry e n /\ e ∈ es.
Proof.
  induction es as [|e es IH]; cbn [reclaim_deliveries].
  { split; [done|]. intros ds d [= <-] Hd. by apply elem_of_nil in Hd. }
  assert (HC : forall l, (pending_delivery_count w' (entry_id e) l db).2 = db).
  { intros l. unfold pending_delivery_count, bounded. by destruct l. }
  specialize (HC (links (entry_id e))).
  destruct (pending_delivery_count _ _ _ db) as [[n|] db1]; simpl in HC; subst db1; [|by split].
  destruct (reclaim_deliveries _ _ es db) as [[ds|] db2]; simpl in *; destruct IH as [-> IH];
    (split; [done|]); [|done]. intros ds' d [= <-] Hd. apply elem_of_cons in Hd as [->|Hd].
  - exists e, (Some n). split; [done | by left].
  - destruct (IH ds d eq_refl Hd) as (e' & n' & -> & He'). exists e', n'. split; [done | by right].
Qed.

Lemma reclaim_pending_safe E0 h w' n l links db :
  safe_from w E0 h (view db) -> same_route w w' ->
  safe_from w E0 h (view (reclaim_pending w' n l links db).2) /\
  forall ds d, (reclaim_pending w' n l links db).1 = Ok ds -> d ∈ ds ->
    exists e n, d = delivery_from_entry e n /\ e ∈ entries (stream w) (view db).
Proof.
  intros HI (Hk & Hg & _). unfold reclaim_pending. rewrite Hk, Hg.
  destruct (bounded _ _ db) as [r db1] eqn:E.
  assert (HI' : safe_from w E0 h (view db1)).
  { eapply (bounded_safe w E0 h); [|exact HI|exact E]. apply hoare_xautoclaim; [by right|].
    intros v [HS HP]. split; [by apply safe_xautoclaim | done]. }
  destruct r as [r|]; cbn [map_err]; [|by split]. destruct (_ || _); [by split|].
  destruct (reclaim_deliveries_spec w' links (claimed r) db1) as [HD HS]. rewrite HD. split; [done|].
  intros ds d HO Hd. destruct (HS ds d HO Hd) as (e & i & -> & He). exists e, i. split; [done|].
  apply bounded_reply in E. pose proof (xautoclaim_law (stream w) (consumer_group w) (consumer w')
    (reclaim_idle_ms w') n db) as HL. rewrite E in HL. destruct HL as [-> _].
  apply list_elem_of_omap in He as (q & _ & He). by apply find_entry_Some in He as [He _].
Qed.

(** Settling. *)
Lemma safe_from_handled E0 h h' v : safe_from w E0 h v -> h ⊆ h' -> safe_from w E0 h' v.
Proof.
  intros [HS HP] Hh. split; [|done]. apply (safe_same_stream w h h' v); [done | done | by destruct HS | by left
    | done | by left].
Qed.

Lemma settle_action_safe E0 h w' d e action l db :
  safe_from w E0 h (view db) -> same_route w w' ->
  find_entry (delivery_entry_id d) E0 = Some e -> delivery_payload d = body e ->
  (action = Acknowledge -> body e ∈ h) ->
  safe_from w E0 h (view (settle_action w' d action l db).2).
Proof.
  intros HI (Hk & Hg & Hd & Hs & Hp & Ha) He Hb HA. destruct action as [|next delay|]; simpl;
    unfold acknowledge, worker_acknowledge, retry_after, schedule_retry, dead_letter, worker_dead_letter;
    rewrite ?Hk, ?Hg, ?Hd, ?Hs, ?Hp, ?Ha, ?Hb.
  - destruct (bounded _ _ db) as [r db1] eqn:E. eapply (bounded_safe w E0 h); [|exact HI|exact E].
    eapply ack_script_safe; [done | by apply HA].
  - destruct (nonzero_duration_to_millis delay) as [ms|]; [|done].
    destruct (bounded _ _ db) as [r db1] eqn:E. eapply (bounded_safe w E0 h); [|exact HI|exact E].
    by apply retry_script_safe.
  - destruct (bounded _ _ db) as [r db1] eqn:E. eapply (bounded_safe w E0 h); [|exact HI|exact E].
    by apply dead_script_safe.
Qed.

Lemma after_task_safe E0 (s : System St) w' d l :
  system_safe E0 s -> (w', d) ∈ inflight s ->
  system_safe E0 (after_task d (process w' d policy l (sys_app s) (sys_server s)).2 s).
Proof.
  intros HS Hin. pose proof HS as [HI HF]. destruct (HF w' d Hin) as (HR & HA & e & He & Hb).
  destruct (settling w' d policy l (sys_app s) (sys_server s) HA) as (st & action & -> & _ & HX).
  set (h := if succeeded d (sys_app s) then delivery_payload d :: handled s else handled s).
  assert (Hh : safe_from w (entries (stream w) (view (sys_server s))) h (view (sys_server s))).
  { apply (safe_from_handled _ (handled s)); [by eapply safe_from_here|]. subst h.
    destruct (succeeded _ _); [by intros x Hx; right | done]. }
  assert (HD : safe_from w (entries (stream w) (view (sys_server s))) h
                 (view (settle_action w' d action l (sys_server s)).2)).
  { eapply settle_action_safe; [done..|]. intros ->. subst h. rewrite HX, Hb. by left. }
  split; simpl; [eapply safe_from_trans; [exact HI | exact HD]|].
  eapply inflight_grows; [done | apply HD].
Qed.

Lemma foreign_safe E0 h v v' : foreign v v' -> safe_from w E0 h v -> safe_from w E0 h v'.
Proof.
  intros (HE & HG & HDL & HZ & HP & HA) [HS HX]. split; [|by rewrite HE].
  apply (safe_same_stream w h h v); [done | done | rewrite HG; by destruct HS | | done | rewrite HP; by left].
  intros p Hp. left. destruct Hp as [e He Hb | q e Hq He Hb | j Hj | e He Hb].
  - apply (kept_waiting _ _ _ e); [|done]. unfold waiting. by rewrite HG, HE.
  - apply (kept_pending _ _ _ q e); [by rewrite HG | by rewrite HE | done].
  - apply (kept_scheduled _ _ _ j). unfold scheduled in *. by rewrite HZ, HP, HA.
  - apply (kept_dead _ _ _ e); [|done]. destruct HDL as [l ->]. apply elem_of_app. by left.
Qed.

Lemma step_safe E0 (s s' : System St) : system_safe E0 s -> step s s' -> system_safe E0 s'.
Proof.
  intros HS HX. pose proof (safe_from_here _ _ _ (proj1 HS)) as HH.
  destruct HX as [m l | w' n l HR | w' n l links HR | w' n l HR | w' d l Hin | ds Hds | db HF].
  - apply at_server_safe; [done | by apply publish_safe].
  - destruct (read_new_safe _ _ w' n l _ HH HR) as [HD HO]. by apply received_safe.
  - destruct (reclaim_pending_safe _ _ w' n l links _ HH HR) as [HD HO]. by apply received_safe.
  - apply at_server_safe; [done|]. unfold promote_due_retries.
    destruct HR as (Hk & _ & _ & Hs & Hp & Ha). rewrite Hk, Hs, Hp, Ha. destruct (bounded _ _ _) as [r db1] eqn:E.
    eapply (bounded_safe w); [by apply promote_script_safe | exact HH | exact E].
  - by apply after_task_safe.
  - split; [apply HS|]. intros w' d Hd. by apply HS, Hds.
  - apply at_server_safe; [done|]. by eapply foreign_safe.
Qed.

Lemma steps_safe E0 (s s' : System St) : system_safe E0 s -> rtc step s s' -> system_safe E0 s'.
Proof. intros HS HX. induction HX as [|s1 s2 s3 H1 _ IH]; [done|]. apply IH. by eapply step_safe. Qed.

(** A route nobody has used yet. *)
Definition fresh_system (s : System St) : Prop :=
  entries (stream w) (view (sys_server s)) = [] /\
  group (stream w) (consumer_group w) (view (sys_server s)) = no_group /\
  hash (retry_payload_key w) (view (sys_server s)) = ∅ /\ inflight s = [].

Lemma fresh_system_safe s : fresh_system s -> system_safe [] s.
Proof.
  intros (HE & HG & HP & HI). split; [split; [|apply prefix_nil]; split|].
  - rewrite HE. apply NoDup_nil_2.
  - rewrite HG, HE. done.
  - intros e. rewrite HE. by intros ?%elem_of_nil.
  - intros i x. by rewrite HP, lookup_empty.
  - intros w' d. rewrite HI. by intros ?%elem_of_nil.
Qed.
End system.

(** ** Properties: no job is lost *)

(** C23: a published job is never lost. Take any history of a route: publishes, reads,
    reclaims, promotions and settlements by any workers of its consumer group, with
    commands failing at any point of a script, requests and replies lost, tasks and
    processes dying and other clients interfering. If a publish then reports success,
    at every later moment the job is waiting in the stream, pending, scheduled for a
    retry with its payload and attempt, or in the dead-letter stream, unless a handler
    has succeeded on it. *)
Theorem published_job_kept `{RedisCommandLaws} w {St} process (succeeded : RedisStreamsDelivery -> St -> bool)
    policy (s0 s1 s2 : System St) m l db :
  config_wf w -> Settling process succeeded -> fresh_system w s0 ->
  rtc (step w process succeeded policy) s0 s1 ->
  publish (stream w) m l (sys_server s1) = (Ok tt, db) ->
  rtc (step w process succeeded policy) (at_server db s1) s2 ->
  kept w (view (sys_server s2)) (msg_payload m) \/ msg_payload m ∈ handled s2.
Proof.
  intros Hw HP HF0 HS1 HPub HS2. apply fresh_system_safe in HF0.
  pose proof (steps_safe w process succeeded policy Hw _ _ _ HF0 HS1) as S1.
  assert (S1' : system_safe w (entries (stream w) (view db)) (at_server db s1)).
  { pose proof (at_server_safe w _ s1 db S1) as HA.
    assert (HD : safe_from w (entries (stream w) (view (sys_server s1))) (handled s1) (view db)).
    { pose proof (publish_safe w Hw _ _ m l _ (safe_from_here w _ _ _ (proj1 S1))) as HX.
      by rewrite HPub in HX. }
    destruct (HA HD) as [HI HF]. split; [by eapply safe_from_here | done]. }
  pose proof (steps_safe w process succeeded policy Hw _ _ _ S1' HS2) as [[S2 [l2 HE]] _].
  assert (HIn : exists i, {| entry_id := i; entry_fields := [(PAYLOAD_FIELD, msg_payload m);
                             (ATTEMPT_FIELD, to_dec (msg_attempt m))] |} ∈ entries (stream w) (view db)).
  { unfold publish in HPub. destruct (bounded _ _ _) as [[i|] db1] eqn:E; [|done]. simpl in HPub.
    injection HPub as <-. apply bounded_reply in E.
    pose proof (xadd_law (stream w) [(PAYLOAD_FIELD, msg_payload m); (ATTEMPT_FIELD, to_dec (msg_attempt m))]
      (sys_server s1)) as HL. rewrite E in HL. destruct HL as [_ ->]. exists i. unfold view_xadd.
    rewrite entries_set. apply elem_of_app. right. by apply list_elem_of_singleton. }
  destruct HIn as [i HIn]. pose proof (body_published (msg_payload m) (to_dec (msg_attempt m)) i) as HB.
  rewrite <- HB. apply (safe_jobs w _ _ S2). rewrite HE. apply elem_of_app. by left.
Qed.
