(* ===== verification/RedisLiveness.v ===== *)
(** A Redis Streams worker on a responsive server empties its route: every waiting,
    pending or scheduled job is settled after a bounded number of rounds. *)

From Stdlib Require Import ZArith Lia Bool Ascii.
From stdpp Require Import gmap sets.
From S2P Require Import Prelude Strings Json JobEnvelope Jobs RedisStreams RedisJobs RedisDelivery.

Local Open Scope Z_scope.

(** ** Counting the deliveries a job can still have *)

Lemma sum_list_with_ext {A} (f h : A -> nat) l :
  (forall x, x ∈ l -> f x = h x) -> sum_list_with f l = sum_list_with h l.
Proof.
  induction l as [|x l IH]; [done|]. intros HE. simpl. rewrite (HE x) by (by left). f_equal.
  apply IH. intros y Hy. apply HE. by right.
Qed.

Definition attempt_value (s : bytes) : option Z := parse_unsigned u16_max s.

Section weights.
Context (policy : RetryPolicy).

(** At most so many deliveries, counting the next one; a job without a usable attempt
    is dead-lettered at its next delivery. *)
Definition deliveries_left (attempt : option Z) : nat :=
  match attempt with
  | None => 1
  | Some a => Z.to_nat (Z.max 1 (max_deliveries policy - a + 1))
  end.

Lemma deliveries_left_pos a : (1 <= deliveries_left a)%nat.
Proof. destruct a; simpl; lia. Qed.

Definition entry_left (e : StreamEntry) : nat :=
  deliveries_left (entry_get e ATTEMPT_FIELD ≫= attempt_value).
Definition id_left (es : list StreamEntry) (i : EntryId) : nat :=
  match find_entry i es with Some e => entry_left e | None => 0 end.
Definition record_left (attempts : gmap bytes bytes) (i : bytes) : nat :=
  deliveries_left (attempts !! i ≫= attempt_value).
Definition records_left (attempts : gmap bytes bytes) (z : gmap bytes Z) : nat :=
  sum_list_with (fun x => record_left attempts x.1) (map_to_list z).

Lemma records_left_ext a a' z :
  (forall i, is_Some (z !! i) -> a !! i = a' !! i) -> records_left a z = records_left a' z.
Proof.
  intros HE. apply sum_list_with_ext. intros [i sc] Hx. apply elem_of_map_to_list in Hx.
  unfold record_left. simpl. by rewrite HE.
Qed.

Lemma records_left_delete a z i sc :
  z !! i = Some sc -> records_left a z = (record_left a i + records_left (delete i a) (delete i z))%nat.
Proof.
  intros Hi. unfold records_left at 1. rewrite <- (map_to_list_delete z i sc Hi). simpl. f_equal.
  fold (records_left a (delete i z)). apply records_left_ext. intros j Hj.
  destruct (decide (i = j)) as [->|]; [rewrite lookup_delete_eq in Hj; by destruct Hj|].
  by rewrite lookup_delete_ne.
Qed.

Lemma records_left_delete_le a z i : (records_left (delete i a) (delete i z) <= records_left a z)%nat.
Proof.
  destruct (z !! i) as [sc|] eqn:E; [rewrite (records_left_delete a z i sc E); lia|].
  rewrite (delete_id z) by done. rewrite (records_left_ext a (delete i a)); [done|].
  intros j Hj. rewrite lookup_delete_ne; [done|]. intros ->. rewrite E in Hj. by destruct Hj.
Qed.

Lemma records_left_insert a z i x sc :
  (records_left (<[i := x]> a) (<[i := sc]> z) <= deliveries_left (attempt_value x) + records_left a z)%nat.
Proof.
  rewrite (records_left_delete _ _ i sc) by apply lookup_insert_eq. unfold record_left.
  rewrite lookup_insert_eq, !delete_insert_eq. simpl. pose proof (records_left_delete_le a z i). lia.
Qed.

Lemma records_left_zero a z : records_left a z = 0%nat -> z = ∅.
Proof.
  intros HZ. apply map_empty. intros i. destruct (z !! i) as [sc|] eqn:E; [|done].
  rewrite (records_left_delete a z i sc E) in HZ. unfold record_left in HZ.
  pose proof (deliveries_left_pos (a !! i ≫= attempt_value)). lia.
Qed.

Lemma id_left_app es e i : i ∈ entry_id <$> es -> id_left (es ++ [e]) i = id_left es i.
Proof.
  intros Hi. unfold id_left. destruct (find_entry i es) as [x|] eqn:E; [by rewrite (find_entry_app _ _ _ _ E)|].
  by apply find_entry_None in E.
Qed.

(** A retry costs a delivery. *)
Lemma retry_left p a n d :
  p = policy -> policy_in_range p -> validate_retry_policy p = Ok tt -> 1 <= a ->
  after_failure p a = Retry n d ->
  (deliveries_left (attempt_value (to_dec n)) < deliveries_left (Some a))%nat.
Proof.
  intros -> HR HV Ha HA. destruct (validated_delay _ _ _ _ HR HV Ha HA) as (Hlt & -> & _).
  destruct HR as (Hm & _). unfold attempt_value. rewrite parse_to_dec by lia. simpl. lia.
Qed.
End weights.

(** ** The state of a route *)

Section route.
Context (w : RedisStreamsWorkerConfig) (Hw : config_wf w) (policy : RetryPolicy).
Notation k := (stream w).
Notation g := (consumer_group w).
Notation dlq := (dead_letter_stream w).
Notation sched := (retry_schedule_key w).
Notation pays := (retry_payload_key w).
Notation atts := (retry_attempt_key w).
Implicit Types v : Redis.

(** All deliveries still possible on the route. *)
Definition backlog v : nat :=
  (sum_list_with (entry_left policy) (waiting k g v)
   + sum_list_with (id_left policy (entries k v)) (pending_id <$> pel (group k g v))
   + records_left policy (hash atts v) (zset sched v))%nat.

(** What the server holds for a route: [max_delay] is the longest delay, in
    milliseconds. *)
Record route_wf (max_delay : Z) v : Prop := {
  route_ids : NoDup (entry_id <$> entries k v);
  route_delivered : (delivered (group k g v) <= List.length (entries k v))%nat;
  route_group : is_Some (groups v !! (k, g));
  route_pel_ids : NoDup (pending_id <$> pel (group k g v));
  route_pel_known q : q ∈ pel (group k g v) ->
    pending_id q ∈ entry_id <$> take (delivered (group k g v)) (entries k v);
  route_pel_counts q : q ∈ pel (group k g v) -> 1 <= times_delivered q /\ delivered_at q <= clock_ms v;
  route_records i sc : zset sched v !! i = Some sc ->
    is_Some (hash pays v !! i) /\ is_Some (hash atts v !! i) /\ sc <= clock_ms v + max_delay
}.

Lemma backlog_zero v :
  backlog v = 0%nat -> (forall q, q ∈ pel (group k g v) -> is_Some (find_entry (pending_id q) (entries k v))) ->
  waiting k g v = [] /\ pel (group k g v) = [] /\ zset sched v = ∅.
Proof.
  unfold backlog. intros HB HK. split_and!.
  - destruct (waiting k g v) as [|e l]; [done|]. simpl in HB.
    pose proof (deliveries_left_pos policy (entry_get e ATTEMPT_FIELD ≫= attempt_value)).
    unfold entry_left in HB. lia.
  - destruct (pel (group k g v)) as [|q l] eqn:E; [done|]. simpl in HB.
    destruct (HK q) as [e He]; [by left|]. unfold id_left in HB. rewrite He in HB.
    pose proof (deliveries_left_pos policy (entry_get e ATTEMPT_FIELD ≫= attempt_value)).
    unfold entry_left in HB. lia.
  - apply (records_left_zero policy (hash atts v)). lia.
Qed.

Lemma pel_found m v q :
  route_wf m v -> q ∈ pel (group k g v) ->
  exists e, find_entry (pending_id q) (entries k v) = Some e /\ e ∈ entries k v.
Proof.
  intros HR Hq. pose proof (route_pel_known _ _ HR q Hq) as HI.
  apply list_elem_of_fmap in HI as (e & HI & He). exists e.
  assert (Hin : e ∈ entries k v).
  { apply elem_of_take in He as (j & He & _). by apply list_elem_of_lookup_2 in He. }
  split; [|done]. rewrite HI. apply find_entry_unique; [by destruct HR | done].
Qed.

(** Changes elsewhere leave the route alone. *)
Lemma route_ext m v v' :
  entries k v' = entries k v -> groups v' !! (k, g) = groups v !! (k, g) ->
  hash pays v' = hash pays v -> hash atts v' = hash atts v -> zset sched v' = zset sched v ->
  clock v' = clock v -> route_wf m v -> route_wf m v' /\ backlog v' = backlog v.
Proof.
  intros HE HG HP HA HZ HC HR. assert (HG' : group k g v' = group k g v) by (unfold group; by rewrite HG).
  split; [destruct HR; split|]; unfold backlog, waiting, clock_ms in *;
    rewrite ?HE, ?HG', ?HG, ?HP, ?HA, ?HZ, ?HC; done.
Qed.

(** *** Reading *)

Lemma taken_ids v e n : e ∈ take n (waiting k g v) -> e ∈ entries k v.
Proof.
  intros He. apply elem_of_take in He as (i & He & _). apply list_elem_of_lookup_2 in He.
  by apply waiting_entries in He.
Qed.

Lemma waiting_disjoint m v i :
  route_wf m v -> i ∈ entry_id <$> take (delivered (group k g v)) (entries k v) ->
  i ∉ entry_id <$> waiting k g v.
Proof.
  intros HR Hi Hi'. destruct HR as [HN _ _ _ _ _ _].
  rewrite <- (take_drop (delivered (group k g v)) (entries k v)), fmap_app in HN.
  apply NoDup_app in HN as (_ & HD & _). by apply (HD i Hi).
Qed.

Lemma ids_of_fresh c now l : pending_id <$> map (fresh_pending c now) l = entry_id <$> l.
Proof. induction l as [|e l IH]; [done|]. simpl. by f_equal. Qed.

Lemma read_route m v c n :
  route_wf m v -> route_wf m (view_xreadgroup k g c n v) /\
  backlog (view_xreadgroup k g c n v) = backlog v.
Proof.
  intros HR. set (given := take n (waiting k g v)).
  assert (HW : waiting k g (view_xreadgroup k g c n v) = drop n (waiting k g v)).
  { unfold waiting at 1, view_xreadgroup. rewrite group_set. cbn [delivered].
    change (entries k (set_group _ _ _ v)) with (entries k v). rewrite <- drop_drop.
    fold (waiting k g v). rewrite length_take. destruct (le_lt_dec n (List.length (waiting k g v))).
    - by rewrite Nat.min_l.
    - rewrite Nat.min_r, !drop_ge by lia. done. }
  assert (HT : take (delivered (group k g v) + List.length given) (entries k v) =
               take (delivered (group k g v)) (entries k v) ++ given).
  { subst given. rewrite <- take_take_drop. f_equal. fold (waiting k g v). rewrite length_take.
    destruct (le_lt_dec n (List.length (waiting k g v))); [by rewrite Nat.min_l|].
    rewrite Nat.min_r, !take_ge by lia. done. }
  split.
  - pose proof HR as [H1 H2 H3 H4 H5 H6 H7]. split; try done; unfold view_xreadgroup;
      rewrite ?group_set; cbn [delivered pel]; fold given.
    + change (entries k (set_group _ _ _ v)) with (entries k v). subst given.
      unfold waiting. rewrite length_take, length_drop. lia.
    + simpl. rewrite lookup_insert_eq. by eexists.
    + rewrite fmap_app, ids_of_fresh. apply NoDup_app. split_and!; [done| |].
      * intros i (q & -> & Hq)%list_elem_of_fmap Hin. apply (waiting_disjoint m v (pending_id q) HR); [by apply H5|].
        apply list_elem_of_fmap in Hin as (e & -> & He). apply list_elem_of_fmap. exists e. split; [done|].
        apply elem_of_take in He as (j & He & _). by apply list_elem_of_lookup_2 in He.
      * eapply sublist_NoDup; [exact H1|]. apply fmap_sublist. subst given.
        etrans; [apply sublist_take | apply sublist_drop].
    + change (entries k (set_group _ _ _ v)) with (entries k v). rewrite HT. intros q Hq.
      rewrite fmap_app. apply elem_of_app. apply elem_of_app in Hq as [Hq|Hq]; [left; by apply H5|right].
      apply list_elem_of_In, List.in_map_iff in Hq as (e & <- & He). apply list_elem_of_fmap.
      exists e. split; [done | by apply list_elem_of_In].
    + intros q Hq. apply elem_of_app in Hq as [Hq|Hq]; [by apply H6|].
      apply list_elem_of_In, List.in_map_iff in Hq as (e & <- & He). simpl. unfold clock_ms. simpl. lia.
  - unfold backlog. rewrite HW. unfold view_xreadgroup. rewrite group_set. cbn [pel]. fold given.
    rewrite fmap_app, ids_of_fresh, sum_list_with_app.
    change (entries k (set_group _ _ _ v)) with (entries k v).
    change (hash atts (set_group _ _ _ v)) with (hash atts v).
    change (zset sched (set_group _ _ _ v)) with (zset sched v).
    rewrite <- (take_drop n (waiting k g v)) at 2. fold given. rewrite sum_list_with_app.
    assert (HS : sum_list_with (id_left policy (entries k v)) (entry_id <$> given) =
                 sum_list_with (entry_left policy) given).
    { assert (HG : forall e, e ∈ given -> id_left policy (entries k v) (entry_id e) = entry_left policy e).
      { intros e He%taken_ids. unfold id_left. rewrite find_entry_unique; [done | by destruct HR | done]. }
      clear -HG. induction given as [|e l IH]; [done|]. simpl. rewrite HG by (by left). f_equal.
      apply IH. intros x Hx. apply HG. by right. }
    lia.
Qed.

(** *** Claiming *)

Lemma claim_ids c now es sel l :
  (forall q, q ∈ l -> is_Some (find_entry (pending_id q) es)) ->
  pending_id <$> List.flat_map (claim_one c now es sel) l = pending_id <$> l.
Proof.
  induction l as [|q l IH]; intros HF; [done|]. simpl. rewrite fmap_app, IH by (intros; apply HF; by right).
  destruct (HF q) as [e He]; [by left|]. unfold claim_one. rewrite He. simpl. by destruct (existsb _ _).
Qed.

Lemma claim_route m v c idle n :
  route_wf m v -> route_wf m (view_xautoclaim k g c idle n v) /\
  backlog (view_xautoclaim k g c idle n v) = backlog v.
Proof.
  intros HR. assert (HI : pending_id <$> pel (group k g (view_xautoclaim k g c idle n v)) =
                          pending_id <$> pel (group k g v)).
  { unfold view_xautoclaim. rewrite group_set. cbn [pel]. apply claim_ids. intros q Hq.
    destruct (pel_found m v q HR Hq) as (e & He & _). by eexists. }
  assert (HD : delivered (group k g (view_xautoclaim k g c idle n v)) = delivered (group k g v)).
  { unfold view_xautoclaim. by rewrite group_set. }
  split.
  - destruct HR as [H1 H2 H3 H4 H5 H6 H7].
    split; rewrite ?HI, ?HD; try done.
    + unfold view_xautoclaim. simpl. rewrite lookup_insert_eq. by eexists.
    + intros q Hq. assert (Hq' : pending_id q ∈ pending_id <$> pel (group k g v)).
      { rewrite <- HI. apply list_elem_of_fmap. by exists q. }
      apply list_elem_of_fmap in Hq' as (q' & -> & Hq'). by apply H5.
    + intros q Hq. unfold view_xautoclaim in Hq. rewrite group_set in Hq. cbn [pel] in Hq.
      apply list_elem_of_In, List.in_flat_map in Hq as (q' & Hq' & Hq). apply list_elem_of_In in Hq'.
      destruct (H6 q' Hq') as [HT HL]. change (clock_ms (view_xautoclaim k g c idle n v)) with (clock_ms v).
      unfold claim_one in Hq. destruct (existsb _ _); [destruct (is_some _)|]; simpl in Hq;
        [destruct Hq as [<-|[]]; simpl; lia | done | destruct Hq as [<-|[]]; done].
  - unfold backlog, waiting. rewrite HI, HD. done.
Qed.

(** *** Settling *)

Lemma filter_pending l q :
  NoDup (pending_id <$> l) -> q ∈ l ->
  l ≡ₚ q :: List.filter (fun p => negb (is_pending (pending_id q) p)) l.
Proof.
  induction l as [|x l IH]; [by intros _ ?%elem_of_nil|]. rewrite fmap_cons, NoDup_cons. intros [Hx HN].
  rewrite elem_of_cons. intros [->|Hq]; simpl.
  - unfold is_pending at 1. rewrite (proj2 (str_eqb_true _ _)) by done. simpl. constructor.
    assert (HF : forall y, y ∈ l -> negb (is_pending (pending_id x) y) = true).
    { intros y Hy. apply negb_true_iff. unfold is_pending. destruct (str_eqb _ _) eqn:E; [|done].
      apply str_eqb_true in E. destruct Hx. apply list_elem_of_fmap. exists y. by rewrite E. }
    rewrite forallb_filter_id; [done|]. apply List.forallb_forall. intros y Hy. by apply HF, list_elem_of_In.
  - assert (E : is_pending (pending_id q) x = false).
    { unfold is_pending. destruct (str_eqb _ _) eqn:E; [|done]. apply str_eqb_true in E. destruct Hx.
      apply list_elem_of_fmap. by exists q. }
    rewrite E. simpl. rewrite (IH HN Hq) at 1. apply Permutation_swap.
Qed.

Lemma ack_route m v q :
  route_wf m v -> q ∈ pel (group k g v) ->
  route_wf m (view_xack k g (pending_id q) v) /\
  backlog v = (id_left policy (entries k v) (pending_id q) + backlog (view_xack k g (pending_id q) v))%nat.
Proof.
  intros HR Hq. assert (HP := filter_pending _ q (route_pel_ids _ _ HR) Hq).
  set (f := List.filter _ _) in HP.
  assert (HG : group k g (view_xack k g (pending_id q) v) = {| delivered := delivered (group k g v); pel := f |})
    by apply group_xack.
  assert (HE := entries_xack k g (pending_id q) k v).
  assert (HF : forall x, x ∈ f -> x ∈ pel (group k g v)) by (intros x Hx; rewrite HP; by right).
  split.
  - pose proof HR as [H1 H2 H3 H4 H5 H6 H7]. split; rewrite ?HE, ?HG, ?zset_xack, ?hash_xack; try done.
    + unfold view_xack. destruct H3 as [x Hx]. rewrite Hx. simpl. rewrite lookup_insert_eq. by eexists.
    + rewrite HP in H4. by apply NoDup_cons in H4 as [_ H4].
    + intros x Hx. by apply H5, HF.
    + intros x Hx. destruct (H6 x (HF x Hx)) as [HT HL]. split; [done|].
      unfold view_xack, clock_ms. by destruct (groups v !! (k, g)).
    + intros i sc Hi. destruct (H7 i sc Hi) as (? & ? & ?). split_and!; [done..|].
      unfold view_xack, clock_ms. by destruct (groups v !! (k, g)).
  - unfold backlog, waiting. rewrite HE, HG, zset_xack, hash_xack. cbn [delivered pel].
    rewrite (sum_list_with_Permutation_proper _ _ _ (fmap_Permutation pending_id _ _ HP)). rewrite fmap_cons. cbn [sum_list_with]. lia.
Qed.

(** *** Retrying *)

Definition rescheduled (i b a : bytes) (sc : Z) v : Redis :=
  view_zadd sched sc i (view_hset atts i a (view_hset pays i b v)).

Lemma hash_pays_rescheduled i b a sc v : hash pays (rescheduled i b a sc v) = <[i := b]> (hash pays v).
Proof.
  unfold rescheduled, view_zadd, view_hset.
  change (hash pays (set_zset _ _ ?x)) with (hash pays x).
  rewrite hash_set_ne by (by apply pays_atts). by rewrite hash_set.
Qed.
Lemma hash_atts_rescheduled i b a sc v : hash atts (rescheduled i b a sc v) = <[i := a]> (hash atts v).
Proof.
  unfold rescheduled, view_zadd, view_hset.
  change (hash atts (set_zset _ _ ?x)) with (hash atts x).
  rewrite hash_set. by rewrite hash_set_ne by (apply not_eq_sym; by apply pays_atts).
Qed.
Lemma zset_rescheduled i b a sc v : zset sched (rescheduled i b a sc v) = <[i := sc]> (zset sched v).
Proof. unfold rescheduled, view_zadd. by rewrite zset_set. Qed.

Lemma rescheduled_route m i b a sc v :
  route_wf m v -> sc <= clock_ms v + m ->
  route_wf m (rescheduled i b a sc v) /\
  (backlog (rescheduled i b a sc v) <= backlog v + deliveries_left policy (attempt_value a))%nat.
Proof.
  intros [H1 H2 H3 H4 H5 H6 H7] Hsc. split.
  - split; try done. intros j s. rewrite zset_rescheduled, hash_pays_rescheduled, hash_atts_rescheduled.
    change (clock_ms (rescheduled i b a sc v)) with (clock_ms v).
    destruct (decide (i = j)) as [->|Hj].
    + rewrite !lookup_insert_eq. intros [= <-]. split_and!; [by eexists..|done].
    + rewrite !lookup_insert_ne by done. apply H7.
  - unfold backlog. rewrite zset_rescheduled, hash_atts_rescheduled.
    change (waiting k g (rescheduled i b a sc v)) with (waiting k g v).
    change (entries k (rescheduled i b a sc v)) with (entries k v).
    change (group k g (rescheduled i b a sc v)) with (group k g v).
    etrans; [apply Nat.add_le_mono_l, records_left_insert | lia].
Qed.

(** *** Promoting *)

Definition promoted (i x b a : bytes) v : Redis :=
  view_zrem sched i (view_hdel atts i (view_hdel pays i
    (view_xadd k x [(PAYLOAD_FIELD, b); (ATTEMPT_FIELD, a)] v))).

Lemma promoted_route m i x b a sc v :
  route_wf m v -> zset sched v !! i = Some sc -> hash atts v !! i = Some a ->
  find_entry x (entries k v) = None ->
  route_wf m (promoted i x b a v) /\ backlog (promoted i x b a v) = backlog v /\
  groups (promoted i x b a v) = groups v /\ zset sched (promoted i x b a v) = delete i (zset sched v) /\
  clock (promoted i x b a v) = clock v /\
  List.length (waiting k g (promoted i x b a v)) = S (List.length (waiting k g v)).
Proof.
  intros HR Hi Ha Hx. set (e := {| entry_id := x; entry_fields := [(PAYLOAD_FIELD, b); (ATTEMPT_FIELD, a)] |}).
  pose proof HR as [H1 H2 H3 H4 H5 H6 H7].
  assert (HE : entries k (promoted i x b a v) = entries k v ++ [e]).
  { unfold promoted, view_zrem, view_hdel, view_xadd.
    change (entries k (set_zset _ _ (set_hash _ _ (set_hash _ _ ?y)))) with (entries k y). by rewrite entries_set. }
  assert (HG : group k g (promoted i x b a v) = group k g v) by done.
  assert (HW : waiting k g (promoted i x b a v) = waiting k g v ++ [e]).
  { unfold waiting. rewrite HE, HG. by rewrite drop_app_le. }
  assert (HZ : zset sched (promoted i x b a v) = delete i (zset sched v)).
  { unfold promoted, view_zrem. by rewrite zset_set. }
  assert (HA : hash atts (promoted i x b a v) = delete i (hash atts v)).
  { unfold promoted, view_zrem, view_hdel. change (hash atts (set_zset _ _ ?y)) with (hash atts y).
    rewrite hash_set. by rewrite hash_set_ne by (apply not_eq_sym; by apply pays_atts). }
  assert (HP : hash pays (promoted i x b a v) = delete i (hash pays v)).
  { unfold promoted, view_zrem, view_hdel. change (hash pays (set_zset _ _ ?y)) with (hash pays y).
    rewrite hash_set_ne by (by apply pays_atts). by rewrite hash_set. }
  assert (Hin : forall j, j ∈ entry_id <$> take (delivered (group k g v)) (entries k v) ->
                j ∈ entry_id <$> entries k v).
  { intros j (y & -> & Hy)%list_elem_of_fmap. apply list_elem_of_fmap. exists y. split; [done|].
    apply elem_of_take in Hy as (n & Hy & _). by apply list_elem_of_lookup_2 in Hy. }
  split_and!; [split| | done | done | done | rewrite HW, length_app; simpl; lia].
  - rewrite HE, fmap_app. apply NoDup_app. split_and!; [done| |apply NoDup_singleton].
    intros j Hj Hj'. apply list_elem_of_singleton in Hj' as ->. by apply find_entry_None in Hx.
  - rewrite HE, HG, length_app. lia.
  - done.
  - by rewrite HG.
  - rewrite HE, HG. intros q Hq. rewrite take_app_le by done. by apply H5.
  - rewrite HG. apply H6.
  - rewrite HZ, HA, HP. intros j s. destruct (decide (i = j)) as [->|Hj]; [by rewrite lookup_delete_eq|].
    rewrite !lookup_delete_ne by done. apply H7.
  - unfold backlog. rewrite HW, HE, HG, HZ, HA, sum_list_with_app.
    rewrite (records_left_delete policy (hash atts v) (zset sched v) i sc Hi).
    assert (HL : sum_list_with (entry_left policy) [e] = record_left policy (hash atts v) i).
    { unfold record_left. rewrite Ha. cbn [sum_list_with]. unfold entry_left, entry_get. simpl.
      rewrite lookup_insert_eq. simpl. lia. }
    assert (HS : sum_list_with (id_left policy (entries k v ++ [e])) (pending_id <$> pel (group k g v)) =
                 sum_list_with (id_left policy (entries k v)) (pending_id <$> pel (group k g v))).
    { apply sum_list_with_ext. intros j (q & -> & Hq)%list_elem_of_fmap. apply id_left_app.
      by apply Hin, H5. }
    lia.
Qed.
End route.

(** ** The scripts on a server that accepts them *)

(** The instants at which the arithmetic of the scripts is exact. *)
Definition exact_clock (ms : Z) : Prop := 0 <= ms < 2 ^ 53.

Lemma lua_now_exact c :
  0 <= c -> exact_clock (c / 1000) -> lua_now_ms (c / 1000000, c mod 1000000) = c / 1000.
Proof.
  intros Hc HX. unfold lua_now_ms, exact_clock in *. simpl.
  assert (HD : c / 1000000 * 1000 + c mod 1000000 / 1000 = c / 1000).
  { rewrite <- (Z.div_add_l (c / 1000000 * 1000) 1000 (c mod 1000000)) by lia. f_equal.
    pose proof (Z.div_mod c 1000000 ltac:(lia)). lia. }
  assert (0 <= c mod 1000000 / 1000) by (apply Z.div_pos; [apply Z.mod_pos_bound|]; lia).
  assert (0 <= c / 1000000) by (apply Z.div_pos; lia).
  rewrite (to_double_exact (c / 1000000 * 1000)) by lia. rewrite HD. by apply to_double_exact.
Qed.

Section total.
Context `{HA : RedisAccepts} (w : RedisStreamsWorkerConfig) (Hw : config_wf w).
Context (policy : RetryPolicy) (max_delay : Z).
Notation k := (stream w).
Notation g := (consumer_group w).
Notation dlq := (dead_letter_stream w).
Notation sched := (retry_schedule_key w).
Notation pays := (retry_payload_key w).
Notation atts := (retry_attempt_key w).
Notation never := (fun _ : Redis => False).
Implicit Types v : Redis.

(** The pending entry of a delivery is owned by this worker. *)
Definition owner v (i : EntryId) : Prop :=
  exists q, q ∈ pel (group k g v) /\ pending_id q = i /\ pending_consumer q = consumer w.

Lemma owner_pending v i :
  owner v i -> (List.length (take 1 (view_xpending k g i (Some (consumer w)) v)) =? 0)%nat = false.
Proof.
  intros (q & Hq & Hi & Hc). apply Nat.eqb_neq. unfold view_xpending.
  destruct (List.filter _ _) as [|x l] eqn:E; [|done].
  assert (HF : List.In q (List.filter (fun p => is_pending i p && str_eqb (pending_consumer p) (consumer w))
    (pel (group k g v)))).
  { apply List.filter_In. split; [by apply list_elem_of_In|]. unfold is_pending.
    by rewrite (proj2 (str_eqb_true _ _) Hi), (proj2 (str_eqb_true _ _) Hc). }
  by rewrite E in HF.
Qed.

Lemma owner_acked v i :
  owner v i -> (if existsb (is_pending i) (pel (group k g v)) then 1 else 0) = 1.
Proof.
  intros (q & Hq & Hi & _). destruct (existsb _ _) eqn:E; [done|].
  apply existsb_false in E. rewrite Forall_forall in E. specialize (E q Hq). unfold is_pending in E.
  by rewrite (proj2 (str_eqb_true _ _) Hi) in E.
Qed.

Lemma ack_total v0 i :
  is_Some (groups v0 !! (k, g)) -> owner v0 i ->
  hoare (fun v => v = v0) (ack_if_owned_script k g i (consumer w))
    (fun n v => n = 1 /\ v = view_xack k g i v0) never.
Proof.
  intros HG HO. unfold ack_if_owned_script. eapply (hoare_bind _ _ (fun l v => v = v0 /\
    (List.length l =? 0)%nat = false)).
  { apply hoare_xpending; [intros s HE; left; apply xpending_ok; by rewrite HE|].
    intros v ->. split; [done | by apply owner_pending]. }
  intros l.
  destruct (List.length l =? 0)%nat; [intros s [_ HX]; done|].
  apply hoare_xack; [intros s _; left; apply xack_ok|]. intros v [-> _]. split; [by apply owner_acked | done].
Qed.

Lemma dead_total v0 i b a :
  is_Some (groups v0 !! (k, g)) -> owner v0 i ->
  hoare (fun v => v = v0) (dead_letter_if_owned_script k dlq g i (consumer w) b a)
    (fun n v => n = 1 /\ exists x fs, v = view_xack k g i (view_xadd dlq x fs v0)) never.
Proof.
  intros HG HO. unfold dead_letter_if_owned_script. eapply (hoare_bind _ _ (fun l v => v = v0 /\
    (List.length l =? 0)%nat = false)).
  { apply hoare_xpending; [intros s HE; left; apply xpending_ok; by rewrite HE|].
    intros v ->. split; [done | by apply owner_pending]. }
  intros l. destruct (List.length l =? 0)%nat; [intros s [_ HX]; done|].
  eapply (hoare_bind _ _ (fun _ v => exists x fs, v = view_xadd dlq x fs v0)).
  { apply hoare_xadd; [intros s _; left; apply xadd_ok|]. intros v x [-> _] _. eauto. }
  intros x. apply hoare_xack; [intros s _; left; apply xack_ok|]. intros v (y & fs & ->).
  split; [by apply owner_acked | by eauto].
Qed.

Lemma retry_total v0 i b a delay :
  is_Some (groups v0 !! (k, g)) -> owner v0 i -> 0 <= clock v0 -> 0 <= delay ->
  exact_clock (clock_ms v0) -> exact_clock (clock_ms v0 + delay) ->
  hoare (fun v => v = v0) (schedule_retry_script k sched pays atts g i (consumer w) i delay b a)
    (fun n v => n = 1 /\ v = view_xack k g i (rescheduled w i b a (clock_ms v0 + delay) v0)) never.
Proof.
  intros HG HO Hc Hd HX HX'. unfold schedule_retry_script. eapply (hoare_bind _ _ (fun l v => v = v0 /\
    (List.length l =? 0)%nat = false)).
  { apply hoare_xpending; [intros s HE; left; apply xpending_ok; by rewrite HE|].
    intros v ->. split; [done | by apply owner_pending]. }
  intros l. destruct (List.length l =? 0)%nat; [intros s [_ HF]; done|].
  eapply (hoare_bind _ _ (fun now v => v = v0 /\ lua_now_ms now = clock_ms v0)).
  { apply hoare_time; [intros s _; left; apply time_ok|]. intros v [-> _]. split; [done|].
    by apply lua_now_exact. }
  intros now. set (due := to_double _).
  eapply (hoare_bind _ _ (fun _ v => v = view_hset pays i b v0 /\ due = clock_ms v0 + delay)).
  { apply hoare_hset; [intros s _; left; apply hset_ok|]. intros v _ [-> HN]. split; [done|]. subst due.
    rewrite HN. unfold exact_clock, clock_ms in *. rewrite (to_double_exact delay) by lia.
    apply to_double_exact. lia. }
  intros _1. eapply (hoare_bind _ _ (fun _ v => v = view_hset atts i a (view_hset pays i b v0) /\
    due = clock_ms v0 + delay)).
  { apply hoare_hset; [intros s _; left; apply hset_ok|]. by intros v _ [-> ->]. }
  intros _2. eapply (hoare_bind _ _ (fun _ v => v = rescheduled w i b a (clock_ms v0 + delay) v0)).
  { apply hoare_zadd; [intros s _; left; apply zadd_ok|]. by intros v _ [-> ->]. }
  intros _3. apply hoare_xack; [intros s _; left; apply xack_ok|]. intros v ->.
  split; [|done]. by apply owner_acked.
Qed.

(** Promotion moves every due record of the batch to the stream. *)
Lemma promote_record_total i v0 a b :
  hash pays v0 !! i = Some b -> hash atts v0 !! i = Some a ->
  hoare (fun v => v = v0) (promote_record k sched pays atts i)
    (fun _ v => exists x, find_entry x (entries k v0) = None /\ v = promoted w i x b a v0) never.
Proof.
  intros Hb Ha. unfold promote_record.
  eapply (hoare_bind _ _ (fun y v => v = v0 /\ y = Some b)).
  { apply hoare_hget; [intros s _; left; apply hget_ok|]. by intros v ->. }
  intros y. eapply (hoare_bind _ _ (fun z v => v = v0 /\ y = Some b /\ z = Some a)).
  { apply hoare_hget; [intros s _; left; apply hget_ok|]. by intros v [-> ->]. }
  intros z. eapply (hoare_bind _ _ (fun _ v => exists x, find_entry x (entries k v0) = None /\
    v = view_xadd k x [(PAYLOAD_FIELD, b); (ATTEMPT_FIELD, a)] v0)).
  { destruct y as [y|]; [|by intros s (_ & ? & _)]. destruct z as [z|]; [|by intros s (_ & _ & ?)].
    unfold lua_xadd. cbn [lua_bulk lua_argument]. apply hoare_xadd; [intros s _; left; apply xadd_ok|].
    intros v x (-> & [= ->] & [= ->]) Hx. by exists x. }
  intros _0. eapply (hoare_bind _ _ (fun _ v => exists x, find_entry x (entries k v0) = None /\
    v = view_hdel pays i (view_xadd k x [(PAYLOAD_FIELD, b); (ATTEMPT_FIELD, a)] v0))).
  { apply hoare_hdel; [intros s _; left; apply hdel_ok|]. intros v _ (x & Hx & ->). by exists x. }
  intros _1. eapply (hoare_bind _ _ (fun _ v => exists x, find_entry x (entries k v0) = None /\
    v = view_hdel atts i (view_hdel pays i (view_xadd k x [(PAYLOAD_FIELD, b); (ATTEMPT_FIELD, a)] v0)))).
  { apply hoare_hdel; [intros s _; left; apply hdel_ok|]. intros v _ (x & Hx & ->). by exists x. }
  intros _2. eapply (hoare_bind _ _ (fun _ v => exists x, find_entry x (entries k v0) = None /\
    v = promoted w i x b a v0)).
  { apply hoare_zrem; [intros s _; left; apply zrem_ok|]. intros v _ (x & Hx & ->). by exists x. }
  intros _3. by apply hoare_ret.
Qed.

(** What promotion has done when the records [rest] are still to be promoted. *)
Definition promoting (v0 : Redis) (n : nat) (rest : list bytes) v : Prop :=
  route_wf w max_delay v /\ backlog w policy v = backlog w policy v0 /\
  groups v = groups v0 /\ clock v = clock v0 /\ NoDup rest /\
  (forall i, i ∈ rest -> is_Some (zset sched v !! i)) /\
  (List.length (waiting k g v) + List.length rest = n)%nat.

Lemma promoting_step v0 n i rest :
  hoare (promoting v0 n (i :: rest)) (promote_record k sched pays atts i)
    (fun _ => promoting v0 n rest) never.
Proof.
  intros s (HR & HB & HG & HC & HN & HZ & HL). destruct (HZ i) as [sc Hi]; [by left|].
  destruct (route_records _ _ _ HR i sc Hi) as ([b Hb] & [a Ha] & _).
  pose proof (promote_record_total i (view s) a b Hb Ha s eq_refl) as HP.
  destruct (promote_record _ _ _ _ i s) as [[[]|] s'] eqn:E; [|done]. destruct HP as (x & Hx & HV).
  destruct (promoted_route w Hw policy max_delay i x b a sc (view s) HR Hi Ha Hx)
    as (HR' & HB' & HG' & HZ' & HC' & HL'). rewrite <- HV in *.
  apply NoDup_cons in HN as [Hni HN]. unfold promoting.
  split_and!; [done | congruence | congruence | congruence | done | |].
  - intros j Hj. rewrite HZ'. rewrite lookup_delete_ne; [apply HZ; by right|]. intros ->. done.
  - rewrite HL'. simpl in HL. lia.
Qed.

Lemma promote_total v0 n :
  route_wf w max_delay v0 -> 0 <= clock v0 -> exact_clock (clock_ms v0) -> (1 <= n)%nat ->
  (forall i sc, zset sched v0 !! i = Some sc -> sc <= clock_ms v0) ->
  hoare (fun v => v = v0) (promote_due_retries_script k sched pays atts n)
    (fun _ v => route_wf w max_delay v /\ backlog w policy v = backlog w policy v0 /\
       groups v = groups v0 /\ clock v = clock v0 /\
       (waiting k g v = [] -> waiting k g v0 = [] /\ zset sched v0 = ∅)) never.
Proof.
  intros HR Hc HX Hn HD. unfold promote_due_retries_script.
  eapply (hoare_bind _ _ (fun now v => v = v0 /\ lua_now_ms now = clock_ms v0)).
  { apply hoare_time; [intros s _; left; apply time_ok|]. intros v ->. split; [done|].
    by apply lua_now_exact. }
  intros now. eapply (hoare_bind _ _ (fun ids v => v = v0 /\ NoDup ids /\
    (forall i, i ∈ ids -> is_Some (zset sched v0 !! i)) /\ (ids = [] -> zset sched v0 = ∅))).
  { apply hoare_zrangebyscore; [intros s _; left; apply zrangebyscore_ok|].
    intros v ids [-> HN] HND HL HM. rewrite HN in *. split_and!; [done | done | |].
    - intros i Hi. destruct (HM i Hi) as [sc Hs]. apply map_lookup_filter_Some in Hs as [Hs _]. by eexists.
    - intros ->. simpl in HL. apply map_empty. intros i. destruct (zset sched v0 !! i) as [sc|] eqn:Ei; [|done].
      assert (HE : due_members (zset sched v0) (clock_ms v0) = ∅) by (apply map_size_empty_inv; lia).
      assert (Hf : due_members (zset sched v0) (clock_ms v0) !! i = Some sc).
      { apply map_lookup_filter_Some. split; [done|]. simpl. by eapply HD. }
      by rewrite HE, lookup_empty in Hf. }
  intros ids. set (P := fun v => _).
  eapply (hoare_bind _ _ (fun _ => P)).
  { apply (hoare_for_each _ _ (fun _ => P)). intros i l. unfold check_record. eapply (hoare_bind _ _ (fun _ => P)).
    { apply hoare_hexists; [intros s _; left; apply hexists_ok | done]. }
    intros p. cbn [truthy negb]. eapply (hoare_bind _ _ (fun b v => P v /\ b = false)).
    { eapply (hoare_bind _ _ (fun _ => P)).
      { apply hoare_hexists; [intros s _; left; apply hexists_ok | done]. }
      intros a. by apply hoare_ret. }
    intros []; [by intros s [_ ?] | by apply hoare_ret; intros v [? _]]. }
  intros _1. eapply (hoare_bind _ _ (fun _ v => promoting v0 (List.length (waiting k g v0) + List.length ids) [] v /\
    (ids = [] -> zset sched v0 = ∅))).
  { destruct ids as [|i0 ids0] eqn:Eids.
    - apply hoare_ret. intros v (-> & HN & HM & HE). split; [|done]. split_and!; try done.
    - rewrite <- Eids. eapply hoare_weaken with
        (P' := promoting v0 (List.length (waiting k g v0) + List.length ids) ids)
        (Q' := fun _ => promoting v0 (List.length (waiting k g v0) + List.length ids) []).
      + apply (hoare_for_each _ _ (promoting v0 (List.length (waiting k g v0) + List.length ids))).
        intros i l. apply promoting_step.
      + intros v (-> & HN & HM & _). rewrite Eids. by split_and!.
      + intros a v HPr. rewrite Eids in *. split; [done | done].
      + done. }
  intros _2. apply hoare_ret. intros v [(HR' & HB' & HG' & HC' & _ & _ & HL') HE]. split_and!; [done..|].
  intros HW. rewrite HW in HL'. simpl in HL'. split; [apply length_zero_iff_nil; lia|].
  apply HE. apply length_zero_iff_nil. lia.
Qed.
End total.

(** ** A worker on such a server *)

Section worker.
Context `{HA : RedisAccepts} (w : RedisStreamsWorkerConfig) (Hw : config_wf w).
Context (policy : RetryPolicy) (Hr : policy_in_range policy) (Hv : validate_retry_policy policy = Ok tt).
Context {St : Type} (process : RedisStreamsWorkerConfig -> Process St)
        (succeeded : RedisStreamsDelivery -> St -> bool) `{!Settling process succeeded}.
Context (wc : WorkerConfig) (Hc : (1 <= concurrency wc)%nat).
Notation k := (stream w).
Notation g := (consumer_group w).
Notation dlq := (dead_letter_stream w).
Notation sched := (retry_schedule_key w).
Notation max_delay := (as_millis (max_backoff policy)).
Notation backlog := (backlog w policy).
Notation route_wf := (route_wf w max_delay).
Implicit Types v : Redis.

(** The clock leaves room for a delay. *)
Definition clock_fits v : Prop := 0 <= clock v /\ exact_clock (clock_ms v + max_delay).

Lemma max_delay_nonneg : 0 <= max_delay.
Proof. unfold as_millis. destruct Hr as (_ & _ & ?). apply Z.div_pos; lia. Qed.

Lemma clock_fits_now v : clock_fits v -> exact_clock (clock_ms v).
Proof.
  intros [H1 H2]. pose proof max_delay_nonneg. unfold exact_clock, clock_ms in *.
  assert (0 <= clock v / 1000) by (apply Z.div_pos; lia). lia.
Qed.

(** A task of this worker: it owns its pending entry and has at least the attempts
    of the entry behind it. *)
Definition task_ok v (d : RedisStreamsDelivery) : Prop :=
  owner w v (delivery_entry_id d) /\
  (exists e, find_entry (delivery_entry_id d) (entries k v) = Some e /\
     (deliveries_left policy (delivery_attempt_number d) <= entry_left policy e)%nat) /\
  forall a, delivery_attempt_number d = Some a -> 1 <= a.

(** After a task is settled, the other tasks of the worker are as before. *)
Lemma task_ok_xack v v' i d :
  entries k v' = entries k v -> group k g v' = group k g v -> delivery_entry_id d <> i ->
  task_ok v d -> task_ok (view_xack k g i v') d.
Proof.
  intros HE HG Hi ((q & Hq & HI & HO) & He & Ha). split_and!; [|by rewrite entries_xack, HE|done].
  exists q. split_and!; [|done..]. rewrite group_xack, HG. simpl. apply list_elem_of_In, List.filter_In.
  split; [by apply list_elem_of_In|]. apply negb_true_iff. unfold is_pending.
  destruct (str_eqb _ _) eqn:E; [|done]. apply str_eqb_true in E. congruence.
Qed.

(** What settling one task does to the route. *)
Definition task_settled v v' (d : RedisStreamsDelivery) : Prop :=
  route_wf v' /\ (backlog v' < backlog v)%nat /\ clock v' = clock v /\
  forall d', delivery_entry_id d' <> delivery_entry_id d -> task_ok v d' -> task_ok v' d'.

Lemma settled_by_xack v v1 d extra :
  route_wf v1 -> entries k v1 = entries k v -> group k g v1 = group k g v -> clock v1 = clock v ->
  (backlog v1 <= backlog v + extra)%nat -> (extra < deliveries_left policy (delivery_attempt_number d))%nat ->
  task_ok v d -> task_settled v (view_xack k g (delivery_entry_id d) v1) d.
Proof.
  intros HR HE HG HC HB HX ((q & Hq & HI & HO) & (e & He & HL) & Ha). rewrite <- HI in *.
  rewrite <- HG in Hq. destruct (ack_route w policy _ v1 q HR Hq) as [HR' HB']. rewrite HE in HB'.
  unfold id_left in HB'. rewrite He in HB'. unfold task_settled. split_and!; [done | lia | |].
  - rewrite <- HC. unfold view_xack. by destruct (groups v1 !! (k, g)).
  - intros d' Hd'. rewrite <- HI in Hd'. by apply task_ok_xack.
Qed.

Lemma settle_total d action db :
  route_wf (view db) -> clock_fits (view db) -> task_ok (view db) d ->
  match action with
  | Retry _ _ => exists a, delivery_attempt_number d = Some a /\ action = after_failure policy a
  | _ => True
  end ->
  exists o db', settle_action w d action Delivered db = (Ok o, db') /\ task_settled (view db) (view db') d.
Proof.
  intros HR HC HT HX. pose proof (route_group _ _ _ HR) as HG. pose proof HT as (HO & _ & HP).
  pose proof (deliveries_left_pos policy (delivery_attempt_number d)) as Hpos.
  destruct action as [|next delay|]; cbn [settle_action].
  - destruct (hoare_run _ _ db (ack_total w (view db) _ HG HO)) as (n & db' & HE & -> & HV).
    unfold acknowledge, worker_acknowledge, bounded. rewrite HE. exists Acknowledged, db'. split; [done|].
    rewrite HV. apply (settled_by_xack _ _ _ 0); [done..|lia|lia|done].
  - destruct HX as (a & Hat & Hact). specialize (HP a Hat).
    destruct (validated_delay policy a next delay Hr Hv HP (eq_sym Hact)) as (Hlt & -> & ms & Hms & Hms1 & Hmb).
    assert (Hmd : ms <= max_delay).
    { unfold as_millis, from_millis in *. apply Z.div_le_lower_bound; lia. }
    pose proof (clock_fits_now _ HC) as HN. destruct HC as [Hc0 Hcm].
    assert (HX1 : exact_clock (clock_ms (view db) + ms)) by (unfold exact_clock in *; lia).
    edestruct (hoare_run _ _ db (retry_total w (view db) (delivery_entry_id d) (delivery_payload d)
      (to_dec (a + 1)) ms HG HO Hc0 ltac:(lia) HN HX1))
      as (n & db' & HE & -> & HV).
    unfold retry_after, schedule_retry, bounded. rewrite Hms, HE. exists Retried, db'. split; [done|].
    rewrite HV. assert (HX2 : clock_ms (view db) + ms <= clock_ms (view db) + max_delay) by (clear -Hmd; lia).
    destruct (rescheduled_route w Hw policy max_delay (delivery_entry_id d) (delivery_payload d)
      (to_dec (a + 1)) (clock_ms (view db) + ms) (view db) HR HX2) as [HR' HB'].
    eapply settled_by_xack; [done | done | done | done | exact HB' | | done].
    rewrite Hat. eapply retry_left; [done..|]. by symmetry.
  - destruct (hoare_run _ _ db (dead_total w (view db) (delivery_entry_id d) (delivery_payload d)
      (to_dec (default 1 (delivery_attempt_number d))) HG HO)) as (n & db' & HE & -> & x & fs & HV).
    unfold dead_letter, worker_dead_letter, bounded. rewrite HE. exists DeadLettered, db'. split; [done|]. rewrite HV.
    assert (HE' : entries k (view_xadd dlq x fs (view db)) = entries k (view db)).
    { destruct Hw. unfold view_xadd. by rewrite entries_set_ne. }
    destruct (route_ext w policy max_delay (view db) (view_xadd dlq x fs (view db)) HE' eq_refl eq_refl
      eq_refl eq_refl eq_refl HR) as [HR' HB'].
    apply (settled_by_xack _ _ _ 0); [done..|lia|lia|done].
Qed.

(** ** Running the tasks *)

Definition completes : Event := TaskJoined 0 (Completes Delivered).

Definition tasks_ok (r : Run St) : Prop :=
  NoDup ((delivery_entry_id ∘ fst) <$> tasks r) /\
  Forall (fun t => task_ok (view (server r)) t.1) (tasks r).

Lemma run_one now t ts r :
  tasks r = t :: ts -> tasks_ok r -> route_wf (view (server r)) -> clock_fits (view (server r)) ->
  exists r', iteration w (process w) wc policy now completes r = Some (None, r') /\
    tasks r' = ts /\ tasks_ok r' /\ route_wf (view (server r')) /\
    (backlog (view (server r')) < backlog (view (server r)))%nat /\
    clock (view (server r')) = clock (view (server r)).
Proof.
  intros Ht [HN HF] HR HC. rewrite Ht in HN, HF. apply Forall_cons in HF as [HT HF].
  rewrite fmap_cons in HN. apply NoDup_cons in HN as [Hni HN].
  assert (Ha0 : delivery_attempt_number t.1 <> Some 0).
  { intros HE. destruct HT as (_ & _ & HP). specialize (HP 0 HE). lia. }
  destruct (settling w t.1 policy Delivered (app r) (server r) Ha0) as (st & action & H2 & H1 & HX).
  destruct (settle_total t.1 action (server r)) as (o & db' & HS & HR' & HB & HC' & HO);
    [done | done | done | by destruct action |].
  rewrite HS in H1, H2. unfold completes, iteration. rewrite Ht. cbn [lookup list_lookup].
  unfold run_task. cbn [app server without_task].
  destruct (process w t.1 policy Delivered (app r) (server r)) as [[[a out]|e] [st1 db1]];
    [|done]. simpl in H2. injection H2 as -> ->. eexists. split; [reflexivity|]. cbn [tasks server].
  assert (Htl : tasks (without_task 0 r) = ts) by (unfold without_task; cbn [tasks]; by rewrite Ht).
  rewrite Htl. split_and!; [done| |done..]. split; cbn [tasks server]; [done|].
  rewrite Forall_forall in *. intros t' Ht'. apply HO; [|by apply HF].
  intros HE. apply Hni. apply list_elem_of_fmap. exists t'. split; [by symmetry | done].
Qed.

Lemma join_all now n evs r :
  tasks_ok r -> route_wf (view (server r)) -> clock_fits (view (server r)) ->
  (List.length (tasks r) <= n)%nat ->
  exists r', run_loop w (process w) wc policy (replicate n (now, completes) ++ evs) r =
             run_loop w (process w) wc policy evs r' /\
    tasks r' = [] /\ route_wf (view (server r')) /\
    (backlog (view (server r')) + List.length (tasks r) <= backlog (view (server r)))%nat /\
    clock (view (server r')) = clock (view (server r)) /\
    (tasks r = [] -> view (server r') = view (server r)).
Proof.
  revert r. induction n as [|n IH]; intros r HT HR HC HL.
  { exists r. destruct (tasks r); [|simpl in HL; lia]. simpl. split_and!; [done..|lia|done|done]. }
  cbn [replicate app List.app run_loop]. destruct (tasks r) as [|t ts] eqn:Et.
  - destruct (IH r) as (r' & HE & Ht' & HR' & HB & HC' & HS); [done | done | done | rewrite Et; simpl; lia |].
    exists r'. rewrite Et in *. unfold completes at 1, iteration. rewrite Et. split_and!; done.
  - destruct (run_one now t ts r Et HT HR HC) as (r1 & -> & Ht1 & HT1 & HR1 & HB1 & HC1).
    destruct (IH r1) as (r' & HE & Ht' & HR' & HB & HC' & HS); [done | done | | rewrite Ht1; simpl in HL; lia |].
    { unfold clock_fits, clock_ms in *. by rewrite HC1. }
    exists r'. rewrite Ht1 in HB. simpl. split_and!; [done | done | done | lia | congruence | done].
Qed.

(** ** Receiving tasks *)

Lemma received_left e n :
  match n with Some c => 1 <= c | None => True end ->
  (deliveries_left policy (delivery_attempt_number (delivery_from_entry e n)) <= entry_left policy e)%nat /\
  forall a, delivery_attempt_number (delivery_from_entry e n) = Some a -> 1 <= a.
Proof.
  intros Hn. unfold delivery_from_entry, entry_left. cbn [delivery_attempt_number].
  assert (HP : forall a : option Z, (1 <= deliveries_left policy a)%nat) by apply deliveries_left_pos.
  destruct (entry_get e ATTEMPT_FIELD) as [s|]; cbn [mbind option_bind]; [|by split].
  change (parse_unsigned u16_max s) with (attempt_value s).
  destruct (attempt_value s) as [b|]; cbn [mbind option_bind]; [|by split].
  destruct n as [c|].
  - rewrite (proj2 (Z.leb_le 1 c)) by done. cbn [mbind option_bind].
    destruct (c - 1 <=? u16_max); cbn [mbind option_bind]; [|split; [apply HP | done]].
    unfold checked_add. destruct (_ <=? u16_max); [|split; [apply HP | done]].
    destruct (Z.ltb_spec 0 (b + (c - 1))); [|split; [apply HP | done]].
    split; [simpl; lia | intros a [= <-]; lia].
  - destruct (Z.ltb_spec 0 b); [|split; [apply HP | done]]. split; [done | intros a [= <-]; lia].
Qed.

Lemma read_total n db :
  route_wf (view db) ->
  exists ds db', read_new w n Delivered db = (Ok ds, db') /\
    view db' = view_xreadgroup k g (consumer w) (Nat.min n (batch_size w)) (view db) /\
    NoDup (delivery_entry_id <$> ds) /\ Forall (task_ok (view db')) ds /\
    List.length ds = Nat.min (Nat.min n (batch_size w)) (List.length (waiting k g (view db))).
Proof.
  intros HR. unfold read_new. set (c := Nat.min n (batch_size w)). unfold bounded.
  pose proof (xreadgroup_law k g (consumer w) c db) as HL.
  pose proof (xreadgroup_ok k g (consumer w) c db (route_group _ _ _ HR)) as HO.
  destruct (xreadgroup _ _ _ c db) as [[es|] db']; [|done]. destruct HL as [-> HV]. cbn [map_err].
  do 2 eexists. split; [done|]. split; [done|].
  assert (HI : delivery_entry_id <$> map (fun e => delivery_from_entry e None) (take c (waiting k g (view db))) =
               entry_id <$> take c (waiting k g (view db))).
  { generalize (take c (waiting k g (view db))). intros l. induction l as [|e l IH]; [done|]. simpl. by f_equal. }
  split_and!.
  - rewrite HI. eapply sublist_NoDup; [apply (route_ids _ _ _ HR)|]. apply fmap_sublist.
    etrans; [apply sublist_take | apply sublist_drop].
  - rewrite Forall_forall. intros d Hd. apply list_elem_of_In, List.in_map_iff in Hd as (e & <- & He).
    apply list_elem_of_In in He. destruct (received_left e None I) as [H1 H2]. unfold task_ok. rewrite HV.
    split_and!; [| |done].
    + exists (fresh_pending (consumer w) (clock_ms (view db)) e). split_and!; [|done..].
      unfold view_xreadgroup. rewrite group_set. simpl. apply elem_of_app. right.
      apply list_elem_of_In, List.in_map. by apply list_elem_of_In.
    + exists e. split; [|done]. simpl. apply find_entry_unique; [apply (route_ids _ _ _ HR)|].
      change (entries k (view_xreadgroup _ _ _ _ ?x)) with (entries k x). by eapply taken_ids.
  - rewrite length_map, length_take. lia.
Qed.

(** The counts of claimed entries are found. *)
Lemma reclaim_deliveries_total es db :
  route_wf (view db) ->
  (forall e, e ∈ es -> exists q, q ∈ pel (group k g (view db)) /\ pending_id q = entry_id e) ->
  exists ds, reclaim_deliveries w (fun _ => Delivered) es db = (Ok ds, db) /\
    delivery_entry_id <$> ds = entry_id <$> es /\
    forall d, d ∈ ds -> exists e c, e ∈ es /\ 1 <= c /\ d = delivery_from_entry e (Some c).
Proof.
  intros HR. induction es as [|e es IH]; intros HQ.
  { exists []. split_and!; [done..|]. by intros d ?%elem_of_nil. }
  destruct IH as (ds & HE & HI & HD); [intros x Hx; apply HQ; by right|].
  destruct (HQ e) as (q & Hq & HIq); [by left|].
  assert (HC : exists c, 1 <= c /\ pending_delivery_count w (entry_id e) Delivered db = (Ok c, db)).
  { unfold pending_delivery_count, bounded, query.
    pose proof (xpending_law k g (entry_id e) None db) as HL.
    pose proof (xpending_ok k g (entry_id e) None db (route_group _ _ _ HR)) as HO.
    destruct (xpending _ _ _ _ db) as [l|]; [|done]. rewrite (HL l eq_refl). cbn [map_err].
    unfold view_xpending. destruct (List.filter _ _) as [|x xs] eqn:EF.
    - assert (HF : List.In q (List.filter (fun p => is_pending (entry_id e) p && true) (pel (group k g (view db))))).
      { apply List.filter_In. split; [by apply list_elem_of_In|]. unfold is_pending.
        by rewrite (proj2 (str_eqb_true _ _) HIq). }
      by rewrite EF in HF.
    - assert (HF : List.In x (List.filter (fun p => is_pending (entry_id e) p && true) (pel (group k g (view db)))))
        by (rewrite EF; by left).
      apply List.filter_In in HF as [HF _]. apply list_elem_of_In in HF.
      exists (times_delivered x). split; [by apply (route_pel_counts _ _ _ HR) | done]. }
  destruct HC as (c & Hc1 & HC). cbn [reclaim_deliveries]. rewrite HC, HE.
  exists (delivery_from_entry e (Some c) :: ds). split_and!; [done | simpl; by f_equal |].
  intros d Hd. apply elem_of_cons in Hd as [->|Hd].
  - exists e, c. split_and!; [by left | done | done].
  - destruct (HD d Hd) as (e' & c' & He' & Hc' & ->). exists e', c'. split_and!; [by right | done | done].
Qed.

Lemma all_idle_selected now n l :
  (forall q, q ∈ l -> idle now (reclaim_idle_ms w) q = true) ->
  claim_selected (reclaim_idle_ms w) n now l = take n l.
Proof.
  intros HI. unfold claim_selected. rewrite forallb_filter_id.
  - rewrite take_take. f_equal. lia.
  - apply List.forallb_forall. intros q Hq. apply HI. apply list_elem_of_In, elem_of_take in Hq as (i & Hq & _).
    by apply list_elem_of_lookup_2 in Hq.
Qed.

Lemma claimed_ids es l :
  (forall q, q ∈ l -> exists e, find_entry (pending_id q) es = Some e) ->
  entry_id <$> omap (fun q => find_entry (pending_id q) es) l = pending_id <$> l /\
  List.filter (fun q => negb (is_some (find_entry (pending_id q) es))) l = [].
Proof.
  induction l as [|q l IH]; intros HF; [done|]. destruct IH as [H1 H2]; [intros; apply HF; by right|].
  destruct (HF q) as [e He]; [by left|]. apply find_entry_Some in He as HE. destruct HE as [_ HE].
  cbn. rewrite He. cbn. split; [by f_equal | done].
Qed.

Lemma reclaim_total n db :
  route_wf (view db) -> (forall q, q ∈ pel (group k g (view db)) ->
    idle (clock_ms (view db)) (reclaim_idle_ms w) q = true) ->
  exists ds db', reclaim_pending w n Delivered (fun _ => Delivered) db = (Ok ds, db') /\
    view db' = view_xautoclaim k g (consumer w) (reclaim_idle_ms w) n (view db) /\
    NoDup (delivery_entry_id <$> ds) /\ Forall (task_ok (view db')) ds /\
    List.length ds = Nat.min n (List.length (pel (group k g (view db)))).
Proof.
  intros HR HI. unfold reclaim_pending, bounded.
  pose proof (xautoclaim_law k g (consumer w) (reclaim_idle_ms w) n db) as HL.
  pose proof (xautoclaim_ok k g (consumer w) (reclaim_idle_ms w) n db (route_group _ _ _ HR)) as HO.
  destruct (xautoclaim _ _ _ _ n db) as [[r|] db'] eqn:EX; [|done]. destruct HL as [-> HV]. cbn [map_err].
  destruct (claim_route w policy max_delay (view db) (consumer w) (reclaim_idle_ms w) n HR) as [HR' _].
  rewrite <- HV in HR'. unfold view_claim_reply. rewrite all_idle_selected by done.
  set (sel := take n (pel (group k g (view db)))).
  assert (Hsel : forall q, q ∈ sel -> q ∈ pel (group k g (view db))).
  { intros q Hq. apply elem_of_take in Hq as (i & Hq & _). by apply list_elem_of_lookup_2 in Hq. }
  destruct (claimed_ids (entries k (view db)) sel) as [HC HD].
  { intros q Hq. destruct (pel_found _ _ _ q HR (Hsel q Hq)) as (e & He & _). by exists e. }
  cbn [deleted_ids invalid_entries claimed]. rewrite HD. cbn [fmap list_fmap negb orb].
  assert (Hreas : forall q, q ∈ sel -> reassign (consumer w) (clock_ms (view db)) q ∈ pel (group k g (view db'))).
  { intros q Hq. rewrite HV. unfold view_xautoclaim. rewrite group_set. cbn [pel].
    apply list_elem_of_In, List.in_flat_map. exists q. split; [by apply list_elem_of_In, Hsel|].
    unfold claim_one. rewrite all_idle_selected by done. fold sel.
    destruct (existsb _ sel) eqn:EE.
    - destruct (pel_found _ _ _ q HR (Hsel q Hq)) as (e & -> & _). by left.
    - apply existsb_false in EE. rewrite Forall_forall in EE. specialize (EE q Hq).
      unfold is_pending in EE. by rewrite (proj2 (str_eqb_true _ _)) in EE. }
  destruct (reclaim_deliveries_total (omap (fun q => find_entry (pending_id q) (entries k (view db))) sel) db' HR')
    as (ds & HE & HIds & HDs).
  { intros e He. apply list_elem_of_omap in He as (q & Hq & He). exists (reassign (consumer w) (clock_ms (view db)) q).
    split; [by apply Hreas|]. by apply find_entry_Some in He as [_ ->]. }
  exists ds, db'. split_and!; [exact HE | done | | |].
  - rewrite HIds, HC. eapply sublist_NoDup; [apply (route_pel_ids _ _ _ HR)|]. apply fmap_sublist, sublist_take.
  - rewrite Forall_forall. intros d Hd. destruct (HDs d Hd) as (e & c & He & Hc1 & ->).
    apply list_elem_of_omap in He as (q & Hq & He). apply find_entry_Some in He as HE'. destruct HE' as [Hin HE'].
    destruct (received_left e (Some c) Hc1) as [H1 H2]. split_and!; [| |done].
    + exists (reassign (consumer w) (clock_ms (view db)) q). split_and!; [by apply Hreas | by symmetry | done].
    + exists e. split; [|done]. simpl. apply find_entry_unique; [apply (route_ids _ _ _ HR')|]. by rewrite HV.
  - rewrite <- (length_fmap delivery_entry_id), HIds, HC, length_fmap. subst sel. rewrite length_take. lia.
Qed.

(** ** One round: a maintenance tick and a read, with the tasks they start *)

Definition round_events (now : Z) : list (Z * Event) :=
  (now, MaintenanceTick Delivered Delivered (fun _ => Delivered)) ::
  replicate (concurrency wc) (now, completes) ++
  (now, ReadCompleted Delivered) :: replicate (concurrency wc) (now, completes) ++ [].

Lemma spawned now ds r :
  fst <$> tasks (spawn_delivery_tasks now ds r) = (fst <$> tasks r) ++ ds /\
  server (spawn_delivery_tasks (St := St) now ds r) = server r.
Proof.
  revert r. induction ds as [|d ds IH]; intros r; [simpl; by rewrite app_nil_r|].
  cbn [spawn_delivery_tasks observation_start]. edestruct IH as [-> ->]. cbn [tasks server].
  rewrite fmap_app, <- app_assoc. done.
Qed.

Lemma spawned_ok now ds db (r : Run St) :
  tasks r = [] -> NoDup (delivery_entry_id <$> ds) -> Forall (task_ok (view db)) ds ->
  let r' := spawn_delivery_tasks now ds (on_server db r) in
  tasks_ok r' /\ server r' = db /\ List.length (tasks r') = List.length ds.
Proof.
  intros Ht HN HF r'. destruct (spawned now ds (on_server db r)) as [HS HD]. fold r' in HS, HD.
  cbn [tasks on_server] in HS. rewrite Ht in HS. cbn [fmap list_fmap List.app] in HS.
  split_and!; [split | done | rewrite <- (length_fmap fst), HS; done].
  - rewrite list_fmap_compose, HS. done.
  - rewrite HD. cbn [server on_server]. rewrite <- HS in HF. by rewrite Forall_fmap in HF.
Qed.

(** The state of a worker between rounds, its clock far enough from the last one. *)
Definition ready (r : Run St) : Prop :=
  tasks r = [] /\ route_wf (view (server r)) /\ clock_fits (view (server r)) /\
  (forall i sc, zset sched (view (server r)) !! i = Some sc -> sc <= clock_ms (view (server r))) /\
  forall q, q ∈ pel (group k g (view (server r))) ->
    idle (clock_ms (view (server r))) (reclaim_idle_ms w) q = true.

Lemma clock_fits_eq v v' : clock v' = clock v -> clock_fits v -> clock_fits v'.
Proof. unfold clock_fits, clock_ms. by intros ->. Qed.

Lemma round_progress now r :
  ready r ->
  exists r', run_loop w (process w) wc policy (round_events now) r = (None, r') /\
    tasks r' = [] /\ route_wf (view (server r')) /\ clock (view (server r')) = clock (view (server r)) /\
    (backlog (view (server r')) <= pred (backlog (view (server r))))%nat.
Proof.
  intros (Ht & HR & HC & HDue & HIdle). destruct Hw as [_ _ _ _ _ _ _ _ Hbatch].
  unfold round_events. cbn [run_loop iteration]. rewrite Ht. cbn [List.length]. rewrite Nat.sub_0_r.
  rewrite (proj2 (Nat.ltb_lt 0 (concurrency wc))) by lia. set (n := Nat.min (concurrency wc) (batch_size w)).
  (* promotion *)
  destruct (hoare_run _ _ (server r) (promote_total w Hw policy max_delay (view (server r)) n HR (proj1 HC)
    (clock_fits_now _ HC) ltac:(lia) HDue)) as (x & db1 & HE1 & HR1 & HB1 & HG1 & HC1 & HW1).
  unfold promote_due_retries, bounded. rewrite HE1. cbn [map_err].
  (* reclaim *)
  assert (HPel : group k g (view db1) = group k g (view (server r))) by (unfold group; by rewrite HG1).
  destruct (reclaim_total n db1 HR1) as (ds & db2 & HE2 & HV2 & HN2 & HF2 & HL2).
  { rewrite HPel. unfold clock_ms. rewrite HC1. apply HIdle. }
  rewrite HE2. destruct (claim_route w policy max_delay (view db1) (consumer w) (reclaim_idle_ms w) n HR1) as [HR2 HB2].
  rewrite <- HV2 in HR2, HB2. assert (HC2 : clock (view db2) = clock (view db1)) by (by rewrite HV2).
  destruct (spawned_ok now ds db2 r Ht HN2 HF2) as (HT3 & HS3 & HL3). set (r3 := spawn_delivery_tasks now ds (on_server db2 r)) in *.
  destruct (join_all now (concurrency wc)
    ((now, ReadCompleted Delivered) :: replicate (concurrency wc) (now, completes) ++ []) r3)
    as (r4 & HE4 & Ht4 & HR4 & HB4 & HC4 & HS4); [done | by rewrite HS3 | | lia |].
  { rewrite HS3. eapply clock_fits_eq; [|exact HC]. congruence. }
  rewrite HE4. cbn [run_loop iteration]. rewrite Ht4. cbn [List.length]. rewrite Nat.sub_0_r.
  rewrite (proj2 (Nat.ltb_lt 0 (concurrency wc))) by lia.
  (* read *)
  destruct (read_total (concurrency wc) (server r4) HR4) as (ds5 & db5 & HE5 & HV5 & HN5 & HF5 & HL5).
  rewrite HE5. destruct (read_route w policy max_delay (view (server r4)) (consumer w) n HR4) as [HR5 HB5].
  fold n in HV5, HL5. rewrite <- HV5 in HR5, HB5.
  assert (HC5 : clock (view db5) = clock (view (server r4))) by (by rewrite HV5).
  destruct (spawned_ok now ds5 db5 r4 Ht4 HN5 HF5) as (HT6 & HS6 & HL6). set (r6 := spawn_delivery_tasks now ds5 (on_server db5 r4)) in *.
  rewrite HS3 in *.
  destruct (join_all now (concurrency wc) [] r6)
    as (r7 & HE7 & Ht7 & HR7 & HB7 & HC7 & HS7); [done | by rewrite HS6 | | lia |].
  { rewrite HS6. eapply clock_fits_eq; [|exact HC]. congruence. }
  rewrite HE7. exists r7. rewrite HS6 in *. split_and!; [done | done | done | congruence |].
  (* progress *)
  destruct (decide (backlog (view (server r)) = 0%nat)) as [Hb0|Hb0]; [lia|].
  destruct ds as [|d ds]; [|simpl in *; lia].
  assert (Hp0 : pel (group k g (view (server r))) = []).
  { apply length_zero_iff_nil. rewrite <- HPel. simpl in HL2. lia. }
  destruct ds5 as [|d5 ds5]; [|simpl in *; lia].
  assert (Hw0 : waiting k g (view (server r4)) = []) by (apply length_zero_iff_nil; simpl in HL5; lia).
  rewrite HS4 in Hw0 by (apply length_zero_iff_nil; by rewrite HL3).
  assert (Hw1 : waiting k g (view db1) = []).
  { rewrite <- Hw0, HV2. unfold waiting, view_xautoclaim. by rewrite group_set. }
  destruct (HW1 Hw1) as [Hw2 Hz]. destruct Hb0. unfold RedisLiveness.backlog. by rewrite Hw2, Hp0, Hz.
Qed.

(** ** Rounds with time between them *)

Context `{!RedisClock}.

(** [n] rounds, [pause] microseconds before each; [None] while the worker runs. *)
Fixpoint run_rounds (now pause : Z) (n : nat) (r : Run St) : option Exit * Run St :=
  match n with
  | O => (None, r)
  | S n =>
      match run_loop w (process w) wc policy (round_events now)
              (on_server (elapse pause (server r)) r) with
      | (None, r) => run_rounds now pause n r
      | (Some x, r) => (Some x, r)
      end
  end.

Lemma elapsed_ready pause r :
  tasks r = [] -> route_wf (view (server r)) -> 0 <= clock (view (server r)) ->
  1000 * Z.max max_delay (reclaim_idle_ms w) <= pause ->
  exact_clock ((clock (view (server r)) + pause) / 1000 + max_delay) ->
  ready (on_server (elapse pause (server r)) r) /\
  backlog (view (elapse pause (server r))) = backlog (view (server r)).
Proof.
  intros Ht HR Hc0 Hp HX. unfold ready. cbn [tasks server on_server]. rewrite elapse_law.
  set (v := view (server r)) in *. pose proof max_delay_nonneg as Hm.
  destruct Hw as [_ _ _ _ _ _ _ [Hi _] _].
  assert (HC : clock_ms v + Z.max max_delay (reclaim_idle_ms w) <= clock_ms (set_clock (clock v + pause) v)).
  { unfold clock_ms. cbn [clock set_clock]. rewrite <- Z.div_add by lia. apply Z.div_le_mono; lia. }
  split; [|done]. split_and!; [done | | split; [cbn; lia | done] | |].
  - destruct HR as [R1 R2 R3 R4 R5 R6 R7]. split; try done.
    + intros q Hq. destruct (R6 q Hq). split; [done | lia].
    + intros i sc Hs. destruct (R7 i sc Hs) as (? & ? & ?). split_and!; [done..|lia].
  - intros i sc Hs. destruct (route_records _ _ _ HR i sc Hs) as (_ & _ & ?). lia.
  - intros q Hq. destruct (route_pel_counts _ _ _ HR q Hq) as [_ ?]. apply Z.leb_le. lia.
Qed.

Lemma rounds_progress now pause n r :
  tasks r = [] -> route_wf (view (server r)) -> 0 <= clock (view (server r)) ->
  1000 * Z.max max_delay (reclaim_idle_ms w) <= pause ->
  exact_clock ((clock (view (server r)) + Z.of_nat n * pause) / 1000 + max_delay) ->
  exists r', run_rounds now pause n r = (None, r') /\ tasks r' = [] /\ route_wf (view (server r')) /\
    (backlog (view (server r')) <= backlog (view (server r)) - n)%nat.
Proof.
  revert r. induction n as [|n IH]; intros r Ht HR Hc0 Hp HX.
  { exists r. cbn [run_rounds]. split_and!; [done..|lia]. }
  pose proof max_delay_nonneg as Hm. assert (Hp0 : 0 <= pause) by lia.
  assert (HX1 : exact_clock ((clock (view (server r)) + pause) / 1000 + max_delay)).
  { unfold exact_clock in *. split.
    - assert (0 <= (clock (view (server r)) + pause) / 1000) by (apply Z.div_pos; lia). lia.
    - assert ((clock (view (server r)) + pause) / 1000 <=
              (clock (view (server r)) + Z.of_nat (S n) * pause) / 1000) by (apply Z.div_le_mono; nia). lia. }
  destruct (elapsed_ready pause r Ht HR Hc0 Hp HX1) as [HY HB].
  destruct (round_progress now _ HY) as (r1 & HE1 & Ht1 & HR1 & HC1 & HB1).
  cbn [run_rounds]. rewrite HE1. cbn [server on_server] in HC1, HB1. rewrite elapse_law in HC1.
  rewrite HB in HB1. cbn [clock set_clock] in HC1.
  destruct (IH r1 Ht1 HR1 ltac:(lia) Hp) as (r' & HE' & Ht' & HR' & HB').
  { rewrite HC1. replace (clock (view (server r)) + pause + Z.of_nat n * pause)
      with (clock (view (server r)) + Z.of_nat (S n) * pause) by lia. done. }
  exists r'. split_and!; [done..|lia].
Qed.
End worker.

(** ** Properties: jobs are settled *)

(** C24: a worker drains its route. On a server that answers, with pauses long enough
    for retry delays and reclaim times to pass, a worker with any handlers keeps
    running and after as many rounds (a maintenance tick, a read, and the tasks they
    start) as there can still be deliveries, each job counting at most
    [max_deliveries], nothing is waiting, pending or scheduled: every job has been
    acknowledged or dead-lettered. *)
Theorem backlog_drains `{RedisAccepts} `{!RedisClock} w policy {St}
    (process : RedisStreamsWorkerConfig -> Process St) succeeded wc now pause n r :
  configured w -> Settling process succeeded -> (1 <= concurrency wc)%nat ->
  policy_in_range policy -> validate_retry_policy policy = Ok tt ->
  tasks r = [] -> route_wf w (as_millis (max_backoff policy)) (view (server r)) ->
  0 <= clock (view (server r)) ->
  1000 * Z.max (as_millis (max_backoff policy)) (reclaim_idle_ms w) <= pause ->
  exact_clock ((clock (view (server r)) + Z.of_nat n * pause) / 1000 + as_millis (max_backoff policy)) ->
  (backlog w policy (view (server r)) <= n)%nat ->
  exists r', run_rounds w policy process wc now pause n r = (None, r') /\ tasks r' = [] /\
    waiting (stream w) (consumer_group w) (view (server r')) = [] /\
    pel (group (stream w) (consumer_group w) (view (server r'))) = [] /\
    zset (retry_schedule_key w) (view (server r')) = ∅.
Proof.
  intros Hw HP Hc Hr Hv Ht HR Hc0 Hp HX Hn. apply configured_wf in Hw.
  destruct (rounds_progress w Hw policy Hr Hv process succeeded wc Hc now pause n r Ht HR Hc0 Hp HX)
    as (r' & HE & Ht' & HR' & HB). exists r'. split_and!; [done | done | ..];
    (edestruct (backlog_zero w policy (view (server r'))) as (R1 & R2 & R3); [lia | | done]);
    intros q Hq; destruct (pel_found w _ _ q HR' Hq) as (e & He & _); by exists e.
Qed.

(** ** Examples *)

Module RedisJobsExamples.
Import RedisServer.

Definition worker : RedisStreamsWorkerConfig :=
  match config_new ##"jobs" ##"email" ##"worker-a" ##"jobs.dlq" with
  | Ok w => w
  | Err _ => set_timing 0 0 0 0 0 {| stream := []; consumer_group := []; consumer := [];
      dead_letter_stream := []; retry_schedule_key := []; retry_payload_key := [];
      retry_attempt_key := []; block_timeout_ms := 0; operation_timeout := 0; reclaim_interval := 0;
      reclaim_idle_ms := 0; batch_size := 0 |}
  end.

Lemma worker_configured : configured worker.
Proof. apply (configured_new ##"jobs" ##"email" ##"worker-a" ##"jobs.dlq"). vm_compute. reflexivity. Qed.

(** Retry keys as the provider's tests expect them. *)
Example worker_retry_key : retry_schedule_key worker = ##"rustee:jobs:retry:v1:4:jobs:5:email:schedule".
Proof. vm_compute. reflexivity. Qed.

Lemma worker_configuration_sound_witness :
  config_wf worker /\
  NoDup [stream worker; retry_schedule_key worker; retry_payload_key worker; retry_attempt_key worker].
Proof.
  destruct (worker_configuration_sound worker worker worker_configured worker_configured) as (HW & HN & _).
  exact (conj HW HN).
Defined.

Definition empty_route : @Server redis_commands := {|
  clock := 0; streams := {[ ##"jobs" := []; ##"jobs.dlq" := [] ]};
  groups := {[ (##"jobs", ##"email") := no_group ]}; hashes := ∅; zsets := ∅ |}.

(** A handler that always fails. *)
Definition failing : JobRegistry unit :=
  {[ ##"mail" := fun _ _ st => (Err (HandlerFailed 7 ##"mail"), st) ]}.
Definition identity (_ : bytes) : option str := Some ##"mail".
Notation fails := (fun w => process_registry_delivery w identity failing).

Lemma failing_settles : Settling fails (registry_succeeded identity failing).
Proof.
  apply process_registry_settling. intros n h b a st x Hn. unfold failing in Hn.
  apply lookup_singleton_Some in Hn as [_ <-]. done.
Qed.

Definition job : JobMessage :=
  {| msg_id := 7; msg_name := ##"mail"; msg_version := 1; msg_attempt := 1; msg_payload := ##"{}" |}.
Definition system (db : @Server redis_commands) : System unit :=
  {| sys_server := db; sys_app := tt; inflight := []; handled := [] |}.

Definition with_job : @Server redis_commands := (publish ##"jobs" job Delivered empty_route).2.

Lemma published_job_kept_witness :
  kept worker (view (sys_server (received worker (read_new worker 8 ReplyLost with_job)
    (system with_job)))) ##"{}" \/ ##"{}" ∈ handled (system with_job).
Proof.
  apply (published_job_kept worker fails (registry_succeeded identity failing) retry_default
    (system empty_route) (system empty_route)
    (received worker (read_new worker 8 ReplyLost with_job) (system with_job))
    job Delivered with_job).
  - apply configured_wf, worker_configured.
  - apply failing_settles.
  - repeat split; vm_compute; reflexivity.
  - apply rtc_refl.
  - vm_compute. reflexivity.
  - apply rtc_once. apply (step_read worker _ _ _ (at_server with_job (system empty_route)) worker 8 ReplyLost).
    repeat split.
Defined.

Definition idle_worker : @Run redis_commands unit :=
  {| tasks := []; app := tt; server := with_job; observed := [] |}.

Lemma incomplete_records_pass_witness :
  exists s', for_each [ ##"7-0" ] (check_record ##"payloads" ##"attempts") (server idle_worker) = (Ok tt, s') /\
    view s' = view (server idle_worker).
Proof. exact (incomplete_records_pass ##"payloads" ##"attempts" [ ##"7-0" ] (server idle_worker)). Defined.

Lemma backlog_drains_witness :
  exists r, run_rounds worker retry_default fails worker_config_default 0 300000000 5 idle_worker = (None, r) /\
    pel (group ##"jobs" ##"email" (view (server r))) = [].
Proof.
  destruct (backlog_drains worker retry_default fails (registry_succeeded identity failing)
    worker_config_default 0 300000000 5 idle_worker) as (r & HE & _ & _ & HP & _).
  - apply worker_configured.
  - apply failing_settles.
  - vm_compute. lia.
  - vm_compute. repeat split; congruence.
  - vm_compute. reflexivity.
  - reflexivity.
  - split.
    + vm_compute. apply NoDup_singleton.
    + vm_compute. lia.
    + vm_compute. by eexists.
    + vm_compute. apply NoDup_nil_2.
    + intros q Hq. vm_compute in Hq. by apply elem_of_nil in Hq.
    + intros q Hq. vm_compute in Hq. by apply elem_of_nil in Hq.
    + intros i sc Hi. vm_compute in Hi. discriminate Hi.
  - vm_compute. congruence.
  - vm_compute. congruence.
  - vm_compute. split; [congruence | reflexivity].
  - vm_compute. lia.
  - exists r. split; [exact HE | exact HP].
Defined.

(** The failing job is delivered five times and ends in the dead-letter stream. *)
Example failing_job_dead_lettered :
  let r := (run_rounds worker retry_default fails worker_config_default 0 300000000 5 idle_worker).2 in
  (List.length (entries ##"jobs.dlq" (view (server r))), finishes (observed r)) = (1%nat, 5%nat).
Proof. vm_compute. reflexivity. Qed.

(** Two due records, the second without its payload: the first is promoted, then the
    script fails, although the check came first. *)
Definition half_record : @Server redis_commands := {|
  clock := 5000000; streams := streams (empty_route : Redis); groups := groups (empty_route : Redis);
  hashes := {[ retry_payload_key worker := {[ ##"1-1" := ##"{}" ]};
               retry_attempt_key worker := {[ ##"1-1" := ##"2"; ##"2-1" := ##"2" ]} ]};
  zsets := {[ retry_schedule_key worker := {[ ##"1-1" := 1; ##"2-1" := 2 ]} ]} |}.

Example half_record_promotion :
  let '(out, db) := promote_due_retries worker 8 Delivered half_record in
  (out, List.length (entries ##"jobs" (view db))) = (Err RetryPromotion, 1%nat).
Proof. vm_compute. reflexivity. Qed.
End RedisJobsExamples.
