(* ===== verification/Cron.v ===== *)
(** Recurring jobs: [crates/rustee-jobs-cron-sqlx/src], the durable cron scheduler
    that stages jobs into the outbox of [Outbox].

    Cron expressions, IANA time zones and calendar arithmetic are the class
    [CalendarApi]; the tables are those of the crate's migrations, instants stored in
    them are milliseconds (the double arithmetic of [to_timestamp] is exact at that
    precision for the years cron expressions reach), and a transaction reads the
    clock once. *)

From Stdlib Require Import ZArith Lia Bool Ascii.
From stdpp Require Import gmap sets sorting.
From S2P Require Import Prelude Strings Uuid Json JobEnvelope Events Outbox.

Local Open Scope Z_scope.

(** ** Errors and bounded values: [contract.rs] *)

Definition MAX_FIRE_BATCH_SIZE : nat := 100.

Inductive RecurringJobError : Type :=
| InvalidJobPayload
| StoredSchedule
| ClockOutOfRange
| RegistrationConflict
| RateLimitPolicyConflict
| OutboxCollision
| StorageInvariant
| Storage (e : SqlxError).

Inductive RecurringJobRegistration : Type :=
| Registered (id : Uuid)
| AlreadyRegistered (id : Uuid).

Inductive RecurringJobFireLimitError : Type := LimitTooLarge.

(** [limit] is a [NonZeroUsize]. *)
Definition fire_limit_new (limit : nat) : result nat RecurringJobFireLimitError :=
  if (MAX_FIRE_BATCH_SIZE <? limit)%nat then Err LimitTooLarge else Ok limit.

Definition fire_limit_default : nat := 25.

Record RecurringJobFireReport : Type := { claimed : Z; staged : Z; rate_limited : Z }.

Inductive RecurringJobPauseOutcome : Type := Paused | NotFoundOrAlreadyPaused.
Inductive RecurringJobResumeOutcome : Type := Resumed | NotFoundOrAlreadyEnabled.

(** ** Calendars *)

(** [chrono::LocalResult], of instants in milliseconds. *)
Inductive LocalResult : Type := LocalSingle | LocalAmbiguous (earlier later : Z) | LocalNone.

Class CalendarApi : Type := {
  Schedule : Type;
  Tz : Type;
  (** [cron::Schedule::from_str] and [chrono_tz::Tz::from_str]. *)
  schedule_parse : str -> option Schedule;
  tz_parse : str -> option Tz;
  (** [Utc.timestamp_millis_opt(..).single()] exists. *)
  clock_representable : Z -> bool;
  (** The instants that [schedule.after(..)] yields; the years of an expression are
      bounded, so there are finitely many. *)
  occurrences_after : Schedule -> Tz -> Z -> list Z;
  (** [naive_local] of an instant, and [from_local_datetime] of that local time. *)
  local_time : Tz -> Z -> Z;
  local_result : Tz -> Z -> LocalResult
}.

Class CalendarLaws `{CalendarApi} : Prop := {
  (** Later starts yield the rest of the occurrences. *)
  occurrences_later s tz t t' x :
    t <= t' -> x ∈ occurrences_after s tz t' -> x ∈ occurrences_after s tz t;
  (** A local time that two instants have is ambiguous between them. *)
  local_ambiguous tz x y :
    local_time tz x = local_time tz y -> x < y ->
    local_result tz (local_time tz x) = LocalAmbiguous x y
}.

(** ** Schedules: [schedule.rs] *)

Definition MAX_SCHEDULE_KEY_BYTES : nat := 255.
Definition MAX_CRON_EXPRESSION_BYTES : nat := 255.
Definition MAX_TIME_ZONE_BYTES : nat := 255.

(** The three identifiers are checked alike: non-blank, without NUL, bounded. *)
Definition bounded_text (value : str) (max_bytes : nat) : bool :=
  negb (is_blank value || contains_char NUL value || (max_bytes <? List.length value)%nat).

Inductive RecurringJobKeyError : Type := InvalidScheduleKey.
Definition key_new (key : str) : result str RecurringJobKeyError :=
  if bounded_text key MAX_SCHEDULE_KEY_BYTES then Ok key else Err InvalidScheduleKey.

Section schedules.
Context `{CalendarApi}.

Inductive CronExpressionError : Type := InvalidExpression.
Definition CronExpression : Type := str.
Definition cron_expression_new (expression : str) : result CronExpression CronExpressionError :=
  if bounded_text expression MAX_CRON_EXPRESSION_BYTES && is_some (schedule_parse expression)
  then Ok expression else Err InvalidExpression.

Inductive RecurringJobTimeZoneError : Type := InvalidTimeZone.
Record RecurringJobTimeZone : Type := { tz_name : str; tz_zone : Tz }.
Definition time_zone_new (name : str) : result RecurringJobTimeZone RecurringJobTimeZoneError :=
  if negb (bounded_text name MAX_TIME_ZONE_BYTES) then Err InvalidTimeZone
  else match tz_parse name with
       | None => Err InvalidTimeZone
       | Some zone => Ok {| tz_name := name; tz_zone := zone |}
       end.

Definition unix_ms_to_utc (value : Z) : result Z RecurringJobError :=
  if clock_representable value then Ok value else Err ClockOutOfRange.

Definition is_earliest_local_occurrence (tz : Tz) (occurrence : Z) : bool :=
  match local_result tz (local_time tz occurrence) with
  | LocalSingle => true
  | LocalAmbiguous earlier _ => occurrence =? earlier
  | LocalNone => false
  end.

Definition next_after_unix_ms (expression : CronExpression) (after : Z) (tz : RecurringJobTimeZone) :
    result Z RecurringJobError :=
  let? after := unix_ms_to_utc after in
  match schedule_parse expression with
  | None => Err StoredSchedule
  | Some schedule =>
      ok_or (List.find (fun occurrence =>
               (after <? occurrence) && is_earliest_local_occurrence (tz_zone tz) occurrence)
               (occurrences_after schedule (tz_zone tz) after)) StoredSchedule
  end.
End schedules.

(** ** Rate governor: [rate_limit.rs] *)

Definition MAX_RATE_LIMIT_WINDOW_MS : Z := 31536000000.

Inductive RecurringJobRateLimitKeyError : Type := InvalidRateLimitKey.
Definition rate_limit_key_new (key : str) : result str RecurringJobRateLimitKeyError :=
  if bounded_text key MAX_SCHEDULE_KEY_BYTES then Ok key else Err InvalidRateLimitKey.

Record RecurringJobRateLimit : Type := { rl_key : str; rl_capacity : Z; rl_window : Duration }.
Inductive RecurringJobRateLimitError : Type := CapacityTooLarge | InvalidWindow.

(** [capacity] is a [NonZeroU32]. *)
Definition rate_limit_new (key : str) (capacity : Z) (window : Duration) :
    result RecurringJobRateLimit RecurringJobRateLimitError :=
  if i32_max <? capacity then Err CapacityTooLarge
  else if (as_millis window =? 0) || negb (subsec_nanos window mod 1000000 =? 0)
          || (MAX_RATE_LIMIT_WINDOW_MS <? as_millis window)
  then Err InvalidWindow
  else Ok {| rl_key := key; rl_capacity := capacity; rl_window := window |}.

Definition window_ms (l : RecurringJobRateLimit) : Z := as_millis (rl_window l).

Definition from_stored_parts (key : str) (capacity window : Z) :
    result RecurringJobRateLimit RecurringJobError :=
  let? key := map_err (fun _ => StoredSchedule) (rate_limit_key_new key) in
  if capacity <=? 0 then Err StoredSchedule
  else if window <? 0 then Err StoredSchedule
  else map_err (fun _ => StoredSchedule) (rate_limit_new key capacity (from_millis window)).

(** [i64] arithmetic. *)
Definition i64_min : Z := -9223372036854775808.
Definition checked_i64 (z : Z) : option Z :=
  if (i64_min <=? z) && (z <=? i64_max) then Some z else None.

Definition fixed_window_bounds (now window : Z) : result (Z * Z) RecurringJobError :=
  if window <=? 0 then Err StoredSchedule
  else
    let? started := ok_or (checked_i64 (now / window * window)) ClockOutOfRange in
    let? next := ok_or (checked_i64 (started + window)) ClockOutOfRange in
    Ok (started, next).

(** ** Tables: [migrations/0001..0003] *)

Record RecurringRow : Type := {
  rj_id : Uuid;
  rj_schedule_key : str;
  rj_destination : str;
  rj_job_name : str;
  rj_schema_version : Z;
  rj_payload : bytes;
  rj_cron_expression : str;
  rj_time_zone : str;
  rj_priority : Z;
  rj_rate_limit : option str * option Z * option Z;
  rj_next_run_at : Z;
  rj_last_fired_at : option Z;
  rj_enabled : bool
}.

Record RateWindow : Type := {
  rw_capacity : Z;
  rw_window_ms : Z;
  rw_started_at : Z;
  rw_consumed : Z
}.

Record Tables : Type := {
  recurring : list RecurringRow;
  windows : gmap str RateWindow;
  outbox : list Row
}.

Definition octets (s : str) : bool := (1 <=? List.length s)%nat && (List.length s <=? 255)%nat.

(** The [CHECK] constraints of [rustee_recurring_jobs]. *)
Definition recurring_checks (r : RecurringRow) : bool :=
  ((0 <=? rj_schema_version r) && (rj_schema_version r <=? 65535))
  && (nonempty (rj_payload r) && (List.length (rj_payload r) <=? 1024 * 1024)%nat)
  && ((0 <=? rj_priority r) && (rj_priority r <=? 255))
  && octets (rj_schedule_key r) && octets (rj_destination r) && octets (rj_job_name r)
  && octets (rj_cron_expression r) && octets (rj_time_zone r)
  && let '(key, capacity, window) := rj_rate_limit r in
     (* a comparison with NULL is unknown and violates no CHECK *)
     default true (octets <$> key)
     && default true ((fun c => (1 <=? c) && (c <=? i32_max)) <$> capacity)
     && default true ((fun w => (1 <=? w) && (w <=? MAX_RATE_LIMIT_WINDOW_MS)) <$> window).

Definition set_recurring (l : list RecurringRow) (t : Tables) : Tables :=
  {| recurring := l; windows := windows t; outbox := outbox t |}.
Definition set_windows (w : gmap str RateWindow) (t : Tables) : Tables :=
  {| recurring := recurring t; windows := w; outbox := outbox t |}.
Definition set_outbox (l : list Row) (t : Tables) : Tables :=
  {| recurring := recurring t; windows := windows t; outbox := l |}.

Definition reschedule (next : Z) (fired : option Z) (enabled : bool) (r : RecurringRow) : RecurringRow :=
  {| rj_id := rj_id r; rj_schedule_key := rj_schedule_key r; rj_destination := rj_destination r;
     rj_job_name := rj_job_name r; rj_schema_version := rj_schema_version r;
     rj_payload := rj_payload r; rj_cron_expression := rj_cron_expression r;
     rj_time_zone := rj_time_zone r; rj_priority := rj_priority r; rj_rate_limit := rj_rate_limit r;
     rj_next_run_at := next; rj_last_fired_at := fired; rj_enabled := enabled |}.

(** [UPDATE .. SET .. WHERE ..]: the rows affected. *)
Definition update_where (cond : RecurringRow -> bool) (f : RecurringRow -> RecurringRow) (t : Tables) :
    result (Z * Tables) SqlxError :=
  Ok (Z.of_nat (List.length (List.filter cond (recurring t))),
      set_recurring (map (fun r => if cond r then f r else r) (recurring t)) t).

(** ** Transactions *)

Section transactions.
Context `{Postgres}.

Definition tx (A : Type) : Type := Tables -> result A RecurringJobError * Tables.

#[export] Instance tx_ret : MRet tx := fun A a t => (Ok a, t).
#[export] Instance tx_bind : MBind tx := fun A B f m t =>
  match m t with
  | (Ok a, t) => f a t
  | (Err e, t) => (Err e, t)
  end.

Definition throw {A} (e : RecurringJobError) : tx A := fun t => (Err e, t).
Definition lift {A} (r : result A RecurringJobError) : tx A := fun t => (r, t).

(** A statement of the transaction. *)
Definition statement {A} (text : str) (meaning : Tables -> result (A * Tables) SqlxError) : tx A :=
  fun t => let '(r, t) := execute text meaning t in (map_err Storage r, t).
Definition select {A} (text : str) (meaning : Tables -> A) : tx A :=
  statement text (fun t => Ok (meaning t, t)).

(** The fate of a [COMMIT]: acknowledged, refused, or performed with the
    acknowledgement lost. *)
Inductive Commit : Type := Committed | CommitRefused | CommitUnknown.

(** [begin .. commit]: an error before the commit rolls back. *)
Definition transaction {A} (c : Commit) (m : tx A) (t : Tables) : result A RecurringJobError * Tables :=
  match m t with
  | (Err e, _) => (Err e, t)
  | (Ok a, t') =>
      match c with
      | Committed => (Ok a, t')
      | CommitRefused => (Err (Storage StatementRejected), t)
      | CommitUnknown => (Err (Storage StatementRejected), t')
      end
  end.
End transactions.

(** ** Statements *)

Definition rate_lock_sql : str :=
  ##"SELECT pg_advisory_xact_lock(hashtextextended($1, 0))".
Definition rate_policy_sql : str :=
  ##"SELECT rate_limit_capacity, rate_limit_window_ms FROM rustee_recurring_jobs WHERE rate_limit_key = $1 LIMIT 1".
Definition consume_sql : str :=
  ##"INSERT INTO rustee_recurring_job_rate_windows (rate_limit_key, capacity, window_ms, window_started_at_ms, consumed) VALUES ($1, $2, $3, $4, 1) ON CONFLICT (rate_limit_key) DO UPDATE SET window_started_at_ms = EXCLUDED.window_started_at_ms, consumed = CASE WHEN rustee_recurring_job_rate_windows.window_started_at_ms = EXCLUDED.window_started_at_ms THEN rustee_recurring_job_rate_windows.consumed + 1 ELSE 1 END, updated_at = clock_timestamp() WHERE rustee_recurring_job_rate_windows.capacity = EXCLUDED.capacity AND rustee_recurring_job_rate_windows.window_ms = EXCLUDED.window_ms AND ( rustee_recurring_job_rate_windows.window_started_at_ms <> EXCLUDED.window_started_at_ms OR rustee_recurring_job_rate_windows.consumed < rustee_recurring_job_rate_windows.capacity ) RETURNING consumed".
Definition window_sql : str :=
  ##"SELECT capacity, window_ms FROM rustee_recurring_job_rate_windows WHERE rate_limit_key = $1".
Definition defer_sql : str :=
  ##"UPDATE rustee_recurring_jobs SET next_run_at = to_timestamp($2::double precision / 1000.0), updated_at = clock_timestamp() WHERE id = $1 AND enabled".
Definition due_sql : str :=
  ##"SELECT id, destination, job_name, schema_version, payload, cron_expression, time_zone, priority, rate_limit_key, rate_limit_capacity, rate_limit_window_ms, floor(EXTRACT(EPOCH FROM next_run_at) * 1000)::bigint AS scheduled_at FROM rustee_recurring_jobs WHERE enabled AND next_run_at <= to_timestamp($1::double precision / 1000.0) ORDER BY next_run_at, id FOR UPDATE SKIP LOCKED LIMIT $2".
Definition advance_sql : str :=
  ##"UPDATE rustee_recurring_jobs SET next_run_at = to_timestamp($2::double precision / 1000.0), last_fired_at = clock_timestamp(), updated_at = clock_timestamp() WHERE id = $1".
Definition clock_sql : str :=
  ##"SELECT floor(EXTRACT(EPOCH FROM clock_timestamp()) * 1000)::bigint".
Definition pause_sql : str :=
  ##"UPDATE rustee_recurring_jobs SET enabled = false, updated_at = clock_timestamp() WHERE schedule_key = $1 AND enabled".
Definition paused_sql : str :=
  ##"SELECT id, cron_expression, time_zone FROM rustee_recurring_jobs WHERE schedule_key = $1 AND NOT enabled FOR UPDATE".
Definition resume_sql : str :=
  ##"UPDATE rustee_recurring_jobs SET enabled = true, next_run_at = to_timestamp($2::double precision / 1000.0), updated_at = clock_timestamp() WHERE id = $1 AND NOT enabled".
Definition register_sql : str :=
  ##"INSERT INTO rustee_recurring_jobs (id, schedule_key, destination, job_name, schema_version, payload, cron_expression, time_zone, priority, rate_limit_key, rate_limit_capacity, rate_limit_window_ms, next_run_at) VALUES ($1, $2, $3, $4, $5, $6, $7, $8, $9, $10, $11, $12, to_timestamp($13::double precision / 1000.0)) ON CONFLICT (schedule_key) DO NOTHING RETURNING id".
Definition registered_sql : str :=
  ##"SELECT id, destination, job_name, schema_version, payload, cron_expression, time_zone, priority, rate_limit_key, rate_limit_capacity, rate_limit_window_ms FROM rustee_recurring_jobs WHERE schedule_key = $1".

(** ** The governor in the database: [rate_limit.rs] *)

Section scheduler.
Context `{Postgres, CalendarApi, UuidApi}.
Context {Value : Type} (from_slice : bytes -> option Value).

(** The stored rate policy columns of the rows with a key. *)
Definition policy_columns (key : str) (t : Tables) : option (option Z * option Z) :=
  head (omap (fun r => match rj_rate_limit r with
                       | (Some k, c, w) => if str_eqb k key then Some (c, w) else None
                       | _ => None
                       end) (recurring t)).

Definition enforce_registration_policy (l : RecurringJobRateLimit) : tx unit :=
  _ ← select rate_lock_sql (fun _ => tt);
  row ← select rate_policy_sql (policy_columns (rl_key l));
  match row with
  | None => mret tt
  | Some (capacity, window) =>
      capacity ← lift (ok_or capacity StoredSchedule);
      window ← lift (ok_or window StoredSchedule);
      if (capacity =? rl_capacity l) && (window =? window_ms l) then mret tt
      else throw RateLimitPolicyConflict
  end.

Inductive ConsumeOutcome : Type := Allowed | Deferred (next_window_at : Z).

(** The row written, under the [CHECK] constraints of the table. *)
Definition put_window (l : RecurringJobRateLimit) (started consumed : Z) (t : Tables) :
    result (option Z * Tables) SqlxError :=
  if (1 <=? rl_capacity l) && (rl_capacity l <=? i32_max) && (1 <=? window_ms l)
     && (window_ms l <=? MAX_RATE_LIMIT_WINDOW_MS) && octets (rl_key l) && (consumed <=? rl_capacity l)
  then Ok (Some consumed,
           set_windows (<[rl_key l := {| rw_capacity := rl_capacity l; rw_window_ms := window_ms l;
                                         rw_started_at := started; rw_consumed := consumed |}]>
                        (windows t)) t)
  else Err ConstraintViolated.

(** [INSERT .. ON CONFLICT (rate_limit_key) DO UPDATE .. WHERE .. RETURNING consumed]. *)
Definition consume_row (l : RecurringJobRateLimit) (started : Z) (t : Tables) :
    result (option Z * Tables) SqlxError :=
  match windows t !! rl_key l with
  | None => put_window l started 1 t
  | Some w =>
      if (rw_capacity w =? rl_capacity l) && (rw_window_ms w =? window_ms l)
         && (negb (rw_started_at w =? started) || (rw_consumed w <? rw_capacity w))
      then put_window l started (if rw_started_at w =? started then rw_consumed w + 1 else 1) t
      else Ok (None, t)
  end.

Definition consume_window (l : RecurringJobRateLimit) (now : Z) : tx ConsumeOutcome :=
  bounds ← lift (fixed_window_bounds now (window_ms l));
  consumed ← statement consume_sql (consume_row l bounds.1);
  if is_some consumed then mret Allowed
  else
    row ← select window_sql (fun t => windows t !! rl_key l);
    w ← lift (ok_or row StorageInvariant);
    if negb (rw_capacity w =? rl_capacity l) || negb (rw_window_ms w =? window_ms l)
    then throw RateLimitPolicyConflict
    else mret (Deferred bounds.2).

Definition one_row (n : Z) : tx unit := if n =? 1 then mret tt else throw StorageInvariant.

Definition defer_schedule (i : Uuid) (next_window_at : Z) : tx unit :=
  updated ← statement defer_sql (update_where (fun r => (rj_id r =? i) && rj_enabled r)
              (fun r => reschedule next_window_at (rj_last_fired_at r) (rj_enabled r) r));
  one_row updated.

(** ** Stored rows and messages: [model.rs] *)

Record StoredRecurringJob : Type := {
  st_id : Uuid;
  st_destination : OutboxDestination;
  st_job_name : str;
  st_schema_version : Z;
  st_payload : Value;
  st_expression : CronExpression;
  st_time_zone : RecurringJobTimeZone;
  st_priority : Z;
  st_rate_limit : option RecurringJobRateLimit;
  st_scheduled_at : Z
}.

Definition decode_template_payload (body : bytes) : result Value RecurringJobError :=
  if negb (nonempty body) || (MAX_JOB_ENVELOPE_BYTES <? List.length body)%nat then Err InvalidJobPayload
  else ok_or (from_slice body) InvalidJobPayload.

Definition decode_stored_template (job_name : str) (body : bytes) : result Value RecurringJobError :=
  if negb (is_valid_job_name job_name) then Err StoredSchedule
  else map_err (fun _ => StoredSchedule) (decode_template_payload body).

Definition stored {A E} (r : result A E) : result A RecurringJobError := map_err (fun _ => StoredSchedule) r.

Definition from_row (r : RecurringRow) : result StoredRecurringJob RecurringJobError :=
  let? destination := stored (destination_new (rj_destination r)) in
  if negb ((0 <=? rj_schema_version r) && (rj_schema_version r <=? u16_max)) then Err StoredSchedule
  else
  let? body := decode_stored_template (rj_job_name r) (rj_payload r) in
  let? expression := stored (cron_expression_new (rj_cron_expression r)) in
  let? time_zone := stored (time_zone_new (rj_time_zone r)) in
  if negb ((0 <=? rj_priority r) && (rj_priority r <=? u8_max)) then Err StoredSchedule
  else
  let? rate_limit := match rj_rate_limit r with
                     | (None, None, None) => Ok None
                     | (Some key, Some capacity, Some window) =>
                         let? l := from_stored_parts key capacity window in Ok (Some l)
                     | _ => Err StoredSchedule
                     end in
  Ok {| st_id := rj_id r; st_destination := destination; st_job_name := rj_job_name r;
        st_schema_version := rj_schema_version r; st_payload := body; st_expression := expression;
        st_time_zone := time_zone; st_priority := rj_priority r; st_rate_limit := rate_limit;
        st_scheduled_at := rj_next_run_at r |}.

Record MaterializedJobEnvelope : Type := {
  mj_id : Uuid;
  mj_name : str;
  mj_version : Z;
  mj_payload : Value;
  mj_idempotency_key : option str;
  mj_enqueued_at_unix_ms : Z;
  mj_attempt : Z
}.

Context `{!JsonWriter MaterializedJobEnvelope}.

Definition render_job_message (i : Uuid) (job_name : str) (schema_version : Z) (body : Value) (now : Z)
    (idempotency_key : option str) : result JobMessage RecurringJobError :=
  if now <? 0 then Err ClockOutOfRange
  else
    let envelope := {| mj_id := i; mj_name := job_name; mj_version := schema_version;
                       mj_payload := body; mj_idempotency_key := idempotency_key;
                       mj_enqueued_at_unix_ms := now; mj_attempt := 1 |} in
    let? encoded := map_err (fun _ => InvalidJobPayload) (to_vec_bounded envelope MAX_JOB_ENVELOPE_BYTES) in
    map_err (fun _ => InvalidJobPayload) (message_from_parts i job_name schema_version 1 encoded).

(** [format!("{}", value)] of an [i64]. *)
Definition display_i64 (z : Z) : str := if z <? 0 then "-"%char :: to_dec (- z) else to_dec z.

Definition occurrence_key (schedule_id : Uuid) (at_ms : Z) : str :=
  ##"rustee-recurring:" ++ uuid_to_string schedule_id ++ ##":" ++ display_i64 at_ms.

(** [job_id] is the fresh [JobId]. *)
Definition materialized_message (job_id : Uuid) (s : StoredRecurringJob) (now : Z) :
    result JobMessage RecurringJobError :=
  map_err (fun e => match e with ClockOutOfRange => ClockOutOfRange | _ => StoredSchedule end)
    (render_job_message job_id (st_job_name s) (st_schema_version s) (st_payload s) now
       (Some (occurrence_key (st_id s) (st_scheduled_at s)))).

Definition encode_schedule_payload {T} `{!JsonWriter T} (body : T) : result bytes RecurringJobError :=
  map_err (fun _ => InvalidJobPayload) (to_vec_bounded body MAX_JOB_ENVELOPE_BYTES).

(** [row_id] is the fresh [OutboxId], [job_id] the fresh [JobId]. *)
Definition validate_materialized_job (row_id job_id : Uuid) (destination : OutboxDestination)
    (job_name : str) (schema_version : Z) (body : bytes) (priority now : Z) (idempotency_key : str) :
    result unit RecurringJobError :=
  let? value := decode_template_payload body in
  let? m := render_job_message job_id job_name schema_version value now (Some idempotency_key) in
  let? _ := map_err (fun _ => InvalidJobPayload) (from_job_message row_id destination m) in
  Ok tt.

(** ** A scheduler pass: [scheduler.rs] *)

(** [ORDER BY next_run_at, id]. *)
Definition due_le (a b : RecurringRow) : Prop :=
  rj_next_run_at a < rj_next_run_at b
  \/ rj_next_run_at a = rj_next_run_at b /\ rj_id a <= rj_id b.
#[export] Instance due_le_dec : RelDecision due_le.
Proof. intros a b. unfold due_le. apply _. Defined.

Definition is_due (now : Z) (locked : Uuid -> bool) (r : RecurringRow) : bool :=
  rj_enabled r && (rj_next_run_at r <=? now) && negb (locked (rj_id r)).

(** The rows of [SELECT .. FOR UPDATE SKIP LOCKED LIMIT]; [locked] are the rows other
    transactions hold. *)
Definition due_rows (now : Z) (limit : nat) (locked : Uuid -> bool) (t : Tables) : list RecurringRow :=
  take limit (merge_sort due_le (List.filter (is_due now locked) (recurring t))).

(** [PostgresOutbox.stage] in this transaction. *)
Definition stage_outbox (m : OutboxMessage) (clock : Z) : tx StageOutcome := fun t =>
  let '(r, l) := stage m clock (outbox t) in (map_err Storage r, set_outbox l t).

Definition database_clock_unix_ms_transaction (clock : Z) : tx Z :=
  select clock_sql (fun _ => clock / 1000).

(** One iteration of the loop over the selected rows; [ids] are the fresh job and
    outbox identifiers. [true] when a job was staged, [false] when the schedule was
    deferred. *)
Definition fire_row (clock now : Z) (ids : Uuid * Uuid) (r : RecurringRow) : tx bool :=
  s ← lift (from_row r);
  permit ← match st_rate_limit s with
           | None => mret Allowed
           | Some l => consume_window l now
           end;
  match permit with
  | Deferred next_window_at => _ ← defer_schedule (st_id s) next_window_at; mret false
  | Allowed =>
      next_run_at ← lift (next_after_unix_ms (st_expression s) now (st_time_zone s));
      m ← lift (materialized_message ids.1 s now);
      om ← lift (stored (from_job_message ids.2 (st_destination s) m));
      outcome ← stage_outbox (with_priority (st_priority s) om) clock;
      _ ← match outcome with
          | Inserted _ => mret tt
          | AlreadyPresent => throw OutboxCollision
          end;
      updated ← statement advance_sql (update_where (fun x => rj_id x =? st_id s)
                  (fun x => reschedule next_run_at (Some clock) (rj_enabled x) x));
      _ ← one_row updated;
      mret true
  end.

Fixpoint fire_rows (clock now : Z) (fresh : nat -> Uuid * Uuid) (rows : list RecurringRow)
    (report : RecurringJobFireReport) : tx RecurringJobFireReport :=
  match rows with
  | [] => mret report
  | r :: rows =>
      fired ← fire_row clock now (fresh (List.length rows)) r;
      fire_rows clock now fresh rows
        (if fired : bool
         then {| claimed := claimed report; staged := saturating_add u32_max (staged report) 1;
                 rate_limited := rate_limited report |}
         else {| claimed := claimed report; staged := staged report;
                 rate_limited := saturating_add u32_max (rate_limited report) 1 |})
  end.

Definition fire_due_transaction (limit : nat) (clock : Z) (locked : Uuid -> bool)
    (fresh : nat -> Uuid * Uuid) : tx RecurringJobFireReport :=
  now ← database_clock_unix_ms_transaction clock;
  rows ← select due_sql (due_rows now limit locked);
  fire_rows clock now fresh rows
    {| claimed := Z.of_nat (List.length rows); staged := 0; rate_limited := 0 |}.

(** [fire_due_inner]; the clock is in microseconds. *)
Definition fire_due_inner (limit : nat) (clock : Z) (locked : Uuid -> bool)
    (fresh : nat -> Uuid * Uuid) (c : Commit) : Tables -> result RecurringJobFireReport RecurringJobError * Tables :=
  transaction c (fire_due_transaction limit clock locked fresh).

(** ** Registration, pause and resume: [scheduler/registration.rs] *)

Record RecurringJob (J : Type) : Type := {
  job_key : str;
  job_destination : OutboxDestination;
  job_payload : J;
  job_expression : CronExpression;
  job_time_zone : RecurringJobTimeZone;
  job_priority : Z;
  job_rate_limit : option RecurringJobRateLimit
}.
Arguments job_key {J}. Arguments job_destination {J}. Arguments job_payload {J}.
Arguments job_expression {J}. Arguments job_time_zone {J}. Arguments job_priority {J}.
Arguments job_rate_limit {J}.

(** [RecurringJobTimeZone::default]; [None] is its panic, were [UTC] unknown. *)
Definition time_zone_default : option RecurringJobTimeZone :=
  match time_zone_new ##"UTC" with Ok tz => Some tz | Err _ => None end.

Definition job_new {J} (key : str) (destination : OutboxDestination) (body : J)
    (expression : CronExpression) : option (RecurringJob J) :=
  tz ← time_zone_default;
  Some {| job_key := key; job_destination := destination; job_payload := body;
          job_expression := expression; job_time_zone := tz; job_priority := 0;
          job_rate_limit := None |}.
Definition job_with_priority {J} (priority : Z) (j : RecurringJob J) : RecurringJob J :=
  {| job_key := job_key j; job_destination := job_destination j; job_payload := job_payload j;
     job_expression := job_expression j; job_time_zone := job_time_zone j; job_priority := priority;
     job_rate_limit := job_rate_limit j |}.
Definition job_with_time_zone {J} (tz : RecurringJobTimeZone) (j : RecurringJob J) : RecurringJob J :=
  {| job_key := job_key j; job_destination := job_destination j; job_payload := job_payload j;
     job_expression := job_expression j; job_time_zone := tz; job_priority := job_priority j;
     job_rate_limit := job_rate_limit j |}.
Definition job_with_rate_limit {J} (l : RecurringJobRateLimit) (j : RecurringJob J) : RecurringJob J :=
  {| job_key := job_key j; job_destination := job_destination j; job_payload := job_payload j;
     job_expression := job_expression j; job_time_zone := job_time_zone j; job_priority := job_priority j;
     job_rate_limit := Some l |}.

Section registration.
Context {J : Type} `{!JobEnvelope.Job J, !JsonWriter J}.

(** The columns that [insert_recurring_job_registration] binds. *)
Definition rate_columns (l : option RecurringJobRateLimit) : option str * option Z * option Z :=
  (option_map rl_key l, option_map rl_capacity l, option_map window_ms l).

Definition registration_row (job : RecurringJob J) (body : bytes) (i : Uuid) (next_run_at : Z) : RecurringRow :=
  {| rj_id := i; rj_schedule_key := job_key job; rj_destination := job_destination job;
     rj_job_name := NAME (J:=J); rj_schema_version := VERSION (J:=J); rj_payload := body;
     rj_cron_expression := job_expression job; rj_time_zone := tz_name (job_time_zone job);
     rj_priority := job_priority job; rj_rate_limit := rate_columns (job_rate_limit job);
     rj_next_run_at := next_run_at; rj_last_fired_at := None; rj_enabled := true |}.

(** [INSERT .. ON CONFLICT (schedule_key) DO NOTHING RETURNING id]. *)
Definition insert_registration (r : RecurringRow) (t : Tables) : result (option Uuid * Tables) SqlxError :=
  if negb (recurring_checks r) then Err ConstraintViolated
  else if existsb (fun x => str_eqb (rj_schedule_key x) (rj_schedule_key r)) (recurring t) then Ok (None, t)
  else if existsb (fun x => rj_id x =? rj_id r) (recurring t) then Err ConstraintViolated
  else Ok (Some (rj_id r), set_recurring (recurring t ++ [r]) t).

Definition insert_recurring_job_registration (job : RecurringJob J) (body : bytes) (i : Uuid)
    (next_run_at : Z) : tx bool :=
  inserted ← statement register_sql (insert_registration (registration_row job body i next_run_at));
  mret (is_some inserted).

Definition row_of_key (key : str) (t : Tables) : option RecurringRow :=
  List.find (fun x => str_eqb (rj_schedule_key x) key) (recurring t).

Definition rate_limit_matches (l : option RecurringJobRateLimit) (columns : option str * option Z * option Z) :
    bool :=
  match l, columns with
  | None, (None, None, None) => true
  | Some l, (Some k, Some c, Some w) =>
      str_eqb k (rl_key l) && (c =? rl_capacity l) && (w =? window_ms l)
  | _, _ => false
  end.

Definition existing_registration_id_if_identical (job : RecurringJob J) (body : bytes) :
    tx (option Uuid) :=
  row ← select registered_sql (row_of_key (job_key job));
  r ← lift (ok_or row StorageInvariant);
  let is_identical :=
    str_eqb (rj_destination r) (job_destination job)
    && str_eqb (rj_job_name r) (NAME (J:=J))
    && (rj_schema_version r =? VERSION (J:=J))
    && str_eqb (rj_payload r) body
    && str_eqb (rj_cron_expression r) (job_expression job)
    && str_eqb (rj_time_zone r) (tz_name (job_time_zone job))
    && (rj_priority r =? job_priority job)
    && rate_limit_matches (job_rate_limit job) (rj_rate_limit r) in
  mret (if is_identical then Some (rj_id r) else None).

(** [i] is the fresh [RecurringJobId]; [ids] are the fresh identifiers of the message
    that is only validated. *)
Definition register_transaction (job : RecurringJob J) (body : bytes) (i : Uuid) (ids : Uuid * Uuid)
    (clock : Z) : tx RecurringJobRegistration :=
  _ ← match job_rate_limit job with
      | Some l => enforce_registration_policy l
      | None => mret tt
      end;
  now ← database_clock_unix_ms_transaction clock;
  next_run_at ← lift (next_after_unix_ms (job_expression job) now (job_time_zone job));
  _ ← lift (validate_materialized_job ids.2 ids.1 (job_destination job) (NAME (J:=J)) (VERSION (J:=J))
              body (job_priority job) now (occurrence_key i next_run_at));
  inserted ← insert_recurring_job_registration job body i next_run_at;
  if inserted : bool then mret (Registered i)
  else
    existing ← existing_registration_id_if_identical job body;
    existing_id ← lift (ok_or existing RegistrationConflict);
    mret (AlreadyRegistered existing_id).

Definition register (job : RecurringJob J) (i : Uuid) (ids : Uuid * Uuid) (clock : Z) (c : Commit)
    (t : Tables) : result RecurringJobRegistration RecurringJobError * Tables :=
  match encode_schedule_payload (job_payload job) with
  | Err e => (Err e, t)
  | Ok body => transaction c (register_transaction job body i ids clock) t
  end.
End registration.

Definition pause (key : str) (t : Tables) : result RecurringJobPauseOutcome RecurringJobError * Tables :=
  let '(r, t) := execute pause_sql
    (update_where (fun x => str_eqb (rj_schedule_key x) key && rj_enabled x)
       (fun x => reschedule (rj_next_run_at x) (rj_last_fired_at x) false x)) t in
  (let? n := map_err Storage r in Ok (if n =? 1 then Paused else NotFoundOrAlreadyPaused), t).

Definition paused_row (key : str) (t : Tables) : option RecurringRow :=
  List.find (fun x => str_eqb (rj_schedule_key x) key && negb (rj_enabled x)) (recurring t).

Definition resume_transaction (key : str) (clock : Z) : tx RecurringJobResumeOutcome :=
  now ← database_clock_unix_ms_transaction clock;
  row ← select paused_sql (paused_row key);
  match row with
  | None => mret NotFoundOrAlreadyEnabled
  | Some r =>
      expression ← lift (stored (cron_expression_new (rj_cron_expression r)));
      time_zone ← lift (stored (time_zone_new (rj_time_zone r)));
      next_run_at ← lift (next_after_unix_ms expression now time_zone);
      updated ← statement resume_sql
        (update_where (fun x => (rj_id x =? rj_id r) && negb (rj_enabled x))
           (fun x => reschedule next_run_at (rj_last_fired_at x) true x));
      _ ← one_row updated;
      mret Resumed
  end.

Definition resume (key : str) (clock : Z) (c : Commit) :
    Tables -> result RecurringJobResumeOutcome RecurringJobError * Tables :=
  transaction c (resume_transaction key clock).

(** ** Observation: [fire_observation.rs] *)

Inductive RecurringJobFireOutcome : Type := Succeeded | Failed | Abandoned.
Definition fire_outcome_as_str (o : RecurringJobFireOutcome) : str :=
  match o with Succeeded => ##"succeeded" | Failed => ##"failed" | Abandoned => ##"abandoned" end.

Inductive FireEvent : Type :=
| FireStarted (limit : nat)
| FireFinished (outcome : RecurringJobFireOutcome) (report : option RecurringJobFireReport) (duration : Duration).

(** [fire_due] for an observer that records an event or panics ([None]); a panic is
    caught. [None] as the end of the pass is a caller that drops it on the way, which
    abandons the transaction. *)
Definition notify_fire {O} (observe : FireEvent -> O -> option O) (e : FireEvent) (o : O) : O :=
  default o (observe e o).

Definition fire_due {O} (observe : FireEvent -> O -> option O) (limit : nat) (clock : Z)
    (locked : Uuid -> bool) (fresh : nat -> Uuid * Uuid) (c : option Commit) (duration : Duration)
    (t : Tables) (o : O) : option (result RecurringJobFireReport RecurringJobError) * Tables * O :=
  let o := notify_fire observe (FireStarted limit) o in
  match c with
  | None => (None, t, notify_fire observe (FireFinished Abandoned None duration) o)
  | Some c =>
      let '(r, t) := fire_due_inner limit clock locked fresh c t in
      match r with
      | Ok report => (Some (Ok report), t, notify_fire observe (FireFinished Succeeded (Some report) duration) o)
      | Err e => (Some (Err e), t, notify_fire observe (FireFinished Failed None duration) o)
      end
  end.
End scheduler.
Arguments job_key {_ J}. Arguments job_destination {_ J}. Arguments job_payload {_ J}.
Arguments job_expression {_ J}. Arguments job_time_zone {_ J}. Arguments job_priority {_ J}.
Arguments job_rate_limit {_ J}.

(** ** Lemmas: transactions *)

Lemma tx_bind_Ok {A B} (m : tx A) (f : A -> tx B) t b t' :
  (m ≫= f) t = (Ok b, t') <-> exists a t1, m t = (Ok a, t1) /\ f a t1 = (Ok b, t').
Proof.
  unfold mbind, tx_bind. destruct (m t) as [[a|e] t1]; split.
  - intros HE. by exists a, t1.
  - intros (a' & t2 & [= -> ->] & HE). done.
  - done.
  - by intros (a & t2 & HE & _).
Qed.

Lemma lift_Ok {A} (r : result A RecurringJobError) t a t' :
  lift r t = (Ok a, t') <-> r = Ok a /\ t' = t.
Proof. unfold lift. split; [by intros [= -> ->] | by intros [-> ->]]. Qed.

Lemma ret_Ok {A} (a b : A) (t t' : Tables) : (mret a : tx A) t = (Ok b, t') <-> b = a /\ t' = t.
Proof. unfold mret, tx_ret. split; [by intros [= -> ->] | by intros [-> ->]]. Qed.

Lemma throw_Ok {A} e t (a : A) t' : throw e t = (Ok a, t') <-> False.
Proof. done. Qed.

Lemma statement_Ok `{Postgres} {A} text (meaning : Tables -> result (A * Tables) SqlxError) t a t' :
  statement text meaning t = (Ok a, t') <-> accepts text = true /\ meaning t = Ok (a, t').
Proof.
  unfold statement, execute. destruct (accepts text); [|split; [done | by intros []]].
  destruct (meaning t) as [[b t1]|e]; simpl; split; try done.
  - by intros [= -> ->].
  - by intros [_ [= -> ->]].
  - by intros [_ ?].
Qed.

Lemma select_Ok `{Postgres} {A} text (meaning : Tables -> A) t a t' :
  select text meaning t = (Ok a, t') <-> accepts text = true /\ a = meaning t /\ t' = t.
Proof.
  unfold select. rewrite statement_Ok. split; [by intros [? [= -> ->]] | by intros (? & -> & ->)].
Qed.

Lemma one_row_Ok n (u : unit) t t' : one_row n t = (Ok u, t') <-> n = 1 /\ t' = t.
Proof.
  unfold one_row. destruct (Z.eqb_spec n 1); destruct u.
  - rewrite ret_Ok. naive_solver.
  - rewrite throw_Ok. naive_solver.
Qed.

Lemma transaction_cases {A} c (m : tx A) t r t' :
  transaction c m t = (r, t') ->
  match r with
  | Ok a => c = Committed /\ m t = (Ok a, t')
  | Err _ => t' = t \/ c = CommitUnknown /\ exists a, m t = (Ok a, t')
  end.
Proof.
  unfold transaction. destruct (m t) as [[a|e] t1]; [|intros [= <- <-]; by left].
  destruct c; intros [= <- <-]; [done | by left | right; by eauto].
Qed.

(** Split the result of a sequence of statements that succeeded. *)
Ltac tx_steps :=
  repeat match goal with
  | H : (_ ≫= _) _ = (Ok _, _) |- _ => apply tx_bind_Ok in H as (? & ? & ? & ?)
  | H : lift _ _ = (Ok _, _) |- _ => apply lift_Ok in H as [? ?]; subst
  | H : mret _ _ = (Ok _, _) |- _ => apply ret_Ok in H as [? ?]; subst
  | H : throw _ _ = (Ok _, _) |- _ => by apply throw_Ok in H
  | H : select _ _ _ = (Ok _, _) |- _ => apply select_Ok in H as (? & ? & ?); subst
  | H : statement _ _ _ = (Ok _, _) |- _ => apply statement_Ok in H as [? ?]
  | H : one_row _ _ = (Ok _, _) |- _ => apply one_row_Ok in H as [? ?]; subst
  end.

(** ** Lemmas: occurrences *)

Section occurrences.
Context `{CalendarApi}.

Lemma next_after_Ok e now tz n :
  next_after_unix_ms e now tz = Ok n ->
  exists s, schedule_parse e = Some s /\ n ∈ occurrences_after s (tz_zone tz) now /\
    now < n /\ is_earliest_local_occurrence (tz_zone tz) n = true.
Proof.
  unfold next_after_unix_ms, unix_ms_to_utc. destruct (clock_representable now); [|done].
  destruct (schedule_parse e) as [s|]; [|done]. destruct (List.find _ _) as [x|] eqn:EF; [|done].
  intros [= ->]. apply List.find_some in EF as [Hin HP]. apply andb_true_iff in HP as [HP HE].
  exists s. split_and!; [done | by apply list_elem_of_In | lia | done].
Qed.

Lemma window_bounds_Ok now w s n :
  fixed_window_bounds now w = Ok (s, n) -> s = now / w * w /\ n = s + w /\ s <= now < n.
Proof.
  unfold fixed_window_bounds, checked_i64. destruct (Z.leb_spec w 0); [done|].
  destruct (_ && _); cbn [ok_or]; [|done]. destruct (_ && _); cbn [ok_or]; [|done].
  intros [= <- <-]. pose proof (Z.div_mod now w ltac:(lia)). pose proof (Z.mod_pos_bound now w ltac:(lia)).
  split_and!; [done | done | nia | nia].
Qed.
End occurrences.

(** ** Properties: wall-clock time *)

(** A schedule fires a wall-clock time once. Every computed next run lies strictly
    after the clock, is an occurrence of the expression, and is the earliest instant
    with its local time; so two computed runs of schedules in the same zone that show
    the same local time, across a backward transition of daylight saving time, are the
    same instant. *)
Theorem wall_clock_fires_once `{CalendarLaws} e1 e2 now1 now2 tz n1 n2 :
  next_after_unix_ms e1 now1 tz = Ok n1 -> next_after_unix_ms e2 now2 tz = Ok n2 ->
  now1 < n1 /\ now2 < n2 /\
  (local_time (tz_zone tz) n1 = local_time (tz_zone tz) n2 -> n1 = n2).
Proof.
  intros H1 H2. apply next_after_Ok in H1 as (s1 & _ & _ & Hn1 & HE1).
  apply next_after_Ok in H2 as (s2 & _ & _ & Hn2 & HE2). split_and!; [done | done |].
  intros HL. unfold is_earliest_local_occurrence in *.
  destruct (Z.lt_trichotomy n1 n2) as [Hlt|[->|Hlt]]; [|done|].
  - rewrite <- HL in HE2. rewrite (local_ambiguous _ _ _ HL Hlt) in HE2. lia.
  - symmetry in HL. rewrite <- HL in HE1. rewrite (local_ambiguous _ _ _ HL Hlt) in HE1. lia.
Qed.

(** ** Lemmas: a pass *)

Section passes.
Context `{Postgres, CalendarApi, UuidApi}.
Context {Value : Type} (from_slice : bytes -> option Value) `{!JsonWriter (@MaterializedJobEnvelope Value)}.
Implicit Types t : Tables.

(** A schedule row moved past the clock, its definition unchanged. *)
Definition moved (now : Z) (r r' : RecurringRow) : Prop :=
  exists next fired, r' = reschedule next fired (rj_enabled r) r /\ now < next.

(** The outbox row of a fired schedule. *)
Record fired_from (clock now : Z) (r : RecurringRow) (o : Row) : Prop := {
  fired_columns :
    r_kind o = ##"job" /\ r_destination o = rj_destination r /\ r_message_type o = rj_job_name r /\
    r_schema_version o = rj_schema_version r /\ r_delivery_attempt o = 1 /\
    r_priority o = rj_priority r /\ r_available_at o = clock;
  fired_message :
    exists s job_id m, from_row from_slice r = Ok s /\ materialized_message job_id s now = Ok m /\
      r_payload o = msg_payload m
}.

Lemma consume_window_Ok l now t out t' :
  consume_window l now t = (Ok out, t') ->
  recurring t' = recurring t /\ outbox t' = outbox t /\
  match out with Allowed => True | Deferred n => now < n end.
Proof.
  unfold consume_window. intros HE. apply tx_bind_Ok in HE as ([s n] & t1 & Hb & HE).
  apply lift_Ok in Hb as [Hb ->]. apply window_bounds_Ok in Hb as (_ & _ & Hn). cbn [fst snd] in HE.
  apply tx_bind_Ok in HE as (x & t2 & HS & HE). apply statement_Ok in HS as [_ HS].
  assert (HC : recurring t2 = recurring t /\ outbox t2 = outbox t).
  { assert (HP : forall n, put_window l s n t = Ok (x, t2) ->
              recurring t2 = recurring t /\ outbox t2 = outbox t)
      by (intros k; unfold put_window; destruct (_ && _); [by intros [= _ <-] | done]).
    revert HS. unfold consume_row. destruct (windows t !! rl_key l) as [w|]; [|apply HP].
    destruct (_ && _); [apply HP | by intros [= _ <-]]. }
  destruct HC as [<- <-]. destruct (is_some x); tx_steps; [done|].
  destruct (_ || _); tx_steps. split_and!; [done | done | lia].
Qed.

Lemma row_unique rows (r x : RecurringRow) :
  NoDup (rj_id <$> rows) -> r ∈ rows -> x ∈ rows -> rj_id x = rj_id r -> x = r.
Proof.
  intros HN (i & Hi)%list_elem_of_lookup (j & Hj)%list_elem_of_lookup HE.
  assert (i = j) as ->.
  { eapply NoDup_lookup; [exact HN | by rewrite list_lookup_fmap, Hi | rewrite list_lookup_fmap, Hj; simpl; by rewrite HE]. }
  congruence.
Qed.

(** Updating the row of one schedule. *)
Definition at_id (i : Uuid) (f : RecurringRow -> RecurringRow) (rows : list RecurringRow) : list RecurringRow :=
  map (fun x => if rj_id x =? i then f x else x) rows.

Lemma at_id_enabled i f rows r :
  NoDup (rj_id <$> rows) -> r ∈ rows -> rj_id r = i -> rj_enabled r = true ->
  map (fun x => if (rj_id x =? i) && rj_enabled x then f x else x) rows = at_id i f rows.
Proof.
  intros HN Hr Hi He. apply List.map_ext_in. intros x Hx. apply list_elem_of_In in Hx.
  destruct (Z.eqb_spec (rj_id x) i) as [HE|]; [|done].
  rewrite (row_unique rows r x HN Hr Hx) by congruence. by rewrite He.
Qed.

Lemma from_row_Ok r s :
  from_row from_slice r = Ok s ->
  decode_template_payload from_slice (rj_payload r) = Ok (st_payload s) /\
  stored (time_zone_new (rj_time_zone r)) = Ok (st_time_zone s) /\
  (rj_rate_limit r = (None, None, None) -> st_rate_limit s = None) /\
  s = {| st_id := rj_id r; st_destination := rj_destination r; st_job_name := rj_job_name r;
         st_schema_version := rj_schema_version r; st_payload := st_payload s;
         st_expression := rj_cron_expression r; st_time_zone := st_time_zone s;
         st_priority := rj_priority r; st_rate_limit := st_rate_limit s;
         st_scheduled_at := rj_next_run_at r |}.
Proof.
  unfold from_row, destination_new. destruct (validate_text _ _ _); cbn; [|done].
  destruct (_ && _); cbn; [|done]. unfold decode_stored_template.
  destruct (is_valid_job_name _); cbn [negb]; [|done].
  destruct (decode_template_payload _ _) as [v|]; cbn; [|done].
  unfold cron_expression_new. destruct (_ && _); cbn; [|done].
  destruct (time_zone_new _); cbn; [|done]. destruct (_ && _); cbn; [|done].
  destruct (rj_rate_limit r) as [[[k|] [c|]] [w|]]; cbn; try done;
    [destruct (from_stored_parts k c w); [|done]|]; by intros [= <-].
Qed.

Lemma stage_outbox_Ok m clock i t t' :
  stage_outbox m clock t = (Ok (Inserted i), t') ->
  recurring t' = recurring t /\ windows t' = windows t /\
  outbox t' = outbox t ++ [bind_message m clock clock].
Proof.
  unfold stage_outbox, stage, execute. destruct (accepts stage_sql); [|done].
  unfold insert_row. destruct (row_checks _); cbn [negb]; [|done].
  destruct (existsb _ (outbox t)); [done|]. destruct (existsb _ (outbox t)); [done|].
  cbn. by intros [= _ <-].
Qed.

Lemma render_job_message_Ok i n v body now key m :
  render_job_message i n v body now key = Ok m ->
  is_valid_job_name n = true /\
  let e := {| mj_id := i; mj_name := n; mj_version := v; mj_payload := body;
              mj_idempotency_key := key; mj_enqueued_at_unix_ms := now; mj_attempt := 1 |} in
  json_fails e = false /\ (List.length (concat (json_writes e)) <= MAX_JOB_ENVELOPE_BYTES)%nat /\
  m = {| msg_id := i; msg_name := n; msg_version := v; msg_attempt := 1;
         msg_payload := concat (json_writes e) |}.
Proof.
  unfold render_job_message. destruct (now <? 0); [done|].
  rewrite (proj1 (to_vec_bounded_facts _ MAX_JOB_ENVELOPE_BYTES)).
  destruct (Nat.leb_spec (List.length (concat (json_writes
    {| mj_id := i; mj_name := n; mj_version := v; mj_payload := body; mj_idempotency_key := key;
       mj_enqueued_at_unix_ms := now; mj_attempt := 1 |}))) MAX_JOB_ENVELOPE_BYTES); [|done].
  destruct (json_fails _) eqn:EJ; [done|]. cbn [map_err]. unfold message_from_parts.
  destruct (is_blank _); [done|]. destruct (is_valid_job_name n); cbn [negb]; [|done].
  destruct (1 =? 0); [done|]. destruct (negb _); [done|]. destruct (_ <? _)%nat; [done|].
  by intros [= <-].
Qed.

Lemma materialized_message_Ok i s now m :
  materialized_message i s now = Ok m ->
  render_job_message i (st_job_name s) (st_schema_version s) (st_payload s) now
    (Some (occurrence_key (st_id s) (st_scheduled_at s))) = Ok m.
Proof. unfold materialized_message. destruct (render_job_message _ _ _ _ _ _) as [|[]]; by intros [= ->]. Qed.

(** The row that stages the message of a schedule. *)
Lemma fired_row clock now r s i j m om :
  from_row from_slice r = Ok s -> materialized_message i s now = Ok m ->
  stored (from_job_message j (st_destination s) m) = Ok om ->
  fired_from clock now r (bind_message (with_priority (st_priority s) om) clock clock).
Proof.
  intros Hs Hm Hom. pose proof Hm as HR. apply materialized_message_Ok, render_job_message_Ok in HR as (_ & _ & _ & Em).
  pose proof (from_row_Ok r s Hs) as (_ & _ & _ & Es).
  unfold stored, from_job_message, outbox_message_new in Hom.
  destruct (validate_durable_message_fields _ _ _ _ _); [|done]. injection Hom as <-. split.
  - rewrite Em. clear Em. destruct s; cbn in *. injection Es as -> -> -> -> -> -> ->. done.
  - exists s, i, m. done.
Qed.

Lemma fire_row_Ok clock now ids r t b t' :
  NoDup (rj_id <$> recurring t) -> r ∈ recurring t -> rj_enabled r = true ->
  fire_row from_slice clock now ids r t = (Ok b, t') ->
  exists f, recurring t' = at_id (rj_id r) f (recurring t) /\ (forall x, moved now x (f x)) /\
    if b : bool then exists o, outbox t' = outbox t ++ [o] /\ fired_from clock now r o
    else outbox t' = outbox t.
Proof.
  intros HND Hr He. unfold fire_row. intros HE. apply tx_bind_Ok in HE as (s & t1 & Hs & HE).
  apply lift_Ok in Hs as [Hs ->]. pose proof (from_row_Ok r s Hs) as (_ & _ & _ & Es).
  assert (Hi : st_id s = rj_id r) by (by rewrite Es).
  apply tx_bind_Ok in HE as (permit & t2 & HP & HE).
  assert (HC : recurring t2 = recurring t /\ outbox t2 = outbox t /\
               match permit with Allowed => True | Deferred n => now < n end).
  { destruct (st_rate_limit s) as [l|]; [by eapply consume_window_Ok|].
    by apply ret_Ok in HP as [-> ->]. }
  destruct HC as (HR2 & HO2 & HN). destruct permit as [|n].
  - apply tx_bind_Ok in HE as (next & t3 & Hx & HE). apply lift_Ok in Hx as [Hx ->].
    apply next_after_Ok in Hx as (_ & _ & _ & Hnow & _).
    apply tx_bind_Ok in HE as (m & t3 & Hm & HE). apply lift_Ok in Hm as [Hm ->].
    apply tx_bind_Ok in HE as (om & t3 & Hom & HE). apply lift_Ok in Hom as [Hom ->].
    apply tx_bind_Ok in HE as (out & t3 & Hst & HE). apply tx_bind_Ok in HE as (u & t4 & Hu & HE).
    destruct out as [oid|]; [|by apply throw_Ok in Hu]. apply ret_Ok in Hu as [_ ->].
    apply stage_outbox_Ok in Hst as (HR3 & _ & HO3).
    apply tx_bind_Ok in HE as (cnt & t5 & Hup & HE). apply statement_Ok in Hup as [_ [= _ <-]].
    apply tx_bind_Ok in HE as ([] & t6 & Hone & HE). apply one_row_Ok in Hone as [_ ->].
    apply ret_Ok in HE as [-> ->]. rewrite Hi.
    exists (fun x => reschedule next (Some clock) (rj_enabled x) x). split_and!.
    + simpl. by rewrite HR3, HR2.
    + intros x. by exists next, (Some clock).
    + eexists. split; [simpl; by rewrite HO3, HO2 | by eapply fired_row].
  - apply tx_bind_Ok in HE as ([] & t3 & Hdef & HE). apply ret_Ok in HE as [-> ->].
    unfold defer_schedule in Hdef. apply tx_bind_Ok in Hdef as (cnt & t4 & Hup & Hone).
    apply statement_Ok in Hup as [_ [= Hcnt <-]]. apply one_row_Ok in Hone as [-> ->].
    exists (fun x => reschedule n (rj_last_fired_at x) (rj_enabled x) x). split_and!; [| |done].
    + simpl. rewrite Hi, HR2. by eapply at_id_enabled.
    + intros x. by exists n, (rj_last_fired_at x).
Qed.

Lemma moved_id now x x' : moved now x x' -> rj_id x' = rj_id x.
Proof. by intros (n & f & -> & _). Qed.

Lemma at_id_ids now i f rows :
  (forall x, moved now x (f x)) -> rj_id <$> at_id i f rows = rj_id <$> rows.
Proof.
  intros Hf. induction rows as [|x rows IH]; [done|]. simpl. f_equal; [|done].
  destruct (_ =? i); [|done]. by eapply moved_id.
Qed.

(** What a pass over [rows] does to a schedule. *)
Definition pass_row (now : Z) (rows : list RecurringRow) (x x' : RecurringRow) : Prop :=
  if existsb (fun r => rj_id r =? rj_id x) rows then moved now x x' else x' = x.

Lemma fire_rows_Ok clock now fresh rows rep t rep' t' :
  NoDup (rj_id <$> recurring t) -> NoDup (rj_id <$> rows) ->
  (forall r, r ∈ rows -> r ∈ recurring t /\ rj_enabled r = true) ->
  staged rep + Z.of_nat (List.length rows) <= u32_max ->
  rate_limited rep + Z.of_nat (List.length rows) <= u32_max ->
  fire_rows from_slice clock now fresh rows rep t = (Ok rep', t') ->
  Forall2 (pass_row now rows) (recurring t) (recurring t') /\
  exists fired new, fired `sublist_of` rows /\ Forall2 (fired_from clock now) fired new /\
    outbox t' = outbox t ++ new /\ claimed rep' = claimed rep /\
    staged rep' = staged rep + Z.of_nat (List.length new) /\
    staged rep' + rate_limited rep' = staged rep + rate_limited rep + Z.of_nat (List.length rows).
Proof.
  revert rep t. induction rows as [|r rows IH]; intros rep t HN HNr HR HS HL; cbn [fire_rows].
  { intros HE. apply ret_Ok in HE as [-> ->]. split.
    - apply Forall_Forall2_diag. apply Forall_forall. intros x _. done.
    - exists [], []. rewrite app_nil_r. simpl. split_and!; [done | constructor | done | done | lia | lia]. }
  intros HE. apply tx_bind_Ok in HE as (b & t1 & Hfr & HE).
  destruct (HR r) as [Hr He]; [by left|]. rewrite fmap_cons in HNr. apply NoDup_cons in HNr as [Hni HNr].
  destruct (fire_row_Ok clock now _ r t b t1 HN Hr He Hfr) as (f & HR1 & Hf & HO1).
  assert (HN1 : NoDup (rj_id <$> recurring t1)) by (rewrite HR1, (at_id_ids now); done).
  cbn [List.length] in HS, HL.
  assert (HR' : forall x, x ∈ rows -> x ∈ recurring t1 /\ rj_enabled x = true).
  { intros x Hx. destruct (HR x) as [Hx1 Hx2]; [by right|]. split; [|done]. rewrite HR1.
    apply list_elem_of_In, List.in_map_iff. exists x. split; [|by apply list_elem_of_In].
    destruct (Z.eqb_spec (rj_id x) (rj_id r)) as [E|]; [|done]. destruct Hni. rewrite <- E.
    apply list_elem_of_fmap. by exists x. }
  assert (HF2 : forall l l', Forall2 (pass_row now rows) l l' -> forall l0, l = at_id (rj_id r) f l0 ->
            Forall2 (pass_row now (r :: rows)) l0 l').
  { intros l l' HX l0 ->. unfold at_id in HX. change (map ?h l0) with (h <$> l0) in HX. rewrite Forall2_fmap_l in HX. eapply Forall2_impl; [exact HX|].
    intros x x' HP. unfold compose, pass_row in *. cbn [existsb]. cbn beta in HP. rewrite (Z.eqb_sym (rj_id r)).
    destruct (Z.eqb_spec (rj_id x) (rj_id r)) as [E|E]; cbn [orb]; [|exact HP].
    rewrite (moved_id now x (f x)) in HP by apply Hf.
    destruct (existsb _ rows) eqn:EX.
    - apply existsb_exists' in EX. apply Exists_exists in EX as (y & Hy & Ey). apply Z.eqb_eq in Ey.
      destruct Hni. rewrite <- E, <- Ey. apply list_elem_of_fmap. by exists y.
    - rewrite HP. apply Hf. }
  set (rep1 := if b : bool then _ else _) in HE.
  assert (HB : staged rep1 + Z.of_nat (List.length rows) <= u32_max /\
               rate_limited rep1 + Z.of_nat (List.length rows) <= u32_max /\ claimed rep1 = claimed rep /\
               staged rep1 = staged rep + (if b then 1 else 0) /\
               rate_limited rep1 = rate_limited rep + (if b then 0 else 1)).
  { subst rep1. unfold saturating_add. destruct b; simpl; lia. }
  destruct HB as (HB1 & HB2 & HB3 & HB4 & HB5).
  destruct (IH rep1 t1 HN1 HNr HR' HB1 HB2 HE) as (HX & fired & new & Hsub & HFf & HOn & Hcl & Hst & Hsum).
  split; [by eapply HF2|]. destruct b.
  - destruct HO1 as (o & HO1 & Hfo). exists (r :: fired), (o :: new). rewrite HOn, HO1, <- app_assoc.
    split_and!; [by apply sublist_skip | by constructor | done | lia | simpl; lia | simpl; lia].
  - exists fired, new. rewrite HOn, HO1. split_and!; [by apply sublist_cons | done | done | lia | lia | simpl; lia].
Qed.

Lemma due_rows_facts now limit locked t :
  NoDup (rj_id <$> recurring t) ->
  NoDup (rj_id <$> due_rows now limit locked t) /\ (List.length (due_rows now limit locked t) <= limit)%nat /\
  forall r, r ∈ due_rows now limit locked t -> r ∈ recurring t /\ is_due now locked r = true.
Proof.
  intros HN. unfold due_rows. set (l := List.filter _ _).
  assert (HP : merge_sort due_le l ≡ₚ l) by apply merge_sort_Permutation.
  assert (HNl : NoDup (rj_id <$> l)).
  { subst l. clear HP. induction (recurring t) as [|x rows IH]; [done|].
    rewrite fmap_cons in HN. apply NoDup_cons in HN as [Hx HN]. simpl. destruct (is_due now locked x); [|by apply IH].
    rewrite fmap_cons. apply NoDup_cons. split; [|by apply IH]. intros (y & Hy & Hin)%list_elem_of_fmap.
    apply Hx. rewrite Hy. apply list_elem_of_fmap. exists y. split; [done|].
    apply list_elem_of_In, List.filter_In in Hin as [Hin _]. by apply list_elem_of_In. }
  split_and!.
  - eapply sublist_NoDup; [|apply fmap_sublist, sublist_take]. by rewrite HP.
  - rewrite length_take. lia.
  - intros r Hr. apply elem_of_take in Hr as (i & Hr & _). apply list_elem_of_lookup_2 in Hr.
    rewrite HP in Hr. apply list_elem_of_In, List.filter_In in Hr as [Hr HD]. by rewrite list_elem_of_In.
Qed.
End passes.

(** ** Properties: a scheduler pass *)

(** C25: a scheduler pass is all or nothing and fires each due schedule at most once.
    A pass that reports an error changes nothing, unless the acknowledgement of its
    commit was lost. A pass that reports success has moved exactly the selected
    schedules, each past the clock, and left the others alone; it appended to the
    outbox at most one job per selected schedule, for its destination, name, version
    and priority; and the report counts them: every claimed schedule was either staged
    or deferred by its rate limit. *)
Theorem fire_due_pass `{Postgres, CalendarApi, UuidApi} {Value} (from_slice : bytes -> option Value)
    `{!JsonWriter (@MaterializedJobEnvelope Value)} limit clock locked fresh c t :
  NoDup (rj_id <$> recurring t) -> (limit <= MAX_FIRE_BATCH_SIZE)%nat ->
  let now := clock / 1000 in
  let rows := due_rows now limit locked t in
  match fire_due_inner from_slice limit clock locked fresh c t with
  | (Err _, t') => t' = t \/ c = CommitUnknown
  | (Ok report, t') =>
      Forall2 (pass_row now rows) (recurring t) (recurring t') /\
      (exists fired new, fired `sublist_of` rows /\ Forall2 (fired_from from_slice clock now) fired new /\
         outbox t' = outbox t ++ new /\ staged report = Z.of_nat (List.length new)) /\
      claimed report = Z.of_nat (List.length rows) /\
      claimed report = staged report + rate_limited report
  end.
Proof.
  intros HN HL. cbn zeta. destruct (fire_due_inner _ _ _ _ _ _ t) as [r t'] eqn:E.
  unfold fire_due_inner in E. apply transaction_cases in E. destruct r as [report|e].
  2:{ destruct E as [->|[-> _]]; [by left | by right]. }
  destruct E as [_ HE]. unfold fire_due_transaction in HE.
  apply tx_bind_Ok in HE as (now & t1 & Hnow & HE). apply select_Ok in Hnow as (_ & -> & ->).
  apply tx_bind_Ok in HE as (rows & t1 & Hrows & HE). apply select_Ok in Hrows as (_ & -> & ->).
  destruct (due_rows_facts (clock / 1000) limit locked t HN) as (HNr & Hlen & HD).
  apply (fire_rows_Ok from_slice) in HE as (HX & fired & new & Hsub & HF & HO & Hc & Hs & Hsum);
    [| done | done | | |].
  - simpl in *. split_and!; [done | | done | lia]. exists fired, new. split_and!; [done | done | done | lia].
  - intros x Hx. destruct (HD x Hx) as [Hin Hdue]. split; [done|]. unfold is_due in Hdue. by bool_hyps.
  - cbn [staged]. unfold u32_max, MAX_FIRE_BATCH_SIZE in *. lia.
  - cbn [rate_limited]. unfold u32_max, MAX_FIRE_BATCH_SIZE in *. lia.
Qed.

(** ** Lemmas: schedules without occurrences *)

Section exhausted.
Context `{Postgres, CalendarLaws, UuidApi}.
Context {Value : Type} (from_slice : bytes -> option Value) `{!JsonWriter (@MaterializedJobEnvelope Value)}.

#[export] Instance due_le_trans : Transitive due_le.
Proof. intros x y z. unfold due_le. lia. Qed.
#[export] Instance due_le_total : Total due_le.
Proof. intros x y. unfold due_le. lia. Qed.

Lemma strongly_sorted_app {A} (R : relation A) l1 l2 :
  StronglySorted R l1 -> StronglySorted R l2 -> (forall x y, x ∈ l1 -> y ∈ l2 -> R x y) ->
  StronglySorted R (l1 ++ l2).
Proof.
  intros H1' H2' HR. induction H1' as [|x l1 HS IH HF]; [done|]. simpl. constructor.
  - apply IH. intros a b Ha. apply HR. by right.
  - apply Forall_app. split; [done|]. apply Forall_forall. intros y Hy. apply HR; [by left | done].
Qed.

Lemma filter_split {A} (p q : A -> bool) l :
  (forall x, q x = true -> p x = true) ->
  List.filter p l ≡ₚ List.filter q l ++ List.filter (fun x => p x && negb (q x)) l.
Proof.
  intros HI. induction l as [|x l IH]; [done|]. simpl. destruct (q x) eqn:Eq.
  - rewrite (HI x Eq). simpl. by rewrite IH.
  - destruct (p x); simpl; [|done]. rewrite IH. apply Permutation_middle.
Qed.

(** A schedule that is selected stays selected until it moves. *)
Lemma due_rows_later now now' limit t r :
  NoDup (rj_id <$> recurring t) -> now <= now' ->
  r ∈ due_rows now limit (fun _ => false) t -> r ∈ due_rows now' limit (fun _ => false) t.
Proof.
  intros HN Hle. unfold due_rows. set (p := is_due now' _). set (q := is_due now _).
  assert (HI : forall x, q x = true -> p x = true) 
    by (intros x; unfold p, q, is_due; rewrite !andb_true_iff, !Z.leb_le; intuition lia).
  assert (HE : merge_sort due_le (List.filter p (recurring t)) =
    merge_sort due_le (List.filter q (recurring t)) ++
    merge_sort due_le (List.filter (fun x => p x && negb (q x)) (recurring t))).
  { apply (StronglySorted_unique_strong due_le).
    - intros x y Hx Hy Hxy Hyx. rewrite merge_sort_Permutation in Hx.
      rewrite !merge_sort_Permutation, <- (filter_split p q) in Hy by done.
      apply list_elem_of_In, List.filter_In in Hx as [Hx _]. apply list_elem_of_In, List.filter_In in Hy as [Hy _].
      rewrite <- list_elem_of_In in Hx, Hy. apply (row_unique (recurring t)); [done..|].
      unfold due_le in *. lia.
    - apply StronglySorted_merge_sort; apply _.
    - apply strongly_sorted_app; [apply StronglySorted_merge_sort; apply _ ..|].
      intros x y Hx Hy. rewrite merge_sort_Permutation in Hx, Hy.
      apply list_elem_of_In, List.filter_In in Hx as [_ Hx]. apply list_elem_of_In, List.filter_In in Hy as [_ Hy].
      apply andb_true_iff in Hy as [Hp Hq]. unfold p, q, is_due in *.
      rewrite !andb_true_iff, !Z.leb_le in Hx, Hp. destruct Hx as [[_ Hx] _], Hp as [[He _] _].
      rewrite He in Hq. cbn [andb negb] in Hq. rewrite andb_true_r in Hq. unfold due_le. left. destruct (Z.leb_spec (rj_next_run_at y) now); [done | lia].
    - rewrite !merge_sort_Permutation. by apply filter_split. }
  rewrite HE. intros Hr. apply elem_of_take in Hr as (i & Hr & Hi). apply elem_of_take. exists i.
  split; [|done]. by apply lookup_app_l_Some.
Qed.

Lemma next_after_stays_exhausted e now now' tz n :
  next_after_unix_ms e now tz = Err StoredSchedule -> now <= now' ->
  next_after_unix_ms e now' tz <> Ok n.
Proof.
  intros HX Hle HE. pose proof HE as (s & Hs & Hin & Hn & HL)%next_after_Ok.
  unfold next_after_unix_ms, unix_ms_to_utc in HX. destruct (clock_representable now); [|done].
  rewrite Hs in HX. destruct (List.find _ _) eqn:EF; [done|].
  assert (HF : In n (occurrences_after s (tz_zone tz) now))
    by (apply list_elem_of_In; by eapply occurrences_later).
  apply (List.find_none _ _ EF) in HF. rewrite HL, andb_true_r in HF. lia.
Qed.

Lemma fire_row_exhausted clock now now' ids r tz t b t' :
  rj_rate_limit r = (None, None, None) -> time_zone_new (rj_time_zone r) = Ok tz ->
  next_after_unix_ms (rj_cron_expression r) now tz = Err StoredSchedule -> now <= now' ->
  fire_row from_slice clock now' ids r t <> (Ok b, t').
Proof.
  intros HR HT HX Hle HE. apply tx_bind_Ok in HE as (s & t1 & Hs & HE). apply lift_Ok in Hs as [Hs ->].
  pose proof (from_row_Ok _ r s Hs) as (_ & Hz & Hl & Es). rewrite (Hl HR) in HE.
  rewrite HT in Hz. injection Hz as Hz.
  apply tx_bind_Ok in HE as (permit & t1 & HP & HE). apply ret_Ok in HP as [-> ->].
  apply tx_bind_Ok in HE as (next & t1 & HN & _). apply lift_Ok in HN as [HN _].
  rewrite Es in HN. simpl in HN. rewrite <- Hz in HN. by eapply next_after_stays_exhausted in HX.
Qed.

Lemma fire_rows_exhausted clock now now' fresh r tz rows rep t rep' t' :
  rj_rate_limit r = (None, None, None) -> time_zone_new (rj_time_zone r) = Ok tz ->
  next_after_unix_ms (rj_cron_expression r) now tz = Err StoredSchedule -> now <= now' -> r ∈ rows ->
  fire_rows from_slice clock now' fresh rows rep t <> (Ok rep', t').
Proof.
  intros HR HT HX Hle. revert rep t. induction rows as [|x rows IH]; intros rep t Hin.
  { by apply not_elem_of_nil in Hin. }
  cbn [fire_rows]. intros HE. apply tx_bind_Ok in HE as (b & t1 & Hfr & HE).
  apply elem_of_cons in Hin as [->|Hin]; [by eapply fire_row_exhausted in Hfr | by eapply IH].
Qed.

(** Passes of one scheduler, one after another. *)
Fixpoint fire_passes (limit : nat) (passes : list (Z * (nat -> Uuid * Uuid) * Commit)) (t : Tables) :
    list (result RecurringJobFireReport RecurringJobError) * Tables :=
  match passes with
  | [] => ([], t)
  | (clock, fresh, c) :: passes =>
      let '(r, t) := fire_due_inner from_slice limit clock (fun _ => false) fresh c t in
      let '(rs, t) := fire_passes limit passes t in (r :: rs, t)
  end.
End exhausted.

(** ** Properties: schedules without occurrences *)

(** C35: a schedule whose expression runs out stops the scheduler. The next run is
    computed before the due job is staged, so when a schedule is due and its
    expression has no occurrence after the clock, its last job is never staged, and
    every later pass of the scheduler ends in an error with the tables unchanged: no
    other schedule fires again. *)
Theorem exhausted_schedule_blocks `{Postgres, CalendarLaws, UuidApi} {Value}
    (from_slice : bytes -> option Value) `{!JsonWriter (@MaterializedJobEnvelope Value)}
    limit clock t r tz passes :
  NoDup (rj_id <$> recurring t) ->
  r ∈ due_rows (clock / 1000) limit (fun _ => false) t ->
  rj_rate_limit r = (None, None, None) -> time_zone_new (rj_time_zone r) = Ok tz ->
  next_after_unix_ms (rj_cron_expression r) (clock / 1000) tz = Err StoredSchedule ->
  Forall (fun p => clock <= p.1.1) passes ->
  let '(rs, t') := fire_passes from_slice limit passes t in
  List.length rs = List.length passes /\ Forall (fun x => exists e, x = Err e) rs /\ t' = t.
Proof.
  intros HN Hin HR HT HX HF. induction passes as [|[[clock' fresh] c] passes IH]; [done|].
  apply Forall_cons in HF as [Hc HF]. simpl in Hc. cbn [fire_passes].
  pose proof (Z.div_le_mono clock clock' 1000 ltac:(lia) Hc) as Hle.
  assert (HE : exists e, fire_due_inner from_slice limit clock' (fun _ => false) fresh c t = (Err e, t)).
  { unfold fire_due_inner, transaction.
    destruct (fire_due_transaction _ _ _ _ _ t) as [[rep|e] t1] eqn:E; [exfalso | by exists e].
    unfold fire_due_transaction in E. apply tx_bind_Ok in E as (now & t2 & Hnow & E).
    apply select_Ok in Hnow as (_ & -> & ->). apply tx_bind_Ok in E as (rows & t2 & Hrows & E).
    apply select_Ok in Hrows as (_ & -> & ->). revert E. eapply fire_rows_exhausted; [done..|].
    by eapply due_rows_later. }
  destruct HE as [e ->]. specialize (IH HF). destruct (fire_passes _ _ passes t) as [rs t'].
  destruct IH as (Hl & Hes & ->). split_and!; [simpl; lia | constructor; [by exists e | done] | done].
Qed.
