(* ===== verification/CronLaws.v ===== *)
(** Properties of the recurring jobs of [Cron]: the rate governor against a
    reference, the invariant of the scheduler's tables, registration, and what a
    fired job decodes to. *)

From Stdlib Require Import ZArith Lia Bool Ascii.
From stdpp Require Import gmap sets sorting.
From S2P Require Import Prelude Strings Uuid Json JobEnvelope Outbox Cron.

Local Open Scope Z_scope.

(** ** The governor *)

Section governor.
Context `{Postgres}.
Implicit Types (l : RecurringJobRateLimit) (t : Tables).

(** Permits asked one after another. *)
Fixpoint consume_all l (nows : list Z) t : list (result ConsumeOutcome RecurringJobError) * Tables :=
  match nows with
  | [] => ([], t)
  | now :: nows =>
      let '(r, t) := consume_window l now t in
      let '(rs, t) := consume_all l nows t in (r :: rs, t)
  end.

(** How many of [past] lie in the window of [now]. *)
Definition used (w now : Z) (past : list Z) : Z :=
  Z.of_nat (List.length (List.filter (fun p => p / w =? now / w) past)).

(** The reference: the first [capacity] requests of a window pass. *)
Fixpoint governed (capacity w : Z) (past nows : list Z) : list ConsumeOutcome :=
  match nows with
  | [] => []
  | now :: nows =>
      (if used w now past <? capacity then Allowed else Deferred (now / w * w + w))
      :: governed capacity w (now :: past) nows
  end.

(** A policy the constructors of [rate_limit.rs] admit. *)
Record valid_limit l : Prop := {
  valid_capacity : 1 <= rl_capacity l <= i32_max;
  valid_window : 1 <= window_ms l <= MAX_RATE_LIMIT_WINDOW_MS;
  valid_key_octets : octets (rl_key l) = true
}.

(** The stored window after the requests of [past], the latest first. *)
Definition window_after l (past : list Z) : option RateWindow :=
  match past with
  | [] => None
  | p :: _ => Some {| rw_capacity := rl_capacity l; rw_window_ms := window_ms l;
                      rw_started_at := p / window_ms l * window_ms l;
                      rw_consumed := Z.min (rl_capacity l) (used (window_ms l) p past) |}
  end.

Lemma used_cons w now p past :
  used w now (p :: past) = (if p / w =? now / w then 1 else 0) + used w now past.
Proof. unfold used. cbn [List.filter]. destruct (_ =? _); simpl; lia. Qed.

Lemma used_later w now p past :
  0 < w -> Forall (fun q => q <= p) past -> p / w < now / w -> used w now past = 0.
Proof.
  intros Hw HF Hlt. induction HF as [|q past Hq HF IH]; [done|]. rewrite used_cons, IH.
  pose proof (Z.div_le_mono q p w Hw Hq). destruct (Z.eqb_spec (q / w) (now / w)); lia.
Qed.

Lemma used_same w now now' past : now / w = now' / w -> used w now past = used w now' past.
Proof. intros HE. unfold used. by rewrite HE. Qed.

Lemma used_pos w now past : 0 <= used w now past.
Proof. unfold used. lia. Qed.

Lemma key_octets key : rate_limit_key_new key = Ok key -> octets key = true.
Proof.
  unfold rate_limit_key_new, bounded_text, octets. destruct key as [|c key]; [done|].
  destruct (is_blank _ || _); [done|]. cbn [orb negb].
  destruct (_ <? _)%nat eqn:E; [done|]. apply Nat.ltb_ge in E. unfold MAX_SCHEDULE_KEY_BYTES in E.
  rewrite (proj2 (Nat.leb_le _ 255) E). done.
Qed.

Lemma rate_limit_new_valid key capacity window l :
  rate_limit_key_new key = Ok key -> 1 <= capacity -> 0 <= window ->
  rate_limit_new key capacity window = Ok l -> valid_limit l.
Proof.
  intros Hkey%key_octets Hcap Hwin. unfold rate_limit_new.
  destruct (Z.ltb_spec i32_max capacity); [done|].
  destruct (Z.eqb_spec (as_millis window) 0); [done|]. destruct (negb _); [done|]. cbn [orb].
  destruct (Z.ltb_spec MAX_RATE_LIMIT_WINDOW_MS (as_millis window)); [done|]. intros [= <-].
  assert (0 <= as_millis window) by (apply Z.div_pos; [done | lia]).
  split; unfold window_ms; simpl; [lia | lia | done].
Qed.

Context (Hconsume : accepts consume_sql = true) (Hwindow : accepts window_sql = true).

Lemma bounds_representable now w :
  0 < w -> 0 <= now <= i64_max - w -> fixed_window_bounds now w = Ok (now / w * w, now / w * w + w).
Proof.
  intros Hw Hn. unfold fixed_window_bounds, checked_i64.
  pose proof (Z.div_mod now w ltac:(lia)). pose proof (Z.mod_pos_bound now w Hw).
  pose proof (Z.div_pos now w ltac:(lia) Hw).
  rewrite (proj2 (Z.leb_gt w 0)) by lia. unfold i64_min, i64_max in *.
  rewrite (proj2 (Z.leb_le _ (now / w * w))), (proj2 (Z.leb_le (now / w * w) _)) by nia. simpl.
  rewrite (proj2 (Z.leb_le _ (now / w * w + w))), (proj2 (Z.leb_le (now / w * w + w) _)) by nia. done.
Qed.

Lemma put_window_Ok l started consumed t :
  valid_limit l -> consumed <= rl_capacity l ->
  put_window l started consumed t =
  Ok (Some consumed,
      set_windows (<[rl_key l := {| rw_capacity := rl_capacity l; rw_window_ms := window_ms l;
                                    rw_started_at := started; rw_consumed := consumed |}]>
                   (windows t)) t).
Proof.
  intros [Hc Hw Hk] Hle. unfold put_window. rewrite Hk. rewrite !(proj2 (Z.leb_le _ _)) by lia. done.
Qed.

(** One request, from the window its predecessors left. *)
Lemma consume_window_step l now past t :
  valid_limit l -> 0 <= now <= i64_max - window_ms l -> Forall (fun p => p <= now) past ->
  (forall p rest, past = p :: rest -> Forall (fun q => q <= p) rest) ->
  windows t !! rl_key l = window_after l past ->
  exists t', consume_window l now t =
      (Ok (if used (window_ms l) now past <? rl_capacity l then Allowed
           else Deferred (now / window_ms l * window_ms l + window_ms l)), t') /\
    windows t' !! rl_key l = window_after l (now :: past).
Proof.
  intros HV Hn HF Hlast HW. pose proof HV as [Hc Hw _]. set (w := window_ms l) in *.
  assert (HB : fixed_window_bounds now w = Ok (now / w * w, now / w * w + w))
    by (apply bounds_representable; lia).
  unfold consume_window. fold w. unfold mbind, tx_bind, lift. rewrite HB. cbn [fst snd].
  unfold statement, execute. rewrite Hconsume. unfold consume_row. rewrite HW. fold w.
  pose proof (used_pos w now past) as Hpos.
  assert (Hnew : used w now (now :: past) = 1 + used w now past) by (by rewrite used_cons, Z.eqb_refl).
  destruct past as [|p past]; cbn [window_after].
  - rewrite put_window_Ok by (done || lia). cbn [map_err is_some]. fold w. change (used w now []) with 0.
    rewrite (proj2 (Z.ltb_lt 0 _)) by lia. eexists. split; [reflexivity|]. simpl.
    rewrite lookup_insert_eq. do 2 f_equal. fold w. rewrite Hnew. unfold used. simpl. lia.
  - cbn [rw_capacity rw_window_ms rw_started_at rw_consumed]. fold w. rewrite !Z.eqb_refl. cbn [andb].
    apply Forall_cons in HF as [Hp HF]. specialize (Hlast p past eq_refl).
    pose proof (Z.div_le_mono p now w ltac:(lia) Hp) as Hdiv.
    destruct (Z.eq_dec (p / w) (now / w)) as [HE|HE].
    + rewrite HE, Z.eqb_refl. cbn [negb orb]. rewrite (used_same w p now (p :: past) HE).
      set (u := used w now (p :: past)) in *.
      destruct (Z.ltb_spec u (rl_capacity l)) as [Hlt|Hge].
      * rewrite (proj2 (Z.ltb_lt _ _)) by lia. rewrite put_window_Ok by (done || lia).
        cbn [map_err is_some]. fold w. eexists. split; [reflexivity|]. simpl. rewrite lookup_insert_eq.
        do 2 f_equal. fold w. rewrite Hnew. fold u. lia.
      * rewrite (proj2 (Z.ltb_ge _ _)) by lia. cbn [map_err is_some option_map].
        unfold select, statement, execute. rewrite Hwindow. cbn [map_err ok_or]. rewrite HW. cbn [ok_or window_after].
        cbn [rw_capacity rw_window_ms]. fold w. rewrite !Z.eqb_refl. cbn [negb orb].
        eexists. split; [reflexivity|]. rewrite HW. cbn [window_after]. fold w. do 2 f_equal; [by rewrite HE|].
        rewrite (used_same w p now (p :: past) HE), Hnew. fold u. lia.
    + assert (Hz : used w now (p :: past) = 0) by (apply (used_later w now p); [lia | by constructor | lia]).
      rewrite Hz in *. rewrite (proj2 (Z.ltb_lt 0 _)) by lia.
      rewrite (proj2 (Z.eqb_neq (p / w * w) (now / w * w))) by nia. cbn [negb orb].
      rewrite put_window_Ok by (done || lia). cbn [map_err is_some]. fold w.
      eexists. split; [reflexivity|]. simpl. rewrite lookup_insert_eq. do 2 f_equal. fold w. rewrite Hnew. lia.
Qed.

Lemma consume_all_governed l past nows t :
  valid_limit l -> StronglySorted Z.le nows ->
  Forall (fun now => 0 <= now <= i64_max - window_ms l) nows ->
  Forall (fun p => Forall (fun now => p <= now) nows) past ->
  (forall p rest, past = p :: rest -> Forall (fun q => q <= p) rest) ->
  windows t !! rl_key l = window_after l past ->
  (consume_all l nows t).1 = map Ok (governed (rl_capacity l) (window_ms l) past nows).
Proof.
  intros HV HS. revert past t. induction HS as [|now nows HS IH HF]; intros past t HB HP Hlast HW; [done|].
  apply Forall_cons in HB as [Hn HB]. cbn [consume_all governed map].
  assert (HPn : Forall (fun p => p <= now) past).
  { eapply Forall_impl; [exact HP|]. cbn beta. by intros p [? _]%Forall_cons. }
  assert (HPr : Forall (fun p => Forall (fun now => p <= now) nows) past).
  { eapply Forall_impl; [exact HP|]. cbn beta. by intros p [_ ?]%Forall_cons. }
  destruct (consume_window_step l now past t HV Hn HPn Hlast HW) as (t' & -> & HW').
  specialize (IH (now :: past) t' HB ltac:(by constructor)).
  destruct (consume_all l nows t') as [rs t2]. cbn [fst] in *. rewrite IH; [done | | done].
  by intros p rest [= <- <-].
Qed.
End governor.

(** ** Properties: the governor *)

(** The rate governor is the fixed-window counter. For a policy that the
    constructors of [rate_limit.rs] admit, a key without a stored window and requests
    at clocks that do not go back, the statements of [consume_window] answer as the
    reference does: the first [capacity] requests of each aligned window pass, every
    further one is deferred to the start of the next window, and none is refused with
    an error. *)
Theorem governor_exact `{Postgres} key capacity window l nows t :
  accepts consume_sql = true -> accepts window_sql = true ->
  rate_limit_key_new key = Ok key -> 1 <= capacity -> 0 <= window ->
  rate_limit_new key capacity window = Ok l ->
  StronglySorted Z.le nows -> Forall (fun now => 0 <= now <= i64_max - window_ms l) nows ->
  windows t !! rl_key l = None ->
  (consume_all l nows t).1 = map Ok (governed (rl_capacity l) (window_ms l) [] nows).
Proof.
  intros HC HW Hkey Hcap Hwin HL HS HB HN. apply consume_all_governed; try done.
  by eapply rate_limit_new_valid.
Qed.

(** ** A Hoare logic for transactions *)

(** From a state in [P], [m] ends in [Q] or fails with an error in [E]. *)
Definition triple {A} (P : Tables -> Prop) (m : tx A) (Q : A -> Tables -> Prop)
    (E : RecurringJobError -> Prop) : Prop :=
  forall t, P t -> match m t with (Ok a, t') => Q a t' | (Err e, _) => E e end.

Section triples.
Context `{Postgres}.
Implicit Types (P : Tables -> Prop) (E : RecurringJobError -> Prop).

Lemma triple_bind {A B} P (m : tx A) (f : A -> tx B) R Q E :
  triple P m R E -> (forall a, triple (R a) (f a) Q E) -> triple P (m ≫= f) Q E.
Proof.
  intros Hm Hf t Ht. specialize (Hm t Ht). unfold mbind, tx_bind.
  destruct (m t) as [[a|e] t']; [by apply Hf | done].
Qed.

Lemma triple_ret {A} P (a : A) Q E : (forall t, P t -> Q a t) -> triple P (mret a) Q E.
Proof. intros HQ t Ht. by apply HQ. Qed.

Lemma triple_throw {A} P e (Q : A -> Tables -> Prop) E : E e -> triple P (throw e) Q E.
Proof. intros HE t _. exact HE. Qed.

Lemma triple_lift {A} P (r : result A RecurringJobError) (Q : A -> Tables -> Prop) E :
  (forall a, r = Ok a -> forall t, P t -> Q a t) -> (forall e, r = Err e -> E e) -> triple P (lift r) Q E.
Proof. intros HQ HE t Ht. unfold lift. destruct r; [by eapply HQ | by apply HE]. Qed.

Lemma triple_statement {A} P text (meaning : Tables -> result (A * Tables) SqlxError) Q E :
  (forall e, E (Storage e)) ->
  (forall t a t', P t -> meaning t = Ok (a, t') -> Q a t') -> triple P (statement text meaning) Q E.
Proof.
  intros HE HQ t Ht. unfold statement, execute. destruct (accepts text); [|apply HE].
  destruct (meaning t) as [[a t']|e] eqn:EM; [by eapply HQ | apply HE].
Qed.

Lemma triple_select {A} P text (meaning : Tables -> A) Q E :
  (forall e, E (Storage e)) -> (forall t, P t -> Q (meaning t) t) -> triple P (select text meaning) Q E.
Proof. intros HE HQ. apply triple_statement; [done|]. intros t a t' Ht [= <- <-]. by apply HQ. Qed.

Lemma triple_conseq {A} P P' (m : tx A) Q Q' E E' :
  triple P m Q E -> (forall t, P' t -> P t) -> (forall a t, Q a t -> Q' a t) -> (forall e, E e -> E' e) ->
  triple P' m Q' E'.
Proof.
  intros Hm HP HQ HE t Ht. specialize (Hm t (HP t Ht)). destruct (m t) as [[a|e] t']; auto.
Qed.

(** A transaction keeps an invariant that its statements keep. *)
Lemma transaction_keeps {A} (I : Tables -> Prop) c (m : tx A) E t r t' :
  triple I m (fun _ => I) E -> I t -> transaction c m t = (r, t') ->
  I t' /\ forall e, r = Err e -> E e \/ exists x, e = Storage x.
Proof.
  intros Hm Ht. unfold transaction. specialize (Hm t Ht). destruct (m t) as [[a|e] t1].
  - destruct c; intros [= <- <-]; (split; [done|]); intros e HE; [done | right | right]; injection HE as <-; by eexists.
  - intros [= <- <-]. split; [done|]. intros e' [= <-]. by left.
Qed.
End triples.

(** ** The invariant of the tables *)

(** A schedule without its runtime columns. *)
Definition definition_of (r : RecurringRow) : RecurringRow := reschedule 0 None true r.
Definition definitions (t : Tables) : list RecurringRow := definition_of <$> recurring t.

Record rows_ok (rows : list RecurringRow) : Prop := {
  ids_unique : NoDup (rj_id <$> rows);
  keys_unique : NoDup (rj_schedule_key <$> rows);
  checks_hold : Forall (fun r => recurring_checks r = true) rows;
  (** Schedules that share a rate-limit key share its policy. *)
  policies_agree : forall r r' k c w c' w',
    r ∈ rows -> r' ∈ rows -> rj_rate_limit r = (Some k, c, w) -> rj_rate_limit r' = (Some k, c', w') ->
    c = c' /\ w = w'
}.

(** A stored window counts within the policy of a registered schedule. *)
Definition windows_ok (rows : list RecurringRow) (ws : gmap str RateWindow) : Prop :=
  forall k w, ws !! k = Some w -> 1 <= rw_consumed w <= rw_capacity w /\
    exists r, r ∈ rows /\ rj_rate_limit r = (Some k, Some (rw_capacity w), Some (rw_window_ms w)).

Record scheduler_ok (t : Tables) : Prop := {
  ok_rows : rows_ok (definitions t);
  ok_windows : windows_ok (definitions t) (windows t)
}.

(** The error a pass is free of. *)
Definition no_conflict (e : RecurringJobError) : Prop := e <> RateLimitPolicyConflict.

Section invariant.
Context `{Postgres, CalendarApi, UuidApi}.
Context {Value : Type} (from_slice : bytes -> option Value) `{!JsonWriter (@MaterializedJobEnvelope Value)}.

(** States with the same definitions, in which the windows agree with them. *)
Definition kept (defs : list RecurringRow) (t : Tables) : Prop :=
  definitions t = defs /\ windows_ok defs (windows t).

Lemma update_where_kept defs cond f t n t' :
  (forall r, definition_of (f r) = definition_of r) ->
  kept defs t -> update_where cond f t = Ok (n, t') -> kept defs t'.
Proof.
  intros Hf [HD HW] [= _ <-]. split; [|done]. rewrite <- HD. unfold definitions. simpl.
  change (map ?g ?l) with (g <$> l). rewrite <- list_fmap_compose. apply list_fmap_ext.
  intros i r _. unfold compose. by destruct (cond r).
Qed.

Lemma definition_of_reschedule n fi e r : definition_of (reschedule n fi e r) = definition_of r.
Proof. by destruct r. Qed.

Lemma one_row_triple n I : triple I (one_row n) (fun _ => I) no_conflict.
Proof.
  unfold one_row. destruct (n =? 1); [by apply triple_ret | by apply triple_throw].
Qed.

Lemma storage_no_conflict e : no_conflict (Storage e).
Proof. done. Qed.

Lemma collision_no_conflict : no_conflict OutboxCollision.
Proof. done. Qed.

Lemma consume_row_kept defs l started d t x t' :
  d ∈ defs -> rj_rate_limit d = rate_columns (Some l) ->
  kept defs t -> consume_row l started t = Ok (x, t') -> kept defs t' /\ (x = None -> is_Some (windows t' !! rl_key l)).
Proof.
  intros Hd Hl [HD HW] HE.
  assert (Hput : forall n y, 1 <= n -> put_window l started n t = Ok (x, y) -> kept defs y /\ x <> None).
  { intros n y Hn. unfold put_window. destruct (_ && _) eqn:EC; [|done]. apply andb_true_iff in EC as [_ EC].
    intros [= <- <-]. split; [|done]. split; [done|]. simpl. intros k w.
    destruct (decide (k = rl_key l)) as [->|Hk].
    - rewrite lookup_insert_eq. intros [= <-]. simpl. split; [lia|]. by exists d.
    - rewrite lookup_insert_ne by done. apply HW. }
  revert HE. unfold consume_row. destruct (windows t !! rl_key l) as [w|] eqn:EW.
  - destruct (HW _ _ EW) as [Hcon _]. destruct (_ && _).
    + intros HE. eapply Hput in HE as [HK HX]; [by split | destruct (_ =? _); lia].
    + intros [= <- <-]. split; [by split|]. intros _. by eexists.
  - intros HE. eapply Hput in HE as [HK HX]; [by split | lia].
Qed.

Lemma consume_window_triple defs l now d :
  rows_ok defs -> d ∈ defs -> rj_rate_limit d = rate_columns (Some l) ->
  triple (kept defs) (consume_window l now) (fun _ => kept defs) no_conflict.
Proof.
  intros HR Hd Hl. unfold consume_window. eapply triple_bind with (R := fun _ => kept defs).
  { apply triple_lift; [done|]. intros e HE. unfold fixed_window_bounds in HE.
    destruct (_ <=? 0); [by injection HE as <-|]. destruct (checked_i64 _); [|by injection HE as <-].
    cbn [ok_or] in HE. destruct (checked_i64 _); [done | by injection HE as <-]. }
  intros [s n]. cbn [fst snd].
  eapply triple_bind with (R := fun x t => kept defs t /\ (x = None -> is_Some (windows t !! rl_key l))).
  { apply triple_statement; [apply storage_no_conflict|]. intros t x t' Ht HE. by eapply consume_row_kept. }
  intros [x|]; cbn [is_some]; [apply triple_ret; by intros t [? _]|].
  eapply triple_bind with (R := fun x t => kept defs t /\ windows t !! rl_key l = x).
  { apply triple_select; [apply storage_no_conflict|]. intros t [Ht _]. done. }
  intros [w|]; cbn [ok_or]; [|apply triple_bind with (R := fun _ _ => False);
                               [by apply triple_lift; [|intros e [= <-]] | intros a t []]].
  eapply triple_bind with (R := fun a t => a = w /\ kept defs t /\ windows t !! rl_key l = Some w).
  { apply triple_lift; [by intros a [= ->] | done]. }
  intros a t (-> & Ht & HL). pose proof (proj2 Ht _ _ HL) as (_ & r & Hr & HE).
  destruct (policies_agree defs HR d r (rl_key l) (Some (rl_capacity l)) (Some (window_ms l)) _ _ Hd Hr Hl HE)
    as [[= ->] [= ->]].
  rewrite !Z.eqb_refl. exact Ht.
Qed.

Lemma stored_no_conflict {A E} (r : result A E) e : stored r = Err e -> no_conflict e.
Proof. destruct r; [done|]. by intros [= <-]. Qed.

Lemma from_stored_parts_Ok k c w l : from_stored_parts k c w = Ok l -> rate_columns (Some l) = (Some k, Some c, Some w).
Proof.
  unfold from_stored_parts, rate_limit_key_new. destruct (bounded_text _ _); [|done]. cbn [map_err].
  destruct (_ <=? 0); [done|]. destruct (_ <? 0); [done|]. unfold rate_limit_new.
  destruct (_ <? _); [done|]. destruct (_ || _); [done|]. intros [= <-].
  unfold rate_columns, window_ms, as_millis, from_millis. cbn [option_map rl_key rl_capacity rl_window].
  by rewrite Z.div_mul by lia.
Qed.

Lemma from_row_policy r s l :
  from_row from_slice r = Ok s -> st_rate_limit s = Some l -> rj_rate_limit r = rate_columns (Some l).
Proof.
  unfold from_row, destination_new. destruct (validate_text _ _ _); cbn; [|done].
  destruct (_ && _); cbn; [|done]. destruct (decode_stored_template _ _ _); cbn; [|done].
  destruct (cron_expression_new _); cbn; [|done]. destruct (time_zone_new _); cbn; [|done].
  destruct (_ && _); cbn; [|done].
  destruct (rj_rate_limit r) as [[[k|] [c|]] [w|]]; cbn; try done; [|by intros [= <-]].
  destruct (from_stored_parts k c w) as [l'|] eqn:EL; [|done]. intros [= <-] [= ->].
  by apply from_stored_parts_Ok in EL.
Qed.

Lemma from_row_no_conflict r e : from_row from_slice r = Err e -> no_conflict e.
Proof.
  unfold from_row, destination_new. destruct (validate_text _ _ _); cbn; [|by intros [= <-]].
  destruct (_ && _); cbn; [|by intros [= <-]]. unfold decode_stored_template.
  destruct (is_valid_job_name _); cbn; [|by intros [= <-]].
  destruct (decode_template_payload _ _); cbn; [|by intros [= <-]].
  destruct (cron_expression_new _); cbn; [|by intros [= <-]].
  destruct (time_zone_new _); cbn; [|by intros [= <-]]. destruct (_ && _); cbn; [|by intros [= <-]].
  destruct (rj_rate_limit r) as [[[k|] [c|]] [w|]]; cbn; try (by intros [= <-]).
  unfold from_stored_parts. destruct (rate_limit_key_new k); cbn; [|by intros [= <-]].
  destruct (_ <=? 0); [by intros [= <-]|]. destruct (_ <? 0); [by intros [= <-]|].
  destruct (rate_limit_new _ _ _); [done | by intros [= <-]].
Qed.

Lemma next_after_no_conflict x now tz e : next_after_unix_ms x now tz = Err e -> no_conflict e.
Proof.
  unfold next_after_unix_ms, unix_ms_to_utc. destruct (clock_representable _); [|by intros [= <-]].
  destruct (schedule_parse _); [|by intros [= <-]]. destruct (List.find _ _); [done | by intros [= <-]].
Qed.

Lemma materialized_no_conflict i s now e : materialized_message i s now = Err e -> no_conflict e.
Proof. unfold materialized_message. destruct (render_job_message _ _ _ _ _ _) as [|[]]; by intros [= <-]. Qed.

(** Code that keeps the definitions and the agreement of the windows with them. *)
Definition keeps (defs : list RecurringRow) {A} (m : tx A) : Prop :=
  triple (kept defs) m (fun _ => kept defs) no_conflict.

Lemma keeps_bind defs {A B} (m : tx A) (f : A -> tx B) :
  keeps defs m -> (forall a, keeps defs (f a)) -> keeps defs (m ≫= f).
Proof. apply triple_bind. Qed.

Lemma keeps_ret defs {A} (a : A) : keeps defs (mret a).
Proof. by apply triple_ret. Qed.

Lemma keeps_throw defs {A} e : no_conflict e -> keeps defs (throw e : tx A).
Proof. apply triple_throw. Qed.

Lemma keeps_lift defs {A} (r : result A RecurringJobError) :
  (forall e, r = Err e -> no_conflict e) -> keeps defs (lift r).
Proof. by apply triple_lift. Qed.

Lemma keeps_select defs {A} text (meaning : Tables -> A) : keeps defs (select text meaning).
Proof. by apply triple_select. Qed.

Lemma keeps_update defs text cond f :
  (forall r, definition_of (f r) = definition_of r) -> keeps defs (statement text (update_where cond f)).
Proof. intros Hf. apply triple_statement; [done|]. intros t n t' Ht HE. by eapply update_where_kept. Qed.

Lemma keeps_one_row defs n : keeps defs (one_row n).
Proof. apply one_row_triple. Qed.

Lemma keeps_stage defs m clock : keeps defs (stage_outbox m clock).
Proof. intros t Ht. unfold stage_outbox. destruct (stage _ _ _) as [[o|e] l]; done. Qed.

#[local] Hint Resolve keeps_bind keeps_ret keeps_throw keeps_lift keeps_select keeps_update keeps_one_row
  keeps_stage stored_no_conflict next_after_no_conflict materialized_no_conflict definition_of_reschedule
  collision_no_conflict : rustee.

Lemma keeps_inserted defs o :
  keeps defs (match o with Inserted _ => mret tt | AlreadyPresent => throw OutboxCollision end).
Proof. destruct o; auto with rustee. Qed.
#[local] Hint Resolve keeps_inserted : rustee.

Lemma defer_keeps defs i next : keeps defs (defer_schedule i next).
Proof. unfold defer_schedule. eauto with rustee. Qed.

Lemma fire_row_triple defs clock now ids r :
  rows_ok defs -> definition_of r ∈ defs -> keeps defs (fire_row from_slice clock now ids r).
Proof.
  intros HR Hr. unfold fire_row. apply triple_bind with (R := fun s t => from_row from_slice r = Ok s /\ kept defs t).
  { apply triple_lift; [by intros s -> | apply from_row_no_conflict]. }
  intros s. eapply triple_bind with (R := fun _ => kept defs).
  { intros t [Hs Ht]. destruct (st_rate_limit s) as [l|] eqn:EL; [|done].
    pose proof (from_row_policy r s l Hs EL) as HL.
    by apply (consume_window_triple defs l now (definition_of r)). }
  intros [|next].
  - apply keeps_bind; eauto 25 with rustee.
  - apply keeps_bind; [apply defer_keeps | auto with rustee].
Qed.

Lemma fire_rows_triple defs clock now fresh rows report :
  rows_ok defs -> (forall r, r ∈ rows -> definition_of r ∈ defs) ->
  triple (kept defs) (fire_rows from_slice clock now fresh rows report) (fun _ => kept defs) no_conflict.
Proof.
  intros HR. revert report. induction rows as [|r rows IH]; intros report Hrows; [by apply triple_ret|].
  cbn [fire_rows]. eapply triple_bind; [apply fire_row_triple; [done | apply Hrows; by left]|].
  intros b. apply IH. intros x Hx. apply Hrows. by right.
Qed.

Lemma scheduler_ok_kept t t' : scheduler_ok t -> kept (definitions t) t' -> scheduler_ok t'.
Proof. intros [HR _] [HD HW]. split; by rewrite HD. Qed.

Lemma fire_due_triple defs limit clock locked fresh :
  rows_ok defs ->
  triple (kept defs) (fire_due_transaction from_slice limit clock locked fresh) (fun _ => kept defs) no_conflict.
Proof.
  intros HR. unfold fire_due_transaction, database_clock_unix_ms_transaction.
  eapply triple_bind with (R := fun _ => kept defs); [by apply triple_select|]. intros now.
  eapply triple_bind with (R := fun rows t => kept defs t /\ forall r, r ∈ rows -> definition_of r ∈ defs).
  { apply triple_select; [done|]. intros t Ht. split; [done|]. intros r Hr. destruct Ht as [<- _].
    apply list_elem_of_fmap. exists r. split; [done|]. unfold due_rows in Hr.
    apply elem_of_take in Hr as (i & Hr & _). apply list_elem_of_lookup_2 in Hr.
    rewrite merge_sort_Permutation in Hr. apply list_elem_of_In, List.filter_In in Hr as [Hr _].
    by apply list_elem_of_In. }
  intros rows t [Ht Hrows]. by apply (fire_rows_triple defs).
Qed.

Lemma resume_triple defs key clock : keeps defs (resume_transaction key clock).
Proof.
  unfold resume_transaction, database_clock_unix_ms_transaction.
  apply keeps_bind; [auto with rustee | intros now].
  apply keeps_bind; [auto with rustee | intros [r|]]; eauto 25 with rustee.
Qed.

Lemma pause_kept defs key t r t' : kept defs t -> pause key t = (r, t') -> kept defs t'.
Proof.
  intros Ht. unfold pause, execute. destruct (accepts pause_sql); [|by intros [= _ <-]].
  destruct (update_where _ _ t) as [[n t1]|e] eqn:EU; [|by intros [= _ <-]]. intros [= _ <-].
  eapply update_where_kept in EU; [done | | done]. intros x. apply definition_of_reschedule.
Qed.
End invariant.

(** ** Registration *)

Section registering.
Context `{Postgres, CalendarApi, UuidApi}.
Context {Value : Type} (from_slice : bytes -> option Value) `{!JsonWriter (@MaterializedJobEnvelope Value)}.
Context {J : Type} `{!JobEnvelope.Job J, !JsonWriter J}.
Implicit Types (job : RecurringJob J) (t : Tables).

Lemma enforce_Ok l t t' :
  enforce_registration_policy l t = (Ok tt, t') ->
  t' = t /\ match policy_columns (rl_key l) t with
            | None => True
            | Some p => p = (Some (rl_capacity l), Some (window_ms l))
            end.
Proof.
  unfold enforce_registration_policy. intros HE. apply tx_bind_Ok in HE as ([] & t1 & HS & HE).
  apply select_Ok in HS as (_ & _ & ->). apply tx_bind_Ok in HE as (row & t1 & HS & HE).
  apply select_Ok in HS as (_ & -> & ->). destruct (policy_columns _ t) as [[c w]|].
  - apply tx_bind_Ok in HE as (c' & t1 & HC & HE). apply lift_Ok in HC as [HC ->].
    apply tx_bind_Ok in HE as (w' & t1 & HW & HE). apply lift_Ok in HW as [HW ->].
    destruct (_ && _) eqn:EB; [|by apply throw_Ok in HE]. apply ret_Ok in HE as [_ ->]. bool_hyps.
    destruct c as [c|]; [|done]. destruct w as [w|]; [|done]. injection HC as ->. injection HW as ->.
    split; [done|]. repeat f_equal; lia.
  - by apply ret_Ok in HE as [_ ->].
Qed.

(** The policy of a new schedule is the one its rate-limit key has. *)
Definition policy_admitted job t : Prop :=
  forall l, job_rate_limit job = Some l ->
    match policy_columns (rl_key l) t with
    | None => True
    | Some p => p = (Some (rl_capacity l), Some (window_ms l))
    end.

Lemma rate_limit_matches_eq l columns : rate_limit_matches l columns = true -> columns = rate_columns l.
Proof.
  unfold rate_limit_matches, rate_columns. destruct l as [l|], columns as [[[k|] [c|]] [w|]]; try done.
  cbn [option_map]. rewrite !andb_true_iff, !Z.eqb_eq, str_eqb_true. by intros [[-> ->] ->].
Qed.

Lemma row_of_key_Some key t r : row_of_key key t = Some r -> r ∈ recurring t /\ rj_schedule_key r = key.
Proof.
  intros HF. apply List.find_some in HF as [Hin HE]. apply str_eqb_true in HE.
  split; [by apply list_elem_of_In | done].
Qed.

Lemma existing_Ok job body t o t' next :
  existing_registration_id_if_identical job body t = (Ok o, t') ->
  t' = t /\ exists r, row_of_key (job_key job) t = Some r /\
    forall j, o = Some j -> j = rj_id r /\ definition_of r = definition_of (registration_row job body j next).
Proof.
  unfold existing_registration_id_if_identical. intros HE.
  apply tx_bind_Ok in HE as (row & t1 & HS & HE). apply select_Ok in HS as (_ & -> & ->).
  apply tx_bind_Ok in HE as (r & t1 & HR & HE). apply lift_Ok in HR as [HR ->].
  destruct (row_of_key _ t) as [r'|] eqn:EK; [|done]. injection HR as ->. apply ret_Ok in HE as [-> ->].
  split; [done|]. exists r. split; [done|]. intros j. destruct (_ && _) eqn:EB; [|done]. intros [= <-].
  split; [done|]. apply row_of_key_Some in EK as [_ EK].
  rewrite !andb_true_iff, !Z.eqb_eq, !str_eqb_true in EB.
  destruct EB as [[[[[[[E1 E2] E3] E4] E5] E6] E7] E8]. apply rate_limit_matches_eq in E8.
  unfold definition_of, registration_row, reschedule. cbn. by rewrite EK, E1, E2, E3, E4, E5, E6, E7, E8.
Qed.

Lemma register_cases job body i ids clock t out t' :
  register_transaction from_slice job body i ids clock t = (Ok out, t') ->
  exists next, next_after_unix_ms (job_expression job) (clock / 1000) (job_time_zone job) = Ok next /\
  (out = Registered i /\ t' = set_recurring (recurring t ++ [registration_row job body i next]) t /\
     row_of_key (job_key job) t = None /\ i ∉ rj_id <$> recurring t /\
     recurring_checks (registration_row job body i next) = true /\ policy_admitted job t
   \/ t' = t /\ exists r, row_of_key (job_key job) t = Some r /\ out = AlreadyRegistered (rj_id r) /\
        definition_of r = definition_of (registration_row job body (rj_id r) next)).
Proof.
  unfold register_transaction. intros HE. apply tx_bind_Ok in HE as ([] & t1 & HP & HE).
  assert (HA : t1 = t /\ policy_admitted job t).
  { unfold policy_admitted. destruct (job_rate_limit job) as [l|].
    - apply enforce_Ok in HP as [-> HP]. split; [done|]. by intros l' [= <-].
    - by apply ret_Ok in HP as [_ ->]. }
  destruct HA as [-> HA]. apply tx_bind_Ok in HE as (now & t1 & HS & HE).
  apply select_Ok in HS as (_ & -> & ->). apply tx_bind_Ok in HE as (next & t1 & HN & HE).
  apply lift_Ok in HN as [HN ->]. apply tx_bind_Ok in HE as ([] & t1 & HV & HE). apply lift_Ok in HV as [_ ->].
  exists next. split; [done|]. apply tx_bind_Ok in HE as (b & t1 & HI & HE).
  unfold insert_recurring_job_registration in HI. apply tx_bind_Ok in HI as (x & t2 & HI & HX).
  apply ret_Ok in HX as [-> ->]. apply statement_Ok in HI as [_ HI]. unfold insert_registration in HI.
  destruct (recurring_checks _) eqn:EC; [|done]. cbn [negb] in HI.
  destruct (existsb _ (recurring t)) eqn:EK.
  - injection HI as <- <-. right. cbn [is_some] in HE.
    apply tx_bind_Ok in HE as (o & t1 & HX & HE). apply (existing_Ok job body t o t1 next) in HX as (-> & r & HR & HO).
    apply tx_bind_Ok in HE as (j & t1 & HJ & HE). apply lift_Ok in HJ as [HJ ->]. apply ret_Ok in HE as [-> ->].
    destruct o as [j'|]; [|done]. injection HJ as ->. destruct (HO j eq_refl) as [-> HD].
    split; [done|]. by exists r.
  - destruct (existsb (fun x => rj_id x =? _) _) eqn:EI; [done|]. injection HI as <- <-. left.
    cbn [is_some] in HE. apply ret_Ok in HE as [-> ->]. split_and!; try done.
    + unfold row_of_key. destruct (List.find _ _) as [r|] eqn:EF; [|done].
      apply List.find_some in EF as [Hin HEq]. assert (true = false); [|done]. rewrite <- EK.
      symmetry. apply List.existsb_exists. by exists r.
    + intros (r & Hr & Hin)%list_elem_of_fmap. assert (true = false); [|done]. rewrite <- EI.
      symmetry. apply List.existsb_exists. exists r. split; [by apply list_elem_of_In|].
      simpl. by rewrite <- Hr, Z.eqb_refl.
Qed.

Lemma row_of_key_None key t r : row_of_key key t = None -> r ∈ recurring t -> rj_schedule_key r <> key.
Proof.
  intros HN Hr HE. apply list_elem_of_In in Hr. apply (List.find_none _ _ HN) in Hr.
  by rewrite HE, (proj2 (str_eqb_true _ _) eq_refl) in Hr.
Qed.

Lemma policy_columns_None key t r c w :
  policy_columns key t = None -> r ∈ recurring t -> rj_rate_limit r <> (Some key, c, w).
Proof.
  unfold policy_columns. intros HN Hr HE. destruct (omap _ (recurring t)) as [|p l] eqn:EO; [|done].
  assert (HX : (c, w) ∈ omap (fun r => match rj_rate_limit r with
                       | (Some k, c, w) => if str_eqb k key then Some (c, w) else None
                       | _ => None
                       end) (recurring t)).
  { apply list_elem_of_omap. exists r. split; [done|]. by rewrite HE, (proj2 (str_eqb_true _ _) eq_refl). }
  rewrite EO in HX. by apply not_elem_of_nil in HX.
Qed.

Lemma policy_columns_Some key t p :
  policy_columns key t = Some p -> exists r, r ∈ recurring t /\ rj_rate_limit r = (Some key, p.1, p.2).
Proof.
  unfold policy_columns. intros HS. destruct (omap _ (recurring t)) as [|q l] eqn:EO; [done|].
  injection HS as ->. assert (HX : p ∈ p :: l) by (by left). rewrite <- EO in HX.
  apply list_elem_of_omap in HX as (r & Hr & HE). exists r. split; [done|].
  destruct (rj_rate_limit r) as [[[k|] c] w]; [|done]. destruct (str_eqb k key) eqn:EK; [|done].
  apply str_eqb_true in EK as ->. by injection HE as <-.
Qed.

(** A new schedule joins the definitions. *)
Lemma register_rows_ok job body i next t :
  rows_ok (definitions t) -> row_of_key (job_key job) t = None -> i ∉ rj_id <$> recurring t ->
  recurring_checks (registration_row job body i next) = true -> policy_admitted job t ->
  rows_ok (definitions t ++ [definition_of (registration_row job body i next)]).
Proof.
  intros [HI HK HC HP] Hkey Hid HCr HA. set (n := registration_row job body i next) in *. split.
  - rewrite fmap_app. apply NoDup_app. split_and!; [done | | by apply NoDup_singleton].
    intros x (d & -> & (r & -> & Hr)%list_elem_of_fmap)%list_elem_of_fmap Hx%list_elem_of_singleton.
    simpl in Hx. destruct Hid. apply list_elem_of_fmap. by exists r.
  - rewrite fmap_app. apply NoDup_app. split_and!; [done | | by apply NoDup_singleton].
    intros x (d & -> & (r & -> & Hr)%list_elem_of_fmap)%list_elem_of_fmap Hx%list_elem_of_singleton.
    simpl in Hx. by apply (row_of_key_None _ _ r Hkey).
  - apply Forall_app. split; [done|]. by constructor.
  - assert (Hnew : forall r k c w c' w', r ∈ recurring t -> rj_rate_limit n = (Some k, c, w) ->
              rj_rate_limit r = (Some k, c', w') -> c = c' /\ w = w').
    { intros r k c w c' w' Hr Hn HE. subst n. cbn [registration_row rj_rate_limit] in Hn.
      destruct (job_rate_limit job) as [l|] eqn:EL; [|done]. injection Hn as <- <- <-. specialize (HA l EL).
      destruct (policy_columns (rl_key l) t) as [p|] eqn:EP.
      - subst p. apply policy_columns_Some in EP as (r0 & Hr0 & HE0).
        apply (HP (definition_of r0) (definition_of r) (rl_key l)); try done; apply list_elem_of_fmap; by eexists.
      - by destruct (policy_columns_None _ t r c' w' EP Hr). }
    intros r r' k c w c' w' Hr Hr' HE HE'. rewrite elem_of_app, list_elem_of_singleton in Hr, Hr'.
    destruct Hr as [Hr| ->], Hr' as [Hr'| ->].
    + exact (HP r r' k c w c' w' Hr Hr' HE HE').
    + apply list_elem_of_fmap in Hr as (x & -> & Hx). destruct (Hnew x k c' w' c w); auto.
    + apply list_elem_of_fmap in Hr' as (x & -> & Hx). by apply (Hnew x k c w c' w').
    + rewrite HE in HE'. by injection HE'.
Qed.

Lemma register_transaction_ok job body i ids clock t out t' :
  scheduler_ok t -> register_transaction from_slice job body i ids clock t = (Ok out, t') -> scheduler_ok t'.
Proof.
  intros [HR HW] (next & _ & [(-> & -> & Hkey & Hid & HC & HA) | [-> _]])%register_cases; [|done].
  assert (HD : definitions (set_recurring (recurring t ++ [registration_row job body i next]) t) =
               definitions t ++ [definition_of (registration_row job body i next)])
    by (unfold definitions; simpl; by rewrite fmap_app).
  split; rewrite HD; [by apply register_rows_ok|]. intros k w Hw. destruct (HW k w Hw) as (Hc & r & Hr & HE).
  split; [done|]. exists r. split; [|done]. apply elem_of_app. by left.
Qed.
End registering.

(** ** Properties: the tables *)

Section stepping.
Context `{Postgres, CalendarApi, UuidApi}.
Context {Value : Type} (from_slice : bytes -> option Value) `{!JsonWriter (@MaterializedJobEnvelope Value)}.

(** What happens to the tables: the operations of the scheduler, in transactions that
    are serialized by their row and advisory locks, and the outbox's own users. *)
Inductive scheduler_step : Tables -> Tables -> Prop :=
| step_register {J} `{!JobEnvelope.Job J, !JsonWriter J} (job : RecurringJob J) i ids clock c t r t' :
    register from_slice job i ids clock c t = (r, t') -> scheduler_step t t'
| step_pause key t r t' : pause key t = (r, t') -> scheduler_step t t'
| step_resume key clock c t r t' : resume key clock c t = (r, t') -> scheduler_step t t'
| step_fire limit clock locked fresh c t r t' :
    fire_due_inner from_slice limit clock locked fresh c t = (r, t') -> scheduler_step t t'
| step_outbox l t : scheduler_step t (set_outbox l t).

Lemma definitions_kept t : scheduler_ok t -> kept (definitions t) t.
Proof. intros [_ HW]. by split. Qed.

Lemma scheduler_step_ok t t' : scheduler_step t t' -> scheduler_ok t -> scheduler_ok t'.
Proof.
  intros Hstep Hok. pose proof (definitions_kept t Hok) as HK.
  destruct Hstep as [J ? ? job i ids clock c t r t' HE | key t r t' HE | key clock c t r t' HE
                    | limit clock locked fresh c t r t' HE | l t].
  - unfold register in HE. destruct (encode_schedule_payload _) as [body|]; [|by injection HE as _ <-].
    apply transaction_cases in HE. destruct r as [out|e].
    + destruct HE as [_ HE]. by eapply register_transaction_ok.
    + destruct HE as [->|(_ & out & HE)]; [done | by eapply register_transaction_ok].
  - eapply scheduler_ok_kept; [done|]. by eapply pause_kept.
  - eapply transaction_keeps in HE as [HI _]; [| apply resume_triple | done]. by eapply scheduler_ok_kept.
  - eapply transaction_keeps in HE as [HI _]; [| apply fire_due_triple, Hok | done].
    by eapply scheduler_ok_kept.
  - destruct Hok. by split.
Qed.
End stepping.

(** C26: the scheduler's tables keep their invariant. Whatever registrations, pauses,
    resumptions and passes run from empty tables, with any outcome of their commits,
    schedule ids and keys stay unique, the stored columns satisfy the table's checks,
    schedules that share a rate-limit key share its policy, and every stored window
    has consumed between one permit and the capacity of that policy; therefore no pass
    ends in a policy conflict. *)
Theorem scheduler_invariant `{Postgres, CalendarApi, UuidApi} {Value} (from_slice : bytes -> option Value)
    `{!JsonWriter (@MaterializedJobEnvelope Value)} t0 t :
  recurring t0 = [] -> windows t0 = ∅ -> rtc (scheduler_step from_slice) t0 t ->
  scheduler_ok t /\
  forall limit clock locked fresh c,
    (fire_due_inner from_slice limit clock locked fresh c t).1 <> Err RateLimitPolicyConflict.
Proof.
  intros HR HW Hreach. assert (Hok : scheduler_ok t).
  { assert (Hok0 : scheduler_ok t0).
    { split; unfold definitions; rewrite HR; [|by rewrite HW].
      split; [constructor | constructor | constructor | by intros ???????? ?%not_elem_of_nil]. }
    clear HR HW. induction Hreach as [|t0 t1 t Hstep _ IH]; [done|]. by eapply IH, scheduler_step_ok. }
  split; [done|]. intros limit clock locked fresh c.
  destruct (fire_due_inner _ _ _ _ _ _ t) as [r t'] eqn:E.
  eapply transaction_keeps in E as [_ HE]; [| apply fire_due_triple, Hok | by apply definitions_kept].
  simpl. intros ->. destruct (HE _ eq_refl) as [HN|[x Hx]]; [by apply HN | done].
Qed.

Lemma find_app_none {A} (f : A -> bool) l k : List.find f l = None -> List.find f (l ++ k) = List.find f k.
Proof. induction l as [|x l IH]; [done|]. simpl. by destruct (f x). Qed.

Definition registration_id (o : RecurringJobRegistration) : Uuid :=
  match o with Registered i | AlreadyRegistered i => i end.

(** Registration is idempotent and never redefines a schedule. A registration that
    fails changes nothing, unless the acknowledgement of its commit was lost. One that
    succeeds leaves exactly one schedule under the key with the definition the caller
    gave, added when the key was free and untouched otherwise, and reports its id; and
    every later registration of the same job changes nothing and, when it succeeds,
    reports that id. *)
Theorem registration_idempotent `{Postgres, CalendarApi, UuidApi} {Value} (from_slice : bytes -> option Value)
    `{!JsonWriter (@MaterializedJobEnvelope Value)} {J} `{!JobEnvelope.Job J, !JsonWriter J}
    (job : RecurringJob J) i ids clock c t :
  match register from_slice job i ids clock c t with
  | (Err _, t') => t' = t \/ c = CommitUnknown
  | (Ok out, t') =>
      exists x body, encode_schedule_payload (job_payload job) = Ok body /\
        row_of_key (job_key job) t' = Some x /\ registration_id out = rj_id x /\
        definition_of x = definition_of (registration_row job body (rj_id x) 0) /\
        match out with
        | Registered _ => row_of_key (job_key job) t = None /\ t' = set_recurring (recurring t ++ [x]) t
        | AlreadyRegistered _ => t' = t
        end /\
        forall i2 ids2 clock2 c2 r2 t2, register from_slice job i2 ids2 clock2 c2 t' = (r2, t2) ->
          t2 = t' /\ forall out2, r2 = Ok out2 -> out2 = AlreadyRegistered (rj_id x)
  end.
Proof.
  destruct (register from_slice job i ids clock c t) as [[out|e] t'] eqn:E.
  2:{ unfold register in E. destruct (encode_schedule_payload _); [|injection E as _ <-; by left].
      apply transaction_cases in E as [->|[-> _]]; [by left | by right]. }
  unfold register in *. destruct (encode_schedule_payload _) as [body|]; [|done].
  apply transaction_cases in E as [_ HE]. apply register_cases in HE as (next & _ & HE).
  assert (HX : exists x, row_of_key (job_key job) t' = Some x /\ registration_id out = rj_id x /\
            definition_of x = definition_of (registration_row job body (rj_id x) 0) /\
            match out with
            | Registered _ => row_of_key (job_key job) t = None /\ t' = set_recurring (recurring t ++ [x]) t
            | AlreadyRegistered _ => t' = t
            end).
  { destruct HE as [(-> & -> & Hkey & _) | (-> & r & Hr & -> & HD)].
    - exists (registration_row job body i next). split_and!; try done. unfold row_of_key in *. simpl.
      rewrite (find_app_none _ _ _ Hkey). simpl. by rewrite (proj2 (str_eqb_true _ _) eq_refl).
    - exists r. done. }
  clear HE. destruct HX as (x & Hx & Hid & HD & HO). exists x, body. split_and!; try done.
  intros i2 ids2 clock2 c2 r2 t2 E2. apply transaction_cases in E2.
  assert (HS : forall out2 t3, register_transaction from_slice job body i2 ids2 clock2 t' = (Ok out2, t3) ->
            t3 = t' /\ out2 = AlreadyRegistered (rj_id x)).
  { intros out2 t3 (n2 & _ & [(_ & _ & Hkey & _) | (-> & y & Hy & -> & _)])%register_cases; [congruence|].
    rewrite Hx in Hy. by injection Hy as <-. }
  destruct r2 as [out2|e2].
  - destruct E2 as [_ [-> ->]%HS]. split; [done|]. by intros ? [= <-].
  - destruct E2 as [->|(_ & out2 & [-> _]%HS)]; done.
Qed.

(** ** What a fired job decodes to *)

(** [serde_json]: [Value] reads what any writer writes and converts back, and the typed
    envelope reads the materialized one, which has no trace context. *)
Class TemplateSerde {J Value : Type} `{!JsonWriter J} `{!JsonWriter (@MaterializedJobEnvelope Value)}
    (from_slice : bytes -> option Value) (from_slice_typed : bytes -> option (JobEnvelope J))
    (from_value : Value -> option J) : Prop := {
  template_value p :
    json_fails p = false ->
    exists v, from_slice (concat (json_writes p)) = Some v /\ from_value v = Some p;
  materialized_envelope m p :
    json_fails m = false -> from_value (mj_payload m) = Some p ->
    from_slice_typed (concat (json_writes m)) =
      Some {| JobEnvelope.id := mj_id m; name := mj_name m; version := mj_version m; payload := p;
              idempotency_key := mj_idempotency_key m; enqueued_at_unix_ms := mj_enqueued_at_unix_ms m;
              attempt := mj_attempt m; trace_context := None |}
}.

Section occurrence_keys.
Context `{UuidLaws}.

(** The instants [next_run_at] holds. *)
Definition is_i64 (z : Z) : Prop := i64_min <= z <= i64_max.

Lemma display_i64_length z : is_i64 z -> (List.length (display_i64 z) <= 20)%nat.
Proof.
  unfold is_i64, i64_min, i64_max, display_i64. intros Hz. destruct (Z.ltb_spec z 0).
  - simpl. pose proof (to_dec_length (- z) 18 ltac:(lia)). lia.
  - pose proof (to_dec_length z 18 ltac:(lia)). lia.
Qed.

Lemma display_i64_inj a b : display_i64 a = display_i64 b -> a = b.
Proof.
  assert (HM : forall n m, 0 <= m -> "-"%char :: n = to_dec m -> False).
  { intros n m Hm HE. pose proof (to_dec_digits m Hm) as HF. rewrite <- HE in HF.
    by apply Forall_cons in HF as [? _]. }
  unfold display_i64. destruct (Z.ltb_spec a 0), (Z.ltb_spec b 0); intros HE.
  - injection HE as HE. apply to_dec_inj in HE; lia.
  - by apply HM in HE.
  - symmetry in HE. by apply HM in HE.
  - by apply to_dec_inj in HE.
Qed.

Lemma occurrence_key_length i z :
  is_i64 z -> (List.length (occurrence_key i z) <= MAX_JOB_IDEMPOTENCY_KEY_BYTES)%nat.
Proof.
  intros Hz. unfold occurrence_key. rewrite !length_app, uuid_length. pose proof (display_i64_length z Hz).
  unfold MAX_JOB_IDEMPOTENCY_KEY_BYTES. simpl. lia.
Qed.

Lemma occurrence_key_ascii i z : Forall (fun c => is_ascii c = true) (occurrence_key i z).
Proof.
  unfold occurrence_key. repeat (apply Forall_app; split).
  - by repeat constructor.
  - apply (Forall_impl _ _ _ (uuid_characters i)). intros c Hc.
    destruct c as [[] [] [] [] [] [] [] []]; vm_compute in Hc |- *; done.
  - by repeat constructor.
  - assert (HD : forall n, 0 <= n -> Forall (fun c => is_ascii c = true) (to_dec n)).
    { intros n Hn. apply (Forall_impl _ _ _ (to_dec_digits n Hn)). intros c Hc.
      destruct c as [[] [] [] [] [] [] [] []]; vm_compute in Hc |- *; done. }
    unfold display_i64. destruct (Z.ltb_spec z 0); [constructor; [done|]|]; apply HD; lia.
Qed.

Lemma occurrence_key_nonblank i z : is_blank (occurrence_key i z) = false.
Proof.
  unfold is_blank, chars. rewrite utf8_chars_ascii by apply occurrence_key_ascii. done.
Qed.

Lemma occurrence_key_inj i j a b :
  is_uuid i -> is_uuid j -> occurrence_key i a = occurrence_key j b -> i = j /\ a = b.
Proof.
  intros Hi Hj HE. apply app_inj_1 in HE as [_ HE]; [|done]. apply app_inj_1 in HE as [HU HE];
    [|by rewrite !uuid_length].
  apply app_inj_1 in HE as [_ HE]; [|done]. apply display_i64_inj in HE as ->. split; [|done].
  apply (f_equal uuid_parse_str) in HU. rewrite !uuid_parse_print in HU by done. by injection HU.
Qed.
End occurrence_keys.

(** ** Properties: fired jobs *)

(** A registered job fires as it was written. For a schedule that a registration
    added, every pass that fires it, now or after it has moved, stages an outbox row
    whose payload decodes, as a worker decodes it, to a first attempt of a job with
    the registered payload, name and version, enqueued at the clock of the pass; its
    idempotency key identifies the schedule and the planned instant, so no two
    occurrences share a key. *)
Theorem registered_job_fires_as_written `{Postgres, CalendarApi, UuidLaws} {J Value}
    `{!JobEnvelope.Job J, !JsonWriter J, !JsonWriter (@MaterializedJobEnvelope Value)}
    (from_slice : bytes -> option Value) (from_slice_typed : bytes -> option (JobEnvelope J))
    (from_value : Value -> option J) `{!TemplateSerde from_slice from_slice_typed from_value}
    (job : RecurringJob J) i ids clock c t t1 :
  register from_slice job i ids clock c t = (Ok (Registered i), t1) ->
  exists r, recurring t1 = recurring t ++ [r] /\ rj_id r = i /\
    forall planned fired enabled clock' now' o,
      is_i64 planned -> fired_from from_slice clock' now' (reschedule planned fired enabled r) o ->
      exists e, decode from_slice_typed (r_payload o) = Ok e /\
        payload e = job_payload job /\ name e = NAME (J:=J) /\ version e = VERSION (J:=J) /\
        attempt e = 1 /\ enqueued_at_unix_ms e = now' /\
        idempotency_key e = Some (occurrence_key i planned) /\
        forall i' planned', is_uuid i -> is_uuid i' ->
          idempotency_key e = Some (occurrence_key i' planned') -> i' = i /\ planned' = planned.
Proof.
  unfold register. destruct (encode_schedule_payload (job_payload job)) as [body|] eqn:EB; [|done].
  intros HE. apply transaction_cases in HE as [_ HE]. apply register_cases in HE as (next & _ & HE).
  destruct HE as [(_ & -> & _) | (_ & r & _ & HX & _)]; [|done].
  exists (registration_row job body i next). split_and!; [done | done |].
  intros planned fired enabled clock' now' o HP [_ (s & job_id & m & Hs & Hm & ->)].
  pose proof (from_row_Ok _ _ _ Hs) as (Hbody & _ & _ & Es). simpl in Hbody, Es.
  apply materialized_message_Ok, render_job_message_Ok in Hm as (Hname & HJ & Hlen & ->).
  (* the payload of the row is the encoded template *)
  unfold encode_schedule_payload in EB. rewrite (proj1 (to_vec_bounded_facts _ MAX_JOB_ENVELOPE_BYTES)) in EB.
  destruct (_ <=? _)%nat; [|done]. destruct (json_fails (job_payload job)) eqn:EF; [done|]. injection EB as <-.
  destruct (template_value (from_slice_typed := from_slice_typed) (job_payload job) EF) as (v & Hv & Hfv).
  unfold decode_template_payload in Hbody. destruct (_ || _); [done|]. rewrite Hv in Hbody. injection Hbody as Ev.
  rewrite Es in Hname, HJ, Hlen |- *. simpl in Hname, HJ, Hlen |- *. rewrite <- Ev in HJ, Hlen |- *.
  eexists. split.
  - apply decode_Ok. split; [exact Hlen|]. split; [by apply materialized_envelope|].
    constructor; cbn [name version attempt idempotency_key trace_context];
      [split; [reflexivity | exact Hname] | reflexivity | discriminate
      | split; [apply occurrence_key_nonblank | by apply occurrence_key_length] | exact I].
  - cbn [payload name version attempt enqueued_at_unix_ms idempotency_key].
    split_and!; [reflexivity.. |]. intros i' planned' Hi Hi' HK.
    apply (f_equal (default [])) in HK. by apply occurrence_key_inj in HK as [-> ->].
Qed.

(** ** Examples *)

Module CronExamples.
Import UuidModel JobExamples.

Definition hour : Z := 3600000.

(** Two expressions and two zones; the clocks of [Winter] go back one hour at hour 2. *)
Inductive Zone : Type := Utc | Winter.
Definition hours (n : nat) : list Z := map (fun k => Z.of_nat k * hour + hour / 2) (seq 0 n).

Definition calendar : CalendarApi := {|
  Schedule := list Z;
  Tz := Zone;
  schedule_parse s :=
    if str_eqb s ##"0 30 * * * *" then Some (hours 48)
    else if str_eqb s ##"0 30 0 1 1 * 1970" then Some (hours 1) else None;
  tz_parse s := if str_eqb s ##"UTC" then Some Utc else if str_eqb s ##"Winter" then Some Winter else None;
  clock_representable _ := true;
  occurrences_after s _ t := List.filter (fun x => t <? x) s;
  local_time z x := match z with Utc => x | Winter => if x <? 2 * hour then x else x - hour end;
  local_result z l :=
    match z with
    | Utc => LocalSingle
    | Winter => if (hour <=? l) && (l <? 2 * hour) then LocalAmbiguous l (l + hour) else LocalSingle
    end
|}.
#[export] Existing Instance calendar.

#[export] Instance calendar_laws : CalendarLaws.
Proof.
  split.
  - intros s tz t t' x Hle. cbn [occurrences_after calendar].
    rewrite !list_elem_of_In, !List.filter_In, !Z.ltb_lt. intuition lia.
  - intros [] x y; cbn [local_time local_result calendar]; [lia|].
    unfold hour. destruct (Z.ltb_spec x (2 * 3600000)), (Z.ltb_spec y (2 * 3600000)); try lia.
    intros HE Hlt. rewrite (proj2 (Z.leb_le _ _)), (proj2 (Z.ltb_lt _ _)) by lia. simpl. f_equal. lia.
Qed.

#[export] Instance payload_writer : JsonWriter Z :=
  {| json_writes z := [bits (countable.encode z)]; json_fails _ := false |}.
Definition value (body : bytes) : option Z := countable.decode (of_bits body).
Definition envelope_of (m : @MaterializedJobEnvelope Z) : JobEnvelope Z :=
  {| JobEnvelope.id := mj_id m; name := mj_name m; version := mj_version m; payload := mj_payload m;
     idempotency_key := mj_idempotency_key m; enqueued_at_unix_ms := mj_enqueued_at_unix_ms m;
     attempt := mj_attempt m; trace_context := None |}.
#[export] Instance materialized_writer : JsonWriter (@MaterializedJobEnvelope Z) :=
  {| json_writes m := json_writes (envelope_of m); json_fails _ := false |}.

#[export] Instance template_laws : TemplateSerde value read Some.
Proof.
  split.
  - intros p _. exists p. split; [|done]. unfold value. cbn [json_writes payload_writer concat].
    by rewrite app_nil_r, of_bits_bits, countable.decode_encode.
  - intros m p _ [= <-]. exact (typed_roundtrip (SerdeLaws := laws) (envelope_of m) eq_refl).
Qed.

#[export] Instance server : Postgres := OutboxExamples.server.

(** Resize images at half past every hour, at most once an hour across schedules. *)
Definition hourly_limit : RecurringJobRateLimit :=
  {| rl_key := ##"images"; rl_capacity := 1; rl_window := from_millis hour |}.
Definition resize_job (key : str) (expression : str) (l : option RecurringJobRateLimit) : RecurringJob Z :=
  {| job_key := key; job_destination := ##"images"; job_payload := 640; job_expression := expression;
     job_time_zone := {| tz_name := ##"UTC"; tz_zone := (Utc : @Tz calendar) |}; job_priority := 0;
     job_rate_limit := l |}.
Definition empty : Tables := {| recurring := []; windows := ∅; outbox := [] |}.
Definition ids (n : nat) : Uuid * Uuid := (1000 + Z.of_nat n, 2000 + Z.of_nat n).

Definition hourly : Tables :=
  (register value (resize_job ##"thumbs" ##"0 30 * * * *" None) 1 (90, 91) 0 Committed empty).2.
(** Two schedules under one limit, and one that runs once. *)
Definition limited : Tables :=
  (register value (resize_job ##"covers" ##"0 30 * * * *" (Some hourly_limit)) 3 (92, 93) 0 Committed
     (register value (resize_job ##"thumbs" ##"0 30 * * * *" (Some hourly_limit)) 2 (90, 91) 0 Committed empty).2).2.
Definition once : Tables :=
  (register value (resize_job ##"once" ##"0 30 0 1 1 * 1970" None) 4 (92, 93) 0 Committed hourly).2.

(** A pass at 00:45 fires the first schedule and defers the second to 01:00. *)
Definition quarter_to_one : Z := (hour * 3 / 4) * 1000.
Example limited_pass :
  let '(r, t) := fire_due_inner value 10 quarter_to_one (fun _ => false) ids Committed limited in
  r = Ok {| claimed := 2; staged := 1; rate_limited := 1 |} /\
  (rj_next_run_at <$> recurring t) = [hour + hour / 2; hour] /\ List.length (outbox t) = 1%nat.
Proof. vm_compute. done. Qed.

(** Another policy under the same limit key is refused. *)
Example policy_conflict :
  (register value (resize_job ##"other" ##"0 30 * * * *"
     (Some {| rl_key := ##"images"; rl_capacity := 2; rl_window := from_millis hour |})) 9 (92, 93) 0 Committed
     limited).1 = Err RateLimitPolicyConflict.
Proof. vm_compute. done. Qed.

Lemma ids_nodup (rows : list RecurringRow) : bool_decide (NoDup (rj_id <$> rows)) = true -> NoDup (rj_id <$> rows).
Proof. apply bool_decide_eq_true_1. Qed.

Lemma fire_due_pass_witness :
  exists report t', fire_due_inner value 10 quarter_to_one (fun _ => false) ids Committed limited = (Ok report, t') /\
    claimed report = staged report + rate_limited report.
Proof.
  assert (HN : NoDup (rj_id <$> recurring limited)) by (apply ids_nodup; vm_compute; reflexivity).
  pose proof (fire_due_pass value 10 quarter_to_one (fun _ => false) ids Committed limited HN
    ltac:(apply Nat.leb_le; vm_compute; reflexivity)) as HP.
  pose proof limited_pass as HX.
  destruct (fire_due_inner _ _ _ _ _ _ _) as [r t']. destruct HX as (-> & _ & _). cbv zeta in HP.
  eexists _, t'. split; [reflexivity | exact (proj2 (proj2 (proj2 HP)))].
Defined.

(** 01:30 happens twice in [Winter]; the first run after midnight and the first after
    01:30 are the two sides of the transition. *)
Lemma wall_clock_fires_once_witness :
  let tz := {| tz_name := ##"Winter"; tz_zone := (Winter : @Tz calendar) |} in
  exists a b, next_after_unix_ms ##"0 30 * * * *" hour tz = Ok a /\
    next_after_unix_ms ##"0 30 * * * *" (hour + hour / 2) tz = Ok b /\
    a < b /\ local_time (tz_zone tz) a <> local_time (tz_zone tz) b.
Proof.
  cbv zeta. set (tz := {| tz_name := ##"Winter"; tz_zone := (Winter : @Tz calendar) |}).
  eexists (hour + hour / 2), (3 * hour + hour / 2).
  assert (HA : next_after_unix_ms ##"0 30 * * * *" hour tz = Ok (hour + hour / 2)) by (vm_compute; reflexivity).
  assert (HB : next_after_unix_ms ##"0 30 * * * *" (hour + hour / 2) tz = Ok (3 * hour + hour / 2))
    by (vm_compute; reflexivity).
  destruct (wall_clock_fires_once _ _ _ _ tz _ _ HA HB) as (_ & Hlt & HL).
  split_and!; [exact HA | exact HB | vm_compute; reflexivity |].
  intros HE. apply HL in HE. vm_compute in HE. discriminate.
Defined.

Definition passes : list (Z * (nat -> Uuid * Uuid) * Commit) :=
  [(quarter_to_one, ids, Committed); (quarter_to_one + hour * 5000, ids, CommitUnknown)].

Lemma exhausted_schedule_blocks_witness : (fire_passes value 10 passes once).2 = once.
Proof.
  assert (HF : Forall (fun p => quarter_to_one <= p.1.1) passes)
    by (repeat constructor; vm_compute; discriminate).
  assert (HD : exists r, due_rows (quarter_to_one / 1000) 10 (fun _ => false) once = [List.hd r (recurring once); r]
                 /\ rj_cron_expression r = ##"0 30 0 1 1 * 1970" /\ rj_rate_limit r = (None, None, None)
                 /\ rj_time_zone r = ##"UTC")
    by (eexists; vm_compute; split_and!; reflexivity).
  destruct HD as (r & HD & HE & HR & HT).
  assert (Hr : r ∈ due_rows (quarter_to_one / 1000) 10 (fun _ => false) once) by (rewrite HD; right; left).
  assert (HN : NoDup (rj_id <$> recurring once)) by (apply ids_nodup; vm_compute; reflexivity).
  set (tz := {| tz_name := ##"UTC"; tz_zone := (Utc : @Tz calendar) |}).
  assert (HZ : time_zone_new (rj_time_zone r) = Ok tz) by (rewrite HT; reflexivity).
  assert (HX : next_after_unix_ms (rj_cron_expression r) (quarter_to_one / 1000) tz = Err StoredSchedule)
    by (rewrite HE; vm_compute; reflexivity).
  pose proof (exhausted_schedule_blocks value 10 quarter_to_one once r tz passes HN Hr HR HZ HX HF) as HP.
  destruct (fire_passes value 10 passes once) as [rs t']. exact (proj2 (proj2 HP)).
Defined.

(** Three requests in the first hour and one in the second. *)
Lemma governor_exact_witness :
  (consume_all hourly_limit [0; 1; 2; hour] empty).1 = map Ok [Allowed; Deferred hour; Deferred hour; Allowed].
Proof.
  rewrite (governor_exact ##"images" 1 (from_millis hour) hourly_limit [0; 1; 2; hour] empty);
    [vm_compute; reflexivity | vm_compute; reflexivity | vm_compute; reflexivity | vm_compute; reflexivity
    | lia | vm_compute; discriminate | vm_compute; reflexivity | repeat constructor; vm_compute; discriminate
    | repeat constructor; vm_compute; discriminate | reflexivity].
Defined.

Lemma registered_job_fires_as_written_witness :
  exists r, recurring hourly = [r] /\ rj_id r = 1.
Proof.
  assert (HE : register value (resize_job ##"thumbs" ##"0 30 * * * *" None) 1 (90, 91) 0 Committed empty
               = (Ok (Registered 1), hourly)) by (vm_compute; reflexivity).
  destruct (registered_job_fires_as_written value read Some _ _ _ _ _ _ _ HE) as (r & HR & HI & _).
  exists r. split; [exact HR | exact HI].
Defined.

Lemma scheduler_invariant_witness : scheduler_ok limited.
Proof.
  apply (scheduler_invariant value empty limited eq_refl eq_refl).
  eapply rtc_l; [|eapply rtc_once].
  - eapply (step_register value (resize_job ##"thumbs" ##"0 30 * * * *" (Some hourly_limit)) 2 (90, 91) 0 Committed).
    apply surjective_pairing.
  - eapply (step_register value (resize_job ##"covers" ##"0 30 * * * *" (Some hourly_limit)) 3 (92, 93) 0 Committed).
    unfold limited. apply surjective_pairing.
Defined.
End CronExamples.
