(* ===== verification/Effects.v ===== *)
(** Asynchronous code as trees of the calls it makes, for the components whose steps
    interleave: programs, a weakest precondition against interference, and systems of
    callers that are started, answered one call at a time and abandoned anywhere. *)

From stdpp Require Import base list relations.
From S2P Require Import Prelude.

(** ** Programs *)

Inductive program (call : Type -> Type) (A : Type) : Type :=
| Ret (a : A)
| Vis {X : Type} (c : call X) (k : X -> program call A).
Arguments Ret {call A} a.
Arguments Vis {call A X} c k.

#[export] Instance program_ret call : MRet (program call) := fun A a => Ret a.
#[export] Instance program_bind call : MBind (program call) := fun A B f =>
  fix go (p : program call A) : program call B :=
    match p with
    | Ret a => f a
    | Vis c k => Vis c (fun x => go (k x))
    end.

Definition ask {call : Type -> Type} {X} (c : call X) : program call X := Vis c Ret.

(** [e?] for a program and for a value, with the conversion of the error. *)
Definition try_ {call A B E F} (convert : E -> F) (m : program call (result A E))
    (k : A -> program call (result B F)) : program call (result B F) :=
  r ← m; match r with Ok a => k a | Err e => Ret (Err (convert e)) end.
Definition pure_try {call A B E F} (convert : E -> F) (r : result A E)
    (k : A -> program call (result B F)) : program call (result B F) :=
  match r with Ok a => k a | Err e => Ret (Err (convert e)) end.

(** ** What a program can do *)

(** Every call that some run of a program makes, and everything that one returns. *)
Fixpoint all_calls {call A} (P : forall X, call X -> Prop) (p : program call A) : Prop :=
  match p with
  | Ret _ => True
  | @Vis _ _ X c k => P X c /\ forall x, all_calls P (k x)
  end.
Fixpoint all_returns {call A} (P : A -> Prop) (p : program call A) : Prop :=
  match p with
  | Ret a => P a
  | Vis c k => forall x, all_returns P (k x)
  end.

Lemma all_calls_bind {call A B} (P : forall X, call X -> Prop) (m : program call A) (f : A -> program call B) :
  all_calls P m -> (forall a, all_calls P (f a)) -> all_calls P (m ≫= f).
Proof.
  intros Hm Hf. induction m as [a|X c k IH]; [apply Hf|]. destruct Hm as [Hc Hk]. split; [done|]. intros x. by apply IH.
Qed.
Lemma all_calls_try {call A B E F} (P : forall X, call X -> Prop) (convert : E -> F) (m : program call (result A E))
    (f : A -> program call (result B F)) :
  all_calls P m -> (forall a, all_calls P (f a)) -> all_calls P (try_ convert m f).
Proof. intros Hm Hf. apply all_calls_bind; [done|]. intros [a|e]; [apply Hf | done]. Qed.
Lemma all_calls_mono {call A} (P Q : forall X, call X -> Prop) (p : program call A) :
  (forall X c, P X c -> Q X c) -> all_calls P p -> all_calls Q p.
Proof. intros HPQ. induction p as [a|X c k IH]; [done|]. intros [Hc Hk]. split; [by apply HPQ|]. intros x. by apply IH. Qed.
Lemma all_returns_bind {call A B} (P : B -> Prop) (m : program call A) (f : A -> program call B) :
  (forall a, all_returns P (f a)) -> all_returns P (m ≫= f).
Proof. intros Hf. induction m as [a|X c k IH]; [apply Hf|]. intros x. apply IH. Qed.

(** ** Weakest preconditions *)

Section wp.
Context {call : Type -> Type} {World : Type}.
(** What others may do, what an answered call does, what holds in between, and what every
    call guarantees. *)
Context (rely : World -> World -> Prop) (answered : forall X, call X -> World -> X -> World -> Prop).
Context (inv : World -> Prop) (guarantee : World -> World -> Prop).

Fixpoint wp {A} (p : program call A) (Q : A -> World -> Prop) (w : World) : Prop :=
  match p with
  | Ret a => Q a w
  | @Vis _ _ X c kont => forall w1, rely w w1 -> inv w1 -> forall x w2, answered X c w1 x w2 ->
      guarantee w1 w2 /\ inv w2 /\ wp (kont x) Q w2
  end.

Lemma wp_bind {A B} (m : program call A) (f : A -> program call B) Q w :
  wp m (fun a w' => wp (f a) Q w') w -> wp (m ≫= f) Q w.
Proof.
  revert w. induction m as [a|X c kont IH]; intros w; [done|]. cbn.
  intros HW w1 Hr Hi x w2 Ha. destruct (HW w1 Hr Hi x w2 Ha) as (HG & HI & HW').
  split_and!; [done | done | by apply IH].
Qed.

Lemma wp_mono {A} (p : program call A) (Q Q' : A -> World -> Prop) w :
  (forall a w', Q a w' -> Q' a w') -> wp p Q w -> wp p Q' w.
Proof.
  intros HQ. revert w. induction p as [a|X c kont IH]; intros w; [apply HQ|]. cbn.
  intros HW w1 Hr Hi x w2 Ha. destruct (HW w1 Hr Hi x w2 Ha) as (HG & HI & HW').
  split_and!; [done | done | by apply IH].
Qed.

Lemma wp_ret {A} (a : A) (Q : A -> World -> Prop) w : Q a w -> wp (Ret a) Q w.
Proof. exact id. Qed.

(** One call and what follows it. *)
Lemma wp_ask {A X} (c : call X) (f : X -> program call A) Q w :
  (forall w1, rely w w1 -> inv w1 -> forall x w2, answered X c w1 x w2 ->
     guarantee w1 w2 /\ inv w2 /\ wp (f x) Q w2) ->
  wp (ask c ≫= f) Q w.
Proof. exact id. Qed.

Lemma wp_try {A B E F} (convert : E -> F) (m : program call (result A E)) (f : A -> program call (result B F)) Q w :
  wp m (fun r w' => match r with Ok a => wp (f a) Q w' | Err e => Q (Err (convert e)) w' end) w ->
  wp (try_ convert m f) Q w.
Proof. intros HW. apply wp_bind. eapply wp_mono; [|exact HW]. by intros [a|e] w'. Qed.

Lemma wp_pure_try {A B E F} (convert : E -> F) (r : result A E) (f : A -> program call (result B F)) Q w :
  match r with Ok a => wp (f a) Q w | Err e => Q (Err (convert e)) w end ->
  wp (pure_try convert r f) Q w.
Proof. by destruct r. Qed.

(** A preorder that everyone keeps relates the world before a program and after it. *)
Lemma wp_frame {A} (R : World -> World -> Prop) `{!PreOrder R} (p : program call A) Q w :
  (forall w w', rely w w' -> R w w') -> (forall X (c : call X) w x w', answered X c w x w' -> guarantee w w' -> R w w') ->
  wp p Q w -> wp p (fun a w' => Q a w' /\ R w w') w.
Proof.
  intros HR HA. revert w. induction p as [a|X c kont IH]; intros w; [done|]. cbn.
  intros HW w1 Hr Hi x w2 Ha. destruct (HW w1 Hr Hi x w2 Ha) as (HG & HI & HW').
  split_and!; [done | done |]. eapply wp_mono; [|by apply IH]. intros a w' [HQ Hw']. split; [done|].
  etrans; [by apply HR|]. etrans; [by eapply HA | exact Hw'].
Qed.
End wp.

(** ** Runs *)

Section runs.
Context {call : Type -> Type} {Event : Type} (event_of : forall X, call X -> X -> Event).

(** The calls that one run of a program makes, with their answers, and what it returns
    unless it is dropped. *)
Inductive runs {A} : program call A -> list Event -> option A -> Prop :=
| runs_dropped p : runs p [] None
| runs_return a : runs (Ret a) [] (Some a)
| runs_call X (c : call X) k x es r : runs (k x) es r -> runs (Vis c k) (event_of X c x :: es) r.

(** A program whose world is the list of its calls. *)
Definition recorded X (c : call X) (w : list Event) (x : X) (w' : list Event) : Prop := w' = w ++ [event_of X c x].

Lemma wp_runs {A} (P : list Event -> Prop) (p : program call A) Q w es r :
  P w -> wp eq recorded P (fun _ _ => True) p Q w -> runs p es r ->
  P (w ++ es) /\ forall a, r = Some a -> Q a (w ++ es).
Proof.
  intros HP HW HR. revert w HP HW. induction HR as [p|a|X c k x es r HR IH]; intros w HP HW.
  - by rewrite app_nil_r.
  - rewrite app_nil_r. split; [done|]. by intros a' [= <-].
  - destruct (HW w eq_refl HP x (w ++ [event_of X c x]) eq_refl) as (_ & HP' & HW').
    destruct (IH _ HP' HW') as [H1 H2]. by rewrite <- app_assoc in H1, H2.
Qed.

(** The run in which every call is answered by a function. *)
Fixpoint follow {A} (answer : forall X, call X -> X) (p : program call A) : list Event * A :=
  match p with
  | Ret a => ([], a)
  | @Vis _ _ X c k => let '(es, a) := follow answer (k (answer X c)) in (event_of X c (answer X c) :: es, a)
  end.
Lemma runs_follow {A} answer (p : program call A) es a : follow answer p = (es, a) -> runs p es (Some a).
Proof.
  revert es. induction p as [a'|X c k IH]; intros es; cbn; [intros [= <- <-]; constructor|].
  destruct (follow answer (k (answer X c))) as [es' a'] eqn:HF. intros [= <- <-]. constructor. by apply IH.
Qed.
End runs.

(** ** Systems of callers *)

Section system.
Context {call : Type -> Type} {World Client Outcome : Type}.
Context (prog_of : Client -> program call Outcome).
(** [answered i c]: what an answered call of caller [i], a client [c], does to the world;
    [background]: what happens besides. *)
Context (answered : nat -> Client -> forall X, call X -> World -> X -> World -> Prop).
Context (background : World -> World -> Prop).

Record thread : Type := { th_client : Client; th_rest : program call Outcome }.
Record system : Type := { world : World; callers : list thread }.

(** A caller starts, makes its next call, or something happens in the background. A caller
    that is dropped makes no further step. *)
Inductive step : system -> system -> Prop :=
| step_start s c :
    step s {| world := world s; callers := callers s ++ [{| th_client := c; th_rest := prog_of c |}] |}
| step_call s i c X (f : call X) kont x w' :
    callers s !! i = Some {| th_client := c; th_rest := Vis f kont |} -> answered i c X f (world s) x w' ->
    step s {| world := w'; callers := <[i := {| th_client := c; th_rest := kont x |}]> (callers s) |}
| step_background s w' :
    background (world s) w' -> step s {| world := w'; callers := callers s |}.

(** *** Runs of one caller *)

(** A caller that a function answers, until it returns or is not answered. *)
Fixpoint try_exec {A} (answer : forall X, call X -> World -> option (X * World)) (p : program call A) (w : World) :
    option (A * World) :=
  match p with
  | Ret a => Some (a, w)
  | @Vis _ _ X c kont => '(x, w') ← answer X c w; try_exec answer (kont x) w'
  end.

Lemma try_exec_steps answer i c p s a w' :
  (forall X (f : call X) w x w', answer X f w = Some (x, w') -> answered i c X f w x w') ->
  callers s !! i = Some {| th_client := c; th_rest := p |} -> try_exec answer p (world s) = Some (a, w') ->
  rtc step s {| world := w'; callers := <[i := {| th_client := c; th_rest := Ret a |}]> (callers s) |}.
Proof.
  intros HA. revert s. induction p as [b|X f kont IH]; intros s Hi; cbn.
  - intros [= <- <-]. rewrite list_insert_id by done. by destruct s.
  - intros ([x w1] & Hf & He)%bind_Some. apply HA in Hf.
    eapply rtc_l; [by apply (step_call s i c X f kont x w1)|].
    set (s1 := {| world := w1; callers := <[i := {| th_client := c; th_rest := kont x |}]> (callers s) |}).
    assert (Hi1 : callers s1 !! i = Some {| th_client := c; th_rest := kont x |}).
    { apply list_lookup_insert_eq. by eapply lookup_lt_Some. }
    pose proof (IH x s1 Hi1 He) as HR. cbn [callers s1] in HR. by rewrite list_insert_insert_eq in HR.
Qed.

(** A caller is started and runs until it returns. *)
Definition run_client (answer : nat -> forall X, call X -> World -> option (X * World)) (c : Client) (s : system) : option system :=
  '(o, w') ← try_exec (answer (List.length (callers s))) (prog_of c) (world s);
  Some {| world := w'; callers := callers s ++ [{| th_client := c; th_rest := Ret o |}] |}.

Lemma run_client_steps answer c s s' :
  (forall i X (f : call X) w x w', answer i X f w = Some (x, w') -> answered i c X f w x w') ->
  run_client answer c s = Some s' -> rtc step s s'.
Proof.
  intros HA ([o w'] & HX & [= <-])%bind_Some. set (i := List.length (callers s)).
  set (s1 := {| world := world s; callers := callers s ++ [{| th_client := c; th_rest := prog_of c |}] |}).
  eapply rtc_l; [apply (step_start s c)|]. fold s1.
  assert (HL : callers s1 !! i = Some {| th_client := c; th_rest := prog_of c |}).
  { cbn [callers s1]. rewrite lookup_app_r by done. unfold i. by rewrite Nat.sub_diag. }
  pose proof (try_exec_steps (answer i) i c (prog_of c) s1 o w' (HA i) HL HX) as HS.
  cbn [callers s1] in HS. rewrite insert_app_r_alt in HS by done. unfold i in HS. by rewrite Nat.sub_diag in HS.
Qed.

(** A caller that is always answered. *)
Context (answer : forall X, call X -> World -> X * World).
Fixpoint exec {A} (p : program call A) (w : World) : A * World :=
  match p with
  | Ret a => (a, w)
  | @Vis _ _ X c kont => let (x, w') := answer X c w in exec (kont x) w'
  end.

Lemma try_exec_total {A} (p : program call A) w : try_exec (fun X c w => Some (answer X c w)) p w = Some (exec p w).
Proof. revert w. induction p as [a|X c kont IH]; intros w; cbn; [done|]. destruct (answer X c w) as [x w']. apply IH. Qed.

Lemma exec_steps i c p s a w' :
  (forall X (f : call X) w, answered i c X f w (answer X f w).1 (answer X f w).2) ->
  callers s !! i = Some {| th_client := c; th_rest := p |} -> exec p (world s) = (a, w') ->
  rtc step s {| world := w'; callers := <[i := {| th_client := c; th_rest := Ret a |}]> (callers s) |}.
Proof.
  intros HA Hi He. eapply try_exec_steps; [|exact Hi | by rewrite try_exec_total, He].
  intros X f w x w1 [= Hf]. specialize (HA X f w). by rewrite Hf in HA.
Qed.

(** *** The invariant of a system *)

Context (inv : World -> Prop) (guarantee : World -> World -> Prop) (rely : nat -> World -> World -> Prop).
Context (fresh : nat -> World -> Prop) (post : Client -> nat -> Outcome -> World -> Prop).
Context `{!forall i, PreOrder (rely i)}.

(** Callers that did not start yet are fresh, and what one caller does, and what happens in
    the background, the others can rely on. *)
Class SystemLaws : Prop := {
  law_start i c w : fresh i w -> inv w -> wp (rely i) (answered i c) inv guarantee (prog_of c) (post c i) w;
  law_others i j c X (f : call X) w x w' : i <> j -> answered i c X f w x w' -> guarantee w w' -> rely j w w';
  law_fresh i w w' : rely i w w' -> fresh i w -> fresh i w';
  law_background w w' : inv w -> background w w' -> inv w' /\ guarantee w w' /\ forall i, rely i w w'
}.

Record system_inv (s : system) : Prop := {
  sys_inv : inv (world s);
  sys_fresh : forall j, callers s !! j = None -> fresh j (world s);
  sys_callers : forall i th, callers s !! i = Some th -> exists w0, rely i w0 (world s) /\
    wp (rely i) (answered i (th_client th)) inv guarantee (th_rest th) (post (th_client th) i) w0
}.

Context `{!SystemLaws}.

Lemma step_start_inv s c :
  system_inv s ->
  system_inv {| world := world s; callers := callers s ++ [{| th_client := c; th_rest := prog_of c |}] |}.
Proof.
  intros [HI HF HC]. split; cbn [world callers]; [done | |].
  - intros j Hj%lookup_ge_None. apply HF, lookup_ge_None. rewrite length_app in Hj. simpl in Hj. lia.
  - intros i th [Hi|[Hi Hth]]%lookup_app_Some; [by apply HC|].
    apply list_lookup_singleton_Some in Hth as [Hz <-]. cbn. exists (world s). split; [reflexivity|].
    apply law_start; [|done]. by apply HF, lookup_ge_None.
Qed.

Lemma step_call_inv s i c X (f : call X) kont x w' :
  callers s !! i = Some {| th_client := c; th_rest := Vis f kont |} -> answered i c X f (world s) x w' ->
  system_inv s ->
  guarantee (world s) w' /\
  system_inv {| world := w'; callers := <[i := {| th_client := c; th_rest := kont x |}]> (callers s) |}.
Proof.
  intros Hi Ha [HI HF HC]. destruct (HC i _ Hi) as (w0 & Hr & HW). cbn in HW.
  destruct (HW (world s) Hr HI x w' Ha) as (HG & HI' & HW'). split; [done|].
  assert (HO : forall j, i <> j -> rely j (world s) w') by (intros j Hij; exact (law_others i j c X f _ x _ Hij Ha HG)).
  split; cbn [world callers]; [done | |].
  - intros j Hj. assert (Hij : i <> j).
    { intros <-. rewrite list_lookup_insert_eq in Hj; [done|]. by eapply lookup_lt_Some. }
    rewrite list_lookup_insert_ne in Hj by done. eapply law_fresh; [by apply HO | by apply HF].
  - intros j th. destruct (decide (i = j)) as [<-|Hij].
    + rewrite list_lookup_insert_eq by (by eapply lookup_lt_Some). intros [= <-]. eexists. split; [reflexivity|].
      exact HW'.
    + rewrite list_lookup_insert_ne by done. intros Hj. destruct (HC j th Hj) as (w1 & Hr1 & HWj).
      exists w1. split; [|done]. etrans; [exact Hr1 | by apply HO].
Qed.

Lemma step_background_inv s w' :
  background (world s) w' -> system_inv s ->
  guarantee (world s) w' /\ system_inv {| world := w'; callers := callers s |}.
Proof.
  intros Hb [HI HF HC]. destruct (law_background _ _ HI Hb) as (HI' & HG & HR). split; [done|].
  split; cbn [world callers]; [done | |].
  - intros j Hj. eapply law_fresh; [apply HR | by apply HF].
  - intros i th Hi. destruct (HC i th Hi) as (w0 & Hr & HW). exists w0. split; [|done].
    etrans; [exact Hr | apply HR].
Qed.

Lemma step_keeps_inv s s' : system_inv s -> step s s' -> system_inv s'.
Proof.
  intros HI Hst. destruct Hst as [s c|s i c X f kont x w' Hc Ha|s w' Hb].
  - by apply step_start_inv.
  - by eapply (step_call_inv s i c X f).
  - by apply step_background_inv.
Qed.
Lemma steps_keep_inv s s' : system_inv s -> rtc step s s' -> system_inv s'.
Proof. intros HI Hs. induction Hs as [|s s1 s' Hst _ IH]; [done|]. by eapply IH, step_keeps_inv. Qed.

Context `{!PreOrder guarantee}.

Lemma step_inv s s' : system_inv s -> step s s' -> guarantee (world s) (world s') /\ system_inv s'.
Proof.
  intros HI Hst. destruct Hst as [s c|s i c X f kont x w' Hc Ha|s w' Hb].
  - split; [reflexivity | by apply step_start_inv].
  - by apply (step_call_inv s i c X f).
  - by apply step_background_inv.
Qed.

Lemma steps_inv s s' : system_inv s -> rtc step s s' -> guarantee (world s) (world s') /\ system_inv s'.
Proof.
  intros HI Hs. induction Hs as [|s s1 s' Hst _ IH]; [done|].
  destruct (step_inv _ _ HI Hst) as [HL HI1]. destruct (IH HI1) as [HL' HI']. split; [by etrans | done].
Qed.

(** What a finished caller returned satisfies its postcondition at some earlier world. *)
Lemma finished s i c o :
  system_inv s -> callers s !! i = Some {| th_client := c; th_rest := Ret o |} ->
  exists w0, rely i w0 (world s) /\ post c i o w0.
Proof. intros [_ _ HC] Hi. destruct (HC i _ Hi) as (w0 & Hr & HW). by exists w0. Qed.
End system.
Arguments thread {call} Client Outcome.
Arguments system {call} World Client Outcome.
