(* ===== verification/OidcLogin.v ===== *)
(** Browser login by Authorization Code with PKCE: [crates/rustee-auth-oidc/src/browser_login.rs]
    with [transaction.rs], [flow.rs] and [transport.rs], and the Redis transaction store of
    [crates/rustee-auth-oidc-redis].

    The flow is a program over the calls it makes ([Effects]): the provider, the value
    generator, the clock, the transaction store, the ID-token verifier and the session
    manager. A transaction store is an instance of [AuthorizationTransactionStore];
    [TransactionStoreLaws] is what the flow relies on, and both stores satisfy it. *)

From Stdlib Require Import ZArith Lia Bool Ascii.
From stdpp Require Import gmap sets.
From S2P Require Import Prelude Strings BTree Uuid Http Core Json RedisCache RateLimit Auth Session JsonValue Identity Oidc Effects.

Local Open Scope Z_scope.

Definition MAX_AUTHORIZATION_CODE_BYTES : nat := 16 * 1024.
Definition MAX_AUTHORIZATION_REDIRECT_BYTES : nat := 8 * 1024.
Definition MAX_ID_TOKEN_BYTES : nat := MAX_BEARER_TOKEN_BYTES.
Definition MAX_PROVIDER_ERROR_BYTES : nat := 256.

(** ** Failures: [browser_login.rs] *)

Inductive OidcLoginError : Type :=
| TransactionStoreUnavailable
| DiscoveryUnavailable
| InvalidProviderMetadata
| StateRejected
| TransactionExpired
| CallbackRejected
| ProviderRejected
| TokenExchangeUnavailable
| MissingIdToken
| IdentityProviderUnavailable
| SessionUnavailable
| IdentityTokenRejected.
#[export] Instance OidcLoginError_eq_dec : EqDecision OidcLoginError.
Proof. solve_decision. Defined.

Definition is_provider_unavailable (e : OidcLoginError) : bool :=
  match e with
  | TransactionStoreUnavailable | DiscoveryUnavailable | TokenExchangeUnavailable
  | IdentityProviderUnavailable | SessionUnavailable => true
  | _ => false
  end.

Definition login_error_into_response `{HttpApi} `{!Serialize ErrorPayload} (e : OidcLoginError) : Response :=
  into_response
    (if is_provider_unavailable e
     then mk_error 503 ##"oidc_unavailable" ##"OIDC login service is unavailable"
     else if bool_decide (e = InvalidProviderMetadata)
     then mk_error 502 ##"oidc_provider_rejected" ##"OIDC provider metadata was rejected"
     else mk_error 400 ##"oidc_login_rejected" ##"OIDC login request was rejected").

(** ** Transactions: [transaction.rs] *)

Section transactions.
Context `{UrlApi}.

Record PendingAuthorization : Type := {
  pa_state : str;
  pa_nonce : str;
  pa_code_verifier : str;
  pa_token_endpoint : Url;
  pa_expires_at : Z
}.

Definition pending_is_expired (p : PendingAuthorization) (now : Z) : bool := pa_expires_at p <=? now.

Definition valid_expiry (expires_at now : Z) : bool :=
  if expires_at <? now then true else expires_at - now <=? as_secs MAX_TRANSACTION_TTL.

(** The conjuncts before the one that reads the clock. *)
Definition has_valid_values (p : PendingAuthorization) : bool :=
  is_valid_oauth_authorization_value (pa_state p)
  && is_valid_oauth_authorization_value (pa_nonce p)
  && is_valid_oauth_authorization_value (pa_code_verifier p)
  && is_valid_https_url (pa_token_endpoint p).
Definition has_valid_fields (p : PendingAuthorization) (now : Z) : bool :=
  has_valid_values p && valid_expiry (pa_expires_at p) now.

Definition pending_remaining_ttl (p : PendingAuthorization) (now : Z) : option Z :=
  if pa_expires_at p <? now then None
  else let ttl := pa_expires_at p - now in if 0 <? ttl then Some ttl else None.

(** [derive(Serialize)] and [SerializedPendingAuthorization]. *)
Definition pending_json (p : PendingAuthorization) : Value := VObject [
  (##"state", VString (pa_state p));
  (##"nonce", VString (pa_nonce p));
  (##"code_verifier", VString (pa_code_verifier p));
  (##"token_endpoint", VString (url_as_str (pa_token_endpoint p)));
  (##"expires_at_unix_seconds", VInt (pa_expires_at p))
].
Definition read_serialized_pending (v : Value) : option PendingAuthorization :=
  fields ← read_object v;
  state ← required read_string ##"state" fields;
  nonce ← required read_string ##"nonce" fields;
  code_verifier ← required read_string ##"code_verifier" fields;
  token_endpoint ← required read_url ##"token_endpoint" fields;
  expires_at ← required read_u64 ##"expires_at_unix_seconds" fields;
  Some {| pa_state := state; pa_nonce := nonce; pa_code_verifier := code_verifier;
          pa_token_endpoint := token_endpoint; pa_expires_at := expires_at |}.
(** [Deserialize for PendingAuthorization]; [now] is its reading of the clock. *)
Definition read_pending (now : Z) (v : Value) : option PendingAuthorization :=
  p ← read_serialized_pending v;
  if negb (has_valid_fields p now) then None else Some p.

(** *** Stores *)

(** The two operations as relations between the store before, the answer and the store after;
    [elapses] is what happens to a store without a call. *)
Class AuthorizationTransactionStore (St E : Type) : Type := {
  ts_save : PendingAuthorization -> St -> result unit E -> St -> Prop;
  ts_take : str -> St -> result (option PendingAuthorization) E -> St -> Prop;
  ts_elapses : St -> St -> Prop
}.

(** [holds st s] is the transaction the store would return for the state [s]. *)
Class TransactionStoreLaws {St E} `{!AuthorizationTransactionStore St E}
    (holds : St -> str -> option PendingAuthorization) : Prop := {
  save_holds t st r st' s p :
    ts_save t st r st' -> holds st' s = Some p -> holds st s = Some p \/ (s = pa_state t /\ p = t);
  take_returns s st p st' : ts_take s st (Ok (Some p)) st' -> holds st s = Some p /\ holds st' s = None;
  take_holds s st r st' s' p : ts_take s st r st' -> holds st' s' = Some p -> holds st s' = Some p;
  elapses_holds st st' s p : ts_elapses st st' -> holds st' s = Some p -> holds st s = Some p
}.
End transactions.

(** *** The in-memory store *)

Definition MAX_IN_MEMORY_TRANSACTIONS : nat := 1024.

Inductive InMemoryAuthorizationTransactionStoreError : Type :=
| TxnStateUnavailable
| TxnCapacityExhausted
| TxnDuplicateState.

Section in_memory.
Context `{UrlApi}.

(** The map behind the mutex, and whether the mutex is poisoned. *)
Record InMemoryTransactions : Type := {
  im_transactions : gmap str PendingAuthorization;
  im_poisoned : bool
}.
Definition in_memory_transactions_default : InMemoryTransactions := {| im_transactions := ∅; im_poisoned := false |}.

(** [retain(|_, pending| !pending.is_expired())]: the clock is read for each entry, [clock s]
    for the entry of [s]. *)
Definition retain_unexpired (clock : str -> Z) (m : gmap str PendingAuthorization) : gmap str PendingAuthorization :=
  filter (fun '(s, p) => pending_is_expired p (clock s) = false) m.

Definition in_memory_txn_save (clock : str -> Z) (t : PendingAuthorization) (st : InMemoryTransactions) :
    result unit InMemoryAuthorizationTransactionStoreError * InMemoryTransactions :=
  if im_poisoned st then (Err TxnStateUnavailable, st)
  else
    let live := retain_unexpired clock (im_transactions st) in
    let kept m := {| im_transactions := m; im_poisoned := false |} in
    if is_some (live !! pa_state t) then (Err TxnDuplicateState, kept live)
    else if (MAX_IN_MEMORY_TRANSACTIONS <=? size live)%nat then (Err TxnCapacityExhausted, kept live)
    else (Ok tt, kept (<[pa_state t := t]> live)).

Definition in_memory_txn_take (state : str) (st : InMemoryTransactions) :
    result (option PendingAuthorization) InMemoryAuthorizationTransactionStoreError * InMemoryTransactions :=
  if im_poisoned st then (Err TxnStateUnavailable, st)
  else (Ok (im_transactions st !! state),
        {| im_transactions := base.delete state (im_transactions st); im_poisoned := false |}).

(** Another thread may panic while it holds the mutex. *)
#[export] Instance in_memory_transactions :
    AuthorizationTransactionStore InMemoryTransactions InMemoryAuthorizationTransactionStoreError := {|
  ts_save t st r st' := exists clock, in_memory_txn_save clock t st = (r, st');
  ts_take s st r st' := in_memory_txn_take s st = (r, st');
  ts_elapses st st' := im_transactions st' = im_transactions st
|}.
End in_memory.

(** *** The Redis store: [crates/rustee-auth-oidc-redis] *)

Definition DEFAULT_NAMESPACE : str := ##"rustee:oidc:transaction:v1".
Definition MAX_TRANSACTION_RECORD_BYTES : nat := 16 * 1024.

Inductive RedisAuthorizationTransactionStoreConfigError : Type := InvalidTransactionNamespace.
Inductive RedisAuthorizationTransactionStoreError : Type :=
| ExpiredTransaction
| DuplicateState
| TxnSave (e : CacheError)
| TxnTake (e : CacheError).

Definition cache_save_error (e : CacheError) : RedisAuthorizationTransactionStoreError :=
  match e with CacheEntryExists => DuplicateState | e => TxnSave e end.

(** A store is its namespace; the connection is the server the operations run on. *)
Definition redis_transactions_with_namespace (namespace : str) :
    result str RedisAuthorizationTransactionStoreConfigError :=
  if negb (is_valid_key_namespace namespace) then Err InvalidTransactionNamespace else Ok namespace.
Definition transaction_key (namespace state : str) : str := namespace ++ ##":" ++ state.

Section redis.
Context `{UrlApi, RedisStrings, JsonText}.

#[export] Instance pending_writer : JsonWriter PendingAuthorization := {|
  json_writes p := json_writes (pending_json p);
  json_fails p := json_fails (pending_json p)
|}.

Definition redis_txn_save (namespace : str) (t : PendingAuthorization) (unix_now : Z) (d : Delivery) (now : Z)
    (s : KvServer) : result unit RedisAuthorizationTransactionStoreError * KvServer :=
  match pending_remaining_ttl t unix_now with
  | None => (Err ExpiredTransaction, s)
  | Some ttl_seconds =>
      let '(r, s) := set_json_bounded_if_absent (transaction_key namespace (pa_state t)) t ttl_seconds
                       MAX_TRANSACTION_RECORD_BYTES d now s in
      (map_err cache_save_error r, s)
  end.

Definition redis_txn_take (namespace state : str) (unix_now : Z) (d : Delivery) (now : Z) (s : KvServer) :
    result (option PendingAuthorization) RedisAuthorizationTransactionStoreError * KvServer :=
  let '(r, s) := take_json_bounded (fun b => json_parse b ≫= read_pending unix_now)
                   (transaction_key namespace state) MAX_TRANSACTION_RECORD_BYTES d now s in
  (map_err TxnTake r, s).

(** The server and its clock. Each operation reads the clock of its own machine, and its
    request may be lost on either way; the server's clock advances. *)
Record RedisTransactions : Type := { rt_server : KvServer; rt_clock : Z }.

Definition redis_transactions (namespace : str) :
    AuthorizationTransactionStore RedisTransactions RedisAuthorizationTransactionStoreError := {|
  ts_save t st r st' := exists unix_now d,
    redis_txn_save namespace t unix_now d (rt_clock st) (rt_server st) = (r, rt_server st') /\ rt_clock st' = rt_clock st;
  ts_take s st r st' := exists unix_now d,
    redis_txn_take namespace s unix_now d (rt_clock st) (rt_server st) = (r, rt_server st') /\ rt_clock st' = rt_clock st;
  ts_elapses st st' := rt_server st' = rt_server st /\ rt_clock st <= rt_clock st'
|}.
End redis.

(** ** Redirects and callbacks: [transport.rs] *)

Section redirects.
Context `{HttpApi, UrlApi}.

Record AuthorizationRedirect : Type := { ar_location : Url; ar_location_header : HeaderValue }.

Definition authorization_redirect_new (location : Url) : result AuthorizationRedirect OidcLoginError :=
  let value := url_as_str location in
  if (MAX_AUTHORIZATION_REDIRECT_BYTES <? List.length value)%nat then Err InvalidProviderMetadata
  else
    let? header := ok_or (hv_from_str value) InvalidProviderMetadata in
    Ok {| ar_location := location; ar_location_header := header |}.

Definition LOCATION : str := ##"location".
Definition redirect_into_response (r : AuthorizationRedirect) : Response :=
  with_headers (hm_insert LOCATION (ar_location_header r)) (response 302 empty_body).

Record AuthorizationCallback : Type := {
  cb_code : option str;
  cb_state : option str;
  cb_error : option str;
  cb_error_description : option str
}.

(** [OidcProviderMetadata::validate]. *)
Definition metadata_validate (config : OidcBrowserConfig) (m : OidcProviderMetadata) : result unit OidcLoginError :=
  match url_parse (md_issuer m) with
  | None => Err InvalidProviderMetadata
  | Some issuer =>
      if negb (url_eqb issuer (bc_issuer config))
         || negb (is_valid_issuer_url issuer)
         || negb (is_valid_https_url (md_authorization_endpoint m))
         || negb (is_valid_https_url (md_token_endpoint m))
         || negb (is_valid_https_url (md_jwks_url m))
         || negb (url_eqb (md_jwks_url m) (bc_jwks_url config))
      then Err InvalidProviderMetadata
      else Ok tt
  end.
End redirects.

(** [UuidAuthorizationValueGenerator]; [simple] is the UUID without hyphens. *)
Definition uuid_generate `{UuidApi} (first second : Uuid) : str :=
  let simple u := List.filter (fun c => negb (char_eqb c "-")) (uuid_to_string u) in
  simple first ++ simple second.

(** ** The flow: [flow.rs] *)

Section flow.
Context `{HttpApi, UrlApi, EncodingApi}.
(** The errors of the transaction store and of the session store. *)
Context {E SE : Type}.

Inductive login_call : Type -> Type :=
| Discover (issuer : Url) : login_call (option OidcProviderMetadata)
| Generate : login_call str
| UnixSeconds : login_call Z
| SaveTransaction (t : PendingAuthorization) : login_call (result unit E)
| TakeTransaction (state : str) : login_call (result (option PendingAuthorization) E)
| Exchange (endpoint : Url) (request : OidcTokenExchangeRequest) : login_call (option OidcTokenResponse)
| VerifyIdToken (token expected_nonce : str) : login_call (result Principal AuthError)
| EstablishSession (principal : Principal) : login_call (result IssuedSession SE).

Notation login := (program login_call).
Context (config : OidcBrowserConfig).

Definition pkce_challenge (verifier : str) : str := base64_url (sha256 verifier).

Definition discover_provider : login (result OidcProviderMetadata OidcLoginError) :=
  found ← ask (Discover (bc_issuer config));
  pure_try id (ok_or found DiscoveryUnavailable) (fun provider =>
  pure_try id (metadata_validate config provider) (fun _ => Ret (Ok provider))).

(** The parameters of the authorization request. *)
Definition authorization_parameters (state nonce code_verifier : str) : list (str * str) := [
  (##"response_type", ##"code");
  (##"client_id", bc_client_id config);
  (##"redirect_uri", url_as_str (bc_redirect_uri config));
  (##"scope", join ##" " (btree_elements (bc_scopes config)));
  (##"state", state);
  (##"nonce", nonce);
  (##"code_challenge", pkce_challenge code_verifier);
  (##"code_challenge_method", ##"S256")
].

Definition begin_login : login (result AuthorizationRedirect OidcLoginError) :=
  try_ id discover_provider (fun provider =>
  state ← ask Generate;
  nonce ← ask Generate;
  code_verifier ← ask Generate;
  if negb (is_valid_oauth_authorization_value state)
     || negb (is_valid_oauth_authorization_value nonce)
     || negb (is_valid_oauth_authorization_value code_verifier)
  then Ret (Err CallbackRejected)
  else
    let location := url_extend_pairs (authorization_parameters state nonce code_verifier)
                      (md_authorization_endpoint provider) in
    pure_try id (authorization_redirect_new location) (fun redirect =>
    now ← ask UnixSeconds;
    let transaction := {|
      pa_state := state; pa_nonce := nonce; pa_code_verifier := code_verifier;
      pa_token_endpoint := md_token_endpoint provider;
      pa_expires_at := saturating_add u64_max now (as_secs (bc_transaction_ttl config))
    |} in
    saved ← ask (SaveTransaction transaction);
    pure_try (fun _ => TransactionStoreUnavailable) saved (fun _ => Ret (Ok redirect)))).

(** [is_valid_for_state]; the clock is read only when the other conjuncts hold. *)
Definition is_valid_for_state (p : PendingAuthorization) (state : str) : login bool :=
  if str_eqb (pa_state p) state && has_valid_values p
  then now ← ask UnixSeconds; Ret (valid_expiry (pa_expires_at p) now)
  else Ret false.

Definition map_id_token_error (e : AuthError) : OidcLoginError :=
  match e with
  | AuthProviderUnavailable => IdentityProviderUnavailable
  | MissingBearerToken | InvalidBearerToken | RejectedBearerToken => IdentityTokenRejected
  end.

(** The checks of the callback after its transaction was consumed, up to the code. *)
Definition callback_code (callback : AuthorizationCallback) : result str OidcLoginError :=
  if match cb_error_description callback with
     | Some description => (MAX_PROVIDER_ERROR_BYTES <? List.length description)%nat
     | None => false
     end
  then Err CallbackRejected
  else if match cb_error callback with
          | Some error => negb (is_valid_oauth_provider_error error MAX_PROVIDER_ERROR_BYTES)
          | None => false
          end
  then Err CallbackRejected
  else if is_some (cb_error callback) then Err ProviderRejected
  else
    let? code := ok_or (cb_code callback) CallbackRejected in
    if negb (is_valid_oauth_authorization_code code MAX_AUTHORIZATION_CODE_BYTES) then Err CallbackRejected
    else Ok code.

Definition exchange_for (transaction : PendingAuthorization) (code : str) : OidcTokenExchangeRequest := {|
  ex_client_id := bc_client_id config;
  ex_authentication := bc_authentication config;
  ex_code := code;
  ex_redirect_uri := bc_redirect_uri config;
  ex_code_verifier := pa_code_verifier transaction
|}.

Definition complete (callback : AuthorizationCallback) : login (result Principal OidcLoginError) :=
  pure_try id (ok_or (cb_state callback) CallbackRejected) (fun state =>
  if negb (is_valid_oauth_authorization_value state) then Ret (Err CallbackRejected)
  else
    taken ← ask (TakeTransaction state);
    pure_try (fun _ => TransactionStoreUnavailable) taken (fun found =>
    pure_try id (ok_or found StateRejected) (fun transaction =>
    valid ← is_valid_for_state transaction state;
    if negb valid then Ret (Err StateRejected)
    else
      now ← ask UnixSeconds;
      if pending_is_expired transaction now then Ret (Err TransactionExpired)
      else
        pure_try id (callback_code callback) (fun code =>
        answer ← ask (Exchange (pa_token_endpoint transaction) (exchange_for transaction code));
        pure_try id (ok_or answer TokenExchangeUnavailable) (fun token_response =>
        pure_try id (ok_or (into_id_token token_response) MissingIdToken) (fun id_token =>
        if (MAX_ID_TOKEN_BYTES <? List.length id_token)%nat then Ret (Err IdentityTokenRejected)
        else
          verified ← ask (VerifyIdToken id_token (pa_nonce transaction));
          pure_try map_id_token_error verified (fun principal => Ret (Ok principal)))))))).

Definition complete_session (callback : AuthorizationCallback) : login (result IssuedSession OidcLoginError) :=
  try_ id (complete callback) (fun principal =>
  established ← ask (EstablishSession principal);
  pure_try (fun _ => SessionUnavailable) established (fun issued => Ret (Ok issued))).
End flow.
Arguments login_call {_ _} E SE _.

(** ** Both stores keep their contract *)

Section in_memory_laws.
Context `{UrlApi}.

Lemma retain_unexpired_Some clock m s p :
  retain_unexpired clock m !! s = Some p -> m !! s = Some p /\ pending_is_expired p (clock s) = false.
Proof. intros [Hm Hp]%map_lookup_filter_Some. done. Qed.

#[export] Instance in_memory_transaction_laws :
  TransactionStoreLaws (fun (st : InMemoryTransactions) s => im_transactions st !! s).
Proof.
  split.
  - intros t st r st' s p (clock & HS). revert HS. unfold in_memory_txn_save.
    destruct (im_poisoned st); [intros [= <- <-]; auto|].
    destruct (is_some _); [intros [= <- <-]; cbn; intros [? _]%retain_unexpired_Some; auto|].
    destruct (_ <=? _)%nat; intros [= <- <-]; cbn; [intros [? _]%retain_unexpired_Some; auto|].
    destruct (decide (s = pa_state t)) as [->|Hs].
    + rewrite lookup_insert_eq. intros [= <-]. auto.
    + rewrite lookup_insert_ne by done. intros [? _]%retain_unexpired_Some. auto.
  - intros s st p st'. cbn. unfold in_memory_txn_take. destruct (im_poisoned st); [done|]. intros [= -> <-]. cbn.
    by rewrite lookup_delete_eq.
  - intros s st r st' s' p. cbn. unfold in_memory_txn_take. destruct (im_poisoned st); [by intros [= <- <-]|].
    intros [= <- <-]. cbn. by intros [_ ?]%lookup_delete_Some.
  - intros st st' s p. cbn. by intros ->.
Qed.

(** Capacity, and what the documentation promises of a collision: a save keeps every
    transaction that its reading of the clock does not find expired, and never replaces one. *)
Lemma in_memory_txn_save_spec clock t st r st' :
  in_memory_txn_save clock t st = (r, st') -> (size (im_transactions st) <= MAX_IN_MEMORY_TRANSACTIONS)%nat ->
  (size (im_transactions st') <= MAX_IN_MEMORY_TRANSACTIONS)%nat /\
  (forall s p, im_transactions st !! s = Some p -> pending_is_expired p (clock s) = false ->
     im_transactions st' !! s = Some p) /\
  (r = Ok tt -> im_transactions st' !! pa_state t = Some t /\
     forall p, im_transactions st !! pa_state t = Some p -> pending_is_expired p (clock (pa_state t)) = true).
Proof.
  unfold in_memory_txn_save. destruct (im_poisoned st); [by intros [= <- <-]|].
  set (live := retain_unexpired clock (im_transactions st)). intros HS HC.
  assert (HL : (size live <= size (im_transactions st))%nat).
  { apply map_subseteq_size, map_filter_subseteq. }
  assert (HK : forall s p, im_transactions st !! s = Some p -> pending_is_expired p (clock s) = false -> live !! s = Some p).
  { intros s p Hp He. by apply map_lookup_filter_Some. }
  destruct (live !! pa_state t) as [old|] eqn:HT; cbn [is_some] in HS.
  { injection HS as <- <-. cbn. split_and!; [lia | done | done]. }
  destruct (_ <=? _)%nat eqn:E; injection HS as <- <-; cbn.
  { split_and!; [lia | done | done]. }
  apply Nat.leb_gt in E. split_and!.
  - rewrite map_size_insert_None by done. lia.
  - intros s p Hp He. specialize (HK s p Hp He). rewrite lookup_insert_ne; [done|]. intros <-. congruence.
  - intros _. rewrite lookup_insert_eq. split; [done|]. intros p Hp. destruct (pending_is_expired p _) eqn:He; [done|].
    specialize (HK _ _ Hp He). congruence.
Qed.
End in_memory_laws.

Section redis_laws.
Context `{UrlLaws, RedisStringLaws, JsonTextLaws}.

Lemma pending_json_read t p : read_serialized_pending (pending_json t) = Some p -> p = t.
Proof.
  unfold read_serialized_pending. intros HR. apply bind_Some in HR as (fields & [= <-] & HR).
  apply bind_Some in HR as (state & [= <-] & HR). apply bind_Some in HR as (nonce & [= <-] & HR).
  apply bind_Some in HR as (verifier & [= <-] & HR). apply bind_Some in HR as (endpoint & HU & HR).
  apply bind_Some in HR as (expires & HE & HR). injection HR as <-.
  apply required_Some in HU as (v & [= <-] & HU). apply reparse in HU as ->.
  apply required_Some in HE as (v & [= <-] & HE). cbn in HE. destruct (_ && _); [|done]. injection HE as <-.
  by destruct t.
Qed.

Lemma transaction_key_inj namespace s s' : transaction_key namespace s = transaction_key namespace s' -> s = s'.
Proof. unfold transaction_key. intros HE. by apply app_inv_head, app_inv_head in HE. Qed.

Definition redis_holds (namespace : str) (st : RedisTransactions) (s : str) : option PendingAuthorization :=
  b ← kv_get (rt_clock st) (transaction_key namespace s) (rt_server st);
  v ← json_parse b;
  read_serialized_pending v.

(** What is written for a transaction reads as that transaction. *)
Lemma encoded_pending_read t b p v :
  encode_json_bounded t MAX_TRANSACTION_RECORD_BYTES = Ok b -> json_parse b = Some v ->
  read_serialized_pending v = Some p -> p = t.
Proof.
  unfold encode_json_bounded. destruct (to_vec_bounded_facts t MAX_TRANSACTION_RECORD_BYTES) as [-> _].
  destruct (_ <=? _)%nat; [destruct (json_fails t)|]; try done. intros [= <-]. cbn [json_writes pending_writer] in *.
  intros ->%parse_text. apply pending_json_read.
Qed.

Lemma redis_transaction_laws namespace :
  @TransactionStoreLaws _ _ _ (redis_transactions namespace) (redis_holds namespace).
Proof.
  split; cbn; unfold redis_holds.
  - intros t st r st' s p (unix & d & HS & HC) HH. rewrite HC in HH. apply bind_Some in HH as (b & HG & HP).
    revert HS. unfold redis_txn_save. destruct (pending_remaining_ttl t unix) as [ttl|].
    2:{ intros [= _ HE]. rewrite <- HE in HG. left. apply bind_Some. by exists b. }
    destruct (set_json_bounded_if_absent _ _ _ _ _ _) as [r' s'] eqn:HS. intros [= _ HE]. rewrite <- HE in HG.
    destruct (store_nx_get _ _ _ _ _ _ _ _ _ _ _ HS (Z.le_refl _) HG) as [HG'|(Hk & He & _)].
    + left. apply bind_Some. by exists b.
    + right. apply transaction_key_inj in Hk. split; [done|]. apply bind_Some in HP as (v & HV & HP).
      by eapply encoded_pending_read.
  - intros s st p st' (unix & d & HT & HC). revert HT. unfold redis_txn_take.
    destruct (take_json_bounded _ _ _ _ _ _) as [r' s'] eqn:HT. intros HE. injection HE as HR HE. rewrite <- HE.
    destruct (take_json_bounded_get _ _ _ _ _ _ _ _ (rt_clock st) [] HT (Z.le_refl _)) as (_ & _ & HM).
    destruct r' as [[x|]|]; cbn in HR; [|done..]. injection HR as ->. destruct HM as (HN & b & HG & HD & _).
    rewrite HC, HN. split; [|done]. rewrite HG. cbn. apply bind_Some in HD as (v & HV & HD). rewrite HV. cbn.
    unfold read_pending in HD. apply bind_Some in HD as (q & HQ & HD). destruct (negb _); [done|]. by injection HD as ->.
  - intros s st r st' s' p (unix & d & HT & HC). rewrite HC. revert HT. unfold redis_txn_take.
    destruct (take_json_bounded _ _ _ _ _ _) as [r' s2] eqn:HT. intros HE. injection HE as _ HE. rewrite <- HE.
    destruct (take_json_bounded_get _ _ _ _ _ _ _ _ (rt_clock st) (transaction_key namespace s') HT (Z.le_refl _)) as (HO & HK & _).
    destruct (decide (s' = s)) as [->|Hs].
    + destruct HK as [->| ->]; [done|]. done.
    + rewrite HO; [done|]. intros Hk. by apply transaction_key_inj in Hk.
  - intros st st' s p [-> Hc] HH. apply bind_Some in HH as (b & HG & HP). apply bind_Some. exists b. split; [|done].
    by eapply get_expires.
Qed.
End redis_laws.
