(* ===== verification/OidcSystem.v ===== *)
(** Logins of one deployment: any number of callers begin and complete logins against one
    transaction store and one session store, interleaved call by call and abandoned anywhere.

    The world has the two stores and, as ghost state, the log of what the calls did. What
    the provider, the generator, the clock and the verifier answer is arbitrary. *)

From Stdlib Require Import ZArith Lia Bool Ascii.
From stdpp Require Import gmap sets relations.
From S2P Require Import Prelude Strings BTree Uuid Http HttpModel Core Json RedisCache Auth Session JsonValue Identity Oidc Effects OidcLogin.

Local Open Scope Z_scope.

Section logins.
Context `{HttpApi, UrlApi, EncodingApi, UuidApi} `{!Serialize ErrorPayload}.
Context {St E : Type} `{!AuthorizationTransactionStore St E}.
Context (holds : St -> str -> option PendingAuthorization) `{!TransactionStoreLaws holds}.
Context {SS SE : Type} `{!SessionStore SS SE}.
Context (config : OidcBrowserConfig) (cookies : SessionCookieConfig).

(** ** Worlds *)

Inductive event : Type :=
| Discovered (m : OidcProviderMetadata)
| Saved (t : PendingAuthorization)
| Took (t : PendingAuthorization)
| Exchanged (endpoint : Url) (request : OidcTokenExchangeRequest) (answer : option OidcTokenResponse)
| Verified (token nonce : str) (p : Principal)
| Started (p : Principal) (issued : IssuedSession).

Record LoginWorld : Type := { lw_store : St; lw_sessions : SS; lw_log : list (nat * event) }.

Definition logged (es : list (nat * event)) (w : LoginWorld) : LoginWorld :=
  {| lw_store := lw_store w; lw_sessions := lw_sessions w; lw_log := lw_log w ++ es |}.
Definition with_store (st : St) (w : LoginWorld) : LoginWorld :=
  {| lw_store := st; lw_sessions := lw_sessions w; lw_log := lw_log w |}.
Definition with_sessions (ss : SS) (w : LoginWorld) : LoginWorld :=
  {| lw_store := lw_store w; lw_sessions := ss; lw_log := lw_log w |}.

(** A save is logged whatever its answer: it may have taken effect. *)
Definition login_answered (i : nat) {X} (c : login_call E SE X) : LoginWorld -> X -> LoginWorld -> Prop :=
  match c in login_call _ _ X return LoginWorld -> X -> LoginWorld -> Prop with
  | Discover _ => fun w x w' =>
      w' = logged (match x with Some m => [(i, Discovered m)] | None => [] end) w
  | Generate => fun w _ w' => w' = w
  | UnixSeconds => fun w x w' => 0 <= x <= u64_max /\ w' = w
  | SaveTransaction t => fun w x w' => exists st, ts_save t (lw_store w) x st /\ w' = logged [(i, Saved t)] (with_store st w)
  | TakeTransaction s => fun w x w' => exists st, ts_take s (lw_store w) x st /\
      w' = logged (match x with Ok (Some t) => [(i, Took t)] | _ => [] end) (with_store st w)
  | Exchange endpoint request => fun w x w' => w' = logged [(i, Exchanged endpoint request x)] w
  | VerifyIdToken token nonce => fun w x w' =>
      w' = logged (match x with Ok p => [(i, Verified token nonce p)] | Err _ => [] end) w
  | EstablishSession p => fun w x w' => exists now fresh_id fresh_csrf ss,
      establish cookies p now fresh_id fresh_csrf (lw_sessions w) = (Some x, ss) /\
      w' = logged (match x with Ok issued => [(i, Started p issued)] | Err _ => [] end) (with_sessions ss w)
  end.

(** Transactions expire; other requests use the sessions. *)
Inductive login_background : LoginWorld -> LoginWorld -> Prop :=
| bg_elapses w st : ts_elapses (lw_store w) st -> login_background w (with_store st w)
| bg_sessions w ss : login_background w (with_sessions ss w).

(** ** Callers *)

Inductive Client : Type :=
| Begin
| Complete (callback : AuthorizationCallback)
| CompleteSession (callback : AuthorizationCallback).

Inductive Outcome : Type :=
| Redirected (r : AuthorizationRedirect)
| LoggedIn (p : Principal)
| SessionIssued (issued : IssuedSession)
| Failed (e : OidcLoginError).

Definition outcome {A} (ok : A -> Outcome) (r : result A OidcLoginError) : Outcome :=
  match r with Ok a => ok a | Err e => Failed e end.

Definition login_prog (c : Client) : program (login_call E SE) Outcome :=
  match c with
  | Begin => r ← begin_login config; Ret (outcome Redirected r)
  | Complete callback => r ← complete config callback; Ret (outcome LoggedIn r)
  | CompleteSession callback => r ← complete_session config callback; Ret (outcome SessionIssued r)
  end.

Notation login_system := (@system (login_call E SE) LoginWorld Client Outcome).

Definition login_step : login_system -> login_system -> Prop :=
  step login_prog (fun i _ X c => @login_answered i X c) login_background.

Definition login_initial (st : St) (ss : SS) : login_system :=
  {| world := {| lw_store := st; lw_sessions := ss; lw_log := [] |}; callers := [] |}.

(** ** What the log means *)

(** What caller [i] did, in order. *)
Definition did (i : nat) (log : list (nat * event)) : list event :=
  omap (fun '(j, e) => if decide (j = i) then Some e else None) log.

Definition saves (s : str) (log : list (nat * event)) : nat :=
  List.length (List.filter (fun '(_, e) => match e with Saved t => str_eqb (pa_state t) s | _ => false end) log).
Definition takes (s : str) (log : list (nat * event)) : list (nat * event) :=
  List.filter (fun '(_, e) => match e with Took t => str_eqb (pa_state t) s | _ => false end) log.

#[local] Arguments did : simpl never.
#[local] Arguments saves : simpl never.
#[local] Arguments takes : simpl never.

(** A transaction made for a validated provider. *)
Definition transaction_for (m : OidcProviderMetadata) (t : PendingAuthorization) : Prop :=
  metadata_validate config m = Ok tt /\ pa_token_endpoint t = md_token_endpoint m /\ has_valid_values t = true.

(** The traces of callers. *)
Inductive trace_ok : list event -> Prop :=
| tr_nil : trace_ok []
| tr_discovered m : trace_ok [Discovered m]
| tr_saved m t : transaction_for m t -> trace_ok [Discovered m; Saved t]
| tr_took t : trace_ok [Took t]
| tr_exchanged t code a :
    trace_ok [Took t; Exchanged (pa_token_endpoint t) (exchange_for config t code) a]
| tr_verified t code answer token p :
    into_id_token answer = Some token ->
    trace_ok [Took t; Exchanged (pa_token_endpoint t) (exchange_for config t code) (Some answer);
              Verified token (pa_nonce t) p]
| tr_started t code answer token p issued :
    into_id_token answer = Some token ->
    trace_ok [Took t; Exchanged (pa_token_endpoint t) (exchange_for config t code) (Some answer);
              Verified token (pa_nonce t) p; Started p issued].

Record login_inv (w : LoginWorld) : Prop := {
  li_traces : forall i, trace_ok (did i (lw_log w));
  li_held : forall s p, holds (lw_store w) s = Some p -> pa_state p = s /\ exists j, (j, Saved p) ∈ lw_log w;
  li_taken : forall i t, (i, Took t) ∈ lw_log w -> exists j, (j, Saved t) ∈ lw_log w;
  li_once : forall s,
    (List.length (takes s (lw_log w)) + (if is_some (holds (lw_store w) s) then 1 else 0) <= saves s (lw_log w))%nat
}.

Definition login_rely (i : nat) (w w' : LoginWorld) : Prop :=
  lw_log w `prefix_of` lw_log w' /\ did i (lw_log w') = did i (lw_log w).
Definition login_guarantee (w w' : LoginWorld) : Prop := lw_log w `prefix_of` lw_log w'.

(** ** Lemmas: the log *)

Lemma did_app i l l' : did i (l ++ l') = did i l ++ did i l'.
Proof. apply omap_app. Qed.
Lemma did_own i e : did i [(i, e)] = [e].
Proof. unfold did. cbn. by rewrite decide_True. Qed.
Lemma did_other i j e : i <> j -> did j [(i, e)] = [].
Proof. intros Hij. unfold did. cbn. by rewrite decide_False. Qed.
Lemma did_elem i e log : e ∈ did i log <-> (i, e) ∈ log.
Proof.
  unfold did. rewrite list_elem_of_omap. split.
  - intros ([j e'] & Hin & HE). destruct (decide (j = i)) as [->|]; [|done]. by injection HE as ->.
  - intros Hin. exists (i, e). split; [done|]. by rewrite decide_True.
Qed.
Lemma saves_app s l l' : saves s (l ++ l') = (saves s l + saves s l')%nat.
Proof. unfold saves. by rewrite List.filter_app, length_app. Qed.
Lemma takes_app s l l' : takes s (l ++ l') = takes s l ++ takes s l'.
Proof. apply List.filter_app. Qed.

#[local] Instance login_rely_preorder i : PreOrder (login_rely i).
Proof.
  split; [by split|]. intros w1 w2 w3 [HP HD] [HP' HD']. split; [by etrans | by rewrite HD'].
Qed.
#[local] Instance login_guarantee_preorder : PreOrder login_guarantee.
Proof.
  unfold login_guarantee. split; [intros w; by exists []; rewrite app_nil_r|]. intros w1 w2 w3 HP HP'. by etrans.
Qed.

Lemma logged_nil w : logged [] w = w.
Proof. destruct w. unfold logged. cbn. by rewrite app_nil_r. Qed.

(** ** Lemmas: the calls keep the invariant *)

Lemma traces_extend i e log :
  (forall j, trace_ok (did j log)) -> trace_ok (did i log ++ [e]) -> forall j, trace_ok (did j (log ++ [(i, e)])).
Proof.
  intros HT Hi j. rewrite did_app. destruct (decide (i = j)) as [<-|Hij]; [by rewrite did_own|].
  by rewrite (did_other i j) by done; rewrite app_nil_r.
Qed.

Definition ledger_event (e : event) : bool := match e with Saved _ | Took _ => true | _ => false end.

Lemma log_keeps_inv i e w :
  login_inv w -> ledger_event e = false -> trace_ok (did i (lw_log w) ++ [e]) -> login_inv (logged [(i, e)] w).
Proof.
  intros [HT HH HK HO] He Hi. split; cbn [lw_log lw_store lw_sessions logged with_store with_sessions].
  - by apply traces_extend.
  - intros s p Hs. destruct (HH s p Hs) as (Hp & j & Hj). split; [done|]. exists j. apply elem_of_app. by left.
  - intros j t [Hj|Hj%list_elem_of_singleton]%elem_of_app.
    + destruct (HK j t Hj) as (k & Hk). exists k. apply elem_of_app. by left.
    + injection Hj as -> <-. done.
  - intros s. rewrite saves_app, takes_app. specialize (HO s). rewrite length_app.
    assert (takes s [(i, e)] = [] /\ saves s [(i, e)] = 0%nat) as [-> ->] by (by destruct e). cbn. lia.
Qed.

Lemma save_keeps_inv i t r st w :
  login_inv w -> ts_save t (lw_store w) r st -> trace_ok (did i (lw_log w) ++ [Saved t]) ->
  login_inv (logged [(i, Saved t)] (with_store st w)).
Proof.
  intros [HT HH HK HO] HS Hi. split; cbn [lw_log lw_store lw_sessions logged with_store with_sessions].
  - by apply traces_extend.
  - intros s p Hp. destruct (save_holds _ _ _ _ _ _ HS Hp) as [Hp'|[-> ->]].
    + destruct (HH s p Hp') as (Hs & j & Hj). split; [done|]. exists j. apply elem_of_app. by left.
    + split; [done|]. exists i. apply elem_of_app. right. by apply list_elem_of_singleton.
  - intros j q [Hj|Hj%list_elem_of_singleton]%elem_of_app; [|done].
    destruct (HK j q Hj) as (k & Hk). exists k. apply elem_of_app. by left.
  - intros s. rewrite saves_app, takes_app, length_app. specialize (HO s). change (takes s [(i, Saved t)]) with (@nil (nat * event)).
    assert (HS' : saves s [(i, Saved t)] = if str_eqb (pa_state t) s then 1%nat else 0%nat) by (unfold saves, takes; cbn; by destruct (str_eqb _ _)).
    rewrite HS'. cbn [List.length]. destruct (holds st s) as [p|] eqn:Hp; cbn [is_some].
    + destruct (save_holds _ _ _ _ _ _ HS Hp) as [Hp'|[-> _]].
      * rewrite Hp' in HO. cbn in HO. destruct (str_eqb _ _); lia.
      * rewrite (proj2 (str_eqb_true _ _) eq_refl). destruct (is_some _); lia.
    + destruct (is_some (holds (lw_store w) s)), (str_eqb _ _); lia.
Qed.

Lemma take_keeps_inv i s r st w :
  login_inv w -> ts_take s (lw_store w) r st ->
  (forall t, r = Ok (Some t) -> trace_ok (did i (lw_log w) ++ [Took t])) ->
  login_inv (logged (match r with Ok (Some t) => [(i, Took t)] | _ => [] end) (with_store st w)).
Proof.
  intros [HT HH HK HO] HS Hi.
  assert (HN : (forall t, r <> Ok (Some t)) -> login_inv (with_store st w)).
  { intros _. split; cbn [lw_log lw_store lw_sessions logged with_store with_sessions]; [done | | done |].
    - intros s' p Hp. apply HH. by eapply take_holds.
    - intros s'. specialize (HO s'). destruct (holds st s') as [p|] eqn:Hp; cbn [is_some].
      + by rewrite (take_holds _ _ _ _ _ _ HS Hp) in HO.
      + destruct (is_some (holds (lw_store w) s')); lia. }
  destruct r as [[t|]|e]; [|rewrite logged_nil; by apply HN..]. clear HN. specialize (Hi t eq_refl).
  destruct (take_returns _ _ _ _ HS) as [Ht Hn]. destruct (HH s t Ht) as (Hs & k & Hk). subst s. split; cbn [lw_log lw_store lw_sessions logged with_store with_sessions].
  - by apply traces_extend.
  - intros s' p Hp. apply (take_holds _ _ _ _ _ _ HS) in Hp. destruct (HH s' p Hp) as (Hs' & j & Hj). split; [done|].
    exists j. apply elem_of_app. by left.
  - intros j q [Hj|Hj%list_elem_of_singleton]%elem_of_app.
    + destruct (HK j q Hj) as (k' & Hk'). exists k'. apply elem_of_app. by left.
    + injection Hj as -> ->. exists k. apply elem_of_app. by left.
  - intros s'. rewrite saves_app, takes_app, length_app. specialize (HO s'). change (saves s' [(i, Took t)]) with 0%nat.
    assert (HL : List.length (takes s' [(i, Took t)]) = if str_eqb (pa_state t) s' then 1%nat else 0%nat)
      by (unfold saves, takes; cbn; by destruct (str_eqb _ _)).
    rewrite HL. destruct (str_eqb (pa_state t) s') eqn:He.
    + apply str_eqb_true in He as <-. rewrite Hn. rewrite Ht in HO. cbn in *. lia.
    + destruct (holds st s') as [p|] eqn:Hp; cbn [is_some].
      * rewrite (take_holds _ _ _ _ _ _ HS Hp) in HO. cbn in HO. lia.
      * destruct (is_some (holds (lw_store w) s')); lia.
Qed.

Lemma elapses_keeps_inv st w : login_inv w -> ts_elapses (lw_store w) st -> login_inv (with_store st w).
Proof.
  intros [HT HH HK HO] HE. split; cbn [lw_log lw_store lw_sessions logged with_store with_sessions]; [done | | done |].
  - intros s p Hp. apply HH. by eapply elapses_holds.
  - intros s. specialize (HO s). destruct (holds st s) as [p|] eqn:Hp; cbn [is_some].
    + by rewrite (elapses_holds _ _ _ _ HE Hp) in HO.
    + destruct (is_some (holds (lw_store w) s)); lia.
Qed.

(** ** The programs *)

Notation lwp i := (wp (login_rely i) (fun X c => @login_answered i X c) login_inv login_guarantee).

Lemma guarantee_logged es st ss w :
  login_guarantee w {| lw_store := st; lw_sessions := ss; lw_log := lw_log w ++ es |}.
Proof. by exists es. Qed.

Section calls.
Context {A : Type} (i : nat) (es : list event) (Q : A -> LoginWorld -> Prop).

(** A call after which the caller's trace is [es'] and whose effect keeps the invariant. *)
Lemma wp_generate (f : str -> program (login_call E SE) A) w :
  did i (lw_log w) = es -> (forall x w2, did i (lw_log w2) = es -> lwp i (f x) Q w2) ->
  lwp i (ask Generate ≫= f) Q w.
Proof.
  intros Hw Hf. apply wp_ask. intros w1 [HP HD] HI x w2 ->. split_and!; [reflexivity | done |].
  apply Hf. by rewrite HD.
Qed.

Lemma wp_unix_seconds (f : Z -> program (login_call E SE) A) w :
  did i (lw_log w) = es -> (forall x w2, 0 <= x <= u64_max -> did i (lw_log w2) = es -> lwp i (f x) Q w2) ->
  lwp i (ask UnixSeconds ≫= f) Q w.
Proof.
  intros Hw Hf. apply wp_ask. intros w1 [HP HD] HI x w2 [Hx ->]. split_and!; [reflexivity | done |].
  apply Hf; [done | by rewrite HD].
Qed.

Lemma wp_log_one e (r : bool) w1 :
  did i (lw_log w1) = es -> login_inv w1 -> ledger_event e = false -> trace_ok (es ++ [e]) ->
  let w2 := logged (if r then [(i, e)] else []) w1 in
  login_guarantee w1 w2 /\ login_inv w2 /\ did i (lw_log w2) = es ++ (if r then [e] else []).
Proof.
  intros Hw HI He HT w2. subst w2. split_and!; [apply guarantee_logged | |].
  - destruct r; [|by rewrite logged_nil]. apply log_keeps_inv; [done..|]. by rewrite Hw.
  - cbn. rewrite did_app, Hw. destruct r; [by rewrite did_own | done].
Qed.

Lemma wp_discover issuer (f : option OidcProviderMetadata -> program (login_call E SE) A) w :
  did i (lw_log w) = es -> (forall m, trace_ok (es ++ [Discovered m])) ->
  (forall x w2, did i (lw_log w2) = es ++ match x with Some m => [Discovered m] | None => [] end -> lwp i (f x) Q w2) ->
  lwp i (ask (Discover issuer) ≫= f) Q w.
Proof.
  intros Hw HT Hf. apply wp_ask. intros w1 [HP HD] HI x w2 ->. rewrite Hw in HD. destruct x as [m|].
  - destruct (wp_log_one (Discovered m) true w1 HD HI eq_refl (HT m)) as (HG & HI' & HD'). auto.
  - rewrite logged_nil. split_and!; [reflexivity | done |]. apply Hf. by rewrite HD, app_nil_r.
Qed.

Lemma wp_exchange endpoint request (f : option OidcTokenResponse -> program (login_call E SE) A) w :
  did i (lw_log w) = es -> (forall a, trace_ok (es ++ [Exchanged endpoint request a])) ->
  (forall x w2, did i (lw_log w2) = es ++ [Exchanged endpoint request x] -> lwp i (f x) Q w2) ->
  lwp i (ask (Exchange endpoint request) ≫= f) Q w.
Proof.
  intros Hw HT Hf. apply wp_ask. intros w1 [HP HD] HI x w2 ->. rewrite Hw in HD.
  destruct (wp_log_one (Exchanged endpoint request x) true w1 HD HI eq_refl (HT x)) as (HG & HI' & HD'). auto.
Qed.

Lemma wp_verify token nonce (f : result Principal AuthError -> program (login_call E SE) A) w :
  did i (lw_log w) = es -> (forall p, trace_ok (es ++ [Verified token nonce p])) ->
  (forall x w2, did i (lw_log w2) = es ++ match x with Ok p => [Verified token nonce p] | Err _ => [] end ->
     lwp i (f x) Q w2) ->
  lwp i (ask (VerifyIdToken token nonce) ≫= f) Q w.
Proof.
  intros Hw HT Hf. apply wp_ask. intros w1 [HP HD] HI x w2 ->. rewrite Hw in HD. destruct x as [p|e].
  - destruct (wp_log_one (Verified token nonce p) true w1 HD HI eq_refl (HT p)) as (HG & HI' & HD'). auto.
  - rewrite logged_nil. split_and!; [reflexivity | done |]. apply Hf. by rewrite HD, app_nil_r.
Qed.

Lemma sessions_keep_inv ss w : login_inv w -> login_inv (with_sessions ss w).
Proof. by intros [HT HH HK HO]. Qed.

Lemma wp_establish p (f : result IssuedSession SE -> program (login_call E SE) A) w :
  did i (lw_log w) = es -> (forall issued, trace_ok (es ++ [Started p issued])) ->
  (forall x w2, did i (lw_log w2) = es ++ match x with Ok issued => [Started p issued] | Err _ => [] end ->
     lwp i (f x) Q w2) ->
  lwp i (ask (EstablishSession p) ≫= f) Q w.
Proof.
  intros Hw HT Hf. apply wp_ask. intros w1 [HP HD] HI x w2 (now & id & csrf & ss & _ & ->). rewrite Hw in HD.
  apply (sessions_keep_inv ss) in HI. destruct x as [issued|e].
  - destruct (wp_log_one (Started p issued) true (with_sessions ss w1) HD HI eq_refl (HT issued)) as (HG & HI' & HD').
    split_and!; [by exists [(i, Started p issued)] | done | auto].
  - rewrite logged_nil. split_and!; [by exists []; rewrite app_nil_r | done |]. apply Hf. cbn. by rewrite HD, app_nil_r.
Qed.

Lemma wp_save t (f : result unit E -> program (login_call E SE) A) w :
  did i (lw_log w) = es -> trace_ok (es ++ [Saved t]) ->
  (forall x w2, did i (lw_log w2) = es ++ [Saved t] -> lwp i (f x) Q w2) ->
  lwp i (ask (SaveTransaction t) ≫= f) Q w.
Proof.
  intros Hw HT Hf. apply wp_ask. intros w1 [HP HD] HI x w2 (st & HS & ->). rewrite Hw in HD. split_and!.
  - by exists [(i, Saved t)].
  - eapply save_keeps_inv; [done..|]. by rewrite HD.
  - apply Hf. cbn. by rewrite did_app, HD, did_own.
Qed.

Lemma wp_take s (f : result (option PendingAuthorization) E -> program (login_call E SE) A) w :
  did i (lw_log w) = es -> (forall t, trace_ok (es ++ [Took t])) ->
  (forall x w2, did i (lw_log w2) = es ++ match x with Ok (Some t) => [Took t] | _ => [] end -> lwp i (f x) Q w2) ->
  lwp i (ask (TakeTransaction s) ≫= f) Q w.
Proof.
  intros Hw HT Hf. apply wp_ask. intros w1 [HP HD] HI x w2 (st & HS & ->). rewrite Hw in HD. split_and!.
  - eexists. reflexivity.
  - eapply take_keeps_inv; [done..|]. intros t _. by rewrite HD.
  - apply Hf. cbn. rewrite did_app, HD. f_equal. destruct x as [[t|]|]; [by rewrite did_own | done..].
Qed.
End calls.

(** A redirect carries the state and nonce of the saved transaction and the challenge of its
    verifier to the validated provider. *)
Definition begun (i : nat) (r : result AuthorizationRedirect OidcLoginError) (w : LoginWorld) : Prop :=
  match r with
  | Err _ => True
  | Ok redirect => exists m t, did i (lw_log w) = [Discovered m; Saved t] /\ transaction_for m t /\
      ar_location redirect =
        url_extend_pairs (authorization_parameters config (pa_state t) (pa_nonce t) (pa_code_verifier t))
          (md_authorization_endpoint m)
  end.

Lemma wp_discover_provider i w :
  did i (lw_log w) = [] ->
  lwp i (discover_provider config) (fun r w' =>
    match r with
    | Err _ => True
    | Ok m => did i (lw_log w') = [Discovered m] /\ metadata_validate config m = Ok tt
    end) w.
Proof.
  intros Hw. unfold discover_provider. eapply wp_discover; [done | constructor |]. intros [m|] w2 Hw2; [|done].
  apply wp_pure_try. cbn [ok_or]. apply wp_pure_try. by destruct (metadata_validate config m) as [[]|] eqn:HM.
Qed.

Lemma wp_begin i w : did i (lw_log w) = [] -> lwp i (begin_login config) (begun i) w.
Proof.
  intros Hw. unfold begin_login. apply wp_try. eapply wp_mono; [|by apply wp_discover_provider].
  intros [m|e] w1; [|done]. intros [Hw1 HM].
  eapply wp_generate; [done|]. intros state w2 Hw2. eapply wp_generate; [done|]. intros nonce w3 Hw3.
  eapply wp_generate; [done|]. intros verifier w4 Hw4. destruct (_ || _) eqn:HV; [done|].
  apply orb_false_iff in HV as [[HV1 HV2]%orb_false_iff HV3]. apply negb_false_iff in HV1, HV2, HV3.
  apply wp_pure_try. unfold authorization_redirect_new. destruct (_ <? _)%nat; [done|].
  destruct (hv_from_str _) as [header|]; [|done]. cbn [ok_or].
  eapply wp_unix_seconds; [done|]. intros now w5 Hnow Hw5. cbv zeta.
  assert (HF : forall expires, transaction_for m {| pa_state := state; pa_nonce := nonce; pa_code_verifier := verifier;
     pa_token_endpoint := md_token_endpoint m; pa_expires_at := expires |}).
  { intros expires. split_and!; [done..|]. unfold has_valid_values. cbn. rewrite HV1, HV2, HV3. cbn.
    unfold metadata_validate in HM. destruct (url_parse _); [|done].
    destruct (is_valid_https_url (md_token_endpoint m)); [done|]. by rewrite !orb_true_r in HM. }
  eapply wp_save; [done | cbn; by constructor |]. intros [[]|e] w6 Hw6; [|done].
  exists m. eexists. split_and!; [exact Hw6 | apply HF | done].
Qed.

(** A completed login: the transaction the callback named was consumed, its code was exchanged
    once, at its endpoint and with its verifier, and the ID token was verified with its nonce. *)
Definition completed (i : nat) (callback : AuthorizationCallback) (p : Principal) (w : LoginWorld) (rest : list event) : Prop :=
  exists t code answer token,
    did i (lw_log w) =
      [Took t; Exchanged (pa_token_endpoint t) (exchange_for config t code) (Some answer); Verified token (pa_nonce t) p] ++ rest /\
    cb_state callback = Some (pa_state t) /\ cb_code callback = Some code /\ into_id_token answer = Some token.

Lemma wp_is_valid_for_state i es t s w :
  did i (lw_log w) = es ->
  lwp i (is_valid_for_state t s) (fun valid w' => did i (lw_log w') = es /\ (valid = true -> pa_state t = s)) w.
Proof.
  intros Hw. unfold is_valid_for_state. destruct (str_eqb _ _ && _) eqn:HV; [|done].
  apply andb_true_iff in HV as [HS%str_eqb_true _]. eapply wp_unix_seconds; [done|]. by intros now w2 _ Hw2.
Qed.

Lemma callback_code_Ok callback code : callback_code callback = Ok code -> cb_code callback = Some code.
Proof.
  unfold callback_code. repeat match goal with |- (if ?b then _ else _) = _ -> _ => destruct b; [done|] end.
  destruct (cb_code callback) as [c|]; cbn [ok_or]; [|done]. destruct (negb _); [done|]. by intros [= ->].
Qed.

Lemma wp_complete i callback w :
  did i (lw_log w) = [] ->
  lwp i (complete config callback) (fun r w' =>
    match r with Ok p => completed i callback p w' [] | Err _ => True end) w.
Proof.
  intros Hw. unfold complete. apply wp_pure_try. destruct (cb_state callback) as [s|] eqn:HS; [|done]. cbn [ok_or].
  destruct (negb _); [done|]. eapply wp_take; [done | constructor |]. intros [[t|]|e] w1 Hw1; [|done..].
  apply wp_pure_try. cbn [app] in Hw1. apply wp_pure_try. cbn [ok_or]. apply wp_bind.
  eapply wp_mono; [|by eapply wp_is_valid_for_state]. intros valid w2 [Hw2 Hv]. destruct valid; [|done]. cbn [negb].
  specialize (Hv eq_refl). subst s. eapply wp_unix_seconds; [done|]. intros now w3 _ Hw3.
  destruct (pending_is_expired t now); [done|]. apply wp_pure_try.
  destruct (callback_code callback) as [code|] eqn:HC; [|done].
  eapply wp_exchange; [done | constructor |]. intros [answer|] w4 Hw4; apply wp_pure_try; cbn [ok_or]; [|done].
  apply wp_pure_try. destruct (into_id_token answer) as [token|] eqn:HT; [|done]. cbn [ok_or].
  destruct (_ <? _)%nat; [done|]. eapply wp_verify; [done | intros p; by constructor |].
  intros [p|e] w5 Hw5; apply wp_pure_try; [|done].
  exists t, code, answer, token. split_and!; [by rewrite Hw5 | done | by apply callback_code_Ok | done].
Qed.

Lemma wp_complete_session i callback w :
  did i (lw_log w) = [] ->
  lwp i (complete_session config callback) (fun r w' =>
    match r with Ok issued => exists p, completed i callback p w' [Started p issued] | Err _ => True end) w.
Proof.
  intros Hw. unfold complete_session. apply wp_try. eapply wp_mono; [|by apply wp_complete].
  intros [p|e] w1; [|done]. intros (t & code & answer & token & Hw1 & HS & HC & HT).
  eapply wp_establish; [done | intros issued; by constructor |]. intros [issued|e] w2 Hw2; apply wp_pure_try; [|done].
  exists p, t, code, answer, token. by rewrite Hw2.
Qed.

(** ** The system *)

Definition login_fresh (i : nat) (w : LoginWorld) : Prop := did i (lw_log w) = [].
Definition login_post (c : Client) (i : nat) (o : Outcome) (w : LoginWorld) : Prop :=
  match c, o with
  | Begin, Redirected r => begun i (Ok r) w
  | Complete callback, LoggedIn p => completed i callback p w []
  | CompleteSession callback, SessionIssued issued => exists p, completed i callback p w [Started p issued]
  | _, Failed _ => True
  | _, _ => False
  end.

Lemma answered_others i j X (c : login_call E SE X) w x w' :
  i <> j -> login_answered i c w x w' -> login_rely j w w'.
Proof.
  intros Hij HA.
  assert (exists es, lw_log w' = lw_log w ++ es /\ did j es = []) as (es & Hl & Hd).
  { destruct c; cbn in HA; [..|destruct HA as (now & id & csrf & ss & _ & ->)].
    - subst w'. destruct x as [m|]; eexists; (split; [reflexivity|]); [by apply did_other | done].
    - subst w'. exists []. by rewrite app_nil_r.
    - destruct HA as [_ ->]. exists []. by rewrite app_nil_r.
    - destruct HA as (st & _ & ->). eexists. split; [reflexivity|]. by apply did_other.
    - destruct HA as (st & _ & ->). eexists. split; [reflexivity|]. destruct x as [[t|]|]; [by apply did_other | done..].
    - subst w'. eexists. split; [reflexivity|]. by apply did_other.
    - subst w'. destruct x as [p|]; eexists; (split; [reflexivity|]); [by apply did_other | done].
    - destruct x as [issued|]; eexists; (split; [reflexivity|]); [by apply did_other | done]. }
  split; [by exists es | by rewrite Hl, did_app, Hd, app_nil_r].
Qed.

#[local] Instance login_laws :
  SystemLaws login_prog (fun i _ X c => @login_answered i X c) login_background login_inv login_guarantee
    login_rely login_fresh login_post.
Proof.
  split.
  - intros i c w Hf HI. destruct c as [|cb|cb]; cbn [login_prog]; apply wp_bind.
    + eapply wp_mono; [|by apply wp_begin]. by intros [r|e] w'.
    + eapply wp_mono; [|by apply wp_complete]. by intros [r|e] w'.
    + eapply wp_mono; [|by apply wp_complete_session]. by intros [r|e] w'.
  - intros i j _ X c w x w' Hij HA _. by eapply answered_others.
  - intros i w w' [_ HD] Hf. unfold login_fresh. by rewrite HD.
  - intros w w' HI Hb. assert (HL : lw_log w' = lw_log w) by (by destruct Hb).
    split_and!.
    + destruct Hb; [by apply elapses_keeps_inv | by apply sessions_keep_inv].
    + exists []. by rewrite HL, app_nil_r.
    + intros i. split; [exists []; by rewrite HL, app_nil_r | by rewrite HL].
Qed.

Lemma login_reachable_inv st ss s :
  (forall x, holds st x = None) -> rtc login_step (login_initial st ss) s ->
  system_inv (call:=login_call E SE) (fun i _ X c => @login_answered i X c) login_inv login_guarantee login_rely login_fresh login_post s.
Proof.
  intros Hst Hs. eapply (proj2 (steps_inv _ _ _ _ _ _ _ _ _ _ _ Hs)). Unshelve.
  split; cbn [world callers login_initial]; [|done|done].
  split; cbn [lw_log lw_store]; [intros i; constructor | intros x p Hp; by rewrite Hst in Hp | by intros i t ?%not_elem_of_nil |].
  intros x. by rewrite Hst.
Qed.

(** What a finished caller reported, at the end. *)
Lemma login_finished st ss s i c o :
  (forall x, holds st x = None) -> rtc login_step (login_initial st ss) s ->
  callers s !! i = Some {| th_client := c; th_rest := Ret o |} ->
  login_inv (world s) /\ exists w0, login_rely i w0 (world s) /\ login_post c i o w0.
Proof.
  intros Hst Hs Hi. pose proof (login_reachable_inv st ss s Hst Hs) as HI. split; [apply HI|].
  eapply finished; [exact HI | exact Hi].
Qed.

Lemma completed_mono i cb p w0 w rest : login_rely i w0 w -> completed i cb p w0 rest -> completed i cb p w rest.
Proof.
  intros [_ HD] (t & code & answer & token & Hd & HS & HC & HT). exists t, code, answer, token. by rewrite HD.
Qed.

(** Whoever saved a transaction made it for a provider that passed the validation. *)
Lemma saved_by j t w :
  login_inv w -> (j, Saved t) ∈ lw_log w ->
  exists m, did j (lw_log w) = [Discovered m; Saved t] /\ transaction_for m t.
Proof.
  intros HI Hj%did_elem. pose proof (li_traces _ HI j) as HT. inversion HT as [HE|m HE|m t' HF HE|? HE|? ? ? HE|? ? ? ? ? ? HE|? ? ? ? ? ? ? HE];
    rewrite <- HE in Hj; set_solver.
Qed.

(** A caller takes and exchanges at most once. *)
Lemma exchanged_took i endpoint request a w :
  login_inv w -> (i, Exchanged endpoint request a) ∈ lw_log w ->
  exists t rest, did i (lw_log w) = Took t :: Exchanged endpoint request a :: rest /\ endpoint = pa_token_endpoint t /\
    ex_code_verifier request = pa_code_verifier t /\ Forall (fun e => ledger_event e = false) rest /\
    Forall (fun e => match e with Exchanged _ _ _ => False | _ => True end) rest.
Proof.
  intros HI Hi%did_elem. pose proof (li_traces _ HI i) as HT. inversion HT as [HE|m HE|m t' HF HE|? HE|? ? ? HE|? ? ? ? ? ? HE|? ? ? ? ? ? ? HE];
    rewrite <- HE in Hi; repeat (apply elem_of_cons in Hi as [Hi|Hi]); try done; try (by apply not_elem_of_nil in Hi);
    injection Hi as -> -> ->; eexists _, _; (split; [reflexivity|]); (split_and!; [done | done | |]); by repeat constructor.
Qed.

(** The evidence behind a principal: a validated provider, one transaction made for it and
    consumed by this caller, one exchange of the callback's code at the provider's endpoint with
    the transaction's verifier, and an ID token of the answer verified with its nonce. *)
Definition login_evidence (i : nat) (callback : AuthorizationCallback) (p : Principal) (rest : list event)
    (log : list (nat * event)) : Prop :=
  exists j m t code answer token,
    did j log = [Discovered m; Saved t] /\ metadata_validate config m = Ok tt /\
    cb_state callback = Some (pa_state t) /\ cb_code callback = Some code /\
    did i log = [Took t; Exchanged (md_token_endpoint m) (exchange_for config t code) (Some answer);
                 Verified token (pa_nonce t) p] ++ rest /\
    into_id_token answer = Some token.

Lemma completed_evidence i callback p rest w :
  login_inv w -> completed i callback p w rest -> login_evidence i callback p rest (lw_log w).
Proof.
  intros HI (t & code & answer & token & Hd & HS & HC & HT).
  assert (Ht : (i, Took t) ∈ lw_log w) by (apply did_elem; rewrite Hd; by left).
  destruct (li_taken _ HI i t Ht) as (j & Hj). destruct (saved_by j t w HI Hj) as (m & Hm & HV & HE & _).
  exists j, m, t, code, answer, token. split_and!; [done..| |done]. by rewrite <- HE.
Qed.

(** ** Properties *)

(** C2: whatever callers run beside it and wherever they are abandoned, a completed login has
    its evidence: the callback's state names a transaction that some caller saved after it
    validated the provider's metadata, this caller alone consumed it, exchanged the callback's
    code once, at that provider's token endpoint and with that transaction's PKCE verifier, and
    the returned principal is what the verifier accepted for the ID token of the answer under
    that transaction's nonce. A session is issued only for such a principal, and a redirect
    leads to the validated provider with the state, nonce and challenge of a saved transaction. *)
Theorem login_transaction_bound st ss s i c o :
  (forall x, holds st x = None) -> rtc login_step (login_initial st ss) s ->
  callers s !! i = Some {| th_client := c; th_rest := Ret o |} ->
  match c, o with
  | Complete callback, LoggedIn p => login_evidence i callback p [] (lw_log (world s))
  | CompleteSession callback, SessionIssued issued =>
      exists p, login_evidence i callback p [Started p issued] (lw_log (world s))
  | Begin, Redirected r =>
      exists m t, did i (lw_log (world s)) = [Discovered m; Saved t] /\ metadata_validate config m = Ok tt /\
        ar_location r =
          url_extend_pairs (authorization_parameters config (pa_state t) (pa_nonce t) (pa_code_verifier t))
            (md_authorization_endpoint m)
  | _, Failed _ => True
  | _, _ => False
  end.
Proof.
  intros Hst Hs Hi. destruct (login_finished st ss s i c o Hst Hs Hi) as (HI & w0 & HR & HP).
  destruct c as [|cb|cb], o as [r|p|issued|e]; try done.
  - destruct HP as (m & t & Hd & [HV _] & HL). exists m, t. destruct HR as [_ HD]. by rewrite HD.
  - eapply completed_evidence; [done|]. by eapply completed_mono.
  - destruct HP as (p & HP). exists p. eapply completed_evidence; [done|]. by eapply completed_mono.
Qed.

(** C3: a saved transaction is used at most once. In every reachable state, among callers that
    exchanged a code under the state [x] there are at most as many as transactions were saved
    under [x], one with states that do not repeat; each of them exchanged once, with the
    endpoint and the verifier of a transaction that was saved. *)
Theorem transaction_used_once st ss s x users :
  (forall x, holds st x = None) -> rtc login_step (login_initial st ss) s ->
  NoDup users ->
  (forall i, i ∈ users -> exists t endpoint request a,
     (i, Took t) ∈ lw_log (world s) /\ pa_state t = x /\ (i, Exchanged endpoint request a) ∈ lw_log (world s)) ->
  (List.length users <= saves x (lw_log (world s)))%nat /\
  (forall i endpoint request a, (i, Exchanged endpoint request a) ∈ lw_log (world s) ->
     exists t j rest, (j, Saved t) ∈ lw_log (world s) /\ endpoint = pa_token_endpoint t /\
       ex_code_verifier request = pa_code_verifier t /\
       did i (lw_log (world s)) = Took t :: Exchanged endpoint request a :: rest /\
       Forall (fun e => match e with Exchanged _ _ _ => False | _ => True end) rest).
Proof.
  intros Hst Hs HN HU. pose proof (sys_inv _ _ _ _ _ _ _ (login_reachable_inv st ss s Hst Hs)) as HI. split.
  - etrans; [|etrans; [apply Nat.le_add_r | apply (li_once _ HI x)]].
    rewrite <- (length_map fst). apply submseteq_length, NoDup_submseteq; [done|].
    intros i Hi. destruct (HU i Hi) as (t & _ & _ & _ & Ht & Hx & _). apply list_elem_of_In, in_map_iff.
    exists (i, Took t). split; [done|]. apply filter_In. split; [by apply list_elem_of_In|]. by apply str_eqb_true.
  - intros i endpoint request a Hi. destruct (exchanged_took _ _ _ _ _ HI Hi) as (t & rest & Hd & -> & HV & _ & HF).
    assert (Ht : (i, Took t) ∈ lw_log (world s)) by (apply did_elem; rewrite Hd; by left).
    destruct (li_taken _ HI i t Ht) as (j & Hj). by exists t, j, rest.
Qed.
End logins.

(** ** Examples *)

Module OidcExamples.
Import HttpModel UuidModel OidcModel.

Definition config : OidcBrowserConfig := {|
  bc_issuer := issuer_url; bc_client_id := ##"client"; bc_redirect_uri := endpoint ##"/callback";
  bc_jwks_url := endpoint ##"/keys"; bc_authentication := NoSecret; bc_scopes := {[##"openid"]};
  bc_transaction_ttl := from_secs 600
|}.
Definition cookies : SessionCookieConfig :=
  {| cookie_name := ##"sid"; ttl_seconds := 3600; secure := true; same_site := SameSiteLax |}.
Definition provider : OidcProviderMetadata := {|
  md_issuer := ##"https://issuer.test/"; md_authorization_endpoint := endpoint ##"/authorize";
  md_token_endpoint := endpoint ##"/token"; md_jwks_url := endpoint ##"/keys"
|}.
Definition value : str := List.repeat "v"%char 43.
Definition alice : Principal :=
  {| subject := ##"alice"; issuer := Some ##"https://issuer.test/"; tenant := None; scopes := ∅; roles := ∅; permissions := ∅ |}.

Definition E : Type := InMemoryAuthorizationTransactionStoreError.
Definition SE : Type := InMemorySessionStoreError.
Definition World : Type := @LoginWorld _ _ InMemoryTransactions InMemory.

(** A provider that accepts, at time 1000. *)
Definition answer (i : nat) (X : Type) (c : login_call E SE X) (w : World) : X * World :=
  match c in login_call _ _ X return X * World with
  | Discover _ => (Some provider, logged [(i, Discovered provider)] w)
  | Generate => (value, w)
  | UnixSeconds => (1000, w)
  | SaveTransaction t =>
      let '(r, st) := in_memory_txn_save (fun _ => 1000) t (lw_store w) in
      (r, logged [(i, Saved t)] (with_store st w))
  | TakeTransaction s =>
      let '(r, st) := in_memory_txn_take s (lw_store w) in
      (r, logged (match r with Ok (Some t) => [(i, Took t)] | _ => [] end) (with_store st w))
  | Exchange endpoint request => (Some (Some ##"id"), logged [(i, Exchanged endpoint request (Some (Some ##"id")))] w)
  | VerifyIdToken token nonce => (Ok alice, logged [(i, Verified token nonce alice)] w)
  | EstablishSession p =>
      match establish cookies p 1000 7 8 (lw_sessions w) with
      | (Some r, ss) => (r, logged (match r with Ok issued => [(i, Started p issued)] | Err _ => [] end) (with_sessions ss w))
      | (None, _) => (Err StateUnavailable, w)
      end
  end.

Lemma establish_answers p (ss : InMemory) : exists r ss', establish cookies p 1000 7 8 ss = (Some r, ss').
Proof.
  unfold establish. destruct (save _ _ _) as [[[]|e] ss']; [|by eexists _, _].
  assert (exists v, set_cookie cookies 7 = Some v) as [v Hv] by (eexists; vm_compute; reflexivity).
  cbn [s_id session_new]. rewrite Hv. by eexists _, _.
Qed.

Lemma login_answer_answers i X (c : login_call E SE X) w :
  login_answered cookies i c w (answer i X c w).1 (answer i X c w).2.
Proof.
  destruct c; cbn [answer login_answered]; try done.
  - destruct (in_memory_txn_save _ _ _) as [r st] eqn:HS. exists st. split; [by exists (fun _ => 1000) | done].
  - destruct (in_memory_txn_take _ _) as [r st] eqn:HS. by exists st.
  - destruct (establish_answers principal (lw_sessions w)) as (r & ss' & HE). exists 1000, 7, 8, ss'.
    destruct (establish cookies principal 1000 7 8 (lw_sessions w)) as [o ss2]. by injection HE as -> ->.
Qed.

(** One caller begins, another completes with the state it saw. *)
Definition callback : AuthorizationCallback :=
  {| cb_code := Some ##"code"; cb_state := Some value; cb_error := None; cb_error_description := None |}.
Definition start : @system (login_call E SE) World Client Outcome :=
  login_initial in_memory_transactions_default in_memory_default.
Definition begun_run : Outcome * World := exec (answer 0) (login_prog config Begin) (world start).
Definition completed_run : Outcome * World := exec (answer 1) (login_prog config (CompleteSession callback)) begun_run.2.
Definition final : @system (login_call E SE) World Client Outcome := {|
  world := completed_run.2;
  callers := [{| th_client := Begin; th_rest := Ret begun_run.1 |};
              {| th_client := CompleteSession callback; th_rest := Ret completed_run.1 |}]
|}.

Lemma login_run_steps i c o w (s : @system (login_call E SE) World Client Outcome) :
  callers s !! i = Some {| th_client := c; th_rest := login_prog config c |} ->
  exec (answer i) (login_prog config c) (world s) = (o, w) ->
  rtc (login_step config cookies) s {| world := w; callers := <[i := {| th_client := c; th_rest := Ret o |}]> (callers s) |}.
Proof. intros Hi He. eapply exec_steps; [intros; apply login_answer_answers | exact Hi | exact He]. Qed.

Lemma final_reached : rtc (login_step config cookies) start final.
Proof.
  eapply rtc_l; [apply (step_start _ _ _ _ Begin)|].
  etrans; [exact (login_run_steps 0 Begin _ _ {| world := world start; callers := [{| th_client := Begin; th_rest := _ |}] |}
                    eq_refl (surjective_pairing begun_run))|].
  eapply rtc_l; [apply (step_start _ _ _ _ (CompleteSession callback))|].
  exact (login_run_steps 1 (CompleteSession callback) _ _
    {| world := begun_run.2; callers := [{| th_client := Begin; th_rest := Ret begun_run.1 |};
       {| th_client := CompleteSession callback; th_rest := _ |}] |} eq_refl (surjective_pairing completed_run)).
Qed.

(** The login completes, its cookie is set, and the second use of the state is refused. *)
Definition redirected_to (o : @Outcome _ _) (location : str) : bool :=
  match o with Redirected r => str_eqb (url_as_str (ar_location r)) location | _ => false end.
Definition is_issued (o : @Outcome _ _) : bool := match o with SessionIssued _ => true | _ => false end.
Definition is_refused (o : @Outcome _ _) : bool := match o with Failed StateRejected => true | _ => false end.

Example login_completes :
  redirected_to begun_run.1
    (##"https://issuer.test/authorize?response_type=code&client_id=client&redirect_uri=https://issuer.test/callback&scope=openid&state=" ++ value
     ++ ##"&nonce=" ++ value ++ ##"&code_challenge=" ++ value ++ ##"&code_challenge_method=S256") = true.
Proof. vm_compute. reflexivity. Qed.
Example session_issued : is_issued completed_run.1 = true.
Proof. vm_compute. reflexivity. Qed.
Example replay_refused : is_refused (exec (answer 2) (login_prog config (CompleteSession callback)) completed_run.2).1 = true.
Proof. vm_compute. reflexivity. Qed.

Lemma nothing_held x : im_transactions in_memory_transactions_default !! x = None.
Proof. apply lookup_empty. Qed.

Lemma login_transaction_bound_witness :
  exists issued p, completed_run.1 = SessionIssued issued /\
    login_evidence config 1 callback p [Started p issued] (lw_log completed_run.2).
Proof.
  pose proof (login_transaction_bound (fun st s => im_transactions st !! s) config cookies in_memory_transactions_default
    in_memory_default final 1 (CompleteSession callback) completed_run.1 nothing_held final_reached eq_refl) as HB.
  pose proof session_issued as HO. destruct completed_run.1 as [r|p|issued|e]; [discriminate HO..| |discriminate HO].
  destruct HB as (p & HB). exists issued, p. split; [reflexivity | exact HB].
Defined.

Lemma final_evidence : exists p issued, login_evidence config 1 callback p [Started p issued] (lw_log completed_run.2).
Proof.
  destruct (login_finished (fun st s => im_transactions st !! s) config cookies in_memory_transactions_default
    in_memory_default final 1 (CompleteSession callback) completed_run.1 nothing_held final_reached eq_refl) as (HI & w0 & HR & HP).
  pose proof session_issued as HO. destruct completed_run.1 as [r|p|issued|e]; [done..| |done].
  destruct HP as (p & HP). exists p, issued.
  eapply (completed_evidence (fun st s => im_transactions st !! s)); [exact HI|]. by eapply completed_mono.
Qed.

Lemma transaction_used_once_witness :
  exists users, users = [1%nat] /\ (List.length users <= saves value (lw_log completed_run.2))%nat.
Proof.
  exists [1%nat]. split; [reflexivity|].
  refine (proj1 (transaction_used_once (fun st s => im_transactions st !! s) config cookies in_memory_transactions_default
    in_memory_default final value [1%nat] nothing_held final_reached (NoDup_singleton 1%nat) _)).
  intros i Hi. apply list_elem_of_singleton in Hi. subst i.
  destruct final_evidence as (p & issued & j & m & t & code & answer & token & _ & _ & HS & _ & Hd & _).
  exists t, (md_token_endpoint m), (exchange_for config t code), (Some answer). split; [|split].
  - apply did_elem. change (lw_log (world final)) with (lw_log completed_run.2). rewrite Hd. by left.
  - injection HS as HS. symmetry. exact HS.
  - apply did_elem. change (lw_log (world final)) with (lw_log completed_run.2). rewrite Hd. right. by left.
Defined.
End OidcExamples.
