(* ===== verification/OidcJwks.v ===== *)
(** Tokens verified with the keys of a provider: [crates/rustee-auth-oidc/src/jwks.rs] and
    the ID-token claims of [claims.rs].

    The authenticator is a program over its calls: the cache behind its lock, the refresh
    gate, the fetcher and the clocks. Callers share one authenticator, are interleaved call
    by call, and can be dropped, which releases the gate. Instants are nanoseconds. *)

From Stdlib Require Import ZArith Lia Bool Ascii Sorted.
From stdpp Require Import gmap sets relations.
From S2P Require Import Prelude Strings Core Auth Session JsonValue Identity Oidc Effects.

Local Open Scope Z_scope.

(** ** JSON Web Keys: the [jwk] module of [jsonwebtoken] *)

Inductive KeyAlgorithm : Type := SignatureAlgorithm (a : Algorithm) | EncryptionAlgorithm (name : str).
Inductive PublicKeyUse : Type := UseSignature | UseEncryption | UseOther (name : str).
Inductive KeyOperations : Type := OpSign | OpVerify | OpOther (name : str).
#[export] Instance KeyOperations_eq_dec : EqDecision KeyOperations.
Proof. solve_decision. Defined.

(** [material] stands for the parameters of the key. *)
Record Jwk : Type := {
  key_id : option str;
  key_algorithm : option KeyAlgorithm;
  public_key_use : option PublicKeyUse;
  key_operations : option (list KeyOperations);
  material : bytes
}.

Definition is_compatible_jwk (jwk : Jwk) (algorithm : Algorithm) : bool :=
  match key_algorithm jwk with
  | Some (SignatureAlgorithm a) => is_asymmetric algorithm && bool_decide (a = algorithm)
  | _ => false
  end
  && match public_key_use jwk with None | Some UseSignature => true | _ => false end
  && match key_operations jwk with None => true | Some ops => bool_decide (OpVerify ∈ ops) end.

Section keys.
Context `{JwtApi}.
(** [DecodingKey::from_jwk]. *)
Context (key_from_jwk : Jwk -> option DecodingKey).

(** One iteration of the loop of [compatible_keys]. *)
Definition add_jwk (algorithm : Algorithm) (acc : gmap str DecodingKey * gset str * gset str) (jwk : Jwk) :
    gmap str DecodingKey * gset str * gset str :=
  let '(keys, seen, duplicates) := acc in
  match key_id jwk with
  | None => acc
  | Some kid =>
      if bool_decide (kid ∈ seen) then (keys, seen, {[kid]} ∪ duplicates)
      else
        let keys :=
          if is_compatible_jwk jwk algorithm
          then match key_from_jwk jwk with Some key => <[kid := key]> keys | None => keys end
          else keys in
        (keys, {[kid]} ∪ seen, duplicates)
  end.

Definition compatible_keys (set : list Jwk) (algorithm : Algorithm) : gmap str DecodingKey :=
  let '(keys, _, duplicates) := foldl (add_jwk algorithm) (∅, ∅, ∅) set in
  filter (fun '(kid, _) => kid ∉ duplicates) keys.

(** *** Which keys are kept *)

Definition with_kid (kid : str) (set : list Jwk) : list Jwk :=
  List.filter (fun jwk => bool_decide (key_id jwk = Some kid)) set.

Definition kept (algorithm : Algorithm) (jwk : Jwk) : option DecodingKey :=
  if is_compatible_jwk jwk algorithm then key_from_jwk jwk else None.

Definition scan_inv (algorithm : Algorithm) (set : list Jwk) (acc : gmap str DecodingKey * gset str * gset str) : Prop :=
  let '(keys, seen, duplicates) := acc in
  forall kid, (kid ∈ seen <-> with_kid kid set <> []) /\
    (kid ∈ duplicates <-> (2 <= List.length (with_kid kid set))%nat) /\
    keys !! kid = head (with_kid kid set) ≫= kept algorithm.

Lemma with_kid_snoc kid set jwk :
  with_kid kid (set ++ [jwk]) = with_kid kid set ++ (if decide (key_id jwk = Some kid) then [jwk] else []).
Proof.
  unfold with_kid. rewrite List.filter_app. f_equal. cbn [List.filter].
  destruct (decide _); [rewrite bool_decide_eq_true_2 by done | rewrite bool_decide_eq_false_2 by done]; done.
Qed.

Lemma add_jwk_scan algorithm set acc jwk :
  scan_inv algorithm set acc -> scan_inv algorithm (set ++ [jwk]) (add_jwk algorithm acc jwk).
Proof.
  destruct acc as [[keys seen] duplicates]. intros HI. cbn [add_jwk].
  destruct (key_id jwk) as [k|] eqn:HK.
  2:{ intros kid. rewrite with_kid_snoc, decide_False, app_nil_r by congruence. apply HI. }
  destruct (bool_decide (k ∈ seen)) eqn:HS; bool_hyps; intros kid; rewrite with_kid_snoc, HK;
    specialize (HI kid); destruct HI as (H1 & H2 & H3); (destruct (decide (Some k = Some kid)) as [[= <-]|Hne];
      [|rewrite app_nil_r; assert (kid <> k) by congruence]).
  - destruct (with_kid k set) as [|j l] eqn:HW; [tauto|]. split_and!; [set_solver | | done].
    rewrite length_app. cbn. split; [lia | set_solver].
  - split_and!; [done | set_solver | done].
  - assert (HW : with_kid k set = []) by (destruct (with_kid k set); [done|]; exfalso; apply HS, H1; done).
    rewrite HW in *. cbn in H3 |- *. split_and!; [set_solver | | ].
    + split; [intros Hd%H2; simpl in Hd; lia | lia].
    + unfold kept. destruct (is_compatible_jwk jwk algorithm); [|done].
      destruct (key_from_jwk jwk); [by rewrite lookup_insert_eq | done].
  - split_and!; [set_solver | done |]. destruct (is_compatible_jwk jwk algorithm); [|done].
    destruct (key_from_jwk jwk); [by rewrite lookup_insert_ne | done].
Qed.

Lemma scanned algorithm set : scan_inv algorithm set (foldl (add_jwk algorithm) (∅, ∅, ∅) set).
Proof.
  induction set as [|jwk set IH] using rev_ind.
  - intros kid. cbn. split_and!; [set_solver | split; [set_solver | lia] | by rewrite lookup_empty].
  - rewrite foldl_snoc. by apply add_jwk_scan.
Qed.

(** A key is kept exactly for a key ID that one entry of the set alone carries, if that entry
    is a verification key for the configured algorithm. *)
Lemma compatible_keys_exact set algorithm kid key :
  compatible_keys set algorithm !! kid = Some key <->
  exists jwk, with_kid kid set = [jwk] /\ is_compatible_jwk jwk algorithm = true /\ key_from_jwk jwk = Some key.
Proof.
  unfold compatible_keys. pose proof (scanned algorithm set) as HS.
  destruct (foldl _ _ set) as [[keys seen] duplicates]. destruct (HS kid) as (_ & HD & HK).
  rewrite map_lookup_filter_Some, HK, HD. unfold kept. split.
  - intros [HH HN]. destruct (with_kid kid set) as [|jwk [|? ?]]; [done | | simpl in HN; lia].
    exists jwk. cbn in HH. by destruct (is_compatible_jwk jwk algorithm).
  - intros (jwk & -> & HC & HF). cbn. rewrite HC. split; [done | lia].
Qed.
End keys.

(** ** ID-token claims: [claims.rs] *)

Record IdTokenClaims : Type := {
  id_sub : str; id_iss : str; id_aud : Value; id_expiration : Value; id_not_before : option Value;
  issued_at : Z; nonce : str; authorized_party : option str;
  id_tenant : option str; id_scope : option ScopeClaim;
  id_roles : option StringSetClaim; id_permissions : option StringSetClaim
}.

Definition read_id_token_claims (v : Value) : option IdTokenClaims :=
  fields ← read_object v;
  sub ← required read_string ##"sub" fields;
  iss ← required read_string ##"iss" fields;
  aud ← required Some ##"aud" fields;
  exp ← required Some ##"exp" fields;
  nbf ← optional Some ##"nbf" fields;
  iat ← required read_u64 ##"iat" fields;
  nonce ← required read_string ##"nonce" fields;
  azp ← optional read_string ##"azp" fields;
  tenant ← optional read_string ##"tenant" fields;
  scope ← optional read_scope ##"scope" fields;
  roles ← optional read_string_set ##"roles" fields;
  permissions ← optional read_string_set ##"permissions" fields;
  Some {| id_sub := sub; id_iss := iss; id_aud := aud; id_expiration := exp; id_not_before := nbf;
          issued_at := iat; nonce := nonce; authorized_party := azp; id_tenant := tenant;
          id_scope := scope; id_roles := roles; id_permissions := permissions |}.

Definition matches_browser_login_binding (c : IdTokenClaims) (audience expected_nonce : str) (latest_issued_at : Z) : bool :=
  let has_multiple_audiences :=
    match as_array (id_aud c) with Some audiences => (1 <? List.length audiences)%nat | None => false end in
  (issued_at c <=? latest_issued_at)
  && (negb has_multiple_audiences
      || match authorized_party c with Some party => constant_time_eq party audience | None => false end)
  && constant_time_eq (nonce c) expected_nonce.

Definition id_claims_into_principal (c : IdTokenClaims) : result Principal AuthError :=
  normalize_verified_principal (id_sub c) (id_iss c) (id_tenant c) (id_scope c) (id_roles c) (id_permissions c).

(** ** The cache: [jwks.rs] *)

Inductive RefreshReason : Type := Explicit | ExpiredCache | UnknownKey.
#[export] Instance RefreshReason_eq_dec : EqDecision RefreshReason.
Proof. solve_decision. Defined.

Section jwks.
Context `{JwtApi, UrlApi}.
Context (key_from_jwk : Jwk -> option DecodingKey).

Record JwksCache : Type := {
  keys : gmap str DecodingKey;
  last_successful_refresh : option Z;
  last_refresh_attempt : option Z;
  last_unknown_key_refresh : option Z;
  last_refresh_failed : bool
}.
Definition jwks_cache_default : JwksCache :=
  {| keys := ∅; last_successful_refresh := None; last_refresh_attempt := None; last_unknown_key_refresh := None;
     last_refresh_failed := false |}.

(** [Instant::elapsed] saturates. *)
Definition elapsed (since now : Z) : Duration := saturating_sub now since.

Definition refresh_allowed (c : JwksCache) (minimum : Duration) (now : Z) : bool :=
  match last_refresh_attempt c with None => true | Some t => minimum <=? elapsed t now end.
Definition unknown_key_refresh_allowed (c : JwksCache) (minimum : Duration) (now : Z) : bool :=
  match last_unknown_key_refresh c with None => true | Some t => minimum <=? elapsed t now end.

Inductive CacheLookup : Type :=
| LookupKey (key : DecodingKey)
| LookupMissing
| LookupRefresh (reason : RefreshReason)
| LookupUnavailable.

(** The critical sections of [fetch_and_store]. *)
Definition mark_attempt (reason : RefreshReason) (now : Z) (c : JwksCache) : JwksCache :=
  {| keys := keys c; last_successful_refresh := last_successful_refresh c; last_refresh_attempt := Some now;
     last_unknown_key_refresh :=
       match reason with UnknownKey => Some now | _ => last_unknown_key_refresh c end;
     last_refresh_failed := last_refresh_failed c |}.
Definition store_keys (algorithm : Algorithm) (set : list Jwk) (now : Z) (c : JwksCache) : JwksCache :=
  {| keys := compatible_keys key_from_jwk set algorithm; last_successful_refresh := Some now;
     last_refresh_attempt := last_refresh_attempt c; last_unknown_key_refresh := last_unknown_key_refresh c;
     last_refresh_failed := false |}.
Definition store_failure (c : JwksCache) : JwksCache :=
  {| keys := keys c; last_successful_refresh := last_successful_refresh c;
     last_refresh_attempt := last_refresh_attempt c; last_unknown_key_refresh := last_unknown_key_refresh c;
     last_refresh_failed := true |}.

(** ** The authenticator *)

(** A read of the cache copies what the lookup uses while the lock is held; writes are the
    critical sections above, with the reading of the clock inside. *)
Inductive jwks_call : Type -> Type :=
| ReadCache : jwks_call JwksCache
| Now : jwks_call Z
| MarkAttempt (reason : RefreshReason) : jwks_call unit
| StoreKeys (set : list Jwk) : jwks_call unit
| StoreFailure : jwks_call unit
| Fetch : jwks_call (option (list Jwk))
| LockGate : jwks_call unit
| UnlockGate : jwks_call unit
(** The clock inside [decode], and [SystemTime::now().duration_since(UNIX_EPOCH)]. *)
| DecodeClock : jwks_call Z
| SystemClock : jwks_call (option Z).

Notation jwks := (program jwks_call).
Context (config : OidcResourceServerConfig).

Definition cache_lookup (kid : str) : jwks CacheLookup :=
  cache ← ask ReadCache;
  let key := keys cache !! kid in
  fresh ← match last_successful_refresh cache with
          | None => Ret false
          | Some refreshed_at => now ← ask Now; Ret (elapsed refreshed_at now <? rs_cache_ttl config)
          end;
  match fresh, key with
  | true, Some key => Ret (LookupKey key)
  | _, None =>
      now ← ask Now;
      if negb (unknown_key_refresh_allowed cache (rs_minimum_refresh_interval config) now)
      then Ret (if last_refresh_failed cache then LookupUnavailable else LookupMissing)
      else Ret (LookupRefresh UnknownKey)
  | false, Some _ =>
      now ← ask Now;
      if negb (refresh_allowed cache (rs_minimum_refresh_interval config) now)
      then Ret LookupUnavailable
      else Ret (LookupRefresh ExpiredCache)
  end.

(** The error of the fetcher is not looked at. *)
Definition fetch_and_store (reason : RefreshReason) : jwks (result unit unit) :=
  _ ← ask (MarkAttempt reason);
  fetched ← ask Fetch;
  match fetched with
  | Some set => _ ← ask (StoreKeys set); Ret (Ok tt)
  | None => _ ← ask StoreFailure; Ret (Err tt)
  end.

(** The guard of the gate is dropped when the function returns. *)
Definition refresh : jwks (result unit unit) :=
  _ ← ask LockGate;
  r ← fetch_and_store Explicit;
  _ ← ask UnlockGate;
  Ret r.

Definition key_for (kid : str) : jwks (result (option DecodingKey) unit) :=
  lookup ← cache_lookup kid;
  match lookup with
  | LookupKey key => Ret (Ok (Some key))
  | LookupMissing => Ret (Ok None)
  | LookupUnavailable => Ret (Err tt)
  | LookupRefresh _ =>
      _ ← ask LockGate;
      lookup ← cache_lookup kid;
      r ← match lookup with
          | LookupKey key => Ret (Ok (Some key))
          | LookupMissing => Ret (Ok None)
          | LookupUnavailable => Ret (Err tt)
          | LookupRefresh reason =>
              try_ id (fetch_and_store reason) (fun _ =>
              cache ← ask ReadCache; Ret (Ok (keys cache !! kid)))
          end;
      _ ← ask UnlockGate;
      Ret r
  end.

Definition verification_key (token : str) : jwks (result DecodingKey AuthError) :=
  pure_try id (ok_or (decode_header token) RejectedBearerToken) (fun '(alg, kid) =>
  if negb (bool_decide (alg = rs_algorithm config)) then Ret (Err RejectedBearerToken)
  else
    pure_try id (ok_or kid RejectedBearerToken) (fun kid =>
    try_ (fun _ => AuthProviderUnavailable) (key_for kid) (fun key =>
    Ret (ok_or key RejectedBearerToken)))).

Definition jwks_authenticate (token : str) : jwks (result Principal AuthError) :=
  try_ id (verification_key token) (fun key =>
  now ← ask DecodeClock;
  pure_try id (ok_or (decode read_claims token key (validation config) now) RejectedBearerToken) (fun claims =>
  Ret (claims_into_principal claims))).

Definition verify_id_token (token expected_nonce : str) : jwks (result Principal AuthError) :=
  if negb (nonempty expected_nonce) then Ret (Err RejectedBearerToken)
  else
    try_ id (verification_key token) (fun key =>
    now ← ask DecodeClock;
    pure_try id (ok_or (decode read_id_token_claims token key (id_token_validation config) now) RejectedBearerToken) (fun claims =>
    clock ← ask SystemClock;
    pure_try id (ok_or clock RejectedBearerToken) (fun seconds =>
    let latest_issued_at := saturating_add u64_max seconds (rs_leeway_seconds config) in
    if negb (matches_browser_login_binding claims (rs_audience config) expected_nonce latest_issued_at)
    then Ret (Err RejectedBearerToken)
    else Ret (id_claims_into_principal claims)))).
End jwks.

(** ** Callers of one authenticator *)

Section callers.
Context `{JwtApi, UrlApi}.
Context (key_from_jwk : Jwk -> option DecodingKey).
Context (config : OidcResourceServerConfig).

Record attempt : Type := { at_caller : nat; at_reason : RefreshReason; at_time : Z }.
(** A key set that was fetched, by whom and when. *)
Record answer : Type := { an_caller : nat; an_time : Z; an_set : list Jwk }.

(** The clock, the cache and the gate; as ghost state the callers that were dropped, the
    attempts to refresh, the answers of the provider and the callers' readings of the clock. *)
Record JwksWorld : Type := {
  jw_now : Z;
  jw_cache : JwksCache;
  jw_gate : option nat;
  jw_dropped : gset nat;
  jw_attempts : list attempt;
  jw_answers : list answer;
  jw_readings : list (nat * Z)
}.

Definition with_cache (f : JwksCache -> JwksCache) (w : JwksWorld) : JwksWorld :=
  {| jw_now := jw_now w; jw_cache := f (jw_cache w); jw_gate := jw_gate w; jw_dropped := jw_dropped w;
     jw_attempts := jw_attempts w; jw_answers := jw_answers w; jw_readings := jw_readings w |}.
Definition with_gate (g : option nat) (w : JwksWorld) : JwksWorld :=
  {| jw_now := jw_now w; jw_cache := jw_cache w; jw_gate := g; jw_dropped := jw_dropped w;
     jw_attempts := jw_attempts w; jw_answers := jw_answers w; jw_readings := jw_readings w |}.
Definition attempted (a : attempt) (w : JwksWorld) : JwksWorld :=
  {| jw_now := jw_now w; jw_cache := jw_cache w; jw_gate := jw_gate w; jw_dropped := jw_dropped w;
     jw_attempts := jw_attempts w ++ [a]; jw_answers := jw_answers w; jw_readings := jw_readings w |}.
Definition fetched (a : list answer) (w : JwksWorld) : JwksWorld :=
  {| jw_now := jw_now w; jw_cache := jw_cache w; jw_gate := jw_gate w; jw_dropped := jw_dropped w;
     jw_attempts := jw_attempts w; jw_answers := jw_answers w ++ a; jw_readings := jw_readings w |}.
Definition read_clock (i : nat) (w : JwksWorld) : JwksWorld :=
  {| jw_now := jw_now w; jw_cache := jw_cache w; jw_gate := jw_gate w; jw_dropped := jw_dropped w;
     jw_attempts := jw_attempts w; jw_answers := jw_answers w; jw_readings := jw_readings w ++ [(i, jw_now w)] |}.
Definition at_instant (now : Z) (w : JwksWorld) : JwksWorld :=
  {| jw_now := now; jw_cache := jw_cache w; jw_gate := jw_gate w; jw_dropped := jw_dropped w;
     jw_attempts := jw_attempts w; jw_answers := jw_answers w; jw_readings := jw_readings w |}.
Definition drop_caller (i : nat) (w : JwksWorld) : JwksWorld :=
  {| jw_now := jw_now w; jw_cache := jw_cache w; jw_gate := if decide (jw_gate w = Some i) then None else jw_gate w;
     jw_dropped := {[i]} ∪ jw_dropped w;
     jw_attempts := jw_attempts w; jw_answers := jw_answers w; jw_readings := jw_readings w |}.

(** What an answered call of caller [i] does. A dropped caller makes no calls. *)
Definition jwks_effect (i : nat) {X} (c : jwks_call X) : JwksWorld -> X -> JwksWorld -> Prop :=
  match c in jwks_call X return JwksWorld -> X -> JwksWorld -> Prop with
  | ReadCache => fun w x w' => x = jw_cache w /\ w' = w
  | Now => fun w x w' => x = jw_now w /\ w' = read_clock i w
  | MarkAttempt reason => fun w _ w' =>
      w' = attempted {| at_caller := i; at_reason := reason; at_time := jw_now w |}
             (with_cache (mark_attempt reason (jw_now w)) w)
  | StoreKeys set => fun w _ w' => w' = with_cache (store_keys key_from_jwk (rs_algorithm config) set (jw_now w)) w
  | StoreFailure => fun w _ w' => w' = with_cache store_failure w
  | Fetch => fun w x w' =>
      w' = fetched (match x with Some set => [{| an_caller := i; an_time := jw_now w; an_set := set |}] | None => [] end) w
  | LockGate => fun w _ w' => jw_gate w = None /\ w' = with_gate (Some i) w
  | UnlockGate => fun w _ w' => w' = (if decide (jw_gate w = Some i) then with_gate None w else w)
  | DecodeClock => fun w _ w' => w' = w
  | SystemClock => fun w _ w' => w' = w
  end.
Definition jwks_answered (i : nat) {X} (c : jwks_call X) (w : JwksWorld) (x : X) (w' : JwksWorld) : Prop :=
  i ∉ jw_dropped w /\ jwks_effect i c w x w'.

(** Time passes, and a caller may be dropped: then its guard releases the gate. *)
Inductive jwks_background : JwksWorld -> JwksWorld -> Prop :=
| bg_time w now : jw_now w <= now -> jwks_background w (at_instant now w)
| bg_drop w i : jwks_background w (drop_caller i w).

Inductive JwksClient : Type :=
| Refreshes
| Authenticates (token : str)
| VerifiesIdToken (token expected_nonce : str).

Inductive JwksOutcome : Type :=
| Refreshed (r : result unit unit)
| Answered (r : result Principal AuthError).

Definition jwks_prog (c : JwksClient) : program jwks_call JwksOutcome :=
  match c with
  | Refreshes => r ← refresh; Ret (Refreshed r)
  | Authenticates token => r ← jwks_authenticate config token; Ret (Answered r)
  | VerifiesIdToken token expected_nonce => r ← verify_id_token config token expected_nonce; Ret (Answered r)
  end.

Definition jwks_step :=
  step jwks_prog (fun i _ X c => @jwks_answered i X c) jwks_background.
Definition jwks_initial (now : Z) : @system jwks_call JwksWorld JwksClient JwksOutcome :=
  {| world := {| jw_now := now; jw_cache := jwks_cache_default; jw_gate := None; jw_dropped := ∅; jw_attempts := [];
                 jw_answers := []; jw_readings := [] |};
     callers := [] |}.

(** ** The invariant *)

Notation minimum := (rs_minimum_refresh_interval config).

(** How far an attempt [b] is behind an earlier one [a]. *)
Definition spaced (a b : attempt) : Prop :=
  at_time a <= at_time b /\
  (at_reason b = ExpiredCache -> minimum <= at_time b - at_time a) /\
  (at_reason a = UnknownKey -> at_reason b = UnknownKey -> minimum <= at_time b - at_time a).

Definition unknown_attempts (l : list attempt) : list attempt :=
  List.filter (fun a => bool_decide (at_reason a = UnknownKey)) l.

(** The keys of a cache are those of an answer. *)
Definition cache_answer (w : JwksWorld) (c : JwksCache) (a : answer) (stored : Z) : Prop :=
  a ∈ jw_answers w /\ last_successful_refresh c = Some stored /\ an_time a <= stored <= jw_now w /\
  keys c = compatible_keys key_from_jwk (an_set a) (rs_algorithm config).

Record jwks_inv (w : JwksWorld) : Prop := {
  ji_keys : match last_successful_refresh (jw_cache w) with
            | None => keys (jw_cache w) = ∅
            | Some stored => exists a, cache_answer w (jw_cache w) a stored
            end;
  ji_answers : Forall (fun a => an_time a <= jw_now w) (jw_answers w);
  ji_attempt : last_refresh_attempt (jw_cache w) = option_map at_time (last (jw_attempts w));
  ji_unknown : last_unknown_key_refresh (jw_cache w) = option_map at_time (last (unknown_attempts (jw_attempts w)));
  ji_past : Forall (fun a => at_time a <= jw_now w) (jw_attempts w);
  ji_spaced : StronglySorted spaced (jw_attempts w);
  ji_gate : forall i, jw_gate w = Some i -> i ∉ jw_dropped w
}.

(** The last successful refresh does not go back. *)
Definition refreshed_le (o o' : option Z) : Prop :=
  match o, o' with Some t, Some t' => t <= t' | Some _, None => False | None, _ => True end.

(** Who appends an attempt holds the gate. *)
Record jwks_guarantee (w w' : JwksWorld) : Prop := {
  jg_time : jw_now w <= jw_now w';
  jg_refreshed : refreshed_le (last_successful_refresh (jw_cache w)) (last_successful_refresh (jw_cache w'));
  jg_attempts : exists l, jw_attempts w' = jw_attempts w ++ l /\ Forall (fun a => jw_gate w = Some (at_caller a)) l
}.

(** The gate, once held, is kept, and with it the attempts. *)
Record jwks_rely (i : nat) (w w' : JwksWorld) : Prop := {
  jr_time : jw_now w <= jw_now w';
  jr_refreshed : refreshed_le (last_successful_refresh (jw_cache w)) (last_successful_refresh (jw_cache w'));
  jr_answers : jw_answers w `prefix_of` jw_answers w';
  jr_readings : jw_readings w `prefix_of` jw_readings w';
  jr_dropped : jw_dropped w ⊆ jw_dropped w';
  jr_gate : jw_gate w' = Some i -> jw_gate w = Some i;
  jr_held : i ∉ jw_dropped w' -> jw_gate w = Some i -> jw_gate w' = Some i /\ jw_attempts w' = jw_attempts w
}.

Lemma refreshed_le_refl o : refreshed_le o o.
Proof. destruct o; cbn; lia. Qed.
Lemma refreshed_le_trans o1 o2 o3 : refreshed_le o1 o2 -> refreshed_le o2 o3 -> refreshed_le o1 o3.
Proof. destruct o1, o2, o3; cbn; try done; lia. Qed.
#[local] Hint Resolve refreshed_le_refl : core.

#[local] Instance jwks_rely_preorder i : PreOrder (jwks_rely i).
Proof.
  split.
  - intros w. split; auto; lia.
  - intros w1 w2 w3 [T1 F1 A1 R1 D1 G1 K1] [T2 F2 A2 R2 D2 G2 K2]. split; [lia | by eapply refreshed_le_trans | by etrans.. | auto |].
    intros Hd Hg. destruct K1 as [Hg' Ha]; [set_solver | done |]. destruct K2 as [Hg'' Ha']; [done | done |].
    split; [done | by rewrite Ha'].
Qed.

(** ** Lemmas: attempts *)

Lemma sorted_snoc {A} (R : A -> A -> Prop) l x :
  StronglySorted R l -> Forall (fun a => R a x) l -> StronglySorted R (l ++ [x]).
Proof.
  induction 1 as [|a l Hl IH HF]; intros HX; cbn; [by repeat constructor|]. apply Forall_cons in HX as [Ha HX].
  constructor; [by apply IH|]. apply Forall_app. split; [done | by constructor].
Qed.

Lemma sorted_last {A} (R : A -> A -> Prop) l x a :
  StronglySorted R l -> last l = Some x -> a ∈ l -> a = x \/ R a x.
Proof.
  intros HS Hl Ha. apply last_Some in Hl as [l' ->]. apply elem_of_app in Ha as [Ha|Ha%list_elem_of_singleton]; [|by left].
  right. clear -HS Ha. induction l' as [|b l' IH]; [by apply not_elem_of_nil in Ha|].
  cbn in HS. apply StronglySorted_inv in HS as [HS HF]. apply elem_of_cons in Ha as [->|Ha]; [|by apply IH].
  rewrite Forall_forall in HF. apply HF, elem_of_app. right. by apply list_elem_of_singleton.
Qed.

Lemma unknown_attempts_snoc l a :
  unknown_attempts (l ++ [a]) = unknown_attempts l ++ (if decide (at_reason a = UnknownKey) then [a] else []).
Proof.
  unfold unknown_attempts. rewrite List.filter_app. f_equal. cbn [List.filter].
  destruct (decide _); [rewrite bool_decide_eq_true_2 by done | rewrite bool_decide_eq_false_2 by done]; done.
Qed.
Lemma unknown_attempts_elem l a : a ∈ unknown_attempts l <-> a ∈ l /\ at_reason a = UnknownKey.
Proof. unfold unknown_attempts. rewrite !list_elem_of_In, filter_In, bool_decide_eq_true. done. Qed.
Lemma unknown_attempts_sorted l : StronglySorted spaced l -> StronglySorted spaced (unknown_attempts l).
Proof.
  unfold unknown_attempts. induction 1 as [|a l Hl IH HF]; [constructor|]. cbn [List.filter].
  destruct (bool_decide _); [|done]. constructor; [done|]. rewrite Forall_forall in HF |- *.
  intros x Hx. apply HF. fold (unknown_attempts l) in Hx. by apply unknown_attempts_elem in Hx as [Hx _].
Qed.

(** An attempt for [reason] at the time [t] may follow [a]. *)
Definition may_follow (reason : RefreshReason) (t : Z) (a : attempt) : Prop :=
  (reason = ExpiredCache -> minimum <= t - at_time a) /\
  (reason = UnknownKey -> at_reason a = UnknownKey -> minimum <= t - at_time a).

(** What the cache allows at a reading [t] of the clock, the attempts bear out. *)
Lemma allowed_follows w t :
  jwks_inv w -> jw_now w <= t ->
  (refresh_allowed (jw_cache w) minimum t = true -> Forall (may_follow ExpiredCache t) (jw_attempts w)) /\
  (unknown_key_refresh_allowed (jw_cache w) minimum t = true -> Forall (may_follow UnknownKey t) (jw_attempts w)).
Proof.
  intros HI Ht. pose proof (ji_past _ HI) as HP. rewrite Forall_forall in HP. split.
  - unfold refresh_allowed. rewrite (ji_attempt _ HI). intros HA. apply Forall_forall. intros a Ha. split; [|done]. intros _.
    destruct (last (jw_attempts w)) as [x|] eqn:HL; [|apply last_None in HL; rewrite HL in Ha; by apply not_elem_of_nil in Ha].
    cbn in HA. apply Z.leb_le in HA. unfold elapsed, saturating_sub in HA.
    assert (Hx : x ∈ jw_attempts w) by (apply last_Some in HL as [l ->]; apply elem_of_app; right; by left).
    specialize (HP x Hx). cbn in HP. destruct (sorted_last _ _ _ _ (ji_spaced _ HI) HL Ha) as [->|[Hle _]]; lia.
  - unfold unknown_key_refresh_allowed. rewrite (ji_unknown _ HI). intros HA. apply Forall_forall. intros a Ha. split; [done|].
    intros _ Hu. assert (Ha' : a ∈ unknown_attempts (jw_attempts w)) by (by apply unknown_attempts_elem).
    destruct (last (unknown_attempts (jw_attempts w))) as [x|] eqn:HL;
      [|apply last_None in HL; rewrite HL in Ha'; by apply not_elem_of_nil in Ha'].
    cbn in HA. apply Z.leb_le in HA. unfold elapsed, saturating_sub in HA.
    assert (Hx : x ∈ unknown_attempts (jw_attempts w)) by (apply last_Some in HL as [l ->]; apply elem_of_app; right; by left).
    apply unknown_attempts_elem in Hx as [Hx _]. specialize (HP x Hx). cbn in HP.
    destruct (sorted_last _ _ _ _ (unknown_attempts_sorted _ (ji_spaced _ HI)) HL Ha') as [->|[Hle _]]; lia.
Qed.

(** ** Lemmas: the calls keep the invariant *)

(** The invariant is about the cache, the attempts and the answers, and time may pass. *)
Lemma same_cache_inv w w' :
  jwks_inv w -> jw_cache w' = jw_cache w -> jw_attempts w' = jw_attempts w -> jw_answers w' = jw_answers w ->
  jw_now w <= jw_now w' -> (forall i, jw_gate w' = Some i -> i ∉ jw_dropped w') -> jwks_inv w'.
Proof.
  intros [HK HS HA HU HP HO HL] Hc Ha Hs Ht Hl. split; rewrite ?Hc, ?Ha, ?Hs; try done.
  - destruct (last_successful_refresh (jw_cache w)) as [t|]; [|done]. destruct HK as (a & H1 & H2 & H3 & H4).
    exists a. split_and!; [by rewrite Hs | done | lia | lia | done].
  - eapply Forall_impl; [exact HS|]. cbn. lia.
  - eapply Forall_impl; [exact HP|]. cbn. lia.
Qed.

Lemma fetched_inv l w :
  jwks_inv w -> Forall (fun a => an_time a <= jw_now w) l -> jwks_inv (fetched l w).
Proof.
  intros [HK HS HA HU HP HO HL] Hl. split; cbn; try done; [|by apply Forall_app].
  destruct (last_successful_refresh (jw_cache w)) as [t|]; [|done]. destruct HK as (a & H1 & H2 & H3 & H4).
  exists a. split_and!; [apply elem_of_app; by left | done | cbn; lia | cbn; lia | done].
Qed.

Lemma mark_attempt_inv i reason w :
  jwks_inv w -> Forall (may_follow reason (jw_now w)) (jw_attempts w) ->
  jwks_inv (attempted {| at_caller := i; at_reason := reason; at_time := jw_now w |} (with_cache (mark_attempt reason (jw_now w)) w)).
Proof.
  intros [HK HS HA HU HP HO HL] HF. split; try done; cbn [attempted with_cache jw_cache jw_attempts jw_now mark_attempt
    last_refresh_attempt last_unknown_key_refresh].
  - by rewrite last_snoc.
  - rewrite unknown_attempts_snoc. destruct reason; cbn [at_reason].
    + by rewrite decide_False, app_nil_r.
    + by rewrite decide_False, app_nil_r.
    + by rewrite decide_True, last_snoc.
  - apply Forall_app. split; [done|]. by repeat constructor; cbn.
  - apply sorted_snoc; [done|]. rewrite Forall_forall in HF, HP |- *. intros a Ha. destruct (HF a Ha) as [H1 H2].
    specialize (HP a Ha). split_and!; cbn; [done | by intros -> ; apply H1 | by intros Hu ->; apply H2].
Qed.

Lemma store_keys_inv a w :
  jwks_inv w -> a ∈ jw_answers w ->
  jwks_inv (with_cache (store_keys key_from_jwk (rs_algorithm config) (an_set a) (jw_now w)) w).
Proof.
  intros [HK HS HA HU HP HO HL] Ha. split; cbn; try done. exists a. rewrite Forall_forall in HS.
  split_and!; cbn; [done | done | by apply HS | lia | done].
Qed.

Lemma store_failure_inv w : jwks_inv w -> jwks_inv (with_cache store_failure w).
Proof. by intros [HK HS HA HU HP HO HL]. Qed.

(** ** The programs *)

Notation jwp i := (wp (jwks_rely i) (fun X c => @jwks_answered i X c) jwks_inv jwks_guarantee).

Lemma guarantee_quiet w w' :
  jw_now w' = jw_now w -> jw_attempts w' = jw_attempts w ->
  refreshed_le (last_successful_refresh (jw_cache w)) (last_successful_refresh (jw_cache w')) -> jwks_guarantee w w'.
Proof. intros Hn Ha Hr. split; [lia | done | exists []; by rewrite app_nil_r]. Qed.

Section calls.
Context {A : Type} (i : nat) (Q : A -> JwksWorld -> Prop).

Lemma wp_read_cache (f : JwksCache -> program jwks_call A) w :
  (forall w1, jwks_rely i w w1 -> jwks_inv w1 -> i ∉ jw_dropped w1 -> jwp i (f (jw_cache w1)) Q w1) ->
  jwp i (ask ReadCache ≫= f) Q w.
Proof.
  intros Hf. apply wp_ask. intros w1 HR HI x w2 (Hd & -> & ->). split_and!; [by apply guarantee_quiet | done | by apply Hf].
Qed.

Lemma wp_now (f : Z -> program jwks_call A) w :
  (forall w1, jwks_rely i w w1 -> jwks_inv w1 -> i ∉ jw_dropped w1 -> jwp i (f (jw_now w1)) Q (read_clock i w1)) ->
  jwp i (ask Now ≫= f) Q w.
Proof.
  intros Hf. apply wp_ask. intros w1 HR HI x w2 (Hd & -> & ->).
  split_and!; [by apply guarantee_quiet | eapply same_cache_inv; try done; apply (ji_gate _ HI) | by apply Hf].
Qed.

Lemma wp_lock_gate (f : unit -> program jwks_call A) w :
  (forall w1, jwks_rely i w w1 -> jwks_inv w1 -> jwp i (f tt) Q (with_gate (Some i) w1)) ->
  jwp i (ask LockGate ≫= f) Q w.
Proof.
  intros Hf. apply wp_ask. intros w1 HR HI [] w2 (Hd & Hg & ->).
  split_and!; [by apply guarantee_quiet | eapply same_cache_inv; try done; by intros j [= <-] | by apply Hf].
Qed.

Lemma wp_unlock_gate (f : unit -> program jwks_call A) w :
  (forall w1 g, jwks_rely i w w1 -> jwks_inv w1 -> g <> Some i -> jwp i (f tt) Q (with_gate g w1)) ->
  jwp i (ask UnlockGate ≫= f) Q w.
Proof.
  intros Hf. apply wp_ask. intros w1 HR HI [] w2 (Hd & ->).
  assert (exists g, (g = None \/ g = jw_gate w1) /\ g <> Some i /\
    (if decide (jw_gate w1 = Some i) then with_gate None w1 else w1) = with_gate g w1) as (g & Hg1 & Hg & ->).
  { destruct (decide (jw_gate w1 = Some i)) as [Hg|Hg]; [exists None; auto|]. exists (jw_gate w1). split_and!; [auto | done | by destruct w1]. }
  split_and!; [by apply guarantee_quiet | eapply same_cache_inv; try done | by apply Hf].
  destruct Hg1 as [->| ->]; [done | apply (ji_gate _ HI)].
Qed.

Lemma wp_mark_attempt reason t (f : unit -> program jwks_call A) w :
  jw_gate w = Some i -> t <= jw_now w -> Forall (may_follow reason t) (jw_attempts w) ->
  (forall w1, jwks_rely i w w1 -> i ∉ jw_dropped w1 ->
     jwp i (f tt) Q (attempted {| at_caller := i; at_reason := reason; at_time := jw_now w1 |}
       (with_cache (mark_attempt reason (jw_now w1)) w1))) ->
  jwp i (ask (MarkAttempt reason) ≫= f) Q w.
Proof.
  intros Hg Ht HF Hf. apply wp_ask. intros w1 HR HI [] w2 (Hd & ->).
  destruct (jr_held _ _ _ HR Hd Hg) as [Hg1 Ha1]. pose proof (jr_time _ _ _ HR). split_and!; [| |by apply Hf].
  - split; cbn; [lia | done |]. eexists. split; [done|]. by repeat constructor.
  - apply mark_attempt_inv; [done|]. rewrite Ha1. eapply Forall_impl; [exact HF|]. intros a [H1' H2'].
    split; intros; [specialize (H1' ltac:(done)) | specialize (H2' ltac:(done) ltac:(done))]; lia.
Qed.

Lemma wp_fetch (f : option (list Jwk) -> program jwks_call A) w :
  (forall w1 x, jwks_rely i w w1 -> i ∉ jw_dropped w1 ->
     let l := match x with Some set => [{| an_caller := i; an_time := jw_now w1; an_set := set |}] | None => [] end in
     jwp i (f x) Q (fetched l w1)) ->
  jwp i (ask Fetch ≫= f) Q w.
Proof.
  intros Hf. apply wp_ask. intros w1 HR HI x w2 (Hd & ->).
  split_and!; [by apply guarantee_quiet | | by apply Hf].
  apply fetched_inv; [done|]. destruct x as [set|]; [|done]. by repeat constructor; cbn.
Qed.

Lemma wp_store_keys a (f : unit -> program jwks_call A) w :
  a ∈ jw_answers w ->
  (forall w1, jwks_rely i w w1 -> i ∉ jw_dropped w1 ->
     jwp i (f tt) Q (with_cache (store_keys key_from_jwk (rs_algorithm config) (an_set a) (jw_now w1)) w1)) ->
  jwp i (ask (StoreKeys (an_set a)) ≫= f) Q w.
Proof.
  intros Ha Hf. apply wp_ask. intros w1 HR HI [] w2 (Hd & ->). split_and!; [| |by apply Hf].
  - apply guarantee_quiet; [done | done |]. cbn. pose proof (ji_keys _ HI) as HK.
    destruct (last_successful_refresh (jw_cache w1)) as [t|]; [|done]. destruct HK as (b & _ & _ & Hb & _). cbn. lia.
  - apply store_keys_inv; [done|]. eapply elem_of_prefix; [exact Ha | apply (jr_answers _ _ _ HR)].
Qed.

Lemma wp_store_failure (f : unit -> program jwks_call A) w :
  (forall w1, jwks_rely i w w1 -> i ∉ jw_dropped w1 -> jwp i (f tt) Q (with_cache store_failure w1)) ->
  jwp i (ask StoreFailure ≫= f) Q w.
Proof.
  intros Hf. apply wp_ask. intros w1 HR HI [] w2 (Hd & ->).
  split_and!; [by apply guarantee_quiet; cbn | by apply store_failure_inv | by apply Hf].
Qed.

Lemma wp_clock {X} (c : jwks_call X) (f : X -> program jwks_call A) w :
  (forall w x w', jwks_effect i c w x w' -> w' = w) -> (forall x w1, jwks_rely i w w1 -> jwp i (f x) Q w1) ->
  jwp i (ask c ≫= f) Q w.
Proof.
  intros Hc Hf. apply wp_ask. intros w1 HR HI x w2 (Hd & ->%Hc). split_and!; [by apply guarantee_quiet | done | by apply Hf].
Qed.
End calls.

(** Where a key comes from: an answer of the provider that was stored less than the cache
    lifetime before a reading of the clock by this caller, or after one. *)
Definition key_evidence (i : nat) (kid : str) (key : DecodingKey) (w : JwksWorld) : Prop :=
  exists a stored read, a ∈ jw_answers w /\ an_time a <= stored /\
    compatible_keys key_from_jwk (an_set a) (rs_algorithm config) !! kid = Some key /\
    (i, read) ∈ jw_readings w /\ (stored <= read < stored + rs_cache_ttl config \/ read <= stored).

(** Worlds that keep a caller's evidence. *)
Definition later (w w' : JwksWorld) : Prop :=
  jw_answers w `prefix_of` jw_answers w' /\ jw_readings w `prefix_of` jw_readings w'.
Lemma rely_later i w w' : jwks_rely i w w' -> later w w'.
Proof. by intros []. Qed.
Lemma evidence_later i kid key w w' : later w w' -> key_evidence i kid key w -> key_evidence i kid key w'.
Proof.
  intros [HA HR] (a & stored & read & H1 & H2 & H3 & H4 & H5). exists a, stored, read.
  split_and!; [by eapply elem_of_prefix | done | done | by eapply elem_of_prefix | done].
Qed.

(** The gate is held after as it was before. *)
Definition same_gate (i : nat) (w w' : JwksWorld) : Prop := jw_gate w' = Some i <-> jw_gate w = Some i.
Lemma rely_same_gate i w w' : jwks_rely i w w' -> i ∉ jw_dropped w' -> same_gate i w w'.
Proof. intros HR Hd. split; [apply HR | intros Hg; by apply HR]. Qed.

Lemma reading_logged i w : (i, jw_now w) ∈ jw_readings (read_clock i w).
Proof. cbn. apply elem_of_app. right. by left. Qed.

(** What a refresh decided at a reading of the clock may assume. *)
Definition refresh_due (i : nat) (reason : RefreshReason) (w w' : JwksWorld) : Prop :=
  exists t, (i, t) ∈ jw_readings w' /\ t <= jw_now w' /\
    (jw_gate w = Some i -> Forall (may_follow reason t) (jw_attempts w')).

Lemma refresh_decided i reason w w1 w2 :
  jwks_rely i w w1 -> jwks_inv w1 -> i ∉ jw_dropped w1 -> jwks_rely i w1 w2 -> i ∉ jw_dropped w2 ->
  match reason with
  | ExpiredCache => refresh_allowed (jw_cache w1) minimum (jw_now w2) = true
  | UnknownKey => unknown_key_refresh_allowed (jw_cache w1) minimum (jw_now w2) = true
  | Explicit => False
  end ->
  refresh_due i reason w (read_clock i w2).
Proof.
  intros HR HI Hd HR2 Hd2 HA. exists (jw_now w2). split_and!; [apply reading_logged | cbn; lia |]. intros Hg.
  destruct (jr_held _ _ _ HR Hd Hg) as [Hg1 _]. destruct (jr_held _ _ _ HR2 Hd2 Hg1) as [_ Ha]. cbn. rewrite Ha.
  destruct (allowed_follows w1 (jw_now w2) HI (jr_time _ _ _ HR2)) as [HE HU]. destruct reason; [done | by apply HE | by apply HU].
Qed.

Lemma rely_read_clock i w w' : jwks_rely i w w' -> jwks_rely i w (read_clock i w').
Proof. intros [H1 H2 H3 H4 H5 H6 H7]. split; try done. etrans; [exact H4|]. by eexists. Qed.

Definition looked_up (i : nat) (kid : str) (w : JwksWorld) (lookup : CacheLookup) (w' : JwksWorld) : Prop :=
  same_gate i w w' /\
  match lookup with
  | LookupKey key => key_evidence i kid key w'
  | LookupRefresh reason => refresh_due i reason w w'
  | _ => True
  end.

Lemma wp_cache_lookup i kid w : jwp i (cache_lookup config kid) (looked_up i kid w) w.
Proof.
  unfold cache_lookup. apply wp_read_cache. intros w1 HR HI Hd. cbv zeta.
  assert (HG : forall w2, jwks_rely i w1 w2 -> i ∉ jw_dropped w2 -> same_gate i w (read_clock i w2)).
  { intros w2 HR2 Hd2. apply (rely_same_gate i w w2); [by etrans | done]. }
  assert (HU : forall w2, jwks_rely i w1 w2 -> jwp i (now ← ask Now;
      if negb (unknown_key_refresh_allowed (jw_cache w1) minimum now)
      then Ret (if last_refresh_failed (jw_cache w1) then LookupUnavailable else LookupMissing)
      else Ret (LookupRefresh UnknownKey)) (looked_up i kid w) w2).
  { intros w2 HR2. apply wp_now. intros w3 HR3 HI3 Hd3. assert (jwks_rely i w1 w3) by (by etrans).
    destruct (unknown_key_refresh_allowed _ _ _) eqn:HA; cbn [negb]; apply wp_ret; (split; [by apply HG|]).
    - by eapply (refresh_decided i UnknownKey).
    - by destruct (last_refresh_failed _). }
  pose proof (ji_keys _ HI) as HK. destruct (last_successful_refresh (jw_cache w1)) as [stored|].
  2:{ rewrite HK, lookup_empty. by apply wp_bind, wp_ret, HU. }
  destruct HK as (a & Ha & _ & Ht & HK). apply wp_bind, wp_now. intros w2 HR2 HI2 Hd2. apply wp_ret.
  pose proof (rely_read_clock _ _ _ HR2) as HR2'. destruct (keys (jw_cache w1) !! kid) as [key|] eqn:Hkey.
  2:{ destruct (_ <? _); by apply HU. }
  destruct (elapsed stored (jw_now w2) <? rs_cache_ttl config) eqn:HF.
  - apply wp_ret. split; [by apply HG|]. exists a, stored, (jw_now w2). apply Z.ltb_lt in HF.
    unfold elapsed, saturating_sub in HF. pose proof (jr_time _ _ _ HR2).
    split_and!; [by eapply elem_of_prefix; [|apply (jr_answers _ _ _ HR2)] | lia | by rewrite <- HK
      | apply reading_logged | left; lia].
  - apply wp_now. intros w3 HR3 HI3 Hd3. assert (jwks_rely i w1 w3) by (by etrans).
    destruct (refresh_allowed _ _ _) eqn:HA; cbn [negb]; apply wp_ret; (split; [by apply HG|]); [|done].
    by eapply (refresh_decided i ExpiredCache).
Qed.

Lemma wp_fetch_and_store i reason t w :
  jw_gate w = Some i -> t <= jw_now w -> Forall (may_follow reason t) (jw_attempts w) ->
  jwp i (fetch_and_store reason) (fun r w' => jw_gate w' = Some i /\ later w w' /\
    (r = Ok tt -> exists stored, last_successful_refresh (jw_cache w') = Some stored /\ t <= stored)) w.
Proof.
  intros Hg Ht HF. unfold fetch_and_store. eapply wp_mark_attempt; [done..|]. intros w1 HR1 Hd1.
  destruct (jr_held _ _ _ HR1 Hd1 Hg) as [Hg1 _]. pose proof (jr_time _ _ _ HR1) as Ht1.
  set (w1' := attempted _ _). assert (Hl1 : later w w1') by (by apply (rely_later _ _ _ HR1)).
  apply wp_fetch. intros w2 x HR2 Hd2. cbv zeta. destruct (jr_held _ _ _ HR2 Hd2 Hg1) as [Hg2 _].
  pose proof (jr_time _ _ _ HR2) as Ht2. change (jw_now w1') with (jw_now w1) in Ht2.
  set (w2' := fetched _ w2). assert (Hl2 : later w w2').
  { destruct Hl1 as [HA HB], (rely_later _ _ _ HR2) as [HA' HB']. split; [|by etrans].
    etrans; [exact HA|]. etrans; [exact HA'|]. by eexists. }
  destruct x as [set|].
  - apply (wp_store_keys i _ {| an_caller := i; an_time := jw_now w2; an_set := set |}).
    { cbn. apply elem_of_app. right. by left. }
    intros w3 HR3 Hd3. apply wp_ret. destruct (jr_held _ _ _ HR3 Hd3 Hg2) as [Hg3 _]. split_and!; [done | |].
    + destruct Hl2 as [HA HB], (rely_later _ _ _ HR3) as [HA' HB']. split; by etrans.
    + intros _. exists (jw_now w3). split; [done|]. pose proof (jr_time _ _ _ HR3) as Ht3. cbn in Ht3. lia.
  - apply wp_store_failure. intros w3 HR3 Hd3. apply wp_ret. destruct (jr_held _ _ _ HR3 Hd3 Hg2) as [Hg3 _].
    split_and!; [done | | done]. destruct Hl2 as [HA HB], (rely_later _ _ _ HR3) as [HA' HB']. split; by etrans.
Qed.

Lemma later_trans w1 w2 w3 : later w1 w2 -> later w2 w3 -> later w1 w3.
Proof. intros [H1 H2] [H3 H4]. split; by etrans. Qed.

Lemma wp_refresh i w : jwp i refresh (fun _ w' => jw_gate w' <> Some i) w.
Proof.
  unfold refresh. apply wp_lock_gate. intros w1 HR1 HI1. apply wp_bind.
  eapply wp_mono; [|apply (wp_fetch_and_store i Explicit (jw_now w1)); cbn; [done | lia |]].
  - intros r w2 _. apply wp_unlock_gate. intros w3 g HR3 HI3 Hg. by apply wp_ret.
  - apply Forall_forall. by split.
Qed.

(** A key that a lookup under the gate returned, after a refresh if one was due. *)
Definition keyed (i : nat) (kid : str) (r : result (option DecodingKey) unit) (w : JwksWorld) : Prop :=
  match r with Ok (Some key) => key_evidence i kid key w | _ => True end.

Lemma wp_refreshed_key i kid reason w w0 :
  jw_gate w0 = Some i -> jw_gate w = Some i -> refresh_due i reason w0 w ->
  jwp i (try_ id (fetch_and_store reason) (fun _ => cache ← ask ReadCache; Ret (Ok (keys cache !! kid)))) (keyed i kid) w.
Proof.
  intros Hg0 Hg (t & Hread & Ht & HF). apply wp_try.
  eapply wp_mono; [|by eapply (wp_fetch_and_store i reason t); [| |apply HF]].
  intros [[]|e] w1; [|done]. intros (Hg1 & Hl1 & HS). destruct (HS eq_refl) as (stored & HS1 & Hts).
  apply wp_read_cache. intros w2 HR2 HI2 Hd2. apply wp_ret. unfold keyed.
  destruct (keys (jw_cache w2) !! kid) as [key|] eqn:Hkey; [|done].
  pose proof (jr_refreshed _ _ _ HR2) as HRF. rewrite HS1 in HRF. pose proof (ji_keys _ HI2) as HK.
  destruct (last_successful_refresh (jw_cache w2)) as [stored2|]; [|done]. cbn in HRF.
  destruct HK as (a & Ha & _ & Hat & HK). exists a, stored2, t.
  split_and!; [done | lia | by rewrite <- HK | | right; lia].
  eapply elem_of_prefix; [exact Hread|]. by destruct (later_trans _ _ _ Hl1 (rely_later _ _ _ HR2)).
Qed.

Lemma wp_key_for i kid w :
  jw_gate w <> Some i -> jwp i (key_for config kid) (fun r w' => jw_gate w' <> Some i /\ keyed i kid r w') w.
Proof.
  intros Hg. unfold key_for. apply wp_bind. eapply wp_mono; [|apply wp_cache_lookup]. intros lookup w1 [HG1 HL1].
  assert (Hg1 : jw_gate w1 <> Some i) by (by intros ?%HG1). destruct lookup as [key| |reason|]; [by apply wp_ret.. | |by apply wp_ret].
  apply wp_lock_gate. intros w2 HR2 HI2. set (w2' := with_gate (Some i) w2). apply wp_bind.
  eapply wp_mono; [|apply wp_cache_lookup]. intros lookup w3 [HG3 HL3]. assert (Hg3 : jw_gate w3 = Some i) by (by apply HG3).
  assert (HE : forall r w4, keyed i kid r w4 ->
    jwp i (_ ← ask UnlockGate; Ret r) (fun r w' => jw_gate w' <> Some i /\ keyed i kid r w') w4).
  { intros r w4 Hk. apply wp_unlock_gate. intros w5 g HR5 HI5 Hg5. apply wp_ret. split; [done|].
    destruct r as [[key|]|]; [|done..]. by eapply (evidence_later _ _ _ w4); [apply (rely_later _ _ _ HR5)|]. }
  apply wp_bind. destruct lookup as [key| |reason'|]; [by apply wp_ret, HE.. | |by apply wp_ret, HE].
  eapply wp_mono; [|by eapply (wp_refreshed_key i kid reason' w3 w2')]. by apply HE.
Qed.

(** A key with which a token is verified: the token names the configured algorithm and the
    key ID under which the provider published the key. *)
Definition verifying (i : nat) (token : str) (key : DecodingKey) (w : JwksWorld) : Prop :=
  exists kid, decode_header token = Some (rs_algorithm config, Some kid) /\ key_evidence i kid key w.

Lemma verifying_later i token key w w' : later w w' -> verifying i token key w -> verifying i token key w'.
Proof. intros HL (kid & HH & HE). exists kid. split; [done | by eapply evidence_later]. Qed.

Lemma wp_verification_key i token w :
  jw_gate w <> Some i ->
  jwp i (verification_key config token) (fun r w' => jw_gate w' <> Some i /\
    match r with Ok key => verifying i token key w' | Err _ => True end) w.
Proof.
  intros Hg. unfold verification_key. apply wp_pure_try. destruct (decode_header token) as [[alg [kid|]]|] eqn:HH; cbn [ok_or]; [| |done].
  2:{ destruct (negb _); by apply wp_ret. }
  destruct (bool_decide (alg = _)) eqn:HA; cbn [negb]; [|by apply wp_ret]. apply bool_decide_eq_true in HA as ->.
  apply wp_pure_try. cbn [ok_or]. apply wp_try. eapply wp_mono; [|by apply wp_key_for].
  intros [[key|]|[]] w' [Hg' Hk]; [|by apply wp_ret|done]. apply wp_ret. split; [done|]. by exists kid.
Qed.

Definition authenticated (i : nat) (token : str) (p : Principal) (w : JwksWorld) : Prop :=
  exists key claims now, verifying i token key w /\
    decode read_claims token key (validation config) now = Some claims /\ claims_into_principal claims = Ok p.

Definition id_verified (i : nat) (token expected_nonce : str) (p : Principal) (w : JwksWorld) : Prop :=
  expected_nonce <> [] /\ exists key claims now latest, verifying i token key w /\
    decode read_id_token_claims token key (id_token_validation config) now = Some claims /\
    matches_browser_login_binding claims (rs_audience config) expected_nonce latest = true /\
    id_claims_into_principal claims = Ok p.

Lemma wp_authenticate i token w :
  jw_gate w <> Some i ->
  jwp i (jwks_authenticate config token) (fun r w' => jw_gate w' <> Some i /\
    match r with Ok p => authenticated i token p w' | Err _ => True end) w.
Proof.
  intros Hg. unfold jwks_authenticate. apply wp_try. eapply wp_mono; [|by apply wp_verification_key].
  intros [key|e] w1 [Hg1 Hk]; [|done]. apply wp_clock; [done|]. intros now w2 HR2. apply wp_pure_try.
  assert (Hg2 : jw_gate w2 <> Some i) by (by intros ?%(jr_gate _ _ _ HR2)).
  destruct (decode _ _ _ _ _) as [claims|] eqn:HD; cbn [ok_or]; [|done]. apply wp_ret. split; [done|].
  destruct (claims_into_principal claims) as [p|] eqn:HP; [|done]. exists key, claims, now.
  split_and!; [|done|done]. eapply verifying_later; [|exact Hk]. by eapply rely_later.
Qed.

Lemma wp_verify_id_token i token expected_nonce w :
  jw_gate w <> Some i ->
  jwp i (verify_id_token config token expected_nonce) (fun r w' => jw_gate w' <> Some i /\
    match r with Ok p => id_verified i token expected_nonce p w' | Err _ => True end) w.
Proof.
  intros Hg. unfold verify_id_token. destruct expected_nonce as [|b l]; [by apply wp_ret|]. cbn [nonempty negb].
  set (expected_nonce := b :: l). assert (Hn : expected_nonce <> []) by done. clearbody expected_nonce.
  apply wp_try. eapply wp_mono; [|by apply wp_verification_key].
  intros [key|e] w1 [Hg1 Hk]; [|done]. apply wp_clock; [done|]. intros now w2 HR2. apply wp_pure_try.
  assert (Hg2 : jw_gate w2 <> Some i) by (by intros ?%(jr_gate _ _ _ HR2)).
  destruct (decode _ _ _ _ _) as [claims|] eqn:HD; cbn [ok_or]; [|done].
  apply wp_clock; [done|]. intros clock w3 HR3. apply wp_pure_try.
  assert (Hg3 : jw_gate w3 <> Some i) by (by intros ?%(jr_gate _ _ _ HR3)).
  destruct clock as [seconds|]; cbn [ok_or]; [|done]. cbv zeta.
  destruct (matches_browser_login_binding _ _ _ _) eqn:HM; cbn [negb]; [|by apply wp_ret]. apply wp_ret. split; [done|].
  destruct (id_claims_into_principal claims) as [p|] eqn:HP; [|done]. split; [done|]. exists key, claims, now, (saturating_add u64_max seconds (rs_leeway_seconds config)).
  split_and!; [|done|done|done]. eapply verifying_later; [|exact Hk].
  eapply later_trans; [by eapply rely_later | by eapply rely_later].
Qed.

(** ** The system *)

Definition jwks_fresh (i : nat) (w : JwksWorld) : Prop := jw_gate w <> Some i.
Definition jwks_post (c : JwksClient) (i : nat) (o : JwksOutcome) (w : JwksWorld) : Prop :=
  jw_gate w <> Some i /\
  match c, o with
  | Refreshes, Refreshed _ => True
  | Authenticates token, Answered (Ok p) => authenticated i token p w
  | VerifiesIdToken token expected_nonce, Answered (Ok p) => id_verified i token expected_nonce p w
  | Authenticates _, Answered (Err _) | VerifiesIdToken _ _, Answered (Err _) => True
  | _, _ => False
  end.

Lemma jwks_others i j X (c : jwks_call X) w x w' :
  i <> j -> jwks_answered i c w x w' -> jwks_guarantee w w' -> jwks_rely j w w'.
Proof.
  intros Hij [Hd HE] [HT HF HA]. split; [done | done | | | | |].
  - destruct c; cbn in HE; destruct_and?; subst; try done; [by eexists|]. by case_decide.
  - destruct c; cbn in HE; destruct_and?; subst; try done; [by eexists|]. by case_decide.
  - destruct c; cbn in HE; destruct_and?; subst; try done. by case_decide.
  - destruct c; cbn in HE; destruct_and?; subst; try done; cbn; [by intros [= ->]|]. by case_decide.
  - intros _ Hg. destruct c; cbn in HE; destruct_and?; subst; try done.
    + exfalso. destruct HA as (l & Hl & HFl). cbn in Hl. apply app_inv_head in Hl as <-. apply Forall_cons in HFl as [HFl _].
      cbn in HFl. congruence.
    + congruence.
    + rewrite decide_False by congruence. done.
Qed.

#[local] Instance jwks_laws :
  SystemLaws jwks_prog (fun i _ X c => @jwks_answered i X c) jwks_background jwks_inv jwks_guarantee
    jwks_rely jwks_fresh jwks_post.
Proof.
  split.
  - intros i c w Hf HI. destruct c as [|token|token n]; cbn [jwks_prog]; apply wp_bind.
    + eapply wp_mono; [|by apply wp_refresh]. intros r w' Hg. by apply wp_ret.
    + eapply wp_mono; [|by apply wp_authenticate]. intros [p|e] w' HP; by apply wp_ret.
    + eapply wp_mono; [|by apply wp_verify_id_token]. intros [p|e] w' HP; by apply wp_ret.
  - intros i j _ X c w x w'. apply jwks_others.
  - intros i w w' HR Hf Hg. by apply Hf, HR.
  - intros w w' HI Hb. destruct Hb as [w now Hn|w k].
    + split_and!; [eapply same_cache_inv; try done; apply (ji_gate _ HI) | split; cbn; [done | done | exists []; by rewrite app_nil_r] |].
      intros i. by split; cbn.
    + split_and!; [eapply same_cache_inv; try done | by apply guarantee_quiet |].
      { cbn. intros i Hi. pose proof (ji_gate _ HI i). case_decide; [done|]. set_solver. }
      intros i. split; cbn; try done.
      * set_solver.
      * by case_decide.
      * intros Hd Hg. split; [|done]. rewrite decide_False; [done|]. intros Hk. assert (i = k) by congruence. set_solver.
Qed.

Lemma jwks_reachable_inv now s :
  rtc jwks_step (jwks_initial now) s ->
  system_inv (call:=jwks_call) (fun i _ X c => @jwks_answered i X c) jwks_inv jwks_guarantee jwks_rely jwks_fresh jwks_post s.
Proof.
  intros Hs. refine (steps_keep_inv _ _ _ _ _ _ _ _ _ _ _ Hs). split; cbn [world callers jwks_initial]; [|done|done].
  split; cbn; try done; constructor.
Qed.

Lemma jwks_finished now s i c o :
  rtc jwks_step (jwks_initial now) s -> callers s !! i = Some {| th_client := c; th_rest := Ret o |} ->
  exists w0, jwks_rely i w0 (world s) /\ jwks_post c i o w0.
Proof. intros Hs Hi. eapply finished; [by eapply jwks_reachable_inv | exact Hi]. Qed.

(** ** Properties *)


Context `{!JwtLaws}.

(** The key with which a token was verified: the provider published it, under the key ID of
    the token and no other key with that ID, for the configured algorithm; its answer was
    stored less than the cache lifetime before a reading of the clock by this caller, or
    after one; and the key signed the token. *)
Definition signing_key (i : nat) (token : str) (w : JwksWorld) : Prop :=
  exists kid a jwk key stored read,
    decode_header token = Some (rs_algorithm config, Some kid) /\
    a ∈ jw_answers w /\ with_kid kid (an_set a) = [jwk] /\ is_compatible_jwk jwk (rs_algorithm config) = true /\
    key_from_jwk jwk = Some key /\ token_signed token (rs_algorithm config) key = true /\
    an_time a <= stored /\ (i, read) ∈ jw_readings w /\ (stored <= read < stored + rs_cache_ttl config \/ read <= stored).

Lemma verified_signing_key i token key v now payload w :
  verifying i token key w -> v_algorithms v = [rs_algorithm config] -> verify_token token key v now = Some payload ->
  signing_key i token w.
Proof.
  intros (kid & HH & a & stored & read & Ha & Ht & Hkey & Hr & Hage) Hv HV.
  apply compatible_keys_exact in Hkey as (jwk & HW & HC & HK).
  destruct (verify_signed _ _ _ _ _ HV) as (alg & kid' & HH' & Halg & HS). rewrite Hv in Halg.
  apply list_elem_of_singleton in Halg as ->. exists kid, a, jwk, key, stored, read. by split_and!.
Qed.

Lemma read_id_token_claims_issuer payload c x :
  read_id_token_claims payload = Some c -> x ∈ claim_values ##"iss" payload -> x = id_iss c.
Proof.
  intros HR HN. apply bind_Some in HR as (fields & HO & HR). destruct payload; try done. injection HO as ->.
  apply bind_Some in HR as (? & _ & HR). apply bind_Some in HR as (issuer & HI & HR).
  repeat (apply bind_Some in HR as (? & _ & HR)). injection HR as <-.
  apply required_Some in HI as (v & HV & ->%read_string_Some).
  rewrite (claim_values_text _ _ _ HV) in HN. by apply list_elem_of_singleton in HN.
Qed.

(** What a verified token says, for the validation of either kind. *)
Lemma verified_names token key v now payload :
  verify_token token key v now = Some payload -> validate_aud v = true ->
  v_iss v = Some [rs_issuer config] -> v_aud v = Some [rs_audience config] ->
  ##"iss" ∈ required_spec_claims v -> ##"aud" ∈ required_spec_claims v ->
  rs_issuer config ∈ claim_values ##"iss" payload /\ rs_audience config ∈ claim_values ##"aud" payload.
Proof.
  intros HV Hon Hi Ha Hri Hra. destruct (verify_issuer _ _ _ _ _ _ HV Hi Hri) as (x & ->%list_elem_of_singleton & HI).
  by destruct (verify_audience _ _ _ _ _ _ HV Hon Ha Hra) as (y & ->%list_elem_of_singleton & HA).
Qed.

Lemma authenticated_principal i token p w0 w :
  later w0 w -> authenticated i token p w0 ->
  issuer p = Some (rs_issuer config) /\ wf_principal p /\ signing_key i token w /\ exists key now payload,
    verify_token token key (validation config) now = Some payload /\ rs_audience config ∈ claim_values ##"aud" payload.
Proof.
  intros HL (key & claims & now & HK & HD & HP). apply decode_verified in HD as (payload & HV & HR).
  apply claims_principal_of in HP as [HW _ HI _ _].
  destruct (verified_names _ _ _ _ _ HV eq_refl eq_refl eq_refl ltac:(right; left) ltac:(right; right; left)) as [Hiss Haud].
  split_and!; [by rewrite HI, (read_claims_issuer _ _ _ HR Hiss) | done | | by exists key, now, payload].
  eapply (verified_signing_key _ _ _ (validation config)); [by eapply verifying_later | done | exact HV].
Qed.

Lemma id_verified_principal i token expected_nonce p w0 w :
  later w0 w -> id_verified i token expected_nonce p w0 ->
  issuer p = Some (rs_issuer config) /\ wf_principal p /\ signing_key i token w /\ expected_nonce <> [] /\
  exists key now payload claims,
    verify_token token key (id_token_validation config) now = Some payload /\
    rs_audience config ∈ claim_values ##"aud" payload /\
    read_id_token_claims payload = Some claims /\ nonce claims = expected_nonce /\
    ((exists l, as_array (id_aud claims) = Some l /\ (1 < List.length l)%nat) ->
     authorized_party claims = Some (rs_audience config)).
Proof.
  intros HL (Hn & key & claims & now & latest & HK & HD & HM & HP). apply decode_verified in HD as (payload & HV & HR).
  apply normalize_principal_of in HP as [HW _ HI _ _].
  destruct (verified_names _ _ _ _ _ HV eq_refl eq_refl eq_refl ltac:(right; left) ltac:(right; right; left)) as [Hiss Haud].
  unfold matches_browser_login_binding in HM. apply andb_true_iff in HM as [HM HN]. apply andb_true_iff in HM as [_ HM].
  apply constant_time_eq_true in HN.
  split_and!; [by rewrite HI, (read_id_token_claims_issuer _ _ _ HR Hiss) | done | | done |].
  - eapply (verified_signing_key _ _ _ (id_token_validation config)); [by eapply verifying_later | done | exact HV].
  - exists key, now, payload, claims. split_and!; [done..|]. intros (l & Hl & Hlen). rewrite Hl in HM.
    rewrite (proj2 (Nat.ltb_lt _ _) Hlen) in HM. cbn [negb orb] in HM. destruct (authorized_party claims) as [party|]; [|done].
    by apply constant_time_eq_true in HM as ->.
Qed.

End callers.

(** ** Examples *)

Module JwksExamples.
Import OidcModel.

Definition id_payload : Value := VObject [
  (##"sub", VString ##"user-1"); (##"iss", VString ##"https://issuer.test"); (##"aud", VArray [VString ##"api"; VString ##"web"]);
  (##"exp", VInt 2000); (##"iat", VInt 1000); (##"nonce", VString ##"n-1"); (##"azp", VString ##"api")
].
Definition issued_by (token kid : str) (payload : Value) : JwtModel.issued :=
  {| JwtModel.i_token := token; JwtModel.i_alg := RS256; JwtModel.i_kid := Some kid; JwtModel.i_key := ##"pk";
     JwtModel.i_payload := payload |}.
Definition tokens : list JwtModel.issued := [
  issued_by ##"access" ##"k1" JwtModel.access_payload;
  issued_by ##"id" ##"k1" id_payload;
  issued_by ##"rotated" ##"k2" JwtModel.access_payload
].
#[local] Instance jwt_api : JwtApi := JwtModel.api tokens.
#[local] Instance jwt_laws : JwtLaws := JwtModel.laws tokens.

Definition from_jwk (jwk : Jwk) : option DecodingKey := Some (material jwk).
Definition published (kid : str) : Jwk :=
  {| key_id := Some kid; key_algorithm := Some (SignatureAlgorithm RS256); public_key_use := Some UseSignature;
     key_operations := None; material := ##"pk" |}.
Definition config : OidcResourceServerConfig := {|
  rs_algorithm := RS256; rs_issuer := ##"https://issuer.test"; rs_audience := ##"api"; rs_jwks_url := endpoint ##"/keys";
  rs_leeway_seconds := 0; rs_cache_ttl := DEFAULT_CACHE_TTL; rs_minimum_refresh_interval := DEFAULT_MINIMUM_REFRESH_INTERVAL
|}.

Definition World : Type := JwksWorld.
Definition Jwks : Type := @system jwks_call World JwksClient JwksOutcome.

(** The provider publishes one key; the gate is taken when it is free. *)
Definition answer (i : nat) (X : Type) (c : jwks_call X) (w : World) : option (X * World) :=
  if decide (i ∈ jw_dropped w) then None
  else match c in jwks_call X return option (X * World) with
  | ReadCache => Some (jw_cache w, w)
  | Now => Some (jw_now w, read_clock i w)
  | MarkAttempt reason =>
      Some (tt, attempted {| at_caller := i; at_reason := reason; at_time := jw_now w |}
                  (with_cache (mark_attempt reason (jw_now w)) w))
  | StoreKeys set => Some (tt, with_cache (store_keys from_jwk (rs_algorithm config) set (jw_now w)) w)
  | StoreFailure => Some (tt, with_cache store_failure w)
  | Fetch =>
      let set := [published ##"k1"] in
      Some (Some set, fetched [{| an_caller := i; an_time := jw_now w; an_set := set |}] w)
  | LockGate => if decide (jw_gate w = None) then Some (tt, with_gate (Some i) w) else None
  | UnlockGate => Some (tt, if decide (jw_gate w = Some i) then with_gate None w else w)
  | DecodeClock => Some (1500, w)
  | SystemClock => Some (Some 1500, w)
  end.

Lemma jwks_answer_answers i X (c : jwks_call X) w x w' :
  answer i X c w = Some (x, w') -> jwks_answered from_jwk config i c w x w'.
Proof.
  unfold answer. case_decide as Hd; [done|]. destruct c; try (case_decide; [|done]); intros [= <- <-]; by split.
Qed.

(** A caller at a later instant. *)
Definition call_at (now : Z) (c : JwksClient) (s : Jwks) : option Jwks :=
  let i := List.length (callers s) in
  let w := at_instant now (world s) in
  '(o, w') ← try_exec (answer i) (jwks_prog config c) w;
  if decide (jw_now (world s) <= now)
  then Some {| world := w'; callers := callers s ++ [{| th_client := c; th_rest := Ret o |}] |} else None.

Lemma jwks_call_at_steps now c s s' : call_at now c s = Some s' -> rtc (jwks_step from_jwk config) s s'.
Proof.
  unfold call_at. intros ([o w'] & He & HS)%bind_Some. case_decide as Hn; [|done]. injection HS as <-.
  eapply rtc_l; [by apply step_background, bg_time, Hn|]. eapply rtc_l; [exact (step_start (call:=jwks_call) _ _ _ _ c)|].
  cbn [world callers]. set (s1 := {| world := at_instant now (world s); callers := callers s ++ [{| th_client := c; th_rest := jwks_prog config c |}] |}).
  assert (Hi : callers s1 !! List.length (callers s) = Some {| th_client := c; th_rest := jwks_prog config c |}).
  { by apply list_lookup_middle. }
  pose proof (try_exec_steps (jwks_prog config) (fun i _ X c => @jwks_answered _ _ from_jwk config i X c) jwks_background
    (answer (List.length (callers s))) _ _ _ s1 _ _ (jwks_answer_answers _) Hi He) as HR.
  cbn [callers s1] in HR. by rewrite insert_app_r_alt, Nat.sub_diag in HR by done.
Qed.

(** A request and a login, a request when the cache has expired, and one a second later with
    the token of a key that the provider does not publish. *)
Definition run : option Jwks :=
  s ← call_at 0 (Authenticates ##"access") (jwks_initial 0);
  s ← call_at 1000 (VerifiesIdToken ##"id" ##"n-1") s;
  s ← call_at (from_secs 300) (Authenticates ##"access") s;
  call_at (from_secs 301) (Authenticates ##"rotated") s.

Lemma jwks_run_steps s : run = Some s -> rtc (jwks_step from_jwk config) (jwks_initial 0) s.
Proof.
  unfold run. intros (s1 & H1 & H)%bind_Some. apply bind_Some in H as (s2 & H2 & H).
  apply bind_Some in H as (s3 & H3 & H4). apply jwks_call_at_steps in H1, H2, H3, H4.
  etrans; [exact H1|]. etrans; [exact H2|]. by etrans.
Qed.

Definition outcome (s : Jwks) (i : nat) : option JwksOutcome :=
  th ← callers s !! i; match th_rest th with Ret o => Some o | _ => None end.
Definition granted (o : option JwksOutcome) : bool := match o with Some (Answered (Ok _)) => true | _ => false end.
Definition rejected (o : option JwksOutcome) : bool :=
  match o with Some (Answered (Err RejectedBearerToken)) => true | _ => false end.

Example run_outcomes :
  match run with
  | Some s => granted (outcome s 0) && granted (outcome s 1) && granted (outcome s 2) && rejected (outcome s 3)
  | None => false
  end = true.
Proof. vm_compute. reflexivity. Qed.

(** The refresh for the unknown key comes one second after the refresh of the expired cache:
    an attempt for an unknown key is spaced only from the attempts for unknown keys. *)
Example unknown_key_refresh_not_spaced :
  option_map (fun s => map (fun a => (at_reason a, at_time a)) (jw_attempts (world s))) run =
  Some [(UnknownKey, 0); (ExpiredCache, from_secs 300); (UnknownKey, from_secs 301)].
Proof. vm_compute. reflexivity. Qed.


(** The principal of the login. *)
Definition logged_in (s : Jwks) : option Principal :=
  match callers s !! 1%nat with
  | Some {| th_client := VerifiesIdToken token n; th_rest := Ret (Answered (Ok p)) |} =>
      if str_eqb token ##"id" && str_eqb n ##"n-1" then Some p else None
  | _ => None
  end.
Lemma logged_in_caller s p :
  logged_in s = Some p ->
  callers s !! 1%nat = Some {| th_client := VerifiesIdToken ##"id" ##"n-1"; th_rest := Ret (Answered (Ok p)) |}.
Proof.
  unfold logged_in. destruct (callers s !! 1%nat) as [[[|token|token n] [[r|[q|e]]|X f kont]]|]; try done.
  destruct (str_eqb token _ && str_eqb n _) eqn:E; [|done]. intros [= ->].
  by apply andb_true_iff in E as [->%str_eqb_true ->%str_eqb_true].
Qed.
Example run_logged_in : is_some (run ≫= logged_in) = true.
Proof. vm_compute. reflexivity. Qed.

End JwksExamples.
