(* ===== verification/OidcIntrospection.v ===== *)
(** Opaque access tokens: [crates/rustee-auth-oidc/src/introspection.rs] with
    [introspection/model.rs] and [introspection/cache.rs].

    The authenticator is a program over its calls: the cache behind its mutex, the
    introspector and the clock. Callers share one cache and are interleaved call by call.
    Instants and durations are nanoseconds, Unix times are seconds. *)

From Stdlib Require Import ZArith Lia Bool Ascii.
From stdpp Require Import gmap sets relations.
From S2P Require Import Prelude Strings Core Auth Session JsonValue Identity Oidc Effects.

Local Open Scope Z_scope.

(** ** Answers of the provider: [model.rs] *)

Inductive AudienceClaim : Type := AudienceOne (audience : str) | AudienceMany (audiences : list str).

Definition read_audience (v : Value) : option AudienceClaim :=
  match read_string v with
  | Some s => Some (AudienceOne s)
  | None => option_map AudienceMany (read_strings v)
  end.

Definition audience_contains (a : AudienceClaim) (expected : str) : bool :=
  match a with
  | AudienceOne audience => constant_time_eq audience expected
  | AudienceMany audiences => existsb (fun audience => constant_time_eq audience expected) audiences
  end.

Record OpaqueTokenIntrospection : Type := {
  ti_active : bool;
  ti_sub : option str;
  ti_iss : option str;
  ti_aud : option AudienceClaim;
  ti_exp : option Z;
  ti_nbf : option Z;
  ti_tenant : option str;
  ti_scope : option ScopeClaim;
  ti_roles : option StringSetClaim;
  ti_permissions : option StringSetClaim
}.

Definition introspection_inactive : OpaqueTokenIntrospection :=
  {| ti_active := false; ti_sub := None; ti_iss := None; ti_aud := None; ti_exp := None; ti_nbf := None;
     ti_tenant := None; ti_scope := None; ti_roles := None; ti_permissions := None |}.

Definition introspection_active (subject issuer audience : str) : OpaqueTokenIntrospection :=
  {| ti_active := true; ti_sub := Some subject; ti_iss := Some issuer; ti_aud := Some (AudienceOne audience);
     ti_exp := None; ti_nbf := None; ti_tenant := None; ti_scope := None; ti_roles := None; ti_permissions := None |}.

Definition with_expiration (expiration : Z) (r : OpaqueTokenIntrospection) : OpaqueTokenIntrospection :=
  {| ti_active := ti_active r; ti_sub := ti_sub r; ti_iss := ti_iss r; ti_aud := ti_aud r; ti_exp := Some expiration;
     ti_nbf := ti_nbf r; ti_tenant := ti_tenant r; ti_scope := ti_scope r; ti_roles := ti_roles r;
     ti_permissions := ti_permissions r |}.
Definition with_not_before (not_before : Z) (r : OpaqueTokenIntrospection) : OpaqueTokenIntrospection :=
  {| ti_active := ti_active r; ti_sub := ti_sub r; ti_iss := ti_iss r; ti_aud := ti_aud r; ti_exp := ti_exp r;
     ti_nbf := Some not_before; ti_tenant := ti_tenant r; ti_scope := ti_scope r; ti_roles := ti_roles r;
     ti_permissions := ti_permissions r |}.
Definition introspection_with_tenant (tenant : str) (r : OpaqueTokenIntrospection) : OpaqueTokenIntrospection :=
  {| ti_active := ti_active r; ti_sub := ti_sub r; ti_iss := ti_iss r; ti_aud := ti_aud r; ti_exp := ti_exp r;
     ti_nbf := ti_nbf r; ti_tenant := Some tenant; ti_scope := ti_scope r; ti_roles := ti_roles r;
     ti_permissions := ti_permissions r |}.
Definition introspection_with_scope (scope : str) (r : OpaqueTokenIntrospection) : OpaqueTokenIntrospection :=
  {| ti_active := ti_active r; ti_sub := ti_sub r; ti_iss := ti_iss r; ti_aud := ti_aud r; ti_exp := ti_exp r;
     ti_nbf := ti_nbf r; ti_tenant := ti_tenant r; ti_scope := Some (SpaceDelimited scope); ti_roles := ti_roles r;
     ti_permissions := ti_permissions r |}.
Definition introspection_with_role (role : str) (r : OpaqueTokenIntrospection) : OpaqueTokenIntrospection :=
  {| ti_active := ti_active r; ti_sub := ti_sub r; ti_iss := ti_iss r; ti_aud := ti_aud r; ti_exp := ti_exp r;
     ti_nbf := ti_nbf r; ti_tenant := ti_tenant r; ti_scope := ti_scope r; ti_roles := Some (One role);
     ti_permissions := ti_permissions r |}.
Definition introspection_with_permission (permission : str) (r : OpaqueTokenIntrospection) : OpaqueTokenIntrospection :=
  {| ti_active := ti_active r; ti_sub := ti_sub r; ti_iss := ti_iss r; ti_aud := ti_aud r; ti_exp := ti_exp r;
     ti_nbf := ti_nbf r; ti_tenant := ti_tenant r; ti_scope := ti_scope r; ti_roles := ti_roles r;
     ti_permissions := Some (One permission) |}.

(** [derive(Deserialize)]: without [active] the answer is inactive. *)
Definition read_active (fields : list (str * Value)) : option bool :=
  match field_values ##"active" fields with [] => Some false | [v] => read_bool v | _ => None end.
Definition read_introspection (v : Value) : option OpaqueTokenIntrospection :=
  fields ← read_object v;
  active ← read_active fields;
  sub ← optional read_string ##"sub" fields;
  iss ← optional read_string ##"iss" fields;
  aud ← optional read_audience ##"aud" fields;
  exp ← optional read_u64 ##"exp" fields;
  nbf ← optional read_u64 ##"nbf" fields;
  tenant ← optional read_string ##"tenant" fields;
  scope ← optional read_scope ##"scope" fields;
  roles ← optional read_string_set ##"roles" fields;
  permissions ← optional read_string_set ##"permissions" fields;
  Some {| ti_active := active; ti_sub := sub; ti_iss := iss; ti_aud := aud; ti_exp := exp; ti_nbf := nbf;
          ti_tenant := tenant; ti_scope := scope; ti_roles := roles; ti_permissions := permissions |}.

(** ** The cache: [cache.rs] *)

Record CachedPrincipal : Type := { ce_principal : Principal; ce_expires_at : Z }.

(** The entries behind the mutex, and whether it is poisoned. *)
Record CacheState : Type := { entries : gmap str CachedPrincipal; cache_poisoned : bool }.
Definition cache_default : CacheState := {| entries := ∅; cache_poisoned := false |}.
Definition with_entries (m : gmap str CachedPrincipal) (c : CacheState) : CacheState :=
  {| entries := m; cache_poisoned := cache_poisoned c |}.

Definition fingerprint `{EncodingApi} (token : str) : str := base64_url (sha256 token).

Definition cache_enabled (max_entries : nat) (max_ttl : Duration) : bool :=
  (0 <? max_entries)%nat && negb (max_ttl =? 0).

(** [retain(|_, entry| entry.expires_at > now)]. *)
Definition retain_fresh (now : Z) (m : gmap str CachedPrincipal) : gmap str CachedPrincipal :=
  filter (fun '(_, e) => (now <? ce_expires_at e) = true) m.

Definition cached_principal (enabled : bool) (key : str) (now : Z) (c : CacheState) :
    result (option Principal) AuthError * CacheState :=
  if negb enabled then (Ok None, c)
  else if cache_poisoned c then (Err AuthProviderUnavailable, c)
  else
    let m := retain_fresh now (entries c) in
    (Ok (option_map ce_principal (m !! key)), with_entries m c).

(** [instant_max] is the last [Instant]: [now + ttl] panics beyond it, with the mutex held. *)
Definition cache_principal (instant_max : Z) (enabled : bool) (max_entries : nat) (key : str) (p : Principal)
    (ttl : option Duration) (now : Z) (c : CacheState) : option (result unit AuthError) * CacheState :=
  match ttl with
  | None => (Some (Ok tt), c)
  | Some ttl =>
      if negb enabled then (Some (Ok tt), c)
      else if cache_poisoned c then (Some (Err AuthProviderUnavailable), c)
      else
        let m := retain_fresh now (entries c) in
        if (max_entries <=? size m)%nat && negb (is_some (m !! key)) then (Some (Ok tt), with_entries m c)
        else if instant_max <? now + ttl then (None, {| entries := m; cache_poisoned := true |})
        else (Some (Ok tt), with_entries (<[key := {| ce_principal := p; ce_expires_at := now + ttl |}]> m) c)
  end.

(** ** The authenticator: [introspection.rs] *)

Section authenticator.
Context `{UrlApi, EncodingApi}.
Context (config : OpaqueIntrospectionConfig).

Inductive opaque_call : Type -> Type :=
| CachedLookup (key : str) : opaque_call (result (option Principal) AuthError)
| Introspect (endpoint : Url) (request : OpaqueTokenIntrospectionRequest) : opaque_call (option OpaqueTokenIntrospection)
(** [unix_seconds]. *)
| UnixSeconds : opaque_call Z
(** [None] is a panic. *)
| CacheStore (key : str) (p : Principal) (ttl : option Duration) : opaque_call (option (result unit AuthError)).

Notation opaque := (program opaque_call).

(** The checks of [validated_principal] before it reads the clock, after it, and what it returns. *)
Definition identity_matches (r : OpaqueTokenIntrospection) : bool :=
  ti_active r
  && match ti_sub r with Some s => nonempty s | None => false end
  && match ti_iss r with Some i => constant_time_eq i (oi_issuer config) | None => false end
  && match ti_aud r with Some a => audience_contains a (oi_audience config) | None => false end.

Definition time_bounds_hold (r : OpaqueTokenIntrospection) (now : Z) : bool :=
  negb (match ti_exp r with Some e => saturating_add u64_max e (oi_leeway_seconds config) <=? now | None => false end)
  && negb (match ti_nbf r with Some n => saturating_add u64_max now (oi_leeway_seconds config) <? n | None => false end).

Definition response_cache_ttl (r : OpaqueTokenIntrospection) (now : Z) : option Duration :=
  expiration ← ti_exp r;
  let remaining := saturating_sub expiration now in
  let bounded := Z.min (oi_cache_ttl config) (from_secs remaining) in
  if bounded =? 0 then None else Some bounded.

Definition validated_at (r : OpaqueTokenIntrospection) (now : Z) : result (Principal * option Duration) AuthError :=
  if negb (time_bounds_hold r now) then Err RejectedBearerToken
  else
    match ti_sub r, ti_iss r with
    | Some subject, Some issuer =>
        let? p := normalize_verified_principal subject issuer (ti_tenant r) (ti_scope r) (ti_roles r) (ti_permissions r) in
        Ok (p, response_cache_ttl r now)
    | _, _ => Err RejectedBearerToken
    end.

Definition validated_principal (r : OpaqueTokenIntrospection) : opaque (result (Principal * option Duration) AuthError) :=
  if negb (identity_matches r) then Ret (Err RejectedBearerToken)
  else now ← ask UnixSeconds; Ret (validated_at r now).

Definition introspection_of (token : str) : OpaqueTokenIntrospectionRequest :=
  {| ir_token := token; ir_client_id := oi_client_id config; ir_authentication := oi_authentication config |}.

(** [None] is a panic. *)
Definition opaque_authenticate (token : str) : opaque (option (result Principal AuthError)) :=
  let key := fingerprint token in
  cached ← ask (CachedLookup key);
  match cached with
  | Err e => Ret (Some (Err e))
  | Ok (Some p) => Ret (Some (Ok p))
  | Ok None =>
      answer ← ask (Introspect (oi_endpoint config) (introspection_of token));
      match answer with
      | None => Ret (Some (Err AuthProviderUnavailable))
      | Some r =>
          validated ← validated_principal r;
          match validated with
          | Err e => Ret (Some (Err e))
          | Ok (p, ttl) =>
              stored ← ask (CacheStore key p ttl);
              match stored with
              | None => Ret None
              | Some (Err e) => Ret (Some (Err e))
              | Some (Ok _) => Ret (Some (Ok p))
              end
          end
      end
  end.
End authenticator.

(** ** Callers of one authenticator *)

Section callers.
Context `{UrlApi, EncodingApi}.
Context (config : OpaqueIntrospectionConfig) (instant_max : Z).

Notation enabled := (cache_enabled (oi_max_cache_entries config) (oi_cache_ttl config)).

(** What a caller saw, and at which instant. *)
Inductive event : Type :=
| Looked (t : Z)
| Introspected (t : Z) (endpoint : Url) (request : OpaqueTokenIntrospectionRequest) (answer : option OpaqueTokenIntrospection)
| ReadUnix (t unix : Z).

Record OpaqueWorld : Type := { ow_now : Z; ow_cache : CacheState; ow_log : list (nat * event) }.

Definition log_event (i : nat) (e : event) (w : OpaqueWorld) : OpaqueWorld :=
  {| ow_now := ow_now w; ow_cache := ow_cache w; ow_log := ow_log w ++ [(i, e)] |}.
Definition with_opaque_cache (c : CacheState) (w : OpaqueWorld) : OpaqueWorld :=
  {| ow_now := ow_now w; ow_cache := c; ow_log := ow_log w |}.
Definition opaque_at (now : Z) (w : OpaqueWorld) : OpaqueWorld :=
  {| ow_now := now; ow_cache := ow_cache w; ow_log := ow_log w |}.

Definition opaque_answered (i : nat) {X} (c : opaque_call X) : OpaqueWorld -> X -> OpaqueWorld -> Prop :=
  match c in opaque_call X return OpaqueWorld -> X -> OpaqueWorld -> Prop with
  | CachedLookup key => fun w x w' => exists c', cached_principal enabled key (ow_now w) (ow_cache w) = (x, c') /\
      w' = log_event i (Looked (ow_now w)) (with_opaque_cache c' w)
  | Introspect endpoint request => fun w x w' => w' = log_event i (Introspected (ow_now w) endpoint request x) w
  | UnixSeconds => fun w x w' => w' = log_event i (ReadUnix (ow_now w) x) w
  | CacheStore key p ttl => fun w x w' => exists c',
      cache_principal instant_max enabled (oi_max_cache_entries config) key p ttl (ow_now w) (ow_cache w) = (x, c') /\
      w' = with_opaque_cache c' w
  end.

(** Time passes. *)
Definition opaque_background (w w' : OpaqueWorld) : Prop := exists now, ow_now w <= now /\ w' = opaque_at now w.

(** A client is the token it presents. *)
Definition opaque_prog (token : str) : program opaque_call (option (result Principal AuthError)) :=
  opaque_authenticate config token.
Definition opaque_step := step opaque_prog (fun i (_ : str) X c => @opaque_answered i X c) opaque_background.
Definition opaque_initial (now : Z) : @system opaque_call OpaqueWorld str (option (result Principal AuthError)) :=
  {| world := {| ow_now := now; ow_cache := cache_default; ow_log := [] |}; callers := [] |}.

(** *** Evidence *)

(** Caller [j] sent [token] to the configured endpoint, and the answer [r] names the configured
    issuer and audience; later it read the Unix time [u], at the instant [tu]. *)
Definition response_evidence (log : list (nat * event)) (j : nat) (token : str) (r : OpaqueTokenIntrospection) (u tu : Z) : Prop :=
  identity_matches config r = true /\ (j, ReadUnix tu u) ∈ log /\
  exists t, t <= tu /\ (j, Introspected t (oi_endpoint config) (introspection_of config token) (Some r)) ∈ log.

Definition entry_evidence (log : list (nat * event)) (now : Z) (key : str) (e : CachedPrincipal) : Prop :=
  exists j token r u tu d t, fingerprint token = key /\ response_evidence log j token r u tu /\
    validated_at config r u = Ok (ce_principal e, Some d) /\ ce_expires_at e = t + d /\ tu <= t <= now.

Record opaque_inv (w : OpaqueWorld) : Prop := {
  opi_entries : forall key e, entries (ow_cache w) !! key = Some e -> entry_evidence (ow_log w) (ow_now w) key e;
  opi_bounded : (size (entries (ow_cache w)) <= if enabled then oi_max_cache_entries config else 0)%nat;
  opi_poisoned : cache_poisoned (ow_cache w) = true -> instant_max < ow_now w + oi_cache_ttl config
}.

Record opaque_later (w w' : OpaqueWorld) : Prop := {
  ol_time : ow_now w <= ow_now w';
  ol_log : ow_log w `prefix_of` ow_log w'
}.
#[local] Instance opaque_later_preorder : PreOrder opaque_later.
Proof.
  split; [intros w; by split|]. intros w1 w2 w3 [HT1 HL1] [HT2 HL2]. split; [lia | by etrans].
Qed.

Lemma response_evidence_mono log log' j token r u tu :
  log `prefix_of` log' -> response_evidence log j token r u tu -> response_evidence log' j token r u tu.
Proof.
  intros HL (HM & HU & t & Ht & HI). split_and!; [done | by eapply elem_of_prefix |]. exists t.
  split; [done | by eapply elem_of_prefix].
Qed.

Lemma entry_evidence_mono log log' now now' key e :
  log `prefix_of` log' -> now <= now' -> entry_evidence log now key e -> entry_evidence log' now' key e.
Proof.
  intros HL Hn (j & token & r & u & tu & d & t & HK & HR & HV & HE & Ht). exists j, token, r, u, tu, d, t.
  split_and!; [done | by eapply response_evidence_mono | done | done | lia | lia].
Qed.

(** The invariant with the same cache, later. *)
Lemma later_inv w w' : opaque_later w w' -> ow_cache w' = ow_cache w -> opaque_inv w -> opaque_inv w'.
Proof.
  intros [HT HL] Hc [HE HB HP]. split; rewrite Hc; [|done|].
  - intros key e He. eapply entry_evidence_mono; [exact HL | exact HT | by apply HE].
  - intros Hp%HP. lia.
Qed.

Lemma retain_inv w : opaque_inv w -> opaque_inv (with_opaque_cache (with_entries (retain_fresh (ow_now w) (entries (ow_cache w))) (ow_cache w)) w).
Proof.
  intros [HE HB HP]. split; cbn; [|etrans; [apply map_size_filter|exact HB] | done].
  intros key e [He _]%map_lookup_filter_Some. by apply HE.
Qed.

(** ** The programs *)

Notation owp i := (wp opaque_later (fun X c => @opaque_answered i X c) opaque_inv opaque_later).

Section calls.
Context {A : Type} (i : nat) (Q : A -> OpaqueWorld -> Prop).

Lemma log_later e w : opaque_later w (log_event i e w).
Proof. split; cbn; [lia | by eexists]. Qed.

(** A lookup that finds a principal finds one with evidence, before its deadline. *)
Lemma wp_cached_lookup key (f : result (option Principal) AuthError -> program opaque_call A) w :
  (forall x w', opaque_later w w' ->
     match x with
     | Ok (Some p) => exists read e, (i, Looked read) ∈ ow_log w' /\ entry_evidence (ow_log w') read key e /\
         ce_principal e = p /\ read < ce_expires_at e
     | _ => True
     end -> owp i (f x) Q w') ->
  owp i (ask (CachedLookup key) ≫= f) Q w.
Proof.
  intros Hf. apply wp_ask. intros w1 HR HI x w2 (c & Hc & ->).
  assert (Hl : opaque_later w1 (log_event i (Looked (ow_now w1)) (with_opaque_cache c w1))) by (split; cbn; [lia | by eexists]).
  unfold cached_principal in Hc. destruct enabled; cbn [negb] in Hc.
  2:{ injection Hc as <- <-. split_and!; [done | by eapply later_inv | apply Hf; [by etrans | done]]. }
  destruct (cache_poisoned (ow_cache w1)).
  { injection Hc as <- <-. split_and!; [done | by eapply later_inv | apply Hf; [by etrans | done]]. }
  injection Hc as <- <-. split_and!; [done | eapply later_inv; [apply log_later | done | by apply retain_inv] |].
  apply Hf; [by etrans|]. destruct (retain_fresh _ _ !! key) as [e|] eqn:He; [|done]. cbn [option_map].
  apply map_lookup_filter_Some in He as [He Hlt%Z.ltb_lt]. exists (ow_now w1), e.
  split_and!; [apply elem_of_app; right; by left | | done | done].
  eapply entry_evidence_mono; [apply Hl | reflexivity | by apply (opi_entries _ HI)].
Qed.

Lemma wp_introspect endpoint request (f : option OpaqueTokenIntrospection -> program opaque_call A) w :
  (forall x t w', opaque_later w w' -> t <= ow_now w' -> (i, Introspected t endpoint request x) ∈ ow_log w' -> owp i (f x) Q w') ->
  owp i (ask (Introspect endpoint request) ≫= f) Q w.
Proof.
  intros Hf. apply wp_ask. intros w1 HR HI x w2 ->. pose proof (log_later (Introspected (ow_now w1) endpoint request x) w1) as Hl.
  split_and!; [done | by eapply later_inv |]. apply (Hf x (ow_now w1)); [by etrans | cbn; lia | apply elem_of_app; right; by left].
Qed.

Lemma wp_unix_clock (f : Z -> program opaque_call A) w :
  (forall u t w', opaque_later w w' -> ow_now w <= t <= ow_now w' -> (i, ReadUnix t u) ∈ ow_log w' -> owp i (f u) Q w') ->
  owp i (ask UnixSeconds ≫= f) Q w.
Proof.
  intros Hf. apply wp_ask. intros w1 HR HI x w2 ->. pose proof (log_later (ReadUnix (ow_now w1) x) w1) as Hl.
  split_and!; [done | by eapply later_inv |]. pose proof (ol_time _ _ HR).
  apply (Hf x (ow_now w1)); [by etrans | cbn; lia | apply elem_of_app; right; by left].
Qed.

Lemma response_ttl_bound r u d : response_cache_ttl config r u = Some d -> d <= oi_cache_ttl config.
Proof.
  unfold response_cache_ttl. intros (e & _ & HD)%bind_Some. destruct (_ =? 0); [done|]. injection HD as <-. lia.
Qed.

Lemma validated_at_ttl r u p ttl : validated_at config r u = Ok (p, ttl) -> ttl = response_cache_ttl config r u.
Proof.
  unfold validated_at. destruct (negb _), (ti_sub r), (ti_iss r); try done.
  destruct (normalize_verified_principal _ _ _ _ _ _); [|done]. by intros [= _ <-].
Qed.

(** Storing a validated principal. *)
Lemma cache_principal_inv j token r u tu p ttl x c w :
  opaque_inv w -> response_evidence (ow_log w) j token r u tu -> tu <= ow_now w -> validated_at config r u = Ok (p, ttl) ->
  cache_principal instant_max enabled (oi_max_cache_entries config) (fingerprint token) p ttl (ow_now w) (ow_cache w) = (x, c) ->
  opaque_inv (with_opaque_cache c w) /\ (x = None -> instant_max < ow_now w + oi_cache_ttl config).
Proof.
  intros HI HR Ht HV. unfold cache_principal. pose proof (validated_at_ttl _ _ _ _ HV) as Httl.
  assert (HS : with_opaque_cache (ow_cache w) w = w) by (by destruct w).
  destruct ttl as [d|]; [|intros [= <- <-]; by rewrite HS].
  symmetry in Httl. apply response_ttl_bound in Httl.
  destruct enabled eqn:HEn; cbn [negb]; [|intros [= <- <-]; by rewrite HS].
  destruct (cache_poisoned (ow_cache w)) eqn:HP; [intros [= <- <-]; by rewrite HS|].
  pose proof (retain_inv w HI) as HI1. set (m := retain_fresh (ow_now w) (entries (ow_cache w))) in *.
  destruct ((_ <=? _)%nat && negb (is_some _)) eqn:HF; [intros [= <- <-]; by split|].
  destruct (Z.ltb_spec instant_max (ow_now w + d)) as [HO|HO]; intros [= <- <-].
  - split; [|intros _; lia]. destruct HI1 as [HE HB _]. split; [exact HE | exact HB | cbn; lia].
  - split; [|done]. destruct HI1 as [HE HB HPo]. split; cbn; [| |by rewrite HP].
    + intros key e. destruct (decide (key = fingerprint token)) as [->|Hk].
      * rewrite lookup_insert_eq. intros [= <-]. exists j, token, r, u, tu, d, (ow_now w). by split_and!.
      * rewrite lookup_insert_ne by done. apply HE.
    + rewrite HEn in HB |- *. cbn in HB. apply andb_false_iff in HF as [HF%Nat.leb_gt|HF].
      * rewrite map_size_insert. destruct (m !! fingerprint token); unfold id; lia.
      * apply negb_false_iff in HF. destruct (m !! fingerprint token) as [e0|] eqn:Hm; [|done].
        by rewrite map_size_insert, Hm.
Qed.

Lemma wp_cache_store j token r u tu p ttl (f : option (result unit AuthError) -> program opaque_call A) w :
  response_evidence (ow_log w) j token r u tu -> tu <= ow_now w -> validated_at config r u = Ok (p, ttl) ->
  (forall x w', opaque_later w w' -> (x = None -> instant_max < ow_now w' + oi_cache_ttl config) -> owp i (f x) Q w') ->
  owp i (ask (CacheStore (fingerprint token) p ttl) ≫= f) Q w.
Proof.
  intros HR Ht HV Hf. apply wp_ask. intros w1 HL HI x w2 (c & Hc & ->). pose proof (ol_time _ _ HL).
  eapply cache_principal_inv in Hc as [HI2 HN];
    [|done | by eapply response_evidence_mono; [apply HL|] | lia | exact HV].
  assert (Hl : opaque_later w1 (with_opaque_cache c w1)) by (by split).
  split_and!; [done | done |]. apply Hf; [by etrans | exact HN].
Qed.
End calls.

(** Where a principal that a caller was answered with comes from. *)
Definition principal_evidence (i : nat) (token : str) (p : Principal) (log : list (nat * event)) : Prop :=
  exists j token' r u tu ttl, fingerprint token' = fingerprint token /\
    response_evidence log j token' r u tu /\ validated_at config r u = Ok (p, ttl) /\
    ((j = i /\ token' = token) \/
     exists d t read, ttl = Some d /\ (i, Looked read) ∈ log /\ tu <= t <= read /\ read < t + d).

Definition opaque_post (token : str) (i : nat) (o : option (result Principal AuthError)) (w : OpaqueWorld) : Prop :=
  match o with
  | Some (Ok p) => principal_evidence i token p (ow_log w)
  | Some (Err _) => True
  | None => instant_max < ow_now w + oi_cache_ttl config
  end.

Lemma wp_opaque_authenticate i token w : owp i (opaque_authenticate config token) (opaque_post token i) w.
Proof.
  unfold opaque_authenticate. apply wp_cached_lookup. intros x w1 _ HX.
  destruct x as [[p|]|e]; [| |by apply wp_ret].
  { apply wp_ret. destruct HX as (read & e & HL & (j & token' & r & u & tu & d & t & HK & HR & HV & HE & Ht) & <- & Hlt).
    exists j, token', r, u, tu, (Some d). split_and!; [done..|]. right. exists d, t, read. split_and!; [done | done | lia | lia | lia]. }
  apply wp_introspect. intros [r|] t w2 _ Ht HL; [|by apply wp_ret]. apply wp_bind. unfold validated_principal.
  destruct (identity_matches config r) eqn:HM; cbn [negb]; [|by apply wp_ret].
  apply wp_unix_clock. intros u tu w3 HL3 Htu HU. apply wp_ret.
  destruct (validated_at config r u) as [[p ttl]|e] eqn:HV; [|by apply wp_ret].
  assert (HR : response_evidence (ow_log w3) i token r u tu).
  { split_and!; [done | done |]. exists t. split; [lia|]. eapply elem_of_prefix; [exact HL | apply HL3]. }
  eapply wp_cache_store; [exact HR | lia | exact HV |]. intros x w4 HL4 HN.
  destruct x as [[[]|e]|]; apply wp_ret; [|done | by apply HN].
  exists i, token, r, u, tu, ttl. split_and!; [done | | done | by left].
  eapply response_evidence_mono; [apply HL4 | done].
Qed.

#[local] Instance opaque_laws :
  SystemLaws opaque_prog (fun i (_ : str) X c => @opaque_answered i X c) opaque_background opaque_inv opaque_later
    (fun _ => opaque_later) (fun _ _ => True) opaque_post.
Proof.
  split.
  - intros i token w _ _. apply wp_opaque_authenticate.
  - intros i j _ X c w x w' _ _ HG. exact HG.
  - done.
  - intros w w' HI (now & Hn & ->). assert (HL : opaque_later w (opaque_at now w)) by (by split).
    split_and!; [by eapply later_inv | done | done].
Qed.

Lemma opaque_reachable_inv now s :
  rtc opaque_step (opaque_initial now) s ->
  system_inv (call:=opaque_call) (fun i (_ : str) X c => @opaque_answered i X c) opaque_inv opaque_later
    (fun _ => opaque_later) (fun _ _ => True) opaque_post s.
Proof.
  intros Hs. refine (steps_keep_inv _ _ _ _ _ _ _ _ _ _ _ Hs). split; cbn [world callers opaque_initial]; [|done|done].
  split; cbn; [intros key e; by rewrite lookup_empty | rewrite map_size_empty; lia | done].
Qed.

(** ** Properties *)

(** The audiences an answer names. *)
Definition audiences (a : AudienceClaim) : list str :=
  match a with AudienceOne x => [x] | AudienceMany l => l end.

Lemma audience_contains_true a x : audience_contains a x = true <-> x ∈ audiences a.
Proof.
  destruct a as [y|l]; cbn; [rewrite constant_time_eq_true, list_elem_of_singleton; naive_solver|].
  rewrite existsb_exists, list_elem_of_In. setoid_rewrite constant_time_eq_true. naive_solver.
Qed.

(** What a caller may conclude from the answer [r] at the Unix time [u]. *)
Record vouches (r : OpaqueTokenIntrospection) (u : Z) (p : Principal) : Prop := {
  vo_active : ti_active r = true;
  vo_issuer : ti_iss r = Some (oi_issuer config) /\ issuer p = Some (oi_issuer config);
  vo_audience : exists a, ti_aud r = Some a /\ oi_audience config ∈ audiences a;
  vo_subject : ti_sub r = Some (subject p) /\ subject p <> [];
  vo_wf : wf_principal p;
  vo_not_expired : forall e, ti_exp r = Some e -> u < saturating_add u64_max e (oi_leeway_seconds config);
  vo_begun : forall n, ti_nbf r = Some n -> n <= saturating_add u64_max u (oi_leeway_seconds config)
}.

Lemma validated_vouches r u p ttl :
  identity_matches config r = true -> validated_at config r u = Ok (p, ttl) -> vouches r u p.
Proof.
  unfold identity_matches, validated_at, time_bounds_hold. intros HM HV.
  apply andb_true_iff in HM as [HM Haud]. apply andb_true_iff in HM as [HM Hiss]. apply andb_true_iff in HM as [Hact Hsub].
  destruct (negb (negb _ && negb _)) eqn:HT; [done|]. apply negb_false_iff, andb_true_iff in HT as [HE HN].
  destruct (ti_sub r) as [sb|] eqn:Hs; [|done]. destruct (ti_iss r) as [ib|] eqn:Hi; [|done].
  destruct (normalize_verified_principal _ _ _ _ _ _) as [q|] eqn:HP; [|done]. injection HV as -> _.
  apply normalize_principal_of in HP as [HW HPs HPi _ _]. apply constant_time_eq_true in Hiss as ->.
  split; [done | done | | | done | |].
  - destruct (ti_aud r) as [a|]; [|done]. exists a. split; [done|]. by apply audience_contains_true.
  - rewrite Hs, HPs. split; [done|]. by destruct sb.
  - intros e He. rewrite He in HE. apply negb_true_iff, Z.leb_gt in HE. exact HE.
  - intros n Hn. rewrite Hn in HN. apply negb_true_iff, Z.ltb_ge in HN. exact HN.
Qed.

Lemma cached_ttl r u p d :
  validated_at config r u = Ok (p, Some d) ->
  exists e, ti_exp r = Some e /\ d = Z.min (oi_cache_ttl config) (from_secs (saturating_sub e u)).
Proof.
  intros HV%validated_at_ttl. symmetry in HV. apply bind_Some in HV as (e & He & HV). exists e. split; [done|].
  cbv zeta in HV. destruct (_ =? 0) in HV; [done|]. by injection HV as <-.
Qed.

End callers.

(** ** Examples *)

Module IntrospectionExamples.
Import OidcModel.

Definition config : OpaqueIntrospectionConfig := {|
  oi_issuer := ##"https://issuer.test"; oi_audience := ##"api"; oi_endpoint := endpoint ##"/introspect";
  oi_client_id := ##"client"; oi_authentication := ClientSecretPost ##"secret"; oi_leeway_seconds := 0;
  oi_cache_ttl := DEFAULT_INTROSPECTION_CACHE_TTL; oi_max_cache_entries := 1
|}.
Definition live : OpaqueTokenIntrospection :=
  with_expiration 11 (introspection_active ##"user-1" ##"https://issuer.test" ##"api").
Definition last_instant : Z := from_secs (2 ^ 40).

Definition Opaque : Type := @system opaque_call OpaqueWorld str (option (result Principal AuthError)).

(** A provider for which the token is live until the Unix time 11, and one clock: the Unix
    time is the whole seconds of the instant. *)
Definition answer (i : nat) (X : Type) (c : opaque_call X) (w : OpaqueWorld) : X * OpaqueWorld :=
  match c in opaque_call X return X * OpaqueWorld with
  | CachedLookup key =>
      let '(x, c') := cached_principal true key (ow_now w) (ow_cache w) in
      (x, log_event i (Looked (ow_now w)) (with_opaque_cache c' w))
  | Introspect e request => (Some live, log_event i (Introspected (ow_now w) e request (Some live)) w)
  | UnixSeconds => (as_secs (ow_now w), log_event i (ReadUnix (ow_now w) (as_secs (ow_now w))) w)
  | CacheStore key p ttl =>
      let '(x, c') := cache_principal last_instant true 1 key p ttl (ow_now w) (ow_cache w) in (x, with_opaque_cache c' w)
  end.

Lemma opaque_answer_answers i X (c : opaque_call X) w :
  opaque_answered config last_instant i c w (answer i X c w).1 (answer i X c w).2.
Proof.
  destruct c; cbn [answer opaque_answered]; try done.
  - destruct (cached_principal _ _ _ _) as [x c'] eqn:HC. by exists c'.
  - destruct (cache_principal _ _ _ _ _ _ _ _) as [x c'] eqn:HC. by exists c'.
Qed.

Definition call_at (now : Z) (token : str) (s : Opaque) : Opaque :=
  let '(o, w) := exec (answer (List.length (callers s))) (opaque_prog config token) (opaque_at now (world s)) in
  {| world := w; callers := callers s ++ [{| th_client := token; th_rest := Ret o |}] |}.

Lemma opaque_call_at_steps now token s :
  ow_now (world s) <= now -> rtc (opaque_step config last_instant) s (call_at now token s).
Proof.
  intros Hn. unfold call_at. destruct (exec _ _ _) as [o w] eqn:He.
  eapply rtc_l; [apply step_background; exists now; split; [exact Hn | reflexivity]|].
  eapply rtc_l; [exact (step_start (call:=opaque_call) _ _ _ _ token)|]. cbn [world callers].
  set (s1 := {| world := opaque_at now (world s); callers := callers s ++ [{| th_client := token; th_rest := opaque_prog config token |}] |}).
  assert (Hi : callers s1 !! List.length (callers s) = Some {| th_client := token; th_rest := opaque_prog config token |}).
  { by apply list_lookup_middle. }
  pose proof (exec_steps (opaque_prog config) (fun i _ X c => @opaque_answered _ config last_instant i X c) opaque_background
    (answer (List.length (callers s))) _ _ _ s1 _ _ (opaque_answer_answers _) Hi He) as HR.
  cbn [callers s1] in HR. by rewrite insert_app_r_alt, Nat.sub_diag in HR by done.
Qed.

(** The token is introspected at 10.9 s and looked up at 11.5 s. *)
Definition first : Opaque := call_at 10900000000 ##"token" (opaque_initial 0).
Definition second : Opaque := call_at 11500000000 ##"token" first.

Definition granted (s : Opaque) (i : nat) : bool :=
  match callers s !! i with Some {| th_rest := Ret (Some (Ok p)) |} => str_eqb (subject p) ##"user-1" | _ => false end.

(** The cached answer is still used half a second after the token expired, when the provider's
    answer itself would no longer be accepted: the remaining lifetime is counted from the
    whole second before. *)
Example cached_past_expiration :
  granted second 1 && is_ok (validated_at config live 10) && negb (is_ok (validated_at config live (as_secs (ow_now (world second))))) = true.
Proof. vm_compute. reflexivity. Qed.

Lemma second_reached : rtc (opaque_step config last_instant) (opaque_initial 0) second.
Proof.
  etrans; [apply (opaque_call_at_steps 10900000000 ##"token"); by vm_compute|].
  apply opaque_call_at_steps. by vm_compute.
Qed.

Definition principal_of_second : option Principal :=
  match callers second !! 1%nat with
  | Some {| th_client := token; th_rest := Ret (Some (Ok p)) |} => if str_eqb token ##"token" then Some p else None
  | _ => None
  end.
Lemma second_caller p :
  principal_of_second = Some p ->
  callers second !! 1%nat = Some {| th_client := ##"token"; th_rest := Ret (Some (Ok p)) |}.
Proof.
  unfold principal_of_second. destruct (callers second !! 1%nat) as [[token [[[q|e]|]|X f kont]]|]; try done.
  destruct (str_eqb token _) eqn:E; [|done]. intros [= ->]. by apply str_eqb_true in E as ->.
Qed.
Example second_answered : is_some principal_of_second = true.
Proof. vm_compute. reflexivity. Qed.

End IntrospectionExamples.
