(* ===== verification/Kafka.v ===== *)
(** Apache Kafka configuration and metadata: [crates/rustee-events-kafka/src], that is
    [config.rs], [config/consumer.rs], the client settings and readiness of [lib.rs],
    [publisher.rs] and [consumer/inspection.rs], and the retry policy and headers of
    [failure.rs], [failure/metadata.rs] and [failure/publisher.rs].

    librdkafka's answers are arguments; timeouts bound them and are left out. *)

From Stdlib Require Import ZArith Lia Bool Ascii.
From stdpp Require Import gmap.
From S2P Require Import Prelude Strings Uuid Events.

Local Open Scope Z_scope.

(** ** Configuration: [config.rs], [config/consumer.rs] *)

Definition DEFAULT_DELIVERY_TIMEOUT : Duration := from_millis 5000.
Definition MAX_DELIVERY_TIMEOUT : Duration := from_millis i32_max.
Definition MAX_BOOTSTRAP_SERVERS_BYTES : nat := 16 * 1024.
Definition MAX_TOPIC_BYTES : nat := 249.
Definition MAX_NATIVE_OPTION_COUNT : nat := 64.
Definition MAX_NATIVE_OPTION_KEY_BYTES : nat := 256.
Definition MAX_NATIVE_OPTION_VALUE_BYTES : nat := 64 * 1024.

Inductive KafkaConfigError : Type :=
| InvalidBootstrapServers
| InvalidTopic
| InvalidGroupId
| RetryTopicMatchesSource
| RetryTopicMatchesDeadLetter
| InvalidDeliveryTimeout
| InvalidNativeOption
| NativeOptionLimit.

(** [BTreeMap<String, String>]. *)
Definition NativeOptions : Type := gmap str str.

Definition insert_native_option (options : NativeOptions) (key value : str) :
    result NativeOptions KafkaConfigError :=
  if negb (nonempty key)
     || (MAX_NATIVE_OPTION_KEY_BYTES <? List.length key)%nat
     || contains_char NUL key
     || (MAX_NATIVE_OPTION_VALUE_BYTES <? List.length value)%nat
     || contains_char NUL value
  then Err InvalidNativeOption
  else if negb (is_some (options !! key)) && (size options =? MAX_NATIVE_OPTION_COUNT)%nat
  then Err NativeOptionLimit
  else Ok (<[key := value]> options).

Definition validate_bootstrap_servers (servers : str) : result unit KafkaConfigError :=
  if is_blank servers || (MAX_BOOTSTRAP_SERVERS_BYTES <? List.length servers)%nat || contains_char NUL servers
  then Err InvalidBootstrapServers
  else Ok tt.

Definition is_topic_name (topic : str) : bool :=
  negb (is_blank topic || (MAX_TOPIC_BYTES <? List.length topic)%nat || contains_char NUL topic
        || existsb is_whitespace (chars topic)).
Definition validate_topic_name (topic : str) : result unit KafkaConfigError :=
  if is_topic_name topic then Ok tt else Err InvalidTopic.

Definition validate_group_id (group_id : str) : result unit KafkaConfigError :=
  if is_blank group_id || existsb is_whitespace (chars group_id) then Err InvalidGroupId else Ok tt.

Record KafkaConfig : Type := {
  kc_bootstrap_servers : str;
  kc_topic : str;
  kc_queue_timeout : Duration;
  kc_delivery_timeout : Duration;
  kc_options : NativeOptions
}.

Definition kafka_config_new (servers topic : str) : result KafkaConfig KafkaConfigError :=
  let? _ := validate_bootstrap_servers servers in
  let? _ := validate_topic_name topic in
  Ok {| kc_bootstrap_servers := servers; kc_topic := topic; kc_queue_timeout := from_millis 5000;
        kc_delivery_timeout := DEFAULT_DELIVERY_TIMEOUT; kc_options := ∅ |}.

Definition with_queue_timeout (timeout : Duration) (c : KafkaConfig) : KafkaConfig :=
  {| kc_bootstrap_servers := kc_bootstrap_servers c; kc_topic := kc_topic c; kc_queue_timeout := timeout;
     kc_delivery_timeout := kc_delivery_timeout c; kc_options := kc_options c |}.

Definition with_delivery_timeout (timeout : Duration) (c : KafkaConfig) : result KafkaConfig KafkaConfigError :=
  if (as_millis timeout =? 0) || negb (subsec_nanos timeout mod 1000000 =? 0) || (MAX_DELIVERY_TIMEOUT <? timeout)
  then Err InvalidDeliveryTimeout
  else Ok {| kc_bootstrap_servers := kc_bootstrap_servers c; kc_topic := kc_topic c;
             kc_queue_timeout := kc_queue_timeout c; kc_delivery_timeout := timeout; kc_options := kc_options c |}.

Definition kafka_with_option (key value : str) (c : KafkaConfig) : result KafkaConfig KafkaConfigError :=
  let? options := insert_native_option (kc_options c) key value in
  Ok {| kc_bootstrap_servers := kc_bootstrap_servers c; kc_topic := kc_topic c;
        kc_queue_timeout := kc_queue_timeout c; kc_delivery_timeout := kc_delivery_timeout c;
        kc_options := options |}.

Record KafkaConsumerConfig : Type := {
  cc_bootstrap_servers : str;
  cc_topic : str;
  cc_group_id : str;
  cc_retry_topic : option str;
  cc_options : NativeOptions
}.

Definition consumer_config_new (servers topic group_id : str) : result KafkaConsumerConfig KafkaConfigError :=
  let? _ := validate_bootstrap_servers servers in
  let? _ := validate_topic_name topic in
  let? _ := validate_group_id group_id in
  Ok {| cc_bootstrap_servers := servers; cc_topic := topic; cc_group_id := group_id;
        cc_retry_topic := None; cc_options := ∅ |}.

Definition with_retry_topic (retry_topic : str) (c : KafkaConsumerConfig) :
    result KafkaConsumerConfig KafkaConfigError :=
  let? _ := validate_topic_name retry_topic in
  if str_eqb retry_topic (cc_topic c) then Err RetryTopicMatchesSource
  else Ok {| cc_bootstrap_servers := cc_bootstrap_servers c; cc_topic := cc_topic c;
             cc_group_id := cc_group_id c; cc_retry_topic := Some retry_topic; cc_options := cc_options c |}.

Definition consumer_with_option (key value : str) (c : KafkaConsumerConfig) :
    result KafkaConsumerConfig KafkaConfigError :=
  let? options := insert_native_option (cc_options c) key value in
  Ok {| cc_bootstrap_servers := cc_bootstrap_servers c; cc_topic := cc_topic c;
        cc_group_id := cc_group_id c; cc_retry_topic := cc_retry_topic c; cc_options := options |}.

Definition subscription_topics (c : KafkaConsumerConfig) : list str :=
  cc_topic c :: match cc_retry_topic c with Some t => [t] | None => [] end.

(** ** Client settings: [create_producer], [KafkaEventConsumer::connect] *)

(** [ClientConfig::set] overwrites. *)
Definition set_all (settings : list (str * str)) (client : gmap str str) : gmap str str :=
  foldl (fun client kv => <[kv.1 := kv.2]> client) client settings.

Definition producer_settings (c : KafkaConfig) : gmap str str :=
  set_all [(##"bootstrap.servers", kc_bootstrap_servers c); (##"acks", ##"all");
           (##"message.timeout.ms", to_dec (as_millis (kc_delivery_timeout c)));
           (##"allow.auto.create.topics", ##"false")] (kc_options c).
Definition consumer_settings (c : KafkaConsumerConfig) : gmap str str :=
  set_all [(##"bootstrap.servers", cc_bootstrap_servers c); (##"group.id", cc_group_id c);
           (##"enable.auto.commit", ##"false"); (##"enable.auto.offset.store", ##"false");
           (##"allow.auto.create.topics", ##"false")] (cc_options c).

(** ** Errors: [lib.rs] *)

Inductive KafkaError : Type :=
| CreateProducer | Readiness | Delivery | CreateConsumer | Subscribe | Receive | MissingPayload | Decode
| HandlerError | CommitError | GroupMembership | LagSnapshot | LagSnapshotLimitExceeded | RetryTopicNotSubscribed
| FailureRouteConfiguration | RetryMetadata | FailurePublish | FailureRoute.

(** ** Readiness and inspection *)

(** The topics of a metadata answer: name and whether it has an error. *)
Definition Metadata : Type := list (str * bool).
Definition topic_metadata_is_healthy (metadata : Metadata) (topic : str) : bool :=
  existsb (fun entry => str_eqb entry.1 topic && negb entry.2) metadata.

Section readiness.
Context (fetch_metadata : option str -> option Metadata).

(** [KafkaPublisher::readiness]. *)
Definition publisher_readiness (scoped : bool) (topic : str) : result unit KafkaError :=
  match fetch_metadata (if scoped then Some topic else None) with
  | None => Err Readiness
  | Some metadata => if topic_metadata_is_healthy metadata topic then Ok tt else Err Readiness
  end.

(** [KafkaEventConsumer::readiness] and [KafkaFailurePublisher::readiness] by their topics. *)
Fixpoint each_topic_ready (topics : list str) : result unit KafkaError :=
  match topics with
  | [] => Ok tt
  | topic :: rest =>
      match fetch_metadata (Some topic) with
      | None => Err Readiness
      | Some metadata =>
          if negb (topic_metadata_is_healthy metadata topic) then Err Readiness else each_topic_ready rest
      end
  end.
Definition topics_readiness (scoped : bool) (topics : list str) : result unit KafkaError :=
  if scoped then each_topic_ready topics
  else match fetch_metadata None with
       | None => Err Readiness
       | Some metadata => if forallb (topic_metadata_is_healthy metadata) topics then Ok tt else Err Readiness
       end.
End readiness.

(** [group_member_count]: the groups of the answer with their members. *)
Definition group_member_count (group_id : str) (fetch_group_list : option (list (str * nat))) : result nat KafkaError :=
  match fetch_group_list with
  | None => Err GroupMembership
  | Some groups => Ok (match List.find (fun g => str_eqb g.1 group_id) groups with Some g => g.2 | None => 0%nat end)
  end.

Record KafkaPartitionLag : Type := {
  lag_topic : str;
  lag_partition : Z;
  lag_position : option Z;
  low_watermark : Z;
  high_watermark : Z;
  lag : option Z
}.
Definition DEFAULT_LAG_SNAPSHOT_PARTITION_LIMIT : Z := 128.

(** [i64::saturating_sub]. *)
Definition saturating_sub_i64 (a b : Z) : Z := Z.max (- i64_max - 1) (Z.min i64_max (a - b)).
Definition partition_lag (position low high : Z) : Z :=
  Z.max (saturating_sub_i64 high (Z.max position low)) 0.

(** [position] finds the partition's offset, when it is a concrete one. *)
Definition lag_of (position : str -> Z -> option Z) (watermarks : str -> Z -> option (Z * Z)) (a : str * Z) :
    result KafkaPartitionLag KafkaError :=
  let position := match position a.1 a.2 with Some o => if 0 <=? o then Some o else None | None => None end in
  match watermarks a.1 a.2 with
  | None => Err LagSnapshot
  | Some (low, high) =>
      Ok {| lag_topic := a.1; lag_partition := a.2; lag_position := position; low_watermark := low;
            high_watermark := high; lag := (fun p => partition_lag p low high) <$> position |}
  end.

Definition lag_snapshot_with_limit (limit : Z) (assignment : option (list (str * Z)))
    (positions : option (str -> Z -> option Z)) (watermarks : str -> Z -> option (Z * Z)) :
    result (list KafkaPartitionLag) KafkaError :=
  match assignment with
  | None => Err LagSnapshot
  | Some assignment =>
      if limit <? Z.of_nat (List.length assignment) then Err LagSnapshotLimitExceeded
      else match positions with
           | None => Err LagSnapshot
           | Some position => collect_results (map (lag_of position watermarks) assignment)
           end
  end.
Definition lag_snapshot := lag_snapshot_with_limit DEFAULT_LAG_SNAPSHOT_PARTITION_LIMIT.

(** ** Records *)

Record Header : Type := { hdr_key : str; hdr_value : option bytes }.
(** What a producer sends, and what a consumer receives; a record without headers has
    [None]. *)
Record KafkaRecord : Type := {
  rec_topic : str;
  rec_key : option bytes;
  rec_payload : option bytes;
  rec_headers : list Header
}.
Record KafkaMessage : Type := {
  km_topic : str;
  km_partition : Z;
  km_offset : Z;
  km_key : option bytes;
  km_payload : option bytes;
  km_headers : option (list Header)
}.
#[export] Instance header_eq_dec : EqDecision Header.
Proof. solve_decision. Defined.

(** [KafkaPublisher::publish]. *)
Definition published_record `{UuidApi} (topic : str) (m : EventMessage) : KafkaRecord :=
  {| rec_topic := topic; rec_key := Some (ev_key m); rec_payload := Some (ev_payload m);
     rec_headers := [{| hdr_key := ##"rustee-event-id"; hdr_value := Some (uuid_to_string (ev_id m)) |};
                     {| hdr_key := ##"rustee-event-type"; hdr_value := Some (ev_type m) |};
                     {| hdr_key := ##"rustee-event-version"; hdr_value := Some (to_dec (ev_version m)) |}] |}.

(** ** Failure routing: [failure.rs] *)

Record KafkaRetryConfig : Type := {
  rt_retry_topic : str;
  rt_dead_letter_topic : str;
  (** A [NonZeroU16]. *)
  rt_max_deliveries : Z
}.
Definition retry_config_new (retry_topic dead_letter_topic : str) (max_deliveries : Z) :
    result KafkaRetryConfig KafkaConfigError :=
  let? _ := validate_topic_name retry_topic in
  let? _ := validate_topic_name dead_letter_topic in
  if str_eqb retry_topic dead_letter_topic then Err RetryTopicMatchesDeadLetter
  else Ok {| rt_retry_topic := retry_topic; rt_dead_letter_topic := dead_letter_topic;
             rt_max_deliveries := max_deliveries |}.

Inductive KafkaRetryAction : Type := KafkaRetry (next_attempt : Z) | KafkaDeadLetter.
Definition kafka_after_failure (c : KafkaRetryConfig) (attempt : Z) : KafkaRetryAction :=
  if (attempt =? 0) || (rt_max_deliveries c <=? attempt) then KafkaDeadLetter
  else KafkaRetry (saturating_add u16_max attempt 1).

Inductive KafkaFailureKind : Type := DecodeFailure | HandlerFailure.
#[export] Instance failure_kind_eq_dec : EqDecision KafkaFailureKind.
Proof. solve_decision. Defined.
Definition failure_kind_str (k : KafkaFailureKind) : str :=
  match k with DecodeFailure => ##"decode" | HandlerFailure => ##"handler" end.

(** ** Headers: [failure/metadata.rs], [failure_headers] *)

Definition RETRY_ATTEMPT_HEADER : str := ##"rustee-event-retry-attempt".
Definition FAILURE_KIND_HEADER : str := ##"rustee-event-failure-kind".
Definition ORIGIN_TOPIC_HEADER : str := ##"rustee-event-origin-topic".
Definition ORIGIN_PARTITION_HEADER : str := ##"rustee-event-origin-partition".
Definition ORIGIN_OFFSET_HEADER : str := ##"rustee-event-origin-offset".

Record FailureOrigin : Type := { fo_topic : str; fo_partition : Z; fo_offset : Z }.

(** [str::parse] for a signed type with maximum [bound]. *)
Definition parse_signed (bound : Z) (s : str) : option Z :=
  match strip_prefix ##"-" s with
  | Some [] => None
  | Some digits =>
      match digits_value 0 digits with
      | Some v => if v <=? bound + 1 then Some (- v) else None
      | None => None
      end
  | None => parse_unsigned bound s
  end.
Definition parse_non_negative (bound : Z) (s : str) : result Z KafkaError :=
  match parse_signed bound s with
  | Some v => if 0 <=? v then Ok v else Err RetryMetadata
  | None => Err RetryMetadata
  end.

(** The value of a header that occurs at most once, as text. *)
Definition unique_header (headers : option (list Header)) (name : str) : result (option str) KafkaError :=
  match headers with
  | None => Ok None
  | Some headers =>
      match List.filter (fun h => str_eqb (hdr_key h) name) headers with
      | [] => Ok None
      | [h] => match hdr_value h with
               | Some value => if valid_utf8 value then Ok (Some value) else Err RetryMetadata
               | None => Err RetryMetadata
               end
      | _ => Err RetryMetadata
      end
  end.

Definition retry_attempt (m : KafkaMessage) : result Z KafkaError :=
  let? value := unique_header (km_headers m) RETRY_ATTEMPT_HEADER in
  match value with
  | None => Ok 1
  | Some value =>
      match parse_unsigned u16_max value with
      | Some attempt => if 0 <? attempt then Ok attempt else Err RetryMetadata
      | None => Err RetryMetadata
      end
  end.

Definition unique_header_text (headers : option (list Header)) (name : str) : result (option str) KafkaError :=
  let? value := unique_header headers name in
  match value with
  | None => Ok None
  | Some value =>
      if negb (is_blank value) && (List.length value <=? 255)%nat then Ok (Some value) else Err RetryMetadata
  end.

Definition origin_source (topic : str) (partition offset : Z) : result FailureOrigin KafkaError :=
  let? _ := map_err (fun _ => RetryMetadata) (validate_topic_name topic) in
  if (partition <? 0) || (offset <? 0) then Err RetryMetadata
  else Ok {| fo_topic := topic; fo_partition := partition; fo_offset := offset |}.

Definition origin_from_message (m : KafkaMessage) : result FailureOrigin KafkaError :=
  let? topic := unique_header_text (km_headers m) ORIGIN_TOPIC_HEADER in
  let? partition := unique_header_text (km_headers m) ORIGIN_PARTITION_HEADER in
  let? offset := unique_header_text (km_headers m) ORIGIN_OFFSET_HEADER in
  match topic, partition, offset with
  | None, None, None => origin_source (km_topic m) (km_partition m) (km_offset m)
  | Some topic, Some partition, Some offset =>
      let? _ := map_err (fun _ => RetryMetadata) (validate_topic_name topic) in
      let? partition := parse_non_negative i32_max partition in
      let? offset := parse_non_negative i64_max offset in
      Ok {| fo_topic := topic; fo_partition := partition; fo_offset := offset |}
  | _, _, _ => Err RetryMetadata
  end.

Definition failure_headers (attempt : Z) (failure : KafkaFailureKind) (o : FailureOrigin) : list Header :=
  [{| hdr_key := RETRY_ATTEMPT_HEADER; hdr_value := Some (to_dec attempt) |};
   {| hdr_key := FAILURE_KIND_HEADER; hdr_value := Some (failure_kind_str failure) |};
   {| hdr_key := ORIGIN_TOPIC_HEADER; hdr_value := Some (fo_topic o) |};
   {| hdr_key := ORIGIN_PARTITION_HEADER; hdr_value := Some (to_dec (fo_partition o)) |};
   {| hdr_key := ORIGIN_OFFSET_HEADER; hdr_value := Some (to_dec (fo_offset o)) |}].

(** [validate_failure_route_topics] of [consumer.rs]. *)
Definition validate_failure_route_topics (source : str) (subscribed : list str) (retry dead_letter : str) :
    result unit KafkaError :=
  if negb (is_topic_name retry) || negb (is_topic_name dead_letter) || str_eqb retry source
     || str_eqb dead_letter source || str_eqb retry dead_letter
  then Err FailureRouteConfiguration
  else if negb (existsb (fun t => str_eqb t retry) subscribed) then Err RetryTopicNotSubscribed
  else Ok tt.

(** ** Lemmas *)

Lemma topic_name_text t : is_topic_name t = true -> is_blank t = false /\ valid_utf8 t = true /\ (List.length t <= 249)%nat.
Proof.
  unfold is_topic_name. rewrite negb_true_iff, !orb_false_iff. intros [[[HB HL] _] _].
  apply Nat.ltb_ge in HL. unfold MAX_TOPIC_BYTES in HL. split_and!; [done | | done].
  unfold is_blank, chars, valid_utf8 in *. by destruct (utf8_chars t).
Qed.
Lemma validate_topic_name_Ok t : validate_topic_name t = Ok tt <-> is_topic_name t = true.
Proof. unfold validate_topic_name. by destruct (is_topic_name t). Qed.

Definition valid_origin (o : FailureOrigin) : Prop :=
  is_topic_name (fo_topic o) = true /\ 0 <= fo_partition o <= i32_max /\ 0 <= fo_offset o <= i64_max.

Lemma parse_to_dec_signed bound n : 0 <= n <= bound -> parse_non_negative bound (to_dec n) = Ok n.
Proof.
  intros Hn. unfold parse_non_negative, parse_signed.
  assert (HS : strip_prefix ##"-" (to_dec n) = None).
  { pose proof (to_dec_digits n ltac:(lia)) as HF. destruct (to_dec n) as [|c s]; [done|].
    inversion HF as [|c' s' Hc _]; subst. cbn -[char_eqb]. by destruct c as [[] [] [] [] [] [] [] []]; vm_compute in Hc |- *. }
  rewrite HS, parse_to_dec by done. by rewrite (proj2 (Z.leb_le _ _)) by lia.
Qed.

Lemma failure_headers_attempt m a k o :
  km_headers m = Some (failure_headers a k o) -> 0 < a <= u16_max -> retry_attempt m = Ok a.
Proof.
  intros Hm Ha. unfold retry_attempt, unique_header. rewrite Hm.
  change (List.filter _ (failure_headers a k o)) with [{| hdr_key := RETRY_ATTEMPT_HEADER; hdr_value := Some (to_dec a) |}].
  cbn [hdr_value]. destruct (to_dec_text a ltac:(lia)) as [-> _].
  rewrite parse_to_dec by lia. by rewrite (proj2 (Z.ltb_lt _ _)) by lia.
Qed.

Lemma unique_text hs name value :
  List.filter (fun h => str_eqb (hdr_key h) name) hs = [{| hdr_key := name; hdr_value := Some value |}] ->
  valid_utf8 value = true -> is_blank value = false -> (List.length value <= 255)%nat ->
  unique_header_text (Some hs) name = Ok (Some value).
Proof.
  intros HF HV HB HL. unfold unique_header_text, unique_header. rewrite HF. cbn [hdr_value]. rewrite HV, HB.
  by rewrite (proj2 (Nat.leb_le _ _)).
Qed.

Lemma dec_short n : 0 <= n <= i64_max -> (List.length (to_dec n) <= 255)%nat.
Proof.
  intros Hn. etrans; [apply (to_dec_length n 19)|lia]. unfold i64_max in Hn.
  change (10 ^ Z.of_nat 20) with 100000000000000000000. lia.
Qed.

Lemma failure_headers_origin m a k o :
  km_headers m = Some (failure_headers a k o) -> valid_origin o -> origin_from_message m = Ok o.
Proof.
  intros Hm (HT & HP & HO). unfold origin_from_message. rewrite Hm.
  destruct (topic_name_text _ HT) as (HB & HV & HL).
  destruct (to_dec_text (fo_partition o) ltac:(lia)) as [HV1 HB1].
  destruct (to_dec_text (fo_offset o) ltac:(lia)) as [HV2 HB2].
  pose proof (dec_short (fo_partition o) ltac:(unfold i32_max, i64_max in *; lia)).
  pose proof (dec_short (fo_offset o) HO).
  rewrite (unique_text _ ORIGIN_TOPIC_HEADER (fo_topic o)) by (done || lia).
  rewrite (unique_text _ ORIGIN_PARTITION_HEADER (to_dec (fo_partition o))) by done.
  rewrite (unique_text _ ORIGIN_OFFSET_HEADER (to_dec (fo_offset o))) by done.
  apply validate_topic_name_Ok in HT. rewrite HT. cbn [map_err].
  rewrite !parse_to_dec_signed by done. by destruct o.
Qed.

(** Headers that carry no retry metadata. *)
Definition plain_headers (hs : option (list Header)) : Prop :=
  match hs with
  | None => True
  | Some hs => Forall (fun h => hdr_key h ∉ [RETRY_ATTEMPT_HEADER; ORIGIN_TOPIC_HEADER; ORIGIN_PARTITION_HEADER;
                                             ORIGIN_OFFSET_HEADER]) hs
  end.
Lemma plain_unique hs name :
  plain_headers hs -> name ∈ [RETRY_ATTEMPT_HEADER; ORIGIN_TOPIC_HEADER; ORIGIN_PARTITION_HEADER; ORIGIN_OFFSET_HEADER] ->
  unique_header hs name = Ok None.
Proof.
  intros HP Hn. unfold unique_header. destruct hs as [hs|]; [|done]. cbn in HP.
  assert (List.filter (fun h => str_eqb (hdr_key h) name) hs = []) as ->; [|done].
  induction HP as [|h hs Hh _ IH]; [done|]. cbn [List.filter].
  destruct (str_eqb (hdr_key h) name) eqn:EH; [|done]. apply str_eqb_true in EH. rewrite EH in Hh. done.
Qed.
Lemma plain_attempt m : plain_headers (km_headers m) -> retry_attempt m = Ok 1.
Proof. intros HP. unfold retry_attempt. by rewrite plain_unique by (done || left). Qed.
Lemma plain_origin m :
  plain_headers (km_headers m) -> origin_from_message m = origin_source (km_topic m) (km_partition m) (km_offset m).
Proof.
  intros HP. unfold origin_from_message, unique_header_text.
  rewrite !plain_unique by (done || (rewrite !elem_of_cons; tauto)). done.
Qed.
