(* ===== verification/KafkaRetry.v ===== *)
(** Consuming events from Kafka and retrying them: the worker loops of
    [crates/rustee-events-kafka/src/consumer.rs], the failure publisher of
    [failure/publisher.rs], and the durable delayed retries of
    [crates/rustee-events-kafka-sqlx/src/adapter]: [config.rs], [router.rs], [relay.rs],
    [relay/executor.rs] and [relay/runner.rs] over the table of the migration.

    The loops are programs over their calls ([Effects]). Instants are microseconds, a
    statement is atomic and reads the clock once, so that [SKIP LOCKED] skips nothing. *)

From Stdlib Require Import ZArith Lia Bool Ascii.
From stdpp Require Import gmap sorting.
From S2P Require Import Prelude Strings Uuid Json Outbox Events Effects Kafka.

Local Open Scope Z_scope.

(** ** Configuration: [config.rs] *)

(** [KafkaDelayedRetryDelay]. *)
Definition retry_delay_new (delay : Duration) : option Duration :=
  if (delay <? from_millis 1) || negb (subsec_nanos delay mod 1000000 =? 0) || (from_hours 8784 <? delay)
  then None else Some delay.
Definition delay_milliseconds (delay : Duration) : Z := as_millis delay.

Record KafkaDelayedRetryRelayConfig : Type := { rl_lease : Duration; rl_retry_after_failure : Duration }.

Definition MAX_READINESS_TIMEOUT : Duration := from_millis 60000.
Record KafkaDelayedRetryReadinessConfig : Type := { database_timeout : Duration; kafka_timeout : Duration }.
Inductive KafkaDelayedRetryReadinessConfigError : Type := ZeroTimeout | TimeoutTooLong.
Definition readiness_config_new (database kafka : Duration) :
    result KafkaDelayedRetryReadinessConfig KafkaDelayedRetryReadinessConfigError :=
  if (database =? 0) || (kafka =? 0) then Err ZeroTimeout
  else if (MAX_READINESS_TIMEOUT <? database) || (MAX_READINESS_TIMEOUT <? kafka) then Err TimeoutTooLong
  else Ok {| database_timeout := database; kafka_timeout := kafka |}.
Definition readiness_config_default := readiness_config_new (from_millis 5000) (from_millis 5000).
Inductive KafkaDelayedRetryReadinessError : Type := ReadinessDatabase | ReadinessKafka.

Definition MAX_RELAY_IDLE_DELAY : Duration := from_hours 1.
Definition MAX_RELAY_BATCH_SIZE : Z := 100.
Inductive KafkaDelayedRetryRelayBatchSizeError : Type := BatchZero | RelayBatchTooLarge.
Definition relay_batch_size_new (batch_size : Z) : result Z KafkaDelayedRetryRelayBatchSizeError :=
  if batch_size =? 0 then Err BatchZero
  else if MAX_RELAY_BATCH_SIZE <? batch_size then Err RelayBatchTooLarge
  else Ok batch_size.

Record KafkaDelayedRetryRelayLoopConfig : Type := { lc_batch_size : Z; lc_idle_delay : Duration }.
Inductive KafkaDelayedRetryRelayLoopConfigError : Type := ZeroIdleDelay | IdleDelayTooLong.
Definition relay_loop_config_new (batch_size : Z) (idle_delay : Duration) :
    result KafkaDelayedRetryRelayLoopConfig KafkaDelayedRetryRelayLoopConfigError :=
  if idle_delay =? 0 then Err ZeroIdleDelay
  else if MAX_RELAY_IDLE_DELAY <? idle_delay then Err IdleDelayTooLong
  else Ok {| lc_batch_size := batch_size; lc_idle_delay := idle_delay |}.

Definition relay_loop_config_default := relay_loop_config_new 100 (from_millis 1000).

(** Two [usize] counters. *)
Record KafkaDelayedRetryRelayLoopReport : Type := { rp_passes : Z; rp_published : Z }.
Definition relay_report_default : KafkaDelayedRetryRelayLoopReport := {| rp_passes := 0; rp_published := 0 |}.
Definition relay_report_record (published : Z) (r : KafkaDelayedRetryRelayLoopReport) :
    KafkaDelayedRetryRelayLoopReport :=
  {| rp_passes := saturating_add u64_max (rp_passes r) 1;
     rp_published := saturating_add u64_max (rp_published r) published |}.

(** ** The table *)

Record RetryRow : Type := {
  dr_id : Uuid;
  dr_origin : FailureOrigin;
  dr_retry_topic : str;
  dr_attempt : Z;
  dr_failure : str;
  dr_key : option bytes;
  dr_payload : bytes;
  dr_available_at : Z;
  dr_leased_until : option Z;
  dr_lease_token : option Uuid;
  dr_relay_attempt : Z;
  dr_published_at : option Z;
  dr_created_at : Z
}.
Record RetryTable : Type := { rt_clock : Z; rt_rows : list RetryRow }.

Definition octets (s : str) (low high : nat) : bool :=
  (low <=? List.length s)%nat && (List.length s <=? high)%nat.
(** The [CHECK] constraints. *)
Definition retry_row_checks (r : RetryRow) : bool :=
  octets (fo_topic (dr_origin r)) 1 255 && (0 <=? fo_partition (dr_origin r)) && (0 <=? fo_offset (dr_origin r))
  && octets (dr_retry_topic r) 1 255 && ((2 <=? dr_attempt r) && (dr_attempt r <=? 65535))
  && (str_eqb (dr_failure r) ##"decode" || str_eqb (dr_failure r) ##"handler")
  && octets (dr_payload r) 1 1048576 && (0 <=? dr_relay_attempt r)
  && Bool.eqb (is_some (dr_lease_token r)) (is_some (dr_leased_until r)).

#[export] Instance origin_eq_dec : EqDecision FailureOrigin.
Proof. solve_decision. Defined.

(** The [UNIQUE] key. *)
Definition retry_key (r : RetryRow) : FailureOrigin * Z := (dr_origin r, dr_attempt r).

Definition set_rows (rows : list RetryRow) (t : RetryTable) : RetryTable :=
  {| rt_clock := rt_clock t; rt_rows := rows |}.

Definition stage_retry_sql : str :=
  ##"INSERT INTO rustee_kafka_delayed_retries (id, origin_topic, origin_partition, origin_offset, retry_topic, retry_attempt, failure_kind, event_key, payload, available_at) VALUES ($1,$2,$3,$4,$5,$6,$7,$8,$9,clock_timestamp()+($10::bigint * INTERVAL '1 millisecond')) ON CONFLICT (origin_topic, origin_partition, origin_offset, retry_attempt) DO NOTHING".
Definition staged_row (id : Uuid) (o : FailureOrigin) (retry_topic : str) (attempt : Z) (failure : str)
    (key : option bytes) (payload : bytes) (delay now : Z) : RetryRow :=
  {| dr_id := id; dr_origin := o; dr_retry_topic := retry_topic; dr_attempt := attempt; dr_failure := failure;
     dr_key := key; dr_payload := payload; dr_available_at := now + delay * 1000; dr_leased_until := None;
     dr_lease_token := None; dr_relay_attempt := 0; dr_published_at := None; dr_created_at := now |}.
(** [INSERT .. ON CONFLICT .. DO NOTHING]; a repeated primary key is not the named conflict. *)
Definition insert_retry (id : Uuid) (o : FailureOrigin) (retry_topic : str) (attempt : Z) (failure : str)
    (key : option bytes) (payload : bytes) (delay : Z) (t : RetryTable) : result (Z * RetryTable) SqlxError :=
  let row := staged_row id o retry_topic attempt failure key payload delay (rt_clock t) in
  if negb (retry_row_checks row) then Err ConstraintViolated
  else if existsb (fun r => bool_decide (retry_key r = retry_key row)) (rt_rows t) then Ok (0, t)
  else if existsb (fun r => dr_id r =? id) (rt_rows t) then Err ConstraintViolated
  else Ok (1, set_rows (rt_rows t ++ [row]) t).

Definition CLAIM_DUE_ROWS_SQL : str :=
  ##"
WITH candidates AS (
    SELECT id
    FROM rustee_kafka_delayed_retries
    WHERE published_at IS NULL
      AND available_at <= clock_timestamp()
      AND (leased_until IS NULL OR leased_until <= clock_timestamp())
    ORDER BY available_at, created_at, id
    FOR UPDATE SKIP LOCKED
    LIMIT $1
), claimed AS (
    UPDATE rustee_kafka_delayed_retries AS retry
    SET lease_token = $2,
        leased_until = clock_timestamp() + ($3::bigint * INTERVAL '1 millisecond'),
        relay_attempt = retry.relay_attempt + 1
    FROM candidates
    WHERE retry.id = candidates.id
    RETURNING retry.*
)
SELECT *
FROM claimed
ORDER BY available_at, created_at, id
".

Definition is_due (now : Z) (r : RetryRow) : bool :=
  negb (is_some (dr_published_at r)) && (dr_available_at r <=? now)
  && match dr_leased_until r with None => true | Some l => l <=? now end.
(** [ORDER BY available_at, created_at, id]. *)
Definition due_le (a b : RetryRow) : Prop :=
  dr_available_at a < dr_available_at b \/ dr_available_at a = dr_available_at b /\
  (dr_created_at a < dr_created_at b \/ dr_created_at a = dr_created_at b /\ dr_id a <= dr_id b).
#[export] Instance due_le_dec : RelDecision due_le.
Proof. intros a b. unfold due_le. apply _. Defined.

Definition claimed_row (token : Uuid) (until : Z) (r : RetryRow) : RetryRow :=
  {| dr_id := dr_id r; dr_origin := dr_origin r; dr_retry_topic := dr_retry_topic r; dr_attempt := dr_attempt r;
     dr_failure := dr_failure r; dr_key := dr_key r; dr_payload := dr_payload r;
     dr_available_at := dr_available_at r; dr_leased_until := Some until; dr_lease_token := Some token;
     dr_relay_attempt := dr_relay_attempt r + 1; dr_published_at := dr_published_at r;
     dr_created_at := dr_created_at r |}.
Definition claim_due_rows (limit : Z) (token : Uuid) (lease : Z) (t : RetryTable) :
    result (list RetryRow * RetryTable) SqlxError :=
  let candidates := take (Z.to_nat limit) (merge_sort due_le (List.filter (is_due (rt_clock t)) (rt_rows t))) in
  if existsb (fun r => i32_max <? dr_relay_attempt r + 1) candidates then Err NumberOutOfRange
  else
    let claim := claimed_row token (rt_clock t + lease * 1000) in
    let is_candidate r := existsb (fun c => dr_id c =? dr_id r) candidates in
    Ok (map claim candidates,
        set_rows (map (fun r => if is_candidate r then claim r else r) (rt_rows t)) t).

Definition confirm_sql : str :=
  ##"UPDATE rustee_kafka_delayed_retries SET published_at=clock_timestamp(), leased_until=NULL, lease_token=NULL WHERE id=$1 AND lease_token=$2".
Definition confirmed_row (now : Z) (r : RetryRow) : RetryRow :=
  {| dr_id := dr_id r; dr_origin := dr_origin r; dr_retry_topic := dr_retry_topic r; dr_attempt := dr_attempt r;
     dr_failure := dr_failure r; dr_key := dr_key r; dr_payload := dr_payload r;
     dr_available_at := dr_available_at r; dr_leased_until := None; dr_lease_token := None;
     dr_relay_attempt := dr_relay_attempt r; dr_published_at := Some now; dr_created_at := dr_created_at r |}.
Definition holds_lease (token : Uuid) (r : RetryRow) : bool := bool_decide (dr_lease_token r = Some token).
(** [UPDATE .. WHERE ..]: the rows that satisfy the condition are rewritten and counted. *)
Definition update_rows (condition : RetryRow -> bool) (f : RetryRow -> RetryRow) (t : RetryTable) : Z * RetryTable :=
  (Z.of_nat (List.length (List.filter condition (rt_rows t))),
   set_rows (map (fun r => if condition r then f r else r) (rt_rows t)) t).
Definition confirm_row (id token : Uuid) (t : RetryTable) : result (Z * RetryTable) SqlxError :=
  Ok (update_rows (fun r => (dr_id r =? id) && holds_lease token r) (confirmed_row (rt_clock t)) t).

Definition release_sql : str :=
  ##"UPDATE rustee_kafka_delayed_retries SET available_at=clock_timestamp()+($1::bigint * INTERVAL '1 millisecond'), leased_until=NULL, lease_token=NULL WHERE published_at IS NULL AND lease_token=$2".
Definition released_row (available : Z) (r : RetryRow) : RetryRow :=
  {| dr_id := dr_id r; dr_origin := dr_origin r; dr_retry_topic := dr_retry_topic r; dr_attempt := dr_attempt r;
     dr_failure := dr_failure r; dr_key := dr_key r; dr_payload := dr_payload r; dr_available_at := available;
     dr_leased_until := None; dr_lease_token := None; dr_relay_attempt := dr_relay_attempt r;
     dr_published_at := dr_published_at r; dr_created_at := dr_created_at r |}.
Definition release_rows (delay : Z) (token : Uuid) (t : RetryTable) : result (Z * RetryTable) SqlxError :=
  Ok (update_rows (fun r => negb (is_some (dr_published_at r)) && holds_lease token r)
        (released_row (rt_clock t + delay * 1000)) t).

Record KafkaDelayedRetryBacklog : Type := {
  bl_unpublished : Z;
  bl_due : Z;
  bl_leased : Z;
  bl_oldest_due_age : option Duration
}.
(** The aggregates of [backlog]; [FLOOR(EXTRACT(EPOCH FROM ..) * 1000)] in milliseconds. *)
Definition backlog (t : RetryTable) : KafkaDelayedRetryBacklog :=
  let now := rt_clock t in
  let unpublished := List.filter (fun r => negb (is_some (dr_published_at r))) (rt_rows t) in
  let due := List.filter (fun r => dr_available_at r <=? now) unpublished in
  let leased := List.filter (fun r => match dr_leased_until r with Some l => now <? l | None => false end) unpublished in
  {| bl_unpublished := Z.of_nat (List.length unpublished);
     bl_due := Z.of_nat (List.length due);
     bl_leased := Z.of_nat (List.length leased);
     bl_oldest_due_age :=
       match map dr_available_at due with
       | [] => None
       | a :: rest => Some (from_millis ((now - fold_right Z.min a rest) / 1000))
       end |}.

(** ** Calls *)

Inductive RelayOutcome : Type := RelaySucceeded | RelayFailed | RelayAbandoned.
Definition relay_outcome_as_str (o : RelayOutcome) : str :=
  match o with RelaySucceeded => ##"succeeded" | RelayFailed => ##"failed" | RelayAbandoned => ##"abandoned" end.
Inductive KafkaObservation : Type :=
| DeliveryObservation (o : EventObservation)
| RelayStarted
| RelayFinished (outcome : RelayOutcome) (published : option Z).

Section calls.
Context {E : Type} `{!Event E}.

Inductive kcall : Type -> Type :=
(** [select!] on shutdown and [recv]: [None] when shutdown wins. *)
| Recv : kcall (option (result KafkaMessage unit))
(** The application's handler. *)
| Handle (payload : E) (context : EventContext) : kcall (result unit unit)
(** [FutureProducer::send] until it is acknowledged, and a synchronous commit. *)
| Send (r : KafkaRecord) : kcall (result unit unit)
| CommitMessage (m : KafkaMessage) : kcall (result unit unit)
(** A statement of the database: its text and what it does. *)
| RetryStatement {A : Type} (text : str) (meaning : RetryTable -> result (A * RetryTable) SqlxError) :
    kcall (result A SqlxError)
| NewUuid : kcall Uuid
(** [select!] on shutdown and a ready future or a sleep: [true] when shutdown wins. *)
| ShutdownOr : kcall bool
| Observe (o : KafkaObservation) : kcall unit.

Notation kprog := (program kcall).

(** ** Consuming: [consumer.rs] *)

Context (from_slice_typed : bytes -> option (EventEnvelope E)).

Definition APACHE_KAFKA : str := ##"apache_kafka".

(** [EventDeliveryObservation] around the processing of one record: finished on success,
    dropped on an error. *)
Definition observed (body : kprog (result (option Z * EventDeliveryOutcome) KafkaError)) :
    kprog (result unit KafkaError) :=
  _ ← ask (Observe (DeliveryObservation (EventDeliveryStarted APACHE_KAFKA)));
  r ← body;
  match r : result (option Z * EventDeliveryOutcome) KafkaError with
  | Ok (attempt, outcome) =>
      _ ← ask (Observe (DeliveryObservation (EventDeliveryFinished APACHE_KAFKA attempt outcome)));
      Ret (Ok tt)
  | Err e =>
      _ ← ask (Observe (DeliveryObservation (EventDeliveryFinished APACHE_KAFKA None Unsettled)));
      Ret (Err e)
  end.

(** The loop over records; [None] when it is dropped after [n] of them. *)
Fixpoint receive_loop (process : KafkaMessage -> kprog (result (option Z * EventDeliveryOutcome) KafkaError))
    (n : nat) : kprog (option (result unit KafkaError)) :=
  match n with
  | O => Ret None
  | S n =>
      received ← ask Recv;
      match received : option (result KafkaMessage unit) with
      | None => Ret (Some (Ok tt))
      | Some (Err _) => Ret (Some (Err Receive))
      | Some (Ok m) =>
          r ← observed (process m);
          match r : result unit KafkaError with
          | Ok _ => receive_loop process n
          | Err e => Ret (Some (Err e))
          end
      end
  end.

(** The body of [run_until]. *)
Definition process_strict (m : KafkaMessage) : kprog (result (option Z * EventDeliveryOutcome) KafkaError) :=
  pure_try Datatypes.id (ok_or (km_payload m) MissingPayload) (fun payload =>
  pure_try (fun _ => Decode) (event_decode from_slice_typed payload) (fun envelope =>
  try_ (fun _ => HandlerError) (ask (Handle (ee_payload envelope) (context_from_envelope envelope))) (fun _ =>
  try_ (fun _ => CommitError) (ask (CommitMessage m)) (fun _ =>
  Ret (Ok (None, Acknowledged)))))).
Definition run_until (n : nat) : kprog (option (result unit KafkaError)) := receive_loop process_strict n.

(** [KafkaFailureRouter]; a [KafkaFailureRecord] is a message with its origin. *)
Class KafkaFailureRouter (R : Type) := {
  router_retry_topic : R -> str;
  router_dead_letter_topic : R -> str;
  route : R -> KafkaMessage * FailureOrigin -> KafkaFailureKind -> Z -> kprog (result KafkaRetryAction KafkaError)
}.

Definition action_outcome (a : KafkaRetryAction) : EventDeliveryOutcome :=
  match a with KafkaRetry _ => Retried | KafkaDeadLetter => DeadLettered end.

Section routed.
Context {R : Type} `{!KafkaFailureRouter R} (router : R).

Definition route_failure (m : KafkaMessage) (failure : KafkaFailureKind) (attempt : Z) :
    kprog (result EventDeliveryOutcome KafkaError) :=
  pure_try Datatypes.id (origin_from_message m) (fun origin =>
  try_ Datatypes.id (route router (m, origin) failure attempt) (fun action =>
  Ret (Ok (action_outcome action)))).

(** The body of [run_with_failure_routing]. *)
Definition process_routed (m : KafkaMessage) : kprog (result (option Z * EventDeliveryOutcome) KafkaError) :=
  pure_try Datatypes.id (retry_attempt m) (fun attempt =>
  pure_try Datatypes.id (ok_or (km_payload m) MissingPayload) (fun payload =>
  try_ Datatypes.id
    (match event_decode from_slice_typed payload with
     | Ok envelope =>
         r ← ask (Handle (ee_payload envelope) (context_from_envelope envelope));
         match r : result unit unit with
         | Ok _ => Ret (Ok Acknowledged)
         | Err _ => route_failure m HandlerFailure attempt
         end
     | Err _ => route_failure m DecodeFailure attempt
     end) (fun outcome =>
  try_ (fun _ => CommitError) (ask (CommitMessage m)) (fun _ =>
  Ret (Ok (Some attempt, outcome)))))).

Definition run_with_failure_routing (c : KafkaConsumerConfig) (n : nat) : kprog (option (result unit KafkaError)) :=
  match validate_failure_route_topics (cc_topic c) (subscription_topics c)
          (router_retry_topic router) (router_dead_letter_topic router) with
  | Err e => Ret (Some (Err e))
  | Ok _ => receive_loop process_routed n
  end.
End routed.

(** ** The failure publisher: [failure/publisher.rs] *)

Definition failure_record (target : str) (m : KafkaMessage) (payload : bytes) (attempt : Z)
    (failure : KafkaFailureKind) (o : FailureOrigin) : KafkaRecord :=
  {| rec_topic := target; rec_key := km_key m; rec_payload := Some payload;
     rec_headers := failure_headers attempt failure o |}.

Definition publisher_route (c : KafkaRetryConfig) (record : KafkaMessage * FailureOrigin)
    (failure : KafkaFailureKind) (attempt : Z) : kprog (result KafkaRetryAction KafkaError) :=
  let action := kafka_after_failure c attempt in
  let target := match action with KafkaRetry _ => rt_retry_topic c | KafkaDeadLetter => rt_dead_letter_topic c end in
  let next_attempt := match action with KafkaRetry next => next | KafkaDeadLetter => attempt end in
  pure_try Datatypes.id (ok_or (km_payload record.1) MissingPayload) (fun payload =>
  try_ (fun _ => FailurePublish)
    (ask (Send (failure_record target record.1 payload next_attempt failure record.2))) (fun _ =>
  Ret (Ok action))).

(** The retry configuration is what routes; the producer is behind [Send]. *)
Record KafkaFailurePublisher : Type := { fp_retry : KafkaRetryConfig }.
#[export] Instance publisher_is_router : KafkaFailureRouter KafkaFailurePublisher := {
  router_retry_topic p := rt_retry_topic (fp_retry p);
  router_dead_letter_topic p := rt_dead_letter_topic (fp_retry p);
  route p := publisher_route (fp_retry p)
}.

(** [KafkaPublisher::publish]. *)
Definition kafka_publish `{UuidApi} (topic : str) (m : EventMessage) : kprog (result unit KafkaError) :=
  try_ (fun _ => Delivery) (ask (Send (published_record topic m))) (fun _ => Ret (Ok tt)).

Record KafkaDelayedRetryRecord : Type := {
  kd_retry_topic : str;
  kd_origin : FailureOrigin;
  kd_failure : KafkaFailureKind;
  kd_attempt : Z;
  kd_key : option bytes;
  kd_payload : bytes
}.
Definition delayed_record (r : KafkaDelayedRetryRecord) : KafkaRecord :=
  {| rec_topic := kd_retry_topic r; rec_key := kd_key r; rec_payload := Some (kd_payload r);
     rec_headers := failure_headers (kd_attempt r) (kd_failure r) (kd_origin r) |}.
Definition publish_delayed_retry (r : KafkaDelayedRetryRecord) : kprog (result unit KafkaError) :=
  try_ (fun _ => FailurePublish) (ask (Send (delayed_record r))) (fun _ => Ret (Ok tt)).

(** ** Staging delayed retries: [router.rs] *)

Definition MAX_DELAYED_RETRY_PAYLOAD_BYTES : nat := MAX_EVENT_ENVELOPE_BYTES.
Definition MAX_DELAYED_RETRY_KEY_BYTES : nat := MAX_EVENT_ENVELOPE_BYTES.
Definition validate_delayed_retry_record (payload : bytes) (key : option bytes) : result unit KafkaError :=
  if negb (nonempty payload) || (MAX_DELAYED_RETRY_PAYLOAD_BYTES <? List.length payload)%nat
     || match key with Some key => (MAX_DELAYED_RETRY_KEY_BYTES <? List.length key)%nat | None => false end
  then Err FailureRoute else Ok tt.

Record PostgresKafkaDelayedRetryRouter : Type := { pr_fallback : KafkaFailurePublisher; pr_delay : Duration }.

Definition delayed_route (router : PostgresKafkaDelayedRetryRouter) (record : KafkaMessage * FailureOrigin)
    (failure : KafkaFailureKind) (attempt : Z) : kprog (result KafkaRetryAction KafkaError) :=
  let action := kafka_after_failure (fp_retry (pr_fallback router)) attempt in
  match action with
  | KafkaDeadLetter => publisher_route (fp_retry (pr_fallback router)) record failure attempt
  | KafkaRetry next_attempt =>
      pure_try Datatypes.id (ok_or (km_payload record.1) MissingPayload) (fun payload =>
      pure_try Datatypes.id (validate_delayed_retry_record payload (km_key record.1)) (fun _ =>
      id ← ask NewUuid;
      try_ (fun _ => FailureRoute)
        (ask (RetryStatement stage_retry_sql
           (insert_retry id record.2 (rt_retry_topic (fp_retry (pr_fallback router))) next_attempt
              (failure_kind_str failure) (km_key record.1) payload (delay_milliseconds (pr_delay router))))) (fun _ =>
      Ret (Ok action))))
  end.

#[export] Instance delayed_is_router : KafkaFailureRouter PostgresKafkaDelayedRetryRouter := {
  router_retry_topic p := rt_retry_topic (fp_retry (pr_fallback p));
  router_dead_letter_topic p := rt_dead_letter_topic (fp_retry (pr_fallback p));
  route := delayed_route
}.

(** ** The relay: [relay/executor.rs], [relay/runner.rs] *)

Definition validate_stored_retry_record (retry_topic : str) (o : FailureOrigin) (attempt : Z) (payload : bytes)
    (key : option bytes) : result unit KafkaError :=
  if (attempt <? 2) || (fo_partition o <? 0) || (fo_offset o <? 0) then Err FailureRoute
  else
    let? _ := map_err (fun _ => FailureRoute) (validate_topic_name retry_topic) in
    let? _ := map_err (fun _ => FailureRoute) (validate_topic_name (fo_topic o)) in
    validate_delayed_retry_record payload key.

Definition retry_from_row (r : RetryRow) : result (Uuid * KafkaDelayedRetryRecord) KafkaError :=
  let? failure := if str_eqb (dr_failure r) ##"decode" then Ok DecodeFailure
                  else if str_eqb (dr_failure r) ##"handler" then Ok HandlerFailure
                  else Err FailureRoute in
  let? attempt := if (0 <=? dr_attempt r) && (dr_attempt r <=? u16_max) then Ok (dr_attempt r) else Err FailureRoute in
  let? _ := validate_stored_retry_record (dr_retry_topic r) (dr_origin r) attempt (dr_payload r) (dr_key r) in
  Ok (dr_id r, {| kd_retry_topic := dr_retry_topic r; kd_origin := dr_origin r; kd_failure := failure;
                  kd_attempt := attempt; kd_key := dr_key r; kd_payload := dr_payload r |}).

Section relay.
Context (config : KafkaDelayedRetryRelayConfig).

Definition release_claims (token : Uuid) : kprog (result unit KafkaError) :=
  try_ (fun _ => FailureRoute)
    (ask (RetryStatement release_sql (release_rows (delay_milliseconds (rl_retry_after_failure config)) token)))
    (fun _ => Ret (Ok tt)).
(** The claims are released, then the pass fails with [e]. *)
Definition abandon (token : Uuid) (e : KafkaError) : kprog (result Z KafkaError) :=
  try_ Datatypes.id (release_claims token) (fun _ => Ret (Err e)).

Fixpoint relay_rows (token : Uuid) (rows : list RetryRow) (published : Z) : kprog (result Z KafkaError) :=
  match rows with
  | [] => Ret (Ok published)
  | row :: rest =>
      match retry_from_row row with
      | Err e => abandon token e
      | Ok (id, retry) =>
          sent ← publish_delayed_retry retry;
          match sent : result unit KafkaError with
          | Err e => abandon token e
          | Ok _ =>
              changed ← ask (RetryStatement confirm_sql (confirm_row id token));
              match changed : result Z SqlxError with
              | Err _ => abandon token FailureRoute
              | Ok affected => relay_rows token rest (if affected =? 1 then published + 1 else published)
              end
          end
      end
  end.

Definition relay_once_inner (batch_size : Z) : kprog (result Z KafkaError) :=
  token ← ask NewUuid;
  try_ (fun _ => FailureRoute)
    (ask (RetryStatement CLAIM_DUE_ROWS_SQL
       (claim_due_rows batch_size token (delay_milliseconds (rl_lease config))))) (fun rows =>
  relay_rows token rows 0).

Definition relay_once (batch_size : Z) : kprog (result Z KafkaError) :=
  _ ← ask (Observe RelayStarted);
  r ← relay_once_inner batch_size;
  match r : result Z KafkaError with
  | Ok published => _ ← ask (Observe (RelayFinished RelaySucceeded (Some published))); Ret (Ok published)
  | Err e => _ ← ask (Observe (RelayFinished RelayFailed None)); Ret (Err e)
  end.

(** [None] when the loop is dropped after [n] passes. *)
Fixpoint relay_run_until (loop_config : KafkaDelayedRetryRelayLoopConfig) (n : nat)
    (total : KafkaDelayedRetryRelayLoopReport) : kprog (option (result KafkaDelayedRetryRelayLoopReport KafkaError)) :=
  match n with
  | O => Ret None
  | S n =>
      stop ← ask ShutdownOr;
      if stop : bool then Ret (Some (Ok total))
      else
        r ← relay_once (lc_batch_size loop_config);
        match r : result Z KafkaError with
        | Err e => Ret (Some (Err e))
        | Ok published =>
            let total := relay_report_record published total in
            if published =? 0 then
              stop ← ask ShutdownOr;
              if stop : bool then Ret (Some (Ok total)) else relay_run_until loop_config n total
            else relay_run_until loop_config n total
        end
  end.
End relay.

(** [readiness]: [try_join!] fails with the check that fails first. *)
Definition relay_readiness (database : bool) (kafka : result unit KafkaError) (database_first : bool) :
    result unit KafkaDelayedRetryReadinessError :=
  match database, kafka with
  | true, Ok _ => Ok tt
  | true, Err _ => Err ReadinessKafka
  | false, Ok _ => Err ReadinessDatabase
  | false, Err _ => Err (if database_first then ReadinessDatabase else ReadinessKafka)
  end.
End calls.
