(* ===== verification/KafkaDelivery.v ===== *)
(** At-least-once delivery of events over Kafka: consumers of one group, delayed-retry
    relays and producers as callers of one broker and one database, interleaved, failing and
    abandoned anywhere, and what holds of every event of the source topic.

    The broker keeps a log of records per partition, the committed offsets of the groups and
    the fetch position of each consumer; records do not expire. A request that fails may have
    taken effect. *)

From Stdlib Require Import ZArith Lia Bool Ascii.
From stdpp Require Import gmap sorting.
From S2P Require Import Prelude Strings Uuid Json Outbox Events Effects Kafka KafkaRetry.

Local Open Scope Z_scope.

Definition TopicPartition : Type := str * Z.

(** A record as it is received: a record without headers has none. *)
Definition message_at (tp : TopicPartition) (offset : Z) (r : KafkaRecord) : KafkaMessage :=
  {| km_topic := tp.1; km_partition := tp.2; km_offset := offset; km_key := rec_key r; km_payload := rec_payload r;
     km_headers := match rec_headers r with [] => None | hs => Some hs end |}.
Definition message_tp (m : KafkaMessage) : TopicPartition := (km_topic m, km_partition m).

Section world.
Context {E : Type}.

(** A handler run of a group that succeeded: the record it was given and its arguments. *)
Record HandlerRun : Type := {
  hr_group : str;
  hr_message : KafkaMessage;
  hr_payload : E;
  hr_context : EventContext
}.

Record World : Type := {
  logs : gmap TopicPartition (list KafkaRecord);
  committed : gmap (str * TopicPartition) Z;
  positions : gmap (nat * TopicPartition) Z;
  current : gmap nat KafkaMessage;
  handled : list HandlerRun;
  table : RetryTable
}.

Definition log (w : World) (tp : TopicPartition) : list KafkaRecord := default [] (logs w !! tp).

Definition set_logs (l : gmap TopicPartition (list KafkaRecord)) (w : World) : World :=
  {| logs := l; committed := committed w; positions := positions w; current := current w; handled := handled w;
     table := table w |}.
Definition set_committed (c : gmap (str * TopicPartition) Z) (w : World) : World :=
  {| logs := logs w; committed := c; positions := positions w; current := current w; handled := handled w;
     table := table w |}.
Definition set_positions (p : gmap (nat * TopicPartition) Z) (w : World) : World :=
  {| logs := logs w; committed := committed w; positions := p; current := current w; handled := handled w;
     table := table w |}.
Definition set_current (c : gmap nat KafkaMessage) (w : World) : World :=
  {| logs := logs w; committed := committed w; positions := positions w; current := c; handled := handled w;
     table := table w |}.
Definition set_handled (h : list HandlerRun) (w : World) : World :=
  {| logs := logs w; committed := committed w; positions := positions w; current := current w; handled := h;
     table := table w |}.
Definition set_table (t : RetryTable) (w : World) : World :=
  {| logs := logs w; committed := committed w; positions := positions w; current := current w; handled := handled w;
     table := t |}.

Definition append (tp : TopicPartition) (r : KafkaRecord) (w : World) : World :=
  set_logs (<[tp := log w tp ++ [r]]> (logs w)) w.
Definition commit_offset (group : str) (m : KafkaMessage) (w : World) : World :=
  set_committed (<[(group, message_tp m) := km_offset m + 1]> (committed w)) w.
Definition deliver (i : nat) (m : KafkaMessage) (w : World) : World :=
  set_current (<[i := m]> (current w))
    (set_positions (<[(i, message_tp m) := km_offset m + 1]> (positions w)) w).
Definition handler_succeeded (group : str) (i : nat) (payload : E) (context : EventContext) (w : World) : World :=
  match current w !! i with
  | Some m => set_handled (handled w ++ [{| hr_group := group; hr_message := m; hr_payload := payload;
                                            hr_context := context |}]) w
  | None => w
  end.

(** The next record of a partition at the consumer's position. *)
Definition fetched (topics : list str) (i : nat) (w : World) (m : KafkaMessage) : Prop :=
  exists tp offset r, tp.1 ∈ topics /\ 0 <= tp.2 <= i32_max /\ 0 <= offset <= i64_max /\
    positions w !! (i, tp) = Some offset /\ log w tp !! Z.to_nat offset = Some r /\ m = message_at tp offset r.

(** What an answered call of consumer or relay [i] of a group does. *)
Definition does (group : str) (topics : list str) (i : nat) X (c : kcall (E:=E) X) (w : World) :
    X -> World -> Prop :=
  match c in kcall X return X -> World -> Prop with
  | Recv => fun x w' =>
      match x with
      | Some (Ok m) => fetched topics i w m /\ w' = deliver i m w
      | _ => w' = w
      end
  | Handle payload context => fun x w' =>
      match x with
      | Ok _ => w' = handler_succeeded group i payload context w
      | Err _ => w' = w
      end
  | Send r => fun x w' =>
      (exists partition, 0 <= partition <= i32_max /\ w' = append (rec_topic r, partition) r w) \/ x = Err tt /\ w' = w
  | CommitMessage m => fun x w' => w' = commit_offset group m w \/ x = Err tt /\ w' = w
  | RetryStatement _ meaning => fun x w' =>
      match meaning (table w) with
      | Ok (a, t) => w' = set_table t w /\ (x = Ok a \/ exists e, x = Err e) \/ w' = w /\ exists e, x = Err e
      | Err e => w' = w /\ exists e, x = Err e
      end
  | NewUuid => fun _ w' => w' = w
  | ShutdownOr => fun _ w' => w' = w
  | Observe _ => fun _ w' => w' = w
  end.

(** Where a consumer without a committed offset starts: [auto.offset.reset], which is
    [largest] unless an option sets it. *)
Definition resets_to_start (config : KafkaConsumerConfig) : bool :=
  match consumer_settings config !! ##"auto.offset.reset" with
  | Some v => existsb (str_eqb v) [ ##"smallest"; ##"earliest"; ##"beginning" ]
  | None => false
  end.
Definition start_offset (config : KafkaConsumerConfig) (tp : TopicPartition) (w : World) : Z :=
  match committed w !! (cc_group_id config, tp) with
  | Some c => c
  | None => if resets_to_start config then 0 else Z.of_nat (List.length (log w tp))
  end.

(** Records without retry metadata are published to the source topic, partitions are
    assigned and revoked, and the database's clock advances. *)
Inductive happens (config : KafkaConsumerConfig) (w : World) : World -> Prop :=
| happens_publish partition r :
    rec_topic r = cc_topic config -> plain_headers (Some (rec_headers r)) -> 0 <= partition <= i32_max ->
    happens config w (append (rec_topic r, partition) r w)
| happens_assign i tp :
    happens config w (set_positions (<[(i, tp) := start_offset config tp w]> (positions w)) w)
| happens_revoke i tp : happens config w (set_positions (delete (i, tp) (positions w)) w)
| happens_tick d :
    0 <= d -> happens config w (set_table {| rt_clock := rt_clock (table w) + d; rt_rows := rt_rows (table w) |} w).
End world.
Arguments World : clear implicits.
Arguments HandlerRun : clear implicits.

(** ** One deployment *)

(** A consumer configuration and a retry configuration that [run_with_failure_routing]
    accepts. *)
Class Deployment (config : KafkaConsumerConfig) (c : KafkaRetryConfig) : Prop := {
  deployed_source : is_topic_name (cc_topic config) = true;
  deployed_routes : validate_failure_route_topics (cc_topic config) (subscription_topics config)
                      (rt_retry_topic c) (rt_dead_letter_topic c) = Ok tt;
  deployed_max : 1 <= rt_max_deliveries c <= u16_max
}.
(** The group starts at the beginning of a topic it has no offset for: an option that
    [KafkaConsumerConfig::new] does not set. *)
Class StartsAtBeginning (config : KafkaConsumerConfig) : Prop := starts_at_beginning : resets_to_start config = true.

Section deployment.
Context {E : Type} `{!Event E} (from_slice_typed : bytes -> option (EventEnvelope E)).
Context (config : KafkaConsumerConfig) (c : KafkaRetryConfig).

Notation source := (cc_topic config).
Notation retry := (rt_retry_topic c).
Notation dead := (rt_dead_letter_topic c).
Notation group := (cc_group_id config).
Notation World := (World E).

(** *** What can have become of a record *)

(** A row with the fields that a relay publishes. *)
Definition row_core (r : RetryRow) : Uuid * FailureOrigin * str * Z * str * option bytes * bytes :=
  (dr_id r, dr_origin r, dr_retry_topic r, dr_attempt r, dr_failure r, dr_key r, dr_payload r).

Definition source_has (w : World) (o : FailureOrigin) (key : option bytes) (p : bytes) : Prop :=
  fo_topic o = source /\ 0 <= fo_partition o <= i32_max /\ 0 <= fo_offset o <= i64_max /\
  exists r, log w (source, fo_partition o) !! Z.to_nat (fo_offset o) = Some r /\ rec_key r = key /\ rec_payload r = Some p.
Definition is_copy (o : FailureOrigin) (key : option bytes) (p : bytes) (a : Z) (r : KafkaRecord) : Prop :=
  rec_key r = key /\ rec_payload r = Some p /\ exists k, rec_headers r = failure_headers a k o.
Definition copied (w : World) (topic : str) (o : FailureOrigin) (key : option bytes) (p : bytes) (a : Z) : Prop :=
  exists partition offset r, log w (topic, partition) !! offset = Some r /\ is_copy o key p a r.
Definition is_staged (o : FailureOrigin) (key : option bytes) (p : bytes) (a : Z) (r : RetryRow) : Prop :=
  dr_origin r = o /\ dr_attempt r = a /\ dr_key r = key /\ dr_payload r = p /\ dr_retry_topic r = retry.
Definition staged (w : World) (o : FailureOrigin) (key : option bytes) (p : bytes) (a : Z) : Prop :=
  exists r, r ∈ rt_rows (table w) /\ is_staged o key p a r.

Definition was_handled (w : World) (m : KafkaMessage) : Prop :=
  exists p envelope, km_payload m = Some p /\ event_decode from_slice_typed p = Ok envelope /\
    {| hr_group := group; hr_message := m; hr_payload := ee_payload envelope;
       hr_context := context_from_envelope envelope |} ∈ handled w.
(** A failed delivery went to the dead-letter topic or on to the next attempt. *)
Definition moved_on (w : World) (o : FailureOrigin) (key : option bytes) (p : bytes) (a : Z) : Prop :=
  copied w dead o key p a \/
  a + 1 <= rt_max_deliveries c /\ (copied w retry o key p (a + 1) \/ staged w o key p (a + 1)).
Definition settled_message (w : World) (m : KafkaMessage) : Prop :=
  was_handled w m \/
  exists o a p, retry_attempt m = Ok a /\ origin_from_message m = Ok o /\ km_payload m = Some p /\
    moved_on w o (km_key m) p a.
Definition settled (w : World) (tp : TopicPartition) (offset : Z) : Prop :=
  exists r, log w tp !! Z.to_nat offset = Some r /\ settled_message w (message_at tp offset r).

Record grows (w w' : World) : Prop := {
  grow_logs : forall tp, log w tp `prefix_of` log w' tp;
  grow_handled : forall h, h ∈ handled w -> h ∈ handled w';
  grow_rows : forall r, r ∈ rt_rows (table w) -> exists r', r' ∈ rt_rows (table w') /\ row_core r' = row_core r
}.

#[export] Instance grows_preorder : PreOrder grows.
Proof.
  split.
  - intros w. split; [reflexivity | done | eauto].
  - intros w1 w2 w3 [L1 H1 R1] [L2 H2 R2]. split.
    + intros tp. etrans; [apply L1 | apply L2].
    + auto.
    + intros r (r' & Hr' & Hc)%R1. apply R2 in Hr' as (r'' & ? & ?). exists r''. split; [done | congruence].
Qed.

Lemma grow_lookup w w' tp n r : grows w w' -> log w tp !! n = Some r -> log w' tp !! n = Some r.
Proof. intros [HL _ _] Hn. by eapply prefix_lookup_Some. Qed.
Lemma source_has_mono w w' o key p : grows w w' -> source_has w o key p -> source_has w' o key p.
Proof. intros HG (? & ? & ? & r & Hr & ?). do 3 (split; [done|]). exists r. split; [by eapply grow_lookup | done]. Qed.
Lemma copied_mono w w' t o key p a : grows w w' -> copied w t o key p a -> copied w' t o key p a.
Proof. intros HG (part & n & r & Hr & ?). exists part, n, r. split; [by eapply grow_lookup | done]. Qed.
Lemma staged_core r r' o key p a : row_core r' = row_core r -> is_staged o key p a r -> is_staged o key p a r'.
Proof. unfold row_core, is_staged. intros HC (? & ? & ? & ? & ?). injection HC as ???????. split_and!; congruence. Qed.
Lemma staged_mono w w' o key p a : grows w w' -> staged w o key p a -> staged w' o key p a.
Proof.
  intros [_ _ HR] (r & Hr & HS). destruct (HR r Hr) as (r' & Hr' & Hc). exists r'. split; [done|].
  by eapply staged_core.
Qed.
Lemma moved_on_mono w w' o key p a : grows w w' -> moved_on w o key p a -> moved_on w' o key p a.
Proof. intros HG [?|[? [?|?]]]; [left|right; split; [done|left]|right; split; [done|right]];
  by (eapply copied_mono || eapply staged_mono). Qed.
Lemma settled_message_mono w w' m : grows w w' -> settled_message w m -> settled_message w' m.
Proof.
  intros HG [(p & e & ? & ? & ?)|(o & a & p & ? & ? & ? & ?)]; [left | right].
  - exists p, e. split_and!; [done | done | by apply HG].
  - exists o, a, p. split_and!; try done. by eapply moved_on_mono.
Qed.
Lemma settled_mono w w' tp n : grows w w' -> settled w tp n -> settled w' tp n.
Proof.
  intros HG (r & Hr & ?). exists r. split; [by eapply grow_lookup | by eapply settled_message_mono].
Qed.

(** *** The invariant *)

(** A record of the retry or the dead-letter topic copies a record of the source topic. *)
Definition copies_source (w : World) (low : Z) (r : KafkaRecord) : Prop :=
  exists o key p a, is_copy o key p a r /\ source_has w o key p /\ low <= a <= rt_max_deliveries c.

Definition row_ok (w : World) (r : RetryRow) : Prop :=
  2 <= dr_attempt r <= rt_max_deliveries c /\ dr_retry_topic r = retry /\
  dr_failure r ∈ [ ##"decode"; ##"handler" ] /\ source_has w (dr_origin r) (dr_key r) (dr_payload r) /\
  validate_delayed_retry_record (dr_payload r) (dr_key r) = Ok tt /\
  (is_some (dr_published_at r) = true -> copied w retry (dr_origin r) (dr_key r) (dr_payload r) (dr_attempt r)).

Record inv (w : World) : Prop := {
  inv_source : forall partition n r, log w (source, partition) !! n = Some r -> plain_headers (Some (rec_headers r));
  inv_retry : forall partition n r, log w (retry, partition) !! n = Some r -> copies_source w 2 r;
  inv_dead : forall partition n r, log w (dead, partition) !! n = Some r -> copies_source w 1 r;
  inv_rows : forall r, r ∈ rt_rows (table w) -> row_ok w r;
  inv_ids : NoDup (map dr_id (rt_rows (table w)));
  inv_committed : forall tp n offset, tp.1 ∈ [source; retry] -> committed w !! (group, tp) = Some n ->
    0 <= offset < n -> settled w tp offset
}.

Lemma copies_source_mono w w' low r : grows w w' -> copies_source w low r -> copies_source w' low r.
Proof. intros HG (o & key & p & a & ? & ? & ?). exists o, key, p, a. split; [done|]. split; [by eapply source_has_mono | done]. Qed.
Lemma row_ok_mono w w' r : grows w w' -> row_ok w r -> row_ok w' r.
Proof.
  intros HG (? & ? & ? & ? & ? & HP). split_and!; try done; try lia; [by eapply source_has_mono|].
  intros Hp. eapply copied_mono; [done | by apply HP].
Qed.

Context `{!Deployment config c}.

Lemma topics_distinct : retry <> source /\ dead <> source /\ retry <> dead /\ is_topic_name retry = true.
Proof.
  pose proof deployed_routes as HV. unfold validate_failure_route_topics in HV.
  destruct (is_topic_name retry), (is_topic_name dead); cbn [negb orb] in HV; try done.
  destruct (str_eqb retry source) eqn:E1; [done|]. destruct (str_eqb dead source) eqn:E2; [done|].
  destruct (str_eqb retry dead) eqn:E3; [done|].
  split_and!; try done; rewrite <- str_eqb_true; congruence.
Qed.

(** *** Steps that keep the invariant *)

Lemma log_append (w : World) tp tp' r : log (append tp r w) tp' = if decide (tp = tp') then log w tp ++ [r] else log w tp'.
Proof.
  unfold log at 1, append. cbn [logs set_logs]. case_decide as Hd.
  - subst. by rewrite lookup_insert_eq.
  - by rewrite lookup_insert_ne.
Qed.
Lemma append_grows w tp r : grows w (append tp r w).
Proof.
  split; [|done|by eauto]. intros tp'. rewrite log_append. case_decide; [|done]. subst. by eexists.
Qed.
Lemma append_lookup (w : World) tp tp' r n r' :
  log (append tp r w) tp' !! n = Some r' -> log w tp' !! n = Some r' \/ tp = tp' /\ r' = r.
Proof.
  rewrite log_append. case_decide; [|by left]. subst.
  intros [?|[_ [_ ->]%list_lookup_singleton_Some]]%lookup_app_Some; [by left | by right].
Qed.

Lemma inv_append w tp r :
  inv w -> (tp.1 = source -> plain_headers (Some (rec_headers r))) -> (tp.1 = retry -> copies_source w 2 r) ->
  (tp.1 = dead -> copies_source w 1 r) -> inv (append tp r w).
Proof.
  intros [IS IR ID IW II IC] HS HR HD. pose proof (append_grows w tp r) as HG. split.
  - intros p n r' [?|[-> ->]]%append_lookup; [by eapply IS | by apply HS].
  - intros p n r' [?|[-> ->]]%append_lookup; (eapply copies_source_mono; [done|]); [by eapply IR | by apply HR].
  - intros p n r' [?|[-> ->]]%append_lookup; (eapply copies_source_mono; [done|]); [by eapply ID | by apply HD].
  - intros r' Hr'. eapply row_ok_mono; [done | by apply IW].
  - done.
  - intros tp' n offset ? ? ?. eapply settled_mono; [done | by eapply IC].
Qed.

(** The invariant reads logs, rows and committed offsets, and the handler runs only as facts. *)
Lemma inv_same w w' :
  inv w -> grows w w' -> logs w' = logs w -> committed w' = committed w -> rt_rows (table w') = rt_rows (table w) -> inv w'.
Proof.
  intros [IS IR ID IW II IC] HG HL HC HT.
  assert (HL' : forall tp, log w' tp = log w tp) by (intros tp; unfold log; by rewrite HL).
  split.
  - intros p n r. rewrite HL'. apply IS.
  - intros p n r. rewrite HL'. intros Hr. eapply copies_source_mono; [done | by eapply IR].
  - intros p n r. rewrite HL'. intros Hr. eapply copies_source_mono; [done | by eapply ID].
  - intros r. rewrite HT. intros Hr. eapply row_ok_mono; [done | by apply IW].
  - by rewrite HT.
  - intros tp n offset. rewrite HC. intros ? ? ?. eapply settled_mono; [done | by eapply IC].
Qed.

Lemma inv_commit w m :
  inv w -> (message_tp m).1 ∈ [source; retry] -> 
  (forall offset, 0 <= offset <= km_offset m -> settled w (message_tp m) offset) -> inv (commit_offset group m w).
Proof.
  intros [IS IR ID IW II IC] Ht Hm.
  assert (HG : grows w (commit_offset group m w)) by (split; [done | done | eauto]).
  split; [done | done | done | done | done |].
  intros tp n offset Htp. cbn [committed commit_offset set_committed].
  destruct (decide (tp = message_tp m)) as [->|Hne].
  - rewrite lookup_insert_eq. intros [= <-] ?. apply Hm. lia.
  - rewrite lookup_insert_ne by congruence. by apply IC.
Qed.

(** Statements on the table. *)
Lemma inv_table w t :
  inv w -> grows w (set_table t w) -> (forall r, r ∈ rt_rows t -> row_ok w r) -> NoDup (map dr_id (rt_rows t)) ->
  inv (set_table t w).
Proof.
  intros [IS IR ID IW II IC] HG HR HN. split; try done.
  intros tp n offset ? ? ?. eapply settled_mono; [done | by eapply IC].
Qed.

Lemma row_ok_core w r r' :
  row_core r' = row_core r -> row_ok w r ->
  (is_some (dr_published_at r') = true -> is_some (dr_published_at r) = false ->
   copied w retry (dr_origin r) (dr_key r) (dr_payload r) (dr_attempt r)) -> row_ok w r'.
Proof.
  unfold row_core, row_ok. intros HC (? & ? & ? & ? & ? & HP) HN. injection HC as ? HO ? HA HF HK HPl.
  rewrite HO, HA, HF, HK, HPl. split_and!; try done; try lia; [congruence|].
  intros Hp. destruct (is_some (dr_published_at r)); by auto.
Qed.

(** Rows are rewritten in place, and none is marked as published without its copy. *)
Lemma inv_rewrite w t (f : RetryRow -> RetryRow) :
  inv w -> rt_rows t = map f (rt_rows (table w)) -> (forall r, row_core (f r) = row_core r) ->
  (forall r, r ∈ rt_rows (table w) -> is_some (dr_published_at (f r)) = true -> is_some (dr_published_at r) = false ->
     copied w retry (dr_origin r) (dr_key r) (dr_payload r) (dr_attempt r)) ->
  grows w (set_table t w) /\ inv (set_table t w).
Proof.
  intros HI Ht Hf Hp.
  assert (HG : grows w (set_table t w)).
  { split; [done | done |]. intros r Hr. exists (f r). cbn [table set_table]. rewrite Ht. split; [|done].
    apply list_elem_of_fmap. eauto. }
  split; [done|]. apply inv_table; [done | done | |].
  - rewrite Ht. intros r (r0 & -> & Hr0)%list_elem_of_fmap. eapply row_ok_core; [apply Hf | by apply HI | by apply Hp].
  - rewrite Ht, map_map. replace (map (fun r => dr_id (f r)) (rt_rows (table w))) with (map dr_id (rt_rows (table w)));
      [apply HI|]. apply map_ext. intros r. specialize (Hf r). unfold row_core in Hf. by injection Hf.
Qed.

Lemma source_has_det w o key p key' p' : source_has w o key p -> source_has w o key' p' -> key = key' /\ p = p'.
Proof. intros (_ & _ & _ & r & Hr & <- & Hp) (_ & _ & _ & r' & Hr' & <- & Hp'). rewrite Hr in Hr'. naive_solver. Qed.

(** Staging: the row is there afterwards, inserted or found. *)
Lemma inv_insert w id o a k key p delay n t :
  inv w -> source_has w o key p -> 2 <= a <= rt_max_deliveries c ->
  validate_delayed_retry_record p key = Ok tt ->
  insert_retry id o retry a (failure_kind_str k) key p delay (table w) = Ok (n, t) ->
  grows w (set_table t w) /\ inv (set_table t w) /\ staged (set_table t w) o key p a.
Proof.
  intros HI HS Ha HV. unfold insert_retry. set (row := staged_row _ _ _ _ _ _ _ _ _).
  destruct (negb _); [done|]. destruct (existsb _ _) eqn:EC.
  - intros [= <- <-]. assert (Hw : set_table (table w) w = w) by (by destruct w). rewrite Hw.
    split_and!; [reflexivity | done |].
    apply existsb_exists in EC as (r & Hr%list_elem_of_In & Hk%bool_decide_eq_true). unfold retry_key in Hk.
    injection Hk as HO HA. destruct (inv_rows _ HI r Hr) as (_ & HT & _ & HS' & _).
    change (dr_origin row) with o in HO. change (dr_attempt row) with a in HA.
    rewrite HO in HS'. destruct (source_has_det _ _ _ _ _ _ HS HS') as [-> ->].
    exists r. done.
  - destruct (existsb _ _) eqn:EI in |- *; [done|]. intros [= <- <-].
    assert (HG : grows w (set_table (set_rows (rt_rows (table w) ++ [row]) (table w)) w)).
    { split; [done | done |]. intros r Hr. exists r. split; [|done]. apply elem_of_app. by left. }
    split; [done|]. split.
    + apply inv_table; [done | done | |].
      * intros r [?|Hr%list_elem_of_singleton]%elem_of_app; [by apply HI|subst r].
        split_and!; try done; [apply Ha | apply Ha |].
        change (dr_failure row) with (failure_kind_str k). destruct k; [left | right; left].
      * cbn [rt_rows set_rows]. rewrite map_app. apply NoDup_app. split_and!; [apply HI | | apply NoDup_singleton].
        intros x (r & -> & Hr)%list_elem_of_fmap Hx%list_elem_of_singleton.
        enough (existsb (fun r => dr_id r =? id) (rt_rows (table w)) = true) by congruence.
        apply existsb_exists. exists r. split; [by apply list_elem_of_In | by apply Z.eqb_eq].
    + exists row. split; [|done]. apply elem_of_app. right. by apply list_elem_of_singleton.
Qed.

(** *** Interference *)

(** Others only add facts, and move a consumer's position only to where everything below is
    settled. *)
Record rely (i : nat) (w w' : World) : Prop := {
  rely_grows : grows w w';
  rely_current : current w' !! i = current w !! i;
  rely_positions : forall tp p, tp.1 ∈ [source; retry] -> positions w' !! (i, tp) = Some p ->
    positions w !! (i, tp) = Some p \/ forall offset, 0 <= offset < p -> settled w' tp offset
}.
#[export] Instance rely_preorder i : PreOrder (rely i).
Proof.
  split.
  - intros w. split; [reflexivity | done | by left].
  - intros w1 w2 w3 [G1 C1 P1] [G2 C2 P2]. split; [by etrans | congruence |].
    intros tp p Htp Hp. destruct (P2 tp p Htp Hp) as [Hp'|?]; [|by right].
    destruct (P1 tp p Htp Hp') as [?|HS]; [by left|]. right. intros n Hn. eapply settled_mono; [done | by apply HS].
Qed.

Notation wp i := (Effects.wp (rely i) (does group (subscription_topics config) i) inv grows).

Definition is_recv {X} (f : kcall (E:=E) X) : bool := match f with Recv => true | _ => false end.

Lemma does_rely i X (f : kcall X) w x w' :
  is_recv f = false -> does group (subscription_topics config) i X f w x w' -> grows w w' -> rely i w w'.
Proof.
  intros Hf Hd HG.
  assert (HP : positions w' = positions w /\ current w' = current w).
  { destruct f; cbn in Hf, Hd |- *; try done.
    - destruct x; subst; [|done]. unfold handler_succeeded. by case_match.
    - naive_solver.
    - naive_solver.
    - destruct (meaning (table w)) as [[a t]|e]; naive_solver.
    - by subst.
    - by subst.
    - by subst. }
  destruct HP as [HP HC]. split; [done | by rewrite HC |]. rewrite HP. by left.
Qed.

Lemma wp_kcall i X (f : kcall X) (Q : X -> World -> Prop) w :
  is_recv f = false ->
  (forall w1 x w2, rely i w w1 -> inv w1 -> does group (subscription_topics config) i X f w1 x w2 ->
     grows w1 w2 /\ inv w2 /\ Q x w2) ->
  wp i (ask f) (fun x w' => rely i w w' /\ Q x w') w.
Proof.
  intros Hf HW w1 Hr Hi x w2 Hd. destruct (HW w1 x w2 Hr Hi Hd) as (HG & HI & HQ).
  split_and!; [done | done |]. cbn. split; [|done]. etrans; [exact Hr | by eapply does_rely].
Qed.

(** Calls without effect. *)
Lemma wp_silent i X (f : kcall X) w :
  match f with NewUuid | ShutdownOr | Observe _ => true | _ => false end = true ->
  wp i (ask f) (fun _ w' => rely i w w') w.
Proof.
  intros Hf. eapply wp_mono; [|apply (wp_kcall i X f (fun _ _ => True))].
  - by intros x w' [? _].
  - by destruct f.
  - intros w1 x w2 _ Hi Hd. assert (w2 = w1) as ->; [by destruct f | by split_and!].
Qed.

Lemma wp_send i r w :
  (rec_topic r = source -> plain_headers (Some (rec_headers r))) ->
  (rec_topic r = retry -> copies_source w 2 r) -> (rec_topic r = dead -> copies_source w 1 r) ->
  wp i (ask (Send r)) (fun x w' => rely i w w' /\
    (x = Ok tt -> exists partition n, log w' (rec_topic r, partition) !! n = Some r)) w.
Proof.
  intros HS HR HD. apply wp_kcall; [done|]. intros w1 x w2 [HG _ _] Hi [(part & _ & ->)|[-> ->]]; [|by split_and!].
  split_and!; [apply append_grows | |].
  - apply inv_append; cbn; [done | done | |]; intros Ht; (eapply copies_source_mono; [done|]); auto.
  - intros _. exists part, (List.length (log w1 (rec_topic r, part))).
    rewrite log_append, decide_True by done. by rewrite list_lookup_middle.
Qed.

(** *** What a router promises to the consumer *)

Definition routed (w : World) (o : FailureOrigin) (key : option bytes) (p : bytes) (a : Z) (action : KafkaRetryAction) :
    Prop :=
  match action with
  | KafkaDeadLetter => copied w dead o key p a
  | KafkaRetry next =>
      next = a + 1 /\ next <= rt_max_deliveries c /\ (copied w retry o key p next \/ staged w o key p next)
  end.
Lemma routed_moved_on w o key p a action : routed w o key p a action -> moved_on w o key p a.
Proof. destruct action; [intros (-> & ? & ?); by right | by left]. Qed.

(** When it answers, the failed record is kept somewhere. *)
Class DurableRouter {R : Type} `{!KafkaFailureRouter (E:=E) R} (router : R) : Prop := {
  durable_topics : router_retry_topic router = retry /\ router_dead_letter_topic router = dead;
  durable_route i m o k a p w :
    km_payload m = Some p -> source_has w o (km_key m) p -> 1 <= a <= rt_max_deliveries c ->
    wp i (route router (m, o) k a)
      (fun x w' => rely i w w' /\ forall action, x = Ok action -> routed w' o (km_key m) p a action) w
}.

Lemma after_failure_cases a :
  1 <= a <= rt_max_deliveries c ->
  kafka_after_failure c a = KafkaDeadLetter \/
  kafka_after_failure c a = KafkaRetry (a + 1) /\ 2 <= a + 1 <= rt_max_deliveries c.
Proof.
  intros Ha. pose proof deployed_max as HM. unfold kafka_after_failure.
  rewrite (proj2 (Z.eqb_neq a 0)) by lia. cbn [orb].
  destruct (Z.leb_spec (rt_max_deliveries c) a); [by left|]. right. unfold saturating_add.
  replace (Z.min _ _) with (a + 1) by lia. split; [done | lia].
Qed.

Lemma copy_is_copy target m p a k o : is_copy o (km_key m) p a (failure_record target m p a k o).
Proof. split_and!; [done | done | by exists k]. Qed.

Lemma wp_publisher_route i m o k a p w :
  km_payload m = Some p -> source_has w o (km_key m) p -> 1 <= a <= rt_max_deliveries c ->
  wp i (publisher_route c (m, o) k a)
    (fun x w' => rely i w w' /\ forall action, x = Ok action -> routed w' o (km_key m) p a action) w.
Proof.
  intros Hp HS Ha. unfold publisher_route. cbn [fst snd]. rewrite Hp.
  destruct topics_distinct as (TS & DS & TD & _).
  apply wp_pure_try. cbn [ok_or]. apply wp_try. destruct (after_failure_cases a Ha) as [->|[-> Ha']];
    (eapply wp_mono; [|apply wp_send]); cbn [rec_topic failure_record]; try done; try congruence.
  - intros [[]|[]] w' [Hr Hs]; cbn; (split; [done|]); [|done]. intros action [= <-].
    destruct (Hs eq_refl) as (part & n & Hn). exists part, n. eexists. split; [done | apply copy_is_copy].
  - intros _. exists o, (km_key m), p, a. split; [apply copy_is_copy | by split].
  - intros [[]|[]] w' [Hr Hs]; cbn; (split; [done|]); [|done]. intros action [= <-]. split; [done|]. split; [lia|].
    left. destruct (Hs eq_refl) as (part & n & Hn). exists part, n. eexists. split; [done | apply copy_is_copy].
  - intros _. exists o, (km_key m), p, (a + 1). split; [apply copy_is_copy | by split].
Qed.

#[export] Instance publisher_durable : DurableRouter {| fp_retry := c |}.
Proof. split; [done|]. intros. by apply wp_publisher_route. Qed.

#[export] Instance delayed_durable delay :
  DurableRouter {| pr_fallback := {| fp_retry := c |}; pr_delay := delay |}.
Proof.
  split; [done|]. intros i m o k a p w Hp HS Ha. cbn [route delayed_is_router]. unfold delayed_route.
  cbn [fp_retry pr_fallback fst snd]. destruct (after_failure_cases a Ha) as [HA|[HA Ha']]; rewrite HA.
  { by apply wp_publisher_route. }
  rewrite Hp. apply wp_pure_try. cbn [ok_or]. apply wp_pure_try.
  destruct (validate_delayed_retry_record p (km_key m)) as [[]|e] eqn:HV; [|split; [reflexivity | done]].
  apply wp_bind. eapply wp_mono; [|by apply wp_silent]. intros id w1 Hr1. cbn beta.
  apply wp_try. eapply wp_mono; [|apply (wp_kcall _ _ _ (fun x w2 => forall n, x = Ok n -> staged w2 o (km_key m) p (a + 1)))];
    [|done|].
  - intros [n|e] w2 [Hr2 Hs]; cbn; (split; [etrans; [exact Hr1 | exact Hr2]|]); [|done].
    intros action [= <-]. split; [done|]. split; [lia|]. right. by eapply Hs.
  - intros w2 x w3 Hr2 Hi Hd. cbn in Hd.
    destruct (insert_retry _ _ _ _ _ _ _ _ _) as [[n t]|e] eqn:EI;
      [|destruct Hd as [-> [? ->]]; by split_and!].
    assert (HG : grows w w2) by (etrans; [apply Hr1 | apply Hr2]).
    destruct (inv_insert w2 _ _ _ _ _ _ _ _ _ Hi (source_has_mono _ _ _ _ _ HG HS) Ha' HV EI) as (G3 & I3 & S3).
    destruct Hd as [[-> Hx]|[-> [? ->]]]; [|by split_and!]. by split_and!.
Qed.

(** *** Consumers *)

Lemma subscribed t : t ∈ subscription_topics config -> t ∈ [source; retry].
Proof.
  destruct topics_distinct as (TS & _ & _ & HT). pose proof deployed_routes as HV.
  unfold validate_failure_route_topics in HV. destruct (_ || _) in HV; [done|].
  destruct (existsb _ (subscription_topics config)) eqn:EX in HV; [|done].
  apply existsb_exists in EX as (t' & Ht' & ->%str_eqb_true). revert Ht'. rewrite <- list_elem_of_In.
  unfold subscription_topics. destruct (cc_retry_topic config) as [t'|]; set_solver.
Qed.

(** The attempt and the origin that a record carries are those of a source record. *)
Definition lineage (w : World) (m : KafkaMessage) (o : FailureOrigin) (a : Z) : Prop :=
  retry_attempt m = Ok a /\ origin_from_message m = Ok o /\ 1 <= a <= rt_max_deliveries c /\
  forall p, km_payload m = Some p -> source_has w o (km_key m) p.

Lemma source_lineage w partition offset r :
  inv w -> 0 <= partition <= i32_max -> 0 <= offset <= i64_max ->
  log w (source, partition) !! Z.to_nat offset = Some r ->
  lineage w (message_at (source, partition) offset r)
    {| fo_topic := source; fo_partition := partition; fo_offset := offset |} 1.
Proof.
  intros HI Hp Ho Hr. pose proof (inv_source _ HI _ _ _ Hr) as HP. pose proof deployed_max.
  assert (HM : plain_headers (km_headers (message_at (source, partition) offset r))).
  { cbn [km_headers message_at]. by destruct (rec_headers r). }
  split_and!; try lia; [by apply plain_attempt | |].
  - rewrite plain_origin by done. cbn [km_topic km_partition km_offset message_at fst snd]. unfold origin_source.
    rewrite (proj2 (validate_topic_name_Ok _) deployed_source). cbn [map_err].
    by rewrite !(proj2 (Z.ltb_ge _ _)) by lia.
  - intros p Hpl. do 3 (split; [done|]). by exists r.
Qed.

Lemma valid_source_origin w o key p : source_has w o key p -> valid_origin o.
Proof. intros (HT & ? & ? & _). split; [rewrite HT; apply deployed_source | done]. Qed.

Lemma copy_lineage w tp offset r o key p a :
  is_copy o key p a r -> source_has w o key p -> 1 <= a <= rt_max_deliveries c ->
  lineage w (message_at tp offset r) o a.
Proof.
  intros (HK & HP & k & HH) HS Ha. pose proof deployed_max.
  assert (HM : km_headers (message_at tp offset r) = Some (failure_headers a k o)).
  { cbn [km_headers message_at]. by rewrite HH. }
  split; [eapply failure_headers_attempt; [done | lia]|].
  split; [by eapply failure_headers_origin, valid_source_origin|]. split; [done|].
  cbn [km_payload km_key message_at]. rewrite HP, HK. by intros p' [= <-].
Qed.

Lemma message_lineage w tp offset r :
  inv w -> tp.1 ∈ [source; retry] -> 0 <= tp.2 <= i32_max -> 0 <= offset <= i64_max ->
  log w tp !! Z.to_nat offset = Some r -> exists o a, lineage w (message_at tp offset r) o a.
Proof.
  intros HI Ht Hp Ho Hr. destruct tp as [t partition]. cbn in Ht, Hp. rewrite !elem_of_cons in Ht.
  destruct Ht as [->|[->|[]%not_elem_of_nil]].
  - eexists _, _. by apply source_lineage.
  - destruct (inv_retry _ HI _ _ _ Hr) as (o & key & p & a & HC & HS & Ha). exists o, a.
    eapply copy_lineage; [done | done | lia].
Qed.

(** Everything below the positions of consumer [i] is settled. *)
Definition clean (i : nat) (w : World) : Prop :=
  forall tp n offset, tp.1 ∈ [source; retry] -> positions w !! (i, tp) = Some n -> 0 <= offset < n -> settled w tp offset.

Record delivered (i : nat) (m : KafkaMessage) (w : World) : Prop := {
  dl_current : current w !! i = Some m;
  dl_topic : (message_tp m).1 ∈ [source; retry];
  dl_log : exists r, log w (message_tp m) !! Z.to_nat (km_offset m) = Some r /\
             m = message_at (message_tp m) (km_offset m) r;
  dl_lineage : exists o a, lineage w m o a;
  dl_below : forall offset, 0 <= offset < km_offset m -> settled w (message_tp m) offset;
  dl_clean : forall tp n offset, tp.1 ∈ [source; retry] -> positions w !! (i, tp) = Some n -> 0 <= offset < n ->
    settled w tp offset \/ tp = message_tp m /\ offset = km_offset m
}.

Lemma clean_rely i w w' : rely i w w' -> clean i w -> clean i w'.
Proof.
  intros HR HC tp n offset Ht Hn Ho. destruct (rely_positions _ _ _ HR tp n Ht Hn) as [Hn'|HS]; [|by apply HS].
  eapply settled_mono; [apply HR | by eapply HC].
Qed.
Lemma lineage_mono w w' m o a : grows w w' -> lineage w m o a -> lineage w' m o a.
Proof.
  intros HG (? & ? & ? & HS). do 3 (split; [done|]). intros p Hp. eapply source_has_mono; [done | by apply HS].
Qed.
Lemma delivered_rely i m w w' : rely i w w' -> delivered i m w -> delivered i m w'.
Proof.
  intros HR [DC DT (r & Hr & Hm) (o & a & HL) DB DCl]. pose proof (rely_grows _ _ _ HR) as HG. split.
  - rewrite <- DC. apply HR.
  - done.
  - exists r. split; [by eapply grow_lookup | done].
  - exists o, a. by eapply lineage_mono.
  - intros n Hn. eapply settled_mono; [done | by apply DB].
  - intros tp n offset Ht Hn Ho. destruct (rely_positions _ _ _ HR tp n Ht Hn) as [Hn'|HS]; [|by left; apply HS].
    destruct (DCl tp n offset Ht Hn' Ho) as [?|?]; [left | by right]. by eapply settled_mono.
Qed.
Lemma delivered_settled i m w : delivered i m w -> settled_message w m -> settled w (message_tp m) (km_offset m).
Proof. intros [_ _ (r & Hr & Hm) _ _ _] HS. exists r. split; [done|]. by rewrite <- Hm. Qed.
Lemma delivered_clean i m w : delivered i m w -> settled_message w m -> clean i w.
Proof.
  intros HD HS tp n offset Ht Hn Ho. destruct (dl_clean _ _ _ HD tp n offset Ht Hn Ho) as [?|[-> ->]]; [done|].
  by eapply delivered_settled.
Qed.

Lemma wp_recv i w :
  clean i w ->
  wp i (ask Recv) (fun x w' => match x with Some (Ok m) => delivered i m w' | _ => clean i w' end) w.
Proof.
  intros HC w1 HR HI x w2 Hd. apply (clean_rely i w w1 HR) in HC.
  destruct x as [[m|[]]|]; cbn in Hd; [|by subst; split_and!|by subst; split_and!].
  destruct Hd as [(tp & offset & r & Ht%subscribed & Hp & Ho & Hpos & Hr & ->) ->].
  assert (HG : grows w1 (deliver i (message_at tp offset r) w1)) by (split; [done | done | eauto]).
  assert (HS : forall tp' n, settled w1 tp' n -> settled (deliver i (message_at tp offset r) w1) tp' n)
    by (intros tp' n; by apply settled_mono).
  assert (Htp : message_tp (message_at tp offset r) = tp) by (by destruct tp).
  destruct (message_lineage w1 tp offset r HI Ht Hp Ho Hr) as (o & a & HL).
  split_and!; [done | by apply (inv_same w1) |]. cbn. split; rewrite ?Htp; cbn [km_offset message_at].
  - apply lookup_insert_eq.
  - done.
  - by exists r.
  - exists o, a. by eapply lineage_mono.
  - intros n Hn. apply HS. by eapply HC.
  - intros tp' n off Ht' Hn Hoff. cbn [positions deliver set_current set_positions] in Hn. rewrite Htp in Hn.
    destruct (decide (tp = tp')) as [<-|Hne].
    + rewrite lookup_insert_eq in Hn. injection Hn as <-. cbn [km_offset message_at] in Hoff.
      destruct (decide (off = offset)); [by right|]. left. apply HS. eapply HC; [done | done | lia].
    + rewrite lookup_insert_ne in Hn by congruence. left. apply HS. by eapply HC.
Qed.

Lemma wp_handle i m p envelope w :
  delivered i m w -> km_payload m = Some p -> event_decode from_slice_typed p = Ok envelope ->
  wp i (ask (Handle (ee_payload envelope) (context_from_envelope envelope)))
    (fun x w' => rely i w w' /\ (x = Ok tt -> settled_message w' m)) w.
Proof.
  intros HD Hp HE. apply wp_kcall; [done|]. intros w1 x w2 HR HI Hd. apply (delivered_rely i m w w1 HR) in HD.
  destruct x as [[]|[]]; cbn in Hd; subst; [|by split_and!].
  unfold handler_succeeded. rewrite (dl_current _ _ _ HD). set (run := Build_HandlerRun _ _ _ _).
  assert (HG : grows w1 (set_handled (handled w1 ++ [run]) w1)).
  { split; [done | | eauto]. intros h Hh. apply elem_of_app. by left. }
  split_and!; [done | by apply (inv_same w1) |]. intros _. left. exists p, envelope. split_and!; [done | done |].
  apply elem_of_app. right. by apply list_elem_of_singleton.
Qed.

Lemma wp_commit i m w :
  delivered i m w -> settled_message w m -> wp i (ask (CommitMessage m)) (fun _ w' => rely i w w') w.
Proof.
  intros HD HS. eapply wp_mono; [|apply (wp_kcall i _ _ (fun _ _ => True))]; [by intros ? ? [? _] | done |].
  intros w1 x w2 HR HI Hd. pose proof (delivered_rely i m w w1 HR HD) as HD1.
  apply (settled_message_mono w w1) in HS; [|apply HR]. destruct Hd as [->|[_ ->]]; [|by split_and!].
  split_and!; [split; [done | done | eauto] | | done]. apply inv_commit; [done | apply HD1 |].
  intros n Hn. destruct (decide (n = km_offset m)) as [->|?]; [by eapply delivered_settled|].
  eapply dl_below; [done | lia].
Qed.

(** Processing a delivered record either fails or settles it. *)
Notation settles i m := (fun x w' => forall y, x = Ok y -> delivered i m w' /\ settled_message w' m).

Lemma wp_settle i m {A} (y : A) w :
  delivered i m w -> settled_message w m ->
  wp i (try_ (fun _ => CommitError) (ask (CommitMessage m)) (fun _ => Ret (Ok y))) (settles i m) w.
Proof.
  intros HD HS. apply wp_try. eapply wp_mono; [|by apply wp_commit]. intros [[]|[]] w' HR; cbn; [|done].
  intros _ _. split; [by eapply delivered_rely | eapply settled_message_mono; [apply HR | done]].
Qed.

Lemma wp_process_strict i m w : delivered i m w -> wp i (process_strict from_slice_typed m) (settles i m) w.
Proof.
  intros HD. unfold process_strict. apply wp_pure_try. destruct (km_payload m) as [p|] eqn:Hp; cbn [ok_or]; [|done].
  apply wp_pure_try. destruct (event_decode from_slice_typed p) as [envelope|e] eqn:HE; [|done].
  apply wp_try. eapply wp_mono; [|by eapply wp_handle]. intros [[]|[]] w1 [HR HS]; [|done].
  apply wp_settle; [by eapply delivered_rely | by apply HS].
Qed.

Section routing.
Context {R : Type} `{!KafkaFailureRouter (E:=E) R} (router : R) `{!DurableRouter router}.

Lemma wp_route_failure i m k a p w :
  delivered i m w -> retry_attempt m = Ok a -> km_payload m = Some p ->
  wp i (route_failure router m k a) (fun x w' => rely i w w' /\ forall y, x = Ok y -> settled_message w' m) w.
Proof.
  intros HD Ha Hp. destruct (dl_lineage _ _ _ HD) as (o & a' & HA & HO & Hb & HS).
  assert (a' = a) as -> by congruence. unfold route_failure. rewrite HO. apply wp_pure_try, wp_try.
  eapply wp_mono; [|apply (durable_route i m o k a p); auto]. intros [action|e] w1 [HR HD1]; cbn; (split; [done|]); [|done].
  intros _ _. right. exists o, a, p. split_and!; try done. eapply routed_moved_on. by apply HD1.
Qed.

Lemma wp_process_routed i m w : delivered i m w -> wp i (process_routed from_slice_typed router m) (settles i m) w.
Proof.
  intros HD. unfold process_routed. apply wp_pure_try. destruct (retry_attempt m) as [a|] eqn:HA; [|done].
  apply wp_pure_try. destruct (km_payload m) as [p|] eqn:Hp; cbn [ok_or]; [|done].
  assert (HF : forall k w1, delivered i m w1 ->
    wp i (route_failure router m k a) (fun x w' => match x with
      | Ok outcome => wp i (try_ (fun _ => CommitError) (ask (CommitMessage m)) (fun _ => Ret (Ok (Some a, outcome))))
                        (settles i m) w'
      | Err e => settles i m (Err e : result (option Z * EventDeliveryOutcome) KafkaError) w' end) w1).
  { intros k w1 HD1. eapply wp_mono; [|by eapply wp_route_failure]. intros [outcome|e] w2 [HR HS]; [|done].
    apply wp_settle; [by eapply delivered_rely | by eapply HS]. }
  apply wp_try. destruct (event_decode from_slice_typed p) as [envelope|e] eqn:HE; [|by apply HF].
  apply wp_bind. eapply wp_mono; [|by eapply wp_handle]. intros [[]|[]] w1 [HR HS];
    pose proof (delivered_rely _ _ _ _ HR HD) as HD1; [|by apply HF].
  apply wp_settle; [done | by apply HS].
Qed.
End routing.

Lemma wp_receive_loop i process n w :
  (forall m w, delivered i m w -> wp i (process m) (settles i m) w) ->
  clean i w -> wp i (receive_loop process n) (fun _ _ => True) w.
Proof.
  intros HP. revert w. induction n as [|n IH]; intros w HC; [done|]. cbn [receive_loop].
  apply wp_bind. eapply wp_mono; [|by apply wp_recv]. intros [[m|[]]|] w1 HD; [|done|done].
  apply wp_bind. unfold observed. apply wp_bind. eapply wp_mono; [|by apply wp_silent]. intros ? w2 HR2.
  apply wp_bind. eapply wp_mono; [|apply HP; exact (delivered_rely i m w1 w2 HR2 HD)].
  intros [[attempt outcome]|e] w3 HS; apply wp_bind.
  - destruct (HS _ eq_refl) as [HD3 HS3]. eapply wp_mono; [|by apply wp_silent]. intros ? w4 HR4. cbn.
    apply IH. exact (clean_rely i w3 w4 HR4 (delivered_clean i m w3 HD3 HS3)).
  - eapply wp_mono; [|by apply wp_silent]. done.
Qed.

(** *** Relays *)

(** The row is known: it is in the table and copies a source record. *)
Definition known_row (w : World) (row : RetryRow) : Prop :=
  (exists r, r ∈ rt_rows (table w) /\ row_core r = row_core row) /\
  source_has w (dr_origin row) (dr_key row) (dr_payload row) /\ 2 <= dr_attempt row <= rt_max_deliveries c /\
  dr_retry_topic row = retry.
Lemma known_row_mono w w' row : grows w w' -> known_row w row -> known_row w' row.
Proof.
  intros HG ((r & Hr & Hc) & HS & Ha & HT). split; [|split; [by eapply source_has_mono | done]].
  destruct (grow_rows _ _ HG r Hr) as (r' & Hr' & Hc'). exists r'. split; [done | congruence].
Qed.

Lemma inv_update w (condition : RetryRow -> bool) f :
  inv w -> (forall r, row_core (f r) = row_core r) ->
  (forall r, r ∈ rt_rows (table w) -> condition r = true -> is_some (dr_published_at (f r)) = true ->
     is_some (dr_published_at r) = false -> copied w retry (dr_origin r) (dr_key r) (dr_payload r) (dr_attempt r)) ->
  grows w (set_table (update_rows condition f (table w)).2 w) /\ inv (set_table (update_rows condition f (table w)).2 w).
Proof.
  intros HI Hf Hp. apply (inv_rewrite w _ (fun r => if condition r then f r else r)); [done | done | |].
  - intros r. by destruct (condition r).
  - intros r Hr. destruct (condition r) eqn:EC; [by apply Hp | congruence].
Qed.

Lemma retry_from_row_fields row id record :
  retry_from_row row = Ok (id, record) ->
  id = dr_id row /\ rec_topic (delayed_record record) = dr_retry_topic row /\
  is_copy (dr_origin row) (dr_key row) (dr_payload row) (dr_attempt row) (delayed_record record).
Proof.
  unfold retry_from_row. destruct (if str_eqb (dr_failure row) _ then _ else _) as [k|]; [|done].
  destruct (_ && _); [|done]. destruct (validate_stored_retry_record _ _ _ _ _) as [[]|]; [|done].
  intros [= <- <-]. split_and!; [done | done |]. split_and!; [done | done | by exists k].
Qed.

Lemma wp_release i rc token w : wp i (release_claims rc token) (fun _ _ => True) w.
Proof.
  apply wp_try. eapply wp_mono; [|apply (wp_kcall i _ _ (fun _ _ => True))]; [by intros [] | done |].
  intros w1 x w2 _ HI Hd. cbn in Hd. 
  destruct Hd as [[-> _]|[-> _]]; [|by split_and!].
  match goal with |- context [set_table (set_rows (map (fun r => if @?b r then @?f r else r) _) _)] =>
    destruct (inv_update w1 b f HI) as [HG HI'] end; [done | | by split_and!].
  intros r Hr _. cbn. congruence.
Qed.
Lemma wp_abandon i rc token e w : wp i (abandon rc token e) (fun _ _ => True) w.
Proof. apply wp_try. eapply wp_mono; [|apply wp_release]. by intros []. Qed.

Lemma same_id w r r' :
  inv w -> r ∈ rt_rows (table w) -> r' ∈ rt_rows (table w) -> dr_id r = dr_id r' -> r = r'.
Proof.
  intros HI [n Hn]%list_elem_of_lookup [n' Hn']%list_elem_of_lookup Hi.
  assert (n = n'); [|congruence]. eapply NoDup_lookup; [apply (inv_ids _ HI) | |];
    rewrite list_lookup_fmap, ?Hn, ?Hn'; cbn; by f_equal.
Qed.

Lemma wp_confirm i row token w :
  known_row w row -> copied w retry (dr_origin row) (dr_key row) (dr_payload row) (dr_attempt row) ->
  wp i (ask (RetryStatement confirm_sql (confirm_row (dr_id row) token))) (fun _ w' => rely i w w') w.
Proof.
  intros HK HC. eapply wp_mono; [|apply (wp_kcall i _ _ (fun _ _ => True))]; [by intros ? ? [? _] | done |].
  intros w1 x w2 HR HI Hd. cbn in Hd. destruct Hd as [[-> _]|[-> _]]; [|by split_and!].
  apply (known_row_mono w w1) in HK as [(r0 & Hr0 & Hc0) _]; [|apply HR].
  apply (copied_mono w w1) in HC; [|apply HR].
  match goal with |- context [set_table (set_rows (map (fun r => if @?b r then @?f r else r) _) _)] =>
    destruct (inv_update w1 b f HI) as [HG HI'] end; [done | | by split_and!].
  intros r Hr [EI%Z.eqb_eq _]%andb_true_iff _ _. unfold row_core in Hc0. injection Hc0 as Hi HO _ HA _ HKy HP.
  assert (r = r0) as -> by (eapply same_id; [done.. | congruence]). congruence.
Qed.

Lemma wp_publish_delayed i row id record w :
  known_row w row -> retry_from_row row = Ok (id, record) ->
  wp i (publish_delayed_retry record) (fun x w' => rely i w w' /\
    (x = Ok tt -> copied w' retry (dr_origin row) (dr_key row) (dr_payload row) (dr_attempt row))) w.
Proof.
  intros (_ & HS & Ha & Hretry) (_ & HT & HC)%retry_from_row_fields. destruct topics_distinct as (TS & _ & TD & _).
  apply wp_try. eapply wp_mono; [|apply wp_send; rewrite HT, Hretry; [congruence | | congruence]].
  - intros [[]|[]] w1 [HR1 Hsent]; (split; [done|]); [|done]. intros _.
    destruct (Hsent eq_refl) as (part & off & Hoff). rewrite HT, Hretry in Hoff. by exists part, off, (delayed_record record).
  - intros _. eexists _, _, _, _. split; [exact HC | by split].
Qed.

Lemma wp_relay_rows i rc token rows n w :
  Forall (known_row w) rows -> wp i (relay_rows rc token rows n) (fun _ _ => True) w.
Proof.
  revert n w. induction rows as [|row rows IH]; intros n w HK; [done|]. cbn [relay_rows].
  apply Forall_cons in HK as [HR HK].
  destruct (retry_from_row row) as [[id record]|e] eqn:ER; [|apply wp_abandon].
  apply wp_bind. eapply wp_mono; [|by eapply wp_publish_delayed]. apply retry_from_row_fields in ER as [-> _].
  intros [[]|e] w1 [HR1 HC]; [|apply wp_abandon].
  assert (HK1 : forall r, known_row w r -> known_row w1 r) by (intros r; apply known_row_mono, HR1).
  apply wp_bind. eapply wp_mono; [|eapply wp_confirm; [by apply HK1 | by apply HC]].
  intros [affected|e] w2 HR2; [|apply wp_abandon]. apply IH. eapply Forall_impl; [exact HK|].
  intros r Hr. eapply known_row_mono; [apply HR2 | by apply HK1].
Qed.

Lemma claimed_known w limit token lease rows t :
  inv w -> claim_due_rows limit token lease (table w) = Ok (rows, t) ->
  grows w (set_table t w) /\ inv (set_table t w) /\ Forall (known_row (set_table t w)) rows.
Proof.
  intros HI. unfold claim_due_rows. set (candidates := take _ _). destruct (existsb _ candidates); [done|].
  intros [= <- <-].
  match goal with |- context [set_table (set_rows (map (fun r => if @?b r then @?f r else r) _) _)] =>
    destruct (inv_update w b f HI) as [HG HI'] end; [done | intros r Hr _; cbn; congruence |].
  split_and!; [done | done |]. apply Forall_fmap, Forall_forall. intros r Hr. cbn.
  assert (Hin : r ∈ rt_rows (table w)).
  { unfold candidates in Hr. apply elem_of_take in Hr as (n & Hn & _). apply list_elem_of_lookup_2 in Hn.
    rewrite (merge_sort_Permutation due_le) in Hn. apply list_elem_of_In, filter_In in Hn as [Hn _].
    by apply list_elem_of_In. }
  destruct (inv_rows _ HI r Hin) as (Ha & HT & _ & HS & _). eapply known_row_mono; [exact HG|].
  split; [by exists r | split; [exact HS | by split]].
Qed.

Lemma wp_relay_once i rc batch w : wp i (relay_once rc batch) (fun _ _ => True) w.
Proof.
  unfold relay_once, relay_once_inner.
  apply wp_bind. eapply wp_mono; [|by apply wp_silent]. intros ? w1 _.
  apply wp_bind, wp_bind. eapply wp_mono; [|by apply wp_silent]. intros token w2 _. cbn beta.
  assert (HO : forall o w, wp i (ask (Observe o)) (fun _ _ => True) w).
  { intros o w'. eapply wp_mono; [|by apply wp_silent]. done. }
  apply wp_try. eapply wp_mono; [|apply (wp_kcall _ _ _ (fun x w3 => forall rows, x = Ok rows -> Forall (known_row w3) rows))];
    [|done|].
  - intros [rows|e] w3 [_ HK].
    + eapply wp_mono; [|apply wp_relay_rows; by apply HK]. intros [n|e] w4 _; apply wp_bind; (eapply wp_mono; [|apply HO]); done.
    + apply wp_bind. eapply wp_mono; [|apply HO]. done.
  - intros w3 x w4 _ HI Hd. cbn in Hd.
    destruct (claim_due_rows _ _ _ _) as [[rows t]|e] eqn:EC; [|destruct Hd as [-> [? ->]]; by split_and!].
    destruct (claimed_known _ _ _ _ _ _ HI EC) as (HG & HI' & HK).
    destruct Hd as [[-> Hx]|[-> [? ->]]]; [|by split_and!]. split_and!; [done | done |]. naive_solver.
Qed.

Lemma wp_relay_run_until i rc lc n total w : wp i (relay_run_until rc lc n total) (fun _ _ => True) w.
Proof.
  revert total w. induction n as [|n IH]; intros total w; [done|]. cbn [relay_run_until].
  apply wp_bind. eapply wp_mono; [|by apply wp_silent]. intros [] w1 _; [done|].
  apply wp_bind. eapply wp_mono; [|apply wp_relay_once]. intros [published|e] w2 _; [|done].
  cbn zeta. case_match; [|apply IH]. apply wp_bind. eapply wp_mono; [|by apply wp_silent]. intros [] w3 _; [done | apply IH].
Qed.
End deployment.
