(* ===== verification/KafkaSystem.v ===== *)
(** Deployments of Kafka consumers and delayed-retry relays: what holds of every event of the
    source topic in every interleaving of one consumer group, and two ways to lose an event
    outside of it. *)

From Stdlib Require Import ZArith Lia Bool Ascii.
From stdpp Require Import gmap relations.
From S2P Require Import Prelude Strings Uuid Json Outbox Events Effects Kafka KafkaRetry KafkaDelivery.

Local Open Scope Z_scope.

(** What a publisher sends has no retry metadata. *)
Lemma published_plain `{UuidApi} topic m : plain_headers (Some (rec_headers (published_record topic m))).
Proof.
  cbn [plain_headers published_record rec_headers].
  repeat (apply Forall_cons; split; [apply (bool_decide_eq_true_1 _); vm_compute; reflexivity|]). constructor.
Qed.

Section system.
Context {E : Type} `{!Event E} `{UuidApi} (from_slice_typed : bytes -> option (EventEnvelope E)).
Context (config : KafkaConsumerConfig) (c : KafkaRetryConfig).

Notation source := (cc_topic config).
Notation retry := (rt_retry_topic c).
Notation dead := (rt_dead_letter_topic c).
Notation group := (cc_group_id config).
Notation World := (World E).

(** ** The members of a deployment *)

Inductive member : Type :=
(** [KafkaPublisher::publish] to the source topic. *)
| Producer (m : EventMessage)
(** [run_until], and [run_with_failure_routing] with either router. *)
| StrictConsumer (records : nat)
| ImmediateConsumer (records : nat)
| DelayedConsumer (delay : Duration) (records : nat)
(** [relay_once] and the relay's [run_until]. *)
| RelayPass (relay : KafkaDelayedRetryRelayConfig) (batch : Z)
| RelayLoop (relay : KafkaDelayedRetryRelayConfig) (loop_config : KafkaDelayedRetryRelayLoopConfig) (passes : nat).

Definition forget {A} (p : program (kcall (E:=E)) A) : program (kcall (E:=E)) unit := _ ← p; Ret tt.

Definition immediate : KafkaFailurePublisher := {| fp_retry := c |}.
Definition delayed (delay : Duration) : PostgresKafkaDelayedRetryRouter := {| pr_fallback := immediate; pr_delay := delay |}.

Definition member_program (m : member) : program (kcall (E:=E)) unit :=
  match m with
  | Producer m => forget (kafka_publish source m)
  | StrictConsumer n => forget (KafkaRetry.run_until from_slice_typed n)
  | ImmediateConsumer n => forget (run_with_failure_routing from_slice_typed immediate config n)
  | DelayedConsumer delay n => forget (run_with_failure_routing from_slice_typed (delayed delay) config n)
  | RelayPass relay batch => forget (relay_once relay batch)
  | RelayLoop relay loop_config n => forget (relay_run_until relay loop_config n relay_report_default)
  end.

Definition acts (i : nat) (_ : member) := does (E:=E) group (subscription_topics config) i.
Notation kafka_step := (Effects.step member_program acts (happens config)).
Notation kafka_system := (Effects.system (call:=kcall (E:=E)) World member unit).

(** Nothing was retried, dead-lettered, staged or committed yet, and no partition is assigned. *)
Record initial (w : World) : Prop := {
  init_source : forall partition n r, log w (source, partition) !! n = Some r -> plain_headers (Some (rec_headers r));
  init_retry : forall partition, log w (retry, partition) = [];
  init_dead : forall partition, log w (dead, partition) = [];
  init_rows : rt_rows (table w) = [];
  init_committed : forall tp, committed w !! (group, tp) = None;
  init_positions : positions w = ∅
}.
Definition reachable (w0 : World) (s : kafka_system) : Prop :=
  rtc kafka_step {| world := w0; callers := [] |} s.

(** ** The laws of the system *)

Context `{!Deployment config c} `{!StartsAtBeginning config}.

Notation inv := (inv from_slice_typed config c).
Notation grows := (grows (E:=E)).
Notation rely := (rely from_slice_typed config c).
Notation clean := (clean from_slice_typed config c).
Notation wp i := (Effects.wp (rely i) (does group (subscription_topics config) i) inv grows).

Lemma wp_forget i {A} (p : program kcall A) w : wp i p (fun _ _ => True) w -> wp i (forget p) (fun _ _ => True) w.
Proof. intros HP. apply wp_bind. eapply wp_mono; [|exact HP]. done. Qed.

Lemma wp_run_routed i {R} `{!KafkaFailureRouter (E:=E) R} (router : R) `{!DurableRouter from_slice_typed config c router} n w :
  clean i w -> wp i (run_with_failure_routing from_slice_typed router config n) (fun _ _ => True) w.
Proof.
  intros HC. unfold run_with_failure_routing. destruct (validate_failure_route_topics _ _ _ _); [|done].
  apply wp_receive_loop; [done | | done]. intros m w'. by apply wp_process_routed.
Qed.

Lemma wp_member i m w : clean i w -> wp i (member_program m) (fun _ _ => True) w.
Proof.
  intros HC. destruct m; apply wp_forget.
  - apply wp_try. destruct (topics_distinct config c) as (TS & DS & _ & _).
    eapply wp_mono; [|apply wp_send]; [by intros [] | |..]; cbn [rec_topic published_record]; [|congruence..].
    intros _. apply published_plain.
  - apply wp_receive_loop; [done | | done]. intros m w'. by apply wp_process_strict.
  - by apply wp_run_routed; [apply publisher_durable|].
  - by apply wp_run_routed; [apply delayed_durable|].
  - by apply wp_relay_once.
  - by apply wp_relay_run_until.
Qed.

Lemma others_rely i j (m : member) X (f : kcall X) w x w' :
  i <> j -> acts i m X f w x w' -> grows w w' -> rely j w w'.
Proof.
  intros Hij Hd HG.
  assert (HP : current w' !! j = current w !! j /\ forall tp, positions w' !! (j, tp) = positions w !! (j, tp)).
  { destruct f; cbn in Hd.
    - destruct x as [[x|]|]; [|by subst|by subst]. destruct Hd as [_ ->].
      split; [by apply lookup_insert_ne | intros tp; apply lookup_insert_ne; congruence].
    - destruct x; subst; [|done]. unfold handler_succeeded. by case_match.
    - naive_solver.
    - naive_solver.
    - destruct (meaning (table w)) as [[a t]|e]; naive_solver.
    - by subst.
    - by subst.
    - by subst. }
  destruct HP as [HC HP]. split; [done | done |]. intros tp p _. rewrite HP. by left.
Qed.

Lemma background_ok w w' : inv w -> happens config w w' -> inv w' /\ grows w w' /\ forall i, rely i w w'.
Proof.
  intros HI Hb. destruct Hb as [partition r Ht Hp Hb|i tp|i tp|d Hd].
  - pose proof (append_grows w (rec_topic r, partition) r) as HG. destruct (topics_distinct config c) as (TS & DS & _ & _).
    split; [|split; [done|]].
    + apply inv_append; cbn; [done | done | congruence | congruence].
    + intros i. split; [done | done | by left].
  - assert (HG : grows w (set_positions (<[(i, tp) := start_offset config tp w]> (positions w)) w))
      by (split; [done | done | eauto]).
    split; [by apply (inv_same from_slice_typed config c w)|]. split; [done|].
    intros j. split; [done | done |]. intros tp' p Ht. cbn [positions set_positions].
    destruct (decide ((i, tp) = (j, tp'))) as [[= <- <-]|Hne]; [|rewrite lookup_insert_ne by done; by left].
    rewrite lookup_insert_eq. intros [= <-]. right. intros offset Ho.
    eapply settled_mono; [done|]. unfold start_offset in Ho.
    destruct (committed w !! (group, tp)) as [n|] eqn:EC; [by eapply (inv_committed _ _ _ _ HI)|].
    rewrite starts_at_beginning in Ho. lia.
  - assert (HG : grows w (set_positions (delete (i, tp) (positions w)) w)) by (split; [done | done | eauto]).
    split; [by apply (inv_same from_slice_typed config c w)|]. split; [done|].
    intros j. split; [done | done |]. intros tp' p Ht. cbn [positions set_positions].
    intros [_ ?]%lookup_delete_Some. by left.
  - set (t := {| rt_clock := _; rt_rows := _ |}).
    assert (HG : grows w (set_table t w)) by (split; [done | done | eauto]).
    split; [by apply (inv_same from_slice_typed config c w)|]. split; [done|]. intros j. split; [done | done | by left].
Qed.

#[export] Instance kafka_laws :
  SystemLaws member_program acts (happens config) inv grows rely clean (fun _ _ _ _ => True).
Proof.
  split.
  - intros i m w HC _. by apply wp_member.
  - intros i j m X f w x w'. apply others_rely.
  - intros i w w'. apply clean_rely.
  - apply background_ok.
Qed.

Lemma initial_inv w0 : initial w0 -> inv w0.
Proof.
  intros [IS IR ID IW IC IP]. split.
  - done.
  - intros p n r. by rewrite IR.
  - intros p n r. by rewrite ID.
  - rewrite IW. by intros r ?%not_elem_of_nil.
  - rewrite IW. apply NoDup_nil_2.
  - intros tp n offset _. by rewrite IC.
Qed.

Lemma kafka_reachable_inv w0 s : initial w0 -> reachable w0 s -> inv (world s).
Proof.
  intros H0 HR.
  assert (HS : Effects.system_inv acts inv grows rely clean (fun _ _ _ _ => True)
                 {| world := w0; callers := [] : list (thread member unit) |}).
  { split; [by apply initial_inv | | done]. intros j _ tp n offset _. cbn [world].
    rewrite (init_positions _ H0), lookup_empty. done. }
  destruct (steps_inv member_program acts (happens config) _ _ _ _ _ _ _ HS HR) as [_ [HI _ _]]. exact HI.
Qed.

(** ** What becomes of an event *)

(** The group will still receive the record, or its handler succeeded on it. *)
Definition pending (w : World) (tp : TopicPartition) (offset : Z) : Prop :=
  match committed w !! (group, tp) with Some n => n <= offset | None => True end.
Definition alive (w : World) (tp : TopicPartition) (offset : Z) (r : KafkaRecord) : Prop :=
  pending w tp offset \/ was_handled from_slice_typed config w (message_at tp offset r).

(** A failed event is dead-lettered, waits for the relay, or is alive on the retry topic. *)
Definition carried_on (w : World) (o : FailureOrigin) (key : option bytes) (p : bytes) : Prop :=
  (exists a, copied w dead o key p a) \/
  (exists row a, row ∈ rt_rows (table w) /\ dr_published_at row = None /\ is_staged c o key p a row) \/
  (exists partition offset r a, log w (retry, partition) !! Z.to_nat offset = Some r /\ is_copy o key p a r /\
     alive w (retry, partition) offset r).

Lemma committed_settled w (tp : TopicPartition) offset r :
  inv w -> tp.1 ∈ [source; retry] -> 0 <= offset -> log w tp !! Z.to_nat offset = Some r ->
  pending w tp offset \/ settled_message from_slice_typed config c w (message_at tp offset r).
Proof.
  intros HI Ht Ho Hr. unfold pending. destruct (committed w !! (group, tp)) as [n|] eqn:EC; [|by left].
  destruct (Z.le_gt_cases n offset) as [?|Hn]; [by left|]. right.
  destruct (inv_committed _ _ _ _ HI tp n offset Ht EC ltac:(lia)) as (r' & Hr' & HS). by simplify_eq.
Qed.

Lemma moved_on_carried w o key p a :
  inv w -> source_has config w o key p -> 1 <= a <= rt_max_deliveries c ->
  moved_on c w o key p a -> carried_on w o key p.
Proof.
  intros HI HS. remember (Z.to_nat (rt_max_deliveries c - a)) as k eqn:Hk. revert a Hk.
  induction k as [|k IH]; intros a Hk Ha [HD|[Ha' HM]]; try (left; by exists a); [lia|].
  assert (HR : copied w retry o key p (a + 1) -> carried_on w o key p).
  { intros (partition & n & r & Hr & HC). rewrite <- (Nat2Z.id n) in Hr.
    pose proof (copy_lineage config c w (retry, partition) (Z.of_nat n) r o key p (a + 1) HC HS ltac:(lia))
      as (HA & HO & _).
    assert (HL : alive w (retry, partition) (Z.of_nat n) r -> carried_on w o key p)
      by (intros HL; right; right; exists partition, (Z.of_nat n), r, (a + 1); by split_and!).
    destruct (committed_settled w (retry, partition) (Z.of_nat n) r HI ltac:(set_solver) ltac:(lia) Hr)
      as [?|[?|(o' & a' & p' & HA' & HO' & HP & HM')]]; [by apply HL; left | by apply HL; right|].
    destruct HC as (HK & HP' & _). cbn [km_key km_payload message_at] in HM', HP.
    assert (o' = o /\ a' = a + 1 /\ p' = p) as (-> & -> & ->) by (split_and!; congruence).
    rewrite HK in HM'. apply (IH (a + 1)); [lia | lia | done]. }
  destruct HM as [?|(row & Hrow & Hst)]; [by apply HR|].
  destruct (dr_published_at row) as [t|] eqn:EP.
  - destruct (inv_rows _ _ _ _ HI row Hrow) as (_ & _ & _ & _ & _ & HC). rewrite EP in HC.
    destruct Hst as (HO & HA & HK & HP & _). apply HR. rewrite <- HO, <- HA, <- HK, <- HP. by apply HC.
  - right; left. by exists row, (a + 1).
Qed.

Lemma no_event_lost_facts w0 s partition offset r p :
  initial w0 -> reachable w0 s -> 0 <= partition <= i32_max -> 0 <= offset <= i64_max ->
  log (world s) (source, partition) !! Z.to_nat offset = Some r -> rec_payload r = Some p ->
  alive (world s) (source, partition) offset r \/
  carried_on (world s) {| fo_topic := source; fo_partition := partition; fo_offset := offset |} (rec_key r) p.
Proof.
  intros H0 HR Hp Ho Hr HP. pose proof (kafka_reachable_inv w0 s H0 HR) as HI.
  pose proof (source_lineage from_slice_typed config c (world s) partition offset r HI Hp Ho Hr) as (HA & HO & Ha & HS).
  destruct (committed_settled (world s) (source, partition) offset r HI ltac:(left) ltac:(lia) Hr)
    as [?|[?|(o & a & p' & HA' & HO' & HP' & HM)]]; [by left; left | by left; right |].
  right. cbn [km_payload message_at] in HP'. rewrite HA in HA'. rewrite HO in HO'. rewrite HP in HP'.
  injection HA' as <-. injection HO' as <-. injection HP' as <-.
  eapply moved_on_carried; [done | by apply HS | done | done].
Qed.

(** C15: at-least-once delivery for one group that starts at the beginning of topics it has no
    offset for ([auto.offset.reset], which has to be set), with a retry table of its own and
    consumers that are run once each, while records are retained. However its consumers with or
    without retries, relays, producers, rebalances, failed requests and crashes interleave,
    every event of the source topic is still to be received by the group, was handled, was
    dead-lettered, waits in the retry table, or has a copy on the retry topic that is still to
    be received or was handled. Without these conditions events can be lost:
    [default_reset_loses_event], [second_group_loses_event], [rerun_loses_event] below. *)
Theorem no_event_lost w0 s partition offset r p :
  initial w0 -> reachable w0 s -> 0 <= partition <= i32_max -> 0 <= offset <= i64_max ->
  log (world s) (source, partition) !! Z.to_nat offset = Some r -> rec_payload r = Some p ->
  alive (world s) (source, partition) offset r \/
  carried_on (world s) {| fo_topic := source; fo_partition := partition; fo_offset := offset |} (rec_key r) p.
Proof. apply no_event_lost_facts. Qed.

Lemma row_publishable (w : World) row :
  row_ok config c w row -> exists record, retry_from_row row = Ok (dr_id row, record) /\
    rec_topic (delayed_record record) = retry /\
    is_copy (dr_origin row) (dr_key row) (dr_payload row) (dr_attempt row) (delayed_record record).
Proof.
  intros (Ha & HT & HF & HS & HV & _). pose proof (deployed_max (config:=config) (c:=c)) as HM.
  assert (exists record, retry_from_row row = Ok (dr_id row, record)) as [record HR].
  { unfold retry_from_row, validate_stored_retry_record.
    destruct HS as (HT' & ? & ? & _). rewrite HT, HT'. destruct (topics_distinct config c) as (_ & _ & _ & Hn).
    rewrite (proj2 (validate_topic_name_Ok _) Hn), (proj2 (validate_topic_name_Ok _) (deployed_source (c:=c))).
    cbn [map_err]. rewrite HV, !(proj2 (Z.leb_le _ _)) by lia. cbn [andb orb].
    rewrite !(proj2 (Z.ltb_ge _ _)) by lia. cbn [orb].
    rewrite !elem_of_cons in HF. destruct HF as [->|[->|[]%not_elem_of_nil]]; eexists; reflexivity. }
  exists record. split; [done|]. apply retry_from_row_fields in HR as (_ & -> & ?). done.
Qed.

(** Retries are faithful and bounded. Every record of the retry and of the dead-letter
    topic carries key and payload of a record of the source topic, and a consumer reads from
    it that record's position and an attempt of at most [max_deliveries]; every row of the
    table is one that the relay accepts and publishes to the retry topic as such a record. *)
Theorem retries_faithful w0 s :
  initial w0 -> reachable w0 s ->
  (forall topic partition n r tp offset, topic = retry \/ topic = dead ->
     log (world s) (topic, partition) !! n = Some r ->
     exists o p a, rec_payload r = Some p /\ source_has config (world s) o (rec_key r) p /\
       retry_attempt (message_at tp offset r) = Ok a /\ 1 <= a <= rt_max_deliveries c /\
       origin_from_message (message_at tp offset r) = Ok o) /\
  (forall row, row ∈ rt_rows (table (world s)) ->
     source_has config (world s) (dr_origin row) (dr_key row) (dr_payload row) /\
     2 <= dr_attempt row <= rt_max_deliveries c /\
     exists record, retry_from_row row = Ok (dr_id row, record) /\ rec_topic (delayed_record record) = retry /\
       is_copy (dr_origin row) (dr_key row) (dr_payload row) (dr_attempt row) (delayed_record record)).
Proof.
  intros H0 HR. pose proof (kafka_reachable_inv w0 s H0 HR) as HI. split.
  - intros topic partition n r tp offset Ht Hr.
    assert (copies_source config c (world s) 1 r) as (o & key & p & a & HC & HS & Ha).
    { destruct Ht as [-> | ->]; [|by eapply (inv_dead _ _ _ _ HI)].
      destruct (inv_retry _ _ _ _ HI _ _ _ Hr) as (o & key & p & a & ? & ? & ?). exists o, key, p, a.
      split; [done | split; [done | lia]]. }
    destruct (copy_lineage config c (world s) tp offset r o key p a HC HS Ha) as (HA & HO & _ & _).
    destruct HC as (<- & HP & _). by exists o, p, a.
  - intros row Hrow. pose proof (inv_rows _ _ _ _ HI row Hrow) as HK.
    split; [apply HK|]. split; [apply HK|]. by apply (row_publishable (world s)).
Qed.
End system.

(** ** Published events *)

Section published.
Context {E : Type} `{!Event E} {Value : Type}.
Context (from_slice_typed : bytes -> option (EventEnvelope E)) (from_slice_raw : bytes -> option (EventEnvelope Value)).
Context (from_value : Value -> option E).
Context `{!JsonWriter (EventEnvelope E)} `{!EventSerdeLaws from_slice_typed from_slice_raw from_value} `{UuidApi}.
Context (config : KafkaConsumerConfig) (c : KafkaRetryConfig) `{!Deployment config c} `{!StartsAtBeginning config}.

(** The group's handler succeeded on the event of the envelope. *)
Definition handler_saw (w : World E) (e : EventEnvelope E) : Prop :=
  exists m, {| hr_group := cc_group_id config; hr_message := m; hr_payload := ee_payload e;
               hr_context := context_from_envelope e |} ∈ handled w.
Lemma handled_saw w m p e :
  km_payload m = Some p -> event_decode from_slice_typed p = Ok e ->
  was_handled from_slice_typed config w m -> handler_saw w e.
Proof. intros Hp He (p' & e' & Hp' & He' & Hin). exists m. by assert (e' = e) as -> by congruence. Qed.

(** From publishing to handling. An envelope that was published to the source topic is, in
    every state of the deployment, still to be received there or on the retry topic, was
    handled with exactly its payload, identity, key, correlation and trace, or is kept in the
    dead-letter topic or as an unpublished row of the retry table with a body that decodes to
    this very envelope. *)
Theorem published_event_delivered w0 s partition offset e m :
  initial config c w0 -> reachable from_slice_typed config c w0 s ->
  0 <= partition <= i32_max -> 0 <= offset <= i64_max ->
  event_reachable from_slice_typed from_slice_raw from_value e -> event_message e = Ok m ->
  log (world s) (cc_topic config, partition) !! Z.to_nat offset = Some (published_record (cc_topic config) m) ->
  let carries p := event_decode from_slice_typed p = Ok e in
  pending config (world s) (cc_topic config, partition) offset \/
  handler_saw (world s) e \/
  (exists partition' n r p, log (world s) (rt_dead_letter_topic c, partition') !! n = Some r /\
     rec_payload r = Some p /\ carries p) \/
  (exists row, row ∈ rt_rows (table (world s)) /\ dr_published_at row = None /\ carries (dr_payload row)) \/
  (exists partition' offset' r p, log (world s) (rt_retry_topic c, partition') !! Z.to_nat offset' = Some r /\
     rec_payload r = Some p /\ carries p /\ pending config (world s) (rt_retry_topic c, partition') offset').
Proof.
  intros H0 HR Hp Ho HE HM Hr carries.
  assert (HC : carries (ev_payload m)).
  { unfold event_message in HM. destruct (event_encode e) as [body|] eqn:EB; [|done]. injection HM as <-.
    by eapply event_roundtrip. }
  destruct (no_event_lost_facts from_slice_typed config c w0 s partition offset _ _ H0 HR Hp Ho Hr eq_refl)
    as [[?|HH]|[(a & pt & n & r & Hl & _ & Hpl & _)|[(row & a & Hrow & Hun & Hst)|(pt & n & r & a & Hl & HCp & HA)]]].
  - by left.
  - right; left. refine (handled_saw _ _ _ _ _ HC HH). done.
  - right; right; left. by exists pt, n, r, (ev_payload m).
  - do 3 right. left. exists row. destruct Hst as (_ & _ & _ & -> & _). done.
  - destruct HCp as (_ & Hpl & _). destruct HA as [HP|HH].
    + do 4 right. by exists pt, n, r, (ev_payload m).
    + right; left. refine (handled_saw _ _ _ _ _ HC HH). exact Hpl.
Qed.
End published.

(** ** Answers by a script *)

Section script.
Context {E : Type} (group : str) (topics : list str) (assigned : list TopicPartition) (i : nat).
(** When handlers succeed and whether producers get their acknowledgements; statements and
    commits succeed, and an identifier is the number of rows. *)
Context (handler : E -> EventContext -> bool) (acknowledged : bool).

Definition next_of (w : World E) (tp : TopicPartition) : option KafkaMessage :=
  match positions w !! (i, tp) with
  | Some offset =>
      if (0 <=? offset) && (offset <=? i64_max)
      then message_at tp offset <$> (log w tp !! Z.to_nat offset)
      else None
  | None => None
  end.

Definition scripted X (c : kcall (E:=E) X) (w : World E) : X * World E :=
  match c in kcall X return X * World E with
  | Recv => match omap (next_of w) assigned with m :: _ => (Some (Ok m), deliver i m w) | [] => (None, w) end
  | Handle p context => if handler p context then (Ok tt, handler_succeeded group i p context w) else (Err tt, w)
  | Send r => if acknowledged then (Ok tt, append (rec_topic r, 0) r w) else (Err tt, w)
  | CommitMessage m => (Ok tt, commit_offset group m w)
  | RetryStatement _ meaning =>
      match meaning (table w) with Ok (a, t) => (Ok a, set_table t w) | Err e => (Err e, w) end
  | NewUuid => (Z.of_nat (List.length (rt_rows (table w))), w)
  | ShutdownOr => (false, w)
  | Observe _ => (tt, w)
  end.

Lemma scripted_does X (c : kcall X) w :
  Forall (fun tp => tp.1 ∈ topics /\ 0 <= tp.2 <= i32_max) assigned ->
  does group topics i X c w (scripted X c w).1 (scripted X c w).2.
Proof.
  intros HA. destruct c; cbn; try done.
  - destruct (omap (next_of w) assigned) as [|m ms] eqn:EO; cbn; [done|]. split; [|done].
    assert (Hm : m ∈ omap (next_of w) assigned) by (rewrite EO; left).
    apply list_elem_of_omap in Hm as (tp & Htp & Hm). rewrite Forall_forall in HA. apply HA in Htp as [Ht Hp].
    unfold next_of in Hm. destruct (positions w !! (i, tp)) as [offset|] eqn:EP; [|done].
    destruct (_ && _) eqn:EB; [|done]. apply andb_true_iff in EB as [?%Z.leb_le ?%Z.leb_le].
    apply fmap_Some in Hm as (r & Hr & ->). exists tp, offset, r. split_and!; done || lia.
  - by destruct (handler _ _).
  - destruct acknowledged; [left; exists 0; by split | by right].
  - by left.
  - destruct (meaning (table w)) as [[a t]|e]; cbn; [left; split; [done | by left] | eauto].
Qed.
End script.

(** ** Runs of a deployment *)

Section runs.
Context {E : Type} `{!Event E} (from_slice_typed : bytes -> option (EventEnvelope E)).
Context (config : KafkaConsumerConfig) (c : KafkaRetryConfig).
Context {Client : Type} (programs : Client -> program (kcall (E:=E)) unit).
Context (handler : E -> EventContext -> bool) (acknowledged : bool).

Notation topics := (subscription_topics config).
Notation group := (cc_group_id config).
Notation World := (World E).

(** [w] is reached with [n] callers started. *)
Definition reaches (w0 w : World) (n : nat) : Prop :=
  exists s, rtc (Effects.step programs (fun i _ => does group topics i) (happens config)) {| world := w0; callers := [] |} s /\
    world s = w /\ List.length (callers s) = n.

Lemma reaches_nothing w0 : reaches w0 w0 0.
Proof. by exists {| world := w0; callers := [] |}. Qed.
Lemma reaches_background w0 w w' n : reaches w0 w n -> happens config w w' -> reaches w0 w' n.
Proof.
  intros (s & HR & <- & HN) Hb. exists {| world := w'; callers := callers s |}. split; [|done].
  eapply rtc_r; [done | by apply step_background].
Qed.

(** A caller is started, gets partitions assigned and runs. *)
Definition assign_all (i : nat) (tps : list TopicPartition) (w : World) : World :=
  foldl (fun w tp => set_positions (<[(i, tp) := start_offset config tp w]> (positions w)) w) w tps.
Definition run_scripted (client : Client) (tps : list TopicPartition) (i : nat) (w : World) : World :=
  (exec (scripted group tps i handler acknowledged) (programs client) w).2.
Definition launch (client : Client) (tps : list TopicPartition) (i : nat) (w : World) : World :=
  run_scripted client tps i (assign_all i tps w).

Lemma reaches_assigned w0 w n i tps : reaches w0 w n -> reaches w0 (assign_all i tps w) n.
Proof.
  unfold assign_all. revert w. induction tps as [|tp tps IH]; intros w HR; [done|]. cbn.
  apply IH. eapply reaches_background; [done | constructor].
Qed.

Lemma reaches_run w0 w n client tps :
  forallb (fun tp => bool_decide (tp.1 ∈ topics) && (0 <=? tp.2) && (tp.2 <=? i32_max)) tps = true ->
  reaches w0 w n -> reaches w0 (run_scripted client tps n w) (S n).
Proof.
  intros HT (s & HR & HW & HN). unfold run_scripted.
  destruct (exec _ (programs client) _) as [a w'] eqn:EX. rewrite <- HW in EX.
  set (s1 := {| world := world s; callers := callers s ++ [{| th_client := client; th_rest := programs client |}] |}).
  exists {| world := w'; callers := <[n := {| th_client := client; th_rest := Ret a |}]> (callers s1) |}. split_and!.
  - etrans; [exact HR|]. eapply rtc_l; [apply (step_start _ _ _ s client)|].
    apply (exec_steps programs (fun i _ => does group topics i) (happens config)
             (scripted group tps n handler acknowledged) n client (programs client) s1 a w'); [| |done].
    + intros X f w1. apply scripted_does. apply Forall_forall. intros tp Htp%list_elem_of_In.
      rewrite forallb_forall in HT. apply HT in Htp. rewrite !andb_true_iff in Htp.
      destruct Htp as [[?%bool_decide_eq_true ?%Z.leb_le] ?%Z.leb_le]. done.
    + cbn. by rewrite <- HN, list_lookup_middle.
  - done.
  - cbn. rewrite length_insert, length_app. simpl. lia.
Qed.
Lemma reaches_launch w0 w n client tps :
  forallb (fun tp => bool_decide (tp.1 ∈ topics) && (0 <=? tp.2) && (tp.2 <=? i32_max)) tps = true ->
  reaches w0 w n -> reaches w0 (launch client tps n w) (S n).
Proof. intros HT HR. by apply reaches_run, reaches_assigned. Qed.
End runs.

Lemma reaches_reachable {E} `{!Event E} `{UuidApi} from_slice_typed config c w0 w n :
  reaches (E:=E) config (member_program from_slice_typed config c) w0 w n ->
  exists s, reachable from_slice_typed config c w0 s /\ world s = w.
Proof. intros (s & HR & HW & _). by exists s. Qed.

(** ** Lost events *)

Section lost.
Context {E : Type} `{!Event E} (from_slice_typed : bytes -> option (EventEnvelope E)).
Context (config : KafkaConsumerConfig) (c : KafkaRetryConfig).

(** A check that the group is past a record, that no handler run of the group was given it,
    and that topics and table hold nothing else of the group. *)
Definition is_lost (w : World E) (partition offset : Z) : bool :=
  match committed w !! (cc_group_id config, (cc_topic config, partition)) with Some n => offset <? n | None => false end
  && forallb (fun h => negb (str_eqb (hr_group h) (cc_group_id config) && (km_offset (hr_message h) =? offset))) (handled w)
  && forallb (fun kv => negb (str_eqb kv.1.1 (rt_retry_topic c)) && negb (str_eqb kv.1.1 (rt_dead_letter_topic c)))
       (map_to_list (logs w))
  && forallb (fun row => negb (str_eqb (dr_retry_topic row) (rt_retry_topic c))) (rt_rows (table w)).

Lemma no_log w topic partition n r :
  forallb (fun kv => negb (str_eqb kv.1.1 topic)) (map_to_list (logs w)) = true ->
  log (E:=E) w (topic, partition) !! n = Some r -> False.
Proof.
  intros HF Hn. unfold log in Hn. destruct (logs w !! ((topic, partition) : TopicPartition)) as [l|] eqn:EL; [|by destruct n].
  apply elem_of_map_to_list, list_elem_of_In in EL. rewrite forallb_forall in HF. apply HF in EL. cbn in EL.
  by rewrite (proj2 (str_eqb_true _ _) eq_refl) in EL.
Qed.

Lemma is_lost_lost w partition offset r key p :
  is_lost w partition offset = true ->
  ~ (alive from_slice_typed config w (cc_topic config, partition) offset r \/
     carried_on from_slice_typed config c w
       {| fo_topic := cc_topic config; fo_partition := partition; fo_offset := offset |} key p).
Proof.
  unfold is_lost. rewrite !andb_true_iff. intros [[[HC HH] HL] HT].
  assert (HL' : forallb (fun kv => negb (str_eqb kv.1.1 (rt_retry_topic c))) (map_to_list (logs w)) = true /\
                forallb (fun kv => negb (str_eqb kv.1.1 (rt_dead_letter_topic c))) (map_to_list (logs w)) = true).
  { rewrite forallb_forall in HL.
    split; apply forallb_forall; intros kv Hkv; apply HL, andb_true_iff in Hkv; tauto. }
  destruct HL' as [HR HD]. intros [[HP|(p' & e & _ & _ & Hin)]|[(a & pt & n & r' & Hr & _)|[(row & a & Hrow & _ & Hst)|(pt & n & r' & a & Hr & _)]]].
  - unfold pending in HP. destruct (committed w !! _); [|done]. apply Z.ltb_lt in HC. lia.
  - rewrite forallb_forall in HH. apply list_elem_of_In, HH in Hin. cbn in Hin.
    by rewrite (proj2 (str_eqb_true _ _) eq_refl), Z.eqb_refl in Hin.
  - exact (no_log w _ _ _ _ HD Hr).
  - rewrite forallb_forall in HT. apply list_elem_of_In, HT in Hrow. destruct Hst as (_ & _ & _ & _ & Hst).
    by rewrite Hst, (proj2 (str_eqb_true _ _) eq_refl) in Hrow.
  - exact (no_log w _ _ _ _ HR Hr).
Qed.
End lost.

(** ** Concrete deployments *)

Module KafkaExamples.
Import UuidModel.
Definition order : Type := Z.
#[export] Instance order_event : Event order := { TYPE := ##"order.paid"; EVENT_VERSION := 1 }.

Definition envelope (n : Z) : EventEnvelope order :=
  {| ee_id := n; ee_type := ##"order.paid"; ee_version := 1; ee_key := ##"customer"; ee_payload := n;
     occurred_at_unix_ms := 0; correlation_id := None; causation_id := None; ee_trace := None |}.
(** Two bodies that decode. *)
Definition decode_order (body : bytes) : option (EventEnvelope order) :=
  if str_eqb body ##"first" then Some (envelope 1) else if str_eqb body ##"second" then Some (envelope 2) else None.
Definition published (body : bytes) : KafkaRecord :=
  {| rec_topic := ##"orders"; rec_key := Some ##"customer"; rec_payload := Some body; rec_headers := [] |}.

(** The deployment of a group, with retry topics of its own. *)
Definition deploy (group : str) : KafkaConsumerConfig :=
  {| cc_bootstrap_servers := ##"kafka:9092"; cc_topic := ##"orders"; cc_group_id := group;
     cc_retry_topic := Some (##"orders.retry." ++ group); cc_options := {[ ##"auto.offset.reset" := ##"earliest" ]} |}.
Definition retries (group : str) : KafkaRetryConfig :=
  {| rt_retry_topic := ##"orders.retry." ++ group; rt_dead_letter_topic := ##"orders.dlq." ++ group;
     rt_max_deliveries := 3 |}.
Definition billing : str := ##"billing".
Definition email : str := ##"email".

#[export] Instance billing_deployment : Deployment (deploy billing) (retries billing).
Proof. split; [reflexivity | reflexivity | done]. Qed.
#[export] Instance billing_starts : StartsAtBeginning (deploy billing).
Proof. reflexivity. Qed.
#[export] Instance email_deployment : Deployment (deploy email) (retries email).
Proof. split; [reflexivity | reflexivity | done]. Qed.

Definition empty : World order :=
  {| logs := ∅; committed := ∅; positions := ∅; current := ∅; handled := []; table := {| rt_clock := 0; rt_rows := [] |} |}.
Lemma empty_initial config c : initial config c empty.
Proof. split; try done; intros; unfold log; by rewrite lookup_empty. Qed.

Definition orders : TopicPartition := (##"orders", 0).
Definition with_event : World order := append orders (published ##"first") empty.
Definition later (d : Z) (w : World order) : World order :=
  set_table {| rt_clock := rt_clock (table w) + d; rt_rows := rt_rows (table w) |} w.

Definition relay_config : KafkaDelayedRetryRelayConfig :=
  {| rl_lease := from_millis 30000; rl_retry_after_failure := from_millis 1000 |}.
Definition fails (_ : order) (_ : EventContext) : bool := false.
Definition run_member group := launch (deploy group) (member_program decode_order (deploy group) (retries group)) fails true.

(** The handler of the first group fails, the retry is staged, becomes due and is relayed. *)
Definition billing_staged : World order := run_member billing (DelayedConsumer (from_millis 1000) 1) [orders] 0 with_event.
Definition billing_relayed : World order := run_member billing (RelayPass relay_config 10) [] 1 (later 1000000 billing_staged).
(** Then the handler of the second group fails on the same event. *)
Definition email_failed : World order := run_member email (DelayedConsumer (from_millis 1000) 1) [orders] 0 billing_relayed.

Lemma published_reaches {Client} group (programs : Client -> program (kcall (E:=order)) unit) body w0 w n :
  reaches (deploy group) programs w0 w n -> reaches (deploy group) programs w0 (append orders (published body) w) n.
Proof. intros HR. eapply reaches_background; [exact HR|]. by apply (happens_publish (deploy group) w 0 (published body)); [|constructor|]. Qed.
Lemma later_reaches {Client} group (programs : Client -> program (kcall (E:=order)) unit) d w0 w n :
  0 <= d -> reaches (deploy group) programs w0 w n -> reaches (deploy group) programs w0 (later d w) n.
Proof. intros Hd HR. eapply reaches_background; [exact HR|]. by apply happens_tick. Qed.

Lemma billing_staged_reached :
  reaches (deploy billing) (member_program decode_order (deploy billing) (retries billing)) empty billing_staged 1.
Proof. apply reaches_launch; [reflexivity|]. apply published_reaches, reaches_nothing. Qed.
Lemma billing_relayed_reached :
  reaches (deploy billing) (member_program decode_order (deploy billing) (retries billing)) empty billing_relayed 2.
Proof. apply reaches_launch; [reflexivity|]. apply later_reaches; [done|]. apply billing_staged_reached. Qed.

(** C36: delayed retries of a second consumer group are dropped. Two groups with retry topics
    of their own read the same topic with one retry table, and no request fails. The first
    group stages and relays a retry of an event; when the handler of the second group fails
    on the same event, staging its retry conflicts with the relayed row and does nothing, the
    consumer takes it as staged and commits, and the event is lost for the second group. *)
Theorem second_group_loses_event :
  exists w0 s1 s2 r p,
    initial (deploy billing) (retries billing) w0 /\ initial (deploy email) (retries email) w0 /\
    reachable decode_order (deploy billing) (retries billing) w0 s1 /\
    reachable decode_order (deploy email) (retries email) (world s1) s2 /\
    log (world s2) orders !! 0%nat = Some r /\ rec_payload r = Some p /\
    ~ (alive decode_order (deploy email) (world s2) orders 0 r \/
       carried_on decode_order (deploy email) (retries email) (world s2)
         {| fo_topic := ##"orders"; fo_partition := 0; fo_offset := 0 |} (rec_key r) p).
Proof.
  destruct (reaches_reachable _ _ _ _ _ _ billing_relayed_reached) as (s1 & HR1 & HW1).
  destruct (reaches_reachable decode_order (deploy email) (retries email) billing_relayed email_failed 1)
    as (s2 & HR2 & HW2); [apply reaches_launch; [reflexivity | apply reaches_nothing]|].
  exists empty, s1, s2, (published ##"first"), ##"first". rewrite <- HW1 in HR2.
  do 2 (split; [apply empty_initial|]). do 2 (split; [assumption|]). rewrite HW2.
  split; [vm_compute; reflexivity|]. split; [reflexivity|].
  apply (is_lost_lost decode_order (deploy email) (retries email)). vm_compute. reflexivity.
Qed.

(** The same consumer value run again after it failed. *)
Definition rerun (_ : unit) : program (kcall (E:=order)) unit :=
  _ ← run_with_failure_routing decode_order (immediate (retries billing)) (deploy billing) 1;
  forget (run_with_failure_routing decode_order (immediate (retries billing)) (deploy billing) 1).
Definition first_fails (p : order) (_ : EventContext) : bool := negb (p =? 1).
Definition with_events : World order := append orders (published ##"second") with_event.
Definition rerun_done : World order := launch (deploy billing) rerun first_fails false tt [orders] 0 with_events.

(** C37: running a consumer again after an error loses the record it failed on. The handler
    fails on the first record and the retry cannot be published, so that the run returns an
    error without a commit; the second run of the same consumer continues behind that record,
    handles the next one and commits past both. *)
Theorem rerun_loses_event :
  exists w0 s r p,
    initial (deploy billing) (retries billing) w0 /\
    rtc (Effects.step rerun (fun i _ => does billing (subscription_topics (deploy billing)) i) (happens (deploy billing)))
      {| world := w0; callers := [] |} s /\
    log (world s) orders !! 0%nat = Some r /\ rec_payload r = Some p /\
    ~ (alive decode_order (deploy billing) (world s) orders 0 r \/
       carried_on decode_order (deploy billing) (retries billing) (world s)
         {| fo_topic := ##"orders"; fo_partition := 0; fo_offset := 0 |} (rec_key r) p).
Proof.
  assert (reaches (deploy billing) rerun empty rerun_done 1) as (s & HR & HW & _).
  { apply reaches_launch; [reflexivity|]. do 2 apply published_reaches. apply reaches_nothing. }
  exists empty, s, (published ##"first"), ##"first". split; [apply empty_initial|].
  split; [exact HR|]. rewrite HW. split; [vm_compute; reflexivity|]. split; [reflexivity|].
  apply (is_lost_lost decode_order (deploy billing) (retries billing)). vm_compute. reflexivity.
Qed.

(** The configuration that is built without options. *)
Definition default_deploy : KafkaConsumerConfig :=
  {| cc_bootstrap_servers := ##"kafka:9092"; cc_topic := ##"orders"; cc_group_id := billing;
     cc_retry_topic := None; cc_options := ∅ |}.
Example default_deploy_built : consumer_config_new ##"kafka:9092" ##"orders" billing = Ok default_deploy.
Proof. reflexivity. Qed.

(** A consumer has the partition when the first event is published, its handler fails and it
    stops without a commit; its successor is assigned the partition at the end of the log and
    handles the second event. *)
Definition run_default (i : nat) (w : World order) : World order :=
  run_scripted default_deploy (member_program decode_order default_deploy (retries billing)) first_fails true
    (StrictConsumer 1) [orders] i w.
Definition waiting (i : nat) (w : World order) : World order := assign_all default_deploy i [orders] w.
Definition stopped : World order := run_default 0 (append orders (published ##"first") (waiting 0 empty)).
Definition succeeded : World order := run_default 1 (append orders (published ##"second") (waiting 1 stopped)).

Lemma default_round w0 w n body :
  reaches default_deploy (member_program decode_order default_deploy (retries billing)) w0 w n ->
  reaches default_deploy (member_program decode_order default_deploy (retries billing)) w0
    (run_default n (append orders (published body) (waiting n w))) (S n).
Proof.
  intros HR. apply reaches_run; [reflexivity|]. eapply reaches_background; [apply reaches_assigned; exact HR|].
  by apply (happens_publish default_deploy _ 0 (published body)); [|constructor|].
Qed.

(** Without [auto.offset.reset] a failure before the first commit of the group loses the event. *)
Theorem default_reset_loses_event :
  exists w0 s r p,
    initial default_deploy (retries billing) w0 /\ reachable decode_order default_deploy (retries billing) w0 s /\
    log (world s) orders !! 0%nat = Some r /\ rec_payload r = Some p /\
    ~ (alive decode_order default_deploy (world s) orders 0 r \/
       carried_on decode_order default_deploy (retries billing) (world s)
         {| fo_topic := ##"orders"; fo_partition := 0; fo_offset := 0 |} (rec_key r) p).
Proof.
  destruct (reaches_reachable decode_order default_deploy (retries billing) empty succeeded 2) as (s & HR & HW).
  { do 2 apply default_round. apply reaches_nothing. }
  exists empty, s, (published ##"first"), ##"first". split; [apply empty_initial|]. split; [exact HR|]. rewrite HW.
  split; [vm_compute; reflexivity|]. split; [reflexivity|].
  apply (is_lost_lost decode_order default_deploy (retries billing)). vm_compute. reflexivity.
Qed.

(** A relayed retry is alive on the retry topic. *)
Lemma no_event_lost_witness :
  exists s, reachable decode_order (deploy billing) (retries billing) empty s /\
    carried_on decode_order (deploy billing) (retries billing) (world s)
      {| fo_topic := ##"orders"; fo_partition := 0; fo_offset := 0 |} (Some ##"customer") ##"first".
Proof.
  destruct (reaches_reachable _ _ _ _ _ _ billing_relayed_reached) as (s & HR & HW). exists s. split; [exact HR|].
  destruct (no_event_lost decode_order (deploy billing) (retries billing) empty s 0 0 (published ##"first") ##"first")
    as [[HP|(p & e & _ & _ & Hin)]|HC]; [apply empty_initial | exact HR | by split | by split | | reflexivity | | | exact HC].
  - rewrite HW. vm_compute. reflexivity.
  - rewrite HW in HP. exfalso. revert HP. vm_compute. intros HP. by apply HP.
  - exfalso. rewrite HW in Hin. revert Hin. replace (handled billing_relayed) with (@nil (HandlerRun order)) by (vm_compute; reflexivity).
    apply not_elem_of_nil.
Defined.

Lemma retries_faithful_witness :
  exists s row, reachable decode_order (deploy billing) (retries billing) empty s /\
    row ∈ rt_rows (table (world s)) /\ exists record, retry_from_row row = Ok (dr_id row, record).
Proof.
  destruct (reaches_reachable _ _ _ _ _ _ billing_staged_reached) as (s & HR & HW).
  destruct (retries_faithful decode_order (deploy billing) (retries billing) empty s (empty_initial _ _) HR) as [_ HF].
  destruct (rt_rows (table (world s))) as [|row rows] eqn:ER; [exfalso; by rewrite HW in ER|].
  exists s, row. split; [exact HR|]. rewrite ER. split; [left|].
  destruct (HF row) as (_ & _ & record & Hrec & _); [left | by exists record].
Defined.
End KafkaExamples.

(** An envelope that is published, received and handled; the codec knows one envelope. *)
Module PublishedExamples.
Import KafkaExamples UuidModel.

Definition first : EventEnvelope order := envelope 1.
Definition is_first (e : EventEnvelope order) : bool :=
  bool_decide (EventExamples.to_fields e = EventExamples.to_fields first).
#[export] Instance order_writer : JsonWriter (EventEnvelope order) :=
  {| json_writes _ := [ ##"first" ]; json_fails e := negb (is_first e) |}.
Definition read_order (body : bytes) : option (EventEnvelope order) :=
  if str_eqb body ##"first" then Some first else None.

Lemma is_first_eq e : is_first e = true -> first = e.
Proof.
  intros HF%bool_decide_eq_true. rewrite <- (EventExamples.event_of_to_fields first), <- HF. apply EventExamples.event_of_to_fields.
Qed.
#[export] Instance order_laws : EventSerdeLaws read_order read_order Some.
Proof.
  split; [|done|].
  - intros e HF%negb_false_iff%is_first_eq. subst. reflexivity.
  - intros body s Hs. exists s. by split_and!.
Qed.

Definition message : EventMessage := {| ev_id := 1; ev_type := ##"order.paid"; ev_version := 1; ev_key := ##"customer";
  ev_payload := ##"first" |}.
Definition with_message : World order := append orders (published_record ##"orders" message) empty.
Definition succeeds (_ : order) (_ : EventContext) : bool := true.
Definition message_handled : World order :=
  launch (deploy billing) (member_program read_order (deploy billing) (retries billing)) succeeds true
    (ImmediateConsumer 1) [orders] 0 with_message.

Lemma message_published : event_message first = Ok message.
Proof.
  unfold event_message. assert (event_encode first = Ok ##"first") as ->; [|reflexivity].
  apply event_encode_Ok. split_and!; [vm_compute; reflexivity | reflexivity | apply Nat.leb_le; vm_compute; reflexivity].
Qed.

Lemma published_event_delivered_witness :
  exists s, reachable read_order (deploy billing) (retries billing) empty s /\
    handler_saw (deploy billing) (world s) first.
Proof.
  destruct (reaches_reachable read_order (deploy billing) (retries billing) empty message_handled 1) as (s & HR & HW).
  { apply reaches_launch; [reflexivity|]. eapply reaches_background; [apply reaches_nothing|].
    apply (happens_publish (deploy billing) empty 0 (published_record ##"orders" message)); [done | | done].
    apply published_plain. }
  exists s. split; [exact HR|].
  destruct (published_event_delivered read_order read_order Some (deploy billing) (retries billing) empty s 0 0 first message)
    as [HP|[HH|[(pt & n & r & p & Hl & _)|[(row & Hrow & _)|(pt & n & r & p & Hl & _)]]]].
  - apply empty_initial.
  - exact HR.
  - by split.
  - by split.
  - apply (er_new _ _ _ 1 1 ##"customer" 0). reflexivity.
  - exact message_published.
  - rewrite HW. vm_compute. reflexivity.
  - rewrite HW in HP. exfalso. revert HP. vm_compute. intros HP. by apply HP.
  - exact HH.
  - exfalso. revert Hl. rewrite HW. apply no_log. vm_compute. reflexivity.
  - exfalso. revert Hrow. rewrite HW.
    replace (rt_rows (table message_handled)) with (@nil RetryRow) by (vm_compute; reflexivity). apply not_elem_of_nil.
  - exfalso. revert Hl. rewrite HW. apply no_log. vm_compute. reflexivity.
Defined.
End PublishedExamples.
