(* ===== verification/AiProtocol.v ===== *)
(** The provider-neutral AI protocol: [crates/rustee-ai/src/context.rs], [protocol/],
    the values of [tools.rs], [usage.rs] and [usage/budget.rs], and the request policy
    of [pipeline.rs].

    [serde_json::Value] is a type [Value] with the pieces its serializer writes
    ([JsonWriter]); [usize] has 64 bits. Serialized records have the fields of the
    values, so their [Deserialize] is a function of a value read without checks. *)

From Stdlib Require Import ZArith Lia Bool Ascii.
From S2P Require Import Prelude Strings Json.

Local Open Scope Z_scope.

(** ** Bounded identifiers: [context.rs] *)

Definition NUL_byte : ascii := byte_of 0.

(** The three checks of every durable identifier, in their order. *)
Inductive TextError : Type := TextBlank | TextTooLong | TextContainsNul.
Definition validate_text_field (max_bytes : nat) (value : str) : result unit TextError :=
  if is_blank value then Err TextBlank
  else if (max_bytes <? List.length value)%nat then Err TextTooLong
  else if contains_char NUL_byte value then Err TextContainsNul
  else Ok tt.

Definition MAX_TENANT_BYTES : nat := 255.
Definition MAX_SUBJECT_BYTES : nat := 255.
Definition MAX_IDEMPOTENCY_KEY_BYTES : nat := 512.

Inductive AiExecutionContextError : Type :=
| BlankTenant | TenantTooLong | TenantContainsNul
| BlankSubject | SubjectTooLong | SubjectContainsNul.

Record AiExecutionContext : Type := { ctx_tenant : str; ctx_subject : str }.

Definition validate_tenant (tenant : str) : result unit AiExecutionContextError :=
  map_err (fun e => match e with TextBlank => BlankTenant | TextTooLong => TenantTooLong
                            | TextContainsNul => TenantContainsNul end)
    (validate_text_field MAX_TENANT_BYTES tenant).
Definition validate_subject (subject : str) : result unit AiExecutionContextError :=
  map_err (fun e => match e with TextBlank => BlankSubject | TextTooLong => SubjectTooLong
                            | TextContainsNul => SubjectContainsNul end)
    (validate_text_field MAX_SUBJECT_BYTES subject).

Definition context_new (tenant subject : str) : result AiExecutionContext AiExecutionContextError :=
  let? _ := validate_tenant tenant in
  let? _ := validate_subject subject in
  Ok {| ctx_tenant := tenant; ctx_subject := subject |}.

Inductive IdempotencyKeyError : Type := KeyBlank | KeyTooLong | KeyContainsNul.
Definition validate_idempotency_key (key : str) : result unit IdempotencyKeyError :=
  map_err (fun e => match e with TextBlank => KeyBlank | TextTooLong => KeyTooLong
                            | TextContainsNul => KeyContainsNul end)
    (validate_text_field MAX_IDEMPOTENCY_KEY_BYTES key).

Record ToolExecutionContext : Type := { tool_ai : AiExecutionContext; tool_key : str }.

Inductive ToolExecutionContextError : Type :=
| ToolBlankIdempotencyKey | ToolIdempotencyKeyTooLong | ToolIdempotencyKeyContainsNul.
Definition tool_execution_idempotency_key_error (e : IdempotencyKeyError) : ToolExecutionContextError :=
  match e with
  | KeyBlank => ToolBlankIdempotencyKey
  | KeyTooLong => ToolIdempotencyKeyTooLong
  | KeyContainsNul => ToolIdempotencyKeyContainsNul
  end.

Definition tool_context_new (ai : AiExecutionContext) (key : str) :
    result ToolExecutionContext ToolExecutionContextError :=
  let? _ := map_err tool_execution_idempotency_key_error (validate_idempotency_key key) in
  Ok {| tool_ai := ai; tool_key := key |}.

(** ** Model aliases and usage: [protocol/request.rs], [protocol/response.rs] *)

Definition MAX_MODEL_ALIAS_BYTES : nat := 255.
Inductive ModelAliasError : Type := AliasBlank | AliasTooLong | AliasContainsNul.
Definition validate_model_alias (model : str) : result unit ModelAliasError :=
  map_err (fun e => match e with TextBlank => AliasBlank | TextTooLong => AliasTooLong
                            | TextContainsNul => AliasContainsNul end)
    (validate_text_field MAX_MODEL_ALIAS_BYTES model).

(** Token counts are [u64]. *)
Record Usage : Type := { input_tokens : Z; output_tokens : Z }.
Definition usage_default : Usage := {| input_tokens := 0; output_tokens := 0 |}.
Definition total_tokens (u : Usage) : Z := saturating_add u64_max (input_tokens u) (output_tokens u).
#[export] Instance usage_eq_dec : EqDecision Usage.
Proof. solve_decision. Defined.

(** ** Messages: [protocol/message.rs] *)

Inductive MessageRole : Type := System | User | Assistant | Tool.
Inductive RequestError : Type :=
| RequestBlankModel | RequestModelAliasTooLong | RequestModelAliasContainsNul
| EmptyMessages | BlankMessage.

Record ChatMessage : Type := { message_role : MessageRole; message_content : str }.
Definition message_new (role : MessageRole) (content : str) : result ChatMessage RequestError :=
  if is_blank content then Err BlankMessage
  else Ok {| message_role := role; message_content := content |}.
Definition message_deserialize (m : ChatMessage) : result ChatMessage RequestError :=
  message_new (message_role m) (message_content m).

(** ** Tools: [protocol/tool.rs], [tools.rs] *)

Definition MAX_TOOL_NAME_BYTES : nat := 255.
Definition MAX_TOOL_CALL_ID_BYTES : nat := 255.
Inductive ToolError : Type :=
| InvalidName | ToolNameTooLong | BlankCallId | ToolCallIdTooLong | ToolCallIdContainsNul.

Definition is_tool_name_char (c : ascii) : bool :=
  is_ascii_alphanumeric c || char_eqb c "_" || char_eqb c "-" || char_eqb c ".".
Definition validate_tool_name (name : str) : result unit ToolError :=
  if (MAX_TOOL_NAME_BYTES <? List.length name)%nat then Err ToolNameTooLong
  else if negb (nonempty name) || negb (forallb is_tool_name_char name) then Err InvalidName
  else Ok tt.

Inductive ToolRisk : Type := ReadOnly | RequiresConfirmation | Privileged.
#[export] Instance tool_risk_eq_dec : EqDecision ToolRisk.
Proof. solve_decision. Defined.

Section protocol.
Context {Value : Type} `{!JsonWriter Value} (Null : Value).

Record ToolDefinition : Type := { tool_name : str; input_schema : Value }.
Definition definition_new (name : str) (schema : Value) : result ToolDefinition ToolError :=
  let? _ := validate_tool_name name in Ok {| tool_name := name; input_schema := schema |}.
Definition definition_deserialize (d : ToolDefinition) : result ToolDefinition ToolError :=
  definition_new (tool_name d) (input_schema d).

Record ToolCall : Type := { call_id : str; call_name : str; call_arguments : Value }.
Definition call_new (id name : str) (arguments : Value) : result ToolCall ToolError :=
  let? _ := map_err (fun e => match e with TextBlank => BlankCallId | TextTooLong => ToolCallIdTooLong
                                       | TextContainsNul => ToolCallIdContainsNul end)
              (validate_text_field MAX_TOOL_CALL_ID_BYTES id) in
  let? _ := validate_tool_name name in
  Ok {| call_id := id; call_name := name; call_arguments := arguments |}.
Definition call_deserialize (c : ToolCall) : result ToolCall ToolError :=
  call_new (call_id c) (call_name c) (call_arguments c).

Record ToolResult : Type := { result_call_id : str; result_name : str; result_content : Value }.
Definition result_from_call (c : ToolCall) (content : Value) : ToolResult :=
  {| result_call_id := call_id c; result_name := call_name c; result_content := content |}.
Definition result_deserialize (r : ToolResult) : result ToolResult ToolError :=
  let? c := call_new (result_call_id r) (result_name r) Null in
  Ok (result_from_call c (result_content r)).

(** ** Requests: [protocol/request.rs] *)

Record ChatRequest : Type := {
  req_model : str;
  req_messages : list ChatMessage;
  req_tools : list ToolDefinition;
  req_tool_results : list ToolResult
}.

Definition request_model_alias_error (e : ModelAliasError) : RequestError :=
  match e with
  | AliasBlank => RequestBlankModel
  | AliasTooLong => RequestModelAliasTooLong
  | AliasContainsNul => RequestModelAliasContainsNul
  end.

Definition request_new (model : str) (messages : list ChatMessage) : result ChatRequest RequestError :=
  let? _ := map_err request_model_alias_error (validate_model_alias model) in
  match messages with
  | [] => Err EmptyMessages
  | _ => Ok {| req_model := model; req_messages := messages; req_tools := []; req_tool_results := [] |}
  end.

Definition with_tools (tools : list ToolDefinition) (r : ChatRequest) : ChatRequest :=
  {| req_model := req_model r; req_messages := req_messages r; req_tools := tools;
     req_tool_results := req_tool_results r |}.
Definition with_added_message (m : ChatMessage) (r : ChatRequest) : ChatRequest :=
  {| req_model := req_model r; req_messages := req_messages r ++ [m]; req_tools := req_tools r;
     req_tool_results := req_tool_results r |}.
Definition with_tool_results (results : list ToolResult) (r : ChatRequest) : ChatRequest :=
  {| req_model := req_model r; req_messages := req_messages r; req_tools := req_tools r;
     req_tool_results := results |}.

Definition request_deserialize (s : ChatRequest) : result ChatRequest RequestError :=
  let? r := request_new (req_model s) (req_messages s) in
  Ok (with_tool_results (req_tool_results s) (with_tools (req_tools s) r)).

(** [Write for JsonCharacterCounter]: [byte & 0b1100_0000 != 0b1000_0000] counts. *)
Definition starts_scalar (c : ascii) : bool := negb (Z.land (code c) 192 =? 128).
Definition counter_write (characters : Z) (buffer : bytes) : Z :=
  saturating_add u64_max characters (Z.of_nat (List.length (List.filter starts_scalar buffer))).
(** [serde_json::to_writer] into the counter, which accepts every write. *)
Definition serialized_json_characters (v : Value) : Z :=
  if json_fails v then u64_max else fold_left counter_write (json_writes v) 0.

Definition input_characters (r : ChatRequest) : Z :=
  fold_left (saturating_add u64_max)
    (map (fun m => Z.of_nat (List.length (chars (message_content m)))) (req_messages r)
     ++ map (fun x => serialized_json_characters (result_content x)) (req_tool_results r)) 0.

(** ** Responses: [protocol/response.rs] *)

Inductive ResponseError : Type :=
| BlankId | ResponseBlankModel | ResponseModelAliasTooLong | ResponseModelAliasContainsNul.
Definition response_model_alias_error (e : ModelAliasError) : ResponseError :=
  match e with
  | AliasBlank => ResponseBlankModel
  | AliasTooLong => ResponseModelAliasTooLong
  | AliasContainsNul => ResponseModelAliasContainsNul
  end.

Record ChatResponse : Type := {
  resp_id : str;
  resp_model : str;
  resp_content : str;
  resp_tool_calls : list ToolCall;
  resp_usage : Usage
}.
Definition response_new (id model content : str) (calls : list ToolCall) (usage : Usage) :
    result ChatResponse ResponseError :=
  if is_blank id then Err BlankId
  else
    let? _ := map_err response_model_alias_error (validate_model_alias model) in
    Ok {| resp_id := id; resp_model := model; resp_content := content; resp_tool_calls := calls;
          resp_usage := usage |}.
Definition response_deserialize (r : ChatResponse) : result ChatResponse ResponseError :=
  response_new (resp_id r) (resp_model r) (resp_content r) (resp_tool_calls r) (resp_usage r).
(** [serde_json::from_str] at the caller's type. *)
Inductive StructuredOutputError : Type := StructuredDeserialize.
Definition parse_json {T} (from_str : str -> option T) (r : ChatResponse) : result T StructuredOutputError :=
  ok_or (from_str (resp_content r)) StructuredDeserialize.

(** ** Budget metadata and reservations: [usage/budget.rs], [usage.rs] *)

Record AiBudgetRequest : Type := {
  b_model : str;
  b_input_characters : Z;
  b_tool_count : Z;
  b_tool_result_count : Z
}.
#[export] Instance budget_request_eq_dec : EqDecision AiBudgetRequest.
Proof. solve_decision. Defined.

Definition budget_from_request (r : ChatRequest) : AiBudgetRequest :=
  {| b_model := req_model r; b_input_characters := input_characters r;
     b_tool_count := Z.of_nat (List.length (req_tools r));
     b_tool_result_count := Z.of_nat (List.length (req_tool_results r)) |}.

Record AiUsageReservation : Type := {
  rsv_context : AiExecutionContext;
  rsv_key : str;
  rsv_request : AiBudgetRequest
}.

Inductive AiUsageReservationError : Type :=
| BlankIdempotencyKey | IdempotencyKeyTooLong | IdempotencyKeyContainsNul
| BlankModel | ModelAliasTooLong | ModelAliasContainsNul.

Definition validate_usage_idempotency_key (key : str) : result unit AiUsageReservationError :=
  map_err (fun e => match e with KeyBlank => BlankIdempotencyKey | KeyTooLong => IdempotencyKeyTooLong
                            | KeyContainsNul => IdempotencyKeyContainsNul end)
    (validate_idempotency_key key).
Definition validate_usage_model_alias (model : str) : result unit AiUsageReservationError :=
  map_err (fun e => match e with AliasBlank => BlankModel | AliasTooLong => ModelAliasTooLong
                            | AliasContainsNul => ModelAliasContainsNul end)
    (validate_model_alias model).

Definition reservation_for_request (context : AiExecutionContext) (key : str) (r : ChatRequest) :
    result AiUsageReservation AiUsageReservationError :=
  let? _ := validate_usage_idempotency_key key in
  Ok {| rsv_context := context; rsv_key := key; rsv_request := budget_from_request r |}.

Definition reservation_from_metadata (context : AiExecutionContext) (key model : str)
    (characters tools results : Z) : result AiUsageReservation AiUsageReservationError :=
  let? _ := validate_usage_idempotency_key key in
  let? _ := validate_usage_model_alias model in
  Ok {| rsv_context := context; rsv_key := key;
        rsv_request := {| b_model := model; b_input_characters := characters; b_tool_count := tools;
                          b_tool_result_count := results |} |}.

Record AiUsageSettlement : Type := { set_reservation : AiUsageReservation; set_usage : Usage }.
Definition settlement (r : AiUsageReservation) (u : Usage) : AiUsageSettlement :=
  {| set_reservation := r; set_usage := u |}.

Inductive AiUsageReservationDecision : Type :=
| Reserved | Denied | PendingReconciliation | AlreadySettled.

(** ** The request policy: [pipeline.rs] *)

Record AiPolicy : Type := { max_input_characters : Z; max_tools : Z; max_tool_results : Z }.
Definition policy_default : AiPolicy :=
  {| max_input_characters := 100000; max_tools := 16; max_tool_results := 16 |}.

Inductive PolicyError : Type :=
| InputTooLarge (limit actual : Z)
| TooManyTools (limit actual : Z)
| TooManyToolResults (limit actual : Z).

Definition validate_and_measure_input (p : AiPolicy) (r : ChatRequest) : result Z PolicyError :=
  let tool_count := Z.of_nat (List.length (req_tools r)) in
  if max_tools p <? tool_count then Err (TooManyTools (max_tools p) tool_count)
  else
    let tool_result_count := Z.of_nat (List.length (req_tool_results r)) in
    if max_tool_results p <? tool_result_count
    then Err (TooManyToolResults (max_tool_results p) tool_result_count)
    else
      let actual := input_characters r in
      if max_input_characters p <? actual then Err (InputTooLarge (max_input_characters p) actual)
      else Ok actual.
Definition policy_validate (p : AiPolicy) (r : ChatRequest) : result unit PolicyError :=
  let? _ := validate_and_measure_input p r in Ok tt.
End protocol.

Arguments ToolDefinition Value : clear implicits.
Arguments ToolCall Value : clear implicits.
Arguments ToolResult Value : clear implicits.
Arguments ChatRequest Value : clear implicits.
Arguments ChatResponse Value : clear implicits.

(** ** Lemmas: counting characters *)

Lemma scalar_bytes c :
  (is_cont c = true -> starts_scalar c = false) /\
  (code c <? 128 = true -> starts_scalar c = true) /\
  (in_range 194 244 c = true -> starts_scalar c = true).
Proof. destruct c as [[] [] [] [] [] [] [] []]; by vm_compute. Qed.

Lemma in_range_cont lo hi c : in_range lo hi c = true -> 128 <= lo -> hi <= 191 -> is_cont c = true.
Proof. unfold is_cont, in_range. rewrite !andb_true_iff, !Z.leb_le. lia. Qed.

Lemma in_range_lead lo hi c : in_range lo hi c = true -> 194 <= lo -> hi <= 244 -> in_range 194 244 c = true.
Proof. unfold in_range. rewrite !andb_true_iff, !Z.leb_le. lia. Qed.

Lemma code_lead n c : (code c =? n) = true -> 194 <= n <= 244 -> in_range 194 244 c = true.
Proof. unfold in_range. rewrite andb_true_iff, !Z.leb_le, Z.eqb_eq. lia. Qed.

(** The bytes of a well-formed text that start a scalar value are its characters. *)
Lemma scalars_counted s l :
  utf8_chars s = Some l -> List.length (List.filter starts_scalar s) = List.length l.
Proof.
  assert (HC : forall c, is_cont c = true -> starts_scalar c = false) by apply scalar_bytes.
  assert (HL : forall c, in_range 194 244 c = true -> starts_scalar c = true) by apply scalar_bytes.
  remember (List.length s) as n eqn:Hn. assert (Hle : (List.length s <= n)%nat) by lia. clear Hn.
  revert s l Hle. induction n as [|n IH]; intros s l Hle.
  { destruct s; [|simpl in Hle; lia]. by intros [= <-]. }
  destruct s as [|b0 r0]; [by intros [= <-]|]. cbn [utf8_chars List.length] in *.
  assert (Hrec : forall r x k, (List.length r <= n)%nat -> cons x <$> utf8_chars r = Some k ->
            List.length k = S (List.length (List.filter starts_scalar r))).
  { intros r x k Hr HE. apply fmap_Some in HE as (k' & HE & ->). simpl. f_equal. symmetry. by apply IH. }
  destruct (code b0 <? 128) eqn:E0.
  { intros HE. cbn [List.filter]. rewrite (proj1 (proj2 (scalar_bytes b0)) E0).
    symmetry. eapply (Hrec r0); [lia | done]. }
  destruct r0 as [|b1 r1]; [done|]. cbn [List.length] in *. destruct (in_range 194 223 b0 && is_cont b1) eqn:E1.
  { intros HE. apply andb_true_iff in E1 as [Hb0 Hb1]. cbn [List.filter]. rewrite (HC b1 Hb1).
    rewrite (HL b0 (in_range_lead _ _ _ Hb0 ltac:(lia) ltac:(lia))). symmetry. eapply (Hrec r1); [lia | done]. }
  destruct r1 as [|b2 r2]; [done|]. cbn [List.length] in *. destruct (_ && is_cont b2) eqn:E2.
  { intros HE. apply andb_true_iff in E2 as [Hb Hb2]. cbn [List.filter]. rewrite (HC b2 Hb2).
    assert (Hb01 : starts_scalar b0 = true /\ starts_scalar b1 = false).
    { repeat (rewrite orb_true_iff in Hb || rewrite andb_true_iff in Hb).
      destruct Hb as [[[Hx Hy]|[[Hx|Hx] Hy]]|[Hx Hy]]; split.
      all: first [ apply HL, (code_lead _ _ Hx); lia | apply HL, (in_range_lead _ _ _ Hx); lia
                 | apply HC, (in_range_cont _ _ _ Hy); lia | by apply HC ]. }
    destruct Hb01 as [-> ->]. symmetry. eapply (Hrec r2); [lia | done]. }
  destruct r2 as [|b3 r3]; [done|]. cbn [List.length] in *. destruct (_ && is_cont b3) eqn:E3; [|done].
  intros HE. apply andb_true_iff in E3 as [Hb Hb3]. apply andb_true_iff in Hb as [Hb Hb2].
  cbn [List.filter]. rewrite (HC b2 Hb2), (HC b3 Hb3).
  assert (Hb01 : starts_scalar b0 = true /\ starts_scalar b1 = false).
  { repeat (rewrite orb_true_iff in Hb || rewrite andb_true_iff in Hb).
    destruct Hb as [[[Hx Hy]|[Hx Hy]]|[Hx Hy]]; split.
    all: first [ apply HL, (code_lead _ _ Hx); lia | apply HL, (in_range_lead _ _ _ Hx); lia
               | apply HC, (in_range_cont _ _ _ Hy); lia | by apply HC ]. }
  destruct Hb01 as [-> ->]. symmetry. eapply (Hrec r3); [lia | done].
Qed.

Lemma counter_writes pieces n :
  0 <= n <= u64_max ->
  fold_left counter_write pieces n =
    Z.min u64_max (n + Z.of_nat (List.length (List.filter starts_scalar (concat pieces)))).
Proof.
  revert n. induction pieces as [|p pieces IH]; intros n Hn; cbn [fold_left concat].
  { simpl. lia. }
  unfold counter_write at 2, saturating_add. rewrite IH by lia. rewrite List.filter_app, length_app. lia.
Qed.

Lemma fold_saturating l n :
  0 <= n <= u64_max -> Forall (fun x => 0 <= x) l ->
  fold_left (saturating_add u64_max) l n = Z.min u64_max (n + foldr Z.add 0 l).
Proof.
  intros Hn HF. revert n Hn. induction HF as [|x l Hx HF IH]; intros n Hn; cbn [fold_left foldr]; [lia|].
  assert (0 <= foldr Z.add 0 l) by (clear -HF; induction HF; simpl; lia).
  unfold saturating_add at 2. rewrite IH by lia. lia.
Qed.

(** ** Properties: the request policy *)

Section policy.
Context {Value : Type} `{!JsonWriter Value}.
Implicit Types r : ChatRequest Value.

(** The characters of the text a value is sent as. *)
Definition json_characters (v : Value) : Z := Z.of_nat (List.length (chars (concat (json_writes v)))).
Definition well_formed_text (s : bytes) : Prop := valid_utf8 s = true.

Lemma json_characters_counted v :
  json_fails v = false -> well_formed_text (concat (json_writes v)) ->
  serialized_json_characters v = Z.min u64_max (json_characters v).
Proof.
  intros HF HU. unfold serialized_json_characters, json_characters. rewrite HF, counter_writes by (unfold u64_max; lia).
  unfold well_formed_text, valid_utf8 in HU. unfold chars.
  destruct (utf8_chars _) as [l|] eqn:EL; [|done]. rewrite (scalars_counted _ _ EL). simpl. lia.
Qed.

(** All characters of a request that reach the provider. *)
Definition provider_characters r : Z :=
  foldr Z.add 0 (map (fun m => Z.of_nat (List.length (chars (message_content m)))) (req_messages r))
  + foldr Z.add 0 (map (fun x => json_characters (result_content x)) (req_tool_results r)).

Lemma sum_min (l : list Z) (m : Z) :
  0 <= m -> Forall (fun x => 0 <= x) l -> Z.min m (foldr Z.add 0 (map (Z.min m) l)) = Z.min m (foldr Z.add 0 l).
Proof.
  intros Hm HF. induction HF as [|x l Hx HF IH]; [done|]. cbn [map foldr].
  assert (0 <= foldr Z.add 0 l) by (clear -HF; induction HF; simpl; lia).
  assert (0 <= foldr Z.add 0 (map (Z.min m) l)).
  { clear -HF Hm. induction HF as [|x l Hx HF IH]; [done|]. apply Z.add_nonneg_nonneg; [lia | exact IH]. }
  revert IH. generalize dependent (foldr Z.add 0 (map (Z.min m) l)). generalize dependent (foldr Z.add 0 l). lia.
Qed.

Lemma input_characters_counted r :
  Forall (fun x => json_fails (result_content x) = false /\
                   well_formed_text (concat (json_writes (result_content x)))) (req_tool_results r) ->
  input_characters r = Z.min u64_max (provider_characters r).
Proof.
  intros HF. unfold input_characters, provider_characters.
  rewrite fold_saturating; [|unfold u64_max; lia|].
  - rewrite foldr_app, Z.add_0_l.
    assert (HE : map (fun x => serialized_json_characters (result_content x)) (req_tool_results r) =
                 map (Z.min u64_max) (map (fun x => json_characters (result_content x)) (req_tool_results r))).
    { rewrite map_map. apply List.map_ext_in. intros x Hx. rewrite Forall_forall in HF.
      destruct (HF x) as [Hf Hu]; [by apply list_elem_of_In|]. by apply json_characters_counted. }
    rewrite HE. set (js := map (fun x => json_characters (result_content x)) _).
    assert (Hjs : Forall (fun x => 0 <= x) js).
    { unfold js. apply Forall_forall. intros x Hx. apply list_elem_of_In, List.in_map_iff in Hx as (y & <- & _).
      unfold json_characters. lia. }
    pose proof (sum_min js u64_max ltac:(unfold u64_max; lia) Hjs) as HM.
    set (ms := map _ (req_messages r)). assert (Hms : forall z, foldr Z.add z ms = foldr Z.add 0 ms + z).
    { intros z. induction ms as [|x ms' IH]; cbn [foldr]; [lia|]. rewrite IH. apply Z.add_assoc. }
    rewrite Hms. assert (0 <= foldr Z.add 0 ms).
    { unfold ms. clear. induction (req_messages r) as [|m l IH]; [done|].
      apply Z.add_nonneg_nonneg; [lia | exact IH]. }
    assert (Hpos : 0 <= foldr Z.add 0 (map (Z.min u64_max) js)).
    { clear -Hjs. induction Hjs as [|x l Hx _ IH]; [done|].
      apply Z.add_nonneg_nonneg; [unfold u64_max; lia | exact IH]. }
    revert HM Hpos. generalize (foldr Z.add 0 (map (Z.min u64_max) js)). lia.
  - apply Forall_app. split; apply Forall_forall; intros x Hx; apply list_elem_of_In, List.in_map_iff in Hx as (y & <- & Hy).
    + lia.
    + rewrite Forall_forall in HF. destruct (HF y) as [Hf Hu]; [by apply list_elem_of_In|].
      rewrite json_characters_counted by done. unfold json_characters, u64_max. lia.
Qed.
End policy.

(** The request policy measures what the provider receives. For a policy with a
    limit below [usize::MAX] and tool results that serialize to well-formed text, a
    request passes exactly when its tools and tool results are within their limits
    and the characters of all its messages and serialized tool results together are
    within the limit, however the serializer splits its writes; the measured size is
    that number of characters. *)
Theorem policy_exact {Value} `{!JsonWriter Value} p (r : ChatRequest Value) n :
  max_input_characters p < u64_max ->
  Forall (fun x => json_fails (result_content x) = false /\
                   well_formed_text (concat (json_writes (result_content x)))) (req_tool_results r) ->
  validate_and_measure_input p r = Ok n <->
  Z.of_nat (List.length (req_tools r)) <= max_tools p /\
  Z.of_nat (List.length (req_tool_results r)) <= max_tool_results p /\
  provider_characters r <= max_input_characters p /\ n = provider_characters r.
Proof.
  intros Hmax HF. unfold validate_and_measure_input. rewrite input_characters_counted by done.
  destruct (Z.ltb_spec (max_tools p) (Z.of_nat (List.length (req_tools r)))); [split; [done | lia]|].
  destruct (Z.ltb_spec (max_tool_results p) (Z.of_nat (List.length (req_tool_results r)))); [split; [done | lia]|].
  destruct (Z.ltb_spec (max_input_characters p) (Z.min u64_max (provider_characters r))); [split; [done | lia]|].
  split; [intros [= <-]; lia | intros (_ & _ & _ & ->); f_equal; lia].
Qed.

Module AiPolicyExamples.
#[export] Instance text_json : JsonWriter str := {| json_writes v := [v]; json_fails _ := false |}.
(** Two characters of text, one of them two bytes long, and a tool result of three. *)
Definition short_request : ChatRequest str :=
  {| req_model := ##"fast";
     req_messages := [{| message_role := User; message_content := [byte_of 195; byte_of 169; byte_of 33] |}];
     req_tools := [];
     req_tool_results := [{| result_call_id := ##"t1"; result_name := ##"clock"; result_content := ##"noon" |}] |}.
Lemma policy_exact_witness : validate_and_measure_input policy_default short_request = Ok 6.
Proof.
  apply (policy_exact policy_default short_request 6); [vm_compute; reflexivity | | vm_compute; split_and!; congruence].
  repeat constructor.
Defined.
End AiPolicyExamples.
