(* ===== verification/AiTables.v ===== *)
(** The tables of [crates/rustee-ai-audit-sqlx/migrations] and what the statements of
    [usage/store.rs] and [audit/store.rs] do to them. The clock is the server's and a
    statement reads it once. *)

From Stdlib Require Import ZArith Lia Bool Ascii.
From stdpp Require Import gmap sorting.
From S2P Require Import Prelude Strings Outbox AiProtocol.

Local Open Scope Z_scope.

(** The primary key of both tables: tenant and idempotency key. *)
Definition ActionKey : Type := str * str.

Record UsageRow : Type := {
  u_subject : str;
  u_model : str;
  u_input_characters : Z;
  u_tool_count : Z;
  u_tool_result_count : Z;
  u_status : str;
  u_reserved_at : Z;
  u_input_tokens : option Z;
  u_output_tokens : option Z;
  u_settled_at : option Z
}.

Record AuditRow : Type := {
  a_subject : str;
  a_call_id : str;
  a_tool_name : str;
  a_risk : str;
  a_approved_at : Z;
  a_outcome : option str;
  a_recorded_at : option Z
}.

Record AiTables : Type := {
  db_clock : Z;
  usage_rows : gmap ActionKey UsageRow;
  audit_rows : gmap ActionKey AuditRow
}.

Definition set_usage_rows (m : gmap ActionKey UsageRow) (t : AiTables) : AiTables :=
  {| db_clock := db_clock t; usage_rows := m; audit_rows := audit_rows t |}.
Definition set_audit_rows (m : gmap ActionKey AuditRow) (t : AiTables) : AiTables :=
  {| db_clock := db_clock t; usage_rows := usage_rows t; audit_rows := m |}.

(** The [CHECK] constraints of [rustee_ai_usage_ledger]. *)
Definition usage_checks (r : UsageRow) : bool :=
  (0 <=? u_input_characters r) && (0 <=? u_tool_count r) && (0 <=? u_tool_result_count r)
  && default true ((fun n => 0 <=? n) <$> u_input_tokens r)
  && default true ((fun n => 0 <=? n) <$> u_output_tokens r)
  && (str_eqb (u_status r) ##"pending" && negb (is_some (u_input_tokens r))
        && negb (is_some (u_output_tokens r)) && negb (is_some (u_settled_at r))
      || str_eqb (u_status r) ##"completed" && is_some (u_input_tokens r)
        && is_some (u_output_tokens r) && is_some (u_settled_at r)).

(** ** The usage ledger's statements: [usage/store.rs] *)

Definition reserve_sql : str :=
  ##"INSERT INTO rustee_ai_usage_ledger (tenant, idempotency_key, subject, model_alias, input_characters, tool_count, tool_result_count, status) VALUES ($1, $2, $3, $4, $5, $6, $7, 'pending') ON CONFLICT (tenant, idempotency_key) DO NOTHING".
Definition existing_usage_sql : str :=
  ##"SELECT subject, model_alias, input_characters, tool_count, tool_result_count, status FROM rustee_ai_usage_ledger WHERE tenant = $1 AND idempotency_key = $2".
Definition settle_sql : str :=
  ##"UPDATE rustee_ai_usage_ledger SET status = 'completed', input_tokens = $8, output_tokens = $9, settled_at = COALESCE(settled_at, clock_timestamp()) WHERE tenant = $1 AND idempotency_key = $2 AND subject = $3 AND model_alias = $4 AND input_characters = $5 AND tool_count = $6 AND tool_result_count = $7 AND (status = 'pending' OR (status = 'completed' AND input_tokens = $8 AND output_tokens = $9))".
Definition settled_usage_sql : str :=
  ##"SELECT subject, model_alias, input_characters, tool_count, tool_result_count, status, input_tokens, output_tokens FROM rustee_ai_usage_ledger WHERE tenant = $1 AND idempotency_key = $2".
Definition pending_usage_sql : str :=
  ##"SELECT tenant, subject, idempotency_key, model_alias, input_characters, tool_count, tool_result_count FROM rustee_ai_usage_ledger WHERE status = 'pending' ORDER BY reserved_at ASC, tenant ASC, idempotency_key ASC LIMIT $1".

Definition reservation_key (r : AiUsageReservation) : ActionKey := (ctx_tenant (rsv_context r), rsv_key r).
Arguments reservation_key : simpl never.

Definition pending_row (r : AiUsageReservation) (now : Z) : UsageRow :=
  {| u_subject := ctx_subject (rsv_context r); u_model := b_model (rsv_request r);
     u_input_characters := b_input_characters (rsv_request r); u_tool_count := b_tool_count (rsv_request r);
     u_tool_result_count := b_tool_result_count (rsv_request r); u_status := ##"pending";
     u_reserved_at := now; u_input_tokens := None; u_output_tokens := None; u_settled_at := None |}.

(** [INSERT .. ON CONFLICT (tenant, idempotency_key) DO NOTHING]: the rows affected. *)
Definition insert_usage (r : AiUsageReservation) (t : AiTables) : result (Z * AiTables) SqlxError :=
  let row := pending_row r (db_clock t) in
  if negb (usage_checks row) then Err ConstraintViolated
  else match usage_rows t !! reservation_key r with
       | Some _ => Ok (0, t)
       | None => Ok (1, set_usage_rows (<[reservation_key r := row]> (usage_rows t)) t)
       end.

(** The row describes the attempt of a reservation. *)
Definition same_attempt (row : UsageRow) (r : AiUsageReservation) : bool :=
  str_eqb (u_subject row) (ctx_subject (rsv_context r)) && str_eqb (u_model row) (b_model (rsv_request r))
  && (u_input_characters row =? b_input_characters (rsv_request r))
  && (u_tool_count row =? b_tool_count (rsv_request r))
  && (u_tool_result_count row =? b_tool_result_count (rsv_request r)).

Definition has_usage (row : UsageRow) (u : Usage) : bool :=
  bool_decide (u_input_tokens row = Some (input_tokens u))
  && bool_decide (u_output_tokens row = Some (output_tokens u)).

Definition settled_row (row : UsageRow) (u : Usage) (now : Z) : UsageRow :=
  {| u_subject := u_subject row; u_model := u_model row; u_input_characters := u_input_characters row;
     u_tool_count := u_tool_count row; u_tool_result_count := u_tool_result_count row;
     u_status := ##"completed"; u_reserved_at := u_reserved_at row;
     u_input_tokens := Some (input_tokens u); u_output_tokens := Some (output_tokens u);
     u_settled_at := Some (default now (u_settled_at row)) |}.

(** [UPDATE .. WHERE ..]: the rows affected. *)
Definition update_usage (s : AiUsageSettlement) (t : AiTables) : result (Z * AiTables) SqlxError :=
  let r := set_reservation s in
  match usage_rows t !! reservation_key r with
  | None => Ok (0, t)
  | Some row =>
      if same_attempt row r
         && (str_eqb (u_status row) ##"pending"
             || str_eqb (u_status row) ##"completed" && has_usage row (set_usage s))
      then
        let row := settled_row row (set_usage s) (db_clock t) in
        if negb (usage_checks row) then Err ConstraintViolated
        else Ok (1, set_usage_rows (<[reservation_key r := row]> (usage_rows t)) t)
      else Ok (0, t)
  end.

Definition select_usage (r : AiUsageReservation) (t : AiTables) : result (option UsageRow * AiTables) SqlxError :=
  Ok (usage_rows t !! reservation_key r, t).

(** [ORDER BY reserved_at, tenant, idempotency_key]; [collates] is the order of the
    keys in the collation of the database. *)
Definition pending_le {R} (at_ : R -> Z) (collates : ActionKey -> ActionKey -> bool) (a b : ActionKey * R) : Prop :=
  at_ a.2 < at_ b.2 \/ at_ a.2 = at_ b.2 /\ collates a.1 b.1 = true.
#[export] Instance pending_le_dec {R} at_ collates : RelDecision (@pending_le R at_ collates).
Proof. intros a b. unfold pending_le. apply _. Defined.

Definition select_pending_usage (collates : ActionKey -> ActionKey -> bool) (limit : nat) (t : AiTables) :
    result (list (ActionKey * UsageRow) * AiTables) SqlxError :=
  Ok (take limit (merge_sort (pending_le u_reserved_at collates)
        (List.filter (fun kr => str_eqb (u_status kr.2) ##"pending") (map_to_list (usage_rows t)))), t).

(** ** The tool audit's statements: [audit/store.rs] *)

Definition approve_sql : str :=
  ##"INSERT INTO rustee_ai_tool_audit (tenant, idempotency_key, subject, call_id, tool_name, risk) VALUES ($1, $2, $3, $4, $5, $6) ON CONFLICT (tenant, idempotency_key) DO NOTHING".
Definition approval_sql : str :=
  ##"SELECT subject, call_id, tool_name, risk FROM rustee_ai_tool_audit WHERE tenant = $1 AND idempotency_key = $2".
Definition outcome_sql : str :=
  ##"UPDATE rustee_ai_tool_audit SET terminal_outcome = COALESCE(terminal_outcome, $7), outcome_recorded_at = COALESCE(outcome_recorded_at, clock_timestamp()) WHERE tenant = $1 AND idempotency_key = $2 AND subject = $3 AND call_id = $4 AND tool_name = $5 AND risk = $6 AND (terminal_outcome IS NULL OR terminal_outcome = $7)".
Definition terminal_sql : str :=
  ##"SELECT subject, call_id, tool_name, risk, terminal_outcome FROM rustee_ai_tool_audit WHERE tenant = $1 AND idempotency_key = $2".
Definition pending_audit_sql : str :=
  ##"SELECT tenant, subject, idempotency_key, call_id, tool_name, risk FROM rustee_ai_tool_audit WHERE terminal_outcome IS NULL ORDER BY approved_at ASC, tenant ASC, idempotency_key ASC LIMIT $1".

Inductive ToolExecutionOutcome : Type := ToolSucceeded | ToolFailed.

Record ToolApprovalAuditEvent : Type := {
  ev_execution : ToolExecutionContext;
  ev_call_id : str;
  ev_tool_name : str;
  ev_risk : ToolRisk
}.
Definition approval_from_call {V} (execution : ToolExecutionContext) (c : ToolCall V) (risk : ToolRisk) :
    ToolApprovalAuditEvent :=
  {| ev_execution := execution; ev_call_id := call_id c; ev_tool_name := call_name c; ev_risk := risk |}.
Record ToolExecutionAuditEvent : Type := {
  ev_approval : ToolApprovalAuditEvent;
  ev_outcome : ToolExecutionOutcome
}.

Definition tool_risk_name (r : ToolRisk) : str :=
  match r with
  | ReadOnly => ##"read_only"
  | RequiresConfirmation => ##"requires_confirmation"
  | Privileged => ##"privileged"
  end.
Definition tool_outcome_name (o : ToolExecutionOutcome) : str :=
  match o with ToolSucceeded => ##"succeeded" | ToolFailed => ##"failed" end.

Definition approval_key (e : ToolApprovalAuditEvent) : ActionKey :=
  (ctx_tenant (tool_ai (ev_execution e)), tool_key (ev_execution e)).
Arguments approval_key : simpl never.

Definition approved_row (e : ToolApprovalAuditEvent) (now : Z) : AuditRow :=
  {| a_subject := ctx_subject (tool_ai (ev_execution e)); a_call_id := ev_call_id e;
     a_tool_name := ev_tool_name e; a_risk := tool_risk_name (ev_risk e); a_approved_at := now;
     a_outcome := None; a_recorded_at := None |}.

(** The [CHECK]s hold of every risk and outcome name. *)
Definition insert_approval (e : ToolApprovalAuditEvent) (t : AiTables) : result (Z * AiTables) SqlxError :=
  match audit_rows t !! approval_key e with
  | Some _ => Ok (0, t)
  | None => Ok (1, set_audit_rows (<[approval_key e := approved_row e (db_clock t)]> (audit_rows t)) t)
  end.

Definition same_action (row : AuditRow) (e : ToolApprovalAuditEvent) : bool :=
  str_eqb (a_subject row) (ctx_subject (tool_ai (ev_execution e))) && str_eqb (a_call_id row) (ev_call_id e)
  && str_eqb (a_tool_name row) (ev_tool_name e) && str_eqb (a_risk row) (tool_risk_name (ev_risk e)).

Definition outcome_row (row : AuditRow) (outcome : str) (now : Z) : AuditRow :=
  {| a_subject := a_subject row; a_call_id := a_call_id row; a_tool_name := a_tool_name row;
     a_risk := a_risk row; a_approved_at := a_approved_at row;
     a_outcome := Some (default outcome (a_outcome row));
     a_recorded_at := Some (default now (a_recorded_at row)) |}.

Definition update_outcome (e : ToolExecutionAuditEvent) (t : AiTables) : result (Z * AiTables) SqlxError :=
  let key := approval_key (ev_approval e) in
  let outcome := tool_outcome_name (ev_outcome e) in
  match audit_rows t !! key with
  | None => Ok (0, t)
  | Some row =>
      if same_action row (ev_approval e)
         && match a_outcome row with None => true | Some o => str_eqb o outcome end
      then Ok (1, set_audit_rows (<[key := outcome_row row outcome (db_clock t)]> (audit_rows t)) t)
      else Ok (0, t)
  end.

Definition select_audit (e : ToolApprovalAuditEvent) (t : AiTables) : result (option AuditRow * AiTables) SqlxError :=
  Ok (audit_rows t !! approval_key e, t).

Definition select_pending_audit (collates : ActionKey -> ActionKey -> bool) (limit : nat) (t : AiTables) :
    result (list (ActionKey * AuditRow) * AiTables) SqlxError :=
  Ok (take limit (merge_sort (pending_le a_approved_at collates)
        (List.filter (fun kr => negb (is_some (a_outcome kr.2))) (map_to_list (audit_rows t)))), t).
