(* ===== verification/AiPipeline.v ===== *)
(** The AI pipeline: [crates/rustee-ai/src/pipeline.rs], [pipeline/usage.rs],
    [pipeline/stream.rs], [provider.rs], the budget advisor of [usage/budget.rs] and
    the tool registry of [tools.rs] and [tools/registry.rs].

    Asynchronous code is a program over calls ([Effects]) to what the application brings along:
    the provider, advisors, approval policies, tools and the database. Nothing is
    assumed of their answers, and a program can be stopped at any call, as a dropped
    future is. Spans and metrics are not modelled. *)

From Stdlib Require Import ZArith Lia Bool Ascii.
From stdpp Require Import gmap.
From S2P Require Import Prelude Strings Json Outbox Effects AiProtocol AiTables.

Local Open Scope Z_scope.

(** ** What the application brings along *)

Class AiApp : Type := {
  Value : Type;
  value_json :: JsonWriter Value;
  ProviderError : Type;
  AdvisorError : Type;
  BudgetError : Type;
  ApprovalError : Type
}.

Inductive AiBudgetDecision : Type := BudgetApproved | BudgetDenied.
Inductive ToolApprovalDecision : Type := ToolApproved | ToolDenied.
Inductive ToolExecutionError : Type := InvalidArguments | HandlerFailed | InvalidResult.

Section pipeline.
Context `{AiApp}.
Implicit Types request : ChatRequest Value.

Inductive AiStreamEvent : Type :=
| TextDelta (delta : str)
| StreamToolCall (c : ToolCall Value)
| StreamToolResult (r : ToolResult Value)
| Completed (u : Usage).

(** ** Calls and programs *)

Inductive call : Type -> Type :=
(** [AiProvider::complete] and [AiProvider::stream]; a caller has one open stream. *)
| ProviderComplete (r : ChatRequest Value) : call (result (ChatResponse Value) ProviderError)
| ProviderStream (r : ChatRequest Value) : call (result unit ProviderError)
| PollStream : call (option (result AiStreamEvent ProviderError))
(** An application advisor and a budget policy. *)
| BeforeRequest (r : ChatRequest Value) : call (result (ChatRequest Value) AdvisorError)
| AfterResponse (r : ChatResponse Value) : call (result (ChatResponse Value) AdvisorError)
| OnStreamEvent (e : AiStreamEvent) : call (result AiStreamEvent AdvisorError)
| Admit (c : AiExecutionContext) (b : AiBudgetRequest) : call (result AiBudgetDecision BudgetError)
(** An approval policy and a tool. *)
| Approve (c : AiExecutionContext) (t : ToolCall Value) (risk : ToolRisk) :
    call (result ToolApprovalDecision ApprovalError)
| RunTool (name : str) (c : ToolExecutionContext) (arguments : Value) :
    call (result Value ToolExecutionError)
(** A statement of the database: its text and what it does. *)
| Statement {A : Type} (text : str) (meaning : AiTables -> result (A * AiTables) SqlxError) : call (result A SqlxError).

Notation prog := (program call).

(** ** Interfaces: [provider.rs], [usage.rs] *)

Class AiAdvisor (E : Type) : Type := {
  before_request : ChatRequest Value -> prog (result (ChatRequest Value) E);
  after_response : ChatResponse Value -> prog (result (ChatResponse Value) E);
  on_stream_event : AiStreamEvent -> prog (result AiStreamEvent E)
}.

Class AiUsageLedger (E : Type) : Type := {
  reserve : AiUsageReservation -> prog (result AiUsageReservationDecision E);
  record_usage : AiUsageSettlement -> prog (result unit E)
}.

(** An advisor of the application. *)
Definition application_advisor : AiAdvisor AdvisorError := {|
  before_request r := ask (BeforeRequest r);
  after_response r := ask (AfterResponse r);
  on_stream_event e := ask (OnStreamEvent e)
|}.

(** [Infallible] has no values. *)
Definition noop_advisor : AiAdvisor Empty_set := {|
  before_request r := Ret (Ok r);
  after_response r := Ret (Ok r);
  on_stream_event e := Ret (Ok e)
|}.

Inductive BudgetAdvisorError : Type := BudgetAdvisorDenied | BudgetAdvisorPolicy (e : BudgetError).
Definition budget_advisor (context : AiExecutionContext) : AiAdvisor BudgetAdvisorError := {|
  before_request request :=
    try_ BudgetAdvisorPolicy (ask (Admit context (budget_from_request request))) (fun decision =>
      match decision with
      | BudgetApproved => Ret (Ok request)
      | BudgetDenied => Ret (Err BudgetAdvisorDenied)
      end);
  after_response response := Ret (Ok response);
  on_stream_event event := Ret (Ok event)
|}.

(** ** Errors: [pipeline/error.rs] *)

Inductive PipelineError : Type := PipelinePolicy (e : PolicyError) | PipelineProvider (e : ProviderError).
Inductive AdvisedPipelineError (AE : Type) : Type :=
| AdvisedPolicy (e : PolicyError)
| AdvisedProvider (e : ProviderError)
| AdvisedAdvisor (e : AE).
Inductive AdvisedStreamError (AE : Type) : Type :=
| AdvisedStreamProvider (e : ProviderError)
| AdvisedStreamAdvisor (e : AE).
Inductive UsageLedgerPipelineError (LE : Type) : Type :=
| UsagePolicy (e : PolicyError)
| ReservationRequestMismatch
| Reservation (e : LE)
| UsageDenied
| UsagePendingReconciliation
| UsageAlreadySettled
| UsageProvider (e : ProviderError)
| Settlement (response : ChatResponse Value) (e : LE).
Inductive UsageLedgerStreamError (LE : Type) : Type :=
| StreamProvider (e : ProviderError)
| StreamLedger (e : LE)
| DuplicateCompletion.
Inductive AdvisedUsageLedgerPipelineError (AE LE : Type) : Type :=
| LedgerAdvisor (e : AE)
| ReservationMetadata (e : AiUsageReservationError)
| LedgerUsage (e : UsageLedgerPipelineError LE).
Inductive AdvisedUsageLedgerStreamError (AE LE : Type) : Type :=
| LedgerStreamUsage (e : UsageLedgerStreamError LE)
| LedgerStreamAdvisor (e : AE).

(** ** Streams *)

(** A stream with state [S]: what one poll does. *)
Definition AiEventStream (E S : Type) : Type := S -> prog (option (result AiStreamEvent E) * S).

(** The stream the provider opened. *)
Definition provider_events : AiEventStream ProviderError unit := fun _ =>
  event ← ask PollStream; Ret (event, tt).

Definition is_terminal_event {E} (event : result AiStreamEvent E) : bool :=
  match event with Err _ | Ok (Completed _) => true | Ok _ => false end.

(** [stream.rs]: [stream::unfold((stream, false), ..)]. *)
Definition stop_after_terminal_event {E S} (stream : AiEventStream E S) : AiEventStream E (S * bool) :=
  fun '(s, is_terminal) =>
    if is_terminal : bool then Ret (None, (s, is_terminal))
    else
      p ← stream s;
      let '(event, s) := p : option (result AiStreamEvent E) * S in
      match event with
      | None => Ret (None, (s, is_terminal))
      | Some event => Ret (Some event, (s, is_terminal_event event))
      end.

(** [stream.then(f)]. *)
Definition stream_then {E F S} (stream : AiEventStream E S)
    (f : result AiStreamEvent E -> prog (result AiStreamEvent F)) : AiEventStream F S := fun s =>
  p ← stream s;
  let '(event, s) := p : option (result AiStreamEvent E) * S in
  match event with
  | None => Ret (None, s)
  | Some event => event ← f event; Ret (Some event, s)
  end.

(** [settle_usage_stream]; the state holds the reservation until it is settled. *)
Definition settle_usage_stream {LE S} `{!AiUsageLedger LE} (stream : AiEventStream ProviderError S) :
    AiEventStream (UsageLedgerStreamError LE) (S * option AiUsageReservation) :=
  fun '(s, unsettled) =>
    p ← stream s;
    let '(event, s) := p : option (result AiStreamEvent ProviderError) * S in
    match event with
    | None => Ret (None, (s, unsettled))
    | Some (Err e) => Ret (Some (Err (StreamProvider LE e)), (s, unsettled))
    | Some (Ok (Completed usage)) =>
        match unsettled with
        | None => Ret (Some (Err (DuplicateCompletion LE)), (s, None))
        | Some reservation =>
            r ← record_usage (settlement reservation usage);
            Ret (Some (match r : result unit LE with
                       | Ok _ => Ok (Completed usage)
                       | Err e => Err (StreamLedger LE e)
                       end), (s, None))
        end
    | Some (Ok event) => Ret (Some (Ok event), (s, unsettled))
    end.

(** Polling a stream up to [n] times and then dropping it. *)
Fixpoint consume {E S} (stream : AiEventStream E S) (n : nat) (s : S) :
    prog (list (result AiStreamEvent E)) :=
  match n with
  | O => Ret []
  | S n =>
      p ← stream s;
      let '(event, s) := p : option (result AiStreamEvent E) * S in
      match event with
      | None => Ret []
      | Some event => rest ← consume stream n s; Ret (event :: rest)
      end
  end.

(** ** The pipeline: [pipeline.rs] *)

(** [AiPipeline]; the provider is the calls above. *)
Record AiPipeline : Type := { pipeline_policy : AiPolicy }.
Definition pipeline_new : AiPipeline := {| pipeline_policy := policy_default |}.
Definition with_policy (p : AiPolicy) (l : AiPipeline) : AiPipeline := {| pipeline_policy := p |}.

Definition complete (pl : AiPipeline) request : prog (result (ChatResponse Value) PipelineError) :=
  pure_try PipelinePolicy (validate_and_measure_input (pipeline_policy pl) request) (fun _ =>
  try_ PipelineProvider (ask (ProviderComplete request)) (fun response => Ret (Ok response))).

(** The stream a successful call returns; its initial state is returned. *)
Definition pipeline_stream : AiEventStream ProviderError (unit * bool) :=
  stop_after_terminal_event provider_events.
Definition stream (pl : AiPipeline) request : prog (result (unit * bool) PipelineError) :=
  pure_try PipelinePolicy (validate_and_measure_input (pipeline_policy pl) request) (fun _ =>
  try_ PipelineProvider (ask (ProviderStream request)) (fun s => Ret (Ok (s, false)))).

Section advised.
Context {AE : Type} `{!AiAdvisor AE}.

Definition complete_with_advisor (pl : AiPipeline) request :
    prog (result (ChatResponse Value) (AdvisedPipelineError AE)) :=
  try_ (AdvisedAdvisor AE) (before_request request) (fun request =>
  pure_try (AdvisedPolicy AE) (validate_and_measure_input (pipeline_policy pl) request) (fun _ =>
  try_ (AdvisedProvider AE) (ask (ProviderComplete request)) (fun response =>
  try_ (AdvisedAdvisor AE) (after_response response) (fun response => Ret (Ok response))))).

Definition advised_stream : AiEventStream (AdvisedStreamError AE) ((unit * bool) * bool) :=
  stop_after_terminal_event (stream_then (stop_after_terminal_event provider_events) (fun event =>
    pure_try (AdvisedStreamProvider AE) event (fun event =>
    try_ (AdvisedStreamAdvisor AE) (on_stream_event event) (fun event => Ret (Ok event))))).
Definition stream_with_advisor (pl : AiPipeline) request :
    prog (result ((unit * bool) * bool) (AdvisedPipelineError AE)) :=
  try_ (AdvisedAdvisor AE) (before_request request) (fun request =>
  pure_try (AdvisedPolicy AE) (validate_and_measure_input (pipeline_policy pl) request) (fun _ =>
  try_ (AdvisedProvider AE) (ask (ProviderStream request)) (fun s => Ret (Ok ((s, false), false))))).
End advised.

(** ** Usage accounting: [pipeline/usage.rs] *)

Section accounted.
Context {LE : Type} `{!AiUsageLedger LE}.

Definition reserve_usage (r : AiUsageReservation) : prog (result unit (UsageLedgerPipelineError LE)) :=
  try_ (Reservation LE) (reserve r) (fun decision =>
  Ret (match decision with
       | Reserved => Ok tt
       | Denied => Err (UsageDenied LE)
       | PendingReconciliation => Err (UsagePendingReconciliation LE)
       | AlreadySettled => Err (UsageAlreadySettled LE)
       end)).

Definition ensure_reservation_matches (r : AiUsageReservation) request :
    result unit (UsageLedgerPipelineError LE) :=
  if decide (rsv_request r = budget_from_request request) then Ok tt
  else Err (ReservationRequestMismatch LE).

(** The provider call and the durable record of its usage. *)
Definition complete_and_settle (r : AiUsageReservation) request :
    prog (result (ChatResponse Value) (UsageLedgerPipelineError LE)) :=
  try_ (UsageProvider LE) (ask (ProviderComplete request)) (fun response =>
  recorded ← record_usage (settlement r (resp_usage response));
  Ret (match recorded : result unit LE with
       | Ok _ => Ok response
       | Err e => Err (Settlement LE response e)
       end)).

Definition complete_with_usage_ledger (pl : AiPipeline) request (r : AiUsageReservation) :
    prog (result (ChatResponse Value) (UsageLedgerPipelineError LE)) :=
  pure_try (UsagePolicy LE) (validate_and_measure_input (pipeline_policy pl) request) (fun _ =>
  pure_try Datatypes.id (ensure_reservation_matches r request) (fun _ =>
  try_ Datatypes.id (reserve_usage r) (fun _ =>
  complete_and_settle r request))).

Definition accounted_stream :
    AiEventStream (UsageLedgerStreamError LE) (((unit * bool) * option AiUsageReservation) * bool) :=
  stop_after_terminal_event (settle_usage_stream (stop_after_terminal_event provider_events)).
Definition stream_with_usage_ledger (pl : AiPipeline) request (r : AiUsageReservation) :
    prog (result (((unit * bool) * option AiUsageReservation) * bool) (UsageLedgerPipelineError LE)) :=
  pure_try (UsagePolicy LE) (validate_and_measure_input (pipeline_policy pl) request) (fun _ =>
  pure_try Datatypes.id (ensure_reservation_matches r request) (fun _ =>
  try_ Datatypes.id (reserve_usage r) (fun _ =>
  try_ (UsageProvider LE) (ask (ProviderStream request)) (fun s =>
  Ret (Ok (((s, false), Some r), false)))))).

Context {AE : Type} `{!AiAdvisor AE}.

Definition complete_with_advisor_and_usage_ledger (pl : AiPipeline) request
    (context : AiExecutionContext) (key : str) :
    prog (result (ChatResponse Value) (AdvisedUsageLedgerPipelineError AE LE)) :=
  try_ (LedgerAdvisor AE LE) (before_request request) (fun request =>
  pure_try (fun e => LedgerUsage AE LE (UsagePolicy LE e))
    (validate_and_measure_input (pipeline_policy pl) request) (fun _ =>
  pure_try (ReservationMetadata AE LE) (reservation_for_request context key request) (fun r =>
  try_ (LedgerUsage AE LE) (reserve_usage r) (fun _ =>
  try_ (LedgerUsage AE LE) (complete_and_settle r request) (fun response =>
  try_ (LedgerAdvisor AE LE) (after_response response) (fun response => Ret (Ok response))))))).

Definition advised_accounted_stream :
    AiEventStream (AdvisedUsageLedgerStreamError AE LE)
      (((unit * bool) * option AiUsageReservation) * bool) :=
  stop_after_terminal_event
    (stream_then (settle_usage_stream (stop_after_terminal_event provider_events)) (fun event =>
       pure_try (LedgerStreamUsage AE LE) event (fun event =>
       try_ (LedgerStreamAdvisor AE LE) (on_stream_event event) (fun event => Ret (Ok event))))).
Definition stream_with_advisor_and_usage_ledger (pl : AiPipeline) request
    (context : AiExecutionContext) (key : str) :
    prog (result (((unit * bool) * option AiUsageReservation) * bool)
            (AdvisedUsageLedgerPipelineError AE LE)) :=
  try_ (LedgerAdvisor AE LE) (before_request request) (fun request =>
  pure_try (fun e => LedgerUsage AE LE (UsagePolicy LE e))
    (validate_and_measure_input (pipeline_policy pl) request) (fun _ =>
  pure_try (ReservationMetadata AE LE) (reservation_for_request context key request) (fun r =>
  try_ (LedgerUsage AE LE) (reserve_usage r) (fun _ =>
  try_ (fun e => LedgerUsage AE LE (UsageProvider LE e)) (ask (ProviderStream request)) (fun s =>
  Ret (Ok (((s, false), Some r), false))))))).
End accounted.
End pipeline.

Arguments call {_} X.
Notation prog := (program call).
