(* ===== verification/AiLedger.v ===== *)
(** The durable usage ledger and tool audit of [crates/rustee-ai-audit-sqlx/src] and
    the tool registry of [crates/rustee-ai/src/tools.rs] and [tools/registry.rs], as
    programs over the calls of [AiPipeline]. *)

From Stdlib Require Import ZArith Lia Bool Ascii.
From stdpp Require Import gmap sorting.
From S2P Require Import Prelude Strings BTree Json Outbox Effects AiProtocol AiTables AiPipeline.

Local Open Scope Z_scope.

Section stores.
Context `{AiApp}.

(** ** The usage ledger: [usage/record.rs], [usage/store.rs] *)

Inductive PostgresAiUsageLedgerError : Type :=
| UsageInvalidMetadata
| UsageIdentityConflict
| UsageConflict
| MissingReservation
| UsageStorage (e : SqlxError).

Definition MAX_PENDING_USAGE_LIMIT : nat := 1000.
Inductive PendingUsageLimitError : Type := UsageLimitZero | UsageLimitTooLarge.
Definition pending_usage_limit_new (limit : nat) : result nat PendingUsageLimitError :=
  if (limit =? 0)%nat then Err UsageLimitZero
  else if (MAX_PENDING_USAGE_LIMIT <? limit)%nat then Err UsageLimitTooLarge
  else Ok limit.
Definition pending_usage_limit_default : nat := 100.

Definition durable_text (value : str) (maximum : nat) : bool :=
  negb (is_blank value) && negb (contains_char NUL_byte value) && (List.length value <=? maximum)%nat.

Definition valid_usage_reservation (r : AiUsageReservation) : bool :=
  durable_text (ctx_tenant (rsv_context r)) MAX_TENANT_BYTES
  && durable_text (ctx_subject (rsv_context r)) MAX_SUBJECT_BYTES
  && durable_text (rsv_key r) MAX_IDEMPOTENCY_KEY_BYTES
  && durable_text (b_model (rsv_request r)) MAX_MODEL_ALIAS_BYTES
  && (b_input_characters (rsv_request r) <=? i64_max) && (b_tool_count (rsv_request r) <=? i64_max)
  && (b_tool_result_count (rsv_request r) <=? i64_max).

Definition validate_usage_reservation (r : AiUsageReservation) : result unit PostgresAiUsageLedgerError :=
  if valid_usage_reservation r then Ok tt else Err UsageInvalidMetadata.

(** [i64::try_from] of a [usize] or [u64]. *)
Definition to_i64 (value : Z) : result Z PostgresAiUsageLedgerError :=
  if value <=? i64_max then Ok value else Err UsageInvalidMetadata.

(** The three counts as they are bound. *)
Definition bind_counts (r : AiUsageReservation) : result unit PostgresAiUsageLedgerError :=
  let? _ := to_i64 (b_input_characters (rsv_request r)) in
  let? _ := to_i64 (b_tool_count (rsv_request r)) in
  let? _ := to_i64 (b_tool_result_count (rsv_request r)) in
  Ok tt.

Definition validate_matching_usage_identity (row : UsageRow) (r : AiUsageReservation) :
    result unit PostgresAiUsageLedgerError :=
  if same_attempt row r then Ok tt else Err UsageIdentityConflict.

Definition classify_existing_reservation (r : AiUsageReservation) :
    prog (result AiUsageReservationDecision PostgresAiUsageLedgerError) :=
  try_ UsageStorage (ask (Statement existing_usage_sql (select_usage r))) (fun row =>
  match row with
  | None => Ret (Err MissingReservation)
  | Some row =>
      pure_try Datatypes.id (validate_matching_usage_identity row r) (fun _ =>
      Ret (if str_eqb (u_status row) ##"pending" then Ok PendingReconciliation
           else if str_eqb (u_status row) ##"completed" then Ok AlreadySettled
           else Err UsageInvalidMetadata))
  end).

Definition postgres_reserve (r : AiUsageReservation) :
    prog (result AiUsageReservationDecision PostgresAiUsageLedgerError) :=
  pure_try Datatypes.id (validate_usage_reservation r) (fun _ =>
  pure_try Datatypes.id (bind_counts r) (fun _ =>
  try_ UsageStorage (ask (Statement reserve_sql (insert_usage r))) (fun rows_affected =>
  if rows_affected =? 1 then Ret (Ok Reserved) else classify_existing_reservation r))).

Definition classify_usage_settlement (s : AiUsageSettlement) : prog (result unit PostgresAiUsageLedgerError) :=
  let r := set_reservation s in
  try_ UsageStorage (ask (Statement settled_usage_sql (select_usage r))) (fun row =>
  match row with
  | None => Ret (Err MissingReservation)
  | Some row =>
      pure_try Datatypes.id (validate_matching_usage_identity row r) (fun _ =>
      if negb (str_eqb (u_status row) ##"completed") then Ret (Err UsageConflict)
      else
        pure_try Datatypes.id (to_i64 (input_tokens (set_usage s))) (fun _ =>
        if negb (bool_decide (u_input_tokens row = Some (input_tokens (set_usage s))))
        then Ret (Err UsageConflict)
        else
          pure_try Datatypes.id (to_i64 (output_tokens (set_usage s))) (fun _ =>
          Ret (if bool_decide (u_output_tokens row = Some (output_tokens (set_usage s)))
               then Ok tt else Err UsageConflict))))
  end).

Definition record_terminal_usage (s : AiUsageSettlement) : prog (result unit PostgresAiUsageLedgerError) :=
  let r := set_reservation s in
  pure_try Datatypes.id (validate_usage_reservation r) (fun _ =>
  pure_try Datatypes.id (bind_counts r) (fun _ =>
  pure_try Datatypes.id (to_i64 (input_tokens (set_usage s))) (fun _ =>
  pure_try Datatypes.id (to_i64 (output_tokens (set_usage s))) (fun _ =>
  try_ UsageStorage (ask (Statement settle_sql (update_usage s))) (fun rows_affected =>
  if rows_affected =? 1 then Ret (Ok tt) else classify_usage_settlement s))))).

#[export] Instance postgres_ledger : AiUsageLedger PostgresAiUsageLedgerError := {|
  reserve := postgres_reserve;
  record_usage := record_terminal_usage
|}.

(** [PendingAiUsage::from_durable_metadata]; the columns are [i64]. *)
Definition pending_from_durable_metadata (tenant subject key model : str) (characters tools results : Z) :
    option AiUsageReservation :=
  match context_new tenant subject with
  | Err _ => None
  | Ok context =>
      if (characters <? 0) || (tools <? 0) || (results <? 0) then None
      else match reservation_from_metadata context key model characters tools results with
           | Err _ => None
           | Ok r => if valid_usage_reservation r then Some r else None
           end
  end.

Definition decode_pending_usage (kr : ActionKey * UsageRow) : result AiUsageReservation PostgresAiUsageLedgerError :=
  let '((tenant, key), row) := kr in
  ok_or (pending_from_durable_metadata tenant (u_subject row) key (u_model row) (u_input_characters row)
           (u_tool_count row) (u_tool_result_count row)) UsageInvalidMetadata.

Definition pending_usage (collates : ActionKey -> ActionKey -> bool) (limit : nat) :
    prog (result (list AiUsageReservation) PostgresAiUsageLedgerError) :=
  try_ UsageStorage (ask (Statement pending_usage_sql (select_pending_usage collates limit))) (fun rows =>
  Ret (collect_results (map decode_pending_usage rows))).

(** ** The tool audit: [audit/record.rs], [audit/store.rs] *)

Inductive PostgresToolAuditError : Type :=
| AuditInvalidMetadata
| AuditIdentityConflict
| OutcomeConflict
| MissingApproval
| AuditStorage (e : SqlxError).

Definition MAX_PENDING_AUDIT_LIMIT : nat := 1000.
Inductive PendingAuditLimitError : Type := AuditLimitZero | AuditLimitTooLarge.
Definition pending_audit_limit_new (limit : nat) : result nat PendingAuditLimitError :=
  if (limit =? 0)%nat then Err AuditLimitZero
  else if (MAX_PENDING_AUDIT_LIMIT <? limit)%nat then Err AuditLimitTooLarge
  else Ok limit.
Definition pending_audit_limit_default : nat := 100.

Definition valid_durable_metadata (tenant subject key id name : str) : bool :=
  durable_text tenant MAX_TENANT_BYTES && durable_text subject MAX_SUBJECT_BYTES
  && durable_text key MAX_IDEMPOTENCY_KEY_BYTES && durable_text id MAX_TOOL_CALL_ID_BYTES
  && durable_text name MAX_TOOL_NAME_BYTES.

Definition validate_approval_event (e : ToolApprovalAuditEvent) : result unit PostgresToolAuditError :=
  if valid_durable_metadata (ctx_tenant (tool_ai (ev_execution e))) (ctx_subject (tool_ai (ev_execution e)))
       (tool_key (ev_execution e)) (ev_call_id e) (ev_tool_name e)
  then Ok tt else Err AuditInvalidMetadata.

Definition verify_same_approval (e : ToolApprovalAuditEvent) : prog (result unit PostgresToolAuditError) :=
  try_ AuditStorage (ask (Statement approval_sql (select_audit e))) (fun row =>
  Ret (match row with
       | None => Err MissingApproval
       | Some row => if same_action row e then Ok tt else Err AuditIdentityConflict
       end)).

Definition postgres_record_approved (e : ToolApprovalAuditEvent) : prog (result unit PostgresToolAuditError) :=
  pure_try Datatypes.id (validate_approval_event e) (fun _ =>
  try_ AuditStorage (ask (Statement approve_sql (insert_approval e))) (fun rows_affected =>
  if rows_affected =? 1 then Ret (Ok tt) else verify_same_approval e)).

Definition classify_terminal_conflict (e : ToolExecutionAuditEvent) : prog (result unit PostgresToolAuditError) :=
  try_ AuditStorage (ask (Statement terminal_sql (select_audit (ev_approval e)))) (fun row =>
  Ret (match row with
       | None => Err MissingApproval
       | Some row =>
           if negb (same_action row (ev_approval e)) then Err AuditIdentityConflict
           else match a_outcome row with
                | Some value =>
                    if str_eqb value (tool_outcome_name (ev_outcome e)) then Ok tt else Err OutcomeConflict
                | None => Err OutcomeConflict
                end
       end)).

Definition postgres_record_outcome (e : ToolExecutionAuditEvent) : prog (result unit PostgresToolAuditError) :=
  pure_try Datatypes.id (validate_approval_event (ev_approval e)) (fun _ =>
  try_ AuditStorage (ask (Statement outcome_sql (update_outcome e))) (fun rows_affected =>
  if rows_affected =? 1 then Ret (Ok tt) else classify_terminal_conflict e)).

(** [ToolApprovalAuditSink] with [ToolExecutionAuditSink]. *)
Class ToolAuditSink (E : Type) : Type := {
  record_approved : ToolApprovalAuditEvent -> prog (result unit E);
  record_outcome : ToolExecutionAuditEvent -> prog (result unit E)
}.
#[export] Instance postgres_audit : ToolAuditSink PostgresToolAuditError := {|
  record_approved := postgres_record_approved;
  record_outcome := postgres_record_outcome
|}.

Definition parse_tool_risk (value : str) : result ToolRisk PostgresToolAuditError :=
  if str_eqb value ##"read_only" then Ok ReadOnly
  else if str_eqb value ##"requires_confirmation" then Ok RequiresConfirmation
  else if str_eqb value ##"privileged" then Ok Privileged
  else Err AuditInvalidMetadata.

Record PendingToolAudit : Type := {
  pa_tenant : str; pa_subject : str; pa_key : str; pa_call_id : str; pa_tool_name : str; pa_risk : ToolRisk
}.
Definition pending_audit_from_metadata (tenant subject key id name : str) (risk : ToolRisk) :
    option PendingToolAudit :=
  if valid_durable_metadata tenant subject key id name
  then Some {| pa_tenant := tenant; pa_subject := subject; pa_key := key; pa_call_id := id;
               pa_tool_name := name; pa_risk := risk |}
  else None.

Definition decode_pending_audit (kr : ActionKey * AuditRow) : result PendingToolAudit PostgresToolAuditError :=
  let '((tenant, key), row) := kr in
  let? risk := parse_tool_risk (a_risk row) in
  ok_or (pending_audit_from_metadata tenant (a_subject row) key (a_call_id row) (a_tool_name row) risk)
    AuditInvalidMetadata.

Definition pending_audit (collates : ActionKey -> ActionKey -> bool) (limit : nat) :
    prog (result (list PendingToolAudit) PostgresToolAuditError) :=
  try_ AuditStorage (ask (Statement pending_audit_sql (select_pending_audit collates limit))) (fun rows =>
  Ret (collect_results (map decode_pending_audit rows))).

(** ** Tools: [tools.rs], [tools/registry.rs] *)

(** [TypedTool::execute] for a handler that is a program. *)
Definition typed_tool_execute {Input Output HE} (from_value : Value -> option Input)
    (to_value : Output -> option Value) (handler : ToolExecutionContext -> Input -> prog (result Output HE))
    (context : ToolExecutionContext) (arguments : Value) : prog (result Value ToolExecutionError) :=
  pure_try Datatypes.id (ok_or (from_value arguments) InvalidArguments) (fun arguments =>
  try_ (fun _ => HandlerFailed) (handler context arguments) (fun output =>
  Ret (ok_or (to_value output) InvalidResult))).

(** [BTreeMap<String, Arc<dyn ToolExecutor>>], in the order of the names. An executor is
    called by name. *)
Definition ToolRegistry : Type := list (str * (ToolDefinition Value * ToolRisk)).
Definition registry_new : ToolRegistry := [].
Inductive ToolRegistryError : Type := DuplicateTool.

Definition tool_get (registry : ToolRegistry) (name : str) : option (ToolDefinition Value * ToolRisk) :=
  snd <$> List.find (fun x => str_eqb x.1 name) registry.
Fixpoint tool_insert (name : str) (tool : ToolDefinition Value * ToolRisk) (registry : ToolRegistry) : ToolRegistry :=
  match registry with
  | [] => [(name, tool)]
  | x :: rest => if str_ltb name x.1 then (name, tool) :: x :: rest else x :: tool_insert name tool rest
  end.
Definition register_tool (registry : ToolRegistry) (tool : ToolDefinition Value * ToolRisk) :
    result unit ToolRegistryError * ToolRegistry :=
  let name := tool_name tool.1 in
  if is_some (tool_get registry name) then (Err DuplicateTool, registry)
  else (Ok tt, tool_insert name tool registry).
Definition tool_definitions (registry : ToolRegistry) : list (ToolDefinition Value) :=
  map (fun x => x.2.1) registry.

Inductive ToolRunError : Type :=
| UnknownTool
| Approval (e : ApprovalError)
| ToolRunDenied (risk : ToolRisk)
| Execution (e : ToolExecutionError).

(** [DenyAllToolApproval]. *)
Definition deny_all_approve (c : AiExecutionContext) (t : ToolCall Value) (risk : ToolRisk) :
    result ToolApprovalDecision Empty_set := Ok ToolDenied.

Definition authorize (registry : ToolRegistry) (context : ToolExecutionContext) (c : ToolCall Value) :
    prog (result ToolRisk ToolRunError) :=
  match tool_get registry (call_name c) with
  | None => Ret (Err UnknownTool)
  | Some (_, risk) =>
      try_ Approval (ask (Approve (tool_ai context) c risk)) (fun decision =>
      Ret (match decision with ToolApproved => Ok risk | ToolDenied => Err (ToolRunDenied risk) end))
  end.

Definition execute_tool (registry : ToolRegistry) (context : ToolExecutionContext) (c : ToolCall Value) :
    prog (result (ToolResult Value) ToolRunError) :=
  try_ Datatypes.id (authorize registry context c) (fun _ =>
  try_ Execution (ask (RunTool (call_name c) context (call_arguments c))) (fun value =>
  Ret (Ok (result_from_call c value)))).

Inductive AuditedToolRunError (E : Type) : Type := AuditedRun (e : ToolRunError) | AuditedAudit (e : E).
Inductive ExecutionAuditedToolRunError (E : Type) : Type :=
| ExecutionRun (e : ToolRunError)
| ApprovalAudit (e : E)
| OutcomeAudit (event : ToolExecutionAuditEvent) (e : E).

Context {E : Type} `{!ToolAuditSink E}.

Definition execute_with_approval_audit (registry : ToolRegistry) (context : ToolExecutionContext)
    (c : ToolCall Value) : prog (result (ToolResult Value) (AuditedToolRunError E)) :=
  try_ (AuditedRun E) (authorize registry context c) (fun risk =>
  try_ (AuditedAudit E) (record_approved (approval_from_call context c risk)) (fun _ =>
  try_ (fun e => AuditedRun E (Execution e)) (ask (RunTool (call_name c) context (call_arguments c))) (fun value =>
  Ret (Ok (result_from_call c value))))).

Definition execute_with_execution_audit (registry : ToolRegistry) (context : ToolExecutionContext)
    (c : ToolCall Value) : prog (result (ToolResult Value) (ExecutionAuditedToolRunError E)) :=
  try_ (ExecutionRun E) (authorize registry context c) (fun risk =>
  let approval_event := approval_from_call context c risk in
  try_ (ApprovalAudit E) (record_approved approval_event) (fun _ =>
  executed ← ask (RunTool (call_name c) context (call_arguments c));
  let outcome := if is_ok executed then ToolSucceeded else ToolFailed in
  let outcome_event := {| ev_approval := approval_event; ev_outcome := outcome |} in
  try_ (OutcomeAudit E outcome_event) (record_outcome outcome_event) (fun _ =>
  pure_try (fun e => ExecutionRun E (Execution e)) executed (fun value =>
  Ret (Ok (result_from_call c value)))))).
End stores.
