(* ===== verification/AiAccounting.v ===== *)
(** What the AI pipeline of [AiPipeline] promises when it runs on the stores of
    [AiLedger]: any number of callers interleave call by call, the provider, advisors,
    approval policies and tools answer as they like, statements fail or lose their
    acknowledgement, and callers are dropped between and within calls. *)

From Stdlib Require Import ZArith Lia Bool Ascii.
From stdpp Require Import gmap sorting.
From S2P Require Import Prelude Strings Json Outbox Effects AiProtocol AiTables AiPipeline AiLedger.

Local Open Scope Z_scope.

(** ** What callers did *)

(** [i] is a caller and the key the one it works under. [Shown] is a terminal usage an
    advisor was given. *)
Inductive entry : Type :=
| Attempt (i : nat) (k : ActionKey)
| Reported (i : nat) (k : ActionKey) (u : Usage)
| Created (i : nat) (k : ActionKey)
| Ran (i : nat) (k : ActionKey) (tool : str)
| Shown (i : nat) (k : ActionKey) (u : Usage).

Definition caller (e : entry) : nat :=
  match e with Attempt i _ | Reported i _ _ | Created i _ | Ran i _ _ | Shown i _ _ => i end.
Definition own (i : nat) (log : list entry) : list entry :=
  List.filter (fun e => (caller e =? i)%nat) log.

Record shared : Type := { tables : AiTables; log : list entry }.

Definition is_attempt_for (k : ActionKey) (e : entry) : bool :=
  match e with Attempt _ k' => bool_decide (k' = k) | _ => false end.
(** The provider calls made under a key. *)
Definition attempts (k : ActionKey) (l : list entry) : nat :=
  List.length (List.filter (is_attempt_for k) l).

Section calls.
Context `{AiApp, Postgres}.

(** The answers a call can get and what it does to the tables. A statement may also
    fail before or after it took effect. *)
Definition answers {X} (c : call X) : AiTables -> X -> AiTables -> Prop :=
  match c in call X return AiTables -> X -> AiTables -> Prop with
  | Statement text meaning => fun t x t' =>
      execute text meaning t = (x, t') \/
      exists e, x = Err e /\ (t' = t \/ t' = (execute text meaning t).2)
  | _ => fun t _ t' => t' = t
  end.

(** What a call adds to the record. *)
Definition done {X} (i : nat) (k : ActionKey) (c : call X) : X -> list entry :=
  match c in call X return X -> list entry with
  | ProviderComplete _ => fun x =>
      Attempt i k :: match x with Ok r => [Reported i k (resp_usage r)] | Err _ => [] end
  | ProviderStream _ => fun _ => [Attempt i k]
  | PollStream => fun x => match x with Some (Ok (Completed u)) => [Reported i k u] | _ => [] end
  | RunTool name _ _ => fun _ => [Ran i k name]
  | AfterResponse r => fun _ => [Shown i k (resp_usage r)]
  | OnStreamEvent (Completed u) => fun _ => [Shown i k u]
  | _ => fun _ => []
  end.
Definition creation (i : nat) (k : ActionKey) (t t' : AiTables) : list entry :=
  match usage_rows t !! k, usage_rows t' !! k with None, Some _ => [Created i k] | _, _ => [] end.

Definition after {X} (i : nat) (k : ActionKey) (c : call X) (x : X) (t' : AiTables) (s : shared) : shared :=
  {| tables := t'; log := log s ++ done i k c x ++ creation i k (tables s) t' |}.

(** ** How tables may change *)

Definition settled (k : ActionKey) (u : Usage) (t : AiTables) : Prop :=
  exists row, usage_rows t !! k = Some row /\ u_status row = ##"completed" /\ has_usage row u = true.
Definition approved (k : ActionKey) (tool : str) (t : AiTables) : Prop :=
  exists row, audit_rows t !! k = Some row /\ a_tool_name row = tool.
Definition outcome_recorded (k : ActionKey) (tool outcome : str) (t : AiTables) : Prop :=
  exists row, audit_rows t !! k = Some row /\ a_tool_name row = tool /\ a_outcome row = Some outcome.

(** Reservations stay, settled usage, approvals and outcomes stay as they are. *)
Record tables_le (t t' : AiTables) : Prop := {
  le_reserved : forall k, is_Some (usage_rows t !! k) -> is_Some (usage_rows t' !! k);
  le_settled : forall k u, settled k u t -> settled k u t';
  le_approved : forall k n, approved k n t -> approved k n t';
  le_outcome : forall k n o, outcome_recorded k n o t -> outcome_recorded k n o t'
}.

#[export] Instance tables_le_preorder : PreOrder tables_le.
Proof.
  split; [by split|]. intros a b c [H1' H2' H3' H4'] [H5' H6' H7' H8']. split; auto.
Qed.

(** ** The invariant of tables and record *)

Record inv (s : shared) : Prop := {
  (** A reservation is created once and stays. *)
  inv_created : forall i k, Created i k ∈ log s -> is_Some (usage_rows (tables s) !! k);
  inv_creator : forall i j k, Created i k ∈ log s -> Created j k ∈ log s -> i = j;
  (** A caller attempts once, and only what it reserved. *)
  inv_attempt : forall i k, Attempt i k ∈ log s -> Created i k ∈ log s;
  inv_once : forall i k, (attempts k (own i (log s)) <= 1)%nat;
  (** Settled usage was reported. *)
  inv_settled : forall k u, settled k u (tables s) -> exists i, Reported i k u ∈ log s;
  (** Rows are pending or completed with both counts. *)
  inv_rows : forall k row, usage_rows (tables s) !! k = Some row -> usage_checks row = true;
  (** Tools run under a recorded approval. *)
  inv_ran : forall i k n, Ran i k n ∈ log s -> approved k n (tables s);
  (** Advisors see settled usage only. *)
  inv_shown : forall i k u, Shown i k u ∈ log s -> settled k u (tables s)
}.

(** ** Callers among others *)

(** What the others may do between the calls of caller [i]. *)
Record rely (i : nat) (s s' : shared) : Prop := {
  rely_tables : tables_le (tables s) (tables s');
  rely_own : own i (log s') = own i (log s)
}.
#[export] Instance rely_preorder i : PreOrder (rely i).
Proof.
  split; [by split|]. intros a b c [H1' H2'] [H3' H4']. split; [by etrans | congruence].
Qed.

(** What an answered call of caller [i] under key [k] does to tables and record. *)
Definition answered (i : nat) (k : ActionKey) X (c : call X) (s : shared) (x : X) (s' : shared) : Prop :=
  exists t', answers c (tables s) x t' /\ s' = after i k c x t' s.
Definition grows (s s' : shared) : Prop := tables_le (tables s) (tables s').
#[export] Instance grows_preorder : PreOrder grows.
Proof. split; unfold grows; [done | intros a b c; by etrans]. Qed.

(** From [s], whatever the others do, every call of the program keeps the tables
    growing and the invariant, and its result satisfies [Q]. *)
Notation wp i k := (Effects.wp (rely i) (answered i k) inv grows).

(** ** Lemmas: the record *)

Lemma own_app i l1 l2 : own i (l1 ++ l2) = own i l1 ++ own i l2.
Proof. apply List.filter_app. Qed.

Lemma own_mine i l : Forall (fun e => caller e = i) l -> own i l = l.
Proof.
  induction 1 as [|e l He _ IH]; [done|]. unfold own in *. cbn [List.filter].
  by rewrite He, Nat.eqb_refl, IH.
Qed.
Lemma own_other i j l : Forall (fun e => caller e = i) l -> i <> j -> own j l = [].
Proof.
  intros HF Hij. induction HF as [|e l He _ IH]; [done|]. unfold own in *. cbn [List.filter].
  rewrite He. by rewrite (proj2 (Nat.eqb_neq i j) Hij).
Qed.

Lemma own_elem i e l : caller e = i -> e ∈ l <-> e ∈ own i l.
Proof.
  intros He. unfold own. rewrite !list_elem_of_In, List.filter_In, Nat.eqb_eq. naive_solver.
Qed.

Lemma done_mine {X} i k (c : call X) x : Forall (fun e => caller e = i) (done i k c x).
Proof.
  destruct c; cbn; repeat case_match; repeat constructor.
Qed.
Lemma creation_mine i k t t' : Forall (fun e => caller e = i) (creation i k t t').
Proof. unfold creation. repeat case_match; repeat constructor. Qed.

Lemma after_own {X} i k (c : call X) x t' s :
  own i (log (after i k c x t' s)) = own i (log s) ++ done i k c x ++ creation i k (tables s) t'.
Proof.
  cbn [after log]. rewrite !own_app. rewrite (own_mine i (done i k c x)) by apply done_mine.
  by rewrite (own_mine i (creation i k _ _)) by apply creation_mine.
Qed.
Lemma after_other {X} i j k (c : call X) x t' s :
  i <> j -> own j (log (after i k c x t' s)) = own j (log s).
Proof.
  intros Hij. cbn [after log]. rewrite !own_app.
  rewrite (own_other i j (done i k c x)), (own_other i j (creation i k _ _)), !app_nil_r;
    [done | apply creation_mine | done | apply done_mine | done].
Qed.

Lemma creation_same i k t t' : usage_rows t' = usage_rows t -> creation i k t t' = [].
Proof. unfold creation. intros ->. by destruct (usage_rows t !! k). Qed.

(** ** Lemmas: the invariant after a call *)

Lemma inv_extend i s t' new :
  inv s -> tables_le (tables s) t' -> Forall (fun e => caller e = i) new ->
  (forall k row, usage_rows t' !! k = Some row -> usage_checks row = true) ->
  (forall k u, settled k u t' -> settled k u (tables s) \/ Reported i k u ∈ own i (log s) ++ new) ->
  (forall j k, Created j k ∈ new -> is_Some (usage_rows t' !! k) /\ usage_rows (tables s) !! k = None) ->
  (forall k, Attempt i k ∈ new -> Created i k ∈ own i (log s) ++ new) ->
  (forall k, (attempts k (own i (log s) ++ new) <= 1)%nat) ->
  (forall k n, Ran i k n ∈ new -> approved k n t') ->
  (forall k u, Shown i k u ∈ new -> settled k u t') ->
  inv {| tables := t'; log := log s ++ new |}.
Proof.
  intros [I1 I2 I3 I4 I5 I6 I7 I8] HL HF HR HS HC HA HO HN HW.
  assert (Hmine : forall e, e ∈ new -> caller e = i) by (by apply Forall_forall).
  assert (Hown : forall e, e ∈ own i (log s) ++ new -> e ∈ log s ++ new).
  { intros e. rewrite !elem_of_app. intros [He|He]; [left|by right].
    unfold own in He. apply list_elem_of_In, List.filter_In in He as [He _]. by apply list_elem_of_In. }
  split; cbn [tables log].
  - intros j k [Hj|Hj]%elem_of_app; [by apply HL, (I1 j)|]. by destruct (HC j k Hj).
  - intros j j' k [Hj|Hj]%elem_of_app [Hj'|Hj']%elem_of_app.
    + by eapply I2.
    + destruct (HC j' k Hj') as [_ HX]. destruct (I1 j k Hj) as [? ?]. congruence.
    + destruct (HC j k Hj) as [_ HX]. destruct (I1 j' k Hj') as [? ?]. congruence.
    + pose proof (Hmine _ Hj). pose proof (Hmine _ Hj'). simpl in *. congruence.
  - intros j k [Hj|Hj]%elem_of_app; [apply elem_of_app; left; by apply I3|].
    pose proof (Hmine _ Hj) as Hm. simpl in Hm. subst j. by apply Hown, HA.
  - intros j k. rewrite own_app. destruct (decide (j = i)) as [->|Hji].
    + rewrite (own_mine i new) by done. apply HO.
    + rewrite (own_other i j new), app_nil_r by done. apply I4.
  - intros k u [Hs|Hs]%HS; [|exists i; by apply Hown]. destruct (I5 k u Hs) as [j Hj]. exists j.
    apply elem_of_app. by left.
  - exact HR.
  - intros j k n [Hj|Hj]%elem_of_app; [apply HL; by eapply I7|].
    pose proof (Hmine _ Hj) as Hm. simpl in Hm. subst j. by apply HN.
  - intros j k u [Hj|Hj]%elem_of_app; [apply HL; by eapply I8|].
    pose proof (Hmine _ Hj) as Hm. simpl in Hm. subst j. by apply HW.
Qed.

(** A call that changes tables only. *)
Lemma inv_tables i s t' :
  inv s -> tables_le (tables s) t' ->
  (forall k row, usage_rows t' !! k = Some row -> usage_checks row = true) ->
  (forall k u, settled k u t' -> settled k u (tables s) \/ Reported i k u ∈ own i (log s)) ->
  inv {| tables := t'; log := log s ++ [] |}.
Proof.
  intros HI HL HR HS. apply (inv_extend i); try done; rewrite ?app_nil_r; try done; try set_solver.
  intros k. apply HI.
Qed.

(** A call that leaves tables and record alone. *)
Lemma after_nothing {X} i k (c : call X) x s : done i k c x = [] -> after i k c x (tables s) s = s.
Proof.
  intros HD. unfold after. rewrite HD, (creation_same i k (tables s) (tables s) eq_refl). simpl.
  rewrite app_nil_r. by destruct s.
Qed.

Lemma statement_answers {A} text (meaning : AiTables -> result (A * AiTables) SqlxError) t x t' :
  answers (Statement text meaning) t x t' ->
  (exists e, x = Err e) /\ t' = t \/
  exists a, meaning t = Ok (a, t') /\ (x = Ok a \/ exists e, x = Err e).
Proof.
  cbn [answers]. unfold execute. destruct (accepts text).
  - destruct (meaning t) as [[a t1]|e] eqn:EM.
    + intros [[= <- <-] | (e & -> & [->| ->])]; [right; exists a; by auto | left; by eauto |].
      right. exists a. by eauto.
    + intros [[= <- <-] | (e' & -> & [->| ->])]; left; by eauto.
  - intros [[= <- <-] | (e' & -> & [->| ->])]; left; by eauto.
Qed.

(** ** Specifications of the statements *)

(** A caller's own record is as it was. *)
Definition same_own (i : nat) (s s' : shared) : Prop := own i (log s') = own i (log s).

Lemma wp_select {A} i k text (f : AiTables -> A) s (Q : result A SqlxError -> shared -> Prop) :
  (forall s', rely i s s' -> inv s' -> forall x, (x = Ok (f (tables s')) \/ exists e, x = Err e) -> Q x s') ->
  wp i k (ask (Statement text (fun t => Ok (f t, t)))) Q s.
Proof.
  intros HQ s1 Hr Hi x s' (t' & Ha & ->). apply statement_answers in Ha as [[[e ->] ->] | (a & [= <- <-] & Hx)].
  - rewrite after_nothing by done. split_and!; [reflexivity | done | by apply HQ; eauto].
  - rewrite after_nothing by done. split_and!; [reflexivity | done | by apply HQ].
Qed.

Lemma wp_select_usage i k text r s (Q : result (option UsageRow) SqlxError -> shared -> Prop) :
  (forall s', rely i s s' -> inv s' -> forall x,
     (x = Ok (usage_rows (tables s') !! reservation_key r) \/ exists e, x = Err e) -> Q x s') ->
  wp i k (ask (Statement text (select_usage r))) Q s.
Proof. apply (wp_select i k text (fun t => usage_rows t !! reservation_key r)). Qed.
Lemma wp_select_audit i k text e s (Q : result (option AuditRow) SqlxError -> shared -> Prop) :
  (forall s', rely i s s' -> inv s' -> forall x,
     (x = Ok (audit_rows (tables s') !! approval_key e) \/ exists e, x = Err e) -> Q x s') ->
  wp i k (ask (Statement text (select_audit e))) Q s.
Proof. apply (wp_select i k text (fun t => audit_rows t !! approval_key e)). Qed.

Lemma insert_usage_cases r t n t' :
  insert_usage r t = Ok (n, t') ->
  (n = 0 /\ t' = t) \/
  (n = 1 /\ usage_rows t !! reservation_key r = None /\
   usage_checks (pending_row r (db_clock t)) = true /\
   t' = set_usage_rows (<[reservation_key r := pending_row r (db_clock t)]> (usage_rows t)) t).
Proof.
  unfold insert_usage. destruct (usage_checks _) eqn:EC; [|done]. cbn [negb].
  destruct (usage_rows t !! _) eqn:EU; intros [= <- <-]; [by left | by right].
Qed.

Lemma insert_usage_le r t :
  usage_rows t !! reservation_key r = None ->
  tables_le t (set_usage_rows (<[reservation_key r := pending_row r (db_clock t)]> (usage_rows t)) t).
Proof.
  intros HN. split; simpl.
  - intros k [row Hk]. destruct (decide (k = reservation_key r)) as [->|Hne].
    + rewrite lookup_insert_eq. by eexists.
    + rewrite lookup_insert_ne by done. by eexists.
  - intros k u (row & Hk & Hs). exists row. split; [|done]. simpl.
    rewrite lookup_insert_ne; [done|]. intros Heq. subst k. congruence.
  - done.
  - done.
Qed.

Lemma wp_insert i k r s :
  reservation_key r = k ->
  wp i k (ask (Statement reserve_sql (insert_usage r)))
    (fun x s' => (own i (log s') = own i (log s) /\ x <> Ok 1)
                 \/ own i (log s') = own i (log s) ++ [Created i k]) s.
Proof.
  intros <- s1 [HT HO] Hi x s' (t' & Ha & ->). rewrite <- HO.
  apply statement_answers in Ha as [[[e ->] ->] | (n & HM & Hx)].
  { rewrite after_nothing by done. split_and!; [reflexivity | done | left; done]. }
  apply insert_usage_cases in HM as [[-> ->] | (-> & HN & HC & ->)].
  { rewrite after_nothing by done. split_and!; [reflexivity | done |]. left. split; [done|].
    destruct Hx as [->|[e ->]]; done. }
  set (t' := set_usage_rows _ _). assert (HL : tables_le (tables s1) t') by (by apply insert_usage_le).
  assert (HCr : creation i (reservation_key r) (tables s1) t' = [Created i (reservation_key r)]).
  { unfold creation, t'. simpl. by rewrite HN, lookup_insert_eq. }
  split_and!; [done | |].
  - unfold after. rewrite HCr. simpl. apply (inv_extend i); try done.
    + by repeat constructor.
    + intros k row. unfold t'. simpl. destruct (decide (k = reservation_key r)) as [->|Hne].
      * rewrite lookup_insert_eq. by intros [= <-].
      * rewrite lookup_insert_ne by done. apply Hi.
    + intros k u (row & Hk & Hs & Hu). left. revert Hk. unfold t'. simpl.
      destruct (decide (k = reservation_key r)) as [->|Hne].
      * rewrite lookup_insert_eq. intros [= <-]. done.
      * rewrite lookup_insert_ne by done. intros Hk. by exists row.
    + intros j k Hj%list_elem_of_singleton. injection Hj as -> ->. split; [|done].
      unfold t'. simpl. rewrite lookup_insert_eq. by eexists.
    + intros k Hk%list_elem_of_singleton. done.
    + intros k. unfold attempts. rewrite List.filter_app. simpl. rewrite app_nil_r. apply Hi.
    + intros k n Hk%list_elem_of_singleton. done.
    + intros k n Hk%list_elem_of_singleton. done.
  - right. rewrite after_own, HCr. done.
Qed.

Lemma update_usage_cases st t n t' :
  update_usage st t = Ok (n, t') ->
  (n = 0 /\ t' = t) \/
  (n = 1 /\ exists row, let k := reservation_key (set_reservation st) in
     let row' := settled_row row (set_usage st) (db_clock t) in
     usage_rows t !! k = Some row /\ usage_checks row' = true /\
     (u_status row = ##"pending" \/ has_usage row (set_usage st) = true) /\
     t' = set_usage_rows (<[k := row']> (usage_rows t)) t).
Proof.
  unfold update_usage. destruct (usage_rows t !! _) as [row|] eqn:EU; [|intros [= <- <-]; by left].
  destruct (same_attempt _ _ && _) eqn:EB; [|intros [= <- <-]; by left].
  destruct (usage_checks _) eqn:EC; [|done]. cbn [negb]. intros [= <- <-]. right. split; [done|].
  exists row. cbn zeta. split_and!; try done. apply andb_true_iff in EB as [_ EB].
  rewrite orb_true_iff, andb_true_iff, !str_eqb_true in EB. intuition.
Qed.

Lemma settled_row_usage row u now : has_usage (settled_row row u now) u = true.
Proof. unfold has_usage. simpl. by rewrite !bool_decide_true. Qed.

Lemma has_usage_inj row u v : has_usage row u = true -> has_usage row v = true -> u = v.
Proof.
  unfold has_usage. rewrite !andb_true_iff, !bool_decide_eq_true. destruct u, v. simpl. naive_solver.
Qed.

(** A row that is settled changes to itself only. *)
Lemma settle_le k u row t now :
  usage_rows t !! k = Some row -> (u_status row = ##"pending" \/ has_usage row u = true) ->
  tables_le t (set_usage_rows (<[k := settled_row row u now]> (usage_rows t)) t).
Proof.
  intros Hk HS. split; simpl; [| |done|done].
  - intros k' [row' Hk']. destruct (decide (k' = k)) as [->|Hne].
    + rewrite lookup_insert_eq. by eexists.
    + rewrite lookup_insert_ne by done. by eexists.
  - intros k' v (row' & Hk' & Hst & Hv). destruct (decide (k' = k)) as [->|Hne].
    + rewrite Hk in Hk'. injection Hk' as <-. destruct HS as [HS|HS]; [rewrite HS in Hst; done|].
      rewrite (has_usage_inj row v u Hv HS). exists (settled_row row u now). simpl.
      rewrite lookup_insert_eq. split_and!; [done | done | apply settled_row_usage].
    + exists row'. simpl. by rewrite lookup_insert_ne.
Qed.

Lemma wp_update i k st s :
  reservation_key (set_reservation st) = k -> Reported i k (set_usage st) ∈ own i (log s) ->
  wp i k (ask (Statement settle_sql (update_usage st)))
    (fun x s' => same_own i s s' /\ (x = Ok 1 -> settled k (set_usage st) (tables s'))) s.
Proof.
  unfold same_own. intros <- HRep s1 [HT HO] Hi x s' (t' & Ha & ->). rewrite <- HO in HRep |- *.
  apply statement_answers in Ha as [[[e ->] ->] | (n & HM & Hx)].
  { rewrite after_nothing by done. split; [reflexivity|]; split; [done|]; split; [done|]; done. }
  apply update_usage_cases in HM as [[-> ->] | (-> & row & Hk & HC & HS & ->)].
  { rewrite after_nothing by done. split_and!; [reflexivity | done | split; [done|]].
    destruct Hx as [->|[e ->]]; done. }
  set (k := reservation_key (set_reservation st)) in *. set (t' := set_usage_rows _ _).
  assert (HL : tables_le (tables s1) t') by (by apply settle_le).
  assert (HCr : creation i k (tables s1) t' = []) by (unfold creation; by rewrite Hk).
  split_and!; [done | | split].
  - unfold after. rewrite HCr. simpl. apply (inv_tables i); try done.
    + intros k' row'. unfold t'. simpl. destruct (decide (k' = k)) as [->|Hne].
      * rewrite lookup_insert_eq. by intros [= <-].
      * rewrite lookup_insert_ne by done. apply Hi.
    + intros k' u (row' & Hk' & Hst & Hu). revert Hk'. unfold t'. simpl.
      destruct (decide (k' = k)) as [->|Hne].
      * rewrite lookup_insert_eq. intros [= <-]. right.
        by rewrite (has_usage_inj _ u (set_usage st) Hu (settled_row_usage _ _ _)).
      * rewrite lookup_insert_ne by done. intros Hk'. left. by exists row'.
  - rewrite after_own, HCr. simpl. by rewrite app_nil_r.
  - intros _. exists (settled_row row (set_usage st) (db_clock (tables s1))). cbn [after tables]. unfold t'. simpl.
    rewrite lookup_insert_eq. split_and!; [done | done | apply settled_row_usage].
Qed.

(** ** General rules *)

Definition only_grows (i : nat) (s s' : shared) : Prop :=
  grows s s' /\ own i (log s) `prefix_of` own i (log s').
#[export] Instance only_grows_preorder i : PreOrder (only_grows i).
Proof. split; [intros s; by split|]. intros a b c [H1' H2'] [H3' H4']. split; by etrans. Qed.

(** Whatever a program does, tables and its own record only grow. *)
Lemma wp_grows {A} i k (p : prog A) Q s :
  wp i k p Q s -> wp i k p (fun a s' => Q a s' /\ only_grows i s s') s.
Proof.
  apply (wp_frame _ _ _ _ (only_grows i)).
  - intros w w' [HT HO]. split; [done | by rewrite HO].
  - intros X c w x w' (t' & Ha & ->) HG. split; [done|]. rewrite after_own. by apply prefix_app_r.
Qed.

(** A call that is not a statement. *)
Lemma wp_call {X} i k (c : call X) s Q :
  (forall t x t', answers c t x t' -> t' = t) ->
  (forall s1 x, rely i s s1 -> inv s1 ->
     let s' := {| tables := tables s1; log := log s1 ++ done i k c x |} in inv s' /\ Q x s') ->
  wp i k (ask c) Q s.
Proof.
  intros HA HQ s1 Hr Hi x s' (t' & Ha & ->). apply HA in Ha as ->. destruct (HQ s1 x Hr Hi) as [HI HQ'].
  unfold after. rewrite (creation_same i k (tables s1) (tables s1) eq_refl), app_nil_r. done.
Qed.

Lemma wp_quiet {X} i k (c : call X) s (Q : X -> shared -> Prop) :
  (forall t x t', answers c t x t' -> t' = t) -> (forall x, done i k c x = []) ->
  (forall s' x, rely i s s' -> inv s' -> Q x s') -> wp i k (ask c) Q s.
Proof.
  intros HA HD HQ. apply wp_call; [done|]. intros s1 x Hr Hi. rewrite HD, app_nil_r.
  destruct s1; simpl. split; [done | by apply HQ].
Qed.

(** ** What a usage ledger promises to the pipeline *)

(** A reservation that is decided [Reserved] was created by this caller, and usage that is
    acknowledged is settled. *)
Class LedgerPromises {LE} (L : AiUsageLedger LE) : Prop := {
  reserve_promise : forall i r s,
    wp i (reservation_key r) (reserve r)
      (fun x s' => (same_own i s s' /\ x <> Ok Reserved)
                   \/ own i (log s') = own i (log s) ++ [Created i (reservation_key r)]) s;
  record_promise : forall i r u s,
    Reported i (reservation_key r) u ∈ own i (log s) ->
    wp i (reservation_key r) (record_usage (settlement r u))
      (fun x s' => same_own i s s' /\ (x = Ok tt -> settled (reservation_key r) u (tables s'))) s
}.

(** What an audit sink promises to the tool registry. *)
Class AuditPromises {E} (S : ToolAuditSink E) : Prop := {
  approved_promise : forall i e s,
    wp i (approval_key e) (record_approved e)
      (fun x s' => same_own i s s' /\ (x = Ok tt -> approved (approval_key e) (ev_tool_name e) (tables s'))) s;
  outcome_promise : forall i e s,
    wp i (approval_key (ev_approval e)) (record_outcome e)
      (fun x s' => same_own i s s' /\
         (x = Ok tt -> outcome_recorded (approval_key (ev_approval e)) (ev_tool_name (ev_approval e))
                         (tool_outcome_name (ev_outcome e)) (tables s'))) s
}.

(** ** The Postgres ledger keeps its promises *)

Lemma wp_classify_reservation i k r s :
  wp i k (classify_existing_reservation r) (fun x s' => same_own i s s' /\ x <> Ok Reserved) s.
Proof.
  apply wp_try, wp_select_usage. intros s' [_ HO] _ x _. destruct x as [[row|]|e]; [|by split..].
  apply wp_pure_try. destruct (validate_matching_usage_identity row r); [|by split].
  split; [done|]. by repeat case_match.
Qed.

Lemma wp_reserve i r s :
  wp i (reservation_key r) (postgres_reserve r)
    (fun x s' => (same_own i s s' /\ x <> Ok Reserved)
                 \/ own i (log s') = own i (log s) ++ [Created i (reservation_key r)]) s.
Proof.
  apply wp_pure_try. destruct (validate_usage_reservation r); [|by left].
  apply wp_pure_try. destruct (bind_counts r); [|by left].
  apply wp_try. eapply wp_mono; [|by apply wp_insert]. intros [n|e] s' HQ.
  - destruct (Z.eqb_spec n 1) as [->|Hn].
    + right. by destruct HQ as [[_ []]|HQ].
    + eapply wp_mono; [|apply wp_classify_reservation]. unfold same_own. intros x s2 [HO Hx].
      destruct HQ as [[HQ _]|HQ]; [left|right]; rewrite HO; done.
  - destruct HQ as [[HQ _]|HQ]; [by left | by right].
Qed.

Lemma wp_classify_settlement i k st s :
  let key := reservation_key (set_reservation st) in
  wp i k (classify_usage_settlement st)
    (fun x s' => same_own i s s' /\ (x = Ok tt -> settled key (set_usage st) (tables s'))) s.
Proof.
  cbn zeta. apply wp_try, wp_select_usage. intros s' [_ HO] _ x Hx.
  destruct x as [[row|]|e]; [|by split..]. destruct Hx as [[= Hrow]|[? [=]]].
  apply wp_pure_try. destruct (validate_matching_usage_identity _ _); [|by split].
  destruct (str_eqb (u_status row) _) eqn:ES; cbn [negb]; [|by split]. apply str_eqb_true in ES.
  apply wp_pure_try. destruct (to_i64 (input_tokens _)); [|by split].
  destruct (bool_decide _) eqn:EI; cbn [negb]; [|by split].
  apply wp_pure_try. destruct (to_i64 (output_tokens _)); [|by split].
  destruct (bool_decide (u_output_tokens _ = _)) eqn:EO; split; try done. intros _.
  exists row. split_and!; [done | done |]. unfold has_usage. by rewrite EI, EO.
Qed.

Lemma wp_record i r u s :
  Reported i (reservation_key r) u ∈ own i (log s) ->
  wp i (reservation_key r) (record_terminal_usage (settlement r u))
    (fun x s' => same_own i s s' /\ (x = Ok tt -> settled (reservation_key r) u (tables s'))) s.
Proof.
  intros HR. unfold record_terminal_usage. cbn zeta.
  do 2 (apply wp_pure_try; case_match; [|by split]). do 2 (apply wp_pure_try; case_match; [|by split]).
  apply wp_try. eapply wp_mono; [|by apply wp_update]. intros [n|e] s' [HO HQ]; [|by split].
  destruct (Z.eqb_spec n 1) as [->|_]; [split; [done|]; intros _; by apply HQ|].
  eapply wp_mono; [|apply wp_classify_settlement]. unfold same_own in *. intros x s2 [HO2 Hx].
  split; [congruence | exact Hx].
Qed.

#[export] Instance postgres_ledger_promises : LedgerPromises postgres_ledger.
Proof. split; [exact wp_reserve | exact wp_record]. Qed.

(** ** The Postgres audit keeps its promises *)

Lemma wp_audit_statement i k text (meaning : AiTables -> result (Z * AiTables) SqlxError) s
    (P : AiTables -> Prop) :
  (forall t n t', meaning t = Ok (n, t') ->
     (n = 0 /\ t' = t) \/ (n = 1 /\ P t' /\ tables_le t t' /\ usage_rows t' = usage_rows t)) ->
  wp i k (ask (Statement text meaning)) (fun x s' => same_own i s s' /\ (x = Ok 1 -> P (tables s'))) s.
Proof.
  unfold same_own. intros HM s1 [HT HO] Hi x s' (t' & Ha & ->). rewrite <- HO.
  apply statement_answers in Ha as [[[e ->] ->] | (n & Hn & Hx)].
  { rewrite after_nothing by done. split_and!; [reflexivity | done | by split]. }
  apply HM in Hn as [[-> ->] | (-> & HP & HL & HU)].
  { rewrite after_nothing by done. split_and!; [reflexivity | done | split; [done|]].
    destruct Hx as [->|[e ->]]; done. }
  assert (HCr : creation i k (tables s1) t' = []) by (by apply creation_same).
  split_and!; [done | | split].
  - unfold after. rewrite HCr. simpl. apply (inv_tables i); try done.
    + rewrite HU. apply Hi.
    + intros k' u. unfold settled. rewrite HU. by left.
  - rewrite after_own, HCr. simpl. by rewrite app_nil_r.
  - done.
Qed.

Lemma insert_approval_cases e t n t' :
  insert_approval e t = Ok (n, t') ->
  (n = 0 /\ t' = t) \/
  (n = 1 /\ approved (approval_key e) (ev_tool_name e) t' /\ tables_le t t' /\ usage_rows t' = usage_rows t).
Proof.
  unfold insert_approval. destruct (audit_rows t !! _) eqn:EA; intros [= <- <-]; [by left|right].
  split_and!; [done | | | done].
  - exists (approved_row e (db_clock t)). simpl. by rewrite lookup_insert_eq.
  - split; [done | done | |]; simpl.
    + intros k m (row & Hk & Hn). exists row. simpl. rewrite lookup_insert_ne; [done|].
      intros Heq. subst k. congruence.
    + intros k m o (row & Hk & Hn). exists row. simpl. rewrite lookup_insert_ne; [done|].
      intros Heq. subst k. congruence.
Qed.

Lemma same_action_tool row e : same_action row e = true -> a_tool_name row = ev_tool_name e.
Proof. unfold same_action. rewrite !andb_true_iff, !str_eqb_true. intuition. Qed.

Lemma update_outcome_cases e t n t' :
  let key := approval_key (ev_approval e) in
  update_outcome e t = Ok (n, t') ->
  (n = 0 /\ t' = t) \/
  (n = 1 /\ outcome_recorded key (ev_tool_name (ev_approval e)) (tool_outcome_name (ev_outcome e)) t'
   /\ tables_le t t' /\ usage_rows t' = usage_rows t).
Proof.
  cbn zeta. unfold update_outcome. destruct (audit_rows t !! _) as [row|] eqn:EA; [|intros [= <- <-]; by left].
  destruct (same_action row _ && _) eqn:EB; intros [= <- <-]; [right | by left].
  apply andb_true_iff in EB as [EB EO]. apply same_action_tool in EB.
  set (key := approval_key (ev_approval e)) in *. set (o := tool_outcome_name (ev_outcome e)) in *.
  assert (HO : forall v, a_outcome row = Some v -> v = o).
  { intros v Hv. rewrite Hv in EO. by apply str_eqb_true. }
  assert (Hrow : a_outcome (outcome_row row o (db_clock t)) = Some o).
  { simpl. destruct (a_outcome row) as [v|]; [|done]. simpl. by rewrite (HO v eq_refl). }
  split_and!; [done | | | done].
  - exists (outcome_row row o (db_clock t)). simpl. by rewrite lookup_insert_eq.
  - split; [done | done | |]; simpl.
    + intros k m (row' & Hk & Hn). destruct (decide (k = key)) as [Heq|Hne].
      * subst k. exists (outcome_row row o (db_clock t)). simpl. rewrite lookup_insert_eq.
        split; [done|]. simpl. congruence.
      * exists row'. simpl. by rewrite lookup_insert_ne.
    + intros k m v (row' & Hk & Hn & Hv). destruct (decide (k = key)) as [Heq|Hne].
      * subst k. rewrite EA in Hk. injection Hk as <-. exists (outcome_row row o (db_clock t)).
        simpl. rewrite lookup_insert_eq. split_and!; [done | done |]. by rewrite (HO v Hv) in *.
      * exists row'. simpl. by rewrite lookup_insert_ne.
Qed.

Lemma wp_record_approved i e s :
  wp i (approval_key e) (postgres_record_approved e)
    (fun x s' => same_own i s s' /\ (x = Ok tt -> approved (approval_key e) (ev_tool_name e) (tables s'))) s.
Proof.
  apply wp_pure_try. destruct (validate_approval_event e); [|by split].
  apply wp_try. eapply wp_mono; [|apply wp_audit_statement, insert_approval_cases].
  intros [n|e'] s' [HO HP]; [|by split]. destruct (Z.eqb_spec n 1) as [->|_]; [split; auto|].
  apply wp_try, wp_select_audit. unfold same_own in *. intros s2 [_ HO2] _ x Hx.
  destruct x as [[row|]|e']; (split; [congruence | try done]). destruct Hx as [[= Hrow]|[? [=]]].
  destruct (same_action row e) eqn:EA; [|done]. intros _. exists row. split; [done|].
  by apply same_action_tool.
Qed.

Lemma wp_record_outcome i e s :
  wp i (approval_key (ev_approval e)) (postgres_record_outcome e)
    (fun x s' => same_own i s s' /\
       (x = Ok tt -> outcome_recorded (approval_key (ev_approval e)) (ev_tool_name (ev_approval e))
                       (tool_outcome_name (ev_outcome e)) (tables s'))) s.
Proof.
  apply wp_pure_try. destruct (validate_approval_event _); [|by split].
  apply wp_try. eapply wp_mono; [|apply wp_audit_statement, update_outcome_cases].
  intros [n|e'] s' [HO HP]; [|by split]. destruct (Z.eqb_spec n 1) as [->|_]; [split; auto|].
  apply wp_try, wp_select_audit. unfold same_own in *. intros s2 [_ HO2] _ x Hx.
  destruct x as [[row|]|e']; (split; [congruence | try done]). destruct Hx as [[= Hrow]|[? [=]]].
  destruct (same_action row _) eqn:EA; cbn [negb]; [|done].
  destruct (a_outcome row) as [v|] eqn:EV; [|done]. destruct (str_eqb v _) eqn:EO; [|done].
  apply str_eqb_true in EO. subst v. intros _. exists row. split_and!; [done | | done].
  by apply same_action_tool.
Qed.

#[export] Instance postgres_audit_promises : AuditPromises postgres_audit.
Proof. split; [exact wp_record_approved | exact wp_record_outcome]. Qed.
End calls.
Notation wp i k := (Effects.wp (rely i) (answered i k) inv grows).
