(* ===== verification/AiSystem.v ===== *)
(** The accounted entry points of the AI pipeline and the audited tool runs as callers of
    one database, and what holds of every interleaving of them. *)

From Stdlib Require Import ZArith Lia Bool Ascii.
From stdpp Require Import gmap.
From S2P Require Import Prelude Strings Json Outbox Effects AiProtocol AiTables AiPipeline AiLedger AiAccounting.

Local Open Scope Z_scope.

Section callers.
Context `{AiApp, Postgres}.

(** ** Provider calls *)

Lemma attempts_app k l1 l2 : attempts k (l1 ++ l2) = (attempts k l1 + attempts k l2)%nat.
Proof. unfold attempts. by rewrite List.filter_app, length_app. Qed.

Lemma attempts_created i k k' : (attempts k' [Created i k; Attempt i k] <= 1)%nat.
Proof. unfold attempts. cbn. case_bool_decide; cbn; lia. Qed.

(** The first provider call of a caller that holds the reservation. *)
Lemma inv_attempted i k s usages :
  inv s -> own i (log s) = [Created i k] ->
  inv {| tables := tables s; log := log s ++ Attempt i k :: map (Reported i k) usages |}.
Proof.
  intros HI HO.
  assert (HR : forall e, e ∈ Attempt i k :: map (Reported i k) usages ->
            e = Attempt i k \/ exists u, e = Reported i k u).
  { intros e. rewrite elem_of_cons, list_elem_of_fmap. naive_solver. }
  apply (inv_extend i); try done.
  - apply Forall_forall. intros e [->|[u ->]]%HR; done.
  - apply HI.
  - by left.
  - intros j k' [?|[u ?]]%HR; done.
  - intros k' [[= ->]|[u ?]]%HR; [|done]. rewrite HO. by left.
  - intros k'. rewrite HO. change (attempts k' ([Created i k; Attempt i k] ++ map (Reported i k) usages) <= 1)%nat.
    rewrite attempts_app. replace (attempts k' (map _ usages)) with 0%nat.
    + pose proof (attempts_created i k k'). lia.
    + clear. unfold attempts. by induction usages.
  - intros k' n [?|[u ?]]%HR; done.
  - intros k' n [?|[u ?]]%HR; done.
Qed.

Definition reported_by (i : nat) (k : ActionKey) (x : result (ChatResponse Value) ProviderError) : list entry :=
  match x with Ok r => [Reported i k (resp_usage r)] | Err _ => [] end.

Lemma wp_provider_complete i k q s :
  own i (log s) = [Created i k] ->
  wp i k (ask (ProviderComplete q))
    (fun x s' => own i (log s') = [Created i k; Attempt i k] ++ reported_by i k x) s.
Proof.
  intros HO. apply wp_call; [done|]. intros s1 x [_ Hr] Hi. cbn zeta.
  assert (HD : done i k (ProviderComplete q) x = Attempt i k :: map (Reported i k)
            (match x with Ok r => [resp_usage r] | Err _ => [] end)) by (by destruct x).
  rewrite HD. split; [apply inv_attempted; [done | congruence]|].
  cbn [log]. rewrite own_app, Hr, HO. rewrite (own_mine i (Attempt i k :: _)).
  - by destruct x.
  - destruct x; by repeat constructor.
Qed.

Lemma wp_provider_stream i k q s :
  own i (log s) = [Created i k] ->
  wp i k (ask (ProviderStream q)) (fun _ s' => own i (log s') = [Created i k; Attempt i k]) s.
Proof.
  intros HO. apply wp_call; [done|]. intros s1 x [_ Hr] Hi. cbn zeta.
  split; [apply (inv_attempted i k s1 []); [done | congruence]|].
  cbn [log done]. rewrite own_app, Hr, HO. by rewrite (own_mine i [Attempt i k]) by repeat constructor.
Qed.

(** One poll of an open stream. *)
Lemma wp_poll i k s :
  wp i k (ask PollStream)
    (fun x s' => own i (log s') = own i (log s) ++
       match x with Some (Ok (Completed u)) => [Reported i k u] | _ => [] end) s.
Proof.
  apply wp_call; [done|]. intros s1 x [_ Hr] Hi. cbn zeta.
  assert (HF : Forall (fun e => caller e = i /\ exists u, e = Reported i k u) (done i k PollStream x)).
  { cbn. repeat case_match; repeat constructor; eauto. }
  assert (HR : forall e, e ∈ done i k PollStream x -> exists u, e = Reported i k u).
  { intros e He. rewrite Forall_forall in HF. by apply HF in He as [_ He]. }
  split.
  - apply (inv_extend i); try done; try (intros * Hn; apply HR in Hn as [? ?]; done).
    + apply done_mine.
    + apply Hi.
    + by left.
    + intros k'. rewrite attempts_app. destruct Hi as [_ _ _ Hi _ _ _ _]. specialize (Hi i k').
      replace (attempts k' (done i k PollStream x)) with 0%nat; [lia|].
      cbn. repeat case_match; done.
  - cbn [log]. rewrite own_app, Hr, (own_mine i (done _ _ _ _)) by apply done_mine. done.
Qed.

(** ** What an advisor promises to the pipeline *)

(** It is shown settled usage only, and leaves database and provider alone. *)
Class AdvisorPromises {AE} (A : AiAdvisor AE) : Prop := {
  before_promise : forall i k q s, wp i k (before_request q) (fun _ s' => same_own i s s') s;
  after_promise : forall i k r s,
    settled k (resp_usage r) (tables s) ->
    wp i k (after_response r) (fun _ s' => True) s;
  event_promise : forall i k e s,
    (forall u, e = Completed u -> settled k u (tables s)) ->
    wp i k (on_stream_event e) (fun _ s' => (forall u, e <> Completed u) -> same_own i s s') s
}.

Lemma inv_show i k u s :
  inv s -> settled k u (tables s) -> inv {| tables := tables s; log := log s ++ [Shown i k u] |}.
Proof.
  intros HI HS. apply (inv_extend i); try done; try (intros * Hn%list_elem_of_singleton; done).
  - by repeat constructor.
  - apply HI.
  - by left.
  - intros k'. rewrite attempts_app. change (attempts k' [Shown i k u]) with 0%nat.
    destruct HI as [_ _ _ HI _ _ _ _]. specialize (HI i k'). lia.
  - intros k' u' Hn%list_elem_of_singleton. injection Hn as -> ->. done.
Qed.

#[export] Instance application_advisor_promises : AdvisorPromises application_advisor.
Proof.
  split; intros i k.
  - intros q s. apply wp_quiet; [done | done |]. intros s' x [_ HO] _. exact HO.
  - intros r s HS. apply wp_call; [done|]. intros s1 x [HT _] Hi. split; [|done].
    apply inv_show; [done|]. by apply HT.
  - intros e s HS. apply wp_call; [by destruct e|]. intros s1 x [HT HO] Hi. cbn zeta.
    destruct e as [d|c|r|u]; cbn [done]; rewrite ?app_nil_r.
    1-3: destruct s1; split; [exact Hi|]; intros _; exact HO.
    split; [apply inv_show; [done|]; by apply HT, HS | intros Hu; by destruct (Hu u)].
Qed.

#[export] Instance noop_advisor_promises : AdvisorPromises noop_advisor.
Proof. by split. Qed.

#[export] Instance budget_advisor_promises context : AdvisorPromises (budget_advisor context).
Proof.
  split; [|done|done]. intros i k q s. apply wp_try, wp_quiet; [done | done |].
  intros s' [[]|e] [_ HO] _; exact HO.
Qed.

(** ** Accounted completions *)

Section accounted.
Context {LE : Type} `{!AiUsageLedger LE} `{!LedgerPromises _}.

Definition never_attempted (i : nat) (s : shared) : Prop := forall k, Attempt i k ∉ own i (log s).

Definition complete_post (i : nat) (k : ActionKey)
    (x : result (ChatResponse Value) (UsageLedgerPipelineError LE)) (s : shared) : Prop :=
  match x with
  | Ok response => Reported i k (resp_usage response) ∈ own i (log s)
                   /\ settled k (resp_usage response) (tables s)
  | Err (Settlement _ response _) => Reported i k (resp_usage response) ∈ own i (log s)
  | Err (UsageProvider _ _) => own i (log s) = [Created i k; Attempt i k]
  | Err _ => never_attempted i s
  end.

Lemma wp_reserve_usage i r s :
  own i (log s) = [] ->
  wp i (reservation_key r) (reserve_usage r)
    (fun x s' => (x <> Ok tt /\ never_attempted i s' /\
                  (forall resp e, x <> Err (Settlement LE resp e)) /\ (forall e, x <> Err (UsageProvider LE e)))
                 \/ (x = Ok tt /\ own i (log s') = [Created i (reservation_key r)])) s.
Proof.
  intros HN. apply wp_try. eapply wp_mono; [|apply reserve_promise]. unfold same_own, never_attempted.
  intros x s'. rewrite HN. intros HO.
  assert (HA : forall k, Attempt i k ∉ own i (log s')).
  { intros k. destruct HO as [[-> _]| ->]; simpl; [apply not_elem_of_nil|].
    by rewrite list_elem_of_singleton. }
  destruct x as [[]|e]; [|left; by split_and!..].
  right. split; [done|]. by destruct HO as [[_ []]|HO].
Qed.

Lemma wp_complete_and_settle i r q s :
  own i (log s) = [Created i (reservation_key r)] ->
  wp i (reservation_key r) (complete_and_settle r q) (complete_post i (reservation_key r)) s.
Proof.
  intros HO. apply wp_try. eapply wp_mono; [|by apply wp_provider_complete].
  intros [resp|e] s'; cbn [reported_by]; [|done]. intros HR.
  assert (HIn : Reported i (reservation_key r) (resp_usage resp) ∈ own i (log s')).
  { rewrite HR. set_solver. }
  apply wp_bind. eapply wp_mono; [|by apply record_promise]. unfold same_own.
  intros [[]|e] s2 [HO2 HS]; cbn; rewrite HO2; [split; [done | by apply HS] | done].
Qed.

Lemma nil_never_attempted i s : own i (log s) = [] -> never_attempted i s.
Proof. unfold never_attempted. intros ->. intros k. apply not_elem_of_nil. Qed.

Lemma wp_complete_with_usage_ledger i pl q r s :
  own i (log s) = [] ->
  wp i (reservation_key r) (complete_with_usage_ledger pl q r) (complete_post i (reservation_key r)) s.
Proof.
  intros HN. pose proof (nil_never_attempted i s HN) as HA.
  apply wp_pure_try. case_match; [|done]. unfold ensure_reservation_matches.
  apply wp_pure_try. case_decide; [|done].
  apply wp_try. eapply wp_mono; [|by apply wp_reserve_usage].
  intros x s' [(Hx & HA' & HS & HP)|[-> HO]]; [|by apply wp_complete_and_settle].
  destruct x as [[]|[]]; naive_solver.
Qed.

(** ** Accounted streams *)

Lemma wp_stop {E S} i k (stream : AiEventStream E S) st Q s :
  wp i k (stream st)
    (fun p s' => Q (p.1, (p.2, match p.1 with None => false | Some e => is_terminal_event e end)) s') s ->
  wp i k (stop_after_terminal_event stream (st, false)) Q s.
Proof. intros HW. apply wp_bind. eapply wp_mono; [|exact HW]. by intros [[e|] st'] s'. Qed.

(** One poll of the provider's stream and the settlement of its terminal usage. *)
Lemma wp_settle_poll i r s :
  let k := reservation_key r in
  own i (log s) = [Created i k; Attempt i k] ->
  wp i k (settle_usage_stream (LE := LE) (stop_after_terminal_event provider_events) ((tt, false), Some r))
    (fun p s' => match p.1 with
                 | None => p.2 = ((tt, false), Some r)
                 | Some (Err e) => e <> DuplicateCompletion LE
                 | Some (Ok (Completed u)) => Reported i k u ∈ own i (log s') /\ settled k u (tables s')
                                              /\ p.2 = ((tt, true), None)
                 | Some (Ok _) => same_own i s s' /\ p.2 = ((tt, false), Some r)
                 end) s.
Proof.
  cbn zeta. intros HO. apply wp_bind, wp_stop, wp_bind. eapply wp_mono; [|apply wp_poll].
  intros [[[d|c|t|u]|e]|] s' HE; cbn [is_terminal_event wp fst snd Datatypes.fst Datatypes.snd];
    try (rewrite app_nil_r in HE); try done.
  apply wp_bind. eapply wp_mono; [|apply record_promise; rewrite HE, HO; set_solver].
  unfold same_own. intros [[]|e] s2 [HO2 HS]; [|done]. cbn. rewrite HO2, HE, HO.
  split_and!; [set_solver | by apply HS | done].
Qed.

(** Nothing follows a terminal event. *)
Fixpoint ends_at_terminal {E} (events : list (result AiStreamEvent E)) : Prop :=
  match events with
  | [] => True
  | e :: rest => if is_terminal_event e then rest = [] else ends_at_terminal rest
  end.

Definition events_post (i : nat) (k : ActionKey)
    (events : list (result AiStreamEvent (UsageLedgerStreamError LE))) (s : shared) : Prop :=
  ends_at_terminal events /\ Err (DuplicateCompletion LE) ∉ events /\
  (forall u, Ok (Completed u) ∈ events -> Reported i k u ∈ own i (log s) /\ settled k u (tables s)).

Lemma events_post_nil i k s : events_post i k [] s.
Proof. split_and!; [done | apply not_elem_of_nil | intros u []%not_elem_of_nil]. Qed.
(** A terminal event that is the last. *)
Lemma events_post_last i k e s :
  is_terminal_event e = true -> e <> Err (DuplicateCompletion LE) ->
  (forall u, e = Ok (Completed u) -> Reported i k u ∈ own i (log s) /\ settled k u (tables s)) ->
  events_post i k [e] s.
Proof.
  intros HT HD HC. unfold events_post. cbn [ends_at_terminal]. rewrite HT, list_elem_of_singleton.
  split_and!; [done | congruence |]. intros u Hu%list_elem_of_singleton. by apply HC.
Qed.
Lemma events_post_cons i k e events s :
  is_terminal_event (Ok e : result AiStreamEvent (UsageLedgerStreamError LE)) = false ->
  events_post i k events s -> events_post i k (Ok e :: events) s.
Proof.
  intros HT (H1' & H2' & H3'). unfold events_post. cbn [ends_at_terminal]. rewrite HT, not_elem_of_cons.
  split_and!; [done | done | done |]. intros u [[= <-]|Hu]%elem_of_cons; [done | by apply H3'].
Qed.

Lemma wp_consume_accounted i r n s :
  let k := reservation_key r in
  own i (log s) = [Created i k; Attempt i k] ->
  wp i k (consume (accounted_stream (LE := LE)) n (((tt, false), Some r), false)) (events_post i k) s.
Proof.
  cbn zeta. revert s. induction n as [|n IH]; intros s HO; [apply events_post_nil|].
  apply wp_bind, wp_stop. eapply wp_mono; [|by apply wp_settle_poll].
  intros [[[e|e]|] st] s'; cbn [Datatypes.fst Datatypes.snd]; [| |intros _; apply events_post_nil].
  - destruct (is_terminal_event (Ok e : result AiStreamEvent (UsageLedgerStreamError LE))) eqn:ET.
    + destruct e as [d|c|t|u]; try done. intros (HR & HS & ->). apply wp_bind.
      destruct n; (apply events_post_last; [done | done | by intros ? [= <-]]).
    + intros HW. assert (HW' : same_own i s s' /\ st = ((tt, false), Some r)) by (by destruct e).
      destruct HW' as [HO' ->]. unfold same_own in HO'. apply wp_bind. eapply wp_mono; [|apply IH; congruence].
      intros events s2 HE. by apply events_post_cons.
  - intros HD. apply wp_bind. destruct n; (apply events_post_last; [done | congruence | done]).
Qed.

Definition run_stream (pl : AiPipeline) (q : ChatRequest Value) (r : AiUsageReservation) (n : nat) :
    prog (result (list (result AiStreamEvent (UsageLedgerStreamError LE))) (UsageLedgerPipelineError LE)) :=
  try_ Datatypes.id (stream_with_usage_ledger pl q r) (fun st =>
  events ← consume accounted_stream n st; Ret (Ok events)).

Definition stream_post (i : nat) (k : ActionKey)
    (x : result (list (result AiStreamEvent (UsageLedgerStreamError LE))) (UsageLedgerPipelineError LE))
    (s : shared) : Prop :=
  match x with
  | Ok events => events_post i k events s
  | Err e => complete_post i k (Err e) s
  end.

Lemma wp_run_stream i pl q r n s :
  own i (log s) = [] -> wp i (reservation_key r) (run_stream pl q r n) (stream_post i (reservation_key r)) s.
Proof.
  intros HN. pose proof (nil_never_attempted i s HN) as HA.
  apply wp_try, wp_pure_try. case_match; [|done]. unfold ensure_reservation_matches.
  apply wp_pure_try. case_decide; [|done].
  apply wp_try. eapply wp_mono; [|by apply wp_reserve_usage].
  intros x s' [(Hx & HA' & HS & HP)|[-> HO]]; [destruct x as [[]|[]]; naive_solver|].
  apply wp_try. eapply wp_mono; [|by apply wp_provider_stream]. intros [[]|e] s2 HO2; [|done].
  apply wp_bind. eapply wp_mono; [|by apply wp_consume_accounted]. done.
Qed.

(** ** Advised completions and streams *)

Context {AE : Type} `{!AiAdvisor AE} `{!AdvisorPromises _}.

(** The terminal usage of the caller's provider call is settled. *)
Definition usage_settled (i : nat) (k : ActionKey) (s : shared) : Prop :=
  exists u, Reported i k u ∈ own i (log s) /\ settled k u (tables s).

Lemma usage_settled_mono i k s s' :
  tables_le (tables s) (tables s') -> own i (log s) `prefix_of` own i (log s') ->
  usage_settled i k s -> usage_settled i k s'.
Proof.
  intros HT [l HP] (u & HR & HS). exists u. split; [|by apply HT]. rewrite HP. apply elem_of_app. by left.
Qed.

Definition advised_complete_post (i : nat) (k : ActionKey)
    (x : result (ChatResponse Value) (AdvisedUsageLedgerPipelineError AE LE)) (s : shared) : Prop :=
  match x with
  | Ok _ => usage_settled i k s
  | Err (LedgerAdvisor _ _ _) => never_attempted i s \/ usage_settled i k s
  | Err (ReservationMetadata _ _ _) => never_attempted i s
  | Err (LedgerUsage _ _ e) => complete_post i k (Err e) s
  end.

Lemma reservation_for_request_key context key q r :
  reservation_for_request context key q = Ok r -> reservation_key r = (ctx_tenant context, key).
Proof.
  unfold reservation_for_request. destruct (validate_usage_idempotency_key key); [|done].
  cbn. by intros [= <-].
Qed.

Lemma wp_advised_complete i pl q context key s :
  let k := (ctx_tenant context, key) in
  own i (log s) = [] ->
  wp i k (complete_with_advisor_and_usage_ledger pl q context key) (advised_complete_post i k) s.
Proof.
  cbn zeta. intros HN. apply wp_try. eapply wp_mono; [|apply before_promise]. unfold same_own.
  intros x s1. rewrite HN. intros HN1. pose proof (nil_never_attempted i s1 HN1) as HA.
  destruct x as [q'|e]; [|by left]. apply wp_pure_try. case_match; [|done].
  apply wp_pure_try. destruct (reservation_for_request context key q') as [r|e] eqn:ER; [|done].
  apply reservation_for_request_key in ER. rewrite <- ER.
  apply wp_try. eapply wp_mono; [|by apply wp_reserve_usage].
  intros x s2 [(Hx & HA' & HS & HP)|[-> HO]]; [destruct x as [[]|[]]; naive_solver|].
  apply wp_try. eapply wp_mono; [|by apply wp_complete_and_settle].
  intros [resp|e] s3; [|done]. intros [HR HS].
  apply wp_try. eapply wp_mono; [|by apply wp_grows, after_promise].
  intros x s4 (_ & HT & HP). assert (usage_settled i (reservation_key r) s4).
  { eapply usage_settled_mono; [done | done |]. by eexists. }
  destruct x; [done | by right].
Qed.

(** One poll with the advisor. *)
Definition advise (event : result AiStreamEvent (UsageLedgerStreamError LE)) :
    prog (result AiStreamEvent (AdvisedUsageLedgerStreamError AE LE)) :=
  pure_try (LedgerStreamUsage AE LE) event (fun event =>
  try_ (LedgerStreamAdvisor AE LE) (on_stream_event event) (fun event => Ret (Ok event))).

Lemma wp_then {E F S} i k (stream : AiEventStream E S) f st (Q : option (result AiStreamEvent F) * S -> shared -> Prop) s :
  wp i k (stream st)
    (fun p s' => match p.1 with
                 | None => Q (None, p.2) s'
                 | Some e => wp i k (f e) (fun e' s2 => Q (Some e', p.2) s2) s'
                 end) s ->
  wp i k (stream_then stream f st) Q s.
Proof.
  intros HW. apply wp_bind. eapply wp_mono; [|exact HW]. intros [[e|] st'] s'; [|done].
  cbn. intros HQ. apply wp_bind. exact HQ.
Qed.

Definition advised_events_post (events : list (result AiStreamEvent (AdvisedUsageLedgerStreamError AE LE)))
    (s : shared) : Prop :=
  ends_at_terminal events /\ Err (LedgerStreamUsage AE LE (DuplicateCompletion LE)) ∉ events.

Lemma advised_poll i r s :
  let k := reservation_key r in
  own i (log s) = [Created i k; Attempt i k] ->
  wp i k (stream_then (settle_usage_stream (stop_after_terminal_event provider_events)) advise ((tt, false), Some r))
    (fun p s' => match p.1 with
                 | None => True
                 | Some (Err e) => e <> LedgerStreamUsage AE LE (DuplicateCompletion LE)
                 | Some (Ok _) => p.2 = ((tt, true), None) \/
                                  (same_own i s s' /\ p.2 = ((tt, false), Some r))
                 end) s.
Proof.
  cbn zeta. intros HO. apply wp_then. eapply wp_mono; [|by apply wp_settle_poll].
  unfold same_own. intros [[[e|e]|] st] s'; cbn [Datatypes.fst Datatypes.snd]; [| |done].
  - intros HE. apply wp_try. eapply wp_mono; [|apply event_promise].
    + unfold same_own. intros [e'|e'] s2 HO2; [|done]. cbn. destruct e as [d|c|t|u].
      1-3: destruct HE as [HE ->]; right; split; [|done]; rewrite HO2; done.
      left. by destruct HE as (_ & _ & ->).
    + intros u ->. by destruct HE as (_ & HS & _).
  - intros HD. cbn. congruence.
Qed.

Lemma wp_consume_advised i r n s :
  let k := reservation_key r in
  own i (log s) = [Created i k; Attempt i k] ->
  wp i k (consume (advised_accounted_stream (LE := LE) (AE := AE)) n (((tt, false), Some r), false))
    advised_events_post s.
Proof.
  cbn zeta. unfold advised_events_post. revert s.
  induction n as [|n IH]; intros s HO; [split; [done | set_solver]|].
  apply wp_bind, wp_stop. eapply wp_mono; [|by apply advised_poll].
  intros [[[e|e]|] st] s'; cbn [Datatypes.fst Datatypes.snd]; [| |intros _; split; [done | set_solver]].
  - intros HE. apply wp_bind.
    destruct (is_terminal_event (Ok e : result AiStreamEvent (AdvisedUsageLedgerStreamError AE LE))) eqn:ET.
    { destruct n; cbn [consume wp]; (split; [cbn [ends_at_terminal]; by rewrite ET | set_solver]). }
    destruct HE as [->|[HO' ->]].
    + destruct n; cbn -[is_terminal_event]; rewrite ET; (split; [done | set_solver]).
    + unfold same_own in HO'. eapply wp_mono; [|apply IH; congruence].
      intros events s2 (HT & HD). cbn [wp ends_at_terminal]. rewrite ET. split; [done | set_solver].
  - intros HD. apply wp_bind. destruct n; cbn; (split; [done |]).
    all: rewrite list_elem_of_singleton; congruence.
Qed.

Definition run_advised_stream (pl : AiPipeline) (q : ChatRequest Value) (context : AiExecutionContext)
    (key : str) (n : nat) :
    prog (result (list (result AiStreamEvent (AdvisedUsageLedgerStreamError AE LE)))
            (AdvisedUsageLedgerPipelineError AE LE)) :=
  try_ Datatypes.id (stream_with_advisor_and_usage_ledger pl q context key) (fun st =>
  events ← consume advised_accounted_stream n st; Ret (Ok events)).

Definition advised_stream_post (i : nat) (k : ActionKey)
    (x : result (list (result AiStreamEvent (AdvisedUsageLedgerStreamError AE LE)))
           (AdvisedUsageLedgerPipelineError AE LE)) (s : shared) : Prop :=
  match x with
  | Ok events => advised_events_post events s
  | Err (LedgerUsage _ _ e) => complete_post i k (Err e) s
  | Err _ => never_attempted i s
  end.

Lemma wp_run_advised_stream i pl q context key n s :
  let k := (ctx_tenant context, key) in
  own i (log s) = [] -> wp i k (run_advised_stream pl q context key n) (advised_stream_post i k) s.
Proof.
  cbn zeta. intros HN. apply wp_try, wp_try. eapply wp_mono; [|apply before_promise]. unfold same_own.
  intros x s1. rewrite HN. intros HN1. pose proof (nil_never_attempted i s1 HN1) as HA.
  destruct x as [q'|e]; [|done]. apply wp_pure_try. case_match; [|done].
  apply wp_pure_try. destruct (reservation_for_request context key q') as [r|e] eqn:ER; [|done].
  apply reservation_for_request_key in ER. rewrite <- ER.
  apply wp_try. eapply wp_mono; [|by apply wp_reserve_usage].
  intros x s2 [(Hx & HA' & HS & HP)|[-> HO]]; [destruct x as [[]|[]]; naive_solver|].
  apply wp_try. eapply wp_mono; [|by apply wp_provider_stream]. intros [[]|e] s3 HO3; [|done].
  apply wp_bind. eapply wp_mono; [|by apply wp_consume_advised]. done.
Qed.
End accounted.

(** ** Audited tools *)

Section audited.
Context {E : Type} `{!ToolAuditSink E} `{!AuditPromises _}.

Definition tool_action (context : ToolExecutionContext) : ActionKey := (ctx_tenant (tool_ai context), tool_key context).

Lemma wp_authorize i k registry context c s :
  wp i k (authorize registry context c)
    (fun x s' => same_own i s s' /\ forall e, x <> Err (Execution e)) s.
Proof.
  unfold authorize. destruct (tool_get registry (call_name c)) as [[d risk]|]; [|by split].
  apply wp_try, wp_quiet; [done | done |]. intros s' [[]|e] [_ HO] _; done.
Qed.

Lemma wp_run_tool i k name context arguments s :
  approved k name (tables s) ->
  wp i k (ask (RunTool name context arguments)) (fun _ s' => own i (log s') = own i (log s) ++ [Ran i k name]) s.
Proof.
  intros HA. apply wp_call; [done|]. intros s1 x [HT HO] Hi. cbn zeta. cbn [done]. split.
  - apply (inv_extend i); try done; try (intros * Hn%list_elem_of_singleton; done).
    + by repeat constructor.
    + apply Hi.
    + by left.
    + intros k'. rewrite attempts_app. change (attempts k' [Ran i k name]) with 0%nat.
      destruct Hi as [_ _ _ Hi _ _ _ _]. specialize (Hi i k'). lia.
    + intros k' n Hn%list_elem_of_singleton. injection Hn as -> ->. by apply HT.
  - cbn [log]. rewrite own_app, HO. by rewrite (own_mine i [_]) by repeat constructor.
Qed.

Definition audited_post (i : nat) (k : ActionKey) (name : str)
    (x : result (ToolResult Value) (AuditedToolRunError E)) (s : shared) : Prop :=
  match x with
  | Ok _ | Err (AuditedRun _ (Execution _)) => own i (log s) = [Ran i k name]
  | Err _ => own i (log s) = []
  end.

Lemma wp_execute_with_approval_audit i registry context c s :
  let k := tool_action context in
  own i (log s) = [] ->
  wp i k (execute_with_approval_audit registry context c) (audited_post i k (call_name c)) s.
Proof.
  cbn zeta. intros HN. apply wp_try. eapply wp_mono; [|apply wp_authorize]. unfold same_own.
  intros x s1 [HO HE]. rewrite HN in HO. destruct x as [risk|e]; [|destruct e; try done; by destruct (HE e)].
  apply wp_try. eapply wp_mono; [|apply (approved_promise i (approval_from_call context c risk))].
  unfold same_own. intros [[]|e] s2 [HO2 HA]; rewrite HO in HO2; [|done].
  apply wp_try. eapply wp_mono; [|apply wp_run_tool; by apply HA].
  intros x s3. rewrite HO2. by destruct x.
Qed.

Definition execution_audited_post (i : nat) (k : ActionKey) (name : str)
    (x : result (ToolResult Value) (ExecutionAuditedToolRunError E)) (s : shared) : Prop :=
  match x with
  | Ok _ => Ran i k name ∈ own i (log s) /\ outcome_recorded k name (##"succeeded") (tables s)
  | Err (ExecutionRun _ (Execution _)) =>
      Ran i k name ∈ own i (log s) /\ outcome_recorded k name (##"failed") (tables s)
  | Err (OutcomeAudit _ _ _) => Ran i k name ∈ own i (log s)
  | Err _ => own i (log s) = []
  end.

Lemma wp_execute_with_execution_audit i registry context c s :
  let k := tool_action context in
  own i (log s) = [] ->
  wp i k (execute_with_execution_audit registry context c) (execution_audited_post i k (call_name c)) s.
Proof.
  cbn zeta. intros HN. apply wp_try. eapply wp_mono; [|apply wp_authorize]. unfold same_own.
  intros x s1 [HO HE]. rewrite HN in HO. destruct x as [risk|e]; [|destruct e; try done; by destruct (HE e)].
  cbn zeta. apply wp_try. eapply wp_mono; [|apply (approved_promise i (approval_from_call context c risk))].
  unfold same_own. intros [[]|e] s2 [HO2 HA]; rewrite HO in HO2; [|done].
  apply wp_bind. eapply wp_mono; [|apply wp_run_tool; by apply HA].
  intros executed s3. rewrite HO2. cbn [app]. intros HO3. apply wp_try.
  eapply wp_mono; [|apply (outcome_promise i {| ev_approval := approval_from_call context c risk;
    ev_outcome := if is_ok executed then ToolSucceeded else ToolFailed |})].
  unfold same_own. intros [[]|e] s4 [HO4 HR]; rewrite HO3 in HO4.
  - specialize (HR eq_refl). apply wp_pure_try. destruct executed; cbn; rewrite HO4.
    all: split; [by apply list_elem_of_singleton | exact HR].
  - cbn. rewrite HO4. by apply list_elem_of_singleton.
Qed.
End audited.
End callers.

(** ** Callers of one database *)

Section system.
Context `{AiApp, Postgres}.
Context {LE : Type} `{!AiUsageLedger LE} `{!LedgerPromises _}.
Context {AE : Type} `{!AiAdvisor AE} `{!AdvisorPromises _}.
Context {E : Type} `{!ToolAuditSink E} `{!AuditPromises _}.

(** What a caller does; a stream is polled a number of times and dropped. *)
Inductive client : Type :=
| Complete (pl : AiPipeline) (q : ChatRequest Value) (r : AiUsageReservation)
| Stream (pl : AiPipeline) (q : ChatRequest Value) (r : AiUsageReservation) (polls : nat)
| AdvisedComplete (pl : AiPipeline) (q : ChatRequest Value) (context : AiExecutionContext) (key : str)
| AdvisedStream (pl : AiPipeline) (q : ChatRequest Value) (context : AiExecutionContext) (key : str) (polls : nat)
| ApprovedTool (registry : ToolRegistry) (context : ToolExecutionContext) (c : ToolCall Value)
| RecordedTool (registry : ToolRegistry) (context : ToolExecutionContext) (c : ToolCall Value).

Inductive outcome : Type :=
| CompleteResult (x : result (ChatResponse Value) (UsageLedgerPipelineError LE))
| StreamResult (x : result (list (result AiStreamEvent (UsageLedgerStreamError LE))) (UsageLedgerPipelineError LE))
| AdvisedCompleteResult (x : result (ChatResponse Value) (AdvisedUsageLedgerPipelineError AE LE))
| AdvisedStreamResult (x : result (list (result AiStreamEvent (AdvisedUsageLedgerStreamError AE LE)))
                             (AdvisedUsageLedgerPipelineError AE LE))
| ApprovedToolResult (x : result (ToolResult Value) (AuditedToolRunError E))
| RecordedToolResult (x : result (ToolResult Value) (ExecutionAuditedToolRunError E)).

Definition client_key (c : client) : ActionKey :=
  match c with
  | Complete _ _ r | Stream _ _ r _ => reservation_key r
  | AdvisedComplete _ _ context key | AdvisedStream _ _ context key _ => (ctx_tenant context, key)
  | ApprovedTool _ context _ | RecordedTool _ context _ => tool_action context
  end.

Definition client_prog (c : client) : prog outcome :=
  match c with
  | Complete pl q r => x ← complete_with_usage_ledger pl q r; Ret (CompleteResult x)
  | Stream pl q r n => x ← run_stream pl q r n; Ret (StreamResult x)
  | AdvisedComplete pl q context key =>
      x ← complete_with_advisor_and_usage_ledger pl q context key; Ret (AdvisedCompleteResult x)
  | AdvisedStream pl q context key n =>
      x ← run_advised_stream pl q context key n; Ret (AdvisedStreamResult x)
  | ApprovedTool registry context c => x ← execute_with_approval_audit registry context c; Ret (ApprovedToolResult x)
  | RecordedTool registry context c => x ← execute_with_execution_audit registry context c; Ret (RecordedToolResult x)
  end.

(** What a result says of tables and record. *)
Definition client_post (c : client) (i : nat) (o : outcome) (s : shared) : Prop :=
  match o with
  | CompleteResult x => complete_post i (client_key c) x s
  | StreamResult x => stream_post i (client_key c) x s
  | AdvisedCompleteResult x => advised_complete_post i (client_key c) x s
  | AdvisedStreamResult x => advised_stream_post i (client_key c) x s
  | ApprovedToolResult x =>
      match c with ApprovedTool _ _ t => audited_post i (client_key c) (call_name t) x s | _ => False end
  | RecordedToolResult x =>
      match c with RecordedTool _ _ t => execution_audited_post i (client_key c) (call_name t) x s | _ => False end
  end.

Notation State := (Effects.system (call := call) shared client outcome).

Definition set_clock (now : Z) (t : AiTables) : AiTables :=
  {| db_clock := now; usage_rows := usage_rows t; audit_rows := audit_rows t |}.
(** The clock of the database moves. *)
Definition clock_moves (s s' : shared) : Prop :=
  exists now, s' = {| tables := set_clock now (tables s); log := log s |}.

Definition client_answered (i : nat) (c : client) := answered i (client_key c).
Definition step : State -> State -> Prop := Effects.step client_prog client_answered clock_moves.

Definition empty_system (now : Z) : State :=
  {| world := {| tables := {| db_clock := now; usage_rows := ∅; audit_rows := ∅ |}; log := [] |}; callers := [] |}.
Definition reachable (s : State) : Prop := exists now, rtc step (empty_system now) s.

(** ** The invariant of the system *)

Definition fresh (i : nat) (s : shared) : Prop := own i (log s) = [].

Lemma wp_client i c s : fresh i s -> wp i (client_key c) (client_prog c) (client_post c i) s.
Proof.
  intros HN. destruct c; apply wp_bind; (eapply wp_mono; [|first
    [ by apply wp_complete_with_usage_ledger | by apply wp_run_stream | by apply wp_advised_complete
    | by apply wp_run_advised_stream | by apply wp_execute_with_approval_audit
    | by apply wp_execute_with_execution_audit ]]); done.
Qed.

#[export] Instance ai_system_laws :
  SystemLaws client_prog client_answered clock_moves inv grows rely fresh client_post.
Proof.
  split.
  - intros i c w HF _. by apply wp_client.
  - intros i j c X f w x w' Hij (t' & Ha & ->) HG. split; [done | by apply after_other].
  - intros i w w' [_ HO]. unfold fresh. by rewrite HO.
  - intros w w' [] [now ->]. split_and!; [by split | by split | by split].
Qed.

Notation system_inv := (Effects.system_inv client_answered inv grows rely fresh client_post).

Lemma inv_empty now :
  inv {| tables := {| db_clock := now; usage_rows := ∅; audit_rows := ∅ |}; log := [] |}.
Proof.
  split; cbn [log tables usage_rows audit_rows].
  1-3,7,8: intros * []%not_elem_of_nil.
  - intros i k. apply Nat.le_0_l.
  - intros k u (row & Hk & _). cbn in Hk. by rewrite lookup_empty in Hk.
  - intros k row Hk. by rewrite lookup_empty in Hk.
Qed.
Lemma empty_inv now : system_inv (empty_system now).
Proof. split; [apply inv_empty | done | done]. Qed.

Lemma steps_le s s' : system_inv s -> rtc step s s' -> grows (world s) (world s') /\ system_inv s'.
Proof. apply (steps_inv client_prog client_answered clock_moves inv grows rely fresh client_post). Qed.

Lemma reachable_inv s : reachable s -> system_inv s.
Proof. intros [now Hs]. by destruct (steps_le _ _ (empty_inv now) Hs). Qed.

(** Results stay true while others go on. *)
Lemma complete_post_mono i k (x : result _ (UsageLedgerPipelineError LE)) s s' :
  rely i s s' -> complete_post i k x s -> complete_post i k x s'.
Proof.
  intros [HT HO]. unfold complete_post, never_attempted. rewrite HO.
  destruct x as [r|[]]; try done. intros [HR HS]. split; [done | by apply HT].
Qed.

Lemma usage_settled_rely i k s s' : rely i s s' -> usage_settled i k s -> usage_settled i k s'.
Proof. intros [HT HO]. apply usage_settled_mono; [done | by rewrite HO]. Qed.

Lemma execution_audited_post_mono i k name (x : result _ (ExecutionAuditedToolRunError E)) s s' :
  rely i s s' -> execution_audited_post i k name x s -> execution_audited_post i k name x s'.
Proof.
  intros [HT HO]. unfold execution_audited_post. rewrite HO.
  destruct x as [r|[[]| |]]; try done; intros [HR HS]; (split; [done | by apply HT]).
Qed.

Lemma client_post_mono c i o s s' : rely i s s' -> client_post c i o s -> client_post c i o s'.
Proof.
  intros Hr. pose proof (fun k x => complete_post_mono i k x s s' Hr) as HC.
  pose proof (fun k => usage_settled_rely i k s s' Hr) as HU. destruct Hr as [HT HO].
  assert (HN : never_attempted i s -> never_attempted i s') by (unfold never_attempted; by rewrite HO).
  destruct o as [x|x|x|x|x|x]; cbn [client_post].
  - apply HC.
  - destruct x as [events|e]; [|apply HC]. intros (H1' & H2' & H3'). split_and!; [done | done |].
    rewrite HO. intros u [HR HS]%H3'. split; [done | by apply HT].
  - destruct x as [resp|[]]; [apply HU | | apply HN | apply HC]. intros [Hn|Hu]; [left; auto | right; auto].
  - destruct x as [events|[]]; [done | apply HN | apply HN | apply HC].
  - destruct c; try done. unfold audited_post. by rewrite HO.
  - destruct c; try done. by apply execution_audited_post_mono.
Qed.

Lemma attempts_own i k (l : list entry) :
  (forall j, Attempt j k ∈ l -> j = i) -> attempts k l = attempts k (own i l).
Proof.
  unfold attempts, own. induction l as [|e l IH]; intros HA; [done|].
  specialize (IH (fun j Hj => HA j (list_elem_of_further _ _ _ Hj))). cbn [List.filter].
  destruct (is_attempt_for k e) eqn:EA.
  - destruct e as [j k'| | | |]; try done. apply bool_decide_eq_true in EA as ->.
    rewrite (HA j (list_elem_of_here _ _)). cbn [caller]. rewrite Nat.eqb_refl. cbn [List.filter].
    cbn [is_attempt_for]. rewrite bool_decide_true by done. cbn. by rewrite IH.
  - destruct (_ =? i)%nat; cbn [List.filter]; [rewrite EA|]; apply IH.
Qed.

Lemma attempts_none k (l : list entry) : (forall j, Attempt j k ∉ l) -> attempts k l = 0%nat.
Proof.
  unfold attempts. intros HN. induction l as [|e l IH]; [done|]. cbn [List.filter].
  destruct (is_attempt_for k e) eqn:EA.
  - destruct e as [j k'| | | |]; try done. apply bool_decide_eq_true in EA as ->.
    destruct (HN j). apply list_elem_of_here.
  - apply IH. intros j Hj. apply (HN j). by apply list_elem_of_further.
Qed.

Lemma attempt_or_none k (l : list entry) : (exists i, Attempt i k ∈ l) \/ forall j, Attempt j k ∉ l.
Proof.
  induction l as [|e l [[i Hi]|HN]].
  - right. intros j. apply not_elem_of_nil.
  - left. exists i. by apply list_elem_of_further.
  - destruct e as [j k'| | | |]; try (right; intros j' [He|He]%elem_of_cons; [done | by apply (HN j')]).
    destruct (decide (k' = k)) as [->|Hne]; [left; exists j; apply list_elem_of_here|].
    right. intros i [He|He]%elem_of_cons; [congruence | by apply (HN i)].
Qed.

Lemma attempts_le_one s k : reachable s -> (attempts k (log (world s)) <= 1)%nat.
Proof.
  intros [HI _ _]%reachable_inv. destruct (attempt_or_none k (log (world s))) as [[i Hi]|HN].
  - rewrite (attempts_own i); [apply HI|]. intros j Hj.
    by apply (inv_creator _ HI j i k); apply inv_attempt.
  - rewrite attempts_none by done. lia.
Qed.

Lemma finished_post s i c o :
  reachable s -> callers s !! i = Some {| th_client := c; th_rest := Ret o |} -> client_post c i o (world s).
Proof.
  intros HI%reachable_inv Hi. destruct (finished client_answered inv grows rely fresh client_post _ _ _ _ HI Hi) as (s0 & Hr & HP).
  by apply (client_post_mono c i o s0).
Qed.
End system.

(** ** On the stores of the repository *)

(** The Postgres ledger and audit, and an advisor of the application. *)
Section postgres.
Context `{AiApp, Postgres}.
#[local] Existing Instance application_advisor.
Notation State := (Effects.system (call := call) shared client
  (@outcome _ PostgresAiUsageLedgerError AdvisorError PostgresToolAuditError)).
Implicit Types s : State.

(** C5: However callers interleave, fail and are dropped, the provider is called at most
    once for each tenant and idempotency key, with or without streaming and advisors. *)
Theorem one_provider_call_per_key s k : reachable s -> (attempts k (log (world s)) <= 1)%nat.
Proof. apply attempts_le_one. Qed.


(** C7: Usage in the ledger is what the provider reported under that key. Once settled it
    is never changed, approvals and outcomes of tools stay, and reservations stay, also
    when callers retry, race and lose acknowledgements. *)
Theorem ledger_truthful s s' :
  reachable s -> rtc step s s' ->
  tables_le (tables (world s)) (tables (world s')) /\
  (forall k u, settled k u (tables (world s')) -> exists i, Reported i k u ∈ log (world s')) /\
  (forall k row, usage_rows (tables (world s')) !! k = Some row -> usage_checks row = true).
Proof.
  intros HI%reachable_inv Hs. destruct (steps_le s s' HI Hs) as [HL [[] _ _]]. done.
Qed.

(** A tool runs only under an approval recorded for that tool and key, and an advisor
    of the application is given terminal usage only once it is settled. *)
Theorem effects_recorded_first s i k :
  reachable s ->
  (forall n, Ran i k n ∈ log (world s) -> approved k n (tables (world s))) /\
  (forall u, Shown i k u ∈ log (world s) -> settled k u (tables (world s))).
Proof.
  intros [[] _ _]%reachable_inv. split; [intros n; apply inv_ran | intros u; apply inv_shown].
Qed.
End postgres.

(** ** A run of three callers *)

Module AiExamples.
#[export] Instance text_writer : JsonWriter str := {| json_writes v := [v]; json_fails _ := false |}.
#[export] Instance app : AiApp :=
  {| Value := str; ProviderError := unit; AdvisorError := unit; BudgetError := unit; ApprovalError := unit |}.
#[export] Instance server : Postgres := fun _ => true.

Definition alice : AiExecutionContext := {| ctx_tenant := ##"acme"; ctx_subject := ##"alice" |}.
Definition question : ChatRequest str :=
  {| req_model := ##"fast"; req_messages := []; req_tools := []; req_tool_results := [] |}.
Definition ticket : AiUsageReservation :=
  {| rsv_context := alice; rsv_key := ##"order-7"; rsv_request := budget_from_request question |}.
Definition spent : Usage := {| input_tokens := 3; output_tokens := 4 |}.
Definition answer : ChatResponse str :=
  {| resp_id := ##"r1"; resp_model := ##"fast"; resp_content := ##"hello"; resp_tool_calls := []; resp_usage := spent |}.
Definition mail : ToolCall str := {| call_id := ##"t1"; call_name := ##"mail"; call_arguments := ##"{}" |}.
Definition tools : ToolRegistry := (register_tool registry_new ({| tool_name := ##"mail"; input_schema := ##"{}" |}, Privileged)).2.
Definition mailing : ToolExecutionContext := {| tool_ai := alice; tool_key := ##"mail-1" |}.

(** Everything answers well. *)
Definition reply {X} (c : call X) : AiTables -> X * AiTables :=
  match c in call X return AiTables -> X * AiTables with
  | ProviderComplete _ => fun t => (Ok answer, t)
  | ProviderStream _ => fun t => (Ok tt, t)
  | PollStream => fun t => (Some (Ok (Completed spent)), t)
  | BeforeRequest r => fun t => (Ok r, t)
  | AfterResponse r => fun t => (Ok r, t)
  | OnStreamEvent e => fun t => (Ok e, t)
  | Admit _ _ => fun t => (Ok BudgetApproved, t)
  | Approve _ _ _ => fun t => (Ok ToolApproved, t)
  | RunTool _ _ _ => fun t => (Ok (##"sent" : str), t)
  | Statement text meaning => fun t => execute text meaning t
  end.
Lemma reply_answers {X} (c : call X) t : answers c t (reply c t).1 (reply c t).2.
Proof. destruct c; try done. left. apply surjective_pairing. Qed.

#[export] Existing Instance application_advisor.
Definition State : Type :=
  Effects.system (call := call) shared client (@outcome app PostgresAiUsageLedgerError AdvisorError PostgresToolAuditError).

Definition start (c : client) (s : State) : State :=
  {| world := world s; callers := callers s ++ [{| th_client := c; th_rest := client_prog c |}] |}.
Definition go (i : nat) (s : State) : State :=
  match callers s !! i with
  | Some {| th_client := c; th_rest := Vis f kont |} =>
      let '(x, t') := reply f (tables (world s)) in
      {| world := after i (client_key c) f x t' (world s);
         callers := <[i := {| th_client := c; th_rest := kont x |}]> (callers s) |}
  | _ => s
  end.

Lemma go_step i s : rtc step s (go i s).
Proof.
  unfold go. destruct (callers s !! i) as [[c [o|X f kont]]|] eqn:Ei; [done | | done].
  pose proof (reply_answers f (tables (world s))) as Ha. destruct (reply f (tables (world s))) as [x t'].
  apply rtc_once. eapply step_call; [exact Ei | by exists t'].
Qed.
Lemma gos_step l s : rtc step s (foldl (fun s i => go i s) s l).
Proof. revert s. induction l as [|i l IH]; intros s; [done|]. etrans; [apply go_step | apply IH]. Qed.

(** Two callers race for one key, a third streams, a fourth mails. *)
Definition begun : State :=
  start (RecordedTool tools mailing mail)
    (start (AdvisedStream pipeline_new question alice (##"order-8") 3)
       (start (Complete pipeline_new question ticket)
          (start (Complete pipeline_new question ticket) (empty_system 0)))).
Definition turns : list nat := [1; 0; 1; 0; 1; 2; 2; 2; 2; 2; 2; 2; 3; 3; 3; 3; 3; 3]%nat.
Definition final : State := foldl (fun s i => go i s) begun turns.

Lemma begun_reachable : reachable begun.
Proof.
  exists 0. unfold begun. do 4 (eapply rtc_r; [|apply step_start]). done.
Qed.
Lemma final_reachable : reachable final.
Proof.
  destruct begun_reachable as [now Hs]. exists now. etrans; [exact Hs | apply gos_step].
Qed.

Definition key7 : ActionKey := (##"acme", ##"order-7").

Lemma one_provider_call_per_key_witness :
  (attempts key7 (log (world final)) <= 1)%nat /\ attempts key7 (log (world final)) = 1%nat.
Proof.
  split; [apply one_provider_call_per_key, final_reachable | vm_compute; reflexivity].
Defined.


Lemma ledger_truthful_witness :
  tables_le (tables (world begun)) (tables (world final)) /\ exists row, usage_rows (tables (world final)) !! key7 = Some row.
Proof.
  split; [|eexists; vm_compute; reflexivity].
  exact (proj1 (ledger_truthful begun final begun_reachable (gos_step turns begun))).
Defined.

Lemma effects_recorded_first_witness :
  Ran 3 (tool_action mailing) (##"mail") ∈ log (world final) /\
  approved (tool_action mailing) (##"mail") (tables (world final)).
Proof.
  assert (Hr : Ran 3 (tool_action mailing) (##"mail") ∈ log (world final)).
  { apply list_elem_of_In. vm_compute. tauto. }
  split; [exact Hr|].
  exact (proj1 (effects_recorded_first final 3 (tool_action mailing) final_reachable) _ Hr).
Defined.

(** The second caller of the key is told that the first is not settled yet. *)
Example racing_caller_waits :
  (fun th => match th_rest th with Ret o => Some o | _ => None end) <$> callers final !! 0%nat =
  Some (Some (CompleteResult (Err (UsagePendingReconciliation _)))).
Proof. vm_compute. reflexivity. Qed.
End AiExamples.
