(* ===== verification/AiCache.v ===== *)
(** The cache of AI responses: [crates/rustee-ai-cache], [contracts.rs], [completion.rs] and
    [in_memory.rs], and the Redis store of [crates/rustee-ai-cache-redis], [config.rs] and
    [store.rs].

    A store is an instance of [AiResponseCache]; [ResponseCacheLaws] states what the stores
    promise on the entry that is live for a key at a time, and both stores keep it. The
    cached completion is a program over its calls to the store and to the application's
    executor. Times and durations are nanoseconds. *)

From Stdlib Require Import ZArith Lia Bool Ascii.
From stdpp Require Import gmap.
From S2P Require Import Prelude Strings Json RateLimit RedisCache Effects AiProtocol AiTables AiPipeline.

Local Open Scope Z_scope.

(** ** Keys, policy and entries: [contracts.rs] *)

Definition MAX_SCOPE_BYTES : nat := 128.
Definition SHA256_HEX_BYTES : nat := 64.
Definition MAX_CACHE_TTL : Duration := from_secs (24 * 60 * 60).
Definition DEFAULT_CACHE_TTL : Duration := from_secs 300.

Definition valid_scope (scope : str) : bool :=
  nonempty scope && (List.length scope <=? MAX_SCOPE_BYTES)%nat
  && forallb (fun c => is_ascii_alphanumeric c || existsb (char_eqb c) ##"_-.") scope.
Definition valid_sha256_hex (fingerprint : str) : bool :=
  (List.length fingerprint =? SHA256_HEX_BYTES)%nat
  && forallb (fun c => is_ascii_digit c || in_range 97 102 c) fingerprint.

Inductive AiCacheConfigError : Type :=
| InvalidScope | InvalidFingerprint | ZeroTtl | TtlExceedsMaximum | InvalidInMemoryCapacity.

(** The fields are private: every key passed [AiCacheKey::new]. *)
Record AiCacheKey : Type := {
  key_scope : str;
  key_fingerprint : str;
  key_valid : valid_scope key_scope && valid_sha256_hex key_fingerprint = true
}.
Definition cache_key_new (scope fingerprint : str) : result AiCacheKey AiCacheConfigError :=
  (if valid_scope scope as s return valid_scope scope = s -> _ then fun Hs =>
     (if valid_sha256_hex fingerprint as f return valid_sha256_hex fingerprint = f -> _ then fun Hf =>
        Ok {| key_scope := scope; key_fingerprint := fingerprint; key_valid := andb_true_intro (conj Hs Hf) |}
      else fun _ => Err InvalidFingerprint) eq_refl
   else fun _ => Err InvalidScope) eq_refl.

Inductive AiCacheReadFailurePolicy : Type := FailClosed | Bypass.
Record AiCacheConfig : Type := { cache_ttl : Duration; read_failure_policy : AiCacheReadFailurePolicy }.
Definition cache_config_new (ttl : Duration) : result AiCacheConfig AiCacheConfigError :=
  if ttl =? 0 then Err ZeroTtl
  else if MAX_CACHE_TTL <? ttl then Err TtlExceedsMaximum
  else Ok {| cache_ttl := ttl; read_failure_policy := Bypass |}.
Definition with_read_failure_policy (p : AiCacheReadFailurePolicy) (c : AiCacheConfig) : AiCacheConfig :=
  {| cache_ttl := cache_ttl c; read_failure_policy := p |}.

Inductive AiCacheEligibilityError : Type :=
| RequestDeclaresTools | RequestContainsToolResults | ResponseContainsToolCalls.

Inductive AiCacheStatus : Type :=
| Hit | MissStored | MissStoreFailed | BypassedIneligibleRequest | BypassedReadFailure | MissIneligibleResponse.
Inductive AiCachedCompletionError (EE CE : Type) : Type :=
| CachedExecutor (e : EE)
| CacheRead (e : CE)
| UnsafeCacheEntry (e : AiCacheEligibilityError).
Arguments CachedExecutor {EE CE} e.
Arguments CacheRead {EE CE} e.
Arguments UnsafeCacheEntry {EE CE} e.

#[export] Instance key_eq_dec : EqDecision AiCacheKey.
Proof.
  intros [s f H] [s' f' H']. destruct (decide (s = s')) as [<-|Hs]; [|right; congruence].
  destruct (decide (f = f')) as [<-|Hf]; [|right; congruence]. left. f_equal. apply proof_irrel.
Defined.
Lemma cache_key_new_ok k : cache_key_new (key_scope k) (key_fingerprint k) = Ok k.
Proof.
  destruct k as [s f H]. cbn [key_scope key_fingerprint]. unfold cache_key_new. pose proof H as [Hs Hf]%andb_true_iff.
  generalize (eq_refl (valid_scope s)). generalize (valid_scope s) at 2 3. intros b Hb.
  assert (b = true) as -> by congruence.
  generalize (eq_refl (valid_sha256_hex f)). generalize (valid_sha256_hex f) at 2 3. intros b' Hb'.
  assert (b' = true) as -> by congruence. f_equal. f_equal. apply proof_irrel.
Qed.
#[export] Instance key_countable : Countable AiCacheKey.
Proof.
  apply (inj_countable (fun k => (key_scope k, key_fingerprint k))
           (fun p => match cache_key_new p.1 p.2 with Ok k => Some k | Err _ => None end)).
  intros k. cbn [fst snd]. by rewrite cache_key_new_ok.
Defined.

Section contracts.
Context {Value : Type}.

Definition no_tool_calls (r : ChatResponse Value) : bool := match resp_tool_calls r with [] => true | _ => false end.
(** The field is private: every entry passed [AiCacheEntry::new]. *)
Record AiCacheEntry : Type := {
  entry_response : ChatResponse Value;
  entry_eligible : no_tool_calls entry_response = true
}.
Definition entry_new (r : ChatResponse Value) : result AiCacheEntry AiCacheEligibilityError :=
  (if no_tool_calls r as b return no_tool_calls r = b -> _
   then fun H => Ok {| entry_response := r; entry_eligible := H |}
   else fun _ => Err ResponseContainsToolCalls) eq_refl.

Lemma entry_eq (e e' : AiCacheEntry) : entry_response e = entry_response e' -> e = e'.
Proof. destruct e as [r H], e' as [r' H']. cbn. intros <-. f_equal. apply proof_irrel. Qed.
Lemma entry_new_response r e : entry_new r = Ok e -> entry_response e = r.
Proof.
  unfold entry_new. generalize (eq_refl (no_tool_calls r)). generalize (no_tool_calls r) at 2 3.
  intros [|] H; [|done]. by intros [= <-].
Qed.
Lemma entry_new_ok (e : AiCacheEntry) : entry_new (entry_response e) = Ok e.
Proof.
  unfold entry_new. generalize (eq_refl (no_tool_calls (entry_response e))). pose proof (entry_eligible e) as HE.
  generalize (no_tool_calls (entry_response e)) at 2 3. intros b H. assert (b = true) as -> by congruence.
  f_equal. by apply entry_eq.
Qed.

(** A response that [ChatResponse::new] made. *)
Definition valid_response (r : ChatResponse Value) : Prop := response_deserialize r = Ok r.

(** [AiResponseCache]: a moment is what a call to the store meets, its time included. *)
Class AiResponseCache (CE : Type) : Type := {
  CacheState : Type;
  Moment : Type;
  cache_time : Moment -> Z;
  cache_get : Moment -> AiCacheKey -> CacheState -> result (option AiCacheEntry) CE * CacheState;
  cache_put : Moment -> AiCacheKey -> AiCacheEntry -> Duration -> CacheState -> result unit CE * CacheState;
  cache_invalidate : Moment -> AiCacheKey -> CacheState -> result unit CE * CacheState
}.

(** ** What a store promises *)

Class CacheView (CE : Type) `{!AiResponseCache CE} : Type := {
  (** The entry that is live for a key at a time, and how long one with a time to live is. *)
  live : Z -> AiCacheKey -> CacheState -> option AiCacheEntry;
  retention : Duration -> Duration;
  (** What holds of a store from a time on. *)
  store_ok : Z -> CacheState -> Prop;
  (** Moments at which reads do not fail. *)
  responsive : Moment -> bool
}.

Class ResponseCacheLaws (CE : Type) `{CacheView CE} : Prop := {
  retention_bounds ttl : 0 < ttl -> ttl <= retention ttl < ttl + from_secs 1;
  live_expires t t' k s e : t <= t' -> live t' k s = Some e -> live t k s = Some e;
  ok_later t t' s : t <= t' -> store_ok t s -> store_ok t' s;
  get_live m k s o : store_ok (cache_time m) s -> fst (cache_get m k s) = Ok o -> o = live (cache_time m) k s;
  get_responsive m k s : store_ok (cache_time m) s -> responsive m = true -> is_ok (fst (cache_get m k s)) = true;
  get_keeps m k s t k' : cache_time m <= t -> live t k' (snd (cache_get m k s)) = live t k' s;
  put_live m k e ttl s t k' :
    valid_response (entry_response e) -> cache_time m <= t ->
    live t k' (snd (cache_put m k e ttl s)) = live t k' s \/
    (k' = k /\ live t k' (snd (cache_put m k e ttl s)) = if t <? cache_time m + retention ttl then Some e else None);
  put_stored m k e ttl s t :
    valid_response (entry_response e) -> cache_time m <= t -> fst (cache_put m k e ttl s) = Ok tt ->
    live t k (snd (cache_put m k e ttl s)) = if t <? cache_time m + retention ttl then Some e else None;
  invalidate_live m k s t k' :
    cache_time m <= t -> live t k' (snd (cache_invalidate m k s)) = live t k' s \/
    (k' = k /\ live t k' (snd (cache_invalidate m k s)) = None);
  invalidate_done m k s t :
    cache_time m <= t -> fst (cache_invalidate m k s) = Ok tt -> live t k (snd (cache_invalidate m k s)) = None;
  get_ok m k s : store_ok (cache_time m) s -> store_ok (cache_time m) (snd (cache_get m k s));
  put_ok m k e ttl s :
    valid_response (entry_response e) -> store_ok (cache_time m) s -> store_ok (cache_time m) (snd (cache_put m k e ttl s));
  invalidate_ok m k s : store_ok (cache_time m) s -> store_ok (cache_time m) (snd (cache_invalidate m k s))
}.
End contracts.
Arguments AiCacheEntry : clear implicits.
Arguments AiResponseCache : clear implicits.

(** ** Completions: [completion.rs] *)

Section completion.
Context {Value EE CE : Type}.

Inductive cache_call : Type -> Type :=
| CacheGet (k : AiCacheKey) : cache_call (result (option (AiCacheEntry Value)) CE)
| CachePut (k : AiCacheKey) (e : AiCacheEntry Value) (ttl : Duration) : cache_call (result unit CE)
| CacheInvalidate (k : AiCacheKey) : cache_call (result unit CE)
(** [AiCacheExecutor::complete_for_cache]. *)
| CompleteForCache (q : ChatRequest Value) : cache_call (result (ChatResponse Value) EE).

Record AiCachedResponse : Type := { cached_response : ChatResponse Value; cache_status : AiCacheStatus }.
Notation cached_result := (result AiCachedResponse (AiCachedCompletionError EE CE)).

Definition request_eligibility (q : ChatRequest Value) : result unit AiCacheEligibilityError :=
  match req_tools q, req_tool_results q with
  | _ :: _, _ => Err RequestDeclaresTools
  | [], _ :: _ => Err RequestContainsToolResults
  | [], [] => Ok tt
  end.

Definition complete_without_cache (q : ChatRequest Value) (status : AiCacheStatus) :
    program cache_call (result AiCachedResponse EE) :=
  try_ id (ask (CompleteForCache q)) (fun response =>
  Ret (Ok {| cached_response := response; cache_status := status |})).

Definition complete_on_miss (config : AiCacheConfig) (q : ChatRequest Value) (k : AiCacheKey) :
    program cache_call cached_result :=
  try_ CachedExecutor (ask (CompleteForCache q)) (fun response =>
  match entry_new response with
  | Ok entry =>
      stored ← ask (CachePut k entry (cache_ttl config));
      Ret (Ok {| cached_response := response; cache_status := if is_ok (stored : result unit CE) then MissStored else MissStoreFailed |})
  | Err ResponseContainsToolCalls => Ret (Ok {| cached_response := response; cache_status := MissIneligibleResponse |})
  | Err error => Ret (Err (UnsafeCacheEntry error))
  end).

Definition cached_complete (config : AiCacheConfig) (q : ChatRequest Value) (k : AiCacheKey) :
    program cache_call cached_result :=
  match request_eligibility q with
  | Err _ => r ← complete_without_cache q BypassedIneligibleRequest; Ret (map_err CachedExecutor r)
  | Ok _ =>
      read ← ask (CacheGet k);
      match read : result (option (AiCacheEntry Value)) CE with
      | Ok (Some entry) => Ret (Ok {| cached_response := entry_response entry; cache_status := Hit |})
      | Ok None => complete_on_miss config q k
      | Err e =>
          match read_failure_policy config with
          | FailClosed => Ret (Err (CacheRead e))
          | Bypass => r ← complete_without_cache q BypassedReadFailure; Ret (map_err CachedExecutor r)
          end
      end
  end.

(** [AiCachedCompletion::invalidate]; the error wraps the store's. *)
Definition cached_invalidate (k : AiCacheKey) : program cache_call (result unit CE) := ask (CacheInvalidate k).

(** The executor is put in place of its call. *)
Inductive full_call (xcall : Type -> Type) : Type -> Type :=
| Within {X} (c : cache_call X) : full_call xcall X
| Executor {X} (c : xcall X) : full_call xcall X.
Arguments Within {xcall X} c.
Arguments Executor {xcall X} c.

Fixpoint executing {xcall A} (p : program xcall A) : program (full_call xcall) A :=
  match p with Ret a => Ret a | Vis c k => Vis (Executor c) (fun x => executing (k x)) end.
Definition executed {xcall} (run : ChatRequest Value -> program xcall (result (ChatResponse Value) EE)) {X} (c : cache_call X) :
    program (full_call xcall) X :=
  match c with
  | CompleteForCache q => executing (run q)
  | CacheGet k => ask (Within (CacheGet k))
  | CachePut k e ttl => ask (Within (CachePut k e ttl))
  | CacheInvalidate k => ask (Within (CacheInvalidate k))
  end.
Fixpoint with_executor {xcall A} (run : ChatRequest Value -> program xcall (result (ChatResponse Value) EE))
    (p : program cache_call A) : program (full_call xcall) A :=
  match p with Ret a => Ret a | Vis c k => executed run c ≫= (fun x => with_executor run (k x)) end.
End completion.
Arguments cache_call : clear implicits.
Arguments full_call : clear implicits.
Arguments Within {Value EE CE xcall X} c.
Arguments Executor {Value EE CE xcall X} c.
Arguments AiCachedResponse : clear implicits.

(** [AiCacheExecutor for AiPipeline]. *)
Definition pipeline_complete_for_cache `{AiApp} (pl : AiPipeline) (q : ChatRequest Value) :
    program call (result (ChatResponse Value) PipelineError) := complete pl q.
Definition pipeline_cached_complete `{AiApp} {CE} (config : AiCacheConfig) (pl : AiPipeline) (q : ChatRequest Value) (k : AiCacheKey) :
    program (full_call Value PipelineError CE call) (result (AiCachedResponse Value) (AiCachedCompletionError PipelineError CE)) :=
  with_executor (pipeline_complete_for_cache pl) (cached_complete config q k).

(** Every run of a program makes at most so many calls of a kind. *)
Fixpoint at_most {call A} (P : forall X, call X -> bool) (n : nat) (p : program call A) : Prop :=
  match p with
  | Ret _ => True
  | @Vis _ _ X c k =>
      if P X c then match n with O => False | S n => forall x, at_most P n (k x) end
      else forall x, at_most P n (k x)
  end.
Definition leaves_cache {Value EE CE xcall} X (c : full_call Value EE CE xcall X) : bool :=
  match c with Within _ => false | Executor _ => true end.

(** Behind the cache the pipeline calls its provider at most once per completion. *)
Theorem cached_pipeline_calls_once `{AiApp} {CE} config pl q k :
  at_most leaves_cache 1 (pipeline_cached_complete (CE := CE) config pl q k).
Proof.
  unfold pipeline_cached_complete, cached_complete, complete_on_miss, complete_without_cache, pipeline_complete_for_cache, complete.
  destruct (validate_and_measure_input (pipeline_policy pl) q) as [n|e0] eqn:HV; destruct (request_eligibility q) as [u|e].
  - cbn. intros [[e|]|e]; [done | |destruct (read_failure_policy config); [done|]];
      cbn; rewrite HV; intros [r|e']; try done. cbn. by destruct (entry_new r) as [en|[]].
  - cbn. rewrite HV. by intros [r|e'].
  - cbn. intros [[e|]|e]; [done | |destruct (read_failure_policy config); [done|]]; cbn; by rewrite HV.
  - cbn. by rewrite HV.
Qed.

(** ** The store in memory: [in_memory.rs] *)

Definition MAX_IN_MEMORY_ENTRIES : nat := 10000.
Inductive InMemoryAiResponseCacheError : Type :=
| MemoryZeroTtl | MemoryTtlExceedsMaximum | MemoryTtlOutOfRange | CapacityExhausted | StateUnavailable.

(** What [lock] and [Instant::now] return. *)
Record MemoryMoment : Type := { mm_lock : bool; mm_now : Z }.

Section in_memory.
Context {Value : Type}.
(** [instant_max] is the last [Instant] of the platform. *)
Context (instant_max : Z).

Record InMemoryEntry : Type := { me_entry : AiCacheEntry Value; me_expires_at : Z }.
Notation entries := (gmap AiCacheKey InMemoryEntry).

(** A new cache is empty and has its capacity. *)
Definition in_memory_new (capacity : nat) : result (nat * entries) AiCacheConfigError :=
  if (1 <=? capacity)%nat && (capacity <=? MAX_IN_MEMORY_ENTRIES)%nat then Ok (capacity, ∅)
  else Err InvalidInMemoryCapacity.

Context (capacity : nat).

Definition unexpired (now : Z) (e : InMemoryEntry) : bool := now <? me_expires_at e.
Definition in_memory_get (m : MemoryMoment) (k : AiCacheKey) (s : entries) :
    result (option (AiCacheEntry Value)) InMemoryAiResponseCacheError * entries :=
  if negb (mm_lock m) then (Err StateUnavailable, s)
  else
    let found := e ← s !! k; if unexpired (mm_now m) e then Some (me_entry e) else None in
    (Ok found, if is_some found then s else delete k s).

Definition in_memory_put (m : MemoryMoment) (k : AiCacheKey) (e : AiCacheEntry Value) (ttl : Duration) (s : entries) :
    result unit InMemoryAiResponseCacheError * entries :=
  if ttl =? 0 then (Err MemoryZeroTtl, s)
  else if MAX_CACHE_TTL <? ttl then (Err MemoryTtlExceedsMaximum, s)
  else if negb (mm_lock m) then (Err StateUnavailable, s)
  else if instant_max <? mm_now m + ttl then (Err MemoryTtlOutOfRange, s)
  else
    let s := filter (fun ke => unexpired (mm_now m) ke.2 = true) s in
    if negb (is_some (s !! k)) && (size s =? capacity)%nat then (Err CapacityExhausted, s)
    else (Ok tt, <[k := {| me_entry := e; me_expires_at := mm_now m + ttl |}]> s).

Definition in_memory_invalidate (m : MemoryMoment) (k : AiCacheKey) (s : entries) :
    result unit InMemoryAiResponseCacheError * entries :=
  if negb (mm_lock m) then (Err StateUnavailable, s) else (Ok tt, delete k s).

#[export] Instance in_memory_cache : AiResponseCache Value InMemoryAiResponseCacheError := {|
  CacheState := entries;
  Moment := MemoryMoment;
  cache_time := mm_now;
  cache_get := in_memory_get;
  cache_put := in_memory_put;
  cache_invalidate := in_memory_invalidate
|}.

Definition in_memory_live (t : Z) (k : AiCacheKey) (s : entries) : option (AiCacheEntry Value) :=
  e ← s !! k; if unexpired t e then Some (me_entry e) else None.
(** The cache is bounded. *)
#[export] Instance in_memory_view : CacheView InMemoryAiResponseCacheError := {|
  live := in_memory_live;
  retention ttl := ttl;
  store_ok _ s := (size s <= capacity)%nat;
  responsive := mm_lock
|}.

Lemma unexpired_earlier t t' e : t <= t' -> unexpired t' e = true -> unexpired t e = true.
Proof. unfold unexpired. rewrite !Z.ltb_lt. lia. Qed.

Lemma in_memory_live_delete t k s k' : in_memory_live t k' (delete k s) = if decide (k' = k) then None else in_memory_live t k' s.
Proof.
  unfold in_memory_live. destruct (decide (k' = k)) as [->|Hk]; [by rewrite lookup_delete_eq | by rewrite lookup_delete_ne].
Qed.
Lemma in_memory_live_retain now t k s :
  now <= t -> in_memory_live t k (filter (fun ke => unexpired now ke.2 = true) s) = in_memory_live t k s.
Proof.
  intros Ht. unfold in_memory_live. destruct (s !! k) as [e|] eqn:HK; cbn [mbind option_bind].
  - destruct (unexpired now e) eqn:HE.
    + by rewrite (proj2 (map_lookup_filter_Some _ _ _ _) (conj HK HE)).
    + rewrite (proj2 (map_lookup_filter_None _ _ _)) by (right; intros e'; rewrite HK; intros [= <-]; cbn; congruence).
      cbn. destruct (unexpired t e) eqn:HE'; [|done]. apply (unexpired_earlier now) in HE'; [congruence | done].
  - by rewrite (proj2 (map_lookup_filter_None _ _ _)) by (by left).
Qed.
Lemma in_memory_live_insert t k e x s k' :
  in_memory_live t k' (<[k := {| me_entry := e; me_expires_at := x |}]> s) =
  if decide (k' = k) then (if t <? x then Some e else None) else in_memory_live t k' s.
Proof.
  unfold in_memory_live. destruct (decide (k' = k)) as [->|Hk]; [by rewrite lookup_insert_eq | by rewrite lookup_insert_ne].
Qed.

(** The cases of a write: refused before the store is touched, refused for lack of room, or done. *)
Lemma in_memory_put_cases m k e ttl s :
  let kept := filter (fun ke => unexpired (mm_now m) ke.2 = true) s in
  (is_ok (fst (in_memory_put m k e ttl s)) = false /\
     (snd (in_memory_put m k e ttl s) = s \/ snd (in_memory_put m k e ttl s) = kept)) \/
  (in_memory_put m k e ttl s = (Ok tt, <[k := {| me_entry := e; me_expires_at := mm_now m + ttl |}]> kept) /\
     (is_some (kept !! k) = true \/ size kept <> capacity)).
Proof.
  intros kept. unfold in_memory_put. destruct (ttl =? 0); [by left; auto|]. destruct (MAX_CACHE_TTL <? ttl); [by left; auto|].
  destruct (mm_lock m); [|by left; auto]. destruct (instant_max <? _); [by left; auto|]. cbn [negb]. cbv zeta. fold kept. destruct (kept !! k) as [x|]; cbn [is_some negb andb]; [by auto|].
  destruct (Nat.eqb_spec (size kept) capacity); [left; auto | right; auto].
Qed.

Lemma retain_size now (s : entries) : (size (filter (fun ke : AiCacheKey * InMemoryEntry => unexpired now ke.2 = true) s) <= size s)%nat.
Proof. apply map_subseteq_size. apply map_filter_subseteq. Qed.

#[export] Instance in_memory_laws : ResponseCacheLaws InMemoryAiResponseCacheError.
Proof.
  split; cbn [CacheState Moment live retention store_ok responsive cache_time cache_get cache_put cache_invalidate in_memory_cache in_memory_view].
  - intros ttl H. unfold from_secs. lia.
  - intros t t' k s e Ht. unfold in_memory_live. destruct (s !! k) as [x|]; cbn; [|done]. destruct (unexpired t' x) eqn:HE; [|done].
    by rewrite (unexpired_earlier t t').
  - done.
  - intros m k s o _. unfold in_memory_get. destruct (mm_lock m); [|done]. cbn [negb fst]. by intros [= <-].
  - intros m k s _ HL. unfold in_memory_get. by rewrite HL.
  - intros m k s t k' Ht. unfold in_memory_get. destruct (mm_lock m); [|done]. cbn [negb snd].
    destruct (s !! k) as [x|] eqn:HK; cbn; rewrite ?HK; cbn.
    + destruct (unexpired (mm_now m) x) eqn:HE; [done|]. cbn. rewrite in_memory_live_delete.
      destruct (decide (k' = k)) as [->|]; [|done]. unfold in_memory_live. rewrite HK. cbn.
      destruct (unexpired t x) eqn:HX; [|done]. apply (unexpired_earlier _ _ _ Ht) in HX. congruence.
    + rewrite in_memory_live_delete. destruct (decide (k' = k)) as [->|]; [|done]. unfold in_memory_live. by rewrite HK.
  - intros m k e ttl s t k' _ Ht.
    destruct (in_memory_put_cases m k e ttl s) as [[_ [->| ->]]|[-> _]]; [by left | left; by apply in_memory_live_retain |].
    cbn [snd]. rewrite in_memory_live_insert, in_memory_live_retain by done.
    destruct (decide (k' = k)); [by right | by left].
  - intros m k e ttl s t _ Ht HO.
    destruct (in_memory_put_cases m k e ttl s) as [[HN _]|[-> _]]; [by rewrite HO in HN|].
    cbn [snd]. rewrite in_memory_live_insert. by rewrite decide_True.
  - intros m k s t k' Ht. unfold in_memory_invalidate. destruct (mm_lock m); [|by left]. cbn [negb snd].
    rewrite in_memory_live_delete. destruct (decide (k' = k)); [by right | by left].
  - intros m k s t Ht. unfold in_memory_invalidate. destruct (mm_lock m); [|done]. intros _. cbn [negb snd].
    rewrite in_memory_live_delete. by rewrite decide_True.
  - intros m k s Hs. unfold in_memory_get. destruct (mm_lock m); [|done]. cbn [negb snd].
    destruct (is_some _); [done|]. etrans; [apply map_subseteq_size, delete_subseteq | done].
  - intros m k e ttl s _ Hs. pose proof (retain_size (mm_now m) s) as HR.
    destruct (in_memory_put_cases m k e ttl s) as [[_ [->| ->]]|[-> HC]]; [done | lia |]. cbn [snd].
    destruct (_ !! k) as [x|] eqn:HK; [rewrite map_size_insert_Some by done; lia|].
    destruct HC as [|HC]; [done|]. rewrite map_size_insert_None by done. lia.
  - intros m k s Hs. unfold in_memory_invalidate. destruct (mm_lock m); [|done]. cbn [negb snd].
    etrans; [apply map_subseteq_size, delete_subseteq | done].
Qed.
End in_memory.

(** ** The store in Redis: [crates/rustee-ai-cache-redis] *)

Definition DEFAULT_CACHE_NAMESPACE : str := ##"rustee:ai:response-cache:v1".
Definition DEFAULT_MAX_ENTRY_BYTES : nat := 256 * 1024.
Definition MAX_ENTRY_BYTES : nat := 1024 * 1024.
Definition valid_max_entry_bytes (n : nat) : bool := (1 <=? n)%nat && (n <=? MAX_ENTRY_BYTES)%nat.

Inductive RedisAiResponseCacheConfigError : Type := InvalidCacheNamespace | InvalidMaxEntryBytes.
Inductive RedisAiResponseCacheError : Type :=
| RedisCacheRead (e : CacheError)
| RedisIneligibleEntry (e : AiCacheEligibilityError)
| RedisCacheSerialize
| RedisEntryTooLarge
| RedisCacheWrite (e : CacheError)
| RedisZeroTtl
| RedisTtlExceedsMaximum
| RedisCacheInvalidate (e : CacheError).

(** The connection is the server the operations run on. *)
Record RedisAiResponseCache : Type := { rc_namespace : str; rc_max_entry_bytes : nat }.
Definition redis_cache_new : RedisAiResponseCache :=
  {| rc_namespace := DEFAULT_CACHE_NAMESPACE; rc_max_entry_bytes := DEFAULT_MAX_ENTRY_BYTES |}.
Definition redis_cache_with_namespace (namespace : str) : result RedisAiResponseCache RedisAiResponseCacheConfigError :=
  if negb (is_valid_key_namespace namespace) then Err InvalidCacheNamespace
  else Ok {| rc_namespace := namespace; rc_max_entry_bytes := DEFAULT_MAX_ENTRY_BYTES |}.
Definition with_max_entry_bytes (n : nat) (c : RedisAiResponseCache) : result RedisAiResponseCache RedisAiResponseCacheConfigError :=
  if negb (valid_max_entry_bytes n) then Err InvalidMaxEntryBytes
  else Ok {| rc_namespace := rc_namespace c; rc_max_entry_bytes := n |}.
Definition redis_cache_key (c : RedisAiResponseCache) (k : AiCacheKey) : str :=
  rc_namespace c ++ ##":" ++ key_scope k ++ ##":" ++ key_fingerprint k.

Definition cache_read_error (e : CacheError) : RedisAiResponseCacheError :=
  match e with CacheValueTooLarge => RedisEntryTooLarge | e => RedisCacheRead e end.
Definition cache_write_error (e : CacheError) : RedisAiResponseCacheError :=
  match e with
  | CacheZeroTtl => RedisZeroTtl
  | CacheValueTooLarge => RedisEntryTooLarge
  | CacheJson => RedisCacheSerialize
  | e => RedisCacheWrite e
  end.
Definition ttl_seconds (ttl : Duration) : result Z RedisAiResponseCacheError :=
  if ttl =? 0 then Err RedisZeroTtl
  else if MAX_CACHE_TTL <? ttl then Err RedisTtlExceedsMaximum
  else Ok (saturating_add u64_max (as_secs ttl) (if subsec_nanos ttl =? 0 then 0 else 1)).

(** The derived JSON of a response. *)
Class ResponseJson (Value : Type) : Type := {
  response_writer :: JsonWriter (ChatResponse Value);
  read_serialized_response : bytes -> option (ChatResponse Value)
}.
Class ResponseJsonLaws (Value : Type) `{!ResponseJson Value} : Prop :=
  response_roundtrip r : read_serialized_response (concat (json_writes r)) = Some r.

(** What happens to the request, and the server's clock in milliseconds. *)
Record RedisMoment : Type := { rm_delivery : Delivery; rm_now : Z }.

Section redis.
Context {Value : Type} `{RedisStrings, !ResponseJson Value}.
Context (c : RedisAiResponseCache).

(** [Deserialize for ChatResponse]. *)
Definition response_from_slice (b : bytes) : option (ChatResponse Value) :=
  r ← read_serialized_response b;
  match response_deserialize r with Ok r => Some r | Err _ => None end.

Definition redis_cache_get (m : RedisMoment) (k : AiCacheKey) (s : KvServer) :
    result (option (AiCacheEntry Value)) RedisAiResponseCacheError * KvServer :=
  let reply := get_json_bounded response_from_slice (redis_cache_key c k) (rc_max_entry_bytes c) (rm_delivery m) (rm_now m) s in
  (let? response := map_err cache_read_error (fst reply) in
   map_err RedisIneligibleEntry (transpose (option_map entry_new response)), snd reply).

Definition redis_cache_put (m : RedisMoment) (k : AiCacheKey) (e : AiCacheEntry Value) (ttl : Duration) (s : KvServer) :
    result unit RedisAiResponseCacheError * KvServer :=
  match ttl_seconds ttl with
  | Err error => (Err error, s)
  | Ok secs =>
      let reply := set_json_bounded (redis_cache_key c k) (entry_response e) secs (rc_max_entry_bytes c) (rm_delivery m) (rm_now m) s in
      (map_err cache_write_error (fst reply), snd reply)
  end.

Definition redis_cache_invalidate (m : RedisMoment) (k : AiCacheKey) (s : KvServer) :
    result unit RedisAiResponseCacheError * KvServer :=
  let reply := cache_delete (redis_cache_key c k) (rm_delivery m) (rm_now m) s in
  (map_err RedisCacheInvalidate (fst reply), snd reply).

#[export] Instance redis_cache : AiResponseCache Value RedisAiResponseCacheError := {|
  CacheState := KvServer;
  Moment := RedisMoment;
  cache_time m := rm_now m * 1000000;
  cache_get := redis_cache_get;
  cache_put := redis_cache_put;
  cache_invalidate := redis_cache_invalidate
|}.

Definition decode_entry (v : bytes) : option (AiCacheEntry Value) :=
  r ← response_from_slice v;
  match entry_new r with Ok e => Some e | Err _ => None end.
Definition redis_live (t : Z) (k : AiCacheKey) (s : KvServer) : option (AiCacheEntry Value) :=
  v ← kv_get (t / 1000000) (redis_cache_key c k) s; decode_entry v.
(** The keys of the cache hold what the cache writes. *)
Definition only_entries (t0 : Z) (s : KvServer) : Prop :=
  forall t k v, t0 <= t -> kv_get (t / 1000000) (redis_cache_key c k) s = Some v ->
    exists e : AiCacheEntry Value, decode_entry v = Some e /\ (List.length v <= rc_max_entry_bytes c)%nat.
#[export] Instance redis_view : CacheView RedisAiResponseCacheError := {|
  live := redis_live;
  retention ttl := match ttl_seconds ttl with Ok secs => from_secs secs | Err _ => ttl end;
  store_ok := only_entries;
  responsive m := match rm_delivery m with Answered => true | _ => false end
|}.

(** *** Lemmas *)

Context `{!RedisStringLaws, !ResponseJsonLaws Value}.
(** The limit passed [with_max_entry_bytes] or is the default one. *)
Context `{Hmax : !TCEq (valid_max_entry_bytes (rc_max_entry_bytes c)) true}.

Lemma max_fits : Z.of_nat (rc_max_entry_bytes c) <= i64_max.
Proof.
  apply TCEq_eq in Hmax. unfold valid_max_entry_bytes in Hmax. apply andb_true_iff in Hmax as [_ HM%Nat.leb_le].
  assert (HB : Z.of_nat MAX_ENTRY_BYTES = 1048576) by (vm_compute; reflexivity). unfold i64_max. lia.
Qed.

Lemma no_colon_scope k : ":"%char ∉ key_scope k.
Proof.
  pose proof (key_valid k) as [HS _]%andb_true_iff. unfold valid_scope in HS. apply andb_true_iff in HS as [_ HS].
  rewrite forallb_forall in HS. intros HE%list_elem_of_In. by apply HS in HE.
Qed.
Lemma no_colon_fingerprint k : ":"%char ∉ key_fingerprint k.
Proof.
  pose proof (key_valid k) as [_ HF]%andb_true_iff. unfold valid_sha256_hex in HF. apply andb_true_iff in HF as [_ HF].
  rewrite forallb_forall in HF. intros HE%list_elem_of_In. by apply HF in HE.
Qed.

Lemma redis_cache_key_inj k k' : redis_cache_key c k = redis_cache_key c k' -> k = k'.
Proof.
  unfold redis_cache_key. intros HE%app_inv_head%app_inv_head.
  apply (f_equal (split ":"%char)) in HE. change (##":") with [":"%char] in HE. cbn [app] in HE.
  rewrite !split_app_sep in HE by apply no_colon_scope. injection HE as HS HF.
  rewrite !split_no in HF by apply no_colon_fingerprint. injection HF as HF.
  destruct k as [sc f V], k' as [sc' f' V']. cbn in *. subst. f_equal. apply proof_irrel.
Qed.

Lemma decode_entry_written (e : AiCacheEntry Value) :
  valid_response (entry_response e) -> decode_entry (concat (json_writes (entry_response e))) = Some e.
Proof.
  intros HV. unfold decode_entry, response_from_slice. rewrite response_roundtrip. cbn [mbind option_bind].
  rewrite HV. cbn [mbind option_bind]. by rewrite entry_new_ok.
Qed.

Lemma time_floor m t : rm_now m * 1000000 <= t -> rm_now m <= t / 1000000.
Proof. intros Ht. apply Z.div_le_lower_bound; lia. Qed.
Lemma deadline_floor now secs t : (t / 1000000 <? now + secs * 1000) = (t <? now * 1000000 + from_secs secs).
Proof.
  unfold from_secs. pose proof (Z.mul_div_le t 1000000). pose proof (Z.mul_succ_div_gt t 1000000).
  destruct (Z.ltb_spec (t / 1000000) (now + secs * 1000)), (Z.ltb_spec t (now * 1000000 + secs * 1000000000)); [done | lia | lia | done].
Qed.

Lemma redis_get_server m k s : snd (redis_cache_get m k s) = s.
Proof. apply get_json_bounded_server. Qed.

(** The cases of a write: nothing happened, or the entry was set. *)
Lemma redis_put_cases m k e ttl s :
  (is_ok (fst (redis_cache_put m k e ttl s)) = false /\ snd (redis_cache_put m k e ttl s) = s) \/
  exists secs, ttl_seconds ttl = Ok secs /\
    (List.length (concat (json_writes (entry_response e))) <= rc_max_entry_bytes c)%nat /\
    snd (redis_cache_put m k e ttl s) = kv_set_ex (rm_now m) (redis_cache_key c k) (concat (json_writes (entry_response e))) secs s.
Proof.
  unfold redis_cache_put. destruct (ttl_seconds ttl) as [secs|]; [|by left]. unfold set_json_bounded, store_ex.
  destruct (validate_ttl_seconds secs) as [u|x]; [|left; by destruct x]. unfold encode_json_bounded.
  rewrite (proj1 (to_vec_bounded_facts (entry_response e) (rc_max_entry_bytes c))).
  destruct (Nat.leb_spec (List.length (concat (json_writes (entry_response e)))) (rc_max_entry_bytes c)); [|by left].
  destruct (json_fails (entry_response e)); [by left|].
  destruct (rm_delivery m); [right; by exists secs | right; by exists secs | by left].
Qed.

Lemma redis_live_set m k (e : AiCacheEntry Value) secs s t k' :
  valid_response (entry_response e) -> rm_now m * 1000000 <= t ->
  redis_live t k' (kv_set_ex (rm_now m) (redis_cache_key c k) (concat (json_writes (entry_response e))) secs s) =
  if decide (k' = k) then (if t <? rm_now m * 1000000 + from_secs secs then Some e else None) else redis_live t k' s.
Proof.
  intros HV Ht. unfold redis_live. rewrite set_ex_get by (by apply time_floor). destruct (decide (k' = k)) as [->|Hk].
  - rewrite decide_True by done. rewrite deadline_floor. destruct (_ <? _); [|done]. by apply decode_entry_written.
  - rewrite decide_False; [done|]. intros HE. by apply Hk, redis_cache_key_inj.
Qed.
Lemma redis_live_del m k s t k' :
  rm_now m * 1000000 <= t ->
  redis_live t k' (kv_del (rm_now m) (redis_cache_key c k) s) = if decide (k' = k) then None else redis_live t k' s.
Proof.
  intros Ht. unfold redis_live. rewrite del_get by (by apply time_floor). destruct (decide (k' = k)) as [->|Hk].
  - by rewrite decide_True.
  - rewrite decide_False; [done|]. intros HE. by apply Hk, redis_cache_key_inj.
Qed.

Lemma ttl_seconds_bounds ttl secs : ttl_seconds ttl = Ok secs -> 0 < ttl -> ttl <= from_secs secs < ttl + from_secs 1.
Proof.
  unfold ttl_seconds, saturating_add, as_secs, subsec_nanos, from_secs. destruct (ttl =? 0); [done|].
  destruct (Z.ltb_spec MAX_CACHE_TTL ttl) as [|HM]; [done|]. intros [= <-] HT.
  assert (MAX_CACHE_TTL = 86400000000000) as HC by reflexivity. rewrite HC in HM.
  pose proof (Z.div_mod ttl 1000000000). pose proof (Z.mod_pos_bound ttl 1000000000).
  unfold u64_max. destruct (Z.eqb_spec (ttl mod 1000000000) 0); lia.
Qed.

(** An answered read. *)
Lemma redis_get_answered m k s :
  rm_delivery m = Answered -> only_entries (rm_now m * 1000000) s ->
  fst (redis_cache_get m k s) = Ok (redis_live (rm_now m * 1000000) k s).
Proof.
  intros HD HO. unfold redis_cache_get. rewrite HD. cbn [fst]. rewrite get_json_bounded_answered by apply max_fits.
  unfold redis_live. specialize (HO (rm_now m * 1000000) k). rewrite Z.div_mul in * by done.
  destruct (kv_get _ _ _) as [v|]; [|done]. destruct (HO v ltac:(lia) eq_refl) as (e & HE & HL).
  rewrite (proj2 (Nat.ltb_ge _ _)) by done. cbn [mbind option_bind]. rewrite HE. revert HE. unfold decode_entry.
  destruct (response_from_slice v) as [r|]; [|done]. cbn. destruct (entry_new r); [|done]. by intros [= ->].
Qed.

Lemma redis_get_fails m k s : rm_delivery m <> Answered -> is_ok (fst (redis_cache_get m k s)) = false.
Proof.
  intros HD. unfold redis_cache_get, get_json_bounded, run_bounded.
  rewrite (proj2 (Z.ltb_ge _ _)) by apply max_fits. by destruct (rm_delivery m).
Qed.

Lemma only_entries_set m k e secs s :
  valid_response (entry_response e) -> (List.length (concat (json_writes (entry_response e))) <= rc_max_entry_bytes c)%nat ->
  only_entries (rm_now m * 1000000) s ->
  only_entries (rm_now m * 1000000)
    (kv_set_ex (rm_now m) (redis_cache_key c k) (concat (json_writes (entry_response e))) secs s).
Proof.
  intros HV HL HO t k' v Ht. rewrite set_ex_get by (by apply time_floor).
  destruct (decide (_ = _)) as [HE|_]; [|by apply HO]. destruct (_ <? _); [|done]. intros [= <-].
  exists e. split; [by apply decode_entry_written | done].
Qed.
Lemma only_entries_del m k s :
  only_entries (rm_now m * 1000000) s -> only_entries (rm_now m * 1000000) (kv_del (rm_now m) (redis_cache_key c k) s).
Proof.
  intros HO t k' v Ht. rewrite del_get by (by apply time_floor). destruct (decide (_ = _)); [done|]. by apply HO.
Qed.

Lemma redis_invalidate_cases m k s :
  (is_ok (fst (redis_cache_invalidate m k s)) = false /\ snd (redis_cache_invalidate m k s) = s) \/
  snd (redis_cache_invalidate m k s) = kv_del (rm_now m) (redis_cache_key c k) s.
Proof. unfold redis_cache_invalidate, cache_delete. destruct (rm_delivery m); cbn; auto. Qed.

#[export] Instance redis_cache_laws : ResponseCacheLaws RedisAiResponseCacheError.
Proof.
  split; cbn [CacheState Moment live retention store_ok responsive cache_time cache_get cache_put cache_invalidate redis_cache redis_view].
  - intros ttl HT. destruct (ttl_seconds ttl) as [secs|] eqn:HS; [by apply ttl_seconds_bounds | unfold from_secs; lia].
  - intros t t' k s e Ht. unfold redis_live. destruct (kv_get (t' / 1000000) _ s) as [v|] eqn:HV; [|done].
    apply (get_expires (t / 1000000)) in HV; [by rewrite HV | by apply Z.div_le_mono].
  - intros t t' s Ht HO t2 k v Ht2. apply HO. lia.
  - intros m k s o HO HG. assert (rm_delivery m = Answered \/ rm_delivery m <> Answered) as [HD|HD] by (destruct (rm_delivery m); auto).
    + rewrite redis_get_answered in HG by done. by injection HG.
    + apply redis_get_fails with (k := k) (s := s) in HD. by rewrite HG in HD.
  - intros m k s HO HR. rewrite redis_get_answered; [done | by destruct (rm_delivery m) | done].
  - intros m k s t k' Ht. by rewrite redis_get_server.
  - intros m k e ttl s t k' HV Ht. destruct (redis_put_cases m k e ttl s) as [[_ ->]|(secs & -> & _ & ->)]; [by left|].
    rewrite redis_live_set by done. destruct (decide (k' = k)); [by right | by left].
  - intros m k e ttl s t HV Ht HK.
    destruct (redis_put_cases m k e ttl s) as [[HN _]|(secs & -> & _ & ->)]; [by rewrite HK in HN|].
    rewrite redis_live_set by done. by rewrite decide_True.
  - intros m k s t k' Ht. destruct (redis_invalidate_cases m k s) as [[_ ->]| ->]; [by left|].
    rewrite redis_live_del by done. destruct (decide (k' = k)); [by right | by left].
  - intros m k s t Ht HK. destruct (redis_invalidate_cases m k s) as [[HN _]| ->]; [by rewrite HK in HN|].
    rewrite redis_live_del by done. by rewrite decide_True.
  - intros m k s. by rewrite redis_get_server.
  - intros m k e ttl s HV HO. destruct (redis_put_cases m k e ttl s) as [[_ ->]|(secs & _ & HL & ->)]; [done|].
    by apply only_entries_set.
  - intros m k s HO. destruct (redis_invalidate_cases m k s) as [[_ ->]| ->]; [done | by apply only_entries_del].
Qed.
End redis.
