(* ===== verification/AiCacheSystem.v ===== *)
(** Callers that share one cache of AI responses: completions and invalidations are started,
    answered one call at a time and abandoned anywhere, over any store that keeps
    [ResponseCacheLaws]. *)

From Stdlib Require Import ZArith Lia Bool Ascii.
From stdpp Require Import gmap.
From S2P Require Import Prelude Strings Json RedisCache Effects AiProtocol AiTables AiPipeline AiCache.

Local Open Scope Z_scope.

Section system.
Context {Value EE CE : Type} `{CacheLaws : ResponseCacheLaws Value CE}.
Context (config : AiCacheConfig).
Notation cached_result := (result (AiCachedResponse Value) (AiCachedCompletionError EE CE)).
Notation cache_call := (cache_call Value EE CE).

(** ** Callers *)

Inductive client : Type :=
| Complete (q : ChatRequest Value) (k : AiCacheKey)
| Invalidate (k : AiCacheKey).
Inductive outcome : Type := CompleteDone (r : cached_result) | InvalidateDone (r : result unit CE).
Definition client_prog (c : client) : program cache_call outcome :=
  match c with
  | Complete q k => r ← cached_complete config q k; Ret (CompleteDone r)
  | Invalidate k => r ← cached_invalidate k; Ret (InvalidateDone r)
  end.

(** ** The shared store, and the calls that were answered *)

Inductive event : Type :=
| Got (k : AiCacheKey) (x : result (option (AiCacheEntry Value)) CE)
| Put (k : AiCacheKey) (e : AiCacheEntry Value) (ttl : Duration) (x : result unit CE)
| Invalidated (k : AiCacheKey) (x : result unit CE)
| Ran (q : ChatRequest Value) (x : result (ChatResponse Value) EE).
Record stamped : Type := { by_caller : nat; at_time : Z; happened : event }.
Record CacheWorld : Type := { cw_store : CacheState; cw_now : Z; cw_log : list stamped }.

Definition did (i : nat) (log : list stamped) : list event :=
  omap (fun x => if decide (by_caller x = i) then Some (happened x) else None) log.

(** Calls to the store are answered at a moment of the present; the executor's answers are
    arbitrary. *)
Definition cache_answered (i : nat) {X} (c : cache_call X) : CacheWorld -> X -> CacheWorld -> Prop :=
  match c in AiCache.cache_call _ _ _ X return CacheWorld -> X -> CacheWorld -> Prop with
  | CacheGet k => fun w x w' => exists m, cache_time m = cw_now w /\
      x = fst (cache_get m k (cw_store w)) /\
      w' = {| cw_store := snd (cache_get m k (cw_store w)); cw_now := cw_now w;
              cw_log := cw_log w ++ [{| by_caller := i; at_time := cw_now w; happened := Got k x |}] |}
  | CachePut k e ttl => fun w x w' => exists m, cache_time m = cw_now w /\
      x = fst (cache_put m k e ttl (cw_store w)) /\
      w' = {| cw_store := snd (cache_put m k e ttl (cw_store w)); cw_now := cw_now w;
              cw_log := cw_log w ++ [{| by_caller := i; at_time := cw_now w; happened := Put k e ttl x |}] |}
  | CacheInvalidate k => fun w x w' => exists m, cache_time m = cw_now w /\
      x = fst (cache_invalidate m k (cw_store w)) /\
      w' = {| cw_store := snd (cache_invalidate m k (cw_store w)); cw_now := cw_now w;
              cw_log := cw_log w ++ [{| by_caller := i; at_time := cw_now w; happened := Invalidated k x |}] |}
  | CompleteForCache q => fun w x w' =>
      (forall r, x = Ok r -> valid_response r) /\
      w' = {| cw_store := cw_store w; cw_now := cw_now w;
              cw_log := cw_log w ++ [{| by_caller := i; at_time := cw_now w; happened := Ran q x |}] |}
  end.

Definition time_passes (w w' : CacheWorld) : Prop :=
  cw_store w' = cw_store w /\ cw_log w' = cw_log w /\ cw_now w <= cw_now w'.

Notation State := (Effects.system (call := cache_call) CacheWorld client outcome).
Definition step : State -> State -> Prop :=
  Effects.step client_prog (fun i _ X => @cache_answered i X) time_passes.
(** A store in which nothing is live. *)
Definition initial (s : State) : Prop :=
  callers s = [] /\ cw_log (world s) = [] /\ store_ok (cw_now (world s)) (cw_store (world s)) /\
  forall t k, cw_now (world s) <= t -> live t k (cw_store (world s)) = None.
Definition reachable (s : State) : Prop := exists s0, initial s0 /\ rtc step s0 s.

(** ** What callers do *)

(** The calls of a completion with their answers, and what it returns. *)
Definition ran (q : ChatRequest Value) (status : AiCacheStatus) (x : result (ChatResponse Value) EE) : cached_result :=
  match x with
  | Ok r => Ok {| cached_response := r; cache_status := status |}
  | Err e => Err (CachedExecutor e)
  end.
Inductive completed (q : ChatRequest Value) (k : AiCacheKey) : cached_result -> list event -> Prop :=
| completed_ineligible e x :
    request_eligibility q = Err e -> completed q k (ran q BypassedIneligibleRequest x) [Ran q x]
| completed_hit e :
    request_eligibility q = Ok tt ->
    completed q k (Ok {| cached_response := entry_response e; cache_status := Hit |}) [Got k (Ok (Some e))]
| completed_closed e :
    request_eligibility q = Ok tt -> read_failure_policy config = FailClosed ->
    completed q k (Err (CacheRead e)) [Got k (Err e)]
| completed_bypass e x :
    request_eligibility q = Ok tt -> read_failure_policy config = Bypass ->
    completed q k (ran q BypassedReadFailure x) [Got k (Err e); Ran q x]
| completed_failed e :
    request_eligibility q = Ok tt -> completed q k (Err (CachedExecutor e)) [Got k (Ok None); Ran q (Err e)]
| completed_tool_calls r :
    request_eligibility q = Ok tt -> no_tool_calls r = false ->
    completed q k (Ok {| cached_response := r; cache_status := MissIneligibleResponse |}) [Got k (Ok None); Ran q (Ok r)]
| completed_put e x :
    request_eligibility q = Ok tt ->
    completed q k (Ok {| cached_response := entry_response e; cache_status := if is_ok x then MissStored else MissStoreFailed |})
      [Got k (Ok None); Ran q (Ok (entry_response e)); Put k e (cache_ttl config) x].

(** What a caller may have done so far: it stores only what it ran itself, for a request
    that can be cached. *)
Definition put_was_run (es : list event) : Prop :=
  forall es1 k e ttl x es2, es = es1 ++ Put k e ttl x :: es2 ->
    ttl = cache_ttl config /\ exists q, request_eligibility q = Ok tt /\ Ran q (Ok (entry_response e)) ∈ es1.

(** An event that settles what is live for a key. *)
Definition settles (k : AiCacheKey) (x : stamped) : bool :=
  match happened x with
  | Put k' _ _ (Ok _) | Invalidated k' (Ok _) => bool_decide (k' = k)
  | _ => false
  end.
(** An event that may have changed it. *)
Definition touches (k : AiCacheKey) (x : stamped) : bool :=
  match happened x with
  | Put k' _ _ _ | Invalidated k' _ => bool_decide (k' = k)
  | _ => false
  end.

(** The entry was put by a caller that ran it, within its retention and with nothing settled
    since. *)
Definition explained (t : Z) (k : AiCacheKey) (e : AiCacheEntry Value) (log : list stamped) : Prop :=
  exists log1 j t0 x log2 q t1,
    log = log1 ++ {| by_caller := j; at_time := t0; happened := Put k e (cache_ttl config) x |} :: log2 /\
    {| by_caller := j; at_time := t1; happened := Ran q (Ok (entry_response e)) |} ∈ log1 /\
    request_eligibility q = Ok tt /\
    t < t0 + retention (cache_ttl config) /\ Forall (fun y => settles k y = false) log2.

Record cache_inv (w : CacheWorld) : Prop := {
  ci_ok : store_ok (cw_now w) (cw_store w);
  ci_puts : forall i, put_was_run (did i (cw_log w));
  ci_explained : forall t k e, cw_now w <= t -> live t k (cw_store w) = Some e -> explained t k e (cw_log w);
  ci_live : forall log1 j t0 k e log2 t,
    cw_log w = log1 ++ {| by_caller := j; at_time := t0; happened := Put k e (cache_ttl config) (Ok tt) |} :: log2 ->
    Forall (fun y => touches k y = false) log2 -> cw_now w <= t ->
    live t k (cw_store w) = if t <? t0 + retention (cache_ttl config) then Some e else None;
  ci_hits : forall log1 i t k e log2,
    cw_log w = log1 ++ {| by_caller := i; at_time := t; happened := Got k (Ok (Some e)) |} :: log2 -> explained t k e log1;
  ci_valid : forall i q r, Ran q (Ok r) ∈ did i (cw_log w) -> valid_response r
}.

(** ** Lemmas: what one call does *)

Definition event_of {X} (c : cache_call X) : X -> event :=
  match c in AiCache.cache_call _ _ _ X return X -> event with
  | CacheGet k => Got k
  | CachePut k e ttl => Put k e ttl
  | CacheInvalidate k => Invalidated k
  | CompleteForCache q => Ran q
  end.
Definition stamp (i : nat) (w : CacheWorld) (e : event) : stamped :=
  {| by_caller := i; at_time := cw_now w; happened := e |}.

(** A call to the store, seen through what is live before and after. *)
Record effect (y : stamped) (s s' : CacheState) : Prop := {
  ef_ok : store_ok (at_time y) s -> store_ok (at_time y) s';
  ef_from t k e : at_time y <= t -> live t k s' = Some e ->
    (live t k s = Some e /\ settles k y = false) \/
    exists ttl x, happened y = Put k e ttl x /\ t < at_time y + retention ttl;
  ef_untouched t k : at_time y <= t -> touches k y = false -> live t k s' = live t k s;
  ef_stored k e ttl t : happened y = Put k e ttl (Ok tt) -> at_time y <= t ->
    live t k s' = if t <? at_time y + retention ttl then Some e else None;
  ef_hit k e : store_ok (at_time y) s -> happened y = Got k (Ok (Some e)) -> live (at_time y) k s = Some e
}.

Definition storable {X} (c : cache_call X) : Prop :=
  match c with CachePut _ e _ => valid_response (entry_response e) | _ => True end.

Lemma get_effect i m k s :
  effect {| by_caller := i; at_time := cache_time m; happened := Got k (fst (cache_get m k s)) |} s (snd (cache_get m k s)).
Proof.
  split; cbn [at_time happened]; [apply get_ok | | | done |].
  - intros t k' e Ht. rewrite get_keeps by done. by left.
  - intros t k' Ht _. by apply get_keeps.
  - intros k' e HO [= <- HG]. symmetry. by apply get_live.
Qed.
Lemma put_effect i m k e ttl s :
  valid_response (entry_response e) ->
  effect {| by_caller := i; at_time := cache_time m; happened := Put k e ttl (fst (cache_put m k e ttl s)) |}
    s (snd (cache_put m k e ttl s)).
Proof.
  intros HV. split; cbn [at_time happened]; [by apply put_ok | | | |done].
  - intros t k' e' Ht HL. destruct (fst (cache_put m k e ttl s)) as [[]|x] eqn:HF.
    + destruct (decide (k' = k)) as [->|Hk].
      * rewrite put_stored in HL by done. destruct (Z.ltb_spec t (cache_time m + retention ttl)); [|done].
        injection HL as <-. right. by exists ttl, (Ok tt).
      * destruct (put_live m k e ttl s t k' HV Ht) as [HE|[? _]]; [|done]. left. rewrite <- HE. split; [done|].
        unfold settles. cbn. by rewrite bool_decide_eq_false_2.
    + destruct (put_live m k e ttl s t k' HV Ht) as [HE|[-> HE]]; [left; by rewrite <- HE|].
      rewrite HE in HL. destruct (Z.ltb_spec t (cache_time m + retention ttl)); [|done]. injection HL as <-.
      right. by exists ttl, (Err x).
  - intros t k' Ht HT. destruct (put_live m k e ttl s t k' HV Ht) as [HE|[-> _]]; [done|].
    unfold touches in HT. cbn in HT. by rewrite bool_decide_eq_true_2 in HT.
  - intros k' e' ttl' t [= <- <- <- HF] Ht. by apply put_stored.
Qed.
Lemma invalidate_effect i m k s :
  effect {| by_caller := i; at_time := cache_time m; happened := Invalidated k (fst (cache_invalidate m k s)) |}
    s (snd (cache_invalidate m k s)).
Proof.
  split; cbn [at_time happened]; [apply invalidate_ok | | | done | done].
  - intros t k' e Ht HL. left. destruct (invalidate_live m k s t k' Ht) as [HE|[_ HE]]; [|by rewrite HE in HL].
    split; [by rewrite <- HE|]. unfold settles. cbn. destruct (fst (cache_invalidate m k s)) as [[]|] eqn:HF; [|done].
    apply bool_decide_eq_false. intros <-. by rewrite invalidate_done in HL.
  - intros t k' Ht HT. destruct (invalidate_live m k s t k' Ht) as [HE|[-> _]]; [done|].
    unfold touches in HT. cbn in HT. by rewrite bool_decide_eq_true_2 in HT.
Qed.

Lemma answered_effect i X (c : cache_call X) w x w' :
  cache_answered i c w x w' -> storable c ->
  effect (stamp i w (event_of c x)) (cw_store w) (cw_store w') /\ cw_now w' = cw_now w /\
  cw_log w' = cw_log w ++ [stamp i w (event_of c x)] /\ (forall q r, event_of c x = Ran q (Ok r) -> valid_response r).
Proof.
  unfold stamp. destruct c; cbn [cache_answered event_of storable].
  - intros (m & <- & -> & ->) _. split; [apply get_effect | done].
  - intros (m & <- & -> & ->) HV. split; [by apply put_effect | done].
  - intros (m & <- & -> & ->) _. split; [apply invalidate_effect | done].
  - intros [HX ->] _. split_and!; [by split; try done; left | done | done |]. intros q' r [= <- ->]. by apply HX.
Qed.

(** ** Lemmas: the log *)

Lemma cache_did_app i l l' : did i (l ++ l') = did i l ++ did i l'.
Proof. apply omap_app. Qed.
Lemma cache_did_own i w e : did i [stamp i w e] = [e].
Proof. unfold did. cbn. by rewrite decide_True. Qed.
Lemma cache_did_other i j w e : i <> j -> did j [stamp i w e] = [].
Proof. intros Hij. unfold did. cbn. by rewrite decide_False. Qed.
Lemma cache_did_elem i e log : e ∈ did i log -> exists t, {| by_caller := i; at_time := t; happened := e |} ∈ log.
Proof.
  unfold did. rewrite list_elem_of_omap. intros ([j t e'] & Hin & HE). cbn in HE.
  destruct (decide (j = i)) as [->|]; [|done]. injection HE as ->. by exists t.
Qed.

Lemma snoc_split {A} (l : list A) y l1 z l2 :
  l ++ [y] = l1 ++ z :: l2 -> (l2 = [] /\ y = z /\ l = l1) \/ exists l2', l2 = l2' ++ [y] /\ l = l1 ++ z :: l2'.
Proof.
  destruct l2 as [|x l2' _] using rev_ind.
  - intros [-> ->]%app_inj_tail. by left.
  - rewrite app_comm_cons, app_assoc. intros [-> ->]%app_inj_tail. right. by exists l2'.
Qed.

Lemma explained_snoc t k e log y : explained t k e log -> settles k y = false -> explained t k e (log ++ [y]).
Proof.
  intros (log1 & j & t0 & x & log2 & q & t1 & -> & HR & HQ & HT & HS) Hy.
  exists log1, j, t0, x, (log2 ++ [y]), q, t1. split_and!; [by rewrite <- app_assoc | done | done | done |].
  apply Forall_app. split; [done|]. by constructor.
Qed.

Definition may_put {X} (c : cache_call X) (es : list event) : Prop :=
  match c with
  | CachePut _ e ttl => ttl = cache_ttl config /\ exists q, request_eligibility q = Ok tt /\ Ran q (Ok (entry_response e)) ∈ es
  | _ => True
  end.

Lemma put_was_run_snoc X (c : cache_call X) x es :
  put_was_run es -> may_put c es -> put_was_run (es ++ [event_of c x]).
Proof.
  intros HP HM es1 k e ttl y es2 [(-> & HE & ->)|(es2' & -> & ->)]%snoc_split; [|by eapply HP].
  destruct c; try done. cbn in HE. by injection HE as -> -> -> _.
Qed.

(** ** Lemmas: the calls keep the invariant *)

Lemma call_keeps_inv i X (c : cache_call X) w x w' :
  cache_inv w -> may_put c (did i (cw_log w)) -> cache_answered i c w x w' -> cache_inv w'.
Proof.
  intros [HO HP HE HL HH HV] HM HA.
  assert (HS : storable c).
  { destruct c; try done. destruct HM as (_ & q & _ & HQ). by eapply HV. }
  destruct (answered_effect i X c w x w' HA HS) as ([F1 F2 F3 F4 F5] & HN & HLog & HX).
  assert (HP' : forall j, put_was_run (did j (cw_log w'))).
  { intros j. rewrite HLog, cache_did_app. destruct (decide (i = j)) as [<-|Hij].
    - rewrite cache_did_own. by apply put_was_run_snoc.
    - by rewrite (cache_did_other i j), app_nil_r. }
  cbn [stamp at_time happened] in *. split; [by rewrite HN; apply F1 | done | ..]; rewrite ?HN, ?HLog.
  - intros t k e Ht HF. destruct (F2 t k e Ht HF) as [[HF' Hy]|(ttl & y & Hy & Hr)].
    + apply explained_snoc; [by apply HE | done].
    + assert (HI : did i (cw_log w') = did i (cw_log w) ++ Put k e ttl y :: []) by (by rewrite HLog, cache_did_app, cache_did_own, Hy).
      destruct (HP' i _ _ _ _ _ _ HI) as (-> & q & HQ & [t1 HR]%cache_did_elem).
      exists (cw_log w), i, (cw_now w), y, [], q, t1. rewrite <- Hy. split_and!; [done | done | done | done | constructor].
  - intros log1 j t0 k e log2 t [(-> & Hy & _)|(log2' & -> & HW)]%snoc_split HT Ht.
    + injection Hy as -> <- Hy. by eapply F4.
    + apply Forall_app in HT as [HT [Hy _]%Forall_cons]. rewrite F3 by done. by eapply HL.
  - intros log1 j t k e log2 [(-> & Hy & <-)|(log2' & -> & HW)]%snoc_split; [|by eapply HH].
    injection Hy as -> <- Hy. apply HE; [done|]. by apply F5.
  - intros j q r. rewrite cache_did_app. intros [Hr|Hr]%elem_of_app; [by eapply HV|].
    destruct (decide (i = j)) as [<-|Hij]; [|rewrite (cache_did_other i j) in Hr by done; by apply not_elem_of_nil in Hr].
    rewrite cache_did_own in Hr. apply list_elem_of_singleton in Hr. by eapply HX.
Qed.

Lemma time_keeps_inv w w' : cache_inv w -> time_passes w w' -> cache_inv w'.
Proof.
  intros [HO HP HE HL HH HV] (HS & HLog & HT). split; rewrite ?HS, ?HLog; try done.
  - by eapply ok_later.
  - intros t k e Ht. apply HE. lia.
  - intros log1 j t0 k e log2 t HW HF Ht. eapply HL; [done | done | lia].
Qed.

Lemma cache_initial_inv (s : State) : initial s -> cache_inv (world s).
Proof.
  intros (_ & HLog & HO & HN). split; rewrite ?HLog; try done.
  - intros i es1 k e ttl x es2 HE. by destruct es1.
  - intros t k e Ht HF. by rewrite HN in HF.
  - intros log1 j t0 k e log2 t HE. by destruct log1.
  - intros log1 i t k e log2 HE. by destruct log1.
  - intros i q r Hr. by apply not_elem_of_nil in Hr.
Qed.

(** ** The programs *)

Definition cache_rely (i : nat) (w w' : CacheWorld) : Prop :=
  cw_log w `prefix_of` cw_log w' /\ did i (cw_log w') = did i (cw_log w).
Definition cache_guarantee (w w' : CacheWorld) : Prop := cw_log w `prefix_of` cw_log w'.
#[local] Instance cache_rely_preorder i : PreOrder (cache_rely i).
Proof. split; [by split|]. intros w1 w2 w3 [HP HD] [HP' HD']. split; [by etrans | by rewrite HD']. Qed.

Notation cwp i := (wp (cache_rely i) (fun X => @cache_answered i X) cache_inv cache_guarantee).

Lemma wp_cache_call {A X} i (c : cache_call X) (f : X -> program cache_call A) es Q w :
  did i (cw_log w) = es -> may_put c es ->
  (forall x w', did i (cw_log w') = es ++ [event_of c x] -> cwp i (f x) Q w') ->
  cwp i (ask c ≫= f) Q w.
Proof.
  intros Hw HM Hf. apply wp_ask. intros w1 [HP HD] HI x w2 HA. rewrite Hw in HD.
  assert (HI' : cache_inv w2) by (eapply call_keeps_inv; [done | by rewrite HD | done]).
  assert (HS : storable c).
  { destruct c; try done. destruct HM as (_ & q & _ & HQ). eapply (ci_valid w1 HI i). by rewrite HD. }
  destruct (answered_effect i X c w1 x w2 HA HS) as (_ & _ & HLog & _).
  split_and!; [unfold cache_guarantee; rewrite HLog; by apply prefix_app_r | done |].
  apply Hf. by rewrite HLog, cache_did_app, cache_did_own, HD.
Qed.

Lemma wp_run {A} i q (f : result (ChatResponse Value) EE -> program cache_call A) es Q w :
  did i (cw_log w) = es -> (forall x w', did i (cw_log w') = es ++ [Ran q x] -> cwp i (f x) Q w') ->
  cwp i (ask (CompleteForCache q) ≫= f) Q w.
Proof. intros Hw Hf. by apply (wp_cache_call i (CompleteForCache q) f es). Qed.

Lemma wp_without_cache i q status es (Q : cached_result -> CacheWorld -> Prop) w :
  did i (cw_log w) = es ->
  (forall x w', did i (cw_log w') = es ++ [Ran q x] -> Q (ran q status x) w') ->
  cwp i (r ← complete_without_cache q status; Ret (map_err CachedExecutor r)) Q w.
Proof.
  intros Hw HQ. apply wp_bind. unfold complete_without_cache, try_. apply (wp_run i q _ es); [done|].
  intros [r|e] w' Hw'; apply wp_ret, wp_ret; [exact (HQ (Ok r) w' Hw') | exact (HQ (Err e) w' Hw')].
Qed.

Lemma wp_on_miss i q k es w :
  did i (cw_log w) = es -> es = [Got k (Ok None)] -> request_eligibility q = Ok tt ->
  cwp i (complete_on_miss config q k) (fun r w' => completed q k r (did i (cw_log w'))) w.
Proof.
  intros Hw -> HQ. unfold complete_on_miss, try_. apply (wp_run i q _ _ _ _ Hw).
  intros [r|e] w1 Hw1; [|apply wp_ret; rewrite Hw1; by constructor].
  destruct (entry_new r) as [entry|error] eqn:HE.
  - apply entry_new_response in HE as <-. eapply (wp_cache_call i (CachePut k entry (cache_ttl config))); [exact Hw1 | |].
    + split; [done|]. exists q. split; [done|]. by right; left.
    + intros x w2 Hw2. apply wp_ret. rewrite Hw2. by constructor.
  - assert (error = ResponseContainsToolCalls /\ no_tool_calls r = false) as [-> HT].
    { revert HE. unfold entry_new. generalize (eq_refl (no_tool_calls r)). generalize (no_tool_calls r) at 2 3.
      intros [|] HT; [done|]. by intros [= <-]. }
    apply wp_ret. rewrite Hw1. by constructor.
Qed.

Lemma wp_cached_complete i q k w :
  did i (cw_log w) = [] -> cwp i (cached_complete config q k) (fun r w' => completed q k r (did i (cw_log w'))) w.
Proof.
  intros Hw. unfold cached_complete. destruct (request_eligibility q) as [[]|e] eqn:HQ.
  - eapply (wp_cache_call i (CacheGet k)); [exact Hw | done|]. intros [[entry|]|e] w1 Hw1.
    + apply wp_ret. rewrite Hw1. by constructor.
    + by eapply wp_on_miss.
    + destruct (read_failure_policy config) eqn:HF; [apply wp_ret; rewrite Hw1; by constructor|].
      eapply wp_without_cache; [exact Hw1|]. intros x w2 ->. by constructor.
  - eapply wp_without_cache; [exact Hw|]. intros x w1 ->. by eapply completed_ineligible.
Qed.

Definition client_post (c : client) (i : nat) (o : outcome) (w : CacheWorld) : Prop :=
  match c, o with
  | Complete q k, CompleteDone r => completed q k r (did i (cw_log w))
  | Invalidate k, InvalidateDone r => did i (cw_log w) = [Invalidated k r]
  | _, _ => False
  end.

#[local] Instance cache_system : SystemLaws client_prog (fun i _ X => @cache_answered i X) time_passes
  cache_inv cache_guarantee cache_rely (fun i w => did i (cw_log w) = []) client_post.
Proof.
  split.
  - intros i [q k|k] w Hw _; cbn [client_prog].
    + apply wp_bind. eapply wp_mono; [|by apply wp_cached_complete]. done.
    + apply wp_bind. apply (wp_cache_call i (CacheInvalidate k) _ _ _ _ Hw); [done|]. intros x w' Hw'. by do 2 apply wp_ret.
  - intros i j c X f w x w' Hij HA HG. split; [done|].
    assert (HLog : cw_log w' = cw_log w ++ [stamp i w (event_of f x)]).
    { destruct f; cbn in HA; [destruct HA as (m & _ & _ & ->).. | destruct HA as [_ ->]]; done. }
    by rewrite HLog, cache_did_app, (cache_did_other i j), app_nil_r.
  - intros i w w' [_ ->]. done.
  - intros w w' HI HT. split_and!; [by eapply time_keeps_inv | ..]; destruct HT as (_ & HLog & _).
    + unfold cache_guarantee. by rewrite HLog.
    + intros i. split; by rewrite HLog.
Qed.

Lemma cache_reached_inv s :
  reachable s -> system_inv (fun i _ X => @cache_answered i X) cache_inv cache_guarantee cache_rely
    (fun i w => did i (cw_log w) = []) client_post s.
Proof.
  intros (s0 & H0 & HS). refine (steps_keep_inv client_prog _ time_passes _ _ _ _ _ _ _ _ HS). pose proof (cache_initial_inv s0 H0) as HI.
  destruct H0 as (HC & HLog & _). split; [done | |].
  - intros j _. by rewrite HLog.
  - intros i th. by rewrite HC.
Qed.

Lemma completed_hit_read q k r es :
  completed q k (Ok {| cached_response := r; cache_status := Hit |}) es ->
  exists e, es = [Got k (Ok (Some e))] /\ entry_response e = r.
Proof.
  inversion 1; subst; try (match goal with H : ran _ _ ?x = _ |- _ => destruct x; discriminate H end).
  - by eexists.
  - match goal with H : (if is_ok ?x then _ else _) = _ |- _ => by destruct x end.
Qed.

(** ** Runs of one caller after another *)

Section runs.
Context (moment_of : Z -> option Moment) (run : ChatRequest Value -> result (ChatResponse Value) EE).
Context (moment_present : forall t m, moment_of t = Some m -> cache_time m = t).
Context (run_valid : forall q r, run q = Ok r -> valid_response r).

Definition logged {X} (c : cache_call X) (w : CacheWorld) (i : nat) (reply : X * CacheState) : X * CacheWorld :=
  (fst reply, {| cw_store := snd reply; cw_now := cw_now w; cw_log := cw_log w ++ [stamp i w (event_of c (fst reply))] |}).
Definition reply (i : nat) X (c : cache_call X) (w : CacheWorld) : option (X * CacheWorld) :=
  m ← moment_of (cw_now w);
  Some (match c in AiCache.cache_call _ _ _ X return X * CacheWorld with
        | CacheGet k => logged (CacheGet k) w i (cache_get m k (cw_store w))
        | CachePut k e ttl => logged (CachePut k e ttl) w i (cache_put m k e ttl (cw_store w))
        | CacheInvalidate k => logged (CacheInvalidate k) w i (cache_invalidate m k (cw_store w))
        | CompleteForCache q => logged (CompleteForCache q) w i (run q, cw_store w)
        end).

Lemma cache_reply_answers i X (c : cache_call X) w x w' : reply i X c w = Some (x, w') -> cache_answered i c w x w'.
Proof.
  intros (m & Hm%moment_present & HE)%bind_Some. destruct c; cbn in *; injection HE as <- <-.
  - by exists m.
  - by exists m.
  - by exists m.
  - split; [|done]. intros r. apply run_valid.
Qed.

(** A caller is started at a time and runs until it returns. *)
Definition run_at (c : client) (t : Z) (s : State) : option State :=
  let w := world s in
  if t <? cw_now w then None
  else run_client client_prog reply c
         {| world := {| cw_store := cw_store w; cw_now := t; cw_log := cw_log w |}; callers := callers s |}.

Lemma run_at_steps c t s s' : run_at c t s = Some s' -> rtc step s s'.
Proof.
  unfold run_at. destruct (Z.ltb_spec t (cw_now (world s))) as [|Ht]; [done|]. intros HX. eapply rtc_l.
  - apply (Effects.step_background _ _ _ s {| cw_store := cw_store (world s); cw_now := t; cw_log := cw_log (world s) |}). by split_and!.
  - eapply (run_client_steps client_prog (fun i _ X => @cache_answered i X) time_passes); [|exact HX].
    intros i X f w x w' HR. by apply cache_reply_answers.
Qed.
End runs.

(** ** Properties *)

(** C12: In every interleaving a completion makes the calls that its status says, in particular at
    most one to the executor and none for a hit or a refused read; and a response that was hit
    is one that a caller with the same key ran, for a request without tools, and put into the
    cache within the retention, with no later write or invalidation of the key completed in
    between. *)
Theorem cached_answers s i q k r :
  reachable s -> callers s !! i = Some {| th_client := Complete q k; th_rest := Ret (CompleteDone r) |} ->
  completed q k r (did i (cw_log (world s))) /\
  (forall response, r = Ok {| cached_response := response; cache_status := Hit |} ->
     exists log1 t log2 e, entry_response e = response /\ explained t k e log1 /\
       cw_log (world s) = log1 ++ {| by_caller := i; at_time := t; happened := Got k (Ok (Some e)) |} :: log2).
Proof.
  intros HR HC. pose proof (cache_reached_inv s HR) as HI.
  destruct (finished _ _ _ _ _ _ s i _ _ HI HC) as (w0 & [_ HD] & HP).
  cbn in HP. rewrite <- HD in HP. split; [done|]. intros response ->.
  apply completed_hit_read in HP as (e & HE & <-).
  destruct (cache_did_elem i (Got k (Ok (Some e))) (cw_log (world s))) as (t & Hin); [rewrite HE; by left|].
  apply list_elem_of_split in Hin as (log1 & log2 & HW). exists log1, t, log2, e. split_and!; [done | | done].
  by eapply (ci_hits _ (sys_inv _ _ _ _ _ _ _ HI)).
Qed.

(** A store that answers at a moment, and an executor. *)
Definition store_answer (m : Moment) (run : ChatRequest Value -> result (ChatResponse Value) EE) X (c : cache_call X) :
    CacheState -> X * CacheState :=
  match c in AiCache.cache_call _ _ _ X return CacheState -> X * CacheState with
  | CacheGet k => cache_get m k
  | CachePut k e ttl => cache_put m k e ttl
  | CacheInvalidate k => cache_invalidate m k
  | CompleteForCache q => fun s => (run q, s)
  end.

(** A response that was stored is the answer to every later completion with its key within
    the time to live, whatever callers do with other keys, when the store can be read and
    the request can be cached. *)
Theorem stored_is_served s log1 j t0 k e log2 q m run :
  reachable s -> 0 < cache_ttl config ->
  cw_log (world s) = log1 ++ {| by_caller := j; at_time := t0; happened := Put k e (cache_ttl config) (Ok tt) |} :: log2 ->
  Forall (fun y => touches k y = false) log2 -> cw_now (world s) < t0 + cache_ttl config ->
  request_eligibility q = Ok tt -> cache_time m = cw_now (world s) -> responsive m = true ->
  fst (exec (store_answer m run) (cached_complete config q k) (cw_store (world s))) =
    Ok {| cached_response := entry_response e; cache_status := Hit |}.
Proof.
  intros HR HT HW HF Hn HQ Hm Hr. pose proof (sys_inv _ _ _ _ _ _ _ (cache_reached_inv s HR)) as HI.
  pose proof (ci_live _ HI _ _ _ _ _ _ (cw_now (world s)) HW HF ltac:(lia)) as HL.
  rewrite (proj2 (Z.ltb_lt _ _)) in HL by (pose proof (retention_bounds (cache_ttl config) HT); lia).
  pose proof (ci_ok _ HI) as HO. rewrite <- Hm in HL, HO.
  pose proof (get_responsive m k _ HO Hr) as HG. unfold cached_complete. rewrite HQ. cbn.
  destruct (cache_get m k (cw_store (world s))) as [x s'] eqn:HE. cbn in HG. destruct x as [o|]; [|done].
  assert (o = Some e) as ->; [|done]. rewrite <- HL. apply get_live; [done|]. by rewrite HE.
Qed.
End system.

(** ** A model of the JSON, and two callers *)

Module AiCacheExamples.
Import RedisModel BitCodec.

Definition usage_parts (u : Usage) := (input_tokens u, output_tokens u).
Definition call_parts (c : ToolCall str) := (call_id c, call_name c, call_arguments c).
Definition response_parts (r : ChatResponse str) :=
  (resp_id r, resp_model r, resp_content r, map call_parts (resp_tool_calls r), usage_parts (resp_usage r)).
Definition of_call_parts '((i, n, a) : str * str * str) : ToolCall str :=
  {| call_id := i; call_name := n; call_arguments := a |}.
Definition of_response_parts '((i, m, c, l, (a, b)) : str * str * str * list (str * str * str) * (Z * Z)) : ChatResponse str :=
  {| resp_id := i; resp_model := m; resp_content := c; resp_tool_calls := map of_call_parts l;
     resp_usage := {| input_tokens := a; output_tokens := b |} |}.
Lemma response_parts_of r : of_response_parts (response_parts r) = r.
Proof.
  destruct r as [i m c l [a b]]. unfold response_parts, of_response_parts, usage_parts. cbn. f_equal.
  rewrite map_map. rewrite <- (map_id l) at 2. apply map_ext. by intros [].
Qed.

(** A response as one binary number. *)
#[export] Instance json : ResponseJson str := {|
  response_writer := {| json_writes r := [bits (encode (response_parts r))]; json_fails _ := false |};
  read_serialized_response b := of_response_parts <$> decode (of_bits b)
|}.
#[export] Instance json_laws : ResponseJsonLaws str.
Proof.
  intros r. unfold read_serialized_response. cbn [json json_writes response_writer]. cbn [concat].
  rewrite app_nil_r, of_bits_bits, decode_encode. change (Some (of_response_parts (response_parts r)) = Some r).
  by rewrite response_parts_of.
Qed.

Definition store : RedisAiResponseCache := {| rc_namespace := DEFAULT_CACHE_NAMESPACE; rc_max_entry_bytes := 4000 |}.
#[export] Instance store_limit : TCEq (valid_max_entry_bytes (rc_max_entry_bytes store)) true.
Proof. apply TCEq_eq. vm_compute. reflexivity. Qed.

Definition digest : str := repeat "a"%char 64.
Lemma key_checked : valid_scope ##"acme.v1" && valid_sha256_hex digest = true.
Proof. vm_compute. reflexivity. Defined.
Definition key : AiCacheKey := {| key_scope := ##"acme.v1"; key_fingerprint := digest; key_valid := key_checked |}.
Definition config : AiCacheConfig := {| cache_ttl := from_secs 60; read_failure_policy := FailClosed |}.
Definition question : ChatRequest str :=
  {| req_model := ##"m"; req_messages := [{| message_role := User; message_content := ##"2+2?" |}]; req_tools := []; req_tool_results := [] |}.
Definition answer : ChatResponse str :=
  {| resp_id := ##"1"; resp_model := ##"m"; resp_content := ##"4"; resp_tool_calls := []; resp_usage := usage_default |}.
Definition executor (q : ChatRequest str) : result (ChatResponse str) Empty_set := Ok answer.
Definition moment_at (t : Z) : option RedisMoment :=
  if t mod 1000000 =? 0 then Some {| rm_delivery := Answered; rm_now := t / 1000000 |} else None.
#[local] Existing Instance redis_cache.
#[local] Existing Instance redis_view.
#[local] Existing Instance redis_cache_laws.
#[local] Instance shared_store : AiResponseCache str RedisAiResponseCacheError := redis_cache store.
#[local] Instance shared_view : CacheView RedisAiResponseCacheError := redis_view store.
#[local] Instance shared_laws : ResponseCacheLaws RedisAiResponseCacheError := redis_cache_laws store.

Lemma moment_at_time t m : moment_at t = Some m -> cache_time m = t.
Proof.
  unfold moment_at. destruct (Z.eqb_spec (t mod 1000000) 0) as [HM|]; [|done]. intros [= <-]. cbn.
  pose proof (Z.div_mod t 1000000). lia.
Qed.
Lemma executor_valid q r : executor q = Ok r -> valid_response r.
Proof. intros [= <-]. reflexivity. Qed.

Notation StoreError := RedisAiResponseCacheError.
Notation World := (CacheWorld (Value := str) (EE := Empty_set) (CE := StoreError)).
Definition State : Type :=
  Effects.system (call := cache_call str Empty_set StoreError) World (client (Value := str)) (outcome (Value := str) (EE := Empty_set) (CE := StoreError)).
Definition no_values : KvServer := (∅ : server).
Lemma no_values_get t k : kv_get t k no_values = None.
Proof. change (RedisModel.get t k ∅ = None). unfold RedisModel.get. by rewrite lookup_empty. Qed.
Definition empty : State :=
  {| world := {| cw_store := no_values; cw_now := 0; cw_log := [] |}; callers := [] |}.
Lemma cache_empty_initial : initial empty.
Proof.
  split_and!; [done | done | |].
  - intros t k v _. change (cw_store (world empty)) with no_values. by rewrite no_values_get.
  - intros t k _. change (redis_live store t k no_values = None). unfold redis_live. by rewrite no_values_get.
Qed.

(** One caller asks, another asks the same half a minute later. *)
Definition asking : client := Complete question key.
Definition once : option State := run_at config moment_at executor asking 1000000000 empty.
Definition twice : option State := once ≫= run_at config moment_at executor asking 31000000000.
Definition answers (o : option State) := (fun s => th_rest <$> callers s) <$> o.

Definition stored : AiCacheEntry str := {| entry_response := answer; entry_eligible := eq_refl |}.
Definition by_first (e : event (Value := str) (EE := Empty_set) (CE := StoreError)) : stamped := {| by_caller := 0; at_time := 1000000000; happened := e |}.
Lemma once_log :
  (fun s => (cw_now (world s), cw_log (world s))) <$> once =
  Some (1000000000, [by_first (Got key (Ok None)); by_first (Ran question (Ok answer)); by_first (Put key stored (from_secs 60) (Ok tt))]).
Proof. vm_compute. reflexivity. Qed.
Lemma cache_twice_answers :
  answers twice = Some [Ret (CompleteDone (Ok {| cached_response := answer; cache_status := MissStored |}));
                        Ret (CompleteDone (Ok {| cached_response := answer; cache_status := Hit |}))].
Proof. vm_compute. reflexivity. Qed.
Lemma twice_clients : (fun s => th_client <$> callers s) <$> twice = Some [asking; asking].
Proof. vm_compute. reflexivity. Qed.

Lemma run_reachable c t s s' : reachable config s -> run_at config moment_at executor c t s = Some s' -> reachable config s'.
Proof.
  intros (s0 & H0 & HS) HR. exists s0. split; [done|]. etrans; [exact HS|].
  exact (run_at_steps config moment_at executor moment_at_time executor_valid c t s s' HR).
Qed.
Lemma cache_empty_reachable : reachable config empty.
Proof. exists empty. split; [apply cache_empty_initial | done]. Qed.

Lemma cached_answers_witness :
  exists s, twice = Some s /\
    completed config question key (Ok {| cached_response := answer; cache_status := Hit |}) (did 1 (cw_log (world s))) /\
    exists log1 t log2 e, entry_response e = answer /\ explained config t key e log1 /\
      cw_log (world s) = log1 ++ {| by_caller := 1; at_time := t; happened := Got key (Ok (Some e)) |} :: log2.
Proof.
  destruct twice as [s|] eqn:HT; [|pose proof cache_twice_answers as HA; rewrite HT in HA; discriminate HA].
  exists s. split; [reflexivity|].
  assert (HR : reachable config s).
  { revert HT. unfold twice. intros (s1 & H1 & H2)%bind_Some. eapply run_reachable; [|exact H2].
    eapply run_reachable; [apply cache_empty_reachable | exact H1]. }
  pose proof cache_twice_answers as HA. pose proof twice_clients as HC. rewrite HT in HA, HC.
  injection HA as HA. injection HC as HC.
  assert (HI : callers s !! 1%nat = Some {| th_client := asking; th_rest := Ret (CompleteDone (Ok {| cached_response := answer; cache_status := Hit |})) |}).
  { destruct (callers s) as [|[c0 p0] [|[c1 p1] rest]]; [discriminate HA..|]. cbn in HA, HC.
    injection HA as _ -> _. injection HC as _ -> _. reflexivity. }
  destruct (cached_answers config s 1 question key _ HR HI) as [HP HH]. split; [exact HP|].
  exact (HH answer eq_refl).
Defined.

Lemma stored_is_served_witness :
  exists s, once = Some s /\
    fst (exec (store_answer {| rm_delivery := Answered; rm_now := 1000 |} executor) (cached_complete config question key) (cw_store (world s))) =
    Ok {| cached_response := answer; cache_status := Hit |}.
Proof.
  destruct once as [s|] eqn:HT; [|pose proof once_log as HA; rewrite HT in HA; discriminate HA].
  exists s. split; [reflexivity|]. pose proof once_log as HL. rewrite HT in HL. injection HL as HN HL.
  apply (stored_is_served config s [by_first (Got key (Ok None)); by_first (Ran question (Ok answer))] 0 1000000000 key stored []).
  - eapply run_reachable; [apply cache_empty_reachable | exact HT].
  - vm_compute. reflexivity.
  - exact HL.
  - constructor.
  - rewrite HN. vm_compute. reflexivity.
  - reflexivity.
  - rewrite HN. reflexivity.
  - reflexivity.
Defined.
End AiCacheExamples.
