(* ===== verification/AiBatch.v ===== *)
(** Batches of AI work: [crates/rustee-ai-batch], [submission.rs], [submission/contracts.rs],
    [artifact/reference.rs], [artifact/reconciler.rs] and [in_memory.rs], the jobs of
    [crates/rustee-ai-batch-jobs] and the artifact ledger of [crates/rustee-ai-batch-sqlx].

    Submitter and reconciler are programs over their calls: to a ledger, statement by
    statement, and to what the application brings along. Both have one shape: reserve a
    reference, load, act once, record; the reconciler records no receipt, its receipt is
    [tt]. *)

From Stdlib Require Import ZArith Lia Bool Ascii.
From stdpp Require Import gmap sorting.
From S2P Require Import Prelude Strings Uuid Core JobEnvelope Jobs Effects.

Local Open Scope Z_scope.

(** ** References and receipts: [submission/contracts.rs], [artifact/reference.rs] *)

Definition MAX_BATCH_IDENTIFIER_BYTES : nat := 128.
Definition valid_identifier (value : str) : bool :=
  nonempty value && (List.length value <=? MAX_BATCH_IDENTIFIER_BYTES)%nat
  && forallb (fun c => is_ascii_alphanumeric c || existsb (char_eqb c) ##"_-.") value.

Inductive AiBatchConfigError : Type := InvalidIdentifier | InvalidInMemoryCapacity.

Record AiBatchReference : Type := { batch_scope : str; catalog_id : str; run_key : str }.
Definition batch_reference_new (scope catalog_id run_key : str) : result AiBatchReference AiBatchConfigError :=
  let reference := {| batch_scope := scope; catalog_id := catalog_id; run_key := run_key |} in
  if negb (valid_identifier (batch_scope reference)) || negb (valid_identifier (AiBatch.catalog_id reference))
     || negb (valid_identifier (AiBatch.run_key reference))
  then Err InvalidIdentifier
  else Ok reference.

Record AiBatchReceipt : Type := { provider_batch_id : str }.
Definition receipt_new (id : str) : result AiBatchReceipt AiBatchConfigError :=
  if negb (valid_identifier id) then Err InvalidIdentifier else Ok {| provider_batch_id := id |}.

Inductive AiBatchArtifactKind : Type := Output | ErrorArtifact.
Record AiBatchArtifactReference : Type := {
  artifact_batch : AiBatchReference;
  artifact_kind : AiBatchArtifactKind;
  provider_file_id : str;
  reconciliation_key : str
}.
Definition artifact_reference_new (batch : AiBatchReference) (kind : AiBatchArtifactKind) (file key : str) :
    result AiBatchArtifactReference AiBatchConfigError :=
  let reference := {| artifact_batch := batch; artifact_kind := kind; provider_file_id := file; reconciliation_key := key |} in
  if negb (valid_identifier (provider_file_id reference)) || negb (valid_identifier (reconciliation_key reference))
  then Err InvalidIdentifier
  else Ok reference.

#[export] Instance reference_eq_dec : EqDecision AiBatchReference.
Proof. solve_decision. Defined.
#[export] Instance receipt_eq_dec : EqDecision AiBatchReceipt.
Proof. solve_decision. Defined.
#[export] Instance kind_eq_dec : EqDecision AiBatchArtifactKind.
Proof. solve_decision. Defined.
#[export] Instance artifact_eq_dec : EqDecision AiBatchArtifactReference.
Proof. solve_decision. Defined.
#[export] Instance reference_countable : Countable AiBatchReference.
Proof.
  apply (inj_countable' (fun r => (batch_scope r, catalog_id r, run_key r))
           (fun '(s, c, k) => {| batch_scope := s; catalog_id := c; run_key := k |})). by intros [].
Defined.
#[export] Instance artifact_countable : Countable AiBatchArtifactReference.
Proof.
  apply (inj_countable'
    (fun a => (artifact_batch a, match artifact_kind a with Output => true | ErrorArtifact => false end, provider_file_id a, reconciliation_key a))
    (fun '(b, k, f, key) => {| artifact_batch := b; artifact_kind := if k : bool then Output else ErrorArtifact;
                               provider_file_id := f; reconciliation_key := key |})). by intros [? [] ? ?].
Defined.

(** ** Calls *)

(** [AiBatchReservation], and [AiBatchArtifactReservation] with the receipt [tt]. *)
Inductive Reservation (R : Type) : Type := Reserved | Recorded (receipt : R) | Pending.
Arguments Reserved {R}.
Arguments Recorded {R} receipt.
Arguments Pending {R}.

Section calls.
Context {S Ref Work R CE PE : Type}.

Inductive batch_call : Type -> Type :=
(** A step of the ledger that is atomic: a section under its lock, or a statement, whose
    answer can be [lost]. [None] is a failure; a step that returns [None] changes nothing. *)
| LedgerStep {A : Type} (may_lose : bool) (meaning : S -> option (A * S)) : batch_call (option A)
(** [AiBatchCatalog::load] or [AiBatchArtifactLoader::load_artifact]. *)
| LoadWork (reference : Ref) : batch_call (result Work CE)
(** [AiBatchProvider::submit] or [AiBatchArtifactProcessor::process_artifact]. *)
| ActOn (reference : Ref) (work : Work) : batch_call (result R PE).

(** [AiBatchSubmissionLedger] and [AiBatchArtifactLedger]. *)
Class BatchLedger (LE : Type) : Type := {
  ledger_reserve : Ref -> program batch_call (result (Reservation R) LE);
  ledger_record : Ref -> R -> program batch_call (result unit LE)
}.

(** ** The coordinators: [submission.rs], [artifact/reconciler.rs] *)

Inductive CoordinationError (LE : Type) : Type :=
| LedgerReserve (e : LE)
| PendingReference (reference : Ref)
| LoadFailed (e : CE)
| ActFailed (e : PE)
| LedgerRecord (receipt : R) (e : LE).
Arguments LedgerReserve {LE} e.
Arguments PendingReference {LE} reference.
Arguments LoadFailed {LE} e.
Arguments ActFailed {LE} e.
Arguments LedgerRecord {LE} receipt e.

Inductive Disposition : Type := Submitted | ExistingSubmission.

Definition coordinate {LE} `{!BatchLedger LE} (reference : Ref) :
    program batch_call (result (R * Disposition) (CoordinationError LE)) :=
  try_ LedgerReserve (ledger_reserve reference) (fun reservation =>
  match reservation with
  | Recorded receipt => Ret (Ok (receipt, ExistingSubmission))
  | Pending => Ret (Err (PendingReference reference))
  | Reserved =>
      try_ LoadFailed (ask (LoadWork reference)) (fun work =>
      try_ ActFailed (ask (ActOn reference work)) (fun receipt =>
      try_ (LedgerRecord receipt) (ledger_record reference receipt) (fun _ =>
      Ret (Ok (receipt, Submitted)))))
  end).

Definition pending_reference {LE} (e : CoordinationError LE) : option Ref :=
  match e with PendingReference reference => Some reference | _ => None end.
Definition unrecorded_receipt {LE} (e : CoordinationError LE) : option R :=
  match e with LedgerRecord receipt _ => Some receipt | _ => None end.

(** ** The jobs: [crates/rustee-ai-batch-jobs] *)

Inductive BatchJobError (E : Type) : Type := KeyMismatch | Runner (e : E).
Arguments KeyMismatch {E}.
Arguments Runner {E} e.

(** The handlers; [key] is the key of the reference that the delivery has to be bound to. *)
Definition handle_reference {LE} `{!BatchLedger LE} (key : Ref -> str) (reference : Ref) (context : JobContext) :
    program batch_call (result unit (BatchJobError (CoordinationError LE))) :=
  if negb (bool_decide (ctx_idempotency_key context = Some (key reference))) then Ret (Err KeyMismatch)
  else
    r ← coordinate reference;
    Ret (match r with Ok _ => Ok tt | Err e => Err (Runner e) end).
End calls.
Arguments batch_call : clear implicits.
Arguments BatchLedger : clear implicits.
Arguments CoordinationError : clear implicits.
Arguments LedgerReserve {Ref R CE PE LE} e.
Arguments PendingReference {Ref R CE PE LE} reference.
Arguments LoadFailed {Ref R CE PE LE} e.
Arguments ActFailed {Ref R CE PE LE} e.
Arguments LedgerRecord {Ref R CE PE LE} receipt e.
Arguments KeyMismatch {E}.
Arguments Runner {E} e.

(** [AiBatchSubmitter::submit] and its job. *)
Definition submit {S Work CE PE LE} `{!BatchLedger S AiBatchReference Work AiBatchReceipt CE PE LE} :=
  coordinate (S := S) (Ref := AiBatchReference) (Work := Work) (R := AiBatchReceipt) (CE := CE) (PE := PE) (LE := LE).
Record AiBatchSubmissionJob : Type := { job_reference : AiBatchReference }.
#[export] Instance submission_job : Job AiBatchSubmissionJob := {| NAME := ##"ai.batch.submit"; VERSION := 1 |}.
Definition submission_handle {S Work CE PE LE} `{!BatchLedger S AiBatchReference Work AiBatchReceipt CE PE LE}
    (payload : AiBatchSubmissionJob) (context : JobContext) :=
  handle_reference (S := S) (Work := Work) (R := AiBatchReceipt) (CE := CE) (PE := PE) (LE := LE) run_key (job_reference payload) context.

(** [AiBatchArtifactReconciler::reconcile] and its job. *)
Definition reconcile {S Artifact CE PE LE} `{!BatchLedger S AiBatchArtifactReference Artifact unit CE PE LE}
    (reference : AiBatchArtifactReference) :=
  r ← coordinate (S := S) (Ref := AiBatchArtifactReference) (Work := Artifact) (R := unit) (CE := CE) (PE := PE) (LE := LE) reference;
  Ret (match r with Ok (_, disposition) => Ok disposition | Err e => Err e end).
Record AiBatchArtifactReconciliationJob : Type := { job_artifact : AiBatchArtifactReference }.
#[export] Instance artifact_job : Job AiBatchArtifactReconciliationJob := {| NAME := ##"ai.batch.reconcile_artifact"; VERSION := 1 |}.
Definition artifact_handle {S Artifact CE PE LE} `{!BatchLedger S AiBatchArtifactReference Artifact unit CE PE LE}
    (payload : AiBatchArtifactReconciliationJob) (context : JobContext) :=
  handle_reference (S := S) (Work := Artifact) (R := unit) (CE := CE) (PE := PE) (LE := LE) reconciliation_key (job_artifact payload) context.

(** ** Ledgers in memory: [in_memory.rs] *)

Definition MAX_IN_MEMORY_RECORDS : nat := 10000.
Definition in_memory_ledger_new (capacity : nat) : result nat AiBatchConfigError :=
  if (1 <=? capacity)%nat && (capacity <=? MAX_IN_MEMORY_RECORDS)%nat then Ok capacity else Err InvalidInMemoryCapacity.

Inductive InMemoryLedgerError : Type := CapacityExhausted | StateUnavailable | MissingReservation | ConflictingReceipt.
(** [InMemoryBatchState], and [InMemoryAiBatchArtifactState] with the receipt [tt]. *)
Inductive InMemoryBatchState (R : Type) : Type := MemoryPending | MemorySubmitted (receipt : R).
Arguments MemoryPending {R}.
Arguments MemorySubmitted {R} receipt.

Section in_memory.
Context {Ref R Work CE PE : Type} `{Countable Ref} (capacity : nat).
Notation entries := (gmap Ref (InMemoryBatchState R)).
Notation prog := (program (batch_call entries Ref Work R CE PE)).

(** A section under the mutex, which fails when the mutex is poisoned. *)
Definition locked {A} (f : entries -> result A InMemoryLedgerError * entries) : prog (result A InMemoryLedgerError) :=
  x ← ask (LedgerStep false (fun s => Some (f s)));
  Ret (default (Err StateUnavailable) x).

Definition memory_reserve (reference : Ref) (s : entries) : result (Reservation R) InMemoryLedgerError * entries :=
  match s !! reference with
  | Some MemoryPending => (Ok Pending, s)
  | Some (MemorySubmitted receipt) => (Ok (Recorded receipt), s)
  | None =>
      if (size s =? capacity)%nat then (Err CapacityExhausted, s)
      else (Ok Reserved, <[reference := MemoryPending]> s)
  end.
Definition memory_record_submission `{EqDecision R} (reference : Ref) (receipt : R) (s : entries) :
    result unit InMemoryLedgerError * entries :=
  match s !! reference with
  | None => (Err MissingReservation, s)
  | Some MemoryPending => (Ok tt, <[reference := MemorySubmitted receipt]> s)
  | Some (MemorySubmitted existing) => if bool_decide (existing = receipt) then (Ok tt, s) else (Err ConflictingReceipt, s)
  end.
Definition memory_record_reconciled (reference : Ref) (receipt : R) (s : entries) : result unit InMemoryLedgerError * entries :=
  match s !! reference with
  | None => (Err MissingReservation, s)
  | Some _ => (Ok tt, <[reference := MemorySubmitted receipt]> s)
  end.
End in_memory.

(** [InMemoryAiBatchLedger] and [InMemoryAiBatchArtifactLedger]. *)
Definition in_memory_batch_ledger {Work CE PE} (capacity : nat) :
    BatchLedger (gmap AiBatchReference (InMemoryBatchState AiBatchReceipt)) AiBatchReference Work AiBatchReceipt CE PE InMemoryLedgerError := {|
  ledger_reserve reference := locked (memory_reserve capacity reference);
  ledger_record reference receipt := locked (memory_record_submission reference receipt)
|}.
Definition in_memory_artifact_ledger {Work CE PE} (capacity : nat) :
    BatchLedger (gmap AiBatchArtifactReference (InMemoryBatchState unit)) AiBatchArtifactReference Work unit CE PE InMemoryLedgerError := {|
  ledger_reserve reference := locked (memory_reserve capacity reference);
  ledger_record reference receipt := locked (memory_record_reconciled reference receipt)
|}.

(** ** The artifact ledger in PostgreSQL: [crates/rustee-ai-batch-sqlx] *)

(** The table [rustee_ai_batch_artifact_ledger] by its primary key, and the clock. *)
Record ArtifactRow : Type := {
  row_catalog_id : str;
  row_run_key : str;
  row_artifact_kind : str;
  row_provider_file_id : str;
  row_status : str;
  row_reserved_at : Z;
  row_reconciled_at : option Z
}.
Record ArtifactTable : Type := { artifact_rows : gmap (str * str) ArtifactRow; artifact_now : Z }.

(** The checks of the two migrations. *)
Definition identifier_shape (value : str) : bool :=
  (1 <=? List.length value)%nat && (List.length value <=? 128)%nat
  && forallb (fun c => is_ascii_alphanumeric c || existsb (char_eqb c) ##"_.-") value.
Definition row_checks (key : str * str) (row : ArtifactRow) : bool :=
  existsb (str_eqb (row_artifact_kind row)) [ ##"output"; ##"error"]
  && existsb (str_eqb (row_status row)) [ ##"pending"; ##"reconciled"]
  && (str_eqb (row_status row) ##"pending" && negb (is_some (row_reconciled_at row))
      || str_eqb (row_status row) ##"reconciled" && is_some (row_reconciled_at row))
  && forallb identifier_shape [fst key; snd key; row_catalog_id row; row_run_key row; row_provider_file_id row].

Inductive PostgresAiBatchArtifactLedgerError : Type := InvalidMetadata | IdentityConflict | PgMissingReservation | Storage.

Definition artifact_kind_name (kind : AiBatchArtifactKind) : str :=
  match kind with Output => ##"output" | ErrorArtifact => ##"error" end.
Definition parse_artifact_kind (value : str) : result AiBatchArtifactKind PostgresAiBatchArtifactLedgerError :=
  if str_eqb value ##"output" then Ok Output
  else if str_eqb value ##"error" then Ok ErrorArtifact
  else Err InvalidMetadata.

Definition validate_reference (a : AiBatchArtifactReference) : result unit PostgresAiBatchArtifactLedgerError :=
  if existsb (fun value => negb (nonempty value) || existsb (char_eqb (byte_of 0)) value
                           || (MAX_BATCH_IDENTIFIER_BYTES <? List.length value)%nat)
       [batch_scope (artifact_batch a); catalog_id (artifact_batch a); run_key (artifact_batch a);
        provider_file_id a; reconciliation_key a]
  then Err InvalidMetadata else Ok tt.

Definition artifact_key (a : AiBatchArtifactReference) : str * str := (batch_scope (artifact_batch a), reconciliation_key a).
(** The columns that identify an artifact beside its key. *)
Definition same_artifact (row : ArtifactRow) (a : AiBatchArtifactReference) : bool :=
  str_eqb (row_catalog_id row) (catalog_id (artifact_batch a))
  && str_eqb (row_run_key row) (run_key (artifact_batch a))
  && str_eqb (row_artifact_kind row) (artifact_kind_name (artifact_kind a))
  && str_eqb (row_provider_file_id row) (provider_file_id a).

(** The statements; the numbers are the rows affected. *)
Definition insert_artifact (a : AiBatchArtifactReference) (t : ArtifactTable) : option (Z * ArtifactTable) :=
  let row := {| row_catalog_id := catalog_id (artifact_batch a); row_run_key := run_key (artifact_batch a);
                row_artifact_kind := artifact_kind_name (artifact_kind a); row_provider_file_id := provider_file_id a;
                row_status := ##"pending"; row_reserved_at := artifact_now t; row_reconciled_at := None |} in
  if negb (row_checks (artifact_key a) row) then None
  else match artifact_rows t !! artifact_key a with
       | Some _ => Some (0, t)
       | None => Some (1, {| artifact_rows := <[artifact_key a := row]> (artifact_rows t); artifact_now := artifact_now t |})
       end.
Definition update_reconciled (a : AiBatchArtifactReference) (t : ArtifactTable) : option (Z * ArtifactTable) :=
  match artifact_rows t !! artifact_key a with
  | Some row =>
      if same_artifact row a && existsb (str_eqb (row_status row)) [ ##"pending"; ##"reconciled"] then
        let row' := {| row_catalog_id := row_catalog_id row; row_run_key := row_run_key row;
                       row_artifact_kind := row_artifact_kind row; row_provider_file_id := row_provider_file_id row;
                       row_status := ##"reconciled"; row_reserved_at := row_reserved_at row;
                       row_reconciled_at := Some (default (artifact_now t) (row_reconciled_at row)) |} in
        if negb (row_checks (artifact_key a) row') then None
        else Some (1, {| artifact_rows := <[artifact_key a := row']> (artifact_rows t); artifact_now := artifact_now t |})
      else Some (0, t)
  | None => Some (0, t)
  end.
Definition select_artifact (a : AiBatchArtifactReference) (t : ArtifactTable) : option (option ArtifactRow * ArtifactTable) :=
  Some (artifact_rows t !! artifact_key a, t).

(** [?] on an error of the same type. *)
Definition same {E} (e : E) : E := e.

Section postgres.
Context {Work CE PE : Type}.
Notation prog := (program (batch_call ArtifactTable AiBatchArtifactReference Work unit CE PE)).

Definition sql {A} (meaning : ArtifactTable -> option (A * ArtifactTable)) : prog (result A PostgresAiBatchArtifactLedgerError) :=
  x ← ask (LedgerStep true meaning);
  Ret (ok_or x Storage).

Definition validate_matching_reference (row : ArtifactRow) (a : AiBatchArtifactReference) :
    result unit PostgresAiBatchArtifactLedgerError :=
  if same_artifact row a then Ok tt else Err IdentityConflict.

Definition find_existing (a : AiBatchArtifactReference) : prog (result ArtifactRow PostgresAiBatchArtifactLedgerError) :=
  try_ same (sql (select_artifact a)) (fun found =>
  match found with
  | None => Ret (Err PgMissingReservation)
  | Some row => pure_try same (validate_matching_reference row a) (fun _ => Ret (Ok row))
  end).

Definition classify_existing (a : AiBatchArtifactReference) : prog (result (Reservation unit) PostgresAiBatchArtifactLedgerError) :=
  try_ same (find_existing a) (fun row =>
  Ret (if str_eqb (row_status row) ##"pending" then Ok Pending
       else if str_eqb (row_status row) ##"reconciled" then Ok (Recorded tt)
       else Err InvalidMetadata)).

Definition reserve_artifact (a : AiBatchArtifactReference) : prog (result (Reservation unit) PostgresAiBatchArtifactLedgerError) :=
  pure_try same (validate_reference a) (fun _ =>
  try_ same (sql (insert_artifact a)) (fun affected =>
  if affected =? 1 then Ret (Ok Reserved) else classify_existing a)).

Definition classify_record_conflict (a : AiBatchArtifactReference) : prog (result unit PostgresAiBatchArtifactLedgerError) :=
  try_ same (find_existing a) (fun row =>
  Ret (Err (if existsb (str_eqb (row_status row)) [ ##"pending"; ##"reconciled"] then PgMissingReservation else InvalidMetadata))).

Definition record_artifact_reconciled (a : AiBatchArtifactReference) : prog (result unit PostgresAiBatchArtifactLedgerError) :=
  pure_try same (validate_reference a) (fun _ =>
  try_ same (sql (update_reconciled a)) (fun affected =>
  if affected =? 1 then Ret (Ok tt) else classify_record_conflict a)).

Definition postgres_artifact_ledger :
    BatchLedger ArtifactTable AiBatchArtifactReference Work unit CE PE PostgresAiBatchArtifactLedgerError := {|
  ledger_reserve := reserve_artifact;
  ledger_record a _ := record_artifact_reconciled a
|}.
End postgres.

(** *** Pending artifacts *)

Definition MAX_PENDING_LIMIT : nat := 1000.
Inductive PendingAiBatchArtifactLimitError : Type := LimitZero | LimitTooLarge.
Definition pending_limit_new (limit : nat) : result nat PendingAiBatchArtifactLimitError :=
  if (limit =? 0)%nat then Err LimitZero else if (MAX_PENDING_LIMIT <? limit)%nat then Err LimitTooLarge else Ok limit.

Definition pending_from_row (key : str * str) (row : ArtifactRow) :
    result AiBatchArtifactReference PostgresAiBatchArtifactLedgerError :=
  let? batch := map_err (fun _ => InvalidMetadata) (batch_reference_new (fst key) (row_catalog_id row) (row_run_key row)) in
  let? kind := parse_artifact_kind (row_artifact_kind row) in
  map_err (fun _ => InvalidMetadata) (artifact_reference_new batch kind (row_provider_file_id row) (snd key)).

(** [ORDER BY reserved_at, scope, reconciliation_key]; the order of texts is that of the
    database's collation. *)
Definition listed_before (text_le : str -> str -> bool) (x y : (str * str) * ArtifactRow) : Prop :=
  row_reserved_at x.2 < row_reserved_at y.2 \/
  (row_reserved_at x.2 = row_reserved_at y.2 /\
   (if str_eqb (fst x.1) (fst y.1) then text_le (snd x.1) (snd y.1) else text_le (fst x.1) (fst y.1)) = true).
#[export] Instance listed_before_dec text_le : RelDecision (listed_before text_le).
Proof. intros x y. unfold listed_before. apply _. Defined.
Definition pending (text_le : str -> str -> bool) (limit : nat) (t : ArtifactTable) :
    result (list AiBatchArtifactReference) PostgresAiBatchArtifactLedgerError :=
  let rows := List.filter (fun x => str_eqb (row_status x.2) ##"pending") (map_to_list (artifact_rows t)) in
  collect_results (map (fun x => pending_from_row x.1 x.2) (take limit (merge_sort (listed_before text_le) rows))).
