(* ===== verification/AiBatchSystem.v ===== *)
(** Callers that share a ledger of batches: coordinators and deliveries of their jobs are
    started, answered one call at a time and abandoned anywhere, over any ledger that keeps
    [BatchLedgerPromises]. *)

From Stdlib Require Import ZArith Lia Bool Ascii.
From stdpp Require Import gmap sorting.
From S2P Require Import Prelude Strings Uuid Core JobEnvelope Jobs Effects AiBatch.

Local Open Scope Z_scope.

(** What is recorded for a reference: nothing, a reservation, or a receipt; and what happens
    to a ledger besides. *)
Class LedgerView (S Ref R : Type) : Type := {
  status : Ref -> S -> option (option R);
  ticks : S -> S -> Prop;
  ticks_status s s' k : ticks s s' -> status k s' = status k s
}.

Section system.
Context {S Ref Work R CE PE LE : Type} `{EqDecision Ref, !LedgerView S Ref R}.
Context `{L : !BatchLedger S Ref Work R CE PE LE} (key : Ref -> str).
Notation batch_call := (batch_call S Ref Work R CE PE).
Notation run_result := (result (R * Disposition) (CoordinationError Ref R CE PE LE)).
Notation job_result := (result unit (BatchJobError (CoordinationError Ref R CE PE LE))).

(** ** Callers *)

Inductive client : Type := Run (reference : Ref) | Deliver (reference : Ref) (context : JobContext).
Inductive outcome : Type := RunDone (r : run_result) | DeliverDone (r : job_result).
Definition client_reference (c : client) : Ref := match c with Run k | Deliver k _ => k end.
Definition client_prog (c : client) : program batch_call outcome :=
  match c with
  | Run k => r ← coordinate k; Ret (RunDone r)
  | Deliver k context => r ← handle_reference key k context; Ret (DeliverDone r)
  end.

(** ** The ledger, and what callers did: made a reservation, loaded, acted *)

Inductive event : Type :=
| Claimed (k : Ref)
| Loaded (k : Ref) (x : result Work CE)
| Acted (k : Ref) (x : result R PE).
Record BatchWorld : Type := { bw_ledger : S; bw_log : list (nat * event) }.

Definition did (i : nat) (log : list (nat * event)) : list event :=
  omap (fun '(j, e) => if decide (j = i) then Some e else None) log.

(** The reservation that a step of the ledger made. *)
Definition claims (i : nat) (k : Ref) (s s' : S) : list (nat * event) :=
  match status k s, status k s' with None, Some _ => [(i, Claimed k)] | _, _ => [] end.

(** A step of the ledger takes effect and is answered, or fails; the failure can hide its
    effect where the answer can be lost. The application's answers are arbitrary. *)
Definition batch_answered (i : nat) (k : Ref) {X} (c : batch_call X) : BatchWorld -> X -> BatchWorld -> Prop :=
  match c in AiBatch.batch_call _ _ _ _ _ _ X return BatchWorld -> X -> BatchWorld -> Prop with
  | @LedgerStep _ _ _ _ _ _ A may_lose meaning => fun w x w' =>
      exists s',
        ((exists a : A, meaning (bw_ledger w) = Some (a, s') /\ (x = Some a \/ (may_lose = true /\ x = None)))
         \/ (x = None /\ s' = bw_ledger w)) /\
        w' = {| bw_ledger := s'; bw_log := bw_log w ++ claims i k (bw_ledger w) s' |}
  | LoadWork k' => fun w x w' => w' = {| bw_ledger := bw_ledger w; bw_log := bw_log w ++ [(i, Loaded k' x)] |}
  | ActOn k' work => fun w x w' => w' = {| bw_ledger := bw_ledger w; bw_log := bw_log w ++ [(i, Acted k' x)] |}
  end.

Definition batch_background (w w' : BatchWorld) : Prop :=
  ticks (bw_ledger w) (bw_ledger w') /\ bw_log w' = bw_log w.

Notation State := (Effects.system (call := batch_call) BatchWorld client outcome).
Definition answered (i : nat) (c : client) X (f : batch_call X) := batch_answered i (client_reference c) f.
Definition step : State -> State -> Prop := Effects.step client_prog answered batch_background.
Definition initial (s : State) : Prop :=
  callers s = [] /\ bw_log (world s) = [] /\ forall k, status k (bw_ledger (world s)) = None.
Definition reachable (s : State) : Prop := exists s0, initial s0 /\ rtc step s0 s.

(** ** The invariant *)

Inductive trace_ok : list event -> Prop :=
| tr_nil : trace_ok []
| tr_claimed k : trace_ok [Claimed k]
| tr_loaded k x : trace_ok [Claimed k; Loaded k x]
| tr_acted k work x : trace_ok [Claimed k; Loaded k (Ok work); Acted k x].

Record batch_inv (w : BatchWorld) : Prop := {
  bi_free : forall k i, status k (bw_ledger w) = None -> (i, Claimed k) ∉ bw_log w;
  bi_unique : forall k i j, (i, Claimed k) ∈ bw_log w -> (j, Claimed k) ∈ bw_log w -> i = j;
  bi_recorded : forall k r, status k (bw_ledger w) = Some (Some r) -> exists i, (i, Acted k (Ok r)) ∈ bw_log w;
  bi_traces : forall i, trace_ok (did i (bw_log w))
}.

(** Reservations and receipts stay. *)
Definition status_le (s s' : S) : Prop :=
  forall k, (status k s <> None -> status k s' <> None) /\ (forall r, status k s = Some (Some r) -> status k s' = Some (Some r)).
Definition batch_guarantee (w w' : BatchWorld) : Prop :=
  bw_log w `prefix_of` bw_log w' /\ status_le (bw_ledger w) (bw_ledger w').
Definition batch_rely (i : nat) (w w' : BatchWorld) : Prop :=
  batch_guarantee w w' /\ did i (bw_log w') = did i (bw_log w).

Notation bwp i k := (wp (batch_rely i) (fun X => @batch_answered i k X) batch_inv batch_guarantee).

(** ** What a ledger promises to the coordinators *)

Class BatchLedgerPromises : Prop := {
  reserve_promise i k w :
    did i (bw_log w) = [] ->
    bwp i k (ledger_reserve k)
      (fun x w' => ((did i (bw_log w') = [] /\ x <> Ok Reserved) \/ did i (bw_log w') = [Claimed k]) /\
         (forall r, x = Ok (Recorded r) -> did i (bw_log w') = [] /\ status k (bw_ledger w') = Some (Some r)) /\
         (x = Ok Pending -> did i (bw_log w') = [])) w;
  record_promise i k work r w :
    did i (bw_log w) = [Claimed k; Loaded k (Ok work); Acted k (Ok r)] ->
    bwp i k (ledger_record k r)
      (fun x w' => did i (bw_log w') = [Claimed k; Loaded k (Ok work); Acted k (Ok r)] /\
         (x = Ok tt -> status k (bw_ledger w') = Some (Some r))) w
}.

(** ** Lemmas: the log *)

Lemma batch_did_app i l l' : did i (l ++ l') = did i l ++ did i l'.
Proof. apply omap_app. Qed.
Lemma batch_did_own i e : did i [(i, e)] = [e].
Proof. unfold did. cbn. by rewrite decide_True. Qed.
Lemma batch_did_other i j e : i <> j -> did j [(i, e)] = [].
Proof. intros Hij. unfold did. cbn. by rewrite decide_False. Qed.
Lemma batch_did_elem i e log : e ∈ did i log <-> (i, e) ∈ log.
Proof.
  unfold did. rewrite list_elem_of_omap. split.
  - intros ([j e'] & Hin & HE). destruct (decide (j = i)) as [->|]; [|done]. by injection HE as ->.
  - intros Hin. exists (i, e). split; [done|]. by rewrite decide_True.
Qed.

Lemma batch_traces_extend i e log :
  (forall j, trace_ok (did j log)) -> trace_ok (did i log ++ [e]) -> forall j, trace_ok (did j (log ++ [(i, e)])).
Proof.
  intros HT Hi j. rewrite batch_did_app. destruct (decide (i = j)) as [<-|Hij]; [by rewrite batch_did_own|].
  by rewrite (batch_did_other i j), app_nil_r.
Qed.

#[local] Instance status_le_preorder : PreOrder status_le.
Proof. split; [done|]. intros s1 s2 s3 H1 H2 k. destruct (H1 k), (H2 k). split; [auto|]. intros r. auto. Qed.
#[local] Instance batch_guarantee_preorder : PreOrder batch_guarantee.
Proof.
  split; [by split|]. intros w1 w2 w3 [HP HS] [HP' HS']. split; [by etrans | by etrans].
Qed.
#[local] Instance batch_rely_preorder i : PreOrder (batch_rely i).
Proof. split; [by split|]. intros w1 w2 w3 [HG HD] [HG' HD']. split; [by etrans | by rewrite HD']. Qed.

(** ** Lemmas: the calls keep the invariant *)

(** What a step of the ledger for [k] may do: reserve a free reference, or record the
    receipt [r] for a reserved one. *)
Definition legal (k : Ref) (r : option R) (s s' : S) : Prop :=
  (forall k', k' <> k -> status k' s' = status k' s) /\
  (status k s' = status k s \/ (status k s = None /\ status k s' = Some None) \/
   exists receipt, r = Some receipt /\ status k s = Some None /\ status k s' = Some (Some receipt)).

Lemma legal_le k r s s' : legal k r s s' -> status_le s s'.
Proof.
  intros [HO HK] k'. destruct (decide (k' = k)) as [->|Hk]; [|by rewrite HO].
  destruct HK as [->|[[-> ->]|(x & _ & -> & ->)]]; done.
Qed.

Lemma legal_inv i k r w s' :
  batch_inv w -> legal k r (bw_ledger w) s' ->
  did i (bw_log w) = [] \/ Claimed k ∈ did i (bw_log w) ->
  (forall receipt, r = Some receipt -> Acted k (Ok receipt) ∈ did i (bw_log w)) ->
  batch_inv {| bw_ledger := s'; bw_log := bw_log w ++ claims i k (bw_ledger w) s' |}.
Proof.
  intros [HF HU HR HT] [HO HK] Hi Hr. unfold claims. split; cbn [bw_ledger bw_log].
  - intros k' j Hn. destruct (decide (k' = k)) as [->|Hk].
    + destruct HK as [HE|[[_ HE]|(x & _ & _ & HE)]]; rewrite HE in Hn; [|done..]. rewrite Hn, HE, Hn, app_nil_r. by apply HF.
    + rewrite HO in Hn by done. intros [Hj|Hj]%elem_of_app; [by apply HF in Hj|].
      destruct (status k (bw_ledger w)), (status k s'); try (by apply not_elem_of_nil in Hj).
      apply list_elem_of_singleton in Hj. congruence.
  - intros k' j1 j2 H1 H2. destruct (status k (bw_ledger w)) eqn:HN; [rewrite app_nil_r in H1, H2; by eapply HU|].
    destruct (status k s'); [|rewrite app_nil_r in H1, H2; by eapply HU].
    apply elem_of_app in H1 as [H1|H1]; apply elem_of_app in H2 as [H2|H2]; [by eapply HU | | |];
      rewrite ?list_elem_of_singleton in *.
    + injection H2 as -> ->. by apply HF in H1.
    + injection H1 as -> ->. by apply HF in H2.
    + congruence.
  - intros k' r' Hs. destruct (decide (k' = k)) as [->|Hk].
    + destruct HK as [HE|[[_ HE]|(x & -> & _ & HE)]]; rewrite HE in Hs; [|done|].
      * destruct (HR _ _ Hs) as (j & Hj). exists j. apply elem_of_app. by left.
      * injection Hs as <-. exists i. apply elem_of_app. left. by apply batch_did_elem, Hr.
    + rewrite HO in Hs by done. destruct (HR _ _ Hs) as (j & Hj). exists j. apply elem_of_app. by left.
  - destruct (status k (bw_ledger w)) eqn:HN; [by rewrite app_nil_r|]. destruct (status k s'); [|by rewrite app_nil_r].
    apply batch_traces_extend; [done|]. destruct Hi as [->|Hi%batch_did_elem]; [constructor | by apply HF in Hi].
Qed.

Lemma log_inv i e w :
  batch_inv w -> (forall k, e <> Claimed k) -> trace_ok (did i (bw_log w) ++ [e]) ->
  batch_inv {| bw_ledger := bw_ledger w; bw_log := bw_log w ++ [(i, e)] |}.
Proof.
  intros [HF HU HR HT] He Ht.
  assert (HC : forall j k, (j, Claimed k) ∈ bw_log w ++ [(i, e)] -> (j, Claimed k) ∈ bw_log w).
  { intros j k [Hj|Hj%list_elem_of_singleton]%elem_of_app; [done|]. injection Hj as _ <-. by destruct (He k). }
  split; cbn [bw_ledger bw_log].
  - intros k j Hn Hj%HC. by apply HF in Hj.
  - intros k j1 j2 H1%HC H2%HC. by eapply HU.
  - intros k r Hs. destruct (HR k r Hs) as (j & Hj). exists j. apply elem_of_app. by left.
  - by apply batch_traces_extend.
Qed.

(** ** The programs *)

(** A step of the ledger: it fails, perhaps after a reservation, or it is answered. *)
Lemma wp_ledger {A B} i k may_lose (meaning : S -> option (A * S)) (f : option A -> program batch_call B) es r Q w :
  did i (bw_log w) = es -> es = [] \/ Claimed k ∈ es -> (forall receipt, r = Some receipt -> Acted k (Ok receipt) ∈ es) ->
  (forall s a s', meaning s = Some (a, s') -> legal k r s s') ->
  (forall x w', match x with
     | None => did i (bw_log w') = es \/ (es = [] /\ did i (bw_log w') = [Claimed k] /\
         exists s a s', meaning s = Some (a, s') /\ status k s = None /\ status k s' <> None)
     | Some a => exists w1, batch_inv w1 /\ batch_rely i w w1 /\ meaning (bw_ledger w1) = Some (a, bw_ledger w') /\
         did i (bw_log w') = es ++ did i (claims i k (bw_ledger w1) (bw_ledger w'))
     end -> bwp i k (f x) Q w') ->
  bwp i k (ask (LedgerStep may_lose meaning) ≫= f) Q w.
Proof.
  intros Hw He Hr HL Hf. apply wp_ask. intros w1 Hrel HI x w2 (s' & HA & ->).
  pose proof (proj2 Hrel) as HD. rewrite Hw in HD.
  assert (HLeg : legal k r (bw_ledger w1) s').
  { destruct HA as [(a & HM & _)|[_ ->]]; [by eapply HL | by split; [done | left]]. }
  split_and!; [split; cbn; [by apply prefix_app_r | by eapply legal_le] | by eapply legal_inv; rewrite ?HD |].
  apply Hf. cbn [bw_ledger bw_log]. rewrite batch_did_app, HD. destruct x as [a|].
  - destruct HA as [(a' & HM & [[= <-]|[_ ?]])|[? _]]; [|done..]. by exists w1.
  - unfold claims. destruct (status k (bw_ledger w1)) eqn:HN; [left; by rewrite app_nil_r|].
    destruct (status k s') eqn:HN'; [|left; by rewrite app_nil_r]. rewrite batch_did_own. right.
    assert (es = []) as ->.
    { destruct He as [->|He]; [done|]. rewrite <- HD in He. apply batch_did_elem in He. by apply (bi_free _ HI) in He. }
    split_and!; [done | done |]. destruct HA as [(a & HM & _)|[_ ->]]; [|congruence]. exists (bw_ledger w1), a, s'. by rewrite HN'.
Qed.

Lemma wp_load {A} i k k' (f : result Work CE -> program batch_call A) Q w :
  did i (bw_log w) = [Claimed k] -> k' = k ->
  (forall x w', did i (bw_log w') = [Claimed k; Loaded k x] -> bwp i k (f x) Q w') ->
  bwp i k (ask (LoadWork k') ≫= f) Q w.
Proof.
  intros Hw -> Hf. apply wp_ask. intros w1 [HG HD] HI x w2 ->. rewrite Hw in HD. split_and!.
  - split; [by apply prefix_app_r | done].
  - apply log_inv; [done | done |]. rewrite HD. constructor.
  - apply Hf. cbn [bw_log]. by rewrite batch_did_app, batch_did_own, HD.
Qed.
Lemma wp_act {A} i k work (f : result R PE -> program batch_call A) Q w :
  did i (bw_log w) = [Claimed k; Loaded k (Ok work)] ->
  (forall x w', did i (bw_log w') = [Claimed k; Loaded k (Ok work); Acted k x] -> bwp i k (f x) Q w') ->
  bwp i k (ask (ActOn k work) ≫= f) Q w.
Proof.
  intros Hw Hf. apply wp_ask. intros w1 [HG HD] HI x w2 ->. rewrite Hw in HD. split_and!.
  - split; [by apply prefix_app_r | done].
  - apply log_inv; [done | done |]. rewrite HD. constructor.
  - apply Hf. cbn [bw_log]. by rewrite batch_did_app, batch_did_own, HD.
Qed.

(** What a result says of the ledger and of what the caller did. *)
Definition run_post (k : Ref) (i : nat) (r : run_result) (w : BatchWorld) : Prop :=
  let trace := did i (bw_log w) in
  match r with
  | Ok (receipt, Submitted) =>
      (exists work, trace = [Claimed k; Loaded k (Ok work); Acted k (Ok receipt)]) /\ status k (bw_ledger w) = Some (Some receipt)
  | Ok (receipt, ExistingSubmission) => trace = [] /\ status k (bw_ledger w) = Some (Some receipt)
  | Err (LedgerReserve _) => trace = [] \/ trace = [Claimed k]
  | Err (PendingReference k') => k' = k /\ trace = []
  | Err (LoadFailed e) => trace = [Claimed k; Loaded k (Err e)]
  | Err (ActFailed e) => exists work, trace = [Claimed k; Loaded k (Ok work); Acted k (Err e)]
  | Err (LedgerRecord receipt _) => exists work, trace = [Claimed k; Loaded k (Ok work); Acted k (Ok receipt)]
  end.
Definition deliver_post (k : Ref) (context : JobContext) (i : nat) (r : job_result) (w : BatchWorld) : Prop :=
  match r with
  | Err KeyMismatch => ctx_idempotency_key context <> Some (key k) /\ did i (bw_log w) = []
  | Ok _ => ctx_idempotency_key context = Some (key k) /\ exists x, run_post k i (Ok x) w
  | Err (Runner e) => ctx_idempotency_key context = Some (key k) /\ run_post k i (Err e) w
  end.
Definition client_post (c : client) (i : nat) (o : outcome) (w : BatchWorld) : Prop :=
  match c, o with
  | Run k, RunDone r => run_post k i r w
  | Deliver k context, DeliverDone r => deliver_post k context i r w
  | _, _ => False
  end.

Context `{HPromises : !BatchLedgerPromises}.

Lemma wp_coordinate i k w : did i (bw_log w) = [] -> bwp i k (coordinate k) (run_post k i) w.
Proof.
  intros Hw. unfold coordinate. apply wp_try. eapply wp_mono; [|by apply (reserve_promise i k)].
  intros [[|receipt|]|e] w1 (HC & HR & HP).
  - destruct HC as [[_ HC]|HC]; [done|]. unfold try_ at 1. apply wp_load; [done..|].
    intros [work|e] w2 Hw2; [|apply wp_ret; done]. unfold try_ at 1. eapply wp_act; [exact Hw2|].
    intros [receipt|e] w3 Hw3; [|apply wp_ret; by exists work]. apply wp_try.
    eapply wp_mono; [|by apply (record_promise i k work)]. intros [[]|e] w4 [Hw4 HS].
    + apply wp_ret. split; [by exists work | by apply HS].
    + by exists work.
  - apply wp_ret. by apply HR.
  - apply wp_ret. split; [done | by apply HP].
  - destruct HC as [[HC _]|HC]; [by left | by right].
Qed.

Lemma wp_deliver i k context w :
  did i (bw_log w) = [] -> bwp i k (handle_reference key k context) (deliver_post k context i) w.
Proof.
  intros Hw. unfold handle_reference. destruct (bool_decide_reflect (ctx_idempotency_key context = Some (key k))) as [HK|HK]; cbn [negb].
  - apply wp_bind. eapply wp_mono; [|by apply wp_coordinate]. intros [x|e] w' HP; apply wp_ret; [by split; [|exists x] | by split].
  - by apply wp_ret.
Qed.

Lemma answered_log i k X (f : batch_call X) w x w' :
  batch_answered i k f w x w' -> exists es, bw_log w' = bw_log w ++ map (pair i) es.
Proof.
  destruct f; cbn.
  - intros (s' & _ & ->). unfold claims. cbn. destruct (status k (bw_ledger w)), (status k s');
      [exists [] | exists [] | by exists [Claimed k] | exists []]; done.
  - intros ->. by exists [Loaded reference x].
  - intros ->. by exists [Acted reference x].
Qed.
Lemma did_others i j es : i <> j -> did j (map (pair i) es) = [].
Proof. intros Hij. induction es as [|e es IH]; [done|]. unfold did in *. cbn. by rewrite decide_False. Qed.

#[local] Instance batch_system : SystemLaws client_prog answered batch_background
  batch_inv batch_guarantee batch_rely (fun i w => did i (bw_log w) = []) client_post.
Proof.
  split.
  - intros i [k|k context] w Hw _; cbn [client_prog]; unfold answered; cbn [client_reference]; apply wp_bind.
    + eapply wp_mono; [|by apply wp_coordinate]. done.
    + eapply wp_mono; [|by apply wp_deliver]. done.
  - intros i j c X f w x w' Hij HA HG. split; [done|].
    destruct (answered_log _ _ _ _ _ _ _ HA) as (es & ->). by rewrite batch_did_app, did_others, app_nil_r.
  - intros i w w' [_ ->]. done.
  - intros w w' [HF HU HR HT] [HS HLog].
    assert (HE : forall k, status k (bw_ledger w') = status k (bw_ledger w)) by (intros k; by apply ticks_status).
    assert (HG : batch_guarantee w w') by (split; [by rewrite HLog | intros k; by rewrite HE]).
    split_and!; [|done|].
    + split; rewrite ?HLog; [|done| |done].
      * intros k i. rewrite HE. apply HF.
      * intros k r. rewrite HE. apply HR.
    + intros i. split; [done|]. by rewrite HLog.
Qed.

Lemma batch_reachable_inv s :
  reachable s -> system_inv answered batch_inv batch_guarantee batch_rely (fun i w => did i (bw_log w) = []) client_post s.
Proof.
  intros (s0 & (HC & HLog & HN) & HS). refine (steps_keep_inv client_prog _ batch_background _ _ _ _ _ _ _ _ HS).
  split; [split; rewrite ?HLog | |].
  - intros k i _. apply not_elem_of_nil.
  - intros k i j Hi. by apply not_elem_of_nil in Hi.
  - intros k r. by rewrite HN.
  - intros i. constructor.
  - intros j _. by rewrite HLog.
  - intros i th. by rewrite HC.
Qed.

Lemma run_post_mono k i r w w' : batch_rely i w w' -> run_post k i r w -> run_post k i r w'.
Proof.
  intros [[_ HS] HD]. unfold run_post. rewrite HD.
  destruct r as [[receipt []]|[]]; try done; intros [HT HK]; (split; [done|]); by apply HS.
Qed.
Lemma batch_client_post_mono c i o w w' : batch_rely i w w' -> client_post c i o w -> client_post c i o w'.
Proof.
  intros HR. destruct c as [k|k context], o as [r|r]; cbn [client_post]; try done; [by apply run_post_mono|].
  destruct r as [x|[|e]]; cbn [deliver_post].
  - intros [HK [y HP]]. split; [done|]. exists y. by eapply run_post_mono.
  - intros [HK HD]. split; [done|]. by rewrite (proj2 HR).
  - intros [HK HP]. split; [done|]. by eapply run_post_mono.
Qed.

(** ** Counting *)

Definition is_load (k : Ref) (e : event) : bool := match e with Loaded k' _ => bool_decide (k' = k) | _ => false end.
Definition is_act (k : Ref) (e : event) : bool := match e with Acted k' _ => bool_decide (k' = k) | _ => false end.
Definition count (P : event -> bool) (log : list (nat * event)) : nat := List.length (List.filter (fun x => P x.2) log).

Lemma count_single P i log :
  (forall j e, (j, e) ∈ log -> P e = true -> j = i) -> count P log = List.length (List.filter P (did i log)).
Proof.
  unfold count. induction log as [|[j e] log IH]; intros HP; [done|]. cbn [List.filter snd].
  assert (IH' : List.length (List.filter (fun x => P x.2) log) = List.length (List.filter P (did i log))).
  { apply IH. intros j' e' Hin. apply HP. by right. }
  change ((j, e) :: log) with ([(j, e)] ++ log). rewrite batch_did_app. destruct (decide (j = i)) as [->|Hj].
  - rewrite batch_did_own. cbn. destruct (P e); cbn; lia.
  - rewrite batch_did_other by done. destruct (P e) eqn:HE; [|done]. destruct Hj. apply (HP j e); [by left | done].
Qed.

Lemma count_once P k w :
  batch_inv w -> (forall es, trace_ok es -> (List.length (List.filter P es) <= 1)%nat) ->
  (forall es e, trace_ok es -> e ∈ es -> P e = true -> Claimed k ∈ es) -> (count P (bw_log w) <= 1)%nat.
Proof.
  intros HI HL HC. destruct (List.filter (fun x => P x.2) (bw_log w)) as [|[i e] rest] eqn:HF.
  { unfold count. rewrite HF. cbn. lia. }
  assert (Hin : (i, e) ∈ bw_log w /\ P e = true).
  { rewrite list_elem_of_In. apply (List.filter_In (fun x => P x.2) (i, e) (bw_log w)). rewrite HF. by left. }
  assert (HClaim : forall j e', (j, e') ∈ bw_log w -> P e' = true -> (j, Claimed k) ∈ bw_log w).
  { intros j e' Hj He'. apply batch_did_elem. eapply HC; [apply (bi_traces _ HI) | by apply batch_did_elem | done]. }
  rewrite (count_single P i); [by apply HL, (bi_traces _ HI)|].
  intros j e' Hj He'. eapply (bi_unique _ HI); [by eapply HClaim | eapply HClaim; apply Hin].
Qed.

Lemma trace_loads k es : trace_ok es -> (List.length (List.filter (is_load k) es) <= 1)%nat.
Proof. destruct 1; cbn; repeat case_bool_decide; cbn; lia. Qed.
Lemma trace_acts k es : trace_ok es -> (List.length (List.filter (is_act k) es) <= 1)%nat.
Proof. destruct 1; cbn; repeat case_bool_decide; cbn; lia. Qed.
Lemma trace_claims (P : event -> bool) k es e :
  (forall e, P e = true -> (exists x, e = Loaded k x) \/ exists x, e = Acted k x) -> trace_ok es -> e ∈ es -> P e = true -> Claimed k ∈ es.
Proof.
  intros HP HT He HE. apply HP in HE.
  destruct HT as [|k'|k' x|k' work x]; [by apply not_elem_of_nil in He | | |];
    destruct HE as [[y ->]|[y ->]]; rewrite ?elem_of_cons in He;
    repeat (destruct He as [He|He]; [first [discriminate He | injection He as -> _; by left]|]); by apply not_elem_of_nil in He.
Qed.

(** ** Properties *)

(** C13: Whatever deliveries of a job are repeated, fail, lose answers and are dropped, work is
    loaded and acted upon at most once per reference; a receipt in the ledger is one that the
    provider returned for that reference; and what a caller returns is true of the ledger and
    of what it did: an existing receipt was recorded and nothing was done, a new one was
    returned to this caller and recorded, a receipt that could not be recorded is handed out. *)
Theorem batch_acts_once s :
  reachable s ->
  (forall k, (count (is_load k) (bw_log (world s)) <= 1)%nat /\ (count (is_act k) (bw_log (world s)) <= 1)%nat) /\
  (forall k r, status k (bw_ledger (world s)) = Some (Some r) -> exists i, (i, Acted k (Ok r)) ∈ bw_log (world s)) /\
  (forall i c o, callers s !! i = Some {| th_client := c; th_rest := Ret o |} -> client_post c i o (world s)).
Proof.
  intros HR. pose proof (batch_reachable_inv s HR) as HI. pose proof (sys_inv _ _ _ _ _ _ _ HI) as HW. split_and!.
  - intros k. split; apply (count_once _ k); try done; [apply trace_loads | | apply trace_acts |];
      intros es e; apply trace_claims; intros [k'|k' x|k' x]; cbn; try done; case_bool_decide; try done; subst; eauto.
  - apply (bi_recorded _ HW).
  - intros i c o HC. destruct (finished _ _ _ _ _ _ s i _ _ HI HC) as (w0 & Hrel & HP). by eapply batch_client_post_mono.
Qed.
End system.
Arguments BatchLedgerPromises {S Ref Work R CE PE LE _} L.

(** ** The ledgers in memory keep their promises *)

Section in_memory.
Context {Ref R Work CE PE : Type} `{Countable Ref} (capacity : nat).
Notation entries := (gmap Ref (InMemoryBatchState R)).

Definition memory_status (k : Ref) (s : entries) : option (option R) :=
  match s !! k with None => None | Some MemoryPending => Some None | Some (MemorySubmitted r) => Some (Some r) end.
#[export] Program Instance memory_view : LedgerView entries Ref R := {| status := memory_status; ticks s s' := s' = s |}.
Next Obligation. by intros s s' k ->. Qed.

Lemma memory_status_insert (k k' : Ref) x (s : entries) :
  status k' (<[k := x]> s) = if decide (k' = k) then match x with MemoryPending => Some None | MemorySubmitted r => Some (Some r) end else status k' s.
Proof.
  cbn. unfold memory_status. destruct (decide (k' = k)) as [->|Hk]; [by rewrite lookup_insert_eq | by rewrite lookup_insert_ne].
Qed.
Lemma memory_set_legal (k : Ref) r x (s : entries) :
  (status k s = None /\ x = MemoryPending) \/ (exists receipt, r = Some receipt /\ status k s = Some None /\ x = MemorySubmitted receipt) \/
  (exists receipt, status k s = Some (Some receipt) /\ x = MemorySubmitted receipt) ->
  legal k r s (<[k := x]> s).
Proof.
  intros HX. split; [intros k' Hk; rewrite memory_status_insert; by rewrite decide_False|]. rewrite memory_status_insert, decide_True by done.
  destruct HX as [[HN ->]|[(receipt & -> & HN & ->)|(receipt & HN & ->)]]; rewrite ?HN; eauto 6.
Qed.

Lemma memory_reserve_legal (k : Ref) s : legal k None s (memory_reserve (R := R) capacity k s).2.
Proof.
  unfold memory_reserve. destruct (s !! k) as [[|r]|] eqn:HK; [by split; [|left]..|].
  destruct (_ =? _)%nat; [by split; [|left]|]. apply memory_set_legal. left. cbn. unfold memory_status. by rewrite HK.
Qed.

Lemma wp_memory_reserve (k : Ref) i (w : BatchWorld (Work := Work) (CE := CE) (PE := PE)) :
  did i (bw_log w) = [] ->
  wp (batch_rely i) (fun X => @batch_answered entries Ref Work R CE PE _ i k X) batch_inv batch_guarantee
    (locked (memory_reserve capacity k))
    (fun x w' => ((did i (bw_log w') = [] /\ x <> Ok Reserved) \/ did i (bw_log w') = [Claimed k]) /\
       (forall r, x = Ok (Recorded r) -> did i (bw_log w') = [] /\ status k (bw_ledger w') = Some (Some r)) /\
       (x = Ok Pending -> did i (bw_log w') = [])) w.
Proof.
  intros Hw. unfold locked. eapply (wp_ledger i k _ _ _ [] None); [done | by left | done | |].
  { intros s a s' [= HM]. pose proof (memory_reserve_legal k s) as HL. by rewrite HM in HL. }
  intros [x|] w' HX; apply wp_ret; cbn [default].
  - destruct HX as (w1 & _ & _ & [= HM] & HD). rewrite HD. unfold memory_reserve in HM.
    destruct (bw_ledger w1 !! k) as [[|receipt]|] eqn:HK; [| |destruct (_ =? _)%nat]; injection HM as <- HM; rewrite <- ?HM;
      unfold claims; cbn; unfold memory_status; rewrite ?HK, ?lookup_insert_eq; cbn; rewrite ?(decide_True (P := i = i)) by done.
    + split_and!; [by left | done | done].
    + split_and!; [by left | by intros r [= ->] | done].
    + split_and!; [by left | done | done].
    + split_and!; [by right | done | done].
  - destruct HX as [->|(_ & -> & _)]; split_and!; try done; [by left | by right].
Qed.

(** Recording: a receipt that was reserved or is there already. *)
Lemma wp_memory_record (k : Ref) (r : R) (f : entries -> result unit InMemoryLedgerError * entries) i work
    (w : BatchWorld (Work := Work) (CE := CE) (PE := PE)) :
  (forall s, legal k (Some r) s (f s).2) -> (forall s, (f s).1 = Ok tt -> status k (f s).2 = Some (Some r)) ->
  did i (bw_log w) = [Claimed k; Loaded k (Ok work); Acted k (Ok r)] ->
  wp (batch_rely i) (fun X => @batch_answered entries Ref Work R CE PE _ i k X) batch_inv batch_guarantee
    (locked f)
    (fun x w' => did i (bw_log w') = [Claimed k; Loaded k (Ok work); Acted k (Ok r)] /\
       (x = Ok tt -> status k (bw_ledger w') = Some (Some r))) w.
Proof.
  intros HL HS Hw. unfold locked. eapply (wp_ledger i k _ _ _ _ (Some r)); [exact Hw | right; by left | | |].
  - intros receipt [= <-]. by right; right; left.
  - intros s a s' [= HM]. specialize (HL s). by rewrite HM in HL.
  - intros [x|] w' HX; apply wp_ret; cbn [default].
    + destruct HX as (w1 & HI & [_ HD1] & [= HM] & HD). rewrite Hw in HD1. split.
      * rewrite HD. unfold claims. destruct (status k (bw_ledger w1)) eqn:HN; [by rewrite app_nil_r|].
        destruct (bi_free _ HI k i HN). apply batch_did_elem. rewrite HD1. by left.
      * intros Hx. change (x = Ok tt) in Hx. subst x. specialize (HS (bw_ledger w1)). rewrite HM in HS. by apply HS.
    + split; [by destruct HX as [->|[? _]] | done].
Qed.

Lemma memory_submission_legal `{!EqDecision R} (k : Ref) (r : R) s : legal k (Some r) s (memory_record_submission k r s).2.
Proof.
  unfold memory_record_submission. destruct (s !! k) as [[|x]|] eqn:HK; [| |by split; [|left]].
  - apply memory_set_legal. right. left. exists r. cbn. unfold memory_status. by rewrite HK.
  - case_bool_decide; by split; [|left].
Qed.
Lemma memory_submission_status `{!EqDecision R} (k : Ref) (r : R) s :
  (memory_record_submission k r s).1 = Ok tt -> status k (memory_record_submission k r s).2 = Some (Some r).
Proof.
  unfold memory_record_submission. destruct (s !! k) as [[|x]|] eqn:HK; [| |done].
  - intros _. cbn [snd]. rewrite memory_status_insert. by rewrite decide_True.
  - case_bool_decide as HE; [|done]. intros _. cbn. unfold memory_status. by rewrite HK, HE.
Qed.
End in_memory.

#[export] Instance batch_ledger_promises {Work CE PE} capacity :
  BatchLedgerPromises (in_memory_batch_ledger (Work := Work) (CE := CE) (PE := PE) capacity).
Proof.
  split; intros; [by apply wp_memory_reserve|].
  apply wp_memory_record; [apply memory_submission_legal | apply memory_submission_status | done].
Qed.
#[export] Instance artifact_ledger_promises {Work CE PE} capacity :
  BatchLedgerPromises (in_memory_artifact_ledger (Work := Work) (CE := CE) (PE := PE) capacity).
Proof.
  split; intros; [by apply wp_memory_reserve|]. destruct r. apply wp_memory_record; [| |done].
  - intros s. unfold memory_record_reconciled. destruct (s !! k) as [[|[]]|] eqn:HK; [| |by split; [|left]].
    + apply memory_set_legal. right. left. exists tt. cbn. unfold memory_status. by rewrite HK.
    + apply memory_set_legal. right. right. exists tt. cbn. unfold memory_status. by rewrite HK.
  - intros s. unfold memory_record_reconciled. destruct (s !! k); [|done]. intros _. cbn [snd].
    rewrite memory_status_insert. by rewrite decide_True.
Qed.

(** ** The artifact ledger in PostgreSQL keeps its promises *)

Section postgres.
Context {Work CE PE : Type}.

Definition artifact_status (k : AiBatchArtifactReference) (t : ArtifactTable) : option (option unit) :=
  row ← artifact_rows t !! artifact_key k;
  if negb (same_artifact row k) then None
  else if str_eqb (row_status row) ##"pending" then Some None
  else if str_eqb (row_status row) ##"reconciled" then Some (Some tt)
  else None.
(** The clock of the database moves. *)
#[export] Program Instance artifact_view : LedgerView ArtifactTable AiBatchArtifactReference unit := {|
  status := artifact_status;
  ticks t t' := artifact_rows t' = artifact_rows t /\ artifact_now t <= artifact_now t'
|}.
Next Obligation. intros t t' k [HE _]. unfold artifact_status. by rewrite HE. Qed.

Lemma same_artifact_inj row a k : same_artifact row a = true -> same_artifact row k = true -> artifact_key a = artifact_key k -> a = k.
Proof.
  unfold same_artifact. intros HA HK. apply andb_true_iff in HA as [HA HA4]. apply andb_true_iff in HA as [HA HA3].
  apply andb_true_iff in HA as [HA1 HA2]. apply andb_true_iff in HK as [HK HK4]. apply andb_true_iff in HK as [HK HK3].
  apply andb_true_iff in HK as [HK1 HK2]. rewrite str_eqb_true in *. unfold artifact_key.
  destruct a as [[s c r] kd f rk], k as [[s' c' r'] kd' f' rk']. cbn in *. intros [= <- <-].
  assert (kd = kd') as <-.
  { rewrite HA3 in HK3. by destruct kd, kd'. }
  congruence.
Qed.

Lemma artifact_status_insert a row t now k :
  same_artifact row a = true ->
  artifact_status k {| artifact_rows := <[artifact_key a := row]> (artifact_rows t); artifact_now := now |} =
  if decide (k = a) then
    (if str_eqb (row_status row) ##"pending" then Some None else if str_eqb (row_status row) ##"reconciled" then Some (Some tt) else None)
  else if decide (artifact_key k = artifact_key a) then None else artifact_status k t.
Proof.
  intros HS. unfold artifact_status. cbn [artifact_rows]. destruct (decide (k = a)) as [->|Hk].
  - rewrite lookup_insert_eq. cbn [mbind option_bind]. by rewrite HS.
  - destruct (decide (artifact_key k = artifact_key a)) as [HE|HE].
    + rewrite HE, lookup_insert_eq. cbn [mbind option_bind]. destruct (same_artifact row k) eqn:HK; [|done].
      destruct Hk. symmetry. by eapply same_artifact_inj.
    + by rewrite lookup_insert_ne.
Qed.

(** Another artifact under the key of this one has no record. *)
Lemma artifact_status_other a k t row :
  artifact_rows t !! artifact_key a = Some row -> same_artifact row a = true -> k <> a -> artifact_key k = artifact_key a ->
  artifact_status k t = None.
Proof.
  intros HR HS Hk HE. unfold artifact_status. rewrite HE, HR. cbn [mbind option_bind].
  destruct (same_artifact row k) eqn:HK; [|done]. destruct Hk. symmetry. by eapply same_artifact_inj.
Qed.

Lemma insert_artifact_facts a t n t' :
  insert_artifact a t = Some (n, t') ->
  legal a None t t' /\ (n = 1 -> artifact_status a t = None /\ artifact_status a t' = Some None) /\ (n <> 1 -> t' = t).
Proof.
  unfold insert_artifact. destruct (negb _); [done|]. destruct (artifact_rows t !! artifact_key a) as [row|] eqn:HR; intros [= <- <-].
  - split_and!; [by split; [|left] | done | done].
  - assert (HN : forall k, artifact_key k = artifact_key a -> artifact_status k t = None).
    { intros k HE. unfold artifact_status. by rewrite HE, HR. }
    assert (HS : forall b, same_artifact {| row_catalog_id := catalog_id (artifact_batch a); row_run_key := run_key (artifact_batch a);
        row_artifact_kind := artifact_kind_name (artifact_kind a); row_provider_file_id := provider_file_id a;
        row_status := b; row_reserved_at := artifact_now t; row_reconciled_at := None |} a = true).
    { intros b. unfold same_artifact. cbn. by rewrite !(proj2 (str_eqb_true _ _) eq_refl). }
    split_and!; [|split|done].
    + split; [|right; left; split; [by apply HN|]].
      * intros k Hk. cbn. rewrite artifact_status_insert by done. rewrite decide_False by done.
        destruct (decide (artifact_key k = artifact_key a)) as [HE|]; [by rewrite HN | done].
      * cbn. rewrite artifact_status_insert by done. by rewrite decide_True.
    + by apply HN.
    + rewrite artifact_status_insert by done. by rewrite decide_True.
Qed.

Lemma update_reconciled_facts a t n t' :
  update_reconciled a t = Some (n, t') ->
  legal a (Some tt) t t' /\ (n = 1 -> artifact_status a t' = Some (Some tt)).
Proof.
  unfold update_reconciled. destruct (artifact_rows t !! artifact_key a) as [row|] eqn:HR; [|intros [= <- <-]; split; [by split; [|left] | done]].
  destruct (same_artifact row a) eqn:HS; cbn [andb]; [|intros [= <- <-]; split; [by split; [|left] | done]].
  destruct (existsb _ _) eqn:HX; [|intros [= <- <-]; split; [by split; [|left] | done]]. cbv zeta.
  set (row' := Build_ArtifactRow _ _ _ _ _ _ _). destruct (negb _); [done|]. intros [= <- <-].
  assert (HS' : same_artifact row' a = true) by exact HS.
  assert (HN : artifact_status a {| artifact_rows := <[artifact_key a := row']> (artifact_rows t); artifact_now := artifact_now t |} = Some (Some tt)).
  { rewrite artifact_status_insert by done. by rewrite decide_True. }
  split; [|done]. split.
  - intros k Hk. cbn. rewrite artifact_status_insert by done. rewrite decide_False by done.
    destruct (decide (artifact_key k = artifact_key a)) as [HE|]; [|done]. symmetry. by eapply artifact_status_other.
  - cbn. rewrite HN. assert (artifact_status a t = Some None \/ artifact_status a t = Some (Some tt)) as [->| ->]; [|eauto 6..].
    unfold artifact_status. rewrite HR. cbn [mbind option_bind]. rewrite HS. cbn [negb]. cbn [existsb] in HX. rewrite orb_false_r in HX.
    destruct (str_eqb (row_status row) ##"pending"); [by left|]. cbn [orb] in HX. rewrite HX. by right.
Qed.

Notation pwp i k := (wp (batch_rely i) (fun X => @batch_answered ArtifactTable AiBatchArtifactReference Work unit CE PE _ i k X)
  batch_inv batch_guarantee).

Lemma wp_sql {A} i k (meaning : ArtifactTable -> option (A * ArtifactTable)) es r
    (Q : result A PostgresAiBatchArtifactLedgerError -> BatchWorld (Work := Work) (CE := CE) (PE := PE) -> Prop) w :
  did i (bw_log w) = es -> es = [] \/ Claimed k ∈ es -> (forall receipt, r = Some receipt -> Acted k (Ok receipt) ∈ es) ->
  (forall s a s', meaning s = Some (a, s') -> legal k r s s') ->
  (forall e w', did i (bw_log w') = es \/ (es = [] /\ did i (bw_log w') = [Claimed k] /\
     exists s a s', meaning s = Some (a, s') /\ status k s = None /\ status k s' <> None) -> Q (Err e) w') ->
  (forall a w1 w', batch_inv w1 -> batch_rely i w w1 -> meaning (bw_ledger w1) = Some (a, bw_ledger w') ->
     did i (bw_log w') = es ++ did i (claims i k (bw_ledger w1) (bw_ledger w')) -> Q (Ok a) w') ->
  pwp i k (sql meaning) Q w.
Proof.
  intros Hw He Hr HL HE HA. unfold sql. eapply wp_ledger; [exact Hw | exact He | exact Hr | exact HL|].
  intros [a|] w' HX; apply wp_ret; cbn; [|by apply HE]. destruct HX as (w1 & HI & Hrel & HM & HD). by eapply HA.
Qed.

Lemma wp_find_existing i k es w :
  did i (bw_log w) = es -> es = [] \/ Claimed k ∈ es ->
  pwp i k (find_existing k)
    (fun x w' => did i (bw_log w') = es /\
       (forall row, x = Ok row -> artifact_rows (bw_ledger w') !! artifact_key k = Some row /\ same_artifact row k = true)) w.
Proof.
  intros Hw He. unfold find_existing. apply wp_try.
  eapply (wp_sql i k (select_artifact k) es None); [done | done | done | | |].
  - intros s a s' [= <- <-]. by split; [|left].
  - intros e w' [HD|(_ & _ & s & a & s' & [= <- <-] & HN & HS)]; [done | congruence].
  - intros a w1 w' _ _ [= <- HM] HD. rewrite HM in HD |- *.
    assert (did i (bw_log w') = es).
    { rewrite HD. unfold claims. destruct (status k (bw_ledger w')); by rewrite app_nil_r. }
    destruct (artifact_rows (bw_ledger w') !! artifact_key k) as [row|] eqn:HK; [|by apply wp_ret]. apply wp_pure_try.
    unfold validate_matching_reference. destruct (same_artifact row k) eqn:HS; [|done]. apply wp_ret. split; [done|]. by intros row' [= <-].
Qed.

Lemma wp_reserve_artifact i k w :
  did i (bw_log w) = [] ->
  pwp i k (reserve_artifact k)
    (fun x w' => ((did i (bw_log w') = [] /\ x <> Ok Reserved) \/ did i (bw_log w') = [Claimed k]) /\
       (forall r, x = Ok (Recorded r) -> did i (bw_log w') = [] /\ status k (bw_ledger w') = Some (Some r)) /\
       (x = Ok Pending -> did i (bw_log w') = [])) w.
Proof.
  intros Hw. unfold reserve_artifact. apply wp_pure_try. destruct (validate_reference k); [|split_and!; [by left | done | done]].
  apply wp_try. eapply (wp_sql i k (insert_artifact k) [] None); [done | by left | done | | |].
  - intros s n s' HM. by apply insert_artifact_facts in HM as [HL _].
  - intros e w' [HD|(_ & HD & _)]; split_and!; try done; [by left | by right].
  - intros n w1 w' _ _ HM HD. apply insert_artifact_facts in HM as (_ & H1 & H0).
    destruct (Z.eqb_spec n 1) as [Hn|Hn].
    + apply wp_ret. destruct (H1 Hn) as [HA HB]. split_and!; [|done|done]. right. rewrite HD. unfold claims. cbn [status artifact_view].
      rewrite HA, HB. by rewrite batch_did_own.
    + assert (HD' : did i (bw_log w') = []).
      { rewrite HD, (H0 Hn). unfold claims. by destruct (status k (bw_ledger w1)). }
      unfold classify_existing. apply wp_try. eapply wp_mono; [|apply (wp_find_existing i k []); [exact HD' | by left]].
      intros [row|e] w2 [HD2 HR]; [|split_and!; [by left | done | done]]. apply wp_ret. destruct (HR row eq_refl) as [HK HS].
      split; [left; split; [done|]; by repeat (destruct (str_eqb _ _))|]. split; [|done].
      intros r HX. split; [done|]. cbn. unfold artifact_status. rewrite HK. cbn [mbind option_bind]. rewrite HS. cbn [negb].
      destruct (str_eqb (row_status row) ##"pending"); [done|]. destruct (str_eqb (row_status row) ##"reconciled"); [|done].
      by injection HX as <-.
Qed.

Lemma wp_record_artifact i k work w :
  did i (bw_log w) = [Claimed k; Loaded k (Ok work); Acted k (Ok tt)] ->
  pwp i k (record_artifact_reconciled k)
    (fun x w' => did i (bw_log w') = [Claimed k; Loaded k (Ok work); Acted k (Ok tt)] /\
       (x = Ok tt -> status k (bw_ledger w') = Some (Some tt))) w.
Proof.
  intros Hw. unfold record_artifact_reconciled. apply wp_pure_try. destruct (validate_reference k); [|done].
  apply wp_try. eapply (wp_sql i k (update_reconciled k) _ (Some tt)); [exact Hw | right; by left | | | |].
  - intros [] _. by right; right; left.
  - intros s n s' HM. by apply update_reconciled_facts in HM as [HL _].
  - intros e w' [HD|[? _]]; [|done]. by split.
  - intros n w1 w' HI [_ HD1] HM HD. rewrite Hw in HD1.
    assert (HD' : did i (bw_log w') = [Claimed k; Loaded k (Ok work); Acted k (Ok tt)]).
    { rewrite HD. unfold claims. destruct (status k (bw_ledger w1)) eqn:HN; [by rewrite app_nil_r|].
      destruct (bi_free _ HI k i HN). apply batch_did_elem. rewrite HD1. by left. }
    apply update_reconciled_facts in HM as [_ H1]. destruct (Z.eqb_spec n 1) as [Hn|Hn].
    + apply wp_ret. split; [done|]. intros _. by apply H1.
    + unfold classify_record_conflict. apply wp_try. eapply wp_mono; [|eapply (wp_find_existing i k); [exact HD' | right; by left]].
      intros [row|e] w2 [HD2 _]; [apply wp_ret; done | done].
Qed.

#[export] Instance postgres_ledger_promises : BatchLedgerPromises (postgres_artifact_ledger (Work := Work) (CE := CE) (PE := PE)).
Proof.
  split; intros; [by apply wp_reserve_artifact|]. destruct r. by apply wp_record_artifact.
Qed.

Lemma pending_from_row_matches key row a :
  pending_from_row key row = Ok a -> artifact_key a = key /\ same_artifact row a = true.
Proof.
  unfold pending_from_row, batch_reference_new, artifact_reference_new, parse_artifact_kind.
  cbn [batch_scope catalog_id run_key provider_file_id reconciliation_key fst snd].
  destruct (negb _ || negb _ || negb _); [done|]. cbn [map_err].
  assert (HK : forall kd v, str_eqb v (artifact_kind_name kd) = true ->
    (if negb (valid_identifier (row_provider_file_id row)) || negb (valid_identifier key.2) then Err InvalidIdentifier
     else Ok {| artifact_batch := {| batch_scope := key.1; catalog_id := row_catalog_id row; run_key := row_run_key row |};
                artifact_kind := kd; provider_file_id := row_provider_file_id row; reconciliation_key := key.2 |}) = Ok a ->
    v = row_artifact_kind row -> artifact_key a = key /\ same_artifact row a = true).
  { intros kd v Hv. destruct (negb _ || negb _); [done|]. intros [= <-] ->. unfold artifact_key, same_artifact. cbn.
    rewrite !(proj2 (str_eqb_true _ _) eq_refl), Hv. by destruct key. }
  destruct (str_eqb (row_artifact_kind row) ##"output") eqn:H1.
  - intros HA. apply (HK Output (row_artifact_kind row) H1); [|done]. revert HA. cbn [fst snd]. destruct (negb _ || negb _); cbn [map_err]; [done | by intros [= <-]].
  - destruct (str_eqb (row_artifact_kind row) ##"error") eqn:H2; [|done].
    intros HA. apply (HK ErrorArtifact (row_artifact_kind row) H2); [|done]. revert HA. cbn [fst snd]. destruct (negb _ || negb _); cbn [map_err]; [done | by intros [= <-]].
Qed.

(** The artifacts that the ledger lists as pending are reserved and not reconciled, and no
    more than asked for. *)
Theorem pending_listed text_le limit t refs :
  pending text_le limit t = Ok refs ->
  (List.length refs <= limit)%nat /\ Forall (fun a => status a t = Some None) refs.
Proof.
  unfold pending. rewrite collect_results_Ok. intros HE. split.
  - apply (f_equal List.length) in HE. rewrite length_map, length_fmap, length_take in HE. lia.
  - apply Forall_forall. intros a Ha. assert (Hin : (Ok a : result _ PostgresAiBatchArtifactLedgerError) ∈ Ok <$> refs) by (by apply list_elem_of_fmap_2).
    rewrite <- HE in Hin. apply list_elem_of_In, in_map_iff in Hin as ([key row] & HP & Hin%list_elem_of_In).
    apply pending_from_row_matches in HP as [HK HS]. cbn [fst snd] in *.
    apply elem_of_take in Hin as (n & Hn%list_elem_of_lookup_2 & _). rewrite merge_sort_Permutation in Hn.
    apply list_elem_of_In, List.filter_In in Hn as [Hn HP]. apply list_elem_of_In, elem_of_map_to_list in Hn.
    cbn. unfold artifact_status. rewrite HK, Hn. cbn [mbind option_bind]. rewrite HS. cbn [negb]. cbn [snd] in HP. by rewrite HP.
Qed.
End postgres.

(** ** Two deliveries of one job *)

Module AiBatchExamples.
Notation Table := ArtifactTable.
Notation world := (BatchWorld (S := Table) (Ref := AiBatchArtifactReference) (Work := str) (R := unit) (CE := unit) (PE := unit)).
Notation bcall := (batch_call Table AiBatchArtifactReference str unit unit unit).
#[local] Instance ledger : BatchLedger Table AiBatchArtifactReference str unit unit unit PostgresAiBatchArtifactLedgerError := postgres_artifact_ledger.

(** Statements are executed; their answer is lost for callers in [unlucky]. *)
Definition reply (unlucky : list nat) (k : AiBatchArtifactReference) (i : nat) X (c : bcall X) (w : world) : option (X * world) :=
  match c in batch_call _ _ _ _ _ _ X return option (X * world) with
  | @LedgerStep _ _ _ _ _ _ A may_lose meaning =>
      match meaning (bw_ledger w) with
      | Some (a, s') =>
          Some (if bool_decide (i ∈ unlucky) && may_lose then None else Some a,
                {| bw_ledger := s'; bw_log := bw_log w ++ claims i k (bw_ledger w) s' |})
      | None => Some (None, {| bw_ledger := bw_ledger w; bw_log := bw_log w ++ claims i k (bw_ledger w) (bw_ledger w) |})
      end
  | LoadWork k' => Some (Ok ##"rows", {| bw_ledger := bw_ledger w; bw_log := bw_log w ++ [(i, Loaded k' (Ok ##"rows"))] |})
  | ActOn k' work => Some (Ok tt, {| bw_ledger := bw_ledger w; bw_log := bw_log w ++ [(i, Acted k' (Ok tt))] |})
  end.
Lemma batch_reply_answers unlucky k i X (c : bcall X) w x w' : reply unlucky k i X c w = Some (x, w') -> batch_answered i k c w x w'.
Proof.
  destruct c as [A lossy meaning|k'|k' work]; cbn.
  - destruct (meaning (bw_ledger w)) as [[a s']|] eqn:HM; intros [= <- <-].
    + exists s'. split; [|done]. left. exists a. split; [done|]. destruct (_ && lossy) eqn:HL; [right | by left].
      apply andb_true_iff in HL as [_ ->]. done.
    + exists (bw_ledger w). split; [by right | done].
  - by intros [= <- <-].
  - by intros [= <- <-].
Qed.

Definition artifact : AiBatchArtifactReference :=
  {| artifact_batch := {| batch_scope := ##"acme"; catalog_id := ##"c1"; run_key := ##"r1" |};
     artifact_kind := Output; provider_file_id := ##"file-1"; reconciliation_key := ##"k1" |}.
Definition context : JobContext :=
  {| ctx_id := 0; ctx_name := NAME (J := AiBatchArtifactReconciliationJob); ctx_version := 1;
     ctx_idempotency_key := Some ##"k1"; ctx_attempt := 1; ctx_trace_context := None |}.
Definition delivery : client := Deliver artifact context.

Definition State : Type :=
  Effects.system (call := bcall) world (client (Ref := AiBatchArtifactReference))
    (outcome (Ref := AiBatchArtifactReference) (R := unit) (CE := unit) (PE := unit) (LE := PostgresAiBatchArtifactLedgerError)).
Definition empty : State :=
  {| Effects.world := {| bw_ledger := {| artifact_rows := ∅; artifact_now := 0 |}; bw_log := [] |}; callers := [] |}.
Definition deliver_to (unlucky : list nat) : State -> option State :=
  run_client (client_prog reconciliation_key) (reply unlucky artifact) delivery.
Definition twice : option State := deliver_to [] empty ≫= deliver_to [].
(** The answers to the statements of the first delivery are lost. *)
Definition after_loss : option State := deliver_to [0%nat] empty ≫= deliver_to [0%nat].

Lemma batch_twice_answers : (fun s => (th_rest <$> callers s, count (is_act artifact) (bw_log (Effects.world s)))) <$> twice =
  Some ([Ret (DeliverDone (Ok tt)); Ret (DeliverDone (Ok tt))], 1%nat).
Proof. vm_compute. reflexivity. Qed.
Example loss_stays_pending : (fun s => (th_rest <$> callers s, count (is_act artifact) (bw_log (Effects.world s)))) <$> after_loss =
  Some ([Ret (DeliverDone (Err (Runner (LedgerReserve Storage)))); Ret (DeliverDone (Err (Runner (PendingReference artifact))))], 0%nat).
Proof. vm_compute. reflexivity. Qed.

Lemma batch_empty_reachable : reachable reconciliation_key empty.
Proof.
  exists empty. split; [|done]. split_and!; [done | done |]. intros k. cbn. unfold artifact_status. cbn. by rewrite lookup_empty.
Qed.
Lemma deliver_reachable unlucky s s' : reachable reconciliation_key s -> deliver_to unlucky s = Some s' -> reachable reconciliation_key s'.
Proof.
  intros (s0 & H0 & HS) HR. exists s0. split; [done|]. etrans; [exact HS|].
  eapply (run_client_steps (client_prog reconciliation_key) answered batch_background); [|exact HR].
  intros i X f w x w' HX. exact (batch_reply_answers unlucky artifact i X f w x w' HX).
Qed.

Lemma batch_acts_once_witness :
  exists s, twice = Some s /\ (count (is_act artifact) (bw_log (Effects.world s)) <= 1)%nat /\
    (status artifact (bw_ledger (Effects.world s)) = Some (Some tt) -> exists i, (i, Acted artifact (Ok tt)) ∈ bw_log (Effects.world s)).
Proof.
  destruct twice as [s|] eqn:HT; [|pose proof batch_twice_answers as HA; rewrite HT in HA; discriminate HA].
  exists s. split; [reflexivity|].
  assert (HR : reachable reconciliation_key s).
  { revert HT. unfold twice. intros (s1 & H1 & H2)%bind_Some. eapply deliver_reachable; [|exact H2].
    eapply deliver_reachable; [apply batch_empty_reachable | exact H1]. }
  destruct (batch_acts_once reconciliation_key s HR) as (HC & HS & _). split; [apply HC | apply HS].
Defined.
End AiBatchExamples.
