(* ===== verification/AiRag.v ===== *)
(** Retrieval-augmented generation: [crates/rustee-ai-rag], [ingestion.rs] and [retrieval]
    with their models, the advisor of [crates/rustee-ai-rag-advisor] and the job of
    [crates/rustee-ai-rag-jobs].

    Ingestion, retrieval and the advisor are programs over their calls to what the
    application brings along; nothing is assumed of the answers. Vectors are lists of
    numbers of a type of their own. *)

From Stdlib Require Import ZArith Lia Bool Ascii.
From stdpp Require Import gmap.
From S2P Require Import Prelude Strings Json Uuid Core JobEnvelope Jobs Effects AiProtocol.

Local Open Scope Z_scope.

Definition contains_nul (value : str) : bool := contains_char NUL_byte value.

(** ** Citations and chunks: [retrieval/model/content.rs] *)

Definition MAX_RETRIEVAL_IDENTIFIER_BYTES : nat := 255.
Definition MAX_RETRIEVAL_CITATION_FIELD_BYTES : nat := 4 * 1024.
Definition MAX_RETRIEVAL_CONTEXT_BYTES : Z := 4 * 1024 * 1024.
Definition MAX_RETRIEVED_CHUNK_CONTENT_BYTES : Z := MAX_RETRIEVAL_CONTEXT_BYTES.

Inductive FieldError : Type := BlankField | FieldTooLong | FieldContainsNul.

Record Citation : Type := { source_uri : str; title : str }.
Definition citation_new (source_uri title : str) : result Citation FieldError :=
  if is_blank source_uri || is_blank title then Err BlankField
  else if (MAX_RETRIEVAL_CITATION_FIELD_BYTES <? List.length source_uri)%nat
          || (MAX_RETRIEVAL_CITATION_FIELD_BYTES <? List.length title)%nat then Err FieldTooLong
  else if contains_nul source_uri || contains_nul title then Err FieldContainsNul
  else Ok {| source_uri := source_uri; title := title |}.

Record RetrievedChunk : Type := {
  rc_chunk_id : str; rc_document_id : str; rc_tenant : str; rc_content : str; rc_citation : Citation
}.
Definition retrieved_chunk_new (chunk_id document_id tenant content : str) (citation : Citation) :
    result RetrievedChunk FieldError :=
  if existsb is_blank [chunk_id; document_id; tenant; content] then Err BlankField
  else if (MAX_RETRIEVAL_IDENTIFIER_BYTES <? List.length chunk_id)%nat
          || (MAX_RETRIEVAL_IDENTIFIER_BYTES <? List.length document_id)%nat
          || (MAX_TENANT_BYTES <? List.length tenant)%nat
          || (MAX_RETRIEVED_CHUNK_CONTENT_BYTES <? Z.of_nat (List.length content)) then Err FieldTooLong
  else if existsb contains_nul [chunk_id; document_id; tenant; content] then Err FieldContainsNul
  else Ok {| rc_chunk_id := chunk_id; rc_document_id := document_id; rc_tenant := tenant; rc_content := content;
             rc_citation := citation |}.

(** ** Scopes and queries: [retrieval/model/scope.rs], [retrieval/model/query.rs] *)

Definition MAX_RETRIEVAL_SCOPE_DOCUMENTS : nat := 10000.
Record RetrievalScope : Type := { scope_tenant : str; allowed_document_ids : gset str }.
Inductive RetrievalScopeError : Type :=
| BlankTenant | TenantTooLong | TenantContainsNul | EmptyAllowlist
| BlankDocumentId | DocumentIdTooLong | DocumentIdContainsNul | TooManyDocumentIds.

Fixpoint allow_documents (received : nat) (ids : list str) (allowed : gset str) : result (gset str) RetrievalScopeError :=
  match ids with
  | [] => Ok allowed
  | id :: ids =>
      if (MAX_RETRIEVAL_SCOPE_DOCUMENTS <=? received)%nat then Err TooManyDocumentIds
      else if is_blank id then Err BlankDocumentId
      else if (MAX_RETRIEVAL_IDENTIFIER_BYTES <? List.length id)%nat then Err DocumentIdTooLong
      else if contains_nul id then Err DocumentIdContainsNul
      else allow_documents (S received) ids ({[id]} ∪ allowed)
  end.
Definition scope_new (tenant : str) (ids : list str) : result RetrievalScope RetrievalScopeError :=
  if is_blank tenant then Err BlankTenant
  else if (MAX_TENANT_BYTES <? List.length tenant)%nat then Err TenantTooLong
  else if contains_nul tenant then Err TenantContainsNul
  else
    let? allowed := allow_documents 0 ids ∅ in
    if bool_decide (allowed = ∅) then Err EmptyAllowlist
    else Ok {| scope_tenant := tenant; allowed_document_ids := allowed |}.
Definition permits_document (s : RetrievalScope) (document_id : str) : bool := bool_decide (document_id ∈ allowed_document_ids s).

Definition DEFAULT_RETRIEVAL_CONTEXT_BYTES : Z := 512 * 1024.
Definition MAX_RETRIEVAL_QUERY_BYTES : Z := 64 * 1024.
Definition MAX_RETRIEVAL_CHUNKS : nat := 1000.
Record RetrievalQuery : Type := { query_text : str; query_scope : RetrievalScope; max_chunks : nat; max_context_bytes : Z }.
Inductive RetrievalQueryError : Type :=
| BlankText | QueryTextTooLong | QueryTextContainsNul | ZeroMaxChunks | MaxChunksLimit | ZeroMaxContextBytes | MaxContextBytesLimit.
Definition query_new (text : str) (scope : RetrievalScope) (max_chunks : nat) : result RetrievalQuery RetrievalQueryError :=
  if is_blank text then Err BlankText
  else if MAX_RETRIEVAL_QUERY_BYTES <? Z.of_nat (List.length text) then Err QueryTextTooLong
  else if contains_nul text then Err QueryTextContainsNul
  else if (max_chunks =? 0)%nat then Err ZeroMaxChunks
  else if (MAX_RETRIEVAL_CHUNKS <? max_chunks)%nat then Err MaxChunksLimit
  else Ok {| query_text := text; query_scope := scope; max_chunks := max_chunks; max_context_bytes := DEFAULT_RETRIEVAL_CONTEXT_BYTES |}.
Definition with_max_context_bytes (n : Z) (q : RetrievalQuery) : result RetrievalQuery RetrievalQueryError :=
  if n =? 0 then Err ZeroMaxContextBytes
  else if MAX_RETRIEVAL_CONTEXT_BYTES <? n then Err MaxContextBytesLimit
  else Ok {| query_text := query_text q; query_scope := query_scope q; max_chunks := max_chunks q; max_context_bytes := n |}.

(** ** Documents: [ingestion/model/reference.rs], [ingestion/model/content.rs] *)

Definition MAX_DOCUMENT_REFERENCE_FIELD_BYTES : nat := 255.
Record DocumentReference : Type := { doc_tenant : str; doc_id : str; doc_version : str; doc_checksum : str }.
Definition document_reference_new (tenant id version checksum : str) : result DocumentReference FieldError :=
  let fields := [tenant; id; version; checksum] in
  if existsb is_blank fields then Err BlankField
  else if existsb (fun value => (MAX_DOCUMENT_REFERENCE_FIELD_BYTES <? List.length value)%nat) fields then Err FieldTooLong
  else if existsb contains_nul fields then Err FieldContainsNul
  else Ok {| doc_tenant := tenant; doc_id := id; doc_version := version; doc_checksum := checksum |}.
(** What is decoded is checked like what is built. *)
Definition document_reference_deserialize (r : DocumentReference) : result DocumentReference FieldError :=
  document_reference_new (doc_tenant r) (doc_id r) (doc_version r) (doc_checksum r).
#[export] Instance document_reference_eq_dec : EqDecision DocumentReference.
Proof. solve_decision. Defined.

Record RagIngestionRequest : Type := { ing_document : DocumentReference; ing_embedding_model : str }.
Inductive RagIngestionRequestError : Type := BlankEmbeddingModel | EmbeddingModelTooLong | EmbeddingModelContainsNul.
Definition embedding_model_error (e : ModelAliasError) : RagIngestionRequestError :=
  match e with
  | AliasBlank => BlankEmbeddingModel
  | AliasTooLong => EmbeddingModelTooLong
  | AliasContainsNul => EmbeddingModelContainsNul
  end.
Definition ingestion_request_new (document : DocumentReference) (model : str) : result RagIngestionRequest RagIngestionRequestError :=
  let? _ := map_err embedding_model_error (validate_model_alias model) in
  Ok {| ing_document := document; ing_embedding_model := model |}.

Inductive RequestDecodeError : Type := DecodedDocument (e : FieldError) | DecodedModel (e : RagIngestionRequestError).
Definition ingestion_request_deserialize (r : RagIngestionRequest) : result RagIngestionRequest RequestDecodeError :=
  let? document := map_err DecodedDocument (document_reference_deserialize (ing_document r)) in
  map_err DecodedModel (ingestion_request_new document (ing_embedding_model r)).

Definition MAX_INGESTION_CHUNK_ID_BYTES : nat := 255.
Definition MAX_INGESTION_CHUNK_CONTENT_BYTES : Z := 512 * 1024.
Record IngestionDocument : Type := { document_reference : DocumentReference; document_content : str; document_citation : Citation }.
Inductive IngestionDocumentError : Type := BlankContent | ContentContainsNul.
Definition ingestion_document_new (reference : DocumentReference) (content : str) (citation : Citation) :
    result IngestionDocument IngestionDocumentError :=
  if is_blank content then Err BlankContent
  else if contains_nul content then Err ContentContainsNul
  else Ok {| document_reference := reference; document_content := content; document_citation := citation |}.

Inductive ChunkError : Type := ChunkBlankField | ChunkIdTooLong | ContentTooLong | ChunkFieldContainsNul.
(** The checks that chunks and the inputs of an embedding share. *)
Definition check_chunk (chunk_id content : str) : result unit ChunkError :=
  if is_blank chunk_id || is_blank content then Err ChunkBlankField
  else if (MAX_INGESTION_CHUNK_ID_BYTES <? List.length chunk_id)%nat then Err ChunkIdTooLong
  else if MAX_INGESTION_CHUNK_CONTENT_BYTES <? Z.of_nat (List.length content) then Err ContentTooLong
  else if contains_nul chunk_id || contains_nul content then Err ChunkFieldContainsNul
  else Ok tt.
Record IngestionChunk : Type := { chunk_id : str; chunk_document : DocumentReference; chunk_content : str; chunk_citation : Citation }.
Definition ingestion_chunk_new (id : str) (document : DocumentReference) (content : str) (citation : Citation) :
    result IngestionChunk ChunkError :=
  let? _ := check_chunk id content in
  Ok {| chunk_id := id; chunk_document := document; chunk_content := content; chunk_citation := citation |}.

(** ** Embeddings: [ingestion/model/embedding.rs] *)

Definition DEFAULT_EMBEDDING_BATCH_INPUTS : nat := 100.
Definition DEFAULT_EMBEDDING_BATCH_CONTENT_BYTES : Z := 512 * 1024.
Record EmbeddingBatchLimits : Type := { max_inputs : nat; max_content_bytes : Z }.
Inductive EmbeddingBatchLimitsError : Type := ZeroMaxInputs | ZeroMaxContentBytes.
Definition batch_limits_new (inputs : nat) (content_bytes : Z) : result EmbeddingBatchLimits EmbeddingBatchLimitsError :=
  if (inputs =? 0)%nat then Err ZeroMaxInputs
  else if content_bytes =? 0 then Err ZeroMaxContentBytes
  else Ok {| max_inputs := inputs; max_content_bytes := content_bytes |}.
Definition batch_limits_default : EmbeddingBatchLimits :=
  {| max_inputs := DEFAULT_EMBEDDING_BATCH_INPUTS; max_content_bytes := DEFAULT_EMBEDDING_BATCH_CONTENT_BYTES |}.

Record EmbeddingInput : Type := { input_chunk_id : str; input_content : str }.
Definition embedding_input_new (id content : str) : result EmbeddingInput ChunkError :=
  let? _ := check_chunk id content in Ok {| input_chunk_id := id; input_content := content |}.
Definition from_chunk (c : IngestionChunk) : EmbeddingInput :=
  {| input_chunk_id := chunk_id c; input_content := chunk_content c |}.

Section vectors.
Context {F32 : Type} (is_finite : F32 -> bool).
Record Embedding : Type := { values : list F32 }.
Inductive EmbeddingError : Type := EmptyVector | NonFinite.
Definition embedding_new (l : list F32) : result Embedding EmbeddingError :=
  match l with
  | [] => Err EmptyVector
  | _ => if existsb (fun x => negb (is_finite x)) l then Err NonFinite else Ok {| values := l |}
  end.
Record EmbeddedChunk : Type := { embedded_chunk : IngestionChunk; embedded_model : str; embedding : Embedding }.
End vectors.
Arguments Embedding : clear implicits.
Arguments EmbeddedChunk : clear implicits.

(** ** Vector indexes: [ingestion/model/contracts.rs] *)

Inductive VectorStoreCapability : Type := MetadataFilter | DeleteByDocument | HybridSearch.
Record VectorStoreCapabilities : Type := { metadata_filter : bool; delete_by_document : bool; hybrid_search : bool }.
Definition vector_supports (s : VectorStoreCapabilities) (capability : VectorStoreCapability) : bool :=
  match capability with
  | MetadataFilter => metadata_filter s
  | DeleteByDocument => delete_by_document s
  | HybridSearch => hybrid_search s
  end.

(** ** Calls *)

Section rag.
Context {F32 LE KE EE IE SE : Type}.
Notation Embedding := (Embedding F32).
Notation EmbeddedChunk := (EmbeddedChunk F32).

Inductive rag_call : Type -> Type :=
| LoadDocument (r : RagIngestionRequest) : rag_call (result IngestionDocument LE)
| ChunkDocument (d : IngestionDocument) : rag_call (result (list IngestionChunk) KE)
| Embed (model : str) (inputs : list EmbeddingInput) : rag_call (result (list Embedding) EE)
| Upsert (records : list EmbeddedChunk) : rag_call (result unit IE)
| Search (q : RetrievalQuery) : rag_call (result (list RetrievedChunk) SE).

(** ** Ingestion: [ingestion.rs] *)

Inductive RagIngestionError : Type :=
| LoadError (e : LE) | ChunkerError (e : KE) | EmbedError (e : EE) | IndexError (e : IE)
| DocumentMismatch | EmptyChunks | ChunkDocumentMismatch | DuplicateChunkId
| EmbeddingCountMismatch (chunks embeddings : nat)
| EmbeddingInputTooLarge (content_bytes max_content_bytes : Z)
| EmbeddingDimensionMismatch (expected received : nat).
Record IngestionReport : Type := { report_document : DocumentReference; report_model : str; report_chunks : nat }.

Fixpoint check_chunks (document : DocumentReference) (seen : gset str) (chunks : list IngestionChunk) :
    result unit RagIngestionError :=
  match chunks with
  | [] => Ok tt
  | c :: chunks =>
      if negb (bool_decide (chunk_document c = document)) then Err ChunkDocumentMismatch
      else if bool_decide (chunk_id c ∈ seen) then Err DuplicateChunkId
      else check_chunks document ({[chunk_id c]} ∪ seen) chunks
  end.

Fixpoint check_dimensions (dimensions : option nat) (vectors : list Embedding) : result (option nat) RagIngestionError :=
  match vectors with
  | [] => Ok dimensions
  | v :: vectors =>
      let received := List.length (values v) in
      match dimensions with
      | Some expected =>
          if negb (received =? expected)%nat then Err (EmbeddingDimensionMismatch expected received)
          else check_dimensions dimensions vectors
      | None => check_dimensions (Some received) vectors
      end
  end.

Definition embed_batch (model : str) (inputs : list EmbeddingInput) (embeddings : list Embedding) (dimensions : option nat) :
    program rag_call (result (list Embedding * option nat) RagIngestionError) :=
  try_ EmbedError (ask (Embed model inputs)) (fun batch =>
  if negb (List.length batch =? List.length inputs)%nat
  then Ret (Err (EmbeddingCountMismatch (List.length inputs) (List.length batch)))
  else pure_try (fun e => e) (check_dimensions dimensions batch) (fun dimensions =>
  Ret (Ok (embeddings ++ batch, dimensions)))).

Definition content_bytes (i : EmbeddingInput) : Z := Z.of_nat (List.length (input_content i)).

(** The loop over the chunks, and the last batch. *)
Fixpoint embed_chunks (model : str) (limits : EmbeddingBatchLimits) (chunks : list IngestionChunk)
    (inputs : list EmbeddingInput) (input_bytes : Z) (embeddings : list Embedding) (dimensions : option nat) :
    program rag_call (result (list Embedding) RagIngestionError) :=
  match chunks with
  | [] =>
      match inputs with
      | [] => Ret (Ok embeddings)
      | _ => try_ (fun e => e) (embed_batch model inputs embeddings dimensions) (fun r => Ret (Ok (fst r)))
      end
  | c :: chunks =>
      let input := from_chunk c in
      let bytes := content_bytes input in
      if max_content_bytes limits <? bytes then Ret (Err (EmbeddingInputTooLarge bytes (max_content_bytes limits)))
      else if negb (List.length inputs =? 0)%nat
              && ((max_inputs limits <=? List.length inputs)%nat || (max_content_bytes limits - bytes <? input_bytes)) then
        try_ (fun e => e) (embed_batch model inputs embeddings dimensions) (fun r =>
        embed_chunks model limits chunks [input] bytes (fst r) (snd r))
      else embed_chunks model limits chunks (inputs ++ [input]) (input_bytes + bytes) embeddings dimensions
  end.

(** [limits] are those of the embedding provider. *)
Definition ingest (limits : EmbeddingBatchLimits) (request : RagIngestionRequest) :
    program rag_call (result IngestionReport RagIngestionError) :=
  let document := ing_document request in
  let model := ing_embedding_model request in
  try_ LoadError (ask (LoadDocument request)) (fun loaded =>
  if negb (bool_decide (document_reference loaded = document)) then Ret (Err DocumentMismatch)
  else try_ ChunkerError (ask (ChunkDocument loaded)) (fun chunks =>
  if (List.length chunks =? 0)%nat then Ret (Err EmptyChunks)
  else pure_try (fun e => e) (check_chunks document ∅ chunks) (fun _ =>
  try_ (fun e => e) (embed_chunks model limits chunks [] 0 [] None) (fun embeddings =>
  let records := zip_with (fun c v => {| embedded_chunk := c; embedded_model := model; embedding := v |}) chunks embeddings in
  try_ IndexError (ask (Upsert records)) (fun _ =>
  Ret (Ok {| report_document := document; report_model := model; report_chunks := List.length chunks |})))))).

(** The job of [crates/rustee-ai-rag-jobs]. *)
Inductive RagIngestionJobError : Type := IngestionRunner (e : RagIngestionError).
Record RagIngestionJob : Type := { ingestion_request : RagIngestionRequest }.
#[export] Instance ingestion_job : Job RagIngestionJob := {| NAME := ##"ai.rag.ingest-document"; VERSION := 1 |}.
Definition ingestion_handle (limits : EmbeddingBatchLimits) (payload : RagIngestionJob) (context : JobContext) :
    program rag_call (result unit RagIngestionJobError) :=
  try_ IngestionRunner (ingest limits (ingestion_request payload)) (fun _ => Ret (Ok tt)).

(** ** Retrieval: [retrieval/service.rs] *)

Inductive RagError : Type := RagStore (e : SE) | ScopeViolation | ContextLimit.

Definition in_scope (s : RetrievalScope) (c : RetrievedChunk) : bool :=
  str_eqb (rc_tenant c) (scope_tenant s) && permits_document s (rc_document_id c).
Fixpoint retain (bytes limit : Z) (chunks retained : list RetrievedChunk) : result (list RetrievedChunk) RagError :=
  match chunks with
  | [] => Ok retained
  | c :: chunks =>
      let bytes := saturating_add u64_max bytes (Z.of_nat (List.length (rc_content c))) in
      if limit <? bytes then Err ContextLimit else retain bytes limit chunks (retained ++ [c])
  end.
Definition retrieve (q : RetrievalQuery) : program rag_call (result (list RetrievedChunk) RagError) :=
  try_ RagStore (ask (Search q)) (fun chunks =>
  Ret (if negb (forallb (in_scope (query_scope q)) chunks) then Err ScopeViolation
       else retain 0 (max_context_bytes q) (take (max_chunks q) chunks) [])).
Definition citations (chunks : list RetrievedChunk) : list Citation := map rc_citation chunks.

(** ** The advisor: [crates/rustee-ai-rag-advisor] *)

Section advisor.
Context {Value QE RE : Type}.
Context (build : ChatRequest Value -> result RetrievalQuery QE) (render : list RetrievedChunk -> result ChatMessage RE).
Inductive RagAdvisorError : Type := AdvisorQuery (e : QE) | AdvisorRetrieval (e : RagError) | AdvisorRender (e : RE).
Definition rag_before_request (request : ChatRequest Value) : program rag_call (result (ChatRequest Value) RagAdvisorError) :=
  pure_try AdvisorQuery (build request) (fun query =>
  try_ AdvisorRetrieval (retrieve query) (fun context =>
  pure_try AdvisorRender (render context) (fun message =>
  Ret (Ok (with_added_message message request))))).
End advisor.
End rag.
Arguments rag_call : clear implicits.
Arguments RagIngestionError : clear implicits.

(** A request that was built survives its encoding in a job. *)
Theorem ingestion_request_survives tenant i version checksum document model request :
  document_reference_new tenant i version checksum = Ok document -> ingestion_request_new document model = Ok request ->
  ingestion_request_deserialize request = Ok request.
Proof.
  intros HD HR. assert (HD' : document_reference_deserialize document = Ok document).
  { assert (document = {| doc_tenant := tenant; doc_id := i; doc_version := version; doc_checksum := checksum |}) as ->; [|exact HD].
    unfold document_reference_new in HD. repeat (destruct (existsb _ _); [done|]). congruence. }
  unfold ingestion_request_new in HR. unfold ingestion_request_deserialize, ingestion_request_new.
  destruct (validate_model_alias model) eqn:HM; cbn in HR; [|done]. simplify_eq.
  cbn [ing_document ing_embedding_model]. rewrite HD'. cbn. by rewrite HM.
Qed.

(** ** Runs of an ingestion *)

Section ingestion.
Context {F32 LE KE EE IE SE : Type}.
Notation rag_call := (rag_call F32 LE KE EE IE SE).
Notation Embedding := (Embedding F32).

Inductive event : Type :=
| Loaded (r : RagIngestionRequest) (x : result IngestionDocument LE)
| Chunked (d : IngestionDocument) (x : result (list IngestionChunk) KE)
| Embedded (model : str) (inputs : list EmbeddingInput) (x : result (list Embedding) EE)
| Upserted (records : list (EmbeddedChunk F32)) (x : result unit IE)
| Searched (q : RetrievalQuery) (x : result (list RetrievedChunk) SE).
Definition event_of X (c : rag_call X) : X -> event :=
  match c in AiRag.rag_call _ _ _ _ _ _ X return X -> event with
  | LoadDocument r => Loaded r
  | ChunkDocument d => Chunked d
  | Embed model inputs => Embedded model inputs
  | Upsert records => Upserted records
  | Search q => Searched q
  end.

Context (limits : EmbeddingBatchLimits) (request : RagIngestionRequest).
Notation model := (ing_embedding_model request).
Notation document := (ing_document request).

(** A batch keeps the provider's limits. *)
Definition total_bytes (inputs : list EmbeddingInput) : Z := foldr (fun i n => content_bytes i + n) 0 inputs.
Definition within (inputs : list EmbeddingInput) : Prop :=
  inputs <> [] /\ (List.length inputs <= max_inputs limits)%nat /\ total_bytes inputs <= max_content_bytes limits.
Definition batch_ok (b : list EmbeddingInput * list Embedding) : Prop := within b.1 /\ List.length b.2 = List.length b.1.
Definition embedded (b : list EmbeddingInput * list Embedding) : event := Embedded model b.1 (Ok b.2).
Definition batch_inputs (bs : list (list EmbeddingInput * list Embedding)) : list EmbeddingInput := concat (map fst bs).
Definition batch_vectors (bs : list (list EmbeddingInput * list Embedding)) : list Embedding := concat (map snd bs).

Definition chunks_ok (chunks : list IngestionChunk) : Prop :=
  chunks <> [] /\ Forall (fun c => chunk_document c = document) chunks /\ NoDup (map chunk_id chunks).
Definition one_dimension (vectors : list Embedding) : Prop :=
  exists n, Forall (fun v => List.length (values v) = n) vectors.
Definition records_of (chunks : list IngestionChunk) (vectors : list Embedding) : list (EmbeddedChunk F32) :=
  zip_with (fun c v => {| embedded_chunk := c; embedded_model := model; embedding := v |}) chunks vectors.
Definition begun (d : IngestionDocument) (chunks : list IngestionChunk) : list event :=
  [Loaded request (Ok d); Chunked d (Ok chunks)].

(** What an ingestion has done when it is observed anywhere: every batch is within the limits
    and continues the inputs of the chunks in their order, and the index is written at most
    once, with one vector of the same dimension for each chunk. *)
Inductive ingest_trace : list event -> Prop :=
| it_nil : ingest_trace []
| it_loaded x : ingest_trace [Loaded request x]
| it_chunked d x : document_reference d = document -> ingest_trace [Loaded request (Ok d); Chunked d x]
| it_embedding d chunks bs inputs x :
    document_reference d = document -> chunks_ok chunks -> Forall batch_ok bs -> within inputs ->
    batch_inputs bs ++ inputs `prefix_of` map from_chunk chunks ->
    ingest_trace (begun d chunks ++ map embedded bs ++ [Embedded model inputs x])
| it_upserted d chunks bs x :
    document_reference d = document -> chunks_ok chunks -> Forall batch_ok bs ->
    batch_inputs bs = map from_chunk chunks -> List.length (batch_vectors bs) = List.length chunks ->
    one_dimension (batch_vectors bs) ->
    ingest_trace (begun d chunks ++ map embedded bs ++ [Upserted (records_of chunks (batch_vectors bs)) x]).

Definition ingest_post (r : result IngestionReport (RagIngestionError LE KE EE IE)) (es : list event) : Prop :=
  match r with
  | Ok report =>
      exists d chunks bs,
        report = {| report_document := document; report_model := model; report_chunks := List.length chunks |} /\
        es = begun d chunks ++ map embedded bs ++ [Upserted (records_of chunks (batch_vectors bs)) (Ok tt)]
  | Err (IndexError e) => exists records, Upserted records (Err e) ∈ es
  | Err _ => forall records x, Upserted records x ∉ es
  end.

(** ** Lemmas *)

Notation rwp := (wp eq (recorded event_of) ingest_trace (fun _ _ => True)).

Lemma wp_recorded_call {A X} (c : rag_call X) (f : X -> program rag_call A) Q w :
  (forall x, ingest_trace (w ++ [event_of X c x]) /\ rwp (f x) Q (w ++ [event_of X c x])) -> rwp (ask c ≫= f) Q w.
Proof. intros HF. apply wp_ask. intros w1 <- _ x w2 ->. destruct (HF x). split_and!; done. Qed.

Lemma check_chunks_ok seen chunks :
  check_chunks (LE := LE) (KE := KE) (EE := EE) (IE := IE) document seen chunks = Ok tt ->
  Forall (fun c => chunk_document c = document) chunks /\ NoDup (map chunk_id chunks) /\ Forall (fun c => chunk_id c ∉ seen) chunks.
Proof.
  revert seen. induction chunks as [|c chunks IH]; intros seen; cbn; [by repeat constructor|].
  case_bool_decide as HD; [|done]. cbn. case_bool_decide as HS; [done|]. intros (H1 & H2 & H3)%IH. split_and!.
  - by constructor.
  - constructor; [|done]. intros (c' & HE & Hin)%list_elem_of_fmap. rewrite Forall_forall in H3. apply H3 in Hin. set_solver.
  - constructor; [done|]. eapply Forall_impl; [exact H3|]. cbn. set_solver.
Qed.

Definition dimensions_are (dimensions : option nat) (vectors : list Embedding) : Prop :=
  match dimensions with
  | None => vectors = []
  | Some n => Forall (fun v => List.length (values v) = n) vectors
  end.
Lemma dimensions_one dimensions vectors : dimensions_are dimensions vectors -> one_dimension vectors.
Proof. destruct dimensions as [n|]; [by exists n|]. intros ->. by exists 0%nat. Qed.
Lemma check_dimensions_are dimensions before batch dimensions' :
  check_dimensions (LE := LE) (KE := KE) (EE := EE) (IE := IE) dimensions batch = Ok dimensions' ->
  dimensions_are dimensions before -> dimensions_are dimensions' (before ++ batch).
Proof.
  revert dimensions before. induction batch as [|v batch IH]; intros dimensions before; cbn; [intros [= <-]; by rewrite app_nil_r|].
  intros HC HB. change (v :: batch) with ([v] ++ batch). rewrite app_assoc. destruct dimensions as [n|].
  - destruct (Nat.eqb_spec (List.length (values v)) n) as [HE|]; [|done]. eapply IH; [exact HC|]. cbn in *.
    apply Forall_app. split; [done|]. by constructor.
  - eapply IH; [exact HC|]. cbn in *. subst. by constructor.
Qed.

Lemma batch_lengths bs : Forall batch_ok bs -> List.length (batch_vectors bs) = List.length (batch_inputs bs).
Proof.
  unfold batch_vectors, batch_inputs. induction 1 as [|b bs [_ HB] _ IH]; [done|]. cbn. by rewrite !length_app, HB, IH.
Qed.
Lemma batch_inputs_snoc bs i v : batch_inputs (bs ++ [(i, v)]) = batch_inputs bs ++ i.
Proof. unfold batch_inputs. by rewrite map_app, concat_app; cbn; rewrite app_nil_r. Qed.
Lemma batch_vectors_snoc bs i v : batch_vectors (bs ++ [(i, v)]) = batch_vectors bs ++ v.
Proof. unfold batch_vectors. by rewrite map_app, concat_app; cbn; rewrite app_nil_r. Qed.
Lemma total_bytes_snoc inputs i : total_bytes (inputs ++ [i]) = total_bytes inputs + content_bytes i.
Proof. unfold total_bytes. induction inputs as [|x inputs IH]; cbn; [lia|]. rewrite IH. lia. Qed.

(** No write of the index in the calls so far. *)
Lemma embedded_not_upserted bs records x : Upserted records x ∉ map embedded bs.
Proof. intros (b & HE & _)%list_elem_of_fmap. discriminate. Qed.
Lemma begun_not_upserted d chunks bs records x : Upserted records x ∉ begun d chunks ++ map embedded bs.
Proof.
  rewrite elem_of_app. intros [HE|HE]; [|by apply embedded_not_upserted in HE]. unfold begun in HE. rewrite !elem_of_cons in HE.
  destruct HE as [?|[?|HE]]; [done..|by apply not_elem_of_nil in HE].
Qed.

(** An ingestion that stops before the index. *)
Definition before_index (e : RagIngestionError LE KE EE IE) : Prop :=
  match e with IndexError _ => False | _ => True end.
Definition aborted (e : RagIngestionError LE KE EE IE) (es : list event) : Prop :=
  before_index e /\ forall records x, Upserted records x ∉ es.
Lemma aborted_post e es : aborted e es -> ingest_post (Err e) es.
Proof. intros [HB HE]. by destruct e. Qed.
Lemma aborted_begun e d chunks bs : before_index e -> aborted e (begun d chunks ++ map embedded bs).
Proof. split; [done|]. intros records x. apply begun_not_upserted. Qed.
Lemma aborted_embedding e d chunks bs inputs x :
  before_index e -> aborted e ((begun d chunks ++ map embedded bs) ++ [Embedded model inputs x]).
Proof.
  split; [done|]. intros records y. rewrite elem_of_app, list_elem_of_singleton. intros [HE|HE]; [|done].
  by apply begun_not_upserted in HE.
Qed.
Lemma check_chunks_error seen chunks e : check_chunks document seen chunks = Err e -> before_index e.
Proof. revert seen. induction chunks as [|c chunks IH]; intros seen; cbn; [done|]. repeat case_match; naive_solver. Qed.
Lemma check_dimensions_error dimensions (batch : list Embedding) e : check_dimensions dimensions batch = Err e -> before_index e.
Proof.
  revert dimensions. induction batch as [|v batch IH]; intros dimensions; cbn; [done|]. repeat case_match; naive_solver.
Qed.

Section document.
Context (d : IngestionDocument) (chunks : list IngestionChunk).
Context (Hd : document_reference d = document) (Hchunks : chunks_ok chunks).

Lemma wp_embed_batch bs inputs dimensions Q :
  Forall batch_ok bs -> within inputs -> batch_inputs bs ++ inputs `prefix_of` map from_chunk chunks ->
  dimensions_are dimensions (batch_vectors bs) ->
  (forall vectors dimensions', batch_ok (inputs, vectors) ->
     dimensions_are dimensions' (batch_vectors (bs ++ [(inputs, vectors)])) ->
     Q (Ok (batch_vectors (bs ++ [(inputs, vectors)]), dimensions')) (begun d chunks ++ map embedded (bs ++ [(inputs, vectors)]))) ->
  (forall e es, aborted e es -> Q (Err e) es) ->
  rwp (embed_batch model inputs (batch_vectors bs) dimensions) Q (begun d chunks ++ map embedded bs).
Proof.
  intros Hbs Hin Hpre Hdim HQ HE. apply wp_recorded_call. intros x. split.
  { rewrite <- app_assoc. by apply it_embedding. }
  destruct x as [vectors|e]; [|by apply HE, aborted_embedding].
  destruct (Nat.eqb_spec (List.length vectors) (List.length inputs)) as [HL|]; [|by apply HE, aborted_embedding]. cbn [negb].
  apply wp_pure_try. destruct (check_dimensions dimensions vectors) as [dimensions'|e] eqn:HC.
  - apply wp_ret. rewrite <- (batch_vectors_snoc bs inputs vectors).
    assert (HM : map embedded (bs ++ [(inputs, vectors)]) = map embedded bs ++ [Embedded model inputs (Ok vectors)])
      by apply map_app.
    cbn [event_of]. rewrite <- app_assoc, <- HM. apply HQ; [by split|]. rewrite batch_vectors_snoc.
    by eapply check_dimensions_are.
  - apply HE, aborted_embedding. by eapply check_dimensions_error.
Qed.

Definition embedded_post (r : result (list Embedding) (RagIngestionError LE KE EE IE)) (es : list event) : Prop :=
  match r with
  | Ok vectors => exists bs, Forall batch_ok bs /\ batch_inputs bs = map from_chunk chunks /\ vectors = batch_vectors bs /\
      one_dimension vectors /\ es = begun d chunks ++ map embedded bs
  | Err e => aborted e es
  end.

Lemma wp_embed_chunks rest bs inputs dimensions :
  (1 <= max_inputs limits)%nat -> Forall batch_ok bs -> inputs = [] \/ within inputs ->
  batch_inputs bs ++ inputs ++ map from_chunk rest = map from_chunk chunks -> dimensions_are dimensions (batch_vectors bs) ->
  rwp (embed_chunks model limits rest inputs (total_bytes inputs) (batch_vectors bs) dimensions) embedded_post
      (begun d chunks ++ map embedded bs).
Proof.
  intros Hmax. revert bs inputs dimensions. induction rest as [|c rest IH]; intros bs inputs dimensions Hbs Hin Heq Hdim.
  - destruct Hin as [->|Hin].
    + apply wp_ret. exists bs. cbn in Heq. rewrite app_nil_r in Heq. split_and!; [done | done | done | | done].
      by eapply dimensions_one.
    + replace (embed_chunks model limits [] inputs (total_bytes inputs) (batch_vectors bs) dimensions)
        with (try_ (fun e => e) (embed_batch (LE := LE) (KE := KE) (EE := EE) (IE := IE) (SE := SE) model inputs (batch_vectors bs) dimensions)
                (fun r => Ret (Ok (fst r)))) by (destruct Hin; by destruct inputs).
      cbn in Heq. rewrite app_nil_r in Heq. apply wp_try. apply wp_embed_batch; [done | done | by rewrite Heq | done | | done].
      intros vectors dims' Hb Hdims'. exists (bs ++ [(inputs, vectors)]). rewrite batch_inputs_snoc.
      split_and!; [| done | done | by eapply dimensions_one | done]. apply Forall_app. split; [done|]. by constructor.
  - cbn [embed_chunks]. destruct (Z.ltb_spec (max_content_bytes limits) (content_bytes (from_chunk c))) as [|Hc].
    { by apply aborted_begun. }
    assert (Hone : within [from_chunk c]) by (split_and!; [done | done | cbn [total_bytes foldr]; lia]).
    destruct (negb _ && _) eqn:HG.
    + assert (within inputs) as Hin' by (destruct Hin as [->|]; [discriminate HG | done]).
      apply wp_try. apply wp_embed_batch; [done | done | rewrite <- Heq, app_assoc; by eexists | done | | done].
      intros vectors dims' Hb Hdims'. cbn [fst snd].
      replace (content_bytes (from_chunk c)) with (total_bytes [from_chunk c]) by (cbn [total_bytes foldr]; lia).
      apply IH; [apply Forall_app; split; [done | by constructor] | by right | | done].
      rewrite batch_inputs_snoc, <- app_assoc. exact Heq.
    + rewrite <- total_bytes_snoc. apply IH; [done | right | rewrite <- app_assoc; exact Heq | done].
      destruct Hin as [->|Hin]; [done|]. destruct Hin as (Hne & Hlen & Hby).
      assert (HL : (List.length inputs =? 0)%nat = false) by (apply Nat.eqb_neq; by destruct inputs).
      rewrite HL in HG. cbn [negb andb] in HG. apply orb_false_elim in HG as [HG1 HG2].
      apply Nat.leb_gt in HG1. apply Z.ltb_ge in HG2. split_and!.
      * by destruct inputs.
      * rewrite length_app. cbn [List.length]. lia.
      * rewrite total_bytes_snoc. lia.
Qed.

(** The records and the write that completes the run. *)
Lemma wp_ingest_write vectors es :
  embedded_post (Ok vectors) es ->
  rwp (try_ IndexError (ask (Upsert (records_of chunks vectors))) (fun _ =>
        Ret (Ok {| report_document := document; report_model := model; report_chunks := List.length chunks |}))) ingest_post es.
Proof.
  intros (bs & Hbs & Hin & -> & Hdim & ->). apply wp_recorded_call. intros x. split.
  { rewrite <- app_assoc. apply it_upserted; [done | done | done | done | | done]. rewrite batch_lengths by done. by rewrite Hin, length_map. }
  destruct x as [[]|e].
  - exists d, chunks, bs. split; [done|]. by rewrite <- app_assoc.
  - exists (records_of chunks (batch_vectors bs)). apply elem_of_app. right. by apply list_elem_of_singleton.
Qed.
End document.

Lemma wp_ingest : (1 <= max_inputs limits)%nat -> rwp (ingest limits request) ingest_post [].
Proof.
  intros Hmax. apply wp_recorded_call. intros x. split; [constructor|]. cbn [event_of app].
  destruct x as [d|e]; [|apply aborted_post; split; [done|]; intros ??; by rewrite list_elem_of_singleton].
  case_bool_decide as Hd; cbn [negb]; [|apply aborted_post; split; [done|]; intros ??; by rewrite list_elem_of_singleton].
  apply wp_recorded_call. intros x. split; [by constructor|]. cbn [event_of app].
  destruct x as [chunks|e].
  2:{ apply aborted_post. split; [done|]. intros ??. rewrite elem_of_cons, list_elem_of_singleton. by intros [?|?]. }
  assert (HB : [Loaded request (Ok d); Chunked d (Ok chunks)] = begun d chunks ++ map embedded []) by done. rewrite HB.
  destruct (Nat.eqb_spec (List.length chunks) 0) as [|Hne]; [by apply aborted_post, aborted_begun|].
  apply wp_pure_try. destruct (check_chunks document ∅ chunks) as [[]|e] eqn:HC.
  2:{ apply aborted_post, aborted_begun. by eapply check_chunks_error. }
  apply check_chunks_ok in HC as (H1 & H2 & _).
  assert (Hok : chunks_ok chunks) by (split_and!; [by destruct chunks | done | done]).
  apply wp_try. eapply wp_mono; [|by apply (wp_embed_chunks d chunks Hd Hok chunks [] [] None); auto].
  intros [vectors|e] es Hes; [by apply (wp_ingest_write d) | by apply aborted_post].
Qed.

(** C14: Whatever the loader, the chunker, the provider and the index answer, and wherever an
    ingestion is dropped: every batch it asks to embed is not empty, keeps the provider's
    limits and continues the chunks in their order; the index is called at most once, as the
    last call, with every chunk and its vector, all vectors of one dimension and all chunks of
    the requested revision under different identifiers. A report means that this write was
    acknowledged, and any error but that of the index that no write was made. *)
Theorem ingestion_all_or_nothing es r :
  (1 <= max_inputs limits)%nat -> runs event_of (ingest limits request) es r ->
  ingest_trace es /\ forall a, r = Some a -> ingest_post a es.
Proof. intros Hmax HR. exact (wp_runs event_of ingest_trace _ ingest_post [] es r it_nil (wp_ingest Hmax) HR). Qed.
End ingestion.

(** ** Retrieval *)

Section retrieval.
Context {F32 LE KE EE IE SE : Type}.
Notation run := (runs (@event_of F32 LE KE EE IE SE)).

Definition context_size (chunks : list RetrievedChunk) : Z := foldr (fun c n => Z.of_nat (List.length (rc_content c)) + n) 0 chunks.

Lemma context_size_nonneg chunks : 0 <= context_size chunks.
Proof. unfold context_size. induction chunks as [|c chunks IH]; cbn; lia. Qed.

(** Saturation is never observed below the largest limit. *)
Lemma retain_ok bytes limit chunks retained :
  0 <= bytes <= limit -> limit <= MAX_RETRIEVAL_CONTEXT_BYTES ->
  retain (SE := SE) bytes limit chunks retained =
  if limit <? bytes + context_size chunks then Err ContextLimit else Ok (retained ++ chunks).
Proof.
  revert bytes retained. induction chunks as [|c chunks IH]; intros bytes retained HB HL; cbn [retain context_size foldr].
  { rewrite app_nil_r. by destruct (Z.ltb_spec limit (bytes + 0)); [lia|]. }
  fold (context_size chunks). pose proof (context_size_nonneg chunks) as HN.
  assert (HU : MAX_RETRIEVAL_CONTEXT_BYTES < u64_max) by reflexivity.
  set (n := Z.of_nat (List.length (rc_content c))). assert (0 <= n) by lia.
  destruct (Z.ltb_spec limit (saturating_add u64_max bytes n)) as [HS|HS]; unfold saturating_add in HS.
  - by destruct (Z.ltb_spec limit (bytes + (n + context_size chunks))); [|lia].
  - assert (HE : saturating_add u64_max bytes n = bytes + n) by (unfold saturating_add; lia).
    rewrite HE, IH, <- app_assoc, Z.add_assoc by lia. done.
Qed.

(** What a retrieval answers for the chunks that the store found. *)
Definition context_of (q : RetrievalQuery) (found : list RetrievedChunk) : result (list RetrievedChunk) (RagError (SE := SE)) :=
  if negb (forallb (in_scope (query_scope q)) found) then Err ScopeViolation
  else if max_context_bytes q <? context_size (take (max_chunks q) found) then Err ContextLimit
  else Ok (take (max_chunks q) found).

Notation any := (wp eq (recorded (@event_of F32 LE KE EE IE SE)) (fun _ => True) (fun _ _ => True)).
Definition searched (q : RetrievalQuery) (r : result (list RetrievedChunk) RagError) (es : list (@event F32 LE KE EE IE SE)) : Prop :=
  exists x, es = [Searched q x] /\ r = match x with Ok found => context_of q found | Err e => Err (RagStore e) end.

Lemma wp_retrieve q : 0 <= max_context_bytes q <= MAX_RETRIEVAL_CONTEXT_BYTES -> any (retrieve q) (searched q) [].
Proof.
  intros HM. apply wp_ask. intros w1 <- _ x w2 ->. split_and!; [done | done |]. destruct x as [found|e]; [|by eexists].
  apply wp_ret. eexists. split; [reflexivity|]. unfold context_of. destruct (forallb _ found); [cbn [negb]|done].
  rewrite retain_ok, Z.add_0_l by lia. done.
Qed.

Lemma searched_ok q es chunks : searched q (Ok chunks) es ->
  exists found, es = [Searched q (Ok found)] /\ chunks = take (max_chunks q) found /\
    Forall (fun c => rc_tenant c = scope_tenant (query_scope q) /\ rc_document_id c ∈ allowed_document_ids (query_scope q)) found /\
    context_size chunks <= max_context_bytes q.
Proof.
  intros ([found|e] & -> & HX); [|done]. exists found. unfold context_of in HX.
  destruct (forallb _ found) eqn:HF; cbn [negb] in HX; [|done].
  destruct (Z.ltb_spec (max_context_bytes q) (context_size (take (max_chunks q) found))) as [|HL]; simplify_eq.
  split_and!; [done | done | | done]. apply Forall_forall. intros c Hc. rewrite forallb_forall in HF.
  apply list_elem_of_In, HF in Hc. unfold in_scope, permits_document in Hc. apply andb_prop in Hc as [H1 H2].
  apply str_eqb_true in H1. by apply bool_decide_eq_true in H2.
Qed.

(** Tenants and documents are isolated and nothing is partial: a retrieval returns chunks
    exactly when the store found only chunks of the query's tenant and of documents it
    allows and the first [max_chunks] of them fit the byte limit, and then it returns these,
    in the store's order; there is one search and it carries the query. *)
Theorem retrieved_in_scope q es chunks :
  0 <= max_context_bytes q <= MAX_RETRIEVAL_CONTEXT_BYTES -> run (retrieve q) es (Some (Ok chunks)) ->
  exists found, es = [Searched q (Ok found)] /\ chunks = take (max_chunks q) found /\
    Forall (fun c => rc_tenant c = scope_tenant (query_scope q) /\ rc_document_id c ∈ allowed_document_ids (query_scope q)) found /\
    context_size chunks <= max_context_bytes q.
Proof.
  intros HM HR. apply searched_ok. exact (proj2 (wp_runs _ _ _ _ [] es _ I (wp_retrieve q HM) HR) _ eq_refl).
Qed.

Definition advised {Value QE RE} (build : ChatRequest Value -> result RetrievalQuery QE)
    (render : list RetrievedChunk -> result ChatMessage RE) (request request' : ChatRequest Value) (es : list event) : Prop :=
  exists q chunks message, build request = Ok q /\ searched q (Ok chunks) es /\
    Forall (fun c => rc_tenant c = scope_tenant (query_scope q) /\ rc_document_id c ∈ allowed_document_ids (query_scope q)) chunks /\
    render chunks = Ok message /\ request' = with_added_message message request.

(** The advisor adds one message to the request it was given, rendered from chunks of the
    scope that the application chose for that request, or fails without a request. *)
Theorem advised_in_scope {Value QE RE} (build : ChatRequest Value -> result RetrievalQuery QE)
    (render : list RetrievedChunk -> result ChatMessage RE) request request' es :
  (forall q, build request = Ok q -> 0 <= max_context_bytes q <= MAX_RETRIEVAL_CONTEXT_BYTES) ->
  run (rag_before_request build render request) es (Some (Ok request')) ->
  advised build render request request' es.
Proof.
  intros HB HR. refine (proj2 (wp_runs event_of (fun _ => True) _ (fun r es => forall request', r = Ok request' -> advised build render request request' es)
    [] es _ I _ HR) _ eq_refl request' eq_refl).
  clear HR request' es. apply wp_pure_try. destruct (build request) as [q|e] eqn:HQ; [|done]. apply wp_try.
  eapply wp_mono; [|by apply (wp_retrieve q), HB]. intros [chunks|e] es HS; [|done]. apply wp_pure_try.
  destruct (render chunks) as [message|e] eqn:HM; [|done]. apply wp_ret. intros request' [= <-].
  exists q, chunks, message. split_and!; [done | done | | done | done].
  destruct (searched_ok _ _ _ HS) as (found & _ & -> & HF & _). by apply Forall_take.
Qed.
End retrieval.

(** ** An ingestion and a retrieval *)

Module RagExamples.
Definition reference : DocumentReference :=
  {| doc_tenant := ##"acme"; doc_id := ##"guide"; doc_version := ##"1"; doc_checksum := ##"c0" |}.
Definition cited : Citation := {| source_uri := ##"s3://guide"; title := ##"Guide" |}.
Definition loaded : IngestionDocument :=
  {| document_reference := reference; document_content := ##"one two three"; document_citation := cited |}.
Definition chunk (i text : str) : IngestionChunk :=
  {| chunk_id := i; chunk_document := reference; chunk_content := text; chunk_citation := cited |}.
Definition chunks : list IngestionChunk := [chunk ##"a" ##"one"; chunk ##"b" ##"two"; chunk ##"c" ##"three"].
Definition small : EmbeddingBatchLimits := {| max_inputs := 2; max_content_bytes := 6 |}.
Definition asked : RagIngestionRequest := {| ing_document := reference; ing_embedding_model := ##"embed" |}.
Definition answer X (c : rag_call nat unit unit unit unit unit X) : X :=
  match c in AiRag.rag_call _ _ _ _ _ _ X return X with
  | LoadDocument _ => Ok loaded
  | ChunkDocument _ => Ok chunks
  | Embed _ inputs => Ok (map (fun i => {| values := [List.length (input_content i)] |}) inputs)
  | Upsert _ => Ok tt
  | Search q => Ok [{| rc_chunk_id := ##"a"; rc_document_id := ##"guide"; rc_tenant := ##"acme"; rc_content := ##"one"; rc_citation := cited |};
                    {| rc_chunk_id := ##"b"; rc_document_id := ##"guide"; rc_tenant := ##"acme"; rc_content := ##"two"; rc_citation := cited |}]
  end.
Definition scope : RetrievalScope := {| scope_tenant := ##"acme"; allowed_document_ids := {[ ##"guide" ]} |}.
Definition query (tenant : str) : RetrievalQuery :=
  {| query_text := ##"one?"; query_scope := {| scope_tenant := tenant; allowed_document_ids := allowed_document_ids scope |};
     max_chunks := 1; max_context_bytes := 10 |}.

Notation event := (@event nat unit unit unit unit unit).
Definition followed {A} (p : program (rag_call nat unit unit unit unit unit) A) : list event * A := follow event_of answer p.

(** The third chunk does not fit the first batch, and a query of another tenant is refused. *)
Example ingested :
  map (fun e : event => match e with Embedded _ inputs _ => Some (map input_chunk_id inputs) | _ => None end) (followed (ingest small asked)).1
  = [None; None; Some [ ##"a"; ##"b"]; Some [ ##"c"]; None] /\
  (followed (ingest small asked)).2 = Ok {| report_document := reference; report_model := ##"embed"; report_chunks := 3 |}.
Proof. vm_compute. by split. Qed.
Example retrieved :
  map (fun r => match r with Ok l => Ok (map rc_content l) | Err e => Err e end)
    [(followed (retrieve (query ##"acme"))).2; (followed (retrieve (query ##"other"))).2]
  = [Ok [ ##"one"]; Err ScopeViolation].
Proof. vm_compute. reflexivity. Qed.

Lemma ingestion_all_or_nothing_witness : ingest_trace small asked (followed (ingest small asked)).1.
Proof.
  refine (proj1 (ingestion_all_or_nothing small asked (followed (ingest small asked)).1 (Some (followed (ingest small asked)).2) _ _)).
  - unfold small. cbn [max_inputs]. lia.
  - apply (runs_follow event_of answer). unfold followed. apply surjective_pairing.
Defined.
Lemma retrieved_in_scope_witness : exists found c,
  (followed (retrieve (query ##"acme"))).1 = [Searched (query ##"acme") (Ok found)] /\ take 1 found = [c].
Proof.
  assert (HR : runs event_of (retrieve (query ##"acme")) (followed (retrieve (query ##"acme"))).1
                 (Some (followed (retrieve (query ##"acme"))).2))
    by (apply (runs_follow event_of answer); apply surjective_pairing).
  destruct (retrieved_in_scope (query ##"acme") _ _ ltac:(vm_compute; split; discriminate) HR) as (found & HE & HC & _).
  eexists _, _. split; [exact HE|]. symmetry. exact HC.
Defined.
End RagExamples.
