(* ===== verification/McpContext.v ===== *)
(** Read-only context of an MCP server: [crates/rustee-mcp/src/context.rs] with [budget.rs],
    [resource.rs], [prompt.rs] and [provider.rs].

    Resources, templates and prompts are validated where they are made. Their JSON values are
    made under a budget: each text is reserved before it is copied. *)

From Stdlib Require Import ZArith Lia Bool Ascii.
From stdpp Require Import gmap.
From S2P Require Import Prelude Strings BTree Http Core JsonValue Identity Oidc.

Local Open Scope Z_scope.

(** ** Validation: [context.rs] *)

Definition MAX_CONTEXT_NAME_BYTES : nat := 128.
Definition MAX_RESOURCE_URI_BYTES : nat := 4096.
Definition MAX_METADATA_BYTES : nat := 8192.
Definition MAX_MIME_TYPE_BYTES : nat := 256.

Inductive McpContextValueError : Type := InvalidContextName | InvalidUriTemplate | InvalidMetadata | InvalidMimeType.

Definition is_valid_context_name (value : str) : bool :=
  negb (is_blank value) && (List.length value <=? MAX_CONTEXT_NAME_BYTES)%nat && negb (existsb is_control (chars value)).
Definition valid_name (value : str) : result str McpContextValueError :=
  if negb (is_valid_context_name value) then Err InvalidContextName else Ok value.
Definition is_valid_resource_uri (value : str) : bool :=
  nonempty value && (List.length value <=? MAX_RESOURCE_URI_BYTES)%nat && negb (existsb is_control (chars value)).
Definition valid_metadata (value : str) : result str McpContextValueError :=
  if (MAX_METADATA_BYTES <? List.length value)%nat || contains_char "000" value then Err InvalidMetadata else Ok value.
Definition valid_mime_type (value : str) : result str McpContextValueError :=
  if negb (nonempty value) || (MAX_MIME_TYPE_BYTES <? List.length value)%nat || negb (forallb (in_range 33 126) value)
  then Err InvalidMimeType else Ok value.

Definition optional_string (key : str) (value : option str) (object : list (str * Value)) : list (str * Value) :=
  match value with Some v => map_insert key (VString v) object | None => object end.

(** ** Budgets: [budget.rs] *)

(** What takes from a budget: a result and what is left, or nothing. *)
Definition budgeted (A : Type) : Type := Z -> option (A * Z).
#[export] Instance budgeted_ret : MRet budgeted := fun A a remaining => Some (a, remaining).
#[export] Instance budgeted_bind : MBind budgeted := fun A B f m remaining =>
  match m remaining with Some (a, remaining) => f a remaining | None => None end.

(** [checked_sub]. *)
Definition budget_reserve (n : Z) : budgeted unit := fun remaining =>
  if remaining <? n then None else Some (tt, remaining - n).
Definition reserve_text (value : str) : budgeted unit := budget_reserve (Z.of_nat (List.length value)).
Definition reserve_optional_text (value : option str) : budgeted unit :=
  match value with Some v => reserve_text v | None => mret tt end.
Definition base64_len (n : Z) : option Z :=
  n ← checked_add u64_max n 2;
  let n := n / 3 * 4 in
  if u64_max <? n then None else Some n.
Definition reserve_base64 (value : bytes) : budgeted unit :=
  match base64_len (Z.of_nat (List.length value)) with Some n => budget_reserve n | None => fun _ => None end.

(** [iter().map(..).collect::<Option<Vec<_>>>()] with one budget. *)
Fixpoint collect_wires {A} (wire : A -> budgeted Value) (l : list A) : budgeted (list Value) :=
  match l with
  | [] => mret []
  | x :: l => v ← wire x; vs ← collect_wires wire l; mret (v :: vs)
  end.

Section context.
Context `{UrlApi, EncodingApi}.

(** ** Resources: [resource.rs] *)

Record McpServerResource : Type := {
  mr_uri : Url; mr_name : str; mr_title : option str; mr_description : option str; mr_mime_type : option str;
  mr_size : option Z
}.

Definition resource_new (uri : Url) (name : str) : result McpServerResource McpContextValueError :=
  let? name := valid_name name in
  Ok {| mr_uri := uri; mr_name := name; mr_title := None; mr_description := None; mr_mime_type := None; mr_size := None |}.
Definition resource_with_title (title : str) (r : McpServerResource) : result McpServerResource McpContextValueError :=
  let? title := valid_metadata title in
  Ok {| mr_uri := mr_uri r; mr_name := mr_name r; mr_title := Some title; mr_description := mr_description r;
        mr_mime_type := mr_mime_type r; mr_size := mr_size r |}.
Definition resource_with_description (description : str) (r : McpServerResource) :
    result McpServerResource McpContextValueError :=
  let? description := valid_metadata description in
  Ok {| mr_uri := mr_uri r; mr_name := mr_name r; mr_title := mr_title r; mr_description := Some description;
        mr_mime_type := mr_mime_type r; mr_size := mr_size r |}.
Definition resource_with_mime_type (mime_type : str) (r : McpServerResource) :
    result McpServerResource McpContextValueError :=
  let? mime_type := valid_mime_type mime_type in
  Ok {| mr_uri := mr_uri r; mr_name := mr_name r; mr_title := mr_title r; mr_description := mr_description r;
        mr_mime_type := Some mime_type; mr_size := mr_size r |}.
Definition resource_with_size (size : Z) (r : McpServerResource) : McpServerResource :=
  {| mr_uri := mr_uri r; mr_name := mr_name r; mr_title := mr_title r; mr_description := mr_description r;
     mr_mime_type := mr_mime_type r; mr_size := Some size |}.

Definition resource_wire (r : McpServerResource) : budgeted Value :=
  _ ← reserve_text (url_as_str (mr_uri r));
  _ ← reserve_text (mr_name r);
  _ ← reserve_optional_text (mr_title r);
  _ ← reserve_optional_text (mr_description r);
  _ ← reserve_optional_text (mr_mime_type r);
  let value := map_insert ##"name" (VString (mr_name r)) (map_insert ##"uri" (VString (url_as_str (mr_uri r))) []) in
  let value := optional_string ##"title" (mr_title r) value in
  let value := optional_string ##"description" (mr_description r) value in
  let value := optional_string ##"mimeType" (mr_mime_type r) value in
  let value := match mr_size r with Some size => map_insert ##"size" (VInt size) value | None => value end in
  mret (VObject value).

Record McpServerResourceTemplate : Type := {
  mt_uri_template : str; mt_name : str; mt_title : option str; mt_description : option str; mt_mime_type : option str
}.

Definition template_new (uri_template name : str) : result McpServerResourceTemplate McpContextValueError :=
  if negb (is_valid_resource_uri uri_template) then Err InvalidUriTemplate
  else
    let? name := valid_name name in
    Ok {| mt_uri_template := uri_template; mt_name := name; mt_title := None; mt_description := None; mt_mime_type := None |}.
Definition template_with_title (title : str) (t : McpServerResourceTemplate) :
    result McpServerResourceTemplate McpContextValueError :=
  let? title := valid_metadata title in
  Ok {| mt_uri_template := mt_uri_template t; mt_name := mt_name t; mt_title := Some title;
        mt_description := mt_description t; mt_mime_type := mt_mime_type t |}.
Definition template_with_description (description : str) (t : McpServerResourceTemplate) :
    result McpServerResourceTemplate McpContextValueError :=
  let? description := valid_metadata description in
  Ok {| mt_uri_template := mt_uri_template t; mt_name := mt_name t; mt_title := mt_title t;
        mt_description := Some description; mt_mime_type := mt_mime_type t |}.
Definition template_with_mime_type (mime_type : str) (t : McpServerResourceTemplate) :
    result McpServerResourceTemplate McpContextValueError :=
  let? mime_type := valid_mime_type mime_type in
  Ok {| mt_uri_template := mt_uri_template t; mt_name := mt_name t; mt_title := mt_title t;
        mt_description := mt_description t; mt_mime_type := Some mime_type |}.

Definition template_wire (t : McpServerResourceTemplate) : budgeted Value :=
  _ ← reserve_text (mt_uri_template t);
  _ ← reserve_text (mt_name t);
  _ ← reserve_optional_text (mt_title t);
  _ ← reserve_optional_text (mt_description t);
  _ ← reserve_optional_text (mt_mime_type t);
  let value := map_insert ##"name" (VString (mt_name t))
                 (map_insert ##"uriTemplate" (VString (mt_uri_template t)) []) in
  let value := optional_string ##"title" (mt_title t) value in
  let value := optional_string ##"description" (mt_description t) value in
  let value := optional_string ##"mimeType" (mt_mime_type t) value in
  mret (VObject value).

Inductive McpServerResourceData : Type := ResourceText (text : str) | ResourceBlob (blob : bytes).
Record McpServerResourceContents : Type := {
  mc_uri : Url; mc_mime_type : option str; mc_data : McpServerResourceData
}.
Definition contents_text (uri : Url) (text : str) : McpServerResourceContents :=
  {| mc_uri := uri; mc_mime_type := None; mc_data := ResourceText text |}.
Definition contents_blob (uri : Url) (blob : bytes) : McpServerResourceContents :=
  {| mc_uri := uri; mc_mime_type := None; mc_data := ResourceBlob blob |}.
Definition contents_with_mime_type (mime_type : str) (c : McpServerResourceContents) :
    result McpServerResourceContents McpContextValueError :=
  let? mime_type := valid_mime_type mime_type in
  Ok {| mc_uri := mc_uri c; mc_mime_type := Some mime_type; mc_data := mc_data c |}.

Definition contents_wire (c : McpServerResourceContents) : budgeted Value :=
  _ ← reserve_text (url_as_str (mc_uri c));
  _ ← reserve_optional_text (mc_mime_type c);
  _ ← match mc_data c with ResourceText text => reserve_text text | ResourceBlob blob => reserve_base64 blob end;
  let value := map_insert ##"uri" (VString (url_as_str (mc_uri c))) [] in
  let value := optional_string ##"mimeType" (mc_mime_type c) value in
  let value :=
    match mc_data c with
    | ResourceText text => map_insert ##"text" (VString text) value
    | ResourceBlob blob => map_insert ##"blob" (VString (base64 blob)) value
    end in
  mret (VObject value).

(** ** Prompts: [prompt.rs] *)

Record McpServerPromptArgument : Type := { pr_name : str; pr_description : option str; pr_required : bool }.
Definition argument_new (name : str) (required : bool) : result McpServerPromptArgument McpContextValueError :=
  let? name := valid_name name in Ok {| pr_name := name; pr_description := None; pr_required := required |}.
Definition argument_with_description (description : str) (a : McpServerPromptArgument) :
    result McpServerPromptArgument McpContextValueError :=
  let? description := valid_metadata description in
  Ok {| pr_name := pr_name a; pr_description := Some description; pr_required := pr_required a |}.

Definition argument_wire (a : McpServerPromptArgument) : budgeted Value :=
  _ ← reserve_text (pr_name a);
  _ ← reserve_optional_text (pr_description a);
  let value := map_insert ##"name" (VString (pr_name a)) [] in
  let value := optional_string ##"description" (pr_description a) value in
  mret (VObject (map_insert ##"required" (VBool (pr_required a)) value)).

Record McpServerPrompt : Type := {
  mp_name : str; mp_title : option str; mp_description : option str; mp_arguments : list McpServerPromptArgument
}.

(** [iter().all(|value| seen.insert(value))]. *)
Fixpoint all_new (seen : gset str) (values : list str) : bool :=
  match values with
  | [] => true
  | v :: rest => negb (bool_decide (v ∈ seen)) && all_new ({[v]} ∪ seen) rest
  end.
Definition unique_values (values : list str) : bool := all_new ∅ values.

Definition prompt_new (name : str) (arguments : list McpServerPromptArgument) :
    result McpServerPrompt McpContextValueError :=
  if negb (unique_values (map pr_name arguments)) then Err InvalidContextName
  else
    let? name := valid_name name in
    Ok {| mp_name := name; mp_title := None; mp_description := None; mp_arguments := arguments |}.
Definition prompt_with_title (title : str) (p : McpServerPrompt) : result McpServerPrompt McpContextValueError :=
  let? title := valid_metadata title in
  Ok {| mp_name := mp_name p; mp_title := Some title; mp_description := mp_description p; mp_arguments := mp_arguments p |}.
Definition prompt_with_description (description : str) (p : McpServerPrompt) :
    result McpServerPrompt McpContextValueError :=
  let? description := valid_metadata description in
  Ok {| mp_name := mp_name p; mp_title := mp_title p; mp_description := Some description; mp_arguments := mp_arguments p |}.

Definition prompt_wire (p : McpServerPrompt) : budgeted Value :=
  _ ← reserve_text (mp_name p);
  _ ← reserve_optional_text (mp_title p);
  _ ← reserve_optional_text (mp_description p);
  let value := map_insert ##"name" (VString (mp_name p)) [] in
  let value := optional_string ##"title" (mp_title p) value in
  let value := optional_string ##"description" (mp_description p) value in
  arguments ← collect_wires argument_wire (mp_arguments p);
  mret (VObject (map_insert ##"arguments" (VArray arguments) value)).

Inductive McpServerPromptRole : Type := PromptUser | PromptAssistant.
Definition role_wire (r : McpServerPromptRole) : str :=
  match r with PromptUser => ##"user" | PromptAssistant => ##"assistant" end.

Inductive McpServerPromptContent : Type :=
| ContentText (text : str)
| ContentImage (data : bytes) (mime_type : str)
| ContentAudio (data : bytes) (mime_type : str)
| ContentResource (contents : McpServerResourceContents)
| ContentResourceLink (resource : McpServerResource).

Definition content_image (data : bytes) (mime_type : str) : result McpServerPromptContent McpContextValueError :=
  let? mime_type := valid_mime_type mime_type in Ok (ContentImage data mime_type).
Definition content_audio (data : bytes) (mime_type : str) : result McpServerPromptContent McpContextValueError :=
  let? mime_type := valid_mime_type mime_type in Ok (ContentAudio data mime_type).

Definition media_wire (kind : str) (data : bytes) (mime_type : str) : budgeted Value :=
  _ ← reserve_base64 data;
  _ ← reserve_text mime_type;
  mret (VObject [(##"type", VString kind); (##"data", VString (base64 data)); (##"mimeType", VString mime_type)]).

(** [value\["type"\] = ..] of an object. *)
Definition with_field (name : str) (v value : Value) : Value :=
  match value with VObject fields => VObject (map_insert name v fields) | value => value end.

Definition content_wire (c : McpServerPromptContent) : budgeted Value :=
  match c with
  | ContentText text =>
      _ ← reserve_text text;
      mret (VObject [(##"type", VString ##"text"); (##"text", VString text)])
  | ContentImage data mime_type => media_wire ##"image" data mime_type
  | ContentAudio data mime_type => media_wire ##"audio" data mime_type
  | ContentResource contents =>
      resource ← contents_wire contents;
      mret (VObject [(##"type", VString ##"resource"); (##"resource", resource)])
  | ContentResourceLink resource =>
      value ← resource_wire resource;
      mret (with_field ##"type" (VString ##"resource_link") value)
  end.

Record McpServerPromptMessage : Type := { ms_role : McpServerPromptRole; ms_content : McpServerPromptContent }.
Definition message_user (content : McpServerPromptContent) : McpServerPromptMessage :=
  {| ms_role := PromptUser; ms_content := content |}.
Definition message_assistant (content : McpServerPromptContent) : McpServerPromptMessage :=
  {| ms_role := PromptAssistant; ms_content := content |}.
Definition message_wire (m : McpServerPromptMessage) : budgeted Value :=
  content ← content_wire (ms_content m);
  mret (VObject [(##"role", VString (role_wire (ms_role m))); (##"content", content)]).

Record McpServerPromptResult : Type := { ps_description : option str; ps_messages : list McpServerPromptMessage }.
Definition prompt_result_new (messages : list McpServerPromptMessage) : McpServerPromptResult :=
  {| ps_description := None; ps_messages := messages |}.
Definition prompt_result_with_description (description : str) (r : McpServerPromptResult) :
    result McpServerPromptResult McpContextValueError :=
  let? description := valid_metadata description in
  Ok {| ps_description := Some description; ps_messages := ps_messages r |}.
Definition prompt_result_wire (r : McpServerPromptResult) : budgeted Value :=
  _ ← reserve_optional_text (ps_description r);
  let value := optional_string ##"description" (ps_description r) [] in
  messages ← collect_wires message_wire (ps_messages r);
  mret (VObject (map_insert ##"messages" (VArray messages) value)).

(** ** Providers: [provider.rs] *)

Context `{HttpApi}.

Record McpContextCapabilities : Type := { cap_resources : bool; cap_prompts : bool }.
Definition capabilities_default : McpContextCapabilities := {| cap_resources := false; cap_prompts := false |}.
Definition with_resources (c : McpContextCapabilities) : McpContextCapabilities :=
  {| cap_resources := true; cap_prompts := cap_prompts c |}.
Definition with_prompts (c : McpContextCapabilities) : McpContextCapabilities :=
  {| cap_resources := cap_resources c; cap_prompts := true |}.

(** The arguments of a prompt: [BTreeMap<String, String>]. *)
Record McpContextProvider : Type := {
  capabilities : McpContextCapabilities;
  provide_resources : Request -> option (list McpServerResource);
  provide_templates : Request -> option (list McpServerResourceTemplate);
  provide_contents : Request -> Url -> option (list McpServerResourceContents);
  provide_prompts : Request -> option (list McpServerPrompt);
  provide_prompt : Request -> str -> gmap str str -> option McpServerPromptResult
}.
Definition DenyAllMcpContextProvider : McpContextProvider := {|
  capabilities := capabilities_default;
  provide_resources _ := None;
  provide_templates _ := None;
  provide_contents _ _ := None;
  provide_prompts _ := None;
  provide_prompt _ _ _ := None
|}.
End context.
