(* ===== verification/Mcp.v ===== *)
(** An MCP server: [crates/rustee-mcp], its settings ([server_config.rs]), JSON-RPC messages
    ([rpc.rs], [rpc/request.rs], [rpc/response.rs]), headers ([header.rs]), tool access
    ([access.rs]) and the handler ([server.rs], [server/context.rs]).

    A tool is executed by the registry of the AI crate, so that a request is a program over
    the calls of [AiPipeline]: the approval policy, the audit's statements and the tool. What
    the application decides about a request, its access policy and its context provider, are
    functions of the request. *)

From Stdlib Require Import ZArith Lia Bool Ascii.
From stdpp Require Import gmap relations.
From S2P Require Import Prelude Strings BTree Http Core HttpModel Json Outbox Effects AiProtocol AiTables AiPipeline AiLedger AiAccounting AiSystem JsonValue Identity Oidc McpContext.

Local Open Scope Z_scope.

Notation Value := JsonValue.Value.

Definition MCP_PROTOCOL_VERSION : str := ##"2025-11-25".

(** ** Headers: [header.rs] *)

Inductive HeaderAdmission : Type := HeaderMissing | HeaderValid (value : str) | HeaderInvalid.

Definition admit_single_header `{HttpApi} (headers : HeaderMap) (name : str) : HeaderAdmission :=
  match hm_get_all name headers with
  | [] => HeaderMissing
  | value :: rest =>
      match hv_to_str value, rest with
      | None, _ => HeaderInvalid
      | Some value, [] => HeaderValid value
      | Some _, _ :: _ => HeaderInvalid
      end
  end.

(** ** Settings: [server_config.rs] *)

Definition DEFAULT_MAX_REQUEST_BYTES : nat := 1024 * 1024.
Definition DEFAULT_MAX_RESPONSE_BYTES : nat := 1024 * 1024.
Definition DEFAULT_MAX_TOOL_ITEMS : nat := 128.
Definition DEFAULT_MAX_CONTEXT_ITEMS : nat := 64.
Definition MAX_ALLOWED_ORIGINS : nat := 128.

Record McpServerConfig : Type := {
  server_name : str;
  server_version : str;
  max_request_bytes : nat;
  max_response_bytes : nat;
  max_tool_items : nat;
  max_context_items : nat;
  allowed_origins : gset str
}.

Inductive McpServerConfigError : Type :=
| InvalidServerInfo
| ZeroRequestLimit
| ZeroResponseLimit
| ZeroToolItemLimit
| ZeroContextItemLimit
| AllowedOriginLimit
| InvalidAllowedOrigin.

Definition invalid_server_info (value : str) : bool := is_blank value || contains_char "000" value.

Definition mcp_config_new (name version : str) : result McpServerConfig McpServerConfigError :=
  if invalid_server_info name || invalid_server_info version then Err InvalidServerInfo
  else Ok {| server_name := name; server_version := version; max_request_bytes := DEFAULT_MAX_REQUEST_BYTES;
             max_response_bytes := DEFAULT_MAX_RESPONSE_BYTES; max_tool_items := DEFAULT_MAX_TOOL_ITEMS;
             max_context_items := DEFAULT_MAX_CONTEXT_ITEMS; allowed_origins := ∅ |}.

Definition with_max_request_bytes (n : nat) (c : McpServerConfig) : result McpServerConfig McpServerConfigError :=
  if (n =? 0)%nat then Err ZeroRequestLimit
  else Ok {| server_name := server_name c; server_version := server_version c; max_request_bytes := n;
             max_response_bytes := max_response_bytes c; max_tool_items := max_tool_items c;
             max_context_items := max_context_items c; allowed_origins := allowed_origins c |}.
Definition with_max_response_bytes (n : nat) (c : McpServerConfig) : result McpServerConfig McpServerConfigError :=
  if (n =? 0)%nat then Err ZeroResponseLimit
  else Ok {| server_name := server_name c; server_version := server_version c; max_request_bytes := max_request_bytes c;
             max_response_bytes := n; max_tool_items := max_tool_items c;
             max_context_items := max_context_items c; allowed_origins := allowed_origins c |}.
Definition with_max_tool_items (n : nat) (c : McpServerConfig) : result McpServerConfig McpServerConfigError :=
  if (n =? 0)%nat then Err ZeroToolItemLimit
  else Ok {| server_name := server_name c; server_version := server_version c; max_request_bytes := max_request_bytes c;
             max_response_bytes := max_response_bytes c; max_tool_items := n;
             max_context_items := max_context_items c; allowed_origins := allowed_origins c |}.
Definition with_max_context_items (n : nat) (c : McpServerConfig) : result McpServerConfig McpServerConfigError :=
  if (n =? 0)%nat then Err ZeroContextItemLimit
  else Ok {| server_name := server_name c; server_version := server_version c; max_request_bytes := max_request_bytes c;
             max_response_bytes := max_response_bytes c; max_tool_items := max_tool_items c;
             max_context_items := n; allowed_origins := allowed_origins c |}.

Definition ORIGIN : str := ##"origin".

(** [value.trim() == value]. *)
Definition is_trimmed (value : str) : bool :=
  match chars value, last (chars value) with
  | first :: _, Some final => negb (is_whitespace first) && negb (is_whitespace final)
  | _, _ => true
  end.

Section origins.
Context `{HttpApi, UrlApi}.

Definition canonical_origin (value : str) : option str :=
  if negb (is_trimmed value) then None
  else
    url ← url_parse value;
    if negb (str_eqb (url_scheme url) ##"http" || str_eqb (url_scheme url) ##"https")
       || nonempty (url_username url) || is_some (url_password url) || negb (str_eqb (url_path url) ##"/")
       || is_some (url_query url) || is_some (url_fragment url)
    then None
    else let origin := url_origin url in if str_eqb origin ##"null" then None else Some origin.

Fixpoint add_origins (origins : list str) (allowed : gset str) : result (gset str) McpServerConfigError :=
  match origins with
  | [] => Ok allowed
  | origin :: rest =>
      let? origin := ok_or (canonical_origin origin) InvalidAllowedOrigin in
      if bool_decide (origin ∈ allowed) then add_origins rest allowed
      else if (size allowed =? MAX_ALLOWED_ORIGINS)%nat then Err AllowedOriginLimit
      else add_origins rest ({[origin]} ∪ allowed)
  end.
Definition with_allowed_origins (origins : list str) (c : McpServerConfig) : result McpServerConfig McpServerConfigError :=
  let? allowed := add_origins origins ∅ in
  Ok {| server_name := server_name c; server_version := server_version c; max_request_bytes := max_request_bytes c;
        max_response_bytes := max_response_bytes c; max_tool_items := max_tool_items c;
        max_context_items := max_context_items c; allowed_origins := allowed |}.

Definition allows_origin (c : McpServerConfig) (request : Request) : bool :=
  match admit_single_header (req_headers request) ORIGIN with
  | HeaderMissing => true
  | HeaderValid origin =>
      match canonical_origin origin with Some origin => bool_decide (origin ∈ allowed_origins c) | None => false end
  | HeaderInvalid => false
  end.
End origins.

(** ** Requests: [rpc/request.rs] *)

Definition MAX_REQUEST_ID_BYTES : nat := 128.
Definition MAX_CONTEXT_ARGUMENTS : nat := 64.
Definition MAX_CONTEXT_ARGUMENT_VALUE_BYTES : nat := 8192.

Record RpcRequest : Type := { rpc_id : option Value; rpc_method : str; rpc_params : Value }.

Definition number_text (v : Value) : str :=
  match v with VInt z => int_text z | VFloat text => text | _ => [] end.

Definition parse_id (v : option Value) : option (option Value) :=
  match v with
  | None => Some None
  | Some (VString id) => if (List.length id <=? MAX_REQUEST_ID_BYTES)%nat then Some (Some (VString id)) else None
  | Some (VInt _ as id) | Some (VFloat _ as id) =>
      if (List.length (number_text id) <=? MAX_REQUEST_ID_BYTES)%nat then Some (Some id) else None
  | Some _ => None
  end.

Definition rpc_parse (v : Value) : option RpcRequest :=
  if negb (bool_decide (value_get ##"jsonrpc" v ≫= as_str = Some ##"2.0")) then None
  else
    method ← (m ← value_get ##"method" v ≫= as_str; if nonempty m then Some m else None);
    id ← parse_id (value_get ##"id" v);
    Some {| rpc_id := id; rpc_method := method; rpc_params := default (VObject []) (value_get ##"params" v) |}.

Inductive RequestBodyError : Type := BodyTooLarge | BodyRead.

(** [collect_limited]; [acc] is what was read. *)
Fixpoint collect_limited (acc : bytes) (body : Body) (limit : nat) : result bytes RequestBodyError :=
  match body with
  | [] => Ok acc
  | inr _ :: _ => Err BodyRead
  | inl data :: rest =>
      if (limit <? List.length acc + List.length data)%nat then Err BodyTooLarge
      else collect_limited (acc ++ data) rest limit
  end.

Definition CONTENT_TYPE : str := ##"content-type".
Definition is_json_request `{HttpApi} (request : Request) : bool :=
  match admit_single_header (req_headers request) CONTENT_TYPE with
  | HeaderValid value => is_standard_json_media_type value
  | _ => false
  end.
Definition valid_protocol_header `{HttpApi} (request : Request) : bool :=
  match admit_single_header (req_headers request) ##"mcp-protocol-version" with
  | HeaderValid value => str_eqb value MCP_PROTOCOL_VERSION
  | _ => false
  end.

Definition parse_tool_call (params : Value) : option (str * Value) :=
  name ← value_get ##"name" params ≫= as_str;
  match value_get ##"arguments" params with
  | None => Some (name, VObject [])
  | Some arguments => if is_object arguments then Some (name, arguments) else None
  end.

Definition valid_list_params (params : Value) : bool :=
  is_object params && negb (is_some (value_get ##"cursor" params)).

Definition parse_resource_uri `{UrlApi} (params : Value) : option Url :=
  object ← read_object params;
  if negb (List.length object =? 1)%nat then None
  else
    uri ← value_get ##"uri" params ≫= as_str;
    if negb (is_valid_resource_uri uri) then None else url_parse uri.

Definition prompt_argument (field : str * Value) : option (str * str) :=
  value ← as_str field.2;
  if is_valid_context_name field.1 && (List.length value <=? MAX_CONTEXT_ARGUMENT_VALUE_BYTES)%nat
     && negb (contains_char "000" value)
  then Some (field.1, value) else None.

Definition parse_prompt_get (params : Value) : option (str * gmap str str) :=
  object ← read_object params;
  name ← value_get ##"name" params ≫= as_str;
  if negb (is_valid_context_name name) then None
  else
    arguments ← match value_get ##"arguments" params with
                | None => Some ∅
                | Some (VObject arguments) =>
                    if (List.length arguments <=? MAX_CONTEXT_ARGUMENTS)%nat
                    then option_map list_to_map (mapM prompt_argument arguments) else None
                | Some _ => None
                end;
    if (List.length object =? 1)%nat
       || ((List.length object =? 2)%nat && is_some (value_get ##"arguments" params))
    then Some (name, arguments) else None.

(** ** Answers: [rpc/response.rs] *)

Definition MAX_PROTOCOL_ERROR_RESPONSE_BYTES : nat := 512.

Definition tool_failure : Value := VObject [
  (##"content", VArray [VObject [(##"type", VString ##"text"); (##"text", VString ##"tool execution failed")]]);
  (##"isError", VBool true)
].

Section answers.
Context `{HttpApi, JsonText}.

Definition bounded_json (v : Value) (max_bytes : nat) : option bytes :=
  match to_vec_bounded v max_bytes with Ok encoded => Some encoded | Err _ => None end.

Definition tool_success (content : Value) (max_bytes : nat) : option Value :=
  text ← bounded_json content max_bytes;
  if negb (valid_utf8 text) then None
  else Some (VObject [
    (##"content", VArray [VObject [(##"type", VString ##"text"); (##"text", VString text)]]);
    (##"structuredContent", content)
  ]).

Definition json_bytes (encoded : bytes) : Response :=
  with_headers (hm_insert CONTENT_TYPE (hv_from_static ##"application/json; charset=utf-8"))
    (response 200 (full_body encoded)).

Definition fixed_json_response (v : Value) : Response :=
  match bounded_json v MAX_PROTOCOL_ERROR_RESPONSE_BYTES with
  | Some encoded => json_bytes encoded
  | None => response 500 empty_body
  end.

Definition error_value (id : Value) (code : Z) (message : str) : Value := VObject [
  (##"jsonrpc", VString ##"2.0"); (##"id", id);
  (##"error", VObject [(##"code", VInt code); (##"message", VString message)])
].
Definition rpc_error_response (id : Value) (code : Z) (message : str) : Response :=
  fixed_json_response (error_value id code message).
Definition response_limit_error : Response :=
  rpc_error_response VNull (-32000) ##"response body exceeds configured limit".
Definition result_value (id result : Value) : Value :=
  VObject [(##"jsonrpc", VString ##"2.0"); (##"id", id); (##"result", result)].
Definition rpc_result_response (id result : Value) (max_bytes : nat) : Response :=
  match bounded_json (result_value id result) max_bytes with
  | Some encoded => json_bytes encoded
  | None => response_limit_error
  end.
End answers.

Definition audit_call `{AiApp} (X : Type) (c : call X) : Prop := match c with Statement _ _ => True | _ => False end.
(** The audit is all in the database. *)
Class AuditStatements `{AiApp} {E} (sink : ToolAuditSink E) : Prop := {
  approved_statements e : all_calls audit_call (record_approved e);
  outcome_statements e : all_calls audit_call (record_outcome e)
}.
#[export] Instance postgres_statements `{AiApp} : AuditStatements postgres_audit.
Proof.
  split; intros e; cbn [record_approved record_outcome postgres_audit].
  - unfold postgres_record_approved. destruct (validate_approval_event e); [|done].
    apply all_calls_try; [by split|]. intros n. destruct (n =? 1); [done|]. apply all_calls_try; [by split | done].
  - unfold postgres_record_outcome. destruct (validate_approval_event _); [|done].
    apply all_calls_try; [by split|]. intros n. destruct (n =? 1); [done|]. apply all_calls_try; [by split | done].
Qed.

(** What the registry may do for a call. *)
Lemma execute_all_calls `{AiApp} {E} `{!ToolAuditSink E} (P : forall X, call X -> Prop) registry context c :
  (forall e, all_calls P (record_approved e)) -> (forall e, all_calls P (record_outcome e)) ->
  (forall definition risk, tool_get registry (call_name c) = Some (definition, risk) ->
    P _ (Approve (tool_ai context) c risk) /\ P _ (RunTool (call_name c) context (call_arguments c))) ->
  all_calls P (execute_with_execution_audit registry context c).
Proof.
  intros HA HO HT. unfold execute_with_execution_audit, authorize.
  destruct (tool_get registry (call_name c)) as [[definition risk]|] eqn:HG; [|exact I].
  destruct (HT definition risk eq_refl) as [HP HR]. apply all_calls_try.
  { apply all_calls_try; [by split | by intros []]. }
  intros risk'. cbv zeta. apply all_calls_try; [apply HA|].
  intros _. apply all_calls_bind; [by split|].
  intros executed. apply all_calls_try; [apply HO|]. intros _. by destruct executed.
Qed.

(** ** The server: [access.rs], [server.rs], [server/context.rs] *)

Section server.
Context `{HttpApi, UrlApi, EncodingApi, JsonText} `{!Serialize ErrorPayload}.
(** The application's errors, which the server does not look at. *)
Context {ProviderError AdvisorError BudgetError ApprovalError : Type}.

#[local] Instance mcp_app : AiApp := {|
  AiPipeline.Value := Value;
  AiPipeline.value_json := json_text;
  AiPipeline.ProviderError := ProviderError;
  AiPipeline.AdvisorError := AdvisorError;
  AiPipeline.BudgetError := BudgetError;
  AiPipeline.ApprovalError := ApprovalError
|}.
Context {E : Type} `{!ToolAuditSink E}.

(** [McpToolAccessPolicy]; [None] is its failure. *)
Record McpToolAccessPolicy : Type := {
  permitted_tools : Request -> option (gset str);
  execution_context : Request -> str -> option ToolExecutionContext
}.
Definition DenyAllMcpToolAccess : McpToolAccessPolicy :=
  {| permitted_tools _ := Some ∅; execution_context _ _ := None |}.

Record McpServer : Type := {
  mcp_config : McpServerConfig;
  mcp_registry : ToolRegistry;
  mcp_access : McpToolAccessPolicy;
  mcp_context : McpContextProvider
}.
Definition mcp_new (config : McpServerConfig) (registry : ToolRegistry) (access : McpToolAccessPolicy) : McpServer :=
  {| mcp_config := config; mcp_registry := registry; mcp_access := access; mcp_context := DenyAllMcpContextProvider |}.
Definition with_context_provider (context : McpContextProvider) (s : McpServer) : McpServer :=
  {| mcp_config := mcp_config s; mcp_registry := mcp_registry s; mcp_access := mcp_access s; mcp_context := context |}.

Context (server : McpServer).
Notation config := (mcp_config server).

Definition rpc_result (id result : Value) : Response := rpc_result_response id result (max_response_bytes config).

(** *** Initialization and context: [server/context.rs] *)

Definition initialize (id params : Value) : Response :=
  if negb (bool_decide (value_get ##"protocolVersion" params ≫= as_str = Some MCP_PROTOCOL_VERSION))
     || negb (is_object params)
  then rpc_error_response id (-32602) ##"unsupported protocol version"
  else
    let caps := capabilities (mcp_context server) in
    let value := map_insert ##"tools" (VObject [(##"listChanged", VBool false)]) [] in
    let value :=
      if cap_resources caps
      then map_insert ##"resources" (VObject [(##"subscribe", VBool false); (##"listChanged", VBool false)]) value
      else value in
    let value :=
      if cap_prompts caps then map_insert ##"prompts" (VObject [(##"listChanged", VBool false)]) value else value in
    rpc_result id (VObject [
      (##"protocolVersion", VString MCP_PROTOCOL_VERSION);
      (##"capabilities", VObject value);
      (##"serverInfo", VObject [(##"name", VString (server_name config)); (##"version", VString (server_version config))])
    ]).

(** [ContextWireBudget::new] and the values made under it. *)
Definition under_budget {A} (m : budgeted A) (k : A -> Response) : Response :=
  match m (Z.of_nat (max_response_bytes config)) with
  | Some (a, _) => k a
  | None => response_limit_error
  end.

Definition list_resources (id : Value) (request : Request) (params : Value) : Response :=
  if negb (cap_resources (capabilities (mcp_context server))) then rpc_error_response id (-32601) ##"method not found"
  else if negb (valid_list_params params) then rpc_error_response id (-32602) ##"invalid resources/list parameters"
  else
    match provide_resources (mcp_context server) request with
    | None => rpc_error_response id (-32000) ##"context provider failed"
    | Some resources =>
        if (max_context_items config <? List.length resources)%nat
           || negb (unique_values (map (fun r => url_as_str (mr_uri r)) resources))
        then rpc_error_response id (-32000) ##"invalid context provider result"
        else
          under_budget (collect_wires resource_wire resources) (fun values =>
          rpc_result id (VObject [(##"resources", VArray values)]))
    end.

Definition list_resource_templates (id : Value) (request : Request) (params : Value) : Response :=
  if negb (cap_resources (capabilities (mcp_context server))) then rpc_error_response id (-32601) ##"method not found"
  else if negb (valid_list_params params)
  then rpc_error_response id (-32602) ##"invalid resources/templates/list parameters"
  else
    match provide_templates (mcp_context server) request with
    | None => rpc_error_response id (-32000) ##"context provider failed"
    | Some templates =>
        if (max_context_items config <? List.length templates)%nat || negb (unique_values (map mt_name templates))
        then rpc_error_response id (-32000) ##"invalid context provider result"
        else
          under_budget (collect_wires template_wire templates) (fun values =>
          rpc_result id (VObject [(##"resourceTemplates", VArray values)]))
    end.

Definition read_resource (id : Value) (request : Request) (params : Value) : Response :=
  if negb (cap_resources (capabilities (mcp_context server))) then rpc_error_response id (-32601) ##"method not found"
  else
    match parse_resource_uri params with
    | None => rpc_error_response id (-32602) ##"invalid resources/read parameters"
    | Some uri =>
        match provide_contents (mcp_context server) request uri with
        | None => rpc_error_response id (-32000) ##"context provider failed"
        | Some contents =>
            if (List.length contents =? 0)%nat || (max_context_items config <? List.length contents)%nat
               || existsb (fun c => negb (url_eqb (mc_uri c) uri)) contents
            then rpc_error_response id (-32000) ##"invalid context provider result"
            else
              under_budget (collect_wires contents_wire contents) (fun values =>
              rpc_result id (VObject [(##"contents", VArray values)]))
        end
    end.

Definition list_prompts (id : Value) (request : Request) (params : Value) : Response :=
  if negb (cap_prompts (capabilities (mcp_context server))) then rpc_error_response id (-32601) ##"method not found"
  else if negb (valid_list_params params) then rpc_error_response id (-32602) ##"invalid prompts/list parameters"
  else
    match provide_prompts (mcp_context server) request with
    | None => rpc_error_response id (-32000) ##"context provider failed"
    | Some prompts =>
        if (max_context_items config <? List.length prompts)%nat || negb (unique_values (map mp_name prompts))
        then rpc_error_response id (-32000) ##"invalid context provider result"
        else
          under_budget (collect_wires prompt_wire prompts) (fun values =>
          rpc_result id (VObject [(##"prompts", VArray values)]))
    end.

Definition get_prompt (id : Value) (request : Request) (params : Value) : Response :=
  if negb (cap_prompts (capabilities (mcp_context server))) then rpc_error_response id (-32601) ##"method not found"
  else
    match parse_prompt_get params with
    | None => rpc_error_response id (-32602) ##"invalid prompts/get parameters"
    | Some (name, arguments) =>
        match provide_prompt (mcp_context server) request name arguments with
        | None => rpc_error_response id (-32000) ##"context provider failed"
        | Some result =>
            if (max_context_items config <? List.length (ps_messages result))%nat
            then rpc_error_response id (-32000) ##"invalid context provider result"
            else under_budget (prompt_result_wire result) (rpc_result id)
        end
    end.

(** *** Tools *)

Definition tool_value (d : ToolDefinition Value) : Value :=
  VObject [(##"name", VString (tool_name d)); (##"inputSchema", input_schema d)].

(** The loop of [list_tools]; [None] is the item limit. *)
Fixpoint visible_tools (permitted : gset str) (definitions : list (ToolDefinition Value)) (tools : list Value) :
    option (list Value) :=
  match definitions with
  | [] => Some tools
  | d :: rest =>
      if negb (bool_decide (tool_name d ∈ permitted)) then visible_tools permitted rest tools
      else if (List.length tools =? max_tool_items config)%nat then None
      else visible_tools permitted rest (tools ++ [tool_value d])
  end.

Definition list_tools (id : Value) (request : Request) (params : Value) : Response :=
  if negb (is_object params) || is_some (value_get ##"cursor" params)
  then rpc_error_response id (-32602) ##"invalid tools/list parameters"
  else
    match permitted_tools (mcp_access server) request with
    | None => rpc_error_response id (-32000) ##"tool access policy failed"
    | Some permitted =>
        match visible_tools permitted (tool_definitions (mcp_registry server)) [] with
        | None => rpc_error_response id (-32000) ##"tool list exceeds configured limit"
        | Some tools => rpc_result id (VObject [(##"tools", VArray tools)])
        end
    end.

Inductive PreparedToolCall : Type :=
| PreparedInvalidParameters
| PreparedFailed
| PreparedReady (context : ToolExecutionContext) (c : ToolCall Value).

(** [fetch_add(1) + 1] on the counter [counter]. The atomic addition wraps; so does the second
    one in a release build (a debug build panics after 2^64 - 1 calls). *)
Definition next_call_id (counter : Z) : str := ##"mcp-server-" ++ to_dec ((counter + 1) mod (u64_max + 1)).

Definition prepare_tool_call (counter : Z) (request : Request) (params : Value) : PreparedToolCall :=
  match parse_tool_call params with
  | None => PreparedInvalidParameters
  | Some (name, arguments) =>
      match call_new (next_call_id counter) name arguments with
      | Err _ => PreparedInvalidParameters
      | Ok c =>
          match permitted_tools (mcp_access server) request with
          | None => PreparedFailed
          | Some permitted =>
              if negb (bool_decide (call_name c ∈ permitted)) then PreparedFailed
              else
                match execution_context (mcp_access server) request (call_name c) with
                | None => PreparedFailed
                | Some context => PreparedReady context c
                end
          end
      end
  end.

Definition tool_answer (id : Value) (executed : result (ToolResult Value) (ExecutionAuditedToolRunError E)) : Response :=
  match executed with
  | Ok r =>
      match tool_success (result_content r) (max_response_bytes config) with
      | Some value => rpc_result id value
      | None => response_limit_error
      end
  | Err _ => rpc_result id tool_failure
  end.
Definition mcp_execute_tool (id : Value) (context : ToolExecutionContext) (c : ToolCall Value) : program call Response :=
  executed ← execute_with_execution_audit (mcp_registry server) context c;
  Ret (tool_answer id executed).

(** *** Dispatch *)

Definition handle_notification (rpc : RpcRequest) : Response := response 202 empty_body.

Definition drained (request : Request) : Request :=
  {| req_method := req_method request; req_uri := req_uri request; req_headers := req_headers request;
     req_extensions := req_extensions request; req_body := empty_body |}.

Definition ALLOW : str := ##"allow".

(** What [handle] does before it looks at the message: an answer, or the message. *)
Definition admit_message (request : Request) : result RpcRequest Response :=
  if negb (allows_origin config request)
  then Err (into_response (mk_error 403 ##"forbidden" ##"MCP origin is not permitted"))
  else if negb (str_eqb (uri_path (req_uri request)) ##"/")
  then Err (into_response (not_found ##"the requested MCP endpoint was not found"))
  else if negb (str_eqb (req_method request) ##"POST")
  then Err (with_headers (hm_insert ALLOW (hv_from_static ##"POST")) (response 405 empty_body))
  else if negb (is_json_request request)
  then Err (into_response (unsupported_media_type ##"expected an application/json content type"))
  else
    match collect_limited [] (req_body request) (max_request_bytes config) with
    | Err BodyTooLarge =>
        Err (into_response (mk_error 413 ##"payload_too_large" ##"request body exceeds the configured limit"))
    | Err BodyRead => Err (into_response (bad_request ##"request body could not be read"))
    | Ok body =>
        let? value := ok_or (value_from_slice body) (rpc_error_response VNull (-32700) ##"parse error") in
        ok_or (rpc_parse value) (rpc_error_response VNull (-32600) ##"invalid request")
    end.

(** [handle], with the counter of calls before it. *)
Definition mcp_handle (counter : Z) (request : Request) : program call Response :=
  match admit_message request with
  | Err answer => Ret answer
  | Ok rpc =>
      match rpc_id rpc with
      | None => Ret (handle_notification rpc)
      | Some id =>
          let method := rpc_method rpc in
          let params := rpc_params rpc in
          let request := drained request in
          if negb (str_eqb method ##"initialize") && negb (valid_protocol_header request)
          then Ret (rpc_error_response id (-32600) ##"missing or unsupported MCP protocol version")
          else if str_eqb method ##"initialize" then Ret (initialize id params)
          else if str_eqb method ##"tools/list" then Ret (list_tools id request params)
          else if str_eqb method ##"resources/list" then Ret (list_resources id request params)
          else if str_eqb method ##"resources/templates/list" then Ret (list_resource_templates id request params)
          else if str_eqb method ##"resources/read" then Ret (read_resource id request params)
          else if str_eqb method ##"prompts/list" then Ret (list_prompts id request params)
          else if str_eqb method ##"prompts/get" then Ret (get_prompt id request params)
          else if str_eqb method ##"tools/call" then
            match prepare_tool_call counter request params with
            | PreparedInvalidParameters => Ret (rpc_error_response id (-32602) ##"invalid tools/call parameters")
            | PreparedFailed => Ret (rpc_result id tool_failure)
            | PreparedReady context c => mcp_execute_tool id context c
            end
          else Ret (rpc_error_response id (-32601) ##"method not found")
      end
  end.

(** The counter after a request: it is advanced for a call that parses. *)
Definition counter_after (counter : Z) (request : Request) : Z :=
  match admit_message request with
  | Ok {| rpc_id := Some _; rpc_method := method; rpc_params := params |} =>
      if str_eqb method ##"tools/call" && valid_protocol_header request && is_some (parse_tool_call params)
      then (counter + 1) mod (u64_max + 1) else counter
  | _ => counter
  end.

(** ** Lemmas: admission *)

(** What a message that is looked at went through. *)
Record admitted (request : Request) (rpc : RpcRequest) : Prop := {
  ad_origin : allows_origin config request = true;
  ad_path : uri_path (req_uri request) = ##"/";
  ad_method : req_method request = ##"POST";
  ad_json : is_json_request request = true;
  ad_body : exists body v, collect_limited [] (req_body request) (max_request_bytes config) = Ok body /\
    (List.length body <= max_request_bytes config)%nat /\ value_from_slice body = Some v /\ rpc_parse v = Some rpc
}.

Lemma collect_limited_bound acc body limit out :
  (List.length acc <= limit)%nat -> collect_limited acc body limit = Ok out -> (List.length out <= limit)%nat.
Proof.
  revert acc. induction body as [|[data|e] body IH]; intros acc Ha; cbn [collect_limited]; [by intros [= <-] | | done].
  destruct (_ <? _)%nat eqn:HL; [done|]. apply Nat.ltb_ge in HL. apply IH. rewrite length_app. exact HL.
Qed.

Lemma admit_message_Ok request rpc : admit_message request = Ok rpc -> admitted request rpc.
Proof.
  unfold admit_message. destruct (allows_origin _ request) eqn:HO; cbn [negb]; [|done].
  destruct (str_eqb (uri_path _) _) eqn:HP; cbn [negb]; [|done]. destruct (str_eqb (req_method _) _) eqn:HM; cbn [negb]; [|done].
  destruct (is_json_request request) eqn:HJ; cbn [negb]; [|done].
  destruct (collect_limited _ _ _) as [body|[]] eqn:HB; [|done..].
  destruct (value_from_slice body) as [v|] eqn:HV; cbn [ok_or]; [|done].
  destruct (rpc_parse v) as [r|] eqn:HR; cbn [ok_or]; [|done]. intros [= <-].
  apply str_eqb_true in HP, HM. split; [done..|]. exists body, v. split_and!; [done | | done | done].
  eapply collect_limited_bound; [|exact HB]. cbn. lia.
Qed.

(** A tool call that the request asks for and its access policy allows. *)
Record tool_authorized (request : Request) (context : ToolExecutionContext) (name : str) (arguments : Value) : Prop := {
  ta_message : exists rpc, admitted request rpc /\ is_some (rpc_id rpc) = true /\ rpc_method rpc = ##"tools/call" /\
    parse_tool_call (rpc_params rpc) = Some (name, arguments);
  ta_version : valid_protocol_header request = true;
  ta_permitted : exists permitted, permitted_tools (mcp_access server) (drained request) = Some permitted /\ name ∈ permitted;
  ta_context : execution_context (mcp_access server) (drained request) name = Some context
}.

Lemma prepare_ready counter request params context c :
  prepare_tool_call counter request params = PreparedReady context c ->
  parse_tool_call params = Some (call_name c, call_arguments c) /\
  (exists permitted, permitted_tools (mcp_access server) request = Some permitted /\ call_name c ∈ permitted) /\
  execution_context (mcp_access server) request (call_name c) = Some context.
Proof.
  unfold prepare_tool_call. destruct (parse_tool_call params) as [[name arguments]|]; [|done].
  unfold call_new. destruct (map_err _ _); [|done]. destruct (validate_tool_name name); [|done]. cbn [call_name].
  destruct (permitted_tools _ _) as [permitted|]; [|done].
  destruct (bool_decide (name ∈ permitted)) eqn:HP; cbn [negb]; [|done]. apply bool_decide_eq_true in HP.
  destruct (execution_context _ _ name) as [x|] eqn:HC; [|done]. intros [= -> <-]. cbn. split_and!; [done | by exists permitted | done].
Qed.

(** The tool call that a request makes: the id of its message, its context and the call. *)
Definition requested_tool (counter : Z) (request : Request) : option (Value * ToolExecutionContext * ToolCall Value) :=
  match admit_message request with
  | Ok {| rpc_id := Some id; rpc_method := method; rpc_params := params |} =>
      if str_eqb method ##"tools/call" && valid_protocol_header request then
        match prepare_tool_call counter (drained request) params with
        | PreparedReady context c => Some (id, context, c)
        | _ => None
        end
      else None
  | _ => None
  end.

Lemma requested_authorized counter request id context c :
  requested_tool counter request = Some (id, context, c) ->
  tool_authorized request context (call_name c) (call_arguments c).
Proof.
  unfold requested_tool. destruct (admit_message request) as [[i method params]|] eqn:HA; [|done].
  destruct i as [i|]; [|done]. destruct (str_eqb method _) eqn:HM; [|done].
  destruct (valid_protocol_header request) eqn:HV; [|done]. apply str_eqb_true in HM. cbn [andb].
  destruct (prepare_tool_call _ _ _) as [| |x d] eqn:HP; [done | done|]. intros [= <- <- <-].
  apply prepare_ready in HP as (HN & HPm & HC). apply admit_message_Ok in HA.
  split; [| done | done | done]. by eexists.
Qed.

(** The handler answers, or executes the tool call that the request makes. *)
Lemma handle_requested counter request :
  match requested_tool counter request with
  | None => exists r, mcp_handle counter request = Ret r
  | Some (id, context, c) => mcp_handle counter request = mcp_execute_tool id context c
  end.
Proof.
  unfold mcp_handle, requested_tool. destruct (admit_message request) as [[i method params]|]; [|by eexists].
  cbn [rpc_id rpc_method rpc_params]. destruct i as [id|]; [|by eexists]. cbv zeta.
  destruct (str_eqb method ##"tools/call") eqn:HM; cbn [andb].
  - apply str_eqb_true in HM. subst method. change (valid_protocol_header (drained request)) with (valid_protocol_header request).
    change (str_eqb ##"tools/call" ##"initialize") with false. cbn [negb andb].
    destruct (valid_protocol_header request); cbn [negb]; [|eexists; reflexivity].
    change (str_eqb ##"tools/call" ##"tools/list") with false. change (str_eqb ##"tools/call" ##"resources/list") with false.
    change (str_eqb ##"tools/call" ##"resources/templates/list") with false.
    change (str_eqb ##"tools/call" ##"resources/read") with false. change (str_eqb ##"tools/call" ##"prompts/list") with false.
    change (str_eqb ##"tools/call" ##"prompts/get") with false. cbv iota.
    destruct (prepare_tool_call _ _ _); [eexists; reflexivity | eexists; reflexivity | reflexivity].
  - destruct (_ && negb _); [eexists; reflexivity|].
    repeat match goal with |- exists r, (if ?b then _ else _) = _ => destruct b; [eexists; reflexivity|] end.
    eexists; reflexivity.
Qed.

(** *** What a request makes the application do *)

(** A call on behalf of a request: the approval policy and the tool are asked only about the
    tool call that the request is authorized for, and only for a registered tool. *)
Definition authorized_call (request : Request) (X : Type) (c : call X) : Prop :=
  match c with
  | RunTool name context arguments =>
      tool_authorized request context name arguments /\ is_some (tool_get (mcp_registry server) name) = true
  | Approve ai t risk =>
      exists context definition, ai = tool_ai context /\
        tool_authorized request context (call_name t) (call_arguments t) /\
        tool_get (mcp_registry server) (call_name t) = Some (definition, risk)
  | Statement _ _ => True
  | _ => False
  end.

Lemma audit_authorized {A} request (p : program call A) : all_calls audit_call p -> all_calls (authorized_call request) p.
Proof. apply all_calls_mono. intros X c. by destruct c; cbn [audit_call authorized_call]. Qed.

Lemma execute_authorized `{!AuditStatements _} request context c :
  tool_authorized request context (call_name c) (call_arguments c) ->
  all_calls (authorized_call request) (execute_with_execution_audit (mcp_registry server) context c).
Proof.
  intros HT. apply execute_all_calls.
  - intros e. apply audit_authorized, approved_statements.
  - intros e. apply audit_authorized, outcome_statements.
  - intros definition risk HG. split; [by exists context, definition | split; [done | exact (f_equal is_some HG)]].
Qed.

(** *** Answers *)

Section compact.
Context `{!CompactLaws}.

Lemma bounded_json_compact v max :
  bounded_json v max = if (List.length (compact v) <=? max)%nat then Some (compact v) else None.
Proof.
  unfold bounded_json. rewrite (proj1 (to_vec_bounded_facts v max)), writes_compact, value_serializes.
  by destruct (_ <=? max)%nat.
Qed.

(** The text of an error besides its id, code and message has 52 bytes. *)
Lemma error_value_length id code message :
  List.length (compact (error_value id code message)) =
    (List.length (compact id) + (List.length (int_text code) + List.length (quoted message)) + 52)%nat.
Proof.
  unfold error_value. cbn [compact map join]. rewrite !length_app.
  repeat match goal with
  | |- context [List.length (quoted (lit ?s))] =>
      let n := eval vm_compute in (List.length (quoted (lit s))) in
      change (List.length (quoted (lit s))) with n
  | |- context [List.length (lit ?s)] =>
      let n := eval vm_compute in (List.length (lit s)) in
      change (List.length (lit s)) with n
  end. lia.
Qed.

Definition short_id (id : Value) : Prop := (List.length (compact id) <= 300)%nat.

Lemma error_encoded id code message :
  short_id id -> (List.length (int_text code) + List.length (quoted message) <=? 100)%nat = true ->
  rpc_error_response id code message = json_bytes (compact (error_value id code message)) /\
  (List.length (compact (error_value id code message)) <= MAX_PROTOCOL_ERROR_RESPONSE_BYTES)%nat.
Proof.
  intros HI HL%Nat.leb_le. unfold short_id in HI. change MAX_PROTOCOL_ERROR_RESPONSE_BYTES with 512%nat.
  assert (List.length (compact (error_value id code message)) <= 512)%nat as HB by (rewrite error_value_length; lia).
  split; [|done]. unfold rpc_error_response, fixed_json_response. rewrite bounded_json_compact.
  change MAX_PROTOCOL_ERROR_RESPONSE_BYTES with 512%nat. by rewrite (proj2 (Nat.leb_le _ _) HB).
Qed.

(** *** Identifiers *)

(** No control characters. *)
Definition plain_id (id : Value) : bool :=
  match id with VString s => forallb (fun c => 32 <=? code c) s | _ => true end.

Lemma plain_text_length s :
  forallb (fun c => 32 <=? code c) s = true -> (List.length (flat_map escape s) <= 2 * List.length s)%nat.
Proof.
  induction s as [|c s IH]; [done|]. cbn [forallb flat_map List.length]. intros [HC HS]%andb_prop.
  rewrite length_app. specialize (IH HS). apply Z.leb_le in HC.
  assert (List.length (escape c) <= 2)%nat; [|lia]. unfold escape.
  repeat (case_match; [cbn; lia|]). cbn. lia.
Qed.

Lemma plain_id_short v id : parse_id v = Some (Some id) -> plain_id id = true -> short_id id.
Proof.
  unfold parse_id, short_id. intros HP HI.
  destruct v as [[| |z|text|text| |]|]; try done;
    (destruct (_ <=? MAX_REQUEST_ID_BYTES)%nat eqn:HL; [|done]); apply Nat.leb_le in HL;
    change MAX_REQUEST_ID_BYTES with 128%nat in HL; injection HP as <-; cbn [compact number_text] in *; [lia | lia|].
  cbn [plain_id] in HI. apply plain_text_length in HI. unfold quoted. rewrite !length_app. cbn [List.length]. lia.
Qed.

Lemma admitted_id request rpc : admitted request rpc -> exists v, parse_id v = Some (rpc_id rpc).
Proof.
  intros [_ _ _ _ (body & v & _ & _ & _ & HR)]. unfold rpc_parse in HR. destruct (negb _); [done|].
  apply bind_Some in HR as (m & _ & HR). apply bind_Some in HR as (id & HI & [= <-]). by eexists.
Qed.

(** *** Tool lists *)

Lemma visible_tools_spec permitted definitions tools :
  (List.length tools <= max_tool_items config)%nat ->
  visible_tools permitted definitions tools =
    let visible := tools ++ map tool_value (List.filter (fun d => bool_decide (tool_name d ∈ permitted)) definitions) in
    if (List.length visible <=? max_tool_items config)%nat then Some visible else None.
Proof.
  revert tools. induction definitions as [|d rest IH]; intros tools HL; cbn [visible_tools List.filter map]; cbv zeta.
  { rewrite app_nil_r. by rewrite (proj2 (Nat.leb_le _ _) HL). }
  destruct (bool_decide (tool_name d ∈ permitted)); cbn [negb map]; [|by apply IH].
  destruct (_ =? _)%nat eqn:HN.
  - apply Nat.eqb_eq in HN. rewrite length_app. cbn [List.length]. by rewrite (proj2 (Nat.leb_gt _ _)) by lia.
  - apply Nat.eqb_neq in HN. rewrite IH by (rewrite length_app; cbn; lia). cbv zeta. by rewrite <- app_assoc.
Qed.

(** ** Properties *)

Definition control_id : str := repeat (ascii_of_nat 1) MAX_REQUEST_ID_BYTES.

(** C40: An id of control characters is accepted at its greatest length, but no error can be
    reported to it: the answer is an empty [500]. *)
Theorem control_id_unanswered code message :
  parse_id (Some (VString control_id)) = Some (Some (VString control_id)) /\
  rpc_error_response (VString control_id) code message = response 500 empty_body.
Proof.
  split; [vm_compute; reflexivity|]. unfold rpc_error_response, fixed_json_response.
  rewrite bounded_json_compact, error_value_length. rewrite (proj2 (Nat.leb_gt _ _)); [done|].
  change (List.length (compact (VString control_id))) with 770%nat. change MAX_PROTOCOL_ERROR_RESPONSE_BYTES with 512%nat. lia.
Qed.
End compact.

(** C8: Whatever a request is, the approval policy and the tools are asked only about one tool
    call: the one that the message asks for, by a request with an allowed origin, the [POST] of
    a JSON body within the limit to the endpoint with the protocol's version, for a tool that
    is registered and that the access policy permits, in the context the policy gives it. All
    else that a request does is the statements of the audit. *)
Theorem mcp_tools_authorized `{!AuditStatements _} counter request :
  all_calls (authorized_call request) (mcp_handle counter request).
Proof.
  pose proof (handle_requested counter request) as HR.
  destruct (requested_tool counter request) as [[[id context] c]|] eqn:HT.
  - rewrite HR. apply all_calls_bind; [|done]. eapply execute_authorized, requested_authorized, HT.
  - by destruct HR as [r ->].
Qed.

(** A list of tools is the registry's, those that the access policy permits, in order and
    complete, and an error when they are more than the configured number. *)
Theorem tools_list_permitted id request params permitted :
  valid_list_params params = true -> permitted_tools (mcp_access server) request = Some permitted ->
  list_tools id request params =
    let visible := List.filter (fun d => bool_decide (tool_name d ∈ permitted)) (tool_definitions (mcp_registry server)) in
    if (List.length visible <=? max_tool_items config)%nat
    then rpc_result id (VObject [(##"tools", VArray (map tool_value visible))])
    else rpc_error_response id (-32000) ##"tool list exceeds configured limit".
Proof.
  intros HV HP. unfold list_tools. rewrite HP, visible_tools_spec by apply Nat.le_0_l. cbv zeta.
  unfold valid_list_params in HV. apply andb_prop in HV as [HO HC]. apply negb_true_iff in HC. rewrite HO, HC. cbn [negb orb app].
  rewrite length_map. by destruct (_ <=? _)%nat.
Qed.
End server.

(** ** A server with one tool *)

Module McpExamples.
Import HttpModel OidcModel.

Definition mail_arguments : Value := VObject [(##"to", VString ##"bob")].
Definition call_message : Value := VObject [
  (##"jsonrpc", VString ##"2.0"); (##"id", VInt 7); (##"method", VString ##"tools/call");
  (##"params", VObject [(##"name", VString ##"mail"); (##"arguments", mail_arguments)])
].

(** The compact writer, and a parser of one text. *)
#[export] Instance json : JsonText := {|
  json_text := {| json_writes v := [compact v]; json_fails _ := false |};
  json_parse b := if str_eqb b (compact call_message) then Some call_message else None
|}.
#[export] Instance json_laws : CompactLaws.
Proof. split; [intros v; cbn; apply app_nil_r | done]. Qed.

Notation app := (@mcp_app _ unit unit unit unit).
Definition alice : AiExecutionContext := {| ctx_tenant := ##"acme"; ctx_subject := ##"alice" |}.
Definition mailing : ToolExecutionContext := {| tool_ai := alice; tool_key := ##"mail-1" |}.
Definition mail : ToolDefinition Value := {| tool_name := ##"mail"; input_schema := VObject [] |}.
Definition server_tools : @ToolRegistry app := (@register_tool app registry_new (mail, Privileged)).2.
Definition settings : McpServerConfig :=
  {| server_name := ##"mailer"; server_version := ##"1"; max_request_bytes := 200; max_response_bytes := 400;
     max_tool_items := 2; max_context_items := 2; allowed_origins := {[ ##"https://app.test" ]} |}.
Definition access : McpToolAccessPolicy :=
  {| permitted_tools _ := Some {[ ##"mail" ]};
     execution_context _ name := if str_eqb name ##"mail" then Some mailing else None |}.
Definition mailer : @McpServer _ _ _ unit unit unit unit :=
  {| mcp_config := settings; mcp_registry := server_tools; mcp_access := access; mcp_context := DenyAllMcpContextProvider |}.

Definition call_request : Request := {|
  req_method := ##"POST"; req_uri := {| u_path := ##"/"; u_query := None |};
  req_headers := [(ORIGIN, ##"https://app.test"); (CONTENT_TYPE, ##"application/json");
                  (##"mcp-protocol-version", MCP_PROTOCOL_VERSION)];
  req_extensions := no_extensions; req_body := full_body (compact call_message) |}.
Definition call_rpc : RpcRequest :=
  {| rpc_id := Some (VInt 7); rpc_method := ##"tools/call";
     rpc_params := VObject [(##"name", VString ##"mail"); (##"arguments", mail_arguments)] |}.

Example call_admitted : admit_message mailer call_request = Ok call_rpc.
Proof. vm_compute. reflexivity. Qed.
Example call_requested :
  requested_tool mailer 0 call_request =
  Some (VInt 7, mailing, {| call_id := ##"mcp-server-1"; call_name := ##"mail"; call_arguments := mail_arguments |}).
Proof. vm_compute. reflexivity. Qed.

Notation audit := (@postgres_audit app).

Lemma control_id_unanswered_witness :
  rpc_error_response (VString control_id) (-32601) ##"method not found" = response 500 empty_body.
Proof. exact (proj2 (control_id_unanswered (-32601) ##"method not found")). Defined.

Lemma mcp_tools_authorized_witness :
  all_calls (authorized_call mailer call_request) (mcp_handle (ToolAuditSink0 := audit) mailer 0 call_request).
Proof. exact (mcp_tools_authorized mailer 0 call_request). Defined.

Lemma tools_list_permitted_witness :
  list_tools mailer (VInt 7) call_request (VObject []) =
  rpc_result mailer (VInt 7) (VObject [(##"tools", VArray [tool_value mail])]).
Proof. exact (tools_list_permitted mailer (VInt 7) call_request (VObject []) {[ ##"mail" ]} eq_refl eq_refl). Defined.
End McpExamples.
