(* ===== verification/McpBudget.v ===== *)
(** The budget under which an MCP server makes context values ([context/budget.rs]) changes no
    answer: it stops early only what the limit on the answer would stop. *)

From Stdlib Require Import ZArith Lia Bool Ascii.
From stdpp Require Import gmap.
From S2P Require Import Prelude Strings Http Core HttpModel Json AiProtocol AiPipeline AiLedger JsonValue Oidc McpContext Mcp.

Local Open Scope Z_scope.

(** ** What is taken from a budget *)

(** [m] makes [a] for [n] bytes; a budget is a [usize]. *)
Record spends {A} (m : budgeted A) (a : A) (n : Z) : Prop := {
  sp_nonneg : 0 <= n;
  sp_takes b : 0 <= b <= u64_max -> m b = if b <? n then None else Some (a, b - n)
}.

Lemma spends_ret {A} (a : A) : spends (mret a) a 0.
Proof. split; [lia|]. intros b Hb. rewrite (proj2 (Z.ltb_ge _ _)) by lia. by rewrite Z.sub_0_r. Qed.

Lemma spends_bind {A B} (m : budgeted A) (f : A -> budgeted B) a c n n' :
  spends m a n -> spends (f a) c n' -> spends (m ≫= f) c (n + n').
Proof.
  intros [Hn Hm] [Hn' Hf]. split; [lia|]. intros b Hb. unfold mbind, budgeted_bind. rewrite Hm by done.
  destruct (Z.ltb_spec b n); [by rewrite (proj2 (Z.ltb_lt _ _)) by lia|]. rewrite Hf by lia.
  destruct (Z.ltb_spec (b - n) n'), (Z.ltb_spec b (n + n')); try lia; [done|]. by rewrite Z.sub_add_distr.
Qed.

Lemma spends_reserve n : 0 <= n -> spends (budget_reserve n) tt n.
Proof. by split. Qed.
Lemma spends_text s : spends (reserve_text s) tt (Z.of_nat (List.length s)).
Proof. apply spends_reserve. lia. Qed.
Definition optional_length (s : option str) : Z := match s with Some s => Z.of_nat (List.length s) | None => 0 end.
Lemma spends_optional_text s : spends (reserve_optional_text s) tt (optional_length s).
Proof. destruct s; [apply spends_text | apply spends_ret]. Qed.

(** A length that overflows is more than any budget. *)
Lemma spends_base64 `{EncodingApi} `{!EncodingLaws} blob :
  spends (reserve_base64 blob) tt (Z.of_nat (List.length (base64 blob))).
Proof.
  rewrite base64_length. rewrite Nat2Z.inj_mul, Nat2Z.inj_div, Nat2Z.inj_add. change (Z.of_nat 2) with 2.
  change (Z.of_nat 3) with 3. change (Z.of_nat 4) with 4. unfold reserve_base64, base64_len.
  pose proof (Nat2Z.is_nonneg (List.length blob)) as Hl. revert Hl. generalize (Z.of_nat (List.length blob)). intros l Hl.
  assert (forall n, u64_max < n -> spends (fun _ => None) tt n) as HN.
  { intros n Hn. split; [unfold u64_max in Hn; lia|]. intros b Hb. by rewrite (proj2 (Z.ltb_lt _ _)) by lia. }
  unfold checked_add. destruct (Z.leb_spec (l + 2) u64_max) as [HL|HL]; cbn [mbind option_bind].
  - destruct (Z.ltb_spec u64_max ((l + 2) / 3 * 4)); [by apply HN|]. apply spends_reserve.
    pose proof (Z.div_pos (l + 2) 3). lia.
  - apply HN. unfold u64_max in *. pose proof (Z.mul_div_le (l + 2) 3). pose proof (Z.mul_succ_div_gt (l + 2) 3). lia.
Qed.

(** ** The text of a value is at least its parts *)

Notation size v := (Z.of_nat (List.length (compact v))).
Definition sizes (l : list Value) : Z := foldr (fun v n => size v + n) 0 l.
Definition field_sizes (fields : list (str * Value)) : Z := sizes (map snd fields).

Lemma join_length_ge sep l : (sum_list_with List.length l <= List.length (join sep l))%nat.
Proof.
  induction l as [|s [|s' l] IH]; [done | cbn; lia|]. change (join sep (s :: s' :: l)) with (s ++ sep ++ join sep (s' :: l)).
  rewrite !length_app. cbn [sum_list_with] in *. lia.
Qed.
Lemma array_size l : sizes l <= size (VArray l).
Proof.
  cbn [compact]. rewrite !length_app. pose proof (join_length_ge ##"," (map compact l)) as HJ.
  assert (Z.of_nat (sum_list_with List.length (map compact l)) = sizes l) as HS; [|lia].
  induction l as [|v l IH]; [done|]. cbn [map sum_list_with sizes foldr]. fold (sizes l).
  rewrite Nat2Z.inj_add, IH; [done|]. apply join_length_ge.
Qed.
Lemma object_size fields : field_sizes fields <= size (VObject fields).
Proof.
  cbn [compact]. rewrite !length_app.
  pose proof (join_length_ge ##"," (map (fun '(k, w) => quoted k ++ ##":" ++ compact w) fields)) as HJ.
  assert (field_sizes fields <= Z.of_nat (sum_list_with List.length
    (map (fun '(k, w) => quoted k ++ ##":" ++ compact w) fields))) as HS; [|lia].
  clear HJ. induction fields as [|[k w] fields IH]; [done|]. cbn [map sum_list_with field_sizes sizes foldr snd].
  fold (sizes (map snd fields)). fold (field_sizes fields). rewrite !length_app. lia.
Qed.
Lemma escape_length c : (1 <= List.length (escape c))%nat.
Proof. unfold escape. repeat (case_match; [cbn; lia|]). cbn. lia. Qed.
Lemma string_size s : Z.of_nat (List.length s) <= size (VString s).
Proof.
  cbn [compact]. unfold quoted. rewrite !length_app. induction s as [|c s IH]; [done|].
  cbn [flat_map List.length]. rewrite length_app. pose proof (escape_length c). cbn [List.length] in *. lia.
Qed.

Definition lacks (name : str) (fields : list (str * Value)) : bool := negb (existsb (fun f => str_eqb f.1 name) fields).
Lemma insert_size name v fields : lacks name fields = true -> field_sizes (map_insert name v fields) = field_sizes fields + size v.
Proof.
  unfold lacks. induction fields as [|[k w] fields IH]; cbn [existsb map_insert fst].
  { intros _. unfold field_sizes, sizes. cbn [map foldr snd]. lia. }
  destruct (str_eqb k name); cbn [orb negb]; [done|]. intros HL. specialize (IH HL).
  unfold field_sizes, sizes in *. cbn [map foldr snd]. lia.
Qed.
Lemma insert_lacks name k v fields : str_eqb k name = false -> lacks name (map_insert k v fields) = lacks name fields.
Proof.
  intros HN. unfold lacks. induction fields as [|[k' w] fields IH]; cbn [existsb map_insert fst]; [by rewrite HN|].
  destruct (str_eqb k' k) eqn:HE; cbn [existsb fst]; [done|].
  destruct (str_eqb k' name); cbn [orb]; [done|]. exact IH.
Qed.
Lemma optional_lacks name k o fields : str_eqb k name = false -> lacks name (optional_string k o fields) = lacks name fields.
Proof. destruct o; [apply insert_lacks | done]. Qed.
Lemma optional_size name o fields :
  lacks name fields = true -> field_sizes fields + optional_length o <= field_sizes (optional_string name o fields).
Proof.
  intros HL. destruct o as [s|]; cbn [optional_string optional_length]; [|lia]. rewrite insert_size by done.
  pose proof (string_size s). lia.
Qed.

(** ** The values of the protocol, as they are without a budget *)

Section values.
Context `{UrlApi, EncodingApi}.

Definition resource_fields (r : McpServerResource) : list (str * Value) :=
  let value := map_insert ##"name" (VString (mr_name r)) [(##"uri", VString (url_as_str (mr_uri r)))] in
  let value := optional_string ##"title" (mr_title r) value in
  let value := optional_string ##"description" (mr_description r) value in
  let value := optional_string ##"mimeType" (mr_mime_type r) value in
  match mr_size r with Some size => map_insert ##"size" (VInt size) value | None => value end.
Definition resource_value (r : McpServerResource) : Value := VObject (resource_fields r).
Definition template_value (t : McpServerResourceTemplate) : Value :=
  let value := map_insert ##"name" (VString (mt_name t)) [(##"uriTemplate", VString (mt_uri_template t))] in
  let value := optional_string ##"title" (mt_title t) value in
  let value := optional_string ##"description" (mt_description t) value in
  VObject (optional_string ##"mimeType" (mt_mime_type t) value).
Definition contents_value (c : McpServerResourceContents) : Value :=
  let value := optional_string ##"mimeType" (mc_mime_type c) [(##"uri", VString (url_as_str (mc_uri c)))] in
  VObject (match mc_data c with
           | ResourceText text => map_insert ##"text" (VString text) value
           | ResourceBlob blob => map_insert ##"blob" (VString (base64 blob)) value
           end).
Definition argument_value (a : McpServerPromptArgument) : Value :=
  VObject (map_insert ##"required" (VBool (pr_required a))
             (optional_string ##"description" (pr_description a) [(##"name", VString (pr_name a))])).
Definition prompt_value (p : McpServerPrompt) : Value :=
  let value := optional_string ##"title" (mp_title p) [(##"name", VString (mp_name p))] in
  let value := optional_string ##"description" (mp_description p) value in
  VObject (map_insert ##"arguments" (VArray (map argument_value (mp_arguments p))) value).
Definition media_value (kind : str) (data : bytes) (mime_type : str) : Value :=
  VObject [(##"type", VString kind); (##"data", VString (base64 data)); (##"mimeType", VString mime_type)].
Definition content_value (c : McpServerPromptContent) : Value :=
  match c with
  | ContentText text => VObject [(##"type", VString ##"text"); (##"text", VString text)]
  | ContentImage data mime_type => media_value ##"image" data mime_type
  | ContentAudio data mime_type => media_value ##"audio" data mime_type
  | ContentResource contents => VObject [(##"type", VString ##"resource"); (##"resource", contents_value contents)]
  | ContentResourceLink resource => VObject (map_insert ##"type" (VString ##"resource_link") (resource_fields resource))
  end.
Definition message_value (m : McpServerPromptMessage) : Value :=
  VObject [(##"role", VString (role_wire (ms_role m))); (##"content", content_value (ms_content m))].
Definition prompt_result_value (r : McpServerPromptResult) : Value :=
  VObject (map_insert ##"messages" (VArray (map message_value (ps_messages r)))
             (optional_string ##"description" (ps_description r) [])).

(** ** Wires make them, and take no more than their text has *)

Definition fair (m : budgeted Value) (v : Value) : Prop := exists n, spends m v n /\ n <= size v.

Lemma spends_collect {A} (wire : A -> budgeted Value) value l :
  (forall x, fair (wire x) (value x)) ->
  exists n, spends (collect_wires wire l) (map value l) n /\ n <= sizes (map value l).
Proof.
  intros HF. induction l as [|x l (n & HS & HN)]; cbn [collect_wires map].
  { exists 0. split; [apply spends_ret | done]. }
  destruct (HF x) as (nx & Hv & Hnx). exists (nx + (n + 0)). split.
  - eapply spends_bind; [exact Hv|]. eapply spends_bind; [exact HS | apply spends_ret].
  - cbn [sizes foldr]. fold (sizes (map value l)). lia.
Qed.

Ltac spend :=
  repeat (eapply spends_bind; [first [apply spends_text | apply spends_optional_text | apply spends_base64 | eassumption]|]);
  apply spends_ret.

(** The sizes of fields that were put one after the other. *)
Lemma optional_size_le name o fields n :
  lacks name fields = true -> n - optional_length o <= field_sizes fields -> n <= field_sizes (optional_string name o fields).
Proof. intros HL HN. pose proof (optional_size name o fields HL). lia. Qed.
Lemma insert_size_le name v fields n :
  lacks name fields = true -> n - size v <= field_sizes fields -> n <= field_sizes (map_insert name v fields).
Proof. intros HL HN. rewrite insert_size by done. lia. Qed.
Lemma insert_string_size_le name s fields n :
  lacks name fields = true -> n - Z.of_nat (List.length s) <= field_sizes fields ->
  n <= field_sizes (map_insert name (VString s) fields).
Proof. intros HL HN. apply insert_size_le; [done|]. pose proof (string_size s). lia. Qed.
Lemma cons_size_le name v fields n : n - size v <= field_sizes fields -> n <= field_sizes ((name, v) :: fields).
Proof. unfold field_sizes, sizes. cbn [map foldr snd]. lia. Qed.
Lemma cons_string_size_le name s fields n :
  n - Z.of_nat (List.length s) <= field_sizes fields -> n <= field_sizes ((name, VString s) :: fields).
Proof. intros HN. apply cons_size_le. pose proof (string_size s). lia. Qed.

Ltac lack := repeat first [rewrite insert_lacks by reflexivity | rewrite optional_lacks by reflexivity]; reflexivity.
Ltac field_size :=
  repeat first
    [ apply optional_size_le; [lack|] | apply insert_string_size_le; [lack|] | apply insert_size_le; [lack|]
    | apply cons_string_size_le | apply cons_size_le ];
  change (field_sizes []) with 0.

Context `{!EncodingLaws}.

Lemma resource_spends r : exists n, spends (resource_wire r) (resource_value r) n /\ n <= field_sizes (resource_fields r).
Proof.
  eexists. split; [unfold resource_wire; spend|]. unfold resource_fields. cbv zeta.
  destruct (mr_size r); field_size; lia.
Qed.
Lemma resource_fair r : fair (resource_wire r) (resource_value r).
Proof. destruct (resource_spends r) as (n & HS & HN). exists n. split; [done|]. etrans; [exact HN | apply object_size]. Qed.
Lemma template_fair t : fair (template_wire t) (template_value t).
Proof. eexists. split; [unfold template_wire; spend|]. etrans; [|apply object_size]. field_size. lia. Qed.
Lemma contents_fair c : fair (contents_wire c) (contents_value c).
Proof.
  unfold contents_wire, contents_value. destruct (mc_data c); (eexists; split; [spend|]; etrans; [|apply object_size]); field_size; lia.
Qed.
Lemma argument_fair a : fair (argument_wire a) (argument_value a).
Proof. eexists. split; [unfold argument_wire; spend|]. etrans; [|apply object_size]. field_size. lia. Qed.
Lemma prompt_fair p : fair (prompt_wire p) (prompt_value p).
Proof.
  destruct (spends_collect argument_wire argument_value (mp_arguments p) argument_fair) as (n & HS & HN).
  eexists. split; [unfold prompt_wire; spend|]. etrans; [|apply object_size].
  pose proof (array_size (map argument_value (mp_arguments p))). field_size. lia.
Qed.
Lemma media_fair kind data mime_type : fair (media_wire kind data mime_type) (media_value kind data mime_type).
Proof. eexists. split; [unfold media_wire; spend|]. etrans; [|apply object_size]. field_size. lia. Qed.
Lemma content_fair c : fair (content_wire c) (content_value c).
Proof.
  destruct c; cbn [content_wire content_value]; [| apply media_fair | apply media_fair | |].
  - eexists. split; [spend|]. etrans; [|apply object_size]. field_size. lia.
  - destruct (contents_fair contents) as (n & HS & HN). eexists. split; [spend|].
    etrans; [|apply object_size]. field_size. lia.
  - destruct (resource_spends resource) as (n & HS & HN). eexists. split.
    { eapply spends_bind; [exact HS | apply spends_ret]. }
    etrans; [|apply object_size]. apply insert_size_le; [unfold resource_fields; cbv zeta; destruct (mr_size resource); lack | lia].
Qed.
Lemma message_fair m : fair (message_wire m) (message_value m).
Proof.
  destruct (content_fair (ms_content m)) as (n & HS & HN). eexists. split; [unfold message_wire; spend|].
  etrans; [|apply object_size]. field_size. lia.
Qed.
Lemma prompt_result_fair r : fair (prompt_result_wire r) (prompt_result_value r).
Proof.
  destruct (spends_collect message_wire message_value (ps_messages r) message_fair) as (n & HS & HN).
  eexists. split; [unfold prompt_result_wire; spend|]. etrans; [|apply object_size].
  pose proof (array_size (map message_value (ps_messages r))). field_size. lia.
Qed.
End values.

(** ** Answers *)

Lemma existsb_negb {A} (f : A -> bool) l : existsb (fun x => negb (f x)) l = negb (forallb f l).
Proof. induction l as [|x l IH]; [done|]. cbn. rewrite IH. by destruct (f x). Qed.

Section server.
Context `{HttpApi, UrlApi, EncodingApi, JsonText} `{!EncodingLaws, !CompactLaws}.
Context {ProviderError AdvisorError BudgetError ApprovalError : Type}.
Context (server : @McpServer _ _ _ ProviderError AdvisorError BudgetError ApprovalError).
Notation config := (mcp_config server).
(** A [usize]. *)
Context (limit_usize : Z.of_nat (max_response_bytes config) <= u64_max).

Lemma result_size id v : size v <= size (result_value id v).
Proof.
  etrans; [|apply object_size]. unfold field_sizes, sizes. cbn [map foldr snd]. lia.
Qed.

Lemma budget_transparent {A} (m : budgeted A) a n id (wrap : A -> Value) :
  spends m a n -> n <= size (wrap a) ->
  under_budget server m (fun a => rpc_result server id (wrap a)) = rpc_result server id (wrap a).
Proof.
  intros [Hn0 HS] HN. unfold under_budget. rewrite HS by lia. destruct (Z.ltb_spec (Z.of_nat (max_response_bytes config)) n); [|done].
  unfold rpc_result, rpc_result_response. rewrite bounded_json_compact, (proj2 (Nat.leb_gt _ _)); [done|].
  pose proof (result_size id (wrap a)). lia.
Qed.
Lemma collected_transparent {A} (wire : A -> budgeted Value) value l id name :
  (forall x, fair (wire x) (value x)) ->
  under_budget server (collect_wires wire l) (fun values => rpc_result server id (VObject [(name, VArray values)])) =
  rpc_result server id (VObject [(name, VArray (map value l))]).
Proof.
  intros HF. destruct (spends_collect wire value l HF) as (n & HS & HN).
  apply (budget_transparent _ _ n id (fun values => VObject [(name, VArray values)]) HS).
  etrans; [exact HN|]. etrans; [apply array_size|]. etrans; [|apply object_size]. apply cons_size_le. cbn. lia.
Qed.

(** ** Properties *)

(** C11: The answers for context are those of a server without the budget: the values of what
    the provider returns, as a result if the whole answer is within the configured limit and
    as the error of the limit if it is not. The budget refuses only what the limit on the
    answer refuses. *)
Theorem context_answers id request params :
  (forall resources, cap_resources (capabilities (mcp_context server)) = true -> valid_list_params params = true ->
    provide_resources (mcp_context server) request = Some resources ->
    (List.length resources <= max_context_items config)%nat ->
    unique_values (map (fun r => url_as_str (mr_uri r)) resources) = true ->
    list_resources server id request params =
      rpc_result server id (VObject [(##"resources", VArray (map resource_value resources))])) /\
  (forall templates, cap_resources (capabilities (mcp_context server)) = true -> valid_list_params params = true ->
    provide_templates (mcp_context server) request = Some templates ->
    (List.length templates <= max_context_items config)%nat -> unique_values (map mt_name templates) = true ->
    list_resource_templates server id request params =
      rpc_result server id (VObject [(##"resourceTemplates", VArray (map template_value templates))])) /\
  (forall uri contents, cap_resources (capabilities (mcp_context server)) = true -> parse_resource_uri params = Some uri ->
    provide_contents (mcp_context server) request uri = Some contents ->
    (0 < List.length contents <= max_context_items config)%nat ->
    forallb (fun c => url_eqb (mc_uri c) uri) contents = true ->
    read_resource server id request params =
      rpc_result server id (VObject [(##"contents", VArray (map contents_value contents))])) /\
  (forall prompts, cap_prompts (capabilities (mcp_context server)) = true -> valid_list_params params = true ->
    provide_prompts (mcp_context server) request = Some prompts ->
    (List.length prompts <= max_context_items config)%nat -> unique_values (map mp_name prompts) = true ->
    list_prompts server id request params =
      rpc_result server id (VObject [(##"prompts", VArray (map prompt_value prompts))])) /\
  (forall name arguments result, cap_prompts (capabilities (mcp_context server)) = true ->
    parse_prompt_get params = Some (name, arguments) ->
    provide_prompt (mcp_context server) request name arguments = Some result ->
    (List.length (ps_messages result) <= max_context_items config)%nat ->
    get_prompt server id request params = rpc_result server id (prompt_result_value result)).
Proof.
  split_and!.
  - intros resources HC HV HP HL HU. unfold list_resources. rewrite HC, HV, HP, HU, (proj2 (Nat.ltb_ge _ _) HL). cbn [negb orb].
    apply collected_transparent, resource_fair.
  - intros templates HC HV HP HL HU. unfold list_resource_templates. rewrite HC, HV, HP, HU, (proj2 (Nat.ltb_ge _ _) HL).
    cbn [negb orb]. apply collected_transparent, template_fair.
  - intros uri contents HC HU HP [Hc0 HL] HE. unfold read_resource. rewrite HC, HU, HP, (proj2 (Nat.ltb_ge _ _) HL).
    rewrite (proj2 (Nat.eqb_neq _ _)) by lia. rewrite existsb_negb, HE. cbn [negb orb].
    apply collected_transparent, contents_fair.
  - intros prompts HC HV HP HL HU. unfold list_prompts. rewrite HC, HV, HP, HU, (proj2 (Nat.ltb_ge _ _) HL). cbn [negb orb].
    apply collected_transparent, prompt_fair.
  - intros name arguments result HC HN HP HL. unfold get_prompt. rewrite HC, HN, HP, (proj2 (Nat.ltb_ge _ _) HL). cbn [negb].
    destruct (prompt_result_fair result) as (n & HS & HB). by apply (budget_transparent _ _ n id (fun v => v) HS).
Qed.
End server.

(** ** A server with one prompt *)

Module McpContextExamples.
Import HttpModel OidcModel McpExamples.

Definition greeting : McpServerPromptResult :=
  prompt_result_new [message_user (ContentText ##"Greet the user."); message_assistant (ContentImage ##"png" ##"image/png")].
Definition greeter : McpContextProvider := {|
  capabilities := with_prompts capabilities_default;
  provide_resources _ := None; provide_templates _ := None; provide_contents _ _ := None; provide_prompts _ := None;
  provide_prompt _ name _ := if str_eqb name ##"greet" then Some greeting else None |}.
Definition greeting_server : @McpServer _ _ _ unit unit unit unit := with_context_provider greeter mailer.

Lemma context_answers_witness :
  get_prompt greeting_server (VInt 1) call_request (VObject [(##"name", VString ##"greet")]) =
  rpc_result greeting_server (VInt 1) (prompt_result_value greeting) /\
  res_status (rpc_result greeting_server (VInt 1) (prompt_result_value greeting)) = 200.
Proof.
  split; [|vm_compute; reflexivity].
  assert (Hl : Z.of_nat (max_response_bytes (mcp_config greeting_server)) <= u64_max) by (apply Z.leb_le; vm_compute; reflexivity).
  destruct (context_answers greeting_server Hl (VInt 1) call_request (VObject [(##"name", VString ##"greet")]))
    as (_ & _ & _ & _ & HP).
  apply (HP ##"greet" ∅ greeting); [done | vm_compute; reflexivity | vm_compute; reflexivity | cbn; lia].
Defined.
End McpContextExamples.
