(* ===== verification/McpAnswers.v ===== *)
(** What an MCP server answers: every message with an id gets the result of its method, the
    error that its cause calls for, or the error of the limit when the result is too large. *)

From Stdlib Require Import ZArith Lia Bool Ascii.
From stdpp Require Import gmap.
From S2P Require Import Prelude Strings Http Core HttpModel Json Effects AiProtocol AiPipeline AiLedger JsonValue Oidc McpContext Mcp McpBudget.

Local Open Scope Z_scope.

Section server.
Context `{HttpApi, UrlApi, EncodingApi, JsonText} `{!EncodingLaws, !CompactLaws} `{!Serialize ErrorPayload}.
Context {ProviderError AdvisorError BudgetError ApprovalError : Type}.
Notation app := (@mcp_app _ ProviderError AdvisorError BudgetError ApprovalError).
Context {E : Type} {sink : @ToolAuditSink app E}.
Context (server : @McpServer _ _ _ ProviderError AdvisorError BudgetError ApprovalError).
Notation config := (mcp_config server).
Notation context := (mcp_context server).
(** A [usize]. *)
Context (limit_usize : Z.of_nat (max_response_bytes config) <= u64_max).

(** ** Results and errors of a message *)

Section message.
(** The calls before the message, the request without its body, and the message. *)
Context (counter : Z) (request : Request) (method : str) (params : Value).

Definition initialized : Value :=
  let caps := capabilities context in
  VObject [
    (##"protocolVersion", VString MCP_PROTOCOL_VERSION);
    (##"capabilities", VObject (
      (##"tools", VObject [(##"listChanged", VBool false)])
      :: (if cap_resources caps then [(##"resources", VObject [(##"subscribe", VBool false); (##"listChanged", VBool false)])] else [])
      ++ (if cap_prompts caps then [(##"prompts", VObject [(##"listChanged", VBool false)])] else [])));
    (##"serverInfo", VObject [(##"name", VString (server_name config)); (##"version", VString (server_version config))])
  ].
Definition permitted_definitions (permitted : gset str) : list (ToolDefinition Value) :=
  List.filter (fun d => bool_decide (tool_name d ∈ permitted)) (tool_definitions (mcp_registry server)).
Definition called (content : Value) : Value := VObject [
  (##"content", VArray [VObject [(##"type", VString ##"text"); (##"text", VString (compact content))]]);
  (##"structuredContent", content)
].

(** The values that the methods have as results. *)
Inductive result_for : Value -> Prop :=
| ResultInitialize : method = ##"initialize" -> result_for initialized
| ResultTools permitted :
    method = ##"tools/list" -> permitted_tools (mcp_access server) request = Some permitted ->
    result_for (VObject [(##"tools", VArray (map tool_value (permitted_definitions permitted)))])
| ResultResources resources :
    method = ##"resources/list" -> provide_resources context request = Some resources ->
    result_for (VObject [(##"resources", VArray (map resource_value resources))])
| ResultTemplates templates :
    method = ##"resources/templates/list" -> provide_templates context request = Some templates ->
    result_for (VObject [(##"resourceTemplates", VArray (map template_value templates))])
| ResultContents uri contents :
    method = ##"resources/read" -> parse_resource_uri params = Some uri ->
    provide_contents context request uri = Some contents ->
    result_for (VObject [(##"contents", VArray (map contents_value contents))])
| ResultPrompts prompts :
    method = ##"prompts/list" -> provide_prompts context request = Some prompts ->
    result_for (VObject [(##"prompts", VArray (map prompt_value prompts))])
| ResultPrompt name arguments prompt :
    method = ##"prompts/get" -> parse_prompt_get params = Some (name, arguments) ->
    provide_prompt context request name arguments = Some prompt ->
    result_for (prompt_result_value prompt)
| ResultCalled content : method = ##"tools/call" -> result_for (called content)
| ResultFailed : method = ##"tools/call" -> result_for tool_failure.

Definition METHODS : list str := [
  ##"initialize"; ##"tools/list"; ##"resources/list"; ##"resources/templates/list"; ##"resources/read"; ##"prompts/list";
  ##"prompts/get"; ##"tools/call"
].

(** What the context provider was asked for and did not give. *)
Definition provider_failed : Prop :=
  method = ##"resources/list" /\ provide_resources context request = None \/
  method = ##"resources/templates/list" /\ provide_templates context request = None \/
  (exists uri, method = ##"resources/read" /\ parse_resource_uri params = Some uri /\
     provide_contents context request uri = None) \/
  method = ##"prompts/list" /\ provide_prompts context request = None \/
  (exists name arguments, method = ##"prompts/get" /\ parse_prompt_get params = Some (name, arguments) /\
     provide_prompt context request name arguments = None).

(** What it gave and is not admitted: more items than configured, two with one name, or
    contents of another resource. *)
Definition bad_items {A} (name : A -> str) (l : list A) : Prop :=
  (max_context_items config < List.length l)%nat \/ unique_values (map name l) = false.
Definition provider_invalid : Prop :=
  (exists l, method = ##"resources/list" /\ provide_resources context request = Some l /\
     bad_items (fun r => url_as_str (mr_uri r)) l) \/
  (exists l, method = ##"resources/templates/list" /\ provide_templates context request = Some l /\ bad_items mt_name l) \/
  (exists uri l, method = ##"resources/read" /\ parse_resource_uri params = Some uri /\
     provide_contents context request uri = Some l /\
     (l = [] \/ (max_context_items config < List.length l)%nat \/ forallb (fun c => url_eqb (mc_uri c) uri) l = false)) \/
  (exists l, method = ##"prompts/list" /\ provide_prompts context request = Some l /\ bad_items mp_name l) \/
  (exists name arguments prompt, method = ##"prompts/get" /\ parse_prompt_get params = Some (name, arguments) /\
     provide_prompt context request name arguments = Some prompt /\
     (max_context_items config < List.length (ps_messages prompt))%nat).

(** The errors, each with its cause. *)
Inductive error_for : Z -> str -> Prop :=
| ErrorVersion :
    method <> ##"initialize" -> valid_protocol_header request = false ->
    error_for (-32600) ##"missing or unsupported MCP protocol version"
| ErrorMethod : method ∉ METHODS -> error_for (-32601) ##"method not found"
| ErrorResources :
    method ∈ [ ##"resources/list"; ##"resources/templates/list"; ##"resources/read" ] ->
    cap_resources (capabilities context) = false -> error_for (-32601) ##"method not found"
| ErrorPrompts :
    method ∈ [ ##"prompts/list"; ##"prompts/get" ] -> cap_prompts (capabilities context) = false ->
    error_for (-32601) ##"method not found"
| ErrorInitialize :
    method = ##"initialize" ->
    value_get ##"protocolVersion" params ≫= as_str <> Some MCP_PROTOCOL_VERSION \/ is_object params = false ->
    error_for (-32602) ##"unsupported protocol version"
| ErrorList message :
    (method, message) ∈ [
      (##"tools/list", ##"invalid tools/list parameters"); (##"resources/list", ##"invalid resources/list parameters");
      (##"resources/templates/list", ##"invalid resources/templates/list parameters");
      (##"prompts/list", ##"invalid prompts/list parameters") ] ->
    valid_list_params params = false -> error_for (-32602) message
| ErrorRead :
    method = ##"resources/read" -> parse_resource_uri params = None ->
    error_for (-32602) ##"invalid resources/read parameters"
| ErrorGet :
    method = ##"prompts/get" -> parse_prompt_get params = None -> error_for (-32602) ##"invalid prompts/get parameters"
| ErrorCall :
    method = ##"tools/call" ->
    (forall name arguments c, parse_tool_call params = Some (name, arguments) ->
       call_new (next_call_id counter) name arguments <> Ok c) ->
    error_for (-32602) ##"invalid tools/call parameters"
| ErrorProvider : provider_failed -> error_for (-32000) ##"context provider failed"
| ErrorInvalid : provider_invalid -> error_for (-32000) ##"invalid context provider result"
| ErrorAccess :
    method = ##"tools/list" -> permitted_tools (mcp_access server) request = None ->
    error_for (-32000) ##"tool access policy failed"
| ErrorTools permitted :
    method = ##"tools/list" -> permitted_tools (mcp_access server) request = Some permitted ->
    (max_tool_items config < List.length (permitted_definitions permitted))%nat ->
    error_for (-32000) ##"tool list exceeds configured limit".

Lemma error_for_short code message :
  error_for code message -> (List.length (int_text code) + List.length (quoted message) <=? 100)%nat = true.
Proof.
  destruct 1 as [| | | | |message HM| | | | | | |]; try (vm_compute; reflexivity).
  repeat (apply elem_of_cons in HM as [[= _ ->]|HM]; [vm_compute; reflexivity|]). by apply not_elem_of_nil in HM.
Qed.
End message.

(** ** Answers *)

Definition limit_value : Value := error_value VNull (-32000) ##"response body exceeds configured limit".
Definition fits (id v : Value) : Prop := (List.length (compact (result_value id v)) <= max_response_bytes config)%nat.
(** A result that has no answer: it is too large, or a tool's text is not UTF-8 (which the
    text of Rust's strings always is). *)
Definition unanswerable (id v : Value) : Prop :=
  ~ fits id v \/ exists content, v = called content /\ valid_utf8 (compact content) = false.

(** An answer to the id [id]: with a result of the method, with an error that has its cause,
    or, without an id, the one error for a result of the method that is too large. *)
Inductive mcp_answer (results : Value -> Prop) (errors : Z -> str -> Prop) (id : Value) : Response -> Prop :=
| AnswerResult v : results v -> fits id v -> mcp_answer results errors id (json_bytes (compact (result_value id v)))
| AnswerError code message :
    errors code message ->
    (List.length (compact (error_value id code message)) <= MAX_PROTOCOL_ERROR_RESPONSE_BYTES)%nat ->
    mcp_answer results errors id (json_bytes (compact (error_value id code message)))
| AnswerLimit v : results v -> unanswerable id v -> mcp_answer results errors id (json_bytes (compact limit_value)).

(** ** Lemmas *)

Lemma limit_encoded : response_limit_error = json_bytes (compact limit_value).
Proof. apply error_encoded; [by apply Nat.leb_le | vm_compute; reflexivity]. Qed.

Lemma list_params_invalid params : negb (is_object params) || is_some (value_get ##"cursor" params) = negb (valid_list_params params).
Proof. unfold valid_list_params. by rewrite negb_andb, negb_involutive. Qed.

Section answers.
Context (id : Value) (Hid : short_id id).
Context (counter : Z) (request : Request) (params : Value).
Notation answer method := (mcp_answer (result_for request method params) (error_for counter request method params) id).

Lemma answer_result method v : result_for request method params v -> answer method (rpc_result server id v).
Proof.
  intros HR. unfold rpc_result, rpc_result_response. rewrite bounded_json_compact.
  destruct (_ <=? max_response_bytes config)%nat eqn:HL; [apply Nat.leb_le in HL; exact (AnswerResult _ _ _ v HR HL)|].
  apply Nat.leb_gt in HL. rewrite limit_encoded. apply (AnswerLimit _ _ _ v); [done|]. left. unfold fits. lia.
Qed.
Lemma answer_error method code message :
  error_for counter request method params code message -> answer method (rpc_error_response id code message).
Proof.
  intros HE. destruct (error_encoded id code message Hid (error_for_short _ _ _ _ _ _ HE)) as [-> HL].
  exact (AnswerError _ _ _ code message HE HL).
Qed.

Lemma initialize_answer : answer ##"initialize" (initialize server id params).
Proof.
  unfold initialize. destruct (negb _ || _) eqn:HV.
  - apply answer_error, ErrorInitialize; [done|]. apply orb_true_iff in HV as [HV%negb_true_iff|HV%negb_true_iff].
    + left. by apply bool_decide_eq_false in HV.
    + by right.
  - replace (rpc_result server id _) with (rpc_result server id (initialized)); [by apply answer_result, ResultInitialize|].
    unfold initialized. cbv zeta. by destruct (cap_resources _), (cap_prompts _).
Qed.

Lemma list_tools_answer : answer ##"tools/list" (list_tools server id request params).
Proof.
  unfold list_tools. rewrite list_params_invalid. destruct (valid_list_params params) eqn:HV; cbn [negb].
  2:{ apply answer_error, ErrorList; [left | done]. }
  destruct (permitted_tools _ request) as [permitted|] eqn:HP; [|by apply answer_error, ErrorAccess].
  rewrite visible_tools_spec by apply Nat.le_0_l. cbv zeta. rewrite app_nil_l, length_map.
  destruct (_ <=? _)%nat eqn:HL; [by apply answer_result, ResultTools|]. apply Nat.leb_gt in HL.
  by eapply answer_error, ErrorTools.
Qed.

(** The items that a provider gave, when they are not admitted. *)
Lemma bad_items_true {A} (name : A -> str) (l : list A) :
  (max_context_items config <? List.length l)%nat || negb (unique_values (map name l)) = true -> bad_items name l.
Proof. intros [HL%Nat.ltb_lt|HU%negb_true_iff]%orb_true_iff; [by left | by right]. Qed.

Lemma list_resources_answer : answer ##"resources/list" (list_resources server id request params).
Proof.
  unfold list_resources. destruct (cap_resources _) eqn:HC; cbn [negb].
  2:{ apply answer_error, ErrorResources; [left | done]. }
  destruct (valid_list_params params) eqn:HV; cbn [negb]; [|apply answer_error, ErrorList; [right; left | done]].
  destruct (provide_resources _ request) as [l|] eqn:HP; [|apply answer_error, ErrorProvider; by left].
  destruct (_ || _) eqn:HB; [apply bad_items_true in HB; apply answer_error, ErrorInvalid; left; by exists l|].
  rewrite (collected_transparent server limit_usize resource_wire resource_value) by apply resource_fair.
  by apply answer_result, ResultResources.
Qed.
Lemma list_resource_templates_answer : answer ##"resources/templates/list" (list_resource_templates server id request params).
Proof.
  unfold list_resource_templates. destruct (cap_resources _) eqn:HC; cbn [negb].
  2:{ apply answer_error, ErrorResources; [right; left | done]. }
  destruct (valid_list_params params) eqn:HV; cbn [negb]; [|apply answer_error, ErrorList; [right; right; left | done]].
  destruct (provide_templates _ request) as [l|] eqn:HP; [|apply answer_error, ErrorProvider; right; by left].
  destruct (_ || _) eqn:HB; [apply bad_items_true in HB; apply answer_error, ErrorInvalid; right; left; by exists l|].
  rewrite (collected_transparent server limit_usize template_wire template_value) by apply template_fair.
  by apply answer_result, ResultTemplates.
Qed.
Lemma read_resource_answer : answer ##"resources/read" (read_resource server id request params).
Proof.
  unfold read_resource. destruct (cap_resources _) eqn:HC; cbn [negb].
  2:{ apply answer_error, ErrorResources; [right; right; left | done]. }
  destruct (parse_resource_uri params) as [uri|] eqn:HU; [|by apply answer_error, ErrorRead].
  destruct (provide_contents _ request uri) as [l|] eqn:HP; [|apply answer_error, ErrorProvider; do 2 right; left; by exists uri].
  destruct (_ || existsb _ l) eqn:HB.
  - apply answer_error, ErrorInvalid. do 2 right. left. exists uri, l. split_and!; [done..|].
    rewrite existsb_negb in HB. apply orb_true_iff in HB as [[HL%Nat.eqb_eq|HL%Nat.ltb_lt]%orb_true_iff|HB%negb_true_iff].
    + left. by apply nil_length_inv.
    + right. by left.
    + right. by right.
  - rewrite (collected_transparent server limit_usize contents_wire contents_value) by apply contents_fair.
    by eapply answer_result, ResultContents.
Qed.
Lemma list_prompts_answer : answer ##"prompts/list" (list_prompts server id request params).
Proof.
  unfold list_prompts. destruct (cap_prompts _) eqn:HC; cbn [negb].
  2:{ apply answer_error, ErrorPrompts; [left | done]. }
  destruct (valid_list_params params) eqn:HV; cbn [negb]; [|apply answer_error, ErrorList; [do 3 right; left | done]].
  destruct (provide_prompts _ request) as [l|] eqn:HP; [|apply answer_error, ErrorProvider; do 3 right; by left].
  destruct (_ || _) eqn:HB; [apply bad_items_true in HB; apply answer_error, ErrorInvalid; do 3 right; left; by exists l|].
  rewrite (collected_transparent server limit_usize prompt_wire prompt_value) by apply prompt_fair.
  by apply answer_result, ResultPrompts.
Qed.
Lemma get_prompt_answer : answer ##"prompts/get" (get_prompt server id request params).
Proof.
  unfold get_prompt. destruct (cap_prompts _) eqn:HC; cbn [negb].
  2:{ apply answer_error, ErrorPrompts; [right; left | done]. }
  destruct (parse_prompt_get params) as [[name arguments]|] eqn:HN; [|by apply answer_error, ErrorGet].
  destruct (provide_prompt _ request name arguments) as [prompt|] eqn:HP;
    [|apply answer_error, ErrorProvider; do 4 right; by exists name, arguments].
  destruct (_ <? _)%nat eqn:HB.
  - apply Nat.ltb_lt in HB. apply answer_error, ErrorInvalid. do 4 right. by exists name, arguments, prompt.
  - destruct (prompt_result_fair prompt) as (n & HS & HL).
    assert (HT : under_budget server (prompt_result_wire prompt) (rpc_result server id) = rpc_result server id (prompt_result_value prompt))
      by exact (budget_transparent server limit_usize _ _ n id (fun v => v) HS HL).
    rewrite HT. by eapply answer_result, ResultPrompt.
Qed.

(** The content of a tool's result is part of the answer. *)
Lemma called_size content : (List.length (compact content) <= List.length (compact (result_value id (called content))))%nat.
Proof.
  apply Nat2Z.inj_le. etrans; [|apply (result_size server)]. etrans; [|apply object_size].
  unfold field_sizes, sizes. cbn [map foldr snd]. lia.
Qed.
Lemma tool_answer_answer executed : answer ##"tools/call" (tool_answer (E := E) server id executed).
Proof.
  destruct executed as [r|e]; cbn [tool_answer]; [|by apply answer_result, ResultFailed].
  unfold tool_success. rewrite bounded_json_compact. destruct (_ <=? _)%nat eqn:HL; cbn [mbind option_bind].
  - destruct (valid_utf8 (compact (result_content r))) eqn:HU; cbn [negb].
    + by apply (answer_result _ (called (result_content r))), ResultCalled.
    + rewrite limit_encoded. apply (AnswerLimit _ _ _ (called (result_content r))); [by apply ResultCalled|]. right. eauto.
  - apply Nat.leb_gt in HL. rewrite limit_encoded. apply (AnswerLimit _ _ _ (called (result_content r))); [by apply ResultCalled|].
    left. unfold fits. pose proof (called_size (result_content r)). lia.
Qed.
End answers.

Lemma all_returns_Ret {A} (P : A -> Prop) (a : A) : P a -> all_returns (call := @call app) P (Ret a).
Proof. done. Qed.

(** A method that is asked for by name, and the others. *)
Ltac method_case tac :=
  match goal with |- context [if str_eqb ?m ?t then _ else _] =>
    let HE := fresh "HE" in destruct (str_eqb m t) eqn:HE; [apply str_eqb_true in HE as ->; tac | apply bool_decide_eq_false in HE] end.

Lemma handle_answer counter request rpc id :
  short_id id -> admit_message server request = Ok rpc -> rpc_id rpc = Some id ->
  all_returns (mcp_answer (result_for (drained request) (rpc_method rpc) (rpc_params rpc))
                 (error_for counter (drained request) (rpc_method rpc) (rpc_params rpc)) id)
    (mcp_handle server counter request).
Proof.
  intros Hid HA HI. unfold mcp_handle. rewrite HA, HI. cbv zeta. destruct rpc as [i method params]. cbn [rpc_method rpc_params].
  destruct (negb _ && negb _) eqn:HV.
  { apply all_returns_Ret, answer_error; [done|]. apply andb_prop in HV as [HM%negb_true_iff HV%negb_true_iff].
    apply ErrorVersion; [|done]. by apply bool_decide_eq_false in HM. }
  clear HV.
  method_case ltac:(by apply all_returns_Ret, initialize_answer).
  method_case ltac:(by apply all_returns_Ret, list_tools_answer).
  method_case ltac:(by apply all_returns_Ret, list_resources_answer).
  method_case ltac:(by apply all_returns_Ret, list_resource_templates_answer).
  method_case ltac:(by apply all_returns_Ret, read_resource_answer).
  method_case ltac:(by apply all_returns_Ret, list_prompts_answer).
  method_case ltac:(by apply all_returns_Ret, get_prompt_answer).
  method_case idtac.
  - destruct (prepare_tool_call _ _ _ _) as [| |context c] eqn:HP.
    + apply all_returns_Ret, answer_error; [done|]. apply ErrorCall; [done|]. intros name arguments c HN HC.
      unfold prepare_tool_call in HP. rewrite HN, HC in HP. repeat case_match; done.
    + by apply all_returns_Ret, answer_result, ResultFailed.
    + apply all_returns_bind. intros executed. apply all_returns_Ret, tool_answer_answer.
  - apply all_returns_Ret, answer_error; [done|]. apply ErrorMethod. intros HIn. unfold METHODS in HIn.
    repeat (apply elem_of_cons in HIn as [HIn|HIn]; [contradiction|]).
    by apply not_elem_of_nil in HIn.
Qed.

(** ** Properties *)

End server.

(** ** Answers to a tool call *)

Module McpAnswerExamples.
Import HttpModel OidcModel McpExamples.


(** A result within the limit of 400 bytes, and one over it. *)
Example answers_encoded :
  map (fun content => match res_body (tool_answer (E := unit) mailer (VInt 7) (Ok (result_from_call
        {| call_id := ##"mcp-server-1"; call_name := ##"mail"; call_arguments := mail_arguments |} content))) with
       | [inl b] => Some (List.length b) | _ => None end)
    [VString ##"sent"; VString (List.repeat "x"%char 300)]
  = [Some (List.length (compact (result_value (VInt 7) (called (VString ##"sent"))))); Some (List.length (compact limit_value))].
Proof. vm_compute. reflexivity. Qed.
End McpAnswerExamples.
