(* ===== verification/McpSystem.v ===== *)
(** MCP servers on one database: requests of [Mcp] whose tools are audited through the stores
    of [AiSystem], in any interleaving. *)

From Stdlib Require Import ZArith Lia Bool Ascii.
From stdpp Require Import gmap relations.
From S2P Require Import Prelude Strings BTree Http Core HttpModel Json Outbox Effects AiProtocol AiTables AiPipeline AiLedger AiAccounting AiSystem JsonValue Identity Oidc McpContext Mcp.

Local Open Scope Z_scope.

Section system.
Context `{HttpApi, UrlApi, EncodingApi, JsonText, Postgres} `{!Serialize ErrorPayload}.
Context {ProviderError AdvisorError BudgetError ApprovalError : Type}.
Notation app := (@mcp_app _ ProviderError AdvisorError BudgetError ApprovalError).
Context {E : Type} {sink : @ToolAuditSink app E} {promises : AuditPromises sink}.
Context (server : @McpServer _ _ _ ProviderError AdvisorError BudgetError ApprovalError).

(** A request, with the counter of its server's calls before it. *)
Definition mcp_client : Type := Z * Request.
Definition mcp_prog (c : mcp_client) : program (@call app) Response := mcp_handle server c.1 c.2.
Definition mcp_key (c : mcp_client) : ActionKey :=
  match requested_tool server c.1 c.2 with Some (_, context, _) => tool_action context | None => ([], []) end.
Definition mcp_answered (i : nat) (c : mcp_client) := @answered app _ i (mcp_key c).

Notation State := (Effects.system (call := @call app) shared mcp_client Response).
Definition mcp_step : State -> State -> Prop := Effects.step mcp_prog mcp_answered clock_moves.
Definition mcp_empty (now : Z) : State :=
  {| world := {| tables := {| db_clock := now; usage_rows := ∅; audit_rows := ∅ |}; log := [] |}; callers := [] |}.
Definition mcp_reachable (s : State) : Prop := exists now, rtc mcp_step (mcp_empty now) s.

(** What an answer says: nothing was done for it, or the tool call that its request is
    authorized for, with the outcome the answer was made of. *)
Definition mcp_post (c : mcp_client) (i : nat) (r : Response) (s : shared) : Prop :=
  match requested_tool server c.1 c.2 with
  | None => own i (log s) = []
  | Some (id, context, t) =>
      tool_authorized server c.2 context (call_name t) (call_arguments t) /\
      exists executed, r = tool_answer (E := E) server id executed /\
        execution_audited_post (H := app) i (tool_action context) (call_name t) executed s
  end.

Lemma wp_mcp i c s : fresh i s -> Effects.wp (rely i) (mcp_answered i c) inv grows (mcp_prog c) (mcp_post c i) s.
Proof.
  intros HF. unfold mcp_prog, mcp_answered, mcp_key. pose proof (handle_requested server c.1 c.2) as HR.
  destruct (requested_tool server c.1 c.2) as [[[id context] t]|] eqn:HT.
  - rewrite HR. apply wp_bind. eapply wp_mono; [|exact (wp_execute_with_execution_audit (H := app) i (mcp_registry server) context t s HF)].
    intros executed s' HE. apply wp_ret. unfold mcp_post. rewrite HT.
    split; [by eapply requested_authorized | by exists executed].
  - destruct HR as [r ->]. apply wp_ret. unfold mcp_post. by rewrite HT.
Qed.

#[export] Instance mcp_system_laws :
  SystemLaws mcp_prog mcp_answered clock_moves inv grows rely fresh mcp_post.
Proof.
  split.
  - intros i c w HF _. by apply wp_mcp.
  - intros i j c X f w x w' Hij (t' & Ha & ->) HG. split; [done | by apply after_other].
  - intros i w w' [_ HO]. unfold fresh. by rewrite HO.
  - intros w w' [] [now ->]. split_and!; [by split | by split | by split].
Qed.

Notation mcp_inv := (Effects.system_inv mcp_answered inv grows rely fresh mcp_post).

Lemma mcp_empty_inv now : mcp_inv (mcp_empty now).
Proof. split; [apply inv_empty | done | done]. Qed.

Lemma mcp_reachable_inv s : mcp_reachable s -> mcp_inv s.
Proof.
  intros [now Hs].
  by destruct (steps_inv mcp_prog mcp_answered clock_moves inv grows rely fresh mcp_post _ _ (mcp_empty_inv now) Hs).
Qed.

Lemma mcp_post_mono c i r s s' : rely i s s' -> mcp_post c i r s -> mcp_post c i r s'.
Proof.
  intros HR. unfold mcp_post. destruct (requested_tool _ _ _) as [[[id context] t]|].
  - intros (HA & executed & -> & HE). split; [done|]. exists executed. split; [done|].
    exact (execution_audited_post_mono (H := app) i _ _ executed s s' HR HE).
  - destruct HR as [_ HO]. by rewrite HO.
Qed.

(** ** Properties *)

End system.

(** ** A run *)

Module McpRun.
Import HttpModel OidcModel McpExamples.
#[local] Existing Instance AiExamples.server.

(** The approval policy approves, the tool answers, the database accepts. *)
Definition reply {X} (c : @call app X) : AiTables -> X * AiTables :=
  match c in call X return AiTables -> X * AiTables with
  | ProviderComplete _ | BeforeRequest _ | AfterResponse _ | OnStreamEvent _ => fun t => (Err tt, t)
  | ProviderStream _ => fun t => (Err tt, t)
  | PollStream => fun t => (None, t)
  | Admit _ _ => fun t => (Ok BudgetApproved, t)
  | Approve _ _ _ => fun t => (Ok ToolApproved, t)
  | RunTool _ _ _ => fun t => (Ok (VString ##"sent"), t)
  | Statement text meaning => fun t => execute text meaning t
  end.
Lemma mcp_reply_answers {X} (c : @call app X) t : answers c t (reply c t).1 (reply c t).2.
Proof. destruct c; try done. left. apply surjective_pairing. Qed.

Notation State := (Effects.system (call := @call app) shared mcp_client Response).
Notation step := (mcp_step (sink := audit) mailer).

Definition go (i : nat) (s : State) : State :=
  match callers s !! i with
  | Some {| th_client := c; th_rest := Vis f kont |} =>
      let '(x, t') := reply f (tables (world s)) in
      {| world := after i (mcp_key mailer c) f x t' (world s);
         callers := <[i := {| th_client := c; th_rest := kont x |}]> (callers s) |}
  | _ => s
  end.
Lemma mcp_go_step i s : rtc step s (go i s).
Proof.
  unfold go. destruct (callers s !! i) as [[c [o|X f kont]]|] eqn:Ei; [done | | done].
  pose proof (mcp_reply_answers f (tables (world s))) as Ha. destruct (reply f (tables (world s))) as [x t'].
  apply rtc_once. eapply step_call; [exact Ei | by exists t'].
Qed.
Lemma mcp_gos_step l s : rtc step s (foldl (fun s i => go i s) s l).
Proof. revert s. induction l as [|i l IH]; intros s; [done|]. etrans; [apply mcp_go_step | apply IH]. Qed.

Definition client : mcp_client := (0, call_request).
Definition empty : State := mcp_empty 0.
Definition begun : State :=
  {| world := world empty;
     callers := callers empty ++ [{| th_client := client; th_rest := mcp_prog (sink := audit) mailer client |}] |}.
Definition final : State := foldl (fun s i => go i s) begun [0; 0; 0; 0]%nat.
Lemma mcp_final_reachable : mcp_reachable (sink := audit) mailer final.
Proof. exists 0. etrans; [|apply mcp_gos_step]. apply rtc_once, step_start. Qed.

Definition sent : Response :=
  tool_answer (E := PostgresToolAuditError) mailer (VInt 7)
    (Ok {| result_call_id := ##"mcp-server-1"; result_name := ##"mail"; result_content := VString ##"sent" |}).

End McpRun.
